(* ===== verification/_CoqProject ===== *)
-Q . S2P
Prelude.v
GoStrings.v
Sha256.v
Store.v
World.v
PgCore.v
PgUsers.v
PgFleet.v
PgPipelines.v
PgMisc.v
StoreCalls.v
StoreInv.v
PipelineInv.v
StoreProps.v
Tokens.v
Slug.v
Tenants.v
IngestAuth.v
TenantsProps.v
KeyCache.v
TenantAuth.v
Binary64.v
TenantQuota.v
TenantStamp.v
Gateway.v
AuditLog.v
OpAMP.v
OpampHandler.v
OpampProps.v
OpampSafety.v
OpampAuth.v
GoText.v
Json.v
Catalog.v
PipelineGraph.v
Render.v
Validate.v
RenderProps.v
AesGcm.v
Crypto.v
Secrets.v
SecretsProps.v
PipelineService.v
PipelineServiceProps.v
K8s.v
Auth.v
ApiTypes.v
ApiGuard.v
ApiHandlers.v
ApiAdmin.v
ApiRoutes.v
ApiFrame.v
ApiRoles.v
ApiScope.v
JsonText.v
Webhooks.v
WebhooksProps.v
Scim.v
ScimProps.v
GoTime.v
Telemetry.v
Stats.v
UsageFacts.v
Billing.v
Retention.v
ApiTelemetry.v
TelemetryProps.v
LogPaging.v
Sso.v
SsoProps.v
Config.v
Workers.v
ApiProviders.v
ApiHttp.v
Ctl.v
CtlClient.v
ApiHttpProps.v
CtlMain.v
CtlLaws.v
CtlProps.v
