(* ===== verification/Prelude.v ===== *)
(** * otelfleet: a verification development

    otelfleet is a multi-tenant control plane for OpenTelemetry collectors: a
    Go service over PostgreSQL (src/internal, src/cmd), the extensions and
    processors of the gateway collectors (src/collector) and a command line
    (src/cmd/otelfleetctl).  This library models the parts that decide who may
    do what and which data reaches whom, and proves them correct.  Every
    definition follows the Go code; the file that models a source says so in
    its first lines.

    ** The parts and how they meet

    The store is the only shared state of the control plane.  Its tables, what
    one SQL statement and one transaction do to them and the oracle of failures
    are in [World]; the methods of [store.PG] (internal/store/pg*.go) are in
    [PgCore], [PgUsers], [PgFleet], [PgPipelines] and [PgMisc], each the
    sequence of its statements with the constraints of the migrations.  A
    computation is [M state error A]: a function from the state to a result or
    an error and the state after it ([Prelude]).  [StoreCalls.call] is one call
    of the store and [StoreCalls.step] one call in any environment, so that a
    history of the control plane is a path of [step].

    On top of the store are the services:
    - [Tokens], [Slug], [Tenants]: credentials, slugs and the tenants service
      (internal/tenants);
    - [Catalog], [PipelineGraph], [Render], [Validate], [AesGcm], [Crypto],
      [Secrets], [PipelineService], [K8s]: the component catalog, the graphs,
      the two renderers, validation, secrets, the pipeline service and the
      Kubernetes distributor (internal/pipelines, internal/crypto);
    - [OpAMP], [OpampHandler], [OpampAuth]: the registry of agent connections
      and the message handler with its authentication (internal/opamp);
    - [IngestAuth]: the gRPC service gateways ask about ingest keys
      (internal/ingestauth);
    - [Webhooks], [Scim], [Retention]: the dispatcher of fleet events with its
      retries, SCIM provisioning, the sweep of old telemetry (internal/webhooks,
      internal/scim, internal/retention);
    - [Telemetry], [Stats], [UsageFacts], [Billing], [LogPaging]: what is read
      of ClickHouse and VictoriaMetrics, usage, cost and monthly statements,
      and the cursor of the log query (internal/stats, internal/query);
    - [Auth], [Sso]: sessions and the browser sign-in through OIDC, GitHub and
      SAML providers (internal/auth);
    - [ApiTypes], [ApiGuard], [ApiHandlers], [ApiAdmin], [ApiProviders],
      [ApiTelemetry], [ApiRoutes]: the Guard, the handlers and the routes of the
      management API (internal/api);
    - [ApiHttp]: from a request's bytes to its operation: the route table, the
      wrappers and strict handlers of apigen, the router group (router.go,
      rawbody.go), and from a response to the status and JSON its Visit method
      writes ([ApiHttp.ApiEncode]); the ops listener with the configuration
      gateways pull ([ApiHttp.Ops], ops.go) and the web interface
      ([ApiHttp.Spa], spa.go);
    - [Config], [Workers]: the configuration, the TLS settings and tasks of a
      process, and its background workers with the listener for edge changes
      (internal/config, internal/tlsconf, internal/pgnotify, cmd/otelfleet).

    The gateway collectors run [KeyCache] and [TenantAuth] (extension
    tenantauth, a client of [IngestAuth]), [TenantQuota] and [TenantStamp]
    (processors); each is a state record with one function per operation, and
    [Gateway] is their composition with the quota factory and the control plane
    behind it.
    [Ctl], [CtlClient] and [CtlMain] are otelfleetctl: export and apply against
    the interface of the management API, its HTTP client and its commands.

    [GoStrings], [GoText], [GoTime], [Json], [JsonText], [Binary64] and [Sha256]
    model what the code uses of Go and its standard library.  Interfaces between parts are classes: [KeyStore] (IngestAuth), [Distributor]
    (PipelineService, with the instances of [PipelineService] and [K8s]),
    [AttrMap] (TenantStamp), [SessionManager] (Auth), [FleetAPI] (Ctl, with
    its laws [FleetLaws] in [CtlLaws] and the instances of [CtlLaws] and
    [CtlClient]); third-party code and what is behind the network are classes
    as well ([YAML], [JSONSchema], [OtelCol], [NetURL], [X509], [PEM],
    [UuidParse], [NameUUID], [ClickHouse], [VictoriaMetrics], [HTTPClient],
    [HTTPGet], [HTTPTransport], [IdP], [KubeAPI], [YAMLMap], [SpecYAML],
    [Boot], [Mux], [OapiRuntime], [JSONBytes], [EmailText], [FloatText], [WebFiles]) whose
    laws, where a theorem needs them, are classes of their own.

    ** What is proved

    - Store ([StoreProps], with [StoreInv], [PipelineInv]): calls
      are atomic and audited; an enabled admin remains; version numbers are
      gapless and the active version belongs to its pipeline; the use counter
      of an enrollment token covers the agents enrolled with it; deleting a
      customer revokes its keys; what blocks the deletion of a user.  Calls
      run one after the other; two that overlap can remove the last admin (the
      example of [StoreProps.Interleave]).
    - Tenants ([TenantsProps], [Tokens], [Slug]): slugs are valid (and which
      deduplicated ones are not), creation terminates, minted credentials parse
      back, parsers exclude each other's credentials.
    - Ingest path ([IngestAuth], [KeyCache], [TenantAuth], [TenantQuota],
      [TenantStamp]): a key is accepted only for its active customer before its
      expiry; the linked LRU implements an abstract one; the authenticator's
      answers while the control plane is away; data
      carries the identity of its tenant and no claim of the sender.  End to
      end ([Gateway]): data leaves only for a key that was live when the control
      plane was last asked, revocation takes effect within the cache times, and
      a tenant's quota holds over all signals together, in the doubles the
      processor computes with ([Binary64], the rounding of every operation
      counted).
    - OpAMP ([OpampProps], [OpampSafety], [OpampAuth]): what each message
      changes, a configuration reaches only agents of its customer, enrollment
      and authentication of a connection.
    - Pipelines ([RenderProps], [SecretsProps], [PipelineServiceProps], [K8s]):
      rendered trees are well formed and independent of the order of the input,
      telemetry of a tenant reaches its own exporters, secrets leave redacted
      and come back intact, whatever happened before active pipelines render,
      and what a rollout to Kubernetes changes and what it leaves behind.
    - Management API ([ApiFrame], [ApiRoles], [ApiScope],
      [ApiProviders]): which roles change which tables, and tenant isolation.
      [ApiHttpProps]: every request is denied, refused with 400, or served as
      one of those operations, however its path is spelled; the tri-state
      members of a customer PATCH; what keeps an answer from being written
      ([EncodeProps]), and otelfleetctl reads what was written ([Wire]);
      a gateway pulls the rendered active pipelines ([OpsProps]); no file
      outside the web directory is served ([SpaProps]).
    - Sign-in ([SsoProps]): a session is opened only for the account an
      identity provider vouched for in a flow this browser started, a callback
      works once, the login page offers what resolves.
    - SCIM and webhooks ([ScimProps], [WebhooksProps]): provisioning needs an
      admin's token, adds users of the default role and otherwise changes names
      and the disabled flag, and whom it removes is locked out; queued events
      are delivered.
    - Telemetry ([TelemetryProps], [LogPaging], [Retention], [Billing],
      [UsageFacts]): reads return the rows of their customer, log pages cover
      the matching rows, the sweep deletes exactly the rows past the override,
      statements add up within the rounding of the code.
    - Audit log ([AuditLog]): it only grows, and pages cover it exactly.
    - otelfleetctl ([CtlProps], [CtlClient], [CtlMain]): what applying a spec
      makes of every customer and pipeline it names, that it leaves the rest
      alone and that a second run changes nothing; what applying an exported
      file prints and plans, which is nothing unless a graph changes in YAML; a
      dry run only reads, graphs survive the JSON of the client,
      nothing is sent without a token.
    - A process ([Config], [Workers]): a loaded configuration is sound, which
      listeners verify client certificates, the tiers split the tasks, the wait
      for PostgreSQL ends, announced edge changes are pushed while the listener
      is connected, when the retention worker panics.

    Theorems that describe a defect say what the code does, on a concrete run
    where that is the point; [Example]s next to them show the others.

    ** Bounds and fuel

    Integers of the code are [Z] or [N] with their width written out where an
    operation can leave it.  Recursion is structural except for a few loops
    with fuel: ten attempts of [Tenants.create_loop] (the [maxAttempts] of the
    code, running out is the error of the code), [Config.wait_loop] (enough
    fuel is proved to answer), the columns of [CtlMain.format] (at most the
    cells of the widest line), and parsers and encoders on strings with the
    length of the rest as fuel, which each step shortens.  Times are
    nanoseconds in [Z], UUIDs are 128-bit [N], strings are bytes, float64 is
    [spec_float] with 53 bits.  The quota's bound allows 2^-48 for rounding, of
    the allowance and of a full bucket per batch, where a batch takes ten
    operations of error 2^-52.

    ** Not modelled

    - Transactions that overlap: statements of one call run without others in
      between (READ COMMITTED would allow them); where that matters an [Example]
      says so ([StoreProps.Interleave]).
    - Generated code beyond what it does with a request and a response: the
      embedded document of apigen, the protobuf stubs of both authv1 packages.
    - The SQL and PromQL texts of the telemetry reads beyond their meaning as
      queries on rows; the protocols behind [IdP] (signatures of tokens and
      assertions).
    - Constructing the services in main, logging, metrics, the graceful
      shutdown, the migrations runner (the schema is [World]) and the factories
      that register the collector components. *)
From stdpp Require Export base tactics option list strings gmap sorting numbers.

#[global] Set Default Goal Selector "!".
#[global] Open Scope general_if_scope.

(** ** Lists *)

Lemma filter_all {A} (P : A → Prop) `{!∀ x, Decision (P x)} (l : list A) :
  (∀ x, x ∈ l → P x) → filter P l = l.
Proof.
  induction l as [|x l IH]; intros HP; [done|].
  rewrite filter_cons_True by (apply HP; left). f_equal. apply IH. intros; apply HP. by right.
Qed.

Lemma filter_none {A} (P : A → Prop) `{!∀ x, Decision (P x)} (l : list A) :
  (∀ x, x ∈ l → ¬ P x) → filter P l = [].
Proof.
  induction l as [|x l IH]; intros HP; [done|].
  rewrite filter_cons_False by (apply HP; left). apply IH. intros; apply HP. by right.
Qed.

Lemma omap_ext_in {A B} (f g : A → option B) (l : list A) :
  (∀ x, x ∈ l → f x = g x) → omap f l = omap g l.
Proof.
  induction l as [|x l IH]; intros Hfg; [done|]. cbn [omap list_omap].
  rewrite (Hfg x) by left. rewrite IH; [done|]. intros; apply Hfg. by right.
Qed.

(** ** Record update

    [r <| f := v |>] is [r] with field [f] replaced, as Go's assignment to a
    field or an SQL [SET] clause.  A record opts in by an instance of [Eta],
    its constructor applied to its own projections; the setter of a field is
    found by abstracting that projection. *)

Class Eta (R : Type) := eta : R → R.
Class Setter {R A} (proj : R → A) := setf : (A → A) → R → R.
#[global] Arguments setf {R A} proj {Setter} f r /.

Ltac solve_setter :=
  match goal with
  | |- @Setter ?R ?A ?proj =>
    let e := eval hnf in (@eta R _) in
    let s := eval pattern proj in e in
    match s with
    | ?F _ =>
      let t := eval cbv beta in
        (λ (f : A → A) (r : R), F (λ x : R, f (proj x)) r) in
      exact t
    end
  end.
#[export] Hint Extern 0 (Setter _) => solve_setter : typeclass_instances.

Declare Scope record_scope.
Notation "r <| f := v |>" := (setf f (λ _, v) r)
  (at level 1, left associativity, f at level 9, v at level 200) : record_scope.
Notation "r <| f ::= g |>" := (setf f g r)
  (at level 1, left associativity, f at level 9, g at level 200) : record_scope.
#[global] Open Scope record_scope.

(** ** State-and-error computations

    Go code that reads and writes shared state and returns [(T, error)] is
    a function from the state before the call to a value or an error and the
    state after it.  The state survives an error: only an SQL transaction
    rolls back, and that is [World.inTx], not the monad. *)

Definition M (S E A : Type) : Type := S → (A + E) * S.

#[export] Instance M_ret S E : MRet (M S E) := λ A a s, (inl a, s).
#[export] Instance M_bind S E : MBind (M S E) := λ A B f m s,
  match m s with
  | (inl a, s') => f a s'
  | (inr e, s') => (inr e, s')
  end.

#[export] Instance M_throw S E : MThrow E (M S E) := λ A e s, (inr e, s).
Definition mget {S E} : M S E S := λ s, (inl s, s).
Definition mput {S E} (s' : S) : M S E unit := λ _, (inl tt, s').
Definition mmodify {S E} (f : S → S) : M S E unit := λ s, (inl tt, f s).
Definition mgets {S E A} (f : S → A) : M S E A := λ s, (inl (f s), s).

(** [try m]: the caller looks at the error value itself, as in
    [x, err := f(); if err != nil {...}]. *)
Definition mtry {S E A} (m : M S E A) : M S E (A + E) := λ s,
  let '(r, s') := m s in (inl r, s').

(** [mwhen b m]: a conditional statement without an else branch. *)
Definition mwhen {S E} (b : bool) (m : M S E unit) : M S E unit :=
  if b then m else mret tt.

(** A [for _, x := range l] loop whose body may return an error early. *)
Fixpoint mfor {S E A} (l : list A) (f : A → M S E unit) : M S E unit :=
  match l with
  | [] => mret tt
  | x :: l' => f x ;; mfor l' f
  end.

(** ** Specifications of computations

    [steps R m]: every run of [m], failing or not, relates the state before
    to the state after by [R].  With a preorder [R] the property is
    compositional, which is what the [steps] hint database uses; an invariant
    [P] is the preorder [λ s s', P s → P s']. *)

Definition steps {S E A} (R : relation S) (m : M S E A) : Prop :=
  ∀ s, R s (m s).2.

Definition inv_rel {S} (P : S → Prop) : relation S := λ s s', P s → P s'.

#[export] Instance inv_rel_preorder {S} (P : S → Prop) : PreOrder (inv_rel P).
Proof. split; unfold inv_rel; repeat intro; auto. Qed.

Abbreviation keeps P m := (steps (inv_rel P) m).

Section Steps.
Context {S E : Type} (R : relation S) `{!PreOrder R}.

Lemma steps_ret {A} (a : A) : steps R (mret a : M S E A).
Proof. intros s; reflexivity. Qed.

Lemma steps_throw {A} (e : E) : steps R (mthrow e : M S E A).
Proof. intros s; reflexivity. Qed.

Lemma steps_get : steps R (mget : M S E S).
Proof. intros s; reflexivity. Qed.

Lemma steps_gets {A} (f : S → A) : steps R (mgets f : M S E A).
Proof. intros s; reflexivity. Qed.

Lemma steps_bind {A B} (m : M S E A) (f : A → M S E B) :
  steps R m → (∀ a, steps R (f a)) → steps R (m ≫= f).
Proof.
  intros Hm Hf s; specialize (Hm s); unfold mbind, M_bind.
  destruct (m s) as [[a|e] s']; simpl in *; [|done].
  etrans; [exact Hm|apply Hf].
Qed.

Lemma steps_try {A} (m : M S E A) : steps R m → steps R (mtry m).
Proof. intros Hm s; specialize (Hm s); unfold mtry; by destruct (m s). Qed.

Lemma steps_when (b : bool) (m : M S E unit) :
  steps R m → steps R (mwhen b m).
Proof. destruct b; [done|intros _; apply steps_ret]. Qed.

Lemma steps_for {A} (l : list A) (f : A → M S E unit) :
  (∀ x, steps R (f x)) → steps R (mfor l f).
Proof.
  intros Hf; induction l as [|x l IH]; simpl; [apply steps_ret|].
  apply steps_bind; auto.
Qed.

Lemma steps_modify (f : S → S) :
  (∀ s, R s (f s)) → steps R (mmodify f : M S E unit).
Proof. intros Hf s; apply Hf. Qed.

End Steps.

Lemma steps_mono {S E A} (R R' : relation S) (m : M S E A) :
  (∀ s s', R s s' → R' s s') → steps R m → steps R' m.
Proof. intros Hm H s; apply Hm, H. Qed.

Create HintDb steps discriminated.
#[export] Hint Resolve steps_ret steps_throw steps_get steps_gets steps_try
  steps_when : steps.
#[export] Hint Extern 1 (PreOrder _) => typeclasses eauto : steps.

(** Walks down a computation: binds, conditionals and matches are split,
    leaves are left to the hint database (which holds the component's own
    [steps] lemmas). *)
Ltac steps_tac :=
  repeat first
    [ progress eauto 2 with steps
    | lazymatch goal with
      | |- steps _ (_ ≫= _) => apply steps_bind; [typeclasses eauto| |intros ?]
      | |- steps _ (mfor _ _) => apply steps_for; [typeclasses eauto|intros ?]
      | |- steps _ (mtry _) => apply steps_try
      | |- steps _ (mwhen _ _) => apply steps_when; [typeclasses eauto|]
      | |- steps _ (match ?x with _ => _ end) => destruct x
      | |- steps _ (let _ := _ in _) => cbv zeta
      end ].
