(* ===== verification/GoStrings.v ===== *)
(** * Go strings, bytes and integers

    What the program uses of Go's [strings], [unicode/utf8], [strconv],
    [encoding/hex] and [encoding/base64] packages, on strings as sequences of
    bytes: Rocq's [string] with one [ascii] per byte stands both for a Go
    [string] and for a [[]byte].  A [range] loop over a string sees the runes
    of its UTF-8 decoding ([runes]); [len] is the number of bytes. *)
From Stdlib Require Import Ascii.
From stdpp Require Export pretty.
From S2P Require Import Prelude.
#[local] Open Scope N_scope.

Abbreviation code := N_of_ascii.
Abbreviation len s := (Z.of_nat (String.length s)).

(** ** Character classes *)

Definition in_range (lo hi c : N) : bool := (lo <=? c) && (c <=? hi).
Definition is_digit (c : N) : bool := in_range 48 57 c.
Definition is_lower (c : N) : bool := in_range 97 122 c.
Definition is_upper (c : N) : bool := in_range 65 90 c.

Definition all_bytes (p : N → bool) (s : string) : bool :=
  forallb (λ a, p (code a)) (String.list_ascii_of_string s).

(** ** UTF-8

    [utf8.DecodeRuneInString]: invalid input yields [RuneError] and consumes
    one byte, so decoding never fails. *)

Definition RuneError : N := 65533.

Definition is_cont (a : ascii) : bool := in_range 128 191 (code a).

(** The second byte of a two-, three- or four-byte sequence opened by [b0]. *)
Definition second_ok (b0 b1 : N) : bool :=
  if b0 =? 224 then in_range 160 191 b1
  else if b0 =? 237 then in_range 128 159 b1
  else if b0 =? 240 then in_range 144 191 b1
  else if b0 =? 244 then in_range 128 143 b1
  else in_range 128 191 b1.

(** Decodes a string into runes, each with the bytes it was read from. *)
Fixpoint decode (s : string) : list (N * string) :=
  match s with
  | "" => []
  | String a s1 =>
    let b0 := code a in
    let bad := (RuneError, String a "") in
    if b0 <? 128 then (b0, String a "") :: decode s1
    else if in_range 194 223 b0 then
      match s1 with
      | String b s2 =>
        if second_ok b0 (code b)
        then ((b0 - 192) * 64 + (code b - 128), String a (String b "")) :: decode s2
        else bad :: decode s1
      | "" => bad :: decode s1
      end
    else if in_range 224 239 b0 then
      match s1 with
      | String b (String c s3) =>
        if second_ok b0 (code b) && is_cont c
        then ((b0 - 224) * 4096 + (code b - 128) * 64 + (code c - 128),
              String a (String b (String c ""))) :: decode s3
        else bad :: decode s1
      | _ => bad :: decode s1
      end
    else if in_range 240 244 b0 then
      match s1 with
      | String b (String c (String d s4)) =>
        if second_ok b0 (code b) && is_cont c && is_cont d
        then ((b0 - 240) * 262144 + (code b - 128) * 4096 + (code c - 128) * 64
                + (code d - 128),
              String a (String b (String c (String d "")))) :: decode s4
        else bad :: decode s1
      | _ => bad :: decode s1
      end
    else bad :: decode s1
  end.

(** The runes a [range] loop over [s] sees. *)
Definition runes (s : string) : list N := (decode s).*1.

(** [utf8.AppendRune]. *)
Definition encode_rune (r : N) : string :=
  let chr n := ascii_of_N n in
  if r <? 128 then String (chr r) ""
  else if r <? 2048 then String (chr (192 + r / 64)) (String (chr (128 + r mod 64)) "")
  else
    let r := if (1114111 <? r) || in_range 55296 57343 r then RuneError else r in
    if r <? 65536
    then String (chr (224 + r / 4096))
           (String (chr (128 + r / 64 mod 64)) (String (chr (128 + r mod 64)) ""))
    else String (chr (240 + r / 262144)) (String (chr (128 + r / 4096 mod 64))
           (String (chr (128 + r / 64 mod 64)) (String (chr (128 + r mod 64)) ""))).

Definition concat_str (l : list string) : string := String.concat "" l.

(** [strings.ToLower].  The simple case mapping of runes outside ASCII is a
    table of the [unicode] package; it is an argument, and nothing is assumed
    of it. *)
Definition lower_ascii (r : N) : N := if is_upper r then r + 32 else r.

Definition to_lower_rune (unicode_lower : N → N) (r : N) : N :=
  if r <? 128 then lower_ascii r else unicode_lower r.

Definition ToLower (unicode_lower : N → N) (s : string) : string :=
  concat_str (map (λ r, encode_rune (to_lower_rune unicode_lower r)) (runes s)).

(** [unicode.IsSpace]. *)
Definition is_space (r : N) : bool :=
  in_range 9 13 r || (r =? 32) || (r =? 133) || (r =? 160) || (r =? 5760)
  || in_range 8192 8202 r || in_range 8232 8233 r || (r =? 8239) || (r =? 8287)
  || (r =? 12288).

Fixpoint drop_while {A} (p : A → bool) (l : list A) : list A :=
  match l with
  | [] => []
  | x :: l' => if p x then drop_while p l' else l
  end.

Definition trim_by {A} (p : A → bool) (l : list A) : list A :=
  reverse (drop_while p (reverse (drop_while p l))).

(** [strings.TrimSpace]. *)
Definition TrimSpace (s : string) : string :=
  concat_str (trim_by (λ x, is_space x.1) (decode s)).*2.

(** [strings.Trim] with a cutset of one ASCII character. *)
Definition Trim (s : string) (cut : ascii) : string :=
  String.string_of_list_ascii
    (trim_by (λ a, bool_decide (a = cut)) (String.list_ascii_of_string s)).

(** [s[:n]], for [n] within the length. *)
Definition slice_to (n : nat) (s : string) : string := String.substring 0 n s.

(** [strings.Cut] on a one-byte separator. *)
Fixpoint cut (c : ascii) (s : string) : option (string * string) :=
  match s with
  | "" => None
  | String a s' =>
    if bool_decide (a = c) then Some ("", s')
    else match cut c s' with
         | Some (b, r) => Some (String a b, r)
         | None => None
         end
  end.

(** [strings.SplitN(s, sep, n)] for [n > 0] and a one-byte separator. *)
Fixpoint SplitN (s : string) (sep : ascii) (n : nat) : list string :=
  match n with
  | O | 1%nat => [s]
  | S n' => match cut sep s with
            | Some (b, r) => b :: SplitN r sep n'
            | None => [s]
            end
  end.

Fixpoint HasPrefix (p s : string) : bool :=
  match p, s with
  | "", _ => true
  | String a p', String b s' => bool_decide (a = b) && HasPrefix p' s'
  | _, _ => false
  end.

(** [strings.Contains], and SQL [position(sub in s) > 0]. *)
Fixpoint Contains (sub s : string) : bool :=
  HasPrefix sub s ||
  match s with "" => false | String _ s' => Contains sub s' end.

(** [strings.TrimPrefix]. *)
Definition TrimPrefix (s p : string) : string :=
  if HasPrefix p s then String.substring (String.length p) (String.length s) s else s.
Definition TrimSuffix (s p : string) : string :=
  let n := (String.length s - String.length p)%nat in
  if (String.length p <=? String.length s)%nat && bool_decide (String.substring n (String.length p) s = p)
  then String.substring 0 n s else s.

(** ** Encodings *)

Definition digit_at (table : string) (n : N) : ascii :=
  default "000"%char (String.get (N.to_nat n) table).

Definition hex_table : string := "0123456789abcdef".
Definition b64_table : string :=
  "ABCDEFGHIJKLMNOPQRSTUVWXYZabcdefghijklmnopqrstuvwxyz0123456789-_".

(** [hex.EncodeToString]. *)
Fixpoint hex_encode (s : string) : string :=
  match s with
  | "" => ""
  | String a s' =>
    String (digit_at hex_table (code a / 16))
      (String (digit_at hex_table (code a mod 16)) (hex_encode s'))
  end.

(** [base64.RawURLEncoding.EncodeToString]. *)
Fixpoint b64_encode (s : string) : string :=
  let d n := digit_at b64_table n in
  match s with
  | "" => ""
  | String a "" =>
    let v := code a * 16 in String (d (v / 64)) (String (d (v mod 64)) "")
  | String a (String b "") =>
    let v := (code a * 256 + code b) * 4 in
    String (d (v / 4096)) (String (d (v / 64 mod 64)) (String (d (v mod 64)) ""))
  | String a (String b (String c s')) =>
    let v := (code a * 256 + code b) * 256 + code c in
    String (d (v / 262144)) (String (d (v / 4096 mod 64))
      (String (d (v / 64 mod 64)) (String (d (v mod 64)) (b64_encode s'))))
  end.

(** [strconv.Itoa] and [%d]. *)
Definition Itoa (z : Z) : string := pretty z.

(** ** 64-bit integers *)

(** Times and durations are nanoseconds; the zero [time.Time] is January 1 of
    year 1. *)
Definition second : Z := 1000000000.
Definition zero_time : Z := -62135596800 * second.

Definition MaxInt64 : Z := 2 ^ 63 - 1.
Definition MinInt64 : Z := - 2 ^ 63.

(** Two's-complement wrap-around of Go's [int64] (and [int]) arithmetic. *)
Definition wrap64 (z : Z) : Z := ((z + 2 ^ 63) `mod` 2 ^ 64 - 2 ^ 63)%Z.

Definition int64_ok (z : Z) : Prop := (MinInt64 ≤ z ≤ MaxInt64)%Z.

Lemma wrap64_id z : int64_ok z → wrap64 z = z.
Proof. unfold wrap64, int64_ok, MinInt64, MaxInt64. intros. rewrite Z.mod_small; lia. Qed.

Lemma wrap64_add_l a b : wrap64 (wrap64 a + b) = wrap64 (a + b).
Proof.
  unfold wrap64. f_equal.
  replace ((a + 2 ^ 63) `mod` 2 ^ 64 - 2 ^ 63 + b + 2 ^ 63)%Z
    with ((a + 2 ^ 63) `mod` 2 ^ 64 + b)%Z by lia.
  rewrite Z.add_mod_idemp_l by done. f_equal. lia.
Qed.

(** ** Lemmas on strings *)

Abbreviation chars := String.list_ascii_of_string.

Lemma chars_inj (s t : string) : chars s = chars t → s = t.
Proof.
  intros H. rewrite <- (String.string_of_list_ascii_of_string s),
    <- (String.string_of_list_ascii_of_string t). by rewrite H.
Qed.

Lemma chars_app (s t : string) : chars (s +:+ t) = chars s ++ chars t.
Proof. induction s as [|a s IH]; simpl; [done|by rewrite IH]. Qed.

Lemma length_chars (s : string) : length (chars s) = String.length s.
Proof. induction s as [|a s IH]; simpl; [done|by rewrite IH]. Qed.

Lemma chars_of_list (l : list ascii) : chars (String.string_of_list_ascii l) = l.
Proof. apply String.list_ascii_of_string_of_list_ascii. Qed.

Lemma length_app_str (s t : string) :
  String.length (s +:+ t) = (String.length s + String.length t)%nat.
Proof. by rewrite <- !length_chars, chars_app, length_app. Qed.

Lemma app_str_cons (a : ascii) (s t : string) :
  String a s +:+ t = String a (s +:+ t).
Proof. done. Qed.

Lemma app_str_assoc (s t u : string) : (s +:+ t) +:+ u = s +:+ (t +:+ u).
Proof. apply chars_inj. by rewrite !chars_app, (assoc_L (++)). Qed.

Lemma app_str_nil_r (s : string) : s +:+ "" = s.
Proof. apply chars_inj. by rewrite chars_app, app_nil_r. Qed.

Lemma app_str_inj_l (s t u : string) : s +:+ t = s +:+ u → t = u.
Proof.
  intros H%(f_equal chars). rewrite !chars_app in H.
  by apply (inj _), chars_inj in H.
Qed.

Lemma app_str_inj_length (s t s' t' : string) :
  String.length s = String.length s' →
  s +:+ t = s' +:+ t' → s = s' ∧ t = t'.
Proof.
  rewrite <- !length_chars. intros Hl H%(f_equal chars). rewrite !chars_app in H.
  apply app_inj_1 in H as [H1 H2]; [|done]. split; by apply chars_inj.
Qed.

Lemma all_bytes_app p (s t : string) :
  all_bytes p (s +:+ t) = all_bytes p s && all_bytes p t.
Proof. unfold all_bytes. by rewrite chars_app, forallb_app. Qed.

Lemma all_bytes_mono (p q : N → bool) (s : string) :
  (∀ c, p c = true → q c = true) → all_bytes p s = true → all_bytes q s = true.
Proof. unfold all_bytes; rewrite !forallb_forall; auto. Qed.

(** The bytes of [s] other than [c]. *)
Definition free_of (c : ascii) (s : string) : bool :=
  all_bytes (λ n, negb (n =? code c)) s.

Lemma code_inj (a b : ascii) : code a = code b → a = b.
Proof.
  intros H. rewrite <- (ascii_N_embedding a), <- (ascii_N_embedding b). by rewrite H.
Qed.

Lemma code_bound (a : ascii) : code a < 256.
Proof. apply N_ascii_bounded. Qed.

Lemma free_of_cons c a s :
  free_of c (String a s) = true ↔ a ≠ c ∧ free_of c s = true.
Proof.
  unfold free_of, all_bytes; simpl. rewrite andb_true_iff, negb_true_iff, N.eqb_neq.
  split; intros [H1 H2]; split; auto; intros H; [subst; done|].
  by apply code_inj in H.
Qed.

Lemma cut_app (c : ascii) (p r : string) :
  free_of c p = true → cut c (p +:+ String c r) = Some (p, r).
Proof.
  induction p as [|a p IH]; intros H; simpl.
  - by rewrite bool_decide_true.
  - apply free_of_cons in H as [Ha Hp].
    rewrite bool_decide_false by done. by rewrite IH.
Qed.

Lemma cut_Some (c : ascii) (s b r : string) :
  cut c s = Some (b, r) → s = b +:+ String c r ∧ free_of c b = true.
Proof.
  revert b; induction s as [|a s IH]; intros b H; simpl in H; [done|].
  case_bool_decide as Ha.
  - simplify_eq; done.
  - destruct (cut c s) as [[b' r']|] eqn:E; [|done]. simplify_eq.
    destruct (IH b' eq_refl) as [-> Hf]. split; [done|]. by apply free_of_cons.
Qed.

Lemma cut_None (c : ascii) (s : string) : cut c s = None → free_of c s = true.
Proof.
  induction s as [|a s IH]; intros H; simpl in H; [done|].
  case_bool_decide; [done|]. destruct (cut c s) as [[]|] eqn:E; [done|].
  apply free_of_cons; auto.
Qed.

Lemma SplitN_app (sep : ascii) (p r : string) (n : nat) :
  free_of sep p = true →
  SplitN (p +:+ String sep r) sep (S (S n)) = p :: SplitN r sep (S n).
Proof. intros H. simpl SplitN at 1. by rewrite cut_app. Qed.

(** ** Lemmas on the encodings *)

Lemma digit_at_inj (table : string) (m n : N) :
  NoDup (chars table) →
  m < N.of_nat (String.length table) → n < N.of_nat (String.length table) →
  digit_at table m = digit_at table n → m = n.
Proof.
  assert (Hget : ∀ s k, String.get k s = chars s !! k).
  { induction s as [|a s IH]; intros [|k]; simpl; auto. }
  intros Hnd Hm Hn; unfold digit_at; rewrite !Hget.
  rewrite <- length_chars in Hm, Hn.
  destruct (lookup_lt_is_Some_2 (chars table) (N.to_nat m)) as [x Hx]; [lia|].
  destruct (lookup_lt_is_Some_2 (chars table) (N.to_nat n)) as [y Hy]; [lia|].
  rewrite Hx, Hy; simpl; intros ->.
  assert (N.to_nat m = N.to_nat n) by (eapply NoDup_lookup; eauto). lia.
Qed.

Lemma hex_digit_inj m n :
  m < 16 → n < 16 → digit_at hex_table m = digit_at hex_table n → m = n.
Proof.
  intros Hm Hn. apply (digit_at_inj _); [|exact Hm|exact Hn].
  apply (bool_decide_unpack _). vm_compute. exact I.
Qed.

Lemma b64_digit_inj m n :
  m < 64 → n < 64 → digit_at b64_table m = digit_at b64_table n → m = n.
Proof.
  intros Hm Hn. apply (digit_at_inj _); [|exact Hm|exact Hn].
  apply (bool_decide_unpack _). vm_compute. exact I.
Qed.

(** Lowercase hexadecimal digits. *)
Definition is_lower_hex (c : N) : bool := is_digit c || in_range 97 102 c.

Definition all_below (n : nat) (p : N → bool) : bool :=
  forallb (λ k, p (N.of_nat k)) (seq 0 n).

Lemma all_below_spec n p :
  all_below n p = true → ∀ k, k < N.of_nat n → p k = true.
Proof.
  unfold all_below; rewrite forallb_forall; intros H k Hk.
  rewrite <- (N2Nat.id k). apply H. apply in_seq. lia.
Qed.

Lemma hex_digit_lower k : k < 16 → is_lower_hex (code (digit_at hex_table k)) = true.
Proof.
  apply (all_below_spec 16 (λ k, is_lower_hex (code (digit_at hex_table k)))).
  vm_compute. reflexivity.
Qed.

Lemma hex_encode_lower s : all_bytes is_lower_hex (hex_encode s) = true.
Proof.
  induction s as [|a s IH]; [done|]. pose proof (code_bound a).
  unfold all_bytes in *; cbn [hex_encode chars forallb].
  rewrite !andb_true_iff. split_and!; [| |done]; apply hex_digit_lower.
  - apply N.Div0.div_lt_upper_bound. lia.
  - apply N.mod_lt. done.
Qed.

Lemma length_hex_encode s :
  String.length (hex_encode s) = (2 * String.length s)%nat.
Proof. induction s as [|a s IH]; cbn [hex_encode String.length]; lia. Qed.

Lemma hex_encode_inj s t : hex_encode s = hex_encode t → s = t.
Proof.
  revert t; induction s as [|a s IH]; intros [|b t]; cbn [hex_encode];
    intros H; try done.
  injection H as H1 H2 H3. apply IH in H3 as ->. f_equal. apply code_inj.
  pose proof (code_bound a); pose proof (code_bound b).
  apply hex_digit_inj in H1; [|apply N.Div0.div_lt_upper_bound; lia..].
  apply hex_digit_inj in H2; [|apply N.mod_lt; lia..].
  rewrite (N.div_mod (code a) 16), (N.div_mod (code b) 16) by done. lia.
Qed.

(** Induction three bytes at a time, the block structure of base64. *)
Lemma string_ind3 (P : string → Prop) :
  P "" → (∀ a, P (String a "")) → (∀ a b, P (String a (String b ""))) →
  (∀ a b c s, P s → P (String a (String b (String c s)))) → ∀ s, P s.
Proof.
  intros H0 H1 H2 H3.
  assert (H : ∀ n s, (String.length s < n)%nat → P s); [|intros s; eapply H; eauto].
  induction n as [|n IH]; intros s Hn; [lia|].
  destruct s as [|a [|b [|c s]]]; auto. apply H3, IH. simpl in Hn. lia.
Qed.

Lemma digits64 v w : v / 64 = w / 64 → v mod 64 = w mod 64 → v = w.
Proof.
  intros Hd Hm. rewrite (N.div_mod v 64), (N.div_mod w 64), Hd, Hm by done. done.
Qed.

Lemma b64_quot_inj k v w :
  v < k * 64 → w < k * 64 → 0 < k →
  digit_at b64_table (v / k) = digit_at b64_table (w / k) → v / k = w / k.
Proof.
  intros Hv Hw Hk. apply b64_digit_inj; apply N.Div0.div_lt_upper_bound; done.
Qed.

Lemma b64_mod_inj v w :
  digit_at b64_table (v mod 64) = digit_at b64_table (w mod 64) →
  v mod 64 = w mod 64.
Proof. apply b64_digit_inj; by apply N.mod_lt. Qed.

(** Equal base64 digits give equal groups of 12, 18 and 24 bits. *)
Lemma b64_group2 v w :
  v < 4096 → w < 4096 →
  digit_at b64_table (v / 64) = digit_at b64_table (w / 64) →
  digit_at b64_table (v mod 64) = digit_at b64_table (w mod 64) → v = w.
Proof.
  intros Hv Hw H1%b64_quot_inj H2%b64_mod_inj; [|done..]. by apply digits64.
Qed.

Lemma b64_group3 v w :
  v < 262144 → w < 262144 →
  digit_at b64_table (v / 4096) = digit_at b64_table (w / 4096) →
  digit_at b64_table (v / 64 mod 64) = digit_at b64_table (w / 64 mod 64) →
  digit_at b64_table (v mod 64) = digit_at b64_table (w mod 64) → v = w.
Proof.
  intros Hv Hw H1%b64_quot_inj H2%b64_mod_inj H3%b64_mod_inj; [|done..].
  apply digits64; [|done]. apply digits64; [|done].
  by rewrite !N.Div0.div_div.
Qed.

Lemma b64_group4 v w :
  v < 16777216 → w < 16777216 →
  digit_at b64_table (v / 262144) = digit_at b64_table (w / 262144) →
  digit_at b64_table (v / 4096 mod 64) = digit_at b64_table (w / 4096 mod 64) →
  digit_at b64_table (v / 64 mod 64) = digit_at b64_table (w / 64 mod 64) →
  digit_at b64_table (v mod 64) = digit_at b64_table (w mod 64) → v = w.
Proof.
  intros Hv Hw H1%b64_quot_inj H2%b64_mod_inj H3%b64_mod_inj H4%b64_mod_inj;
    [|done..].
  apply digits64; [|done]. apply digits64; [|done].
  rewrite !N.Div0.div_div. apply digits64; [by rewrite !N.Div0.div_div|done].
Qed.

Lemma b64_encode_inj s t :
  String.length s = String.length t → b64_encode s = b64_encode t → s = t.
Proof.
  revert t; induction s as [|a|a b|a b c s IH] using string_ind3;
    intros t Hl; destruct t as [|a' [|b' [|c' t]]]; try (simpl in Hl; lia);
    cbn [b64_encode]; intros H; [done|..];
    pose proof (code_bound a); pose proof (code_bound a');
    try (pose proof (code_bound b); pose proof (code_bound b'));
    try (pose proof (code_bound c); pose proof (code_bound c')).
  - injection H as E1 E2. eapply b64_group2 in E1; [|lia|lia|exact E2].
    assert (code a = code a') as ->%code_inj by lia. done.
  - injection H as E1 E2 E3.
    eapply b64_group3 in E1; [|lia|lia|exact E2|exact E3].
    assert (code a = code a') as ->%code_inj by lia.
    assert (code b = code b') as ->%code_inj by lia. done.
  - injection H as E1 E2 E3 E4 E5.
    eapply b64_group4 in E1; [|lia|lia|exact E2|exact E3|exact E4].
    assert (code a = code a') as ->%code_inj by lia.
    assert (code b = code b') as ->%code_inj by lia.
    assert (code c = code c') as ->%code_inj by lia.
    simpl in Hl. f_equal; f_equal; f_equal. apply IH; [lia|done].
Qed.

Lemma length_b64_encode s :
  String.length (b64_encode s) = ((4 * String.length s + 2) / 3)%nat.
Proof.
  induction s as [|a|a b|a b c s IH] using string_ind3; try done.
  cbn [b64_encode String.length]. rewrite IH.
  replace (4 * S (S (S (String.length s))) + 2)%nat
    with (4 * 3 + (4 * String.length s + 2))%nat by lia.
  rewrite Nat.div_add_l by done. done.
Qed.
