(* ===== verification/Sha256.v ===== *)
(** * SHA-256

    [crypto/sha256] as the program uses it: [sha256.Sum256] on a byte string,
    and its hexadecimal rendering.  The definition is the one of FIPS 180-4 on
    32-bit words in [N], executable, and checked on the standard's own
    examples. *)
From Stdlib Require Import Ascii.
From S2P Require Import Prelude GoStrings.
#[local] Open Scope N_scope.

Module Sha256.

Definition w32 (x : N) : N := x mod 2 ^ 32.
Definition add32 (x y : N) : N := w32 (x + y).
Definition rotr (n x : N) : N :=
  N.lor (N.shiftr x n) (w32 (N.shiftl x (32 - n))).

Definition Ch (x y z : N) : N :=
  N.lxor (N.land x y) (N.land (N.lxor x (2 ^ 32 - 1)) z).
Definition Maj (x y z : N) : N :=
  N.lxor (N.lxor (N.land x y) (N.land x z)) (N.land y z).
Definition Sigma0 (x : N) : N := N.lxor (N.lxor (rotr 2 x) (rotr 13 x)) (rotr 22 x).
Definition Sigma1 (x : N) : N := N.lxor (N.lxor (rotr 6 x) (rotr 11 x)) (rotr 25 x).
Definition sigma0 (x : N) : N :=
  N.lxor (N.lxor (rotr 7 x) (rotr 18 x)) (N.shiftr x 3).
Definition sigma1 (x : N) : N :=
  N.lxor (N.lxor (rotr 17 x) (rotr 19 x)) (N.shiftr x 10).

(** The first 32 bits of the fractional parts of the cube roots of the first 64
    primes, and of the square roots of the first eight. *)
Definition K : list N :=
  [1116352408; 1899447441; 3049323471; 3921009573; 961987163; 1508970993;
   2453635748; 2870763221; 3624381080; 310598401; 607225278; 1426881987;
   1925078388; 2162078206; 2614888103; 3248222580; 3835390401; 4022224774;
   264347078; 604807628; 770255983; 1249150122; 1555081692; 1996064986;
   2554220882; 2821834349; 2952996808; 3210313671; 3336571891; 3584528711;
   113926993; 338241895; 666307205; 773529912; 1294757372; 1396182291;
   1695183700; 1986661051; 2177026350; 2456956037; 2730485921; 2820302411;
   3259730800; 3345764771; 3516065817; 3600352804; 4094571909; 275423344;
   430227734; 506948616; 659060556; 883997877; 958139571; 1322822218;
   1537002063; 1747873779; 1955562222; 2024104815; 2227730452; 2361852424;
   2428436474; 2756734187; 3204031479; 3329325298].

Definition H0 : list N :=
  [1779033703; 3144134277; 1013904242; 2773480762; 1359893119; 2600822924;
   528734635; 1541459225].

(** Big-endian 32-bit words. *)
Fixpoint words (l : list N) : list N :=
  match l with
  | a :: b :: c :: d :: l' => (((a * 256 + b) * 256 + c) * 256 + d) :: words l'
  | _ => []
  end.

Definition bytes_of_word (w : N) : list N :=
  [w / 2 ^ 24; w / 2 ^ 16 mod 256; w / 2 ^ 8 mod 256; w mod 256].

(** The padded message: a one bit, zeros, and the bit length on 64 bits. *)
Definition pad (l : list N) : list N :=
  let n := length l in
  let zeros := ((119 - n mod 64) mod 64)%nat in
  let bits := (8 * N.of_nat n) mod 2 ^ 64 in
  l ++ [128] ++ repeat 0 zeros
    ++ bytes_of_word (bits / 2 ^ 32) ++ bytes_of_word (bits mod 2 ^ 32).

(** The message schedule, newest word first. *)
Fixpoint schedule (n : nat) (rev : list N) : list N :=
  match n with
  | O => rev
  | S n' =>
    let at_ k := nth k rev 0 in
    schedule n'
      (add32 (add32 (sigma1 (at_ 1%nat)) (at_ 6%nat))
             (add32 (sigma0 (at_ 14%nat)) (at_ 15%nat)) :: rev)
  end.

Definition round (st : list N) (kw : N * N) : list N :=
  match st with
  | [a; b; c; d; e; f; g; h] =>
    let t1 := w32 (h + Sigma1 e + Ch e f g + kw.1 + kw.2) in
    let t2 := add32 (Sigma0 a) (Maj a b c) in
    [add32 t1 t2; a; b; c; add32 d t1; e; f; g]
  | _ => st
  end.

Definition compress (st : list N) (block : list N) : list N :=
  let w := reverse (schedule 48 (reverse (words block))) in
  zip_with add32 st (fold_left round (zip K w) st).

Fixpoint blocks (fuel : nat) (l : list N) (st : list N) : list N :=
  match fuel with
  | O => st
  | S fuel' =>
    match l with
    | [] => st
    | _ => blocks fuel' (drop 64 l) (compress st (take 64 l))
    end
  end.

(** [sha256.Sum256]: one unit of fuel per 64-byte block is enough. *)
Definition Sum256 (s : string) : string :=
  let l := pad (map N_of_ascii (String.list_ascii_of_string s)) in
  let st := blocks (length l) l H0 in
  String.string_of_list_ascii (map ascii_of_N (concat (map bytes_of_word st))).

Example Sum256_abc :
  hex_encode (Sum256 "abc") =
  "ba7816bf8f01cfea414140de5dae2223b00361a396177a9cb410ff61f20015ad".
Proof. vm_compute. reflexivity. Qed.

Example Sum256_two_blocks :
  hex_encode (Sum256 "abcdbcdecdefdefgefghfghighijhijkijkljklmklmnlmnomnopnopq") =
  "248d6a61d20638b8e5c026930c3e6039a33ce45964ff2167f6ecedd419db06c1".
Proof. vm_compute. reflexivity. Qed.

Lemma length_round st kw : length (round st kw) = length st.
Proof.
  destruct st as [|? [|? [|? [|? [|? [|? [|? [|? [|??]]]]]]]]]; done.
Qed.

Lemma length_compress st b : length (compress st b) = length st.
Proof.
  unfold compress. rewrite length_zip_with.
  assert (H : ∀ l s, length (fold_left round l s) = length s); [|rewrite H; lia].
  induction l as [|x l IH]; intros s; simpl; [done|]. by rewrite IH, length_round.
Qed.

Lemma length_blocks fuel l st : length (blocks fuel l st) = length st.
Proof.
  revert l st; induction fuel as [|n IH]; intros [|x l] st; try done.
  simpl. by rewrite IH, length_compress.
Qed.

Lemma length_Sum256 s : String.length (Sum256 s) = 32%nat.
Proof.
  unfold Sum256. rewrite <- length_chars, chars_of_list, length_map.
  match goal with |- context [blocks ?f ?l H0] =>
    pose proof (length_blocks f l H0) as Hl; destruct (blocks f l H0) as
      [|? [|? [|? [|? [|? [|? [|? [|? [|??]]]]]]]]]; simpl in Hl; try lia end.
  done.
Qed.

End Sha256.
