(* ===== verification/Store.v ===== *)
(** * The data model of the control plane (internal/store/store.go)

    The Go structs of the store package as records, the sentinel errors with
    [errors.Is], and the tables of the schema (internal/store/migrations).
    Times are nanoseconds since the epoch in [Z], UUIDs are their 128-bit
    value in [N] (so [uuid.Nil] is [0]), a nil pointer or SQL NULL is [None].
    A [[]byte] column that may be NULL is an [option string]. *)
From Stdlib Require Import Ascii.
From S2P Require Import Prelude GoStrings.

Abbreviation uuid := N.
Abbreviation time := Z.

(** [uuid.UUID.String]: 32 lowercase hexadecimal digits in groups. *)
Fixpoint hex_digits (n : nat) (u : N) : list ascii :=
  match n with
  | O => []
  | S n' => hex_digits n' (u / 16)%N ++ [digit_at hex_table (u mod 16)%N]
  end.

Definition uuid_String (u : uuid) : string :=
  let d := hex_digits 32 u in
  let part i n := String.string_of_list_ascii (take n (drop i d)) in
  part 0 8 +:+ "-" +:+ part 8 4 +:+ "-" +:+ part 12 4 +:+ "-" +:+ part 16 4
    +:+ "-" +:+ part 20 12.

(** A decoded JSON value: object members are kept as the list the iteration
    visits, numbers as their literal. *)
Inductive json :=
  | JNull
  | JBool (b : bool)
  | JNum (lit : string)
  | JStr (s : string)
  | JArr (l : list json)
  | JObj (m : list (string * json)).

(** ** Errors

    Sentinel errors of the store and of the services, the errors a statement
    can come back with, and [fmt.Errorf("...: %w", err)] as [Wrap]. *)
Inductive error :=
  | ErrNotFound | ErrSlugExists | ErrNameExists | ErrConflict | ErrEmailExists
  | ErrLastAdmin
  | ErrInvalidName | ErrInvalidSlug | ErrSlugTaken | ErrNotConfigured | ErrDecrypt
  | NoRows                         (* pgx.ErrNoRows *)
  | PgUnique (constraint : string)  (* SQLSTATE 23505 *)
  | PgForeignKey (constraint : string) (* SQLSTATE 23503 *)
  | PgCheck (constraint : string)   (* SQLSTATE 23514 *)
  | Fault                          (* the statement or the connection failed *)
  | ErrRand                        (* crypto/rand failed *)
  | ErrNew (msg : string)
  | Wrap (msg : string) (e : error).

#[export] Instance error_eq_dec : EqDecision error.
Proof. solve_decision. Defined.

(** [errors.Is]: the error itself or one it wraps. *)
Fixpoint Is (e target : error) : bool :=
  bool_decide (e = target) ||
  match e with Wrap _ e' => Is e' target | _ => false end.

(** [errors.As] with a [*pgconn.PgError]: the statement error inside. *)
Fixpoint root (e : error) : error :=
  match e with Wrap _ e' => root e' | _ => e end.

Definition isUniqueViolation (e : error) (constraint : string) : bool :=
  bool_decide (root e = PgUnique constraint).

Definition isForeignKeyViolation (e : error) (constraint : string) : bool :=
  bool_decide (root e = PgForeignKey constraint).

(** ** Customers *)

Definition CustomerActive : string := "active".
Definition CustomerSuspended : string := "suspended".
Definition CustomerDeleted : string := "deleted".

Record Customer := {
  c_ID : uuid;
  c_Slug : string;
  c_Name : string;
  c_ClientID : string;
  c_Status : string;
  c_RateLimitItemsPerSec : option Z;
  c_RetentionDays : option Z;
  c_CreatedAt : time;
  c_UpdatedAt : time;
}.

Record CustomerRef := {
  cr_ID : uuid;
  cr_Name : string;
  cr_ClientID : string;
}.

Record NewCustomer := {
  nc_ID : uuid;
  nc_Slug : string;
  nc_Name : string;
  nc_ClientID : string;
}.

(** Tri-state PATCH field. *)
Record OptionalInt := {
  oi_Set : bool;
  oi_Value : option Z;
}.

Record CustomerUpdate := {
  cu_Name : option string;
  cu_Status : option string;
  cu_RateLimitItemsPerSec : OptionalInt;
  cu_RetentionDays : OptionalInt;
}.

(** ** Users *)

Record User := {
  u_ID : uuid;
  u_Email : string;
  u_DisplayName : option string;
  u_Role : string;
  u_ExternalID : option string;
  u_DisabledAt : option time;
  u_LastLoginAt : option time;
  u_CreatedAt : time;
}.

Record UserWithIdentities := {
  ui_User : User;
  ui_Identities : list string;
  ui_CustomerIDs : list uuid;
}.

Record UserUpdate := {
  uu_Role : option string;
  uu_Disabled : option bool;
}.

(** ** API keys *)

Record APIKey := {
  k_ID : uuid;
  k_CustomerID : uuid;
  k_Name : string;
  k_KeyPrefix : string;
  k_KeyHash : string;
  k_CreatedBy : option uuid;
  k_CreatedAt : time;
  k_ExpiresAt : option time;
  k_RevokedAt : option time;
  k_LastUsedAt : option time;
}.

Record NewAPIKey := {
  nk_ID : uuid;
  nk_CustomerID : uuid;
  nk_Name : string;
  nk_KeyPrefix : string;
  nk_KeyHash : string;
  nk_CreatedBy : option uuid;
  nk_ExpiresAt : option time;
}.

Record AuthKey := {
  ak_KeyID : uuid;
  ak_CustomerID : uuid;
  ak_ClientID : string;
  ak_KeyHash : string;
  ak_CustomerStatus : string;
  ak_ExpiresAt : option time;
  ak_RateLimitItemsPerSec : Z;
}.

(** ** Auth providers, billing, audit *)

Record AuthProvider := {
  ap_ID : uuid;
  ap_Type : string;
  ap_Name : string;
  ap_DisplayName : string;
  ap_ClientID : string;
  ap_ClientSecretEnc : string;
  ap_Issuer : option string;
  ap_SAMLConfig : option json;
  ap_Enabled : bool;
  ap_CreatedAt : time;
  ap_UpdatedAt : time;
}.

Record NewAuthProvider := {
  nap_ID : uuid;
  nap_Type : string;
  nap_Name : string;
  nap_DisplayName : string;
  nap_ClientID : string;
  nap_ClientSecretEnc : string;
  nap_Issuer : option string;
  nap_SAMLConfig : option json;
  nap_Enabled : bool;
}.

Record AuthProviderUpdate := {
  apu_DisplayName : option string;
  apu_ClientID : option string;
  apu_ClientSecretEnc : option string;
  apu_Issuer : option string;
  apu_SAMLConfig : option json;
  apu_Enabled : option bool;
}.

Record BillingSettings := {
  b_PricePerGiBMicro : Z;
  b_PricePerMillionItemsMicro : Z;
  b_Currency : string;
  b_UpdatedAt : time;
  b_UpdatedBy : option uuid;
}.

Record BillingSettingsUpdate := {
  bu_PricePerGiBMicro : option Z;
  bu_PricePerMillionItemsMicro : option Z;
  bu_Currency : option string;
}.

Record AuditFilter := {
  af_Action : option string;
  af_EntityType : option string;
  af_CustomerID : option uuid;
  af_ActorUserID : option uuid;
  af_From : option time;
  af_To : option time;
  af_Limit : Z;
  af_BeforeID : option Z;
}.

Record AuditRow := {
  ar_ID : Z;
  ar_ActorUserID : option uuid;
  ar_ActorEmail : option string;
  ar_ActorType : string;
  ar_Action : string;
  ar_EntityType : string;
  ar_EntityID : string;
  ar_CustomerID : option uuid;
  ar_CustomerName : option string;
  ar_Payload : option json;
  ar_CreatedAt : time;
}.

(** Actor types and the entry a mutation hands to the store
    (internal/audit/audit.go). *)
Definition ActorUser : string := "user".
Definition ActorSystem : string := "system".
Definition ActorAgent : string := "agent".

Record Entry := {
  e_ActorUserID : option uuid;
  e_ActorType : string;
  e_Action : string;
  e_EntityType : string;
  e_EntityID : string;
  e_CustomerID : option uuid;
  e_Payload : option json;
}.

(** ** Pipelines *)

Definition ValidationValid : string := "valid".
Definition ValidationInvalid : string := "invalid".
Definition ClassForwarding : string := "forwarding".
Definition ClassEdge : string := "edge".

Record Pipeline := {
  p_ID : uuid;
  p_CustomerID : uuid;
  p_CustomerName : string;
  p_CustomerSlug : string;
  p_ClientID : string;
  p_Name : string;
  p_TargetClass : string;
  p_ActiveVersionID : option uuid;
  p_ActiveVersion : option Z;
  p_LatestVersion : option Z;
  p_CreatedAt : time;
}.

Record PipelineVersion := {
  pv_ID : uuid;
  pv_PipelineID : uuid;
  pv_Version : Z;
  pv_Graph : json;
  pv_RenderedYAML : string;
  pv_ConfigHash : string;
  pv_ValidationStatus : string;
  pv_ValidationOutput : option string;
  pv_CreatedBy : option uuid;
  pv_CreatedByEmail : option string;
  pv_CreatedAt : time;
  pv_Active : bool;
}.

Record NewPipeline := {
  np_ID : uuid;
  np_CustomerID : uuid;
  np_Name : string;
  np_TargetClass : string;
}.

Record NewPipelineVersion := {
  nv_ID : uuid;
  nv_PipelineID : uuid;
  nv_Graph : json;
  nv_RenderedYAML : string;
  nv_ConfigHash : string;
  nv_ValidationStatus : string;
  nv_ValidationOutput : option string;
  nv_CreatedBy : option uuid;
}.

Record ActivePipeline := {
  act_PipelineID : uuid;
  act_PipelineName : string;
  act_CustomerID : uuid;
  act_CustomerSlug : string;
  act_ClientID : string;
  act_Graph : json;
}.

(** ** Tokens *)

Record BootstrapToken := {
  bt_ID : uuid;
  bt_CustomerID : uuid;
  bt_Name : string;
  bt_TokenPrefix : string;
  bt_TokenHash : string;
  bt_MaxUses : Z;
  bt_UsedCount : Z;
  bt_CreatedBy : option uuid;
  bt_CreatedAt : time;
  bt_ExpiresAt : time;
  bt_RevokedAt : option time;
}.

Record NewBootstrapToken := {
  nbt_ID : uuid;
  nbt_CustomerID : uuid;
  nbt_Name : string;
  nbt_TokenPrefix : string;
  nbt_TokenHash : string;
  nbt_MaxUses : Z;
  nbt_CreatedBy : option uuid;
  nbt_ExpiresAt : time;
}.

Record EnrollToken := {
  et_TokenID : uuid;
  et_CustomerID : uuid;
  et_TokenHash : string;
  et_MaxUses : Z;
  et_UsedCount : Z;
  et_ExpiresAt : time;
  et_CustomerStatus : string;
}.

Record APIToken := {
  t_ID : uuid;
  t_Name : string;
  t_TokenPrefix : string;
  t_Role : string;
  t_CreatedBy : option uuid;
  t_CreatedByEmail : option string;
  t_CreatedAt : time;
  t_ExpiresAt : option time;
  t_RevokedAt : option time;
  t_LastUsedAt : option time;
}.

Record NewAPIToken := {
  nt_ID : uuid;
  nt_Name : string;
  nt_TokenPrefix : string;
  nt_TokenHash : string;
  nt_Role : string;
  nt_CreatedBy : option uuid;
  nt_ExpiresAt : option time;
}.

Record APITokenAuth := {
  ta_ID : uuid;
  ta_Role : string;
  ta_CreatedBy : option uuid;
  ta_TokenHash : string;
  ta_ExpiresAt : option time;
}.

(** ** Agents *)

Definition AgentClassGateway : string := "gateway".
Definition AgentClassEdge : string := "edge".

Definition RemoteConfigUnset : string := "unset".
Definition RemoteConfigApplying : string := "applying".
Definition RemoteConfigApplied : string := "applied".
Definition RemoteConfigFailed : string := "failed".

Definition AgentEventEnrolled : string := "enrolled".
Definition AgentEventConnected : string := "connected".
Definition AgentEventDisconnected : string := "disconnected".
Definition AgentEventConfigApplied : string := "config_applied".
Definition AgentEventConfigFailed : string := "config_failed".
Definition AgentEventHealthy : string := "healthy".
Definition AgentEventUnhealthy : string := "unhealthy".

Record AgentAuth := {
  aa_AgentID : uuid;
  aa_CustomerID : uuid;
  aa_InstanceUID : string;
  aa_TokenHash : option string;
  aa_CustomerStatus : string;
}.

Record Agent := {
  a_ID : uuid;
  a_InstanceUID : string;
  a_CustomerID : option uuid;
  a_CustomerName : option string;
  a_Class : string;
  a_Name : option string;
  a_DisplayName : option string;
  a_Labels : json;
  a_AgentVersion : option string;
  a_Description : option json;
  a_Capabilities : option Z;
  a_AssignedConfigHash : option string;
  a_ReportedConfigHash : option string;
  a_AckedConfigHash : option string;
  a_ReportedConfigYAML : option string;
  a_RemoteConfigStatus : string;
  a_RemoteConfigError : option string;
  a_Health : option json;
  a_Healthy : option bool;
  a_Connected : bool;
  a_LastSeenAt : option time;
  a_EnrolledVia : option uuid;
  a_CreatedAt : time;
}.

Record NewAgent := {
  na_ID : uuid;
  na_InstanceUID : string;
  na_CustomerID : uuid;
  na_Class : string;
  na_Name : option string;
  na_AgentVersion : option string;
  na_Description : option json;
  na_Capabilities : Z;
  na_EnrolledVia : uuid;
}.

Record AgentEvent := {
  ev_ID : Z;
  ev_AgentID : uuid;
  ev_EventType : string;
  ev_Detail : option json;
  ev_CreatedAt : time;
}.

Record AgentFilter := {
  agf_Class : option string;
  agf_CustomerID : option uuid;
  agf_Connected : option bool;
}.

(** ** Webhooks *)

Definition WebhookEventAgentOffline : string := "agent_offline".
Definition WebhookEventAgentConfigFailed : string := "agent_config_failed".
Definition WebhookEventAgentUnhealthy : string := "agent_unhealthy".
Definition WebhookTypeGeneric : string := "webhook".
Definition WebhookTypeSlack : string := "slack".

Record Webhook := {
  w_ID : uuid;
  w_Type : string;
  w_Name : string;
  w_URL : string;
  w_Events : list string;
  w_SecretEnc : option string;
  w_Enabled : bool;
  w_CreatedBy : option uuid;
  w_CreatedAt : time;
  w_UpdatedAt : time;
}.

Record NewWebhook := {
  nw_ID : uuid;
  nw_Type : string;
  nw_Name : string;
  nw_URL : string;
  nw_Events : list string;
  nw_SecretEnc : option string;
  nw_Enabled : bool;
  nw_CreatedBy : option uuid;
}.

Record WebhookUpdate := {
  wu_Type : option string;
  wu_Name : option string;
  wu_URL : option string;
  wu_Events : option (list string);
  wu_SecretSet : bool;
  wu_SecretEnc : option string;
  wu_Enabled : option bool;
}.
