(* ===== verification/World.v ===== *)
(** * Tables, statements and transactions

    The rows of the schema (internal/store/migrations/0001 to 0013), the
    environment a running control plane meets, and what executing one SQL
    statement and one transaction ([PG.inTx]) does.

    Everything the program cannot decide is an oracle of [Env]: whether a
    statement fails (a lost connection, a value PostgreSQL refuses to encode,
    a serialization failure), the UUIDs and random bytes drawn, the clock, and
    the collation of [TEXT] columns.  Each access consumes one tick, so that a
    theorem for all environments covers every pattern of failures.  A failed
    COMMIT counts as a rollback. *)
From Stdlib Require Import Ascii.
From S2P Require Import Prelude GoStrings Store.

(** ** Rows that differ from the Go structs *)

Record PipelineRow := {
  pr_ID : uuid;
  pr_CustomerID : uuid;
  pr_Name : string;
  pr_TargetClass : string;
  pr_ActiveVersionID : option uuid;
  pr_CreatedAt : time;
}.

Record VersionRow := {
  vr_ID : uuid;
  vr_PipelineID : uuid;
  vr_Version : Z;
  vr_Graph : json;
  vr_RenderedYAML : string;
  vr_ConfigHash : string;
  vr_ValidationStatus : string;
  vr_ValidationOutput : option string;
  vr_CreatedBy : option uuid;
  vr_CreatedAt : time;
}.

Record TokenRow := {
  tr_ID : uuid;
  tr_Name : string;
  tr_TokenPrefix : string;
  tr_TokenHash : string;
  tr_Role : string;
  tr_CreatedBy : option uuid;
  tr_CreatedAt : time;
  tr_ExpiresAt : option time;
  tr_RevokedAt : option time;
  tr_LastUsedAt : option time;
}.

Record AgentRow := {
  gr_ID : uuid;
  gr_InstanceUID : string;
  gr_CustomerID : option uuid;
  gr_Class : string;
  gr_Name : option string;
  gr_DisplayName : option string;
  gr_Labels : json;
  gr_AgentVersion : option string;
  gr_Description : option json;
  gr_Capabilities : option Z;
  gr_AssignedConfigHash : option string;
  gr_ReportedConfigHash : option string;
  gr_AckedConfigHash : option string;
  gr_ReportedConfigYAML : option string;
  gr_RemoteConfigStatus : string;
  gr_RemoteConfigError : option string;
  gr_Health : option json;
  gr_Healthy : option bool;
  gr_Connected : bool;
  gr_LastSeenAt : option time;
  gr_EnrolledVia : option uuid;
  gr_CreatedAt : time;
  gr_TokenPrefix : option string;
  gr_TokenHash : option string;
  gr_TokenIssuedAt : option time;
}.

(** An [audit_log] row: its identity, the entry written, and when. *)
Record AuditRec := {
  l_ID : Z;
  l_Entry : Entry;
  l_CreatedAt : time;
}.

(** A row of the session store: the encoded session and its expiry. *)
Record SessionRow := {
  s_Data : string;
  s_Expiry : time;
}.

(** ** The database *)

Record db := {
  customers : gmap uuid Customer;
  users : gmap uuid User;
  user_identities : gmap (string * string) uuid;
  api_keys : gmap uuid APIKey;
  sessions : gmap string SessionRow;
  audit_log : list AuditRec;
  pipelines : gmap uuid PipelineRow;
  pipeline_versions : gmap uuid VersionRow;
  bootstrap_tokens : gmap uuid BootstrapToken;
  agents : gmap uuid AgentRow;
  agent_events : list AgentEvent;
  auth_providers : gmap uuid AuthProvider;
  webhooks : gmap uuid Webhook;
  api_tokens : gmap uuid TokenRow;
  user_customer_grants : gset (uuid * uuid);
  billing_settings : option BillingSettings;
}.

(** Field update for the rows that statements change. *)
#[export] Instance eta_Customer : Eta Customer :=
  λ r, Build_Customer (c_ID r) (c_Slug r) (c_Name r) (c_ClientID r) (c_Status r)
    (c_RateLimitItemsPerSec r) (c_RetentionDays r) (c_CreatedAt r) (c_UpdatedAt r).
#[export] Instance eta_User : Eta User :=
  λ r, Build_User (u_ID r) (u_Email r) (u_DisplayName r) (u_Role r) (u_ExternalID r)
    (u_DisabledAt r) (u_LastLoginAt r) (u_CreatedAt r).
#[export] Instance eta_APIKey : Eta APIKey :=
  λ r, Build_APIKey (k_ID r) (k_CustomerID r) (k_Name r) (k_KeyPrefix r) (k_KeyHash r)
    (k_CreatedBy r) (k_CreatedAt r) (k_ExpiresAt r) (k_RevokedAt r) (k_LastUsedAt r).
#[export] Instance eta_BootstrapToken : Eta BootstrapToken :=
  λ r, Build_BootstrapToken (bt_ID r) (bt_CustomerID r) (bt_Name r) (bt_TokenPrefix r)
    (bt_TokenHash r) (bt_MaxUses r) (bt_UsedCount r) (bt_CreatedBy r) (bt_CreatedAt r)
    (bt_ExpiresAt r) (bt_RevokedAt r).
#[export] Instance eta_AuthProvider : Eta AuthProvider :=
  λ r, Build_AuthProvider (ap_ID r) (ap_Type r) (ap_Name r) (ap_DisplayName r)
    (ap_ClientID r) (ap_ClientSecretEnc r) (ap_Issuer r) (ap_SAMLConfig r)
    (ap_Enabled r) (ap_CreatedAt r) (ap_UpdatedAt r).
#[export] Instance eta_Webhook : Eta Webhook :=
  λ r, Build_Webhook (w_ID r) (w_Type r) (w_Name r) (w_URL r) (w_Events r)
    (w_SecretEnc r) (w_Enabled r) (w_CreatedBy r) (w_CreatedAt r) (w_UpdatedAt r).
#[export] Instance eta_BillingSettings : Eta BillingSettings :=
  λ r, Build_BillingSettings (b_PricePerGiBMicro r) (b_PricePerMillionItemsMicro r)
    (b_Currency r) (b_UpdatedAt r) (b_UpdatedBy r).
#[export] Instance eta_PipelineRow : Eta PipelineRow :=
  λ r, Build_PipelineRow (pr_ID r) (pr_CustomerID r) (pr_Name r) (pr_TargetClass r)
    (pr_ActiveVersionID r) (pr_CreatedAt r).
#[export] Instance eta_VersionRow : Eta VersionRow :=
  λ r, Build_VersionRow (vr_ID r) (vr_PipelineID r) (vr_Version r) (vr_Graph r)
    (vr_RenderedYAML r) (vr_ConfigHash r) (vr_ValidationStatus r)
    (vr_ValidationOutput r) (vr_CreatedBy r) (vr_CreatedAt r).
#[export] Instance eta_TokenRow : Eta TokenRow :=
  λ r, Build_TokenRow (tr_ID r) (tr_Name r) (tr_TokenPrefix r) (tr_TokenHash r)
    (tr_Role r) (tr_CreatedBy r) (tr_CreatedAt r) (tr_ExpiresAt r) (tr_RevokedAt r)
    (tr_LastUsedAt r).
#[export] Instance eta_AgentRow : Eta AgentRow :=
  λ r, Build_AgentRow (gr_ID r) (gr_InstanceUID r) (gr_CustomerID r) (gr_Class r)
    (gr_Name r) (gr_DisplayName r) (gr_Labels r) (gr_AgentVersion r)
    (gr_Description r) (gr_Capabilities r) (gr_AssignedConfigHash r)
    (gr_ReportedConfigHash r) (gr_AckedConfigHash r) (gr_ReportedConfigYAML r)
    (gr_RemoteConfigStatus r) (gr_RemoteConfigError r) (gr_Health r) (gr_Healthy r)
    (gr_Connected r) (gr_LastSeenAt r) (gr_EnrolledVia r) (gr_CreatedAt r)
    (gr_TokenPrefix r) (gr_TokenHash r) (gr_TokenIssuedAt r).
#[export] Instance eta_db : Eta db :=
  λ r, Build_db (customers r) (users r) (user_identities r) (api_keys r) (sessions r)
    (audit_log r) (pipelines r) (pipeline_versions r) (bootstrap_tokens r) (agents r)
    (agent_events r) (auth_providers r) (webhooks r) (api_tokens r)
    (user_customer_grants r) (billing_settings r).

(** The schema as the migrations leave it: the only row is the seeded price
    list. *)
Definition db_init : db := {|
  customers := ∅; users := ∅; user_identities := ∅; api_keys := ∅; sessions := ∅;
  audit_log := []; pipelines := ∅; pipeline_versions := ∅; bootstrap_tokens := ∅;
  agents := ∅; agent_events := []; auth_providers := ∅; webhooks := ∅;
  api_tokens := ∅; user_customer_grants := ∅;
  billing_settings := Some {|
    b_PricePerGiBMicro := 0; b_PricePerMillionItemsMicro := 0;
    b_Currency := "EUR"; b_UpdatedAt := 0; b_UpdatedBy := None |}
|}.

(** ** The environment *)

Class Env := {
  fault : nat → bool;
  newuuid : nat → uuid;
  randfail : nat → bool;
  randbyte : nat → nat → ascii;
  clock : nat → time;
  text_leb : string → string → bool;
  unicode_lower : N → N;
  pg_lower : string → string;
}.

(** The identity sequences of [audit_log] and [agent_events] are outside the
    tables: a rollback does not give their values back. *)
Record world := {
  w_db : db;
  w_tick : nat;
  w_audit_seq : Z;
  w_event_seq : Z;
  w_txtime : option time;
  w_aborted : bool;
}.

#[export] Instance eta_world : Eta world :=
  λ r, Build_world (w_db r) (w_tick r) (w_audit_seq r) (w_event_seq r) (w_txtime r) (w_aborted r).

Definition world_init : world := {|
  w_db := db_init; w_tick := 0; w_audit_seq := 0; w_event_seq := 0; w_txtime := None;
  w_aborted := false |}.

Abbreviation Op := (M world error).

Definition is_some {A} (o : option A) : bool := match o with Some _ => true | None => false end.
Definition is_none {A} (o : option A) : bool := negb (is_some o).

Section World.
Context {ENV : Env}.

(** ** Primitive accesses *)

Definition tick : Op nat := λ w, (inl (w_tick w), w <| w_tick ::= S |>).

Definition time_Now : Op time := n ← tick; mret (clock n).
Definition uuid_New : Op uuid := n ← tick; mret (newuuid n).

(** [rand.Read] into a buffer of [n] bytes. *)
Definition rand_Read (n : nat) : Op string :=
  k ← tick;
  if randfail k then mthrow ErrRand
  else mret (String.string_of_list_ascii (map (randbyte k) (seq 0 n))).

(** SQL [now()]: the start of the transaction the statement runs in. *)
Definition sql_now (w : world) : time := default (clock (w_tick w)) (w_txtime w).

(** A server-side error inside a transaction aborts it: what follows fails,
    and COMMIT rolls back.  [NoRows] is not one, the client makes it up. *)
Definition fail_stmt {A} (e : error) : Op A := λ w,
  (inr e, w <| w_aborted ::= orb (is_some (w_txtime w) && negb (bool_decide (e = NoRows))) |>).

(** One statement: it fails as a whole, or it changes the tables and returns
    a result. *)
Definition stmt {A} (f : time → db → (db * A) + error) : Op A := λ w,
  let w1 := w <| w_tick ::= S |> in
  if fault (w_tick w) || w_aborted w then fail_stmt Fault w1
  else match f (sql_now w) (w_db w) with
       | inl (d, a) => (inl a, w1 <| w_db := d |>)
       | inr e => fail_stmt e w1
       end.

(** A [SELECT] returning rows, and [QueryRow], which reports no row as
    [NoRows]. *)
Definition query {A} (f : db → list A) : Op (list A) :=
  stmt (λ _ d, inl (d, f d)).

Definition queryRow {A} (f : db → option A) : Op A :=
  stmt (λ _ d, match f d with Some a => inl (d, a) | None => inr NoRows end).

(** A statement that cannot violate a constraint, returning the number of
    rows it affected. *)
Definition exec (f : time → db → db * nat) : Op nat :=
  stmt (λ t d, inl (f t d)).

(** [PG.inTx]: on an error of the body or of COMMIT the tables are what they
    were at BEGIN. *)
Definition inTx {A} (m : Op A) : Op A := λ w,
  let w1 := w <| w_tick ::= S |> in
  if fault (w_tick w) then (inr (Wrap "begin" Fault), w1)
  else
    let '(r, w2) := m (w1 <| w_txtime := Some (clock (w_tick w)) |>) in
    let w3 := w2 <| w_txtime := None |> <| w_aborted := false |> in
    match r with
    | inr e => (inr e, w3 <| w_db := w_db w |>)
    | inl a =>
      let w4 := w3 <| w_tick ::= S |> in
      if fault (w_tick w3) || w_aborted w2 then (inr Fault, w4 <| w_db := w_db w |>)
      else (inl a, w4)
    end.

(** [if err != nil { return fmt.Errorf("msg: %w", err) }]. *)
Definition wrapErr {A} (msg : string) (m : Op A) : Op A :=
  r ← mtry m;
  match r with inl a => mret a | inr e => mthrow (Wrap msg e) end.

(** A [switch] on the error of [m]: the first case whose condition holds gives
    the error returned; otherwise the error is wrapped. *)
Definition onErr {A} (f : error → error) (m : Op A) : Op A :=
  r ← mtry m;
  match r with inl a => mret a | inr e => mthrow (f e) end.

End World.

(** ** SQL helpers *)

Definition rows {K V} `{Countable K} (t : gmap K V) : list V := (map_to_list t).*2.

(** [WHERE p]: the first row found, for conditions that select one. *)
Definition find_row {K V} `{Countable K} (p : V → bool) (t : gmap K V) : option V :=
  head (filter (λ v, p v = true) (rows t)).

Definition exists_row {K V} `{Countable K} (p : V → bool) (t : gmap K V) : bool :=
  existsb p (rows t).

(** [WHERE p] on the rows of a query. *)
Definition where_ {A} (p : A → bool) (l : list A) : list A :=
  filter (λ x, p x = true) l.

(** An optional filter: nil matches everything. *)
Definition matches {A} `{EqDecision A} (f : option A) (x : A) : bool :=
  match f with Some y => bool_decide (x = y) | None => true end.

(** [UPDATE t SET f WHERE p], with the number of rows affected. *)
Definition update_where {K V} `{Countable K} (p : V → bool) (f : V → V)
    (t : gmap K V) : gmap K V * nat :=
  ((λ v, if p v then f v else v) <$> t, length (filter (λ v, p v = true) (rows t))).

(** [ORDER BY] a total preorder given as a boolean. *)
Definition order_by {A} (leb : A → A → bool) (l : list A) : list A :=
  merge_sort (λ x y, Is_true (leb x y)) l.

(** Lexicographic order on two keys. *)
Definition lex_leb {A B} (ltb : A → A → bool) (leb : B → B → bool)
    (x y : A * B) : bool :=
  ltb x.1 y.1 || (negb (ltb y.1 x.1) && leb x.2 y.2).

(** [ORDER BY created_at, id]. *)
Definition by_created {A} (created : A → time) (id : A → uuid) (x y : A) : bool :=
  lex_leb Z.ltb N.leb (created x, id x) (created y, id y).

(** A row of [t] with primary key [k]: [REFERENCES t (id)] on a nullable
    column. *)
Definition fk_ok {V} (t : gmap uuid V) (k : option uuid) : bool :=
  match k with Some k => is_some (t !! k) | None => true end.

(** A chain of constraint checks: the first that fails is the error. *)
Fixpoint checks (l : list (bool * error)) : option error :=
  match l with
  | [] => None
  | (ok, e) :: l' => if ok then checks l' else Some e
  end.

(** An [INSERT] or [UPDATE]: constraints first, then the change. *)
Definition constrained {A} (l : list (bool * error)) (r : db * A) : (db * A) + error :=
  match checks l with Some e => inr e | None => inl r end.

(** Sequence-fed inserts: the value is drawn even when the row is refused. *)
Section Sequences.
Context {ENV : Env}.

Definition insert_audit (e : Entry) : Op unit := λ w,
  let id := (w_audit_seq w + 1)%Z in
  let w1 := w <| w_tick ::= S |> in
  if fault (w_tick w) || w_aborted w then fail_stmt Fault w1
  else
    let w2 := w1 <| w_audit_seq := id |> in
    if bool_decide (e_ActorType e ∈ [ActorUser; ActorSystem; ActorAgent])
    then (inl tt, w2 <| w_db ::= λ d, d <| audit_log ::=
            λ l, l ++ [ {| l_ID := id; l_Entry := e; l_CreatedAt := sql_now w |} ] |> |>)
    else fail_stmt (PgCheck "audit_log_actor_type_check") w2.

Definition event_types : list string :=
  [AgentEventEnrolled; AgentEventConnected; AgentEventDisconnected;
   AgentEventConfigApplied; AgentEventConfigFailed; AgentEventHealthy;
   AgentEventUnhealthy].

Definition insert_event (agentID : uuid) (eventType : string)
    (payload : option json) : Op unit := λ w,
  let id := (w_event_seq w + 1)%Z in
  let w1 := w <| w_tick ::= S |> in
  if fault (w_tick w) || w_aborted w then fail_stmt Fault w1
  else
    let w2 := w1 <| w_event_seq := id |> in
    match checks
      [(bool_decide (eventType ∈ event_types), PgCheck "agent_events_event_type_check");
       (is_some (agents (w_db w) !! agentID), PgForeignKey "agent_events_agent_id_fkey")]
    with
    | Some e => fail_stmt e w2
    | None =>
      (inl tt, w2 <| w_db ::= λ d, d <| agent_events ::=
         λ l, l ++ [ {| ev_ID := id; ev_AgentID := agentID; ev_EventType := eventType;
                        ev_Detail := payload; ev_CreatedAt := sql_now w |} ] |> |>)
    end.

(** [audit.Write] (internal/audit/audit.go). *)
Definition Write (entries : list Entry) : Op unit :=
  mfor entries (λ e,
    let e := if bool_decide (e_ActorType e = "")
             then {| e_ActorUserID := e_ActorUserID e; e_ActorType := ActorUser;
                     e_Action := e_Action e; e_EntityType := e_EntityType e;
                     e_EntityID := e_EntityID e; e_CustomerID := e_CustomerID e;
                     e_Payload := e_Payload e |}
             else e in
    wrapErr "audit: insert" (insert_audit e)).

End Sequences.

(** ** Inverting successful runs

    The lemmas below take a run that returned a value apart, statement by
    statement; [run_inv] does it as far as it goes. *)

Lemma bind_inl {S E A B} (m : M S E A) (f : A → M S E B) s b s' :
  (m ≫= f) s = (inl b, s') →
  ∃ a s1, m s = (inl a, s1) ∧ f a s1 = (inl b, s').
Proof.
  unfold mbind, M_bind. destruct (m s) as [[a|e] s1]; [|done]. eauto.
Qed.

Lemma bind_inr {S E A B} (m : M S E A) (f : A → M S E B) s e s' :
  (m ≫= f) s = (inr e, s') →
  m s = (inr e, s') ∨ ∃ a s1, m s = (inl a, s1) ∧ f a s1 = (inr e, s').
Proof.
  unfold mbind, M_bind. destruct (m s) as [[a|e'] s1]; [|intros [= -> ->]; auto].
  eauto 6.
Qed.

Lemma ret_inl {S E A} (a b : A) (s s' : S) :
  (mret a : M S E A) s = (inl b, s') → a = b ∧ s = s'.
Proof. by intros [= -> ->]. Qed.

Lemma mtry_inl {S E A} (m : M S E A) s r s' : mtry m s = (inl r, s') → m s = (r, s').
Proof. unfold mtry. destruct (m s). by intros [= -> ->]. Qed.

Lemma mmodify_inl {S E} (f : S → S) s u s' :
  (mmodify f : M S E unit) s = (inl u, s') → s' = f s.
Proof. by intros [= <-]. Qed.

Section Runs.
Context {ENV : Env}.

Lemma stmt_inl {A} (f : time → db → (db * A) + error) w a w' :
  stmt f w = (inl a, w') →
  ∃ d, f (sql_now w) (w_db w) = inl (d, a) ∧
       fault (w_tick w) || w_aborted w = false ∧
       w' = w <| w_tick ::= S |> <| w_db := d |>.
Proof.
  unfold stmt. destruct (fault _ || _); [done|].
  destruct (f _ _) as [[d b]|e]; [|done]. intros [= -> <-]. eauto.
Qed.

Lemma stmt_inr {A} (f : time → db → (db * A) + error) w e w' :
  stmt f w = (inr e, w') → w_db w' = w_db w.
Proof.
  unfold stmt, fail_stmt. destruct (fault _ || _); [by intros [= _ <-]|].
  destruct (f _ _) as [[d b]|e']; [done|]. by intros [= _ <-].
Qed.

Lemma exec_inl f w a w' :
  exec f w = (inl a, w') →
  ∃ d, f (sql_now w) (w_db w) = (d, a) ∧ w' = w <| w_tick ::= S |> <| w_db := d |>.
Proof.
  intros (d & Hf & _ & ->)%stmt_inl. simplify_eq. destruct (f _ _); simplify_eq. eauto.
Qed.

Lemma query_inl {A} (f : db → list A) w a w' :
  query f w = (inl a, w') → a = f (w_db w) ∧ w' = w <| w_tick ::= S |>.
Proof. intros (d & Hf & _ & ->)%stmt_inl. simplify_eq. by destruct w. Qed.

Lemma queryRow_inl {A} (f : db → option A) w a w' :
  queryRow f w = (inl a, w') → f (w_db w) = Some a ∧ w' = w <| w_tick ::= S |>.
Proof.
  intros (d & Hf & _ & ->)%stmt_inl. destruct (f (w_db w)); simplify_eq.
  by destruct w.
Qed.

Lemma constrained_inl {A} l (r : db * A) d a :
  constrained l r = inl (d, a) → checks l = None ∧ r = (d, a).
Proof. unfold constrained. destruct (checks l); [done|]. by intros [= ->]. Qed.

Lemma wrapErr_inl {A} msg (m : Op A) w a w' :
  wrapErr msg m w = (inl a, w') → m w = (inl a, w').
Proof.
  unfold wrapErr, mtry, mbind, M_bind. destruct (m w) as [[b|e] w1]; [|done].
  by intros [= -> ->].
Qed.

Lemma onErr_inl {A} f (m : Op A) w a w' :
  onErr f m w = (inl a, w') → m w = (inl a, w').
Proof.
  unfold onErr, mtry, mbind, M_bind. destruct (m w) as [[b|e] w1]; [|done].
  by intros [= -> ->].
Qed.

Lemma inTx_inl {A} (m : Op A) w a w' :
  inTx m w = (inl a, w') →
  ∃ w2, m (w <| w_tick ::= S |> <| w_txtime := Some (clock (w_tick w)) |>) = (inl a, w2) ∧
        w' = w2 <| w_txtime := None |> <| w_aborted := false |> <| w_tick ::= S |>.
Proof.
  unfold inTx. destruct (fault (w_tick w)); [done|].
  destruct (m _) as [[b|e] w2]; [|done].
  case_match; [done|]. intros [= -> <-]. eauto.
Qed.

(** A computation that leaves the tables alone when it fails. *)
Definition atomic {A} (m : Op A) : Prop :=
  ∀ w e w', m w = (inr e, w') → w_db w' = w_db w.

(** A computation that never changes the tables. *)
Definition readonly {A} (m : Op A) : Prop := ∀ w, w_db (m w).2 = w_db w.

Lemma atomic_inTx {A} (m : Op A) : atomic (inTx m).
Proof.
  intros w e w'. unfold inTx. destruct (fault (w_tick w)); [by intros [= _ <-]|].
  destruct (m _) as [[b|e'] w2]; [|by intros [= _ <-]].
  case_match; [|done]. by intros [= _ <-].
Qed.

Lemma atomic_stmt {A} (f : time → db → (db * A) + error) : atomic (stmt f).
Proof. intros w e w'. apply stmt_inr. Qed.

Lemma readonly_atomic {A} (m : Op A) : readonly m → atomic m.
Proof. intros Hr w e w' H. specialize (Hr w). by rewrite H in Hr. Qed.

Lemma readonly_query {A} (f : db → list A) : readonly (query f).
Proof. intros w. unfold query, stmt, fail_stmt. by destruct (fault _ || _). Qed.

Lemma readonly_queryRow {A} (f : db → option A) : readonly (queryRow f).
Proof.
  intros w. unfold queryRow, stmt, fail_stmt. destruct (fault _ || _); [done|].
  by destruct (f (w_db w)).
Qed.

Lemma readonly_ret {A} (a : A) : readonly (mret a).
Proof. done. Qed.

Lemma readonly_throw {A} (e : error) : readonly (mthrow e : Op A).
Proof. done. Qed.

Lemma readonly_tick : readonly tick.
Proof. done. Qed.

Lemma readonly_time_Now : readonly time_Now.
Proof. done. Qed.

Lemma readonly_uuid_New : readonly uuid_New.
Proof. done. Qed.

Lemma readonly_rand_Read n : readonly (rand_Read n).
Proof. intros w. unfold rand_Read, tick, mbind, M_bind. simpl. by case_match. Qed.

Lemma readonly_bind {A B} (m : Op A) (f : A → Op B) :
  readonly m → (∀ a, readonly (f a)) → readonly (m ≫= f).
Proof.
  intros Hm Hf w. specialize (Hm w). unfold mbind, M_bind.
  destruct (m w) as [[a|e] w1]; simpl in *; [|done]. by rewrite Hf.
Qed.

Lemma readonly_onErr {A} f (m : Op A) : readonly m → readonly (onErr f m).
Proof.
  intros Hm w. specialize (Hm w). unfold onErr, mtry, mbind, M_bind.
  by destruct (m w) as [[a|e] w1].
Qed.

Lemma readonly_wrapErr {A} s (m : Op A) : readonly m → readonly (wrapErr s m).
Proof.
  intros Hm w. specialize (Hm w). unfold wrapErr, mtry, mbind, M_bind.
  by destruct (m w) as [[a|e] w1].
Qed.

Lemma readonly_try {A} (m : Op A) : readonly m → readonly (mtry m).
Proof.
  intros Hm w. specialize (Hm w). unfold mtry. by destruct (m w) as [[a|e] w1].
Qed.

(** Reads first, then one atomic step. *)
Lemma atomic_bind {A B} (m : Op A) (f : A → Op B) :
  readonly m → (∀ a, atomic (f a)) → atomic (m ≫= f).
Proof.
  intros Hm Hf w e w'. specialize (Hm w). intros [H|(a & w1 & H & H')]%bind_inr.
  - by rewrite H in Hm.
  - rewrite H in Hm. simpl in Hm. apply Hf in H'. congruence.
Qed.

(** One atomic step, then computations that only read or return. *)
Lemma atomic_map {A B} (m : Op A) (f : A → B) :
  atomic m → atomic (m ≫= λ a, mret (f a)).
Proof. intros Hm w e w' [H|(a & w1 & H & H')]%bind_inr; [by eapply Hm|done]. Qed.

(** An invariant of the tables is kept by an atomic computation as soon as
    every successful run keeps it. *)
Lemma atomic_keeps {A} (P : db → Prop) (m : Op A) :
  atomic m →
  (∀ w a w', m w = (inl a, w') → P (w_db w) → P (w_db w')) →
  keeps (λ w, P (w_db w)) m.
Proof.
  intros Ha Hs w HP. destruct (m w) as [[a|e] w'] eqn:E; simpl.
  - by eapply Hs.
  - apply Ha in E. by rewrite E.
Qed.

Lemma readonly_keeps {A} (P : db → Prop) (m : Op A) :
  readonly m → keeps (λ w, P (w_db w)) m.
Proof. intros Hr w HP. by rewrite Hr. Qed.

End Runs.

Create HintDb atomic discriminated.
#[export] Hint Resolve atomic_inTx atomic_stmt atomic_map readonly_query
  readonly_queryRow readonly_ret readonly_throw readonly_tick readonly_time_Now
  readonly_uuid_New readonly_rand_Read readonly_onErr readonly_wrapErr
  readonly_try : atomic.

(** Proves [atomic] and [readonly] of an operation by its structure. *)
Ltac atomic_tac :=
  repeat first
    [ solve [eauto 3 with atomic]
    | lazymatch goal with
      | |- atomic (exec _) => apply atomic_stmt
      | |- atomic (_ ≫= _) => first [solve [apply atomic_map; eauto 3 with atomic]
                                    | apply atomic_bind; [|intros ?]]
      | |- readonly (_ ≫= _) => apply readonly_bind; [|intros ?]
      | |- readonly (onErr _ _) => apply readonly_onErr
      | |- readonly (wrapErr _ _) => apply readonly_wrapErr
      | |- _ (match ?x with _ => _ end) => destruct x
      | |- _ (let _ := _ in _) => cbv zeta
      | |- atomic (mret _) => apply readonly_atomic
      | |- atomic (mthrow _) => apply readonly_atomic
      | |- atomic (query _) => apply readonly_atomic
      | |- atomic (queryRow _) => apply readonly_atomic
      | |- atomic (onErr _ _) => apply readonly_atomic
      end ].

(** Takes every hypothesis of the form [m w = (inl a, w')] apart. *)
Ltac run_inv :=
  repeat match goal with
  | H : (_ ≫= _) _ = (inl _, _) |- _ =>
    apply bind_inl in H as (? & ? & ? & ?)
  | H : mret _ _ = (inl _, _) |- _ => apply ret_inl in H as [? ?]; subst
  | H : mthrow _ _ = (inl _, _) |- _ => discriminate H
  | H : wrapErr _ _ _ = (inl _, _) |- _ => apply wrapErr_inl in H
  | H : onErr _ _ _ = (inl _, _) |- _ => apply onErr_inl in H
  | H : inTx _ _ = (inl _, _) |- _ => apply inTx_inl in H as (? & ? & ->)
  | H : exec _ _ = (inl _, _) |- _ => apply exec_inl in H as (? & ? & ->)
  | H : query _ _ = (inl _, _) |- _ => apply query_inl in H as [? ->]
  | H : queryRow _ _ = (inl _, _) |- _ => apply queryRow_inl in H as [? ->]
  | H : stmt _ _ = (inl _, _) |- _ => apply stmt_inl in H as (? & ? & _ & ->)
  | H : constrained _ _ = inl (_, _) |- _ => apply constrained_inl in H as [? ?]
  | H : mwhen ?b _ _ = (inl _, _) |- _ => destruct b; simpl mwhen in H
  | H : (if ?b then _ else _) _ = (inl _, _) |- _ => destruct b eqn:?
  | H : (match ?x with _ => _ end) _ = (inl _, _) |- _ => destruct x eqn:?
  end.

(** ** A concrete environment

    No failures, a clock that counts ticks, fresh identifiers: the environment
    the concrete runs of the development use. *)
Definition quiet_env : Env := {|
  fault := λ _, false;
  newuuid := λ n, N.of_nat (1000 + n);
  randfail := λ _, false;
  randbyte := λ k i, ascii_of_nat ((37 * k + 11 * i) mod 256);
  clock := λ n, Z.of_nat n;
  text_leb := String.leb;
  unicode_lower := λ r, r;
  pg_lower := λ s, s;
|}.

(** The tables after a sequence of operations that all ran quietly. *)
Definition world_after {A} (m : @M world error A) (w : world) : world := (m w).2.
