(* ===== verification/PgCore.v ===== *)
(** * Customers, API keys and logins (internal/store/pg.go)

    Each method of [PG] is the sequence of its SQL statements over the tables
    of [World], with the constraints the migrations declare and the error
    mapping of the Go code. *)
From S2P Require Import Prelude GoStrings Store World.

Section PgCore.
Context {ENV : Env}.

Definition not_deleted (c : Customer) : bool :=
  negb (bool_decide (c_Status c = CustomerDeleted)).

Definition customer_statuses : list string :=
  [CustomerActive; CustomerSuspended; CustomerDeleted].

(** [rate_limit_items_per_sec IS NULL OR > 0], [retention_days] in 1..30. *)
Definition rate_limit_check (o : option Z) : bool :=
  match o with Some n => (0 <? n)%Z | None => true end.
Definition retention_check (o : option Z) : bool :=
  match o with Some n => (1 <=? n)%Z && (n <=? 30)%Z | None => true end.

Definition insertAPIKey (k : NewAPIKey) : Op APIKey :=
  wrapErr "insert api key" (stmt (λ now d,
    let row := {|
      k_ID := nk_ID k; k_CustomerID := nk_CustomerID k; k_Name := nk_Name k;
      k_KeyPrefix := nk_KeyPrefix k; k_KeyHash := nk_KeyHash k;
      k_CreatedBy := nk_CreatedBy k; k_CreatedAt := now;
      k_ExpiresAt := nk_ExpiresAt k; k_RevokedAt := None; k_LastUsedAt := None |} in
    constrained
      [(is_none (api_keys d !! nk_ID k), PgUnique "api_keys_pkey");
       (is_some (customers d !! nk_CustomerID k), PgForeignKey "api_keys_customer_id_fkey");
       (fk_ok (users d) (nk_CreatedBy k), PgForeignKey "api_keys_created_by_fkey")]
      (d <| api_keys ::= <[nk_ID k := row]> |>, row))).

Definition CreateCustomer (c : NewCustomer) (k : NewAPIKey) (entries : list Entry)
    : Op (Customer * APIKey) :=
  inTx (
    cust ← onErr (λ err,
        if isUniqueViolation err "customers_slug_key" then ErrSlugExists
        else if isUniqueViolation err "customers_client_id_key"
        then Wrap "client_id collision" ErrConflict
        else Wrap "insert customer" err)
      (stmt (λ now d,
        let row := {|
          c_ID := nc_ID c; c_Slug := nc_Slug c; c_Name := nc_Name c;
          c_ClientID := nc_ClientID c; c_Status := CustomerActive;
          c_RateLimitItemsPerSec := None; c_RetentionDays := None;
          c_CreatedAt := now; c_UpdatedAt := now |} in
        constrained
          [(is_none (customers d !! nc_ID c), PgUnique "customers_pkey");
           (negb (exists_row (λ x, bool_decide (c_Slug x = nc_Slug c)) (customers d)),
              PgUnique "customers_slug_key");
           (negb (exists_row (λ x, bool_decide (c_ClientID x = nc_ClientID c)) (customers d)),
              PgUnique "customers_client_id_key")]
          (d <| customers ::= <[nc_ID c := row]> |>, row)));
    key ← insertAPIKey k;
    Write entries;;
    mret (cust, key)).

Definition GetCustomer (id : uuid) : Op Customer :=
  onErr (λ err, if Is err NoRows then ErrNotFound else err)
    (queryRow (λ d, c ← customers d !! id; if not_deleted c then Some c else None)).

Definition ListCustomers (status : option string) : Op (list Customer) :=
  query (λ d, order_by (by_created c_CreatedAt c_ID)
    (where_ (λ c, not_deleted c && matches status (c_Status c)) (rows (customers d)))).

Definition UpdateCustomer (id : uuid) (upd : CustomerUpdate) (entries : list Entry)
    : Op Customer :=
  inTx (
    cust ← onErr (λ err, if Is err NoRows then ErrNotFound else Wrap "update customer" err)
      (stmt (λ now d,
        match customers d !! id with
        | Some c =>
          if not_deleted c then
            let c' := c
              <| c_Name := default (c_Name c) (cu_Name upd) |>
              <| c_Status := default (c_Status c) (cu_Status upd) |>
              <| c_RateLimitItemsPerSec :=
                   if oi_Set (cu_RateLimitItemsPerSec upd)
                   then oi_Value (cu_RateLimitItemsPerSec upd)
                   else c_RateLimitItemsPerSec c |>
              <| c_RetentionDays :=
                   if oi_Set (cu_RetentionDays upd)
                   then oi_Value (cu_RetentionDays upd) else c_RetentionDays c |>
              <| c_UpdatedAt := now |> in
            constrained
              [(bool_decide (c_Status c' ∈ customer_statuses), PgCheck "customers_status_check");
               (rate_limit_check (c_RateLimitItemsPerSec c'),
                  PgCheck "customers_rate_limit_items_per_sec_check");
               (retention_check (c_RetentionDays c'), PgCheck "customers_retention_days_check")]
              (d <| customers ::= <[id := c']> |>, c')
          else inr NoRows
        | None => inr NoRows
        end));
    Write entries;;
    mret cust).

Definition SoftDeleteCustomer (id : uuid) (entries : list Entry) : Op unit :=
  inTx (
    n ← wrapErr "delete customer" (exec (λ now d,
      match customers d !! id with
      | Some c =>
        if not_deleted c
        then (d <| customers ::= <[id := c <| c_Status := CustomerDeleted |>
                                           <| c_UpdatedAt := now |>]> |>, 1)
        else (d, 0)
      | None => (d, 0)
      end));
    if bool_decide (n = 0) then mthrow ErrNotFound
    else
      wrapErr "revoke keys" (exec (λ now d,
        let '(t, n) := update_where
          (λ k, bool_decide (k_CustomerID k = id) && is_none (k_RevokedAt k))
          (λ k, k <| k_RevokedAt := Some now |>) (api_keys d) in
        (d <| api_keys := t |>, n)));;
      Write entries).

Definition CountActiveCustomers : Op Z :=
  queryRow (λ d, Some (Z.of_nat (length
    (filter (λ c, c_Status c = CustomerActive) (rows (customers d)))))).

Definition ListCustomerRefs : Op (list CustomerRef) :=
  query (λ d, (λ c, {| cr_ID := c_ID c; cr_Name := c_Name c;
                       cr_ClientID := c_ClientID c |}) <$> rows (customers d)).

Definition ListAPIKeys (customerID : uuid) : Op (list APIKey) :=
  GetCustomer customerID;;
  query (λ d, order_by (by_created k_CreatedAt k_ID)
    (filter (λ k, k_CustomerID k = customerID) (rows (api_keys d)))).

Definition CreateAPIKey (k : NewAPIKey) (entries : list Entry) : Op APIKey :=
  GetCustomer (nk_CustomerID k);;
  inTx (
    key ← insertAPIKey k;
    Write entries;;
    mret key).

Definition RevokeAPIKey (customerID keyID : uuid) (entries : list Entry) : Op unit :=
  inTx (
    onErr (λ err, if Is err NoRows then ErrNotFound else err)
      (queryRow (λ d, k ← api_keys d !! keyID;
         if bool_decide (k_CustomerID k = customerID) then Some true else None));;
    wrapErr "revoke key" (exec (λ now d,
      let '(t, n) := update_where
        (λ k, bool_decide (k_ID k = keyID) && bool_decide (k_CustomerID k = customerID)
              && is_none (k_RevokedAt k))
        (λ k, k <| k_RevokedAt := Some now |>) (api_keys d) in
      (d <| api_keys := t |>, n)));;
    Write entries).

(** Non-revoked keys with a prefix, joined with their customer.  The rows come
    in no specified order. *)
Definition ActiveKeysByPrefix (prefix : string) : Op (list AuthKey) :=
  query (λ d, omap (λ k,
    if bool_decide (k_KeyPrefix k = prefix) && is_none (k_RevokedAt k) then
      c ← customers d !! k_CustomerID k;
      Some {| ak_KeyID := k_ID k; ak_CustomerID := k_CustomerID k;
              ak_ClientID := c_ClientID c; ak_KeyHash := k_KeyHash k;
              ak_CustomerStatus := c_Status c; ak_ExpiresAt := k_ExpiresAt k;
              ak_RateLimitItemsPerSec := default 0%Z (c_RateLimitItemsPerSec c) |}
    else None) (rows (api_keys d))).

(** [GREATEST(COALESCE(old, 'epoch'), ts)]. *)
Definition greatest (old : option time) (ts : time) : option time :=
  Some (Z.max (default 0%Z old) ts).

(** The updates of a batch run in one implicit transaction. *)
Definition TouchAPIKeys (usages : gmap uuid time) : Op unit :=
  if bool_decide (usages = ∅) then mret tt
  else
    exec (λ _ d,
      (d <| api_keys ::= map_imap (λ id k, Some
              match usages !! id with
              | Some ts => k <| k_LastUsedAt := greatest (k_LastUsedAt k) ts |>
              | None => k
              end) |>, 0));;
    mret tt.

(** ** Users and logins *)

Definition user_roles : list string := ["admin"; "operator"; "viewer"].

Definition GetUser (id : uuid) : Op User :=
  onErr (λ err, if Is err NoRows then ErrNotFound else err)
    (queryRow (λ d, users d !! id)).

(** The constraints of an [INSERT INTO users]. *)
Definition user_insert_checks (d : db) (id : uuid) (email role : string)
    (externalID : option string) : list (bool * error) :=
  [(bool_decide (role ∈ user_roles), PgCheck "users_role_check");
   (is_none (users d !! id), PgUnique "users_pkey");
   (negb (exists_row (λ u, bool_decide (u_Email u = email)) (users d)),
      PgUnique "users_email_key");
   (match externalID with
    | Some x => negb (exists_row (λ u, bool_decide (u_ExternalID u = Some x)) (users d))
    | None => true
    end, PgUnique "users_external_id_key")].

Definition new_user (id : uuid) (email : string) (displayName : option string)
    (role : string) (externalID : option string) (now : time) : User :=
  {| u_ID := id; u_Email := email; u_DisplayName := displayName; u_Role := role;
     u_ExternalID := externalID; u_DisabledAt := None; u_LastLoginAt := None;
     u_CreatedAt := now |}.

Definition insert_user (id : uuid) (email : string) (displayName : option string)
    (role : string) (externalID : option string) : Op User :=
  stmt (λ now d,
    let u := new_user id email displayName role externalID now in
    constrained (user_insert_checks d id email role externalID)
      (d <| users ::= <[id := u]> |>, u)).

Definition UpsertUserByIdentity (provider subject email : string)
    (displayName : option string) (roleIfNew : string) : Op User :=
  inTx (
    r ← mtry (queryRow (λ d, uid ← user_identities d !! (provider, subject);
                             users d !! uid));
    u ← match r with
        | inl u => mret u
        | inr err =>
          if negb (Is err NoRows) then mthrow err
          else
            r2 ← mtry (queryRow (λ d,
                   find_row (λ u, bool_decide (u_Email u = email)) (users d)));
            u ← match r2 with
                | inl u => mret u
                | inr err2 =>
                  if Is err2 NoRows then
                    id ← uuid_New; (* DEFAULT gen_random_uuid() *)
                    wrapErr "insert user" (insert_user id email displayName roleIfNew None)
                  else mthrow err2
                end;
            wrapErr "insert identity" (stmt (λ _ d,
              constrained
                [(is_none (user_identities d !! (provider, subject)),
                    PgUnique "user_identities_pkey");
                 (is_some (users d !! u_ID u), PgForeignKey "user_identities_user_id_fkey")]
                (d <| user_identities ::= <[(provider, subject) := u_ID u]> |>, tt)));;
            mret u
        end;
    let role := if bool_decide (roleIfNew = "admin") then "admin" else u_Role u in
    wrapErr "stamp login" (stmt (λ now d,
      match users d !! u_ID u with
      | Some x =>
        let x' := x <| u_Role := role |> <| u_LastLoginAt := Some now |> in
        constrained [(bool_decide (role ∈ user_roles), PgCheck "users_role_check")]
          (d <| users ::= <[u_ID u := x']> |>, x')
      | None => inr NoRows
      end))).

End PgCore.
