(* ===== verification/PgUsers.v ===== *)
(** * User administration (internal/store/pg_users.go)

    Invitations, SCIM provisioning, role changes, grants and deletion, with
    the check that an enabled admin remains. *)
From S2P Require Import Prelude GoStrings Store World PgCore.

Section PgUsers.
Context {ENV : Env}.

(** [userWithIdentitiesQuery]: a user with the provider names of its
    identities in order and its customer grants. *)
Definition user_with_identities (d : db) (u : User) : UserWithIdentities := {|
  ui_User := u;
  ui_Identities := order_by text_leb
    (omap (λ '((provider, _), uid), if bool_decide (uid = u_ID u) then Some provider else None)
       (map_to_list (user_identities d)));
  ui_CustomerIDs :=
    omap (λ '(uid, cid), if bool_decide (uid = u_ID u) then Some cid else None)
      (elements (user_customer_grants d)) |}.

(** The query for one user id, as it runs inside and outside transactions. *)
Definition select_user (id : uuid) : Op UserWithIdentities :=
  queryRow (λ d, user_with_identities d <$> users d !! id).

Definition GetUserByEmail (email : string) : Op UserWithIdentities :=
  onErr (λ err, if Is err NoRows then ErrNotFound else err)
    (queryRow (λ d, user_with_identities d <$>
       find_row (λ u, bool_decide (pg_lower (u_Email u) = pg_lower email)) (users d))).

Definition CreateSCIMUser (id : uuid) (email role : string)
    (displayName externalID : option string) (entries : list Entry)
    : Op UserWithIdentities :=
  inTx (
    onErr (λ err,
        if isUniqueViolation err "users_email_key" then ErrEmailExists
        else if isUniqueViolation err "users_external_id_key" then ErrConflict
        else Wrap "insert scim user" err)
      (insert_user id email displayName role externalID);;
    Write entries;;
    select_user id).

Definition UpdateSCIMUser (id : uuid) (displayName externalID : option string)
    (entries : list Entry) : Op UserWithIdentities :=
  inTx (
    n ← wrapErr "update scim user" (stmt (λ _ d,
      match users d !! id with
      | Some u =>
        constrained
          [(match externalID with
            | Some x => negb (exists_row (λ v, bool_decide (u_ExternalID v = Some x)
                                            && negb (bool_decide (u_ID v = id))) (users d))
            | None => true
            end, PgUnique "users_external_id_key")]
          (d <| users ::= <[id := u <| u_DisplayName := displayName |>
                                    <| u_ExternalID := externalID |>]> |>, 1)
      | None => inl (d, 0)
      end));
    if bool_decide (n = 0) then mthrow ErrNotFound
    else Write entries;; select_user id).

Definition ListUserCustomerIDs (userID : uuid) : Op (list uuid) :=
  query (λ d, omap (λ '(uid, cid), if bool_decide (uid = userID) then Some cid else None)
                (elements (user_customer_grants d))).

Definition SetUserCustomerGrants (userID : uuid) (customerIDs : list uuid)
    (entries : list Entry) : Op unit :=
  inTx (
    found ← wrapErr "check user" (queryRow (λ d, Some (is_some (users d !! userID))));
    if negb found then mthrow ErrNotFound
    else
      wrapErr "clear grants" (exec (λ _ d,
        (d <| user_customer_grants ::= filter (λ g, g.1 ≠ userID) |>, 0)));;
      mfor customerIDs (λ cid,
        onErr (λ err,
            if isForeignKeyViolation err "user_customer_grants_customer_id_fkey"
            then ErrNotFound else Wrap "insert grant" err)
          (stmt (λ _ d,
            constrained
              [(is_some (users d !! userID),
                  PgForeignKey "user_customer_grants_user_id_fkey");
               (is_some (customers d !! cid),
                  PgForeignKey "user_customer_grants_customer_id_fkey")]
              (d <| user_customer_grants ::= λ g, {[(userID, cid)]} ∪ g |>, tt))));;
      Write entries).

Definition ListUsers : Op (list UserWithIdentities) :=
  query (λ d, user_with_identities d <$>
    order_by (by_created u_CreatedAt u_ID) (rows (users d))).

Definition GetUserWithIdentities (id : uuid) : Op UserWithIdentities :=
  onErr (λ err, if Is err NoRows then ErrNotFound else err) (select_user id).

Definition CreateInvitedUser (id : uuid) (email role : string) (entries : list Entry)
    : Op User :=
  inTx (
    u ← onErr (λ err,
          if isUniqueViolation err "users_email_key" then ErrEmailExists
          else Wrap "insert invited user" err)
        (insert_user id email None role None);
    Write entries;;
    mret u).

Definition enabled_admin (u : User) : bool :=
  bool_decide (u_Role u = "admin") && is_none (u_DisabledAt u).

Definition ensureEnabledAdminRemains : Op unit :=
  n ← wrapErr "count enabled admins"
        (queryRow (λ d, Some (length (where_ enabled_admin (rows (users d))))));
  if bool_decide (n = 0) then mthrow ErrLastAdmin else mret tt.

(** The sessions whose encoded data contains the user's UUID string. *)
Definition deleteSessionsByUser (id : uuid) : Op unit :=
  wrapErr "delete sessions" (exec (λ _ d,
    (d <| sessions ::= filter (λ '(_, s), Contains (uuid_String id) (s_Data s) = false) |>, 0)));;
  mret tt.

(** [UPDATE users SET ... WHERE id = $1]. *)
Definition update_user (id : uuid) (f : time → User → User) : Op nat :=
  exec (λ now d,
    match users d !! id with
    | Some u => (d <| users ::= <[id := f now u]> |>, 1)
    | None => (d, 0)
    end).

Definition UpdateUserAdmin (id : uuid) (upd : UserUpdate) (entries : list Entry)
    : Op UserWithIdentities :=
  inTx (
    onErr (λ err, if Is err NoRows then ErrNotFound else err)
      (queryRow (λ d, users d !! id));;
    match uu_Role upd with
    | Some role =>
      wrapErr "update role" (stmt (λ _ d,
        match users d !! id with
        | Some u =>
          constrained [(bool_decide (role ∈ user_roles), PgCheck "users_role_check")]
            (d <| users ::= <[id := u <| u_Role := role |>]> |>, tt)
        | None => inl (d, tt)
        end))
    | None => mret tt
    end;;
    match uu_Disabled upd with
    | Some true =>
      wrapErr "disable user" (update_user id (λ now u,
        u <| u_DisabledAt ::= λ t, Some (default now t) |>));;
      deleteSessionsByUser id
    | Some false =>
      wrapErr "enable user" (update_user id (λ _ u, u <| u_DisabledAt := None |>));;
      mret tt
    | None => mret tt
    end;;
    ensureEnabledAdminRemains;;
    Write entries;;
    select_user id).

(** [UPDATE <table> SET created_by = NULL WHERE created_by = $1] for the three
    tables of the loop. *)
Definition detach_api_keys (id : uuid) : Op nat :=
  exec (λ _ d,
    let '(t, n) := update_where (λ k, bool_decide (k_CreatedBy k = Some id))
                     (λ k, k <| k_CreatedBy := None |>) (api_keys d) in
    (d <| api_keys := t |>, n)).

Definition detach_pipeline_versions (id : uuid) : Op nat :=
  exec (λ _ d,
    let '(t, n) := update_where (λ v, bool_decide (vr_CreatedBy v = Some id))
                     (λ v, v <| vr_CreatedBy := None |>) (pipeline_versions d) in
    (d <| pipeline_versions := t |>, n)).

Definition detach_bootstrap_tokens (id : uuid) : Op nat :=
  exec (λ _ d,
    let '(t, n) := update_where (λ b, bool_decide (bt_CreatedBy b = Some id))
                     (λ b, b <| bt_CreatedBy := None |>) (bootstrap_tokens d) in
    (d <| bootstrap_tokens := t |>, n)).

(** [DELETE FROM users]: identities and grants cascade; the other references
    refuse the delete while a row still points at the user. *)
Definition user_references (d : db) (id : uuid) : list (bool * error) :=
  let by_ {V} (f : V → option uuid) (t : gmap uuid V) :=
    negb (exists_row (λ r, bool_decide (f r = Some id)) t) in
  [(by_ k_CreatedBy (api_keys d), PgForeignKey "api_keys_created_by_fkey");
   (by_ vr_CreatedBy (pipeline_versions d), PgForeignKey "pipeline_versions_created_by_fkey");
   (by_ bt_CreatedBy (bootstrap_tokens d), PgForeignKey "bootstrap_tokens_created_by_fkey");
   (by_ w_CreatedBy (webhooks d), PgForeignKey "webhooks_created_by_fkey");
   (by_ tr_CreatedBy (api_tokens d), PgForeignKey "api_tokens_created_by_fkey");
   (match billing_settings d with
    | Some b => negb (bool_decide (b_UpdatedBy b = Some id))
    | None => true
    end, PgForeignKey "billing_settings_updated_by_fkey")].

Definition delete_user_row (id : uuid) : Op nat :=
  stmt (λ _ d,
    match users d !! id with
    | Some _ =>
      constrained (user_references d id)
        (d <| users ::= delete id |>
           <| user_identities ::= filter (λ '(_, uid), uid ≠ id) |>
           <| user_customer_grants ::= filter (λ g, g.1 ≠ id) |>, 1)
    | None => inl (d, 0)
    end).

Definition DeleteUser (id : uuid) (entries : list Entry) : Op unit :=
  inTx (
    wrapErr "detach api_keys.created_by" (detach_api_keys id);;
    wrapErr "detach pipeline_versions.created_by" (detach_pipeline_versions id);;
    wrapErr "detach bootstrap_tokens.created_by" (detach_bootstrap_tokens id);;
    n ← wrapErr "delete user" (delete_user_row id);
    if bool_decide (n = 0) then mthrow ErrNotFound
    else
      ensureEnabledAdminRemains;;
      deleteSessionsByUser id;;
      Write entries).

End PgUsers.
