(* ===== verification/PgFleet.v ===== *)
(** * Bootstrap tokens, agents and agent events (internal/store/pg_fleet.go) *)
From S2P Require Import Prelude GoStrings Store World PgCore.

Section PgFleet.
Context {ENV : Env}.

(** ** Bootstrap tokens *)

Definition ListBootstrapTokens (customerID : uuid) : Op (list BootstrapToken) :=
  GetCustomer customerID;;
  query (λ d, order_by (λ x y, lex_leb (λ a b, Z.ltb b a) N.leb
                                 (bt_CreatedAt x, bt_ID x) (bt_CreatedAt y, bt_ID y))
    (where_ (λ t, bool_decide (bt_CustomerID t = customerID)) (rows (bootstrap_tokens d)))).

Definition CreateBootstrapToken (t : NewBootstrapToken) (entries : list Entry)
    : Op BootstrapToken :=
  GetCustomer (nbt_CustomerID t);;
  inTx (
    tok ← wrapErr "insert bootstrap token" (stmt (λ now d,
      let row := {|
        bt_ID := nbt_ID t; bt_CustomerID := nbt_CustomerID t; bt_Name := nbt_Name t;
        bt_TokenPrefix := nbt_TokenPrefix t; bt_TokenHash := nbt_TokenHash t;
        bt_MaxUses := nbt_MaxUses t; bt_UsedCount := 0; bt_CreatedBy := nbt_CreatedBy t;
        bt_CreatedAt := now; bt_ExpiresAt := nbt_ExpiresAt t; bt_RevokedAt := None |} in
      constrained
        [(is_none (bootstrap_tokens d !! nbt_ID t), PgUnique "bootstrap_tokens_pkey");
         (is_some (customers d !! nbt_CustomerID t),
            PgForeignKey "bootstrap_tokens_customer_id_fkey");
         (fk_ok (users d) (nbt_CreatedBy t), PgForeignKey "bootstrap_tokens_created_by_fkey")]
        (d <| bootstrap_tokens ::= <[nbt_ID t := row]> |>, row)));
    Write entries;;
    mret tok).

Definition RevokeBootstrapToken (customerID tokenID : uuid) (entries : list Entry)
    : Op unit :=
  inTx (
    onErr (λ err, if Is err NoRows then ErrNotFound else err)
      (queryRow (λ d, t ← bootstrap_tokens d !! tokenID;
         if bool_decide (bt_CustomerID t = customerID) then Some true else None));;
    wrapErr "revoke bootstrap token" (exec (λ now d,
      let '(t, n) := update_where
        (λ b, bool_decide (bt_ID b = tokenID) && bool_decide (bt_CustomerID b = customerID)
              && is_none (bt_RevokedAt b))
        (λ b, b <| bt_RevokedAt := Some now |>) (bootstrap_tokens d) in
      (d <| bootstrap_tokens := t |>, n)));;
    Write entries).

Definition ActiveBootstrapTokensByPrefix (prefix : string) : Op (list EnrollToken) :=
  query (λ d, omap (λ t,
    if bool_decide (bt_TokenPrefix t = prefix) && is_none (bt_RevokedAt t) then
      c ← customers d !! bt_CustomerID t;
      Some {| et_TokenID := bt_ID t; et_CustomerID := bt_CustomerID t;
              et_TokenHash := bt_TokenHash t; et_MaxUses := bt_MaxUses t;
              et_UsedCount := bt_UsedCount t; et_ExpiresAt := bt_ExpiresAt t;
              et_CustomerStatus := c_Status c |}
    else None) (rows (bootstrap_tokens d))).

(** ** Agents *)

(** [agentCols] from [agentFrom]: the agent joined with its customer's name. *)
Definition scanAgent (d : db) (r : AgentRow) : Agent := {|
  a_ID := gr_ID r; a_InstanceUID := gr_InstanceUID r; a_CustomerID := gr_CustomerID r;
  a_CustomerName := c ← (cid ← gr_CustomerID r; customers d !! cid); Some (c_Name c);
  a_Class := gr_Class r; a_Name := gr_Name r; a_DisplayName := gr_DisplayName r;
  a_Labels := gr_Labels r; a_AgentVersion := gr_AgentVersion r;
  a_Description := gr_Description r; a_Capabilities := gr_Capabilities r;
  a_AssignedConfigHash := gr_AssignedConfigHash r;
  a_ReportedConfigHash := gr_ReportedConfigHash r;
  a_AckedConfigHash := gr_AckedConfigHash r;
  a_ReportedConfigYAML := gr_ReportedConfigYAML r;
  a_RemoteConfigStatus := gr_RemoteConfigStatus r;
  a_RemoteConfigError := gr_RemoteConfigError r; a_Health := gr_Health r;
  a_Healthy := gr_Healthy r; a_Connected := gr_Connected r;
  a_LastSeenAt := gr_LastSeenAt r; a_EnrolledVia := gr_EnrolledVia r;
  a_CreatedAt := gr_CreatedAt r |}.

Definition insertAgentEvent (agentID : uuid) (eventType : string)
    (detail : option json) : Op unit :=
  wrapErr "insert agent event" (insert_event agentID eventType detail).

Definition new_agent_row (a : NewAgent) (now : time) : AgentRow := {|
  gr_ID := na_ID a; gr_InstanceUID := na_InstanceUID a;
  gr_CustomerID := Some (na_CustomerID a); gr_Class := na_Class a; gr_Name := na_Name a;
  gr_DisplayName := None; gr_Labels := JObj []; gr_AgentVersion := na_AgentVersion a;
  gr_Description := na_Description a; gr_Capabilities := Some (na_Capabilities a);
  gr_AssignedConfigHash := None; gr_ReportedConfigHash := None; gr_AckedConfigHash := None;
  gr_ReportedConfigYAML := None; gr_RemoteConfigStatus := RemoteConfigUnset;
  gr_RemoteConfigError := None; gr_Health := None; gr_Healthy := None;
  gr_Connected := false; gr_LastSeenAt := Some now;
  gr_EnrolledVia := Some (na_EnrolledVia a); gr_CreatedAt := now;
  gr_TokenPrefix := None; gr_TokenHash := None; gr_TokenIssuedAt := None |}.

Definition EnrollAgent (a : NewAgent) : Op Agent :=
  inTx (
    onErr (λ err,
        if isUniqueViolation err "agents_instance_uid_key" then ErrConflict
        else Wrap "insert agent" err)
      (stmt (λ now d,
        constrained
          [(bool_decide (na_Class a ∈ [AgentClassGateway; AgentClassEdge]),
              PgCheck "agents_class_check");
           (is_none (agents d !! na_ID a), PgUnique "agents_pkey");
           (negb (exists_row (λ r, bool_decide (gr_InstanceUID r = na_InstanceUID a)) (agents d)),
              PgUnique "agents_instance_uid_key");
           (is_some (customers d !! na_CustomerID a), PgForeignKey "agents_customer_id_fkey");
           (is_some (bootstrap_tokens d !! na_EnrolledVia a),
              PgForeignKey "agents_enrolled_via_fkey")]
          (d <| agents ::= <[na_ID a := new_agent_row a now]> |>, tt)));;
    wrapErr "increment token used_count" (exec (λ _ d,
      match bootstrap_tokens d !! na_EnrolledVia a with
      | Some t =>
        (d <| bootstrap_tokens ::=
              <[na_EnrolledVia a := t <| bt_UsedCount ::= Z.add 1 |>]> |>, 1)
      | None => (d, 0)
      end));;
    insertAgentEvent (na_ID a) AgentEventEnrolled
      (Some (JObj [("token", JStr (uuid_String (na_EnrolledVia a)))]));;
    wrapErr "read back agent"
      (queryRow (λ d, scanAgent d <$> agents d !! na_ID a))).

Definition GetAgent (id : uuid) : Op Agent :=
  onErr (λ err, if Is err NoRows then ErrNotFound else err)
    (queryRow (λ d, scanAgent d <$> agents d !! id)).

Definition GetAgentByInstanceUID (instanceUID : string) : Op Agent :=
  onErr (λ err, if Is err NoRows then ErrNotFound else err)
    (queryRow (λ d, scanAgent d <$>
       find_row (λ r, bool_decide (gr_InstanceUID r = instanceUID)) (agents d))).

(** [JOIN customers]: an agent without a customer has no row. *)
Definition AgentsByTokenPrefix (prefix : string) : Op (list AgentAuth) :=
  query (λ d, omap (λ r,
    if bool_decide (gr_TokenPrefix r = Some prefix) then
      cid ← gr_CustomerID r;
      c ← customers d !! cid;
      if not_deleted c then
        Some {| aa_AgentID := gr_ID r; aa_CustomerID := cid;
                aa_InstanceUID := gr_InstanceUID r; aa_TokenHash := gr_TokenHash r;
                aa_CustomerStatus := c_Status c |}
      else None
    else None) (rows (agents d))).

(** [UPDATE agents SET ... WHERE id = $1]. *)
Definition update_agent (id : uuid) (f : AgentRow → AgentRow) : Op nat :=
  exec (λ _ d,
    match agents d !! id with
    | Some r => (d <| agents ::= <[id := f r]> |>, 1)
    | None => (d, 0)
    end).

(** [if tag.RowsAffected() == 0 { return ErrNotFound }]. *)
Definition must_affect (n : nat) : Op unit :=
  if bool_decide (n = 0) then mthrow ErrNotFound else mret tt.

Definition SetAgentToken (id : uuid) (prefix : string) (hash : string) (at_ : time)
    : Op unit :=
  update_agent id (λ r, r <| gr_TokenPrefix := Some prefix |> <| gr_TokenHash := Some hash |>
                          <| gr_TokenIssuedAt := Some at_ |>);;
  mret tt.

Definition ListAgents (f : AgentFilter) : Op (list Agent) :=
  query (λ d, scanAgent d <$>
    order_by (by_created gr_CreatedAt gr_ID)
      (where_ (λ r, matches (agf_Class f) (gr_Class r)
                    && match agf_CustomerID f with
                       | Some c => bool_decide (gr_CustomerID r = Some c)
                       | None => true
                       end
                    && matches (agf_Connected f) (gr_Connected r)) (rows (agents d)))).

(** [DELETE FROM agents]: the events cascade. *)
Definition DeleteAgent (id : uuid) (entries : list Entry) : Op unit :=
  inTx (
    n ← wrapErr "delete agent" (exec (λ _ d,
      match agents d !! id with
      | Some _ => (d <| agents ::= delete id |>
                     <| agent_events ::= filter (λ e, ev_AgentID e ≠ id) |>, 1)
      | None => (d, 0)
      end));
    if bool_decide (n = 0) then mthrow ErrNotFound else Write entries).

Definition UpdateAgentDescription (id : uuid) (name agentVersion : option string)
    (description : option json) (capabilities : option Z) : Op unit :=
  n ← wrapErr "update agent description" (update_agent id (λ r,
    r <| gr_Name := name |> <| gr_AgentVersion := agentVersion |>
      <| gr_Description := description |>
      <| gr_Capabilities ::= λ old, match capabilities with Some c => Some c | None => old end |>));
  must_affect n.

Definition UpdateAgentMeta (id : uuid) (displayName : option string)
    (labels : option json) (entries : list Entry) : Op Agent :=
  inTx (
    n ← wrapErr "update agent meta" (update_agent id (λ r,
      r <| gr_DisplayName := displayName |> <| gr_Labels ::= λ old, default old labels |>));
    if bool_decide (n = 0) then mthrow ErrNotFound
    else
      Write entries;;
      wrapErr "read back agent" (queryRow (λ d, scanAgent d <$> agents d !! id))).

Definition SetAgentConnected (id : uuid) (connected : bool) (at_ : time) : Op unit :=
  inTx (
    n ← wrapErr "set agent connected" (update_agent id (λ r,
      r <| gr_Connected := connected |> <| gr_LastSeenAt ::= λ t, greatest t at_ |>));
    if bool_decide (n = 0) then mthrow ErrNotFound
    else insertAgentEvent id
           (if connected then AgentEventConnected else AgentEventDisconnected) None).

Definition SetAgentAssignedConfig (id : uuid) (hash : option string) : Op unit :=
  n ← wrapErr "set assigned config hash"
        (update_agent id (λ r, r <| gr_AssignedConfigHash := hash |>));
  must_affect n.

Definition SetAgentAckedConfig (id : uuid) (hash : option string) : Op unit :=
  n ← wrapErr "set acked config hash"
        (update_agent id (λ r, r <| gr_AckedConfigHash := hash |>));
  must_affect n.

Definition SetAgentEffectiveConfig (id : uuid) (yaml hash : string) : Op unit :=
  n ← wrapErr "set effective config"
        (update_agent id (λ r, r <| gr_ReportedConfigYAML := Some yaml |>
                                 <| gr_ReportedConfigHash := Some hash |>));
  must_affect n.

Definition remote_statuses : list string :=
  [RemoteConfigUnset; RemoteConfigApplying; RemoteConfigApplied; RemoteConfigFailed].

Definition SetAgentRemoteConfigStatus (id : uuid) (status : string)
    (errorMessage eventType : option string) (detail : option json) : Op unit :=
  inTx (
    n ← wrapErr "set remote config status" (stmt (λ _ d,
      match agents d !! id with
      | Some r =>
        constrained
          [(bool_decide (status ∈ remote_statuses), PgCheck "agents_remote_config_status_check")]
          (d <| agents ::= <[id := r <| gr_RemoteConfigStatus := status |>
                                     <| gr_RemoteConfigError := errorMessage |>]> |>, 1)
      | None => inl (d, 0)
      end));
    if bool_decide (n = 0) then mthrow ErrNotFound
    else match eventType with
         | None => mret tt
         | Some ev => insertAgentEvent id ev detail
         end).

Definition SetAgentHealth (id : uuid) (health : option json) (healthy : bool)
    (flipEvent : option string) : Op unit :=
  inTx (
    n ← wrapErr "set agent health" (update_agent id (λ r,
      r <| gr_Health := health |> <| gr_Healthy := Some healthy |>));
    if bool_decide (n = 0) then mthrow ErrNotFound
    else match flipEvent with
         | None => mret tt
         | Some ev => insertAgentEvent id ev None
         end).

Definition TouchAgents (seen : gmap uuid time) : Op unit :=
  if bool_decide (seen = ∅) then mret tt
  else
    exec (λ _ d,
      (d <| agents ::= map_imap (λ id r, Some
              match seen !! id with
              | Some ts => r <| gr_LastSeenAt := greatest (gr_LastSeenAt r) ts |>
              | None => r
              end) |>, 0));;
    mret tt.

Definition ListAgentEvents (agentID : uuid) (limit : nat) : Op (list AgentEvent) :=
  GetAgent agentID;;
  query (λ d, take limit (order_by (λ x y, Z.leb (ev_ID y) (ev_ID x))
    (where_ (λ e, bool_decide (ev_AgentID e = agentID)) (agent_events d)))).

End PgFleet.
