(* ===== verification/PgPipelines.v ===== *)
(** * Pipelines and their versions (internal/store/pg_pipelines.go) *)
From S2P Require Import Prelude GoStrings Store World PgCore.

Section PgPipelines.
Context {ENV : Env}.

Definition versions_of (d : db) (pipelineID : uuid) : list VersionRow :=
  where_ (λ v, bool_decide (vr_PipelineID v = pipelineID)) (rows (pipeline_versions d)).

(** [SELECT max(version)]; NULL without rows. *)
Definition max_version (l : list VersionRow) : option Z :=
  match l with
  | [] => None
  | v :: l' => Some (foldr Z.max (vr_Version v) (vr_Version <$> l'))
  end.

(** [pipelineCols] from [pipelineFrom]. *)
Definition scanPipeline (d : db) (p : PipelineRow) : option Pipeline :=
  c ← customers d !! pr_CustomerID p;
  Some {|
    p_ID := pr_ID p; p_CustomerID := pr_CustomerID p; p_CustomerName := c_Name c;
    p_CustomerSlug := c_Slug c; p_ClientID := c_ClientID c; p_Name := pr_Name p;
    p_TargetClass := pr_TargetClass p; p_ActiveVersionID := pr_ActiveVersionID p;
    p_ActiveVersion := av ← (vid ← pr_ActiveVersionID p; pipeline_versions d !! vid);
                       Some (vr_Version av);
    p_LatestVersion := max_version (versions_of d (pr_ID p));
    p_CreatedAt := pr_CreatedAt p |}.

(** [pipelineVersionCols] from [pipelineVersionFrom]. *)
Definition scanPipelineVersion (d : db) (v : VersionRow) : option PipelineVersion :=
  p ← pipelines d !! vr_PipelineID v;
  Some {|
    pv_ID := vr_ID v; pv_PipelineID := vr_PipelineID v; pv_Version := vr_Version v;
    pv_Graph := vr_Graph v; pv_RenderedYAML := vr_RenderedYAML v;
    pv_ConfigHash := vr_ConfigHash v; pv_ValidationStatus := vr_ValidationStatus v;
    pv_ValidationOutput := vr_ValidationOutput v; pv_CreatedBy := vr_CreatedBy v;
    pv_CreatedByEmail := u ← (uid ← vr_CreatedBy v; users d !! uid); Some (u_Email u);
    pv_CreatedAt := vr_CreatedAt v;
    pv_Active := bool_decide (pr_ActiveVersionID p = Some (vr_ID v)) |}.

Definition select_pipeline (id : uuid) : Op Pipeline :=
  queryRow (λ d, p ← pipelines d !! id; scanPipeline d p).

Definition select_version_id (id : uuid) : Op PipelineVersion :=
  queryRow (λ d, v ← pipeline_versions d !! id; scanPipelineVersion d v).

Definition select_version (pipelineID : uuid) (version : Z) : Op PipelineVersion :=
  queryRow (λ d,
    v ← find_row (λ v, bool_decide (vr_PipelineID v = pipelineID)
                       && bool_decide (vr_Version v = version)) (pipeline_versions d);
    scanPipelineVersion d v).

Definition insertPipelineVersion (v : NewPipelineVersion) (version : Z) : Op unit :=
  wrapErr "insert pipeline version" (stmt (λ now d,
    let row := {|
      vr_ID := nv_ID v; vr_PipelineID := nv_PipelineID v; vr_Version := version;
      vr_Graph := nv_Graph v; vr_RenderedYAML := nv_RenderedYAML v;
      vr_ConfigHash := nv_ConfigHash v; vr_ValidationStatus := nv_ValidationStatus v;
      vr_ValidationOutput := nv_ValidationOutput v; vr_CreatedBy := nv_CreatedBy v;
      vr_CreatedAt := now |} in
    constrained
      [(bool_decide (nv_ValidationStatus v ∈ [ValidationValid; ValidationInvalid]),
          PgCheck "pipeline_versions_validation_status_check");
       (is_none (pipeline_versions d !! nv_ID v), PgUnique "pipeline_versions_pkey");
       (negb (existsb (λ x, bool_decide (vr_Version x = version))
                (versions_of d (nv_PipelineID v))),
          PgUnique "pipeline_versions_pipeline_id_version_key");
       (is_some (pipelines d !! nv_PipelineID v),
          PgForeignKey "pipeline_versions_pipeline_id_fkey");
       (fk_ok (users d) (nv_CreatedBy v), PgForeignKey "pipeline_versions_created_by_fkey")]
      (d <| pipeline_versions ::= <[nv_ID v := row]> |>, tt))).

Definition CreatePipeline (p : NewPipeline) (v : NewPipelineVersion)
    (entries : list Entry) : Op (Pipeline * PipelineVersion) :=
  inTx (
    onErr (λ err, if Is err NoRows then ErrNotFound else err)
      (queryRow (λ d, c ← customers d !! np_CustomerID p;
                      if not_deleted c then Some true else None));;
    let targetClass := if bool_decide (np_TargetClass p = "") then ClassForwarding
                       else np_TargetClass p in
    onErr (λ err,
        if isUniqueViolation err "pipelines_customer_id_name_key" then ErrNameExists
        else Wrap "insert pipeline" err)
      (stmt (λ now d,
        let row := {|
          pr_ID := np_ID p; pr_CustomerID := np_CustomerID p; pr_Name := np_Name p;
          pr_TargetClass := targetClass; pr_ActiveVersionID := None;
          pr_CreatedAt := now |} in
        constrained
          [(bool_decide (targetClass ∈ [ClassForwarding; ClassEdge]),
              PgCheck "pipelines_target_class_check");
           (is_none (pipelines d !! np_ID p), PgUnique "pipelines_pkey");
           (negb (exists_row (λ x, bool_decide (pr_CustomerID x = np_CustomerID p)
                                   && bool_decide (pr_Name x = np_Name p)) (pipelines d)),
              PgUnique "pipelines_customer_id_name_key");
           (is_some (customers d !! np_CustomerID p), PgForeignKey "pipelines_customer_id_fkey")]
          (d <| pipelines ::= <[np_ID p := row]> |>, tt)));;
    insertPipelineVersion v 1;;
    Write entries;;
    pipe ← wrapErr "read back pipeline" (select_pipeline (np_ID p));
    ver ← wrapErr "read back version" (select_version_id (nv_ID v));
    mret (pipe, ver)).

Definition GetPipeline (id : uuid) : Op Pipeline :=
  onErr (λ err, if Is err NoRows then ErrNotFound else err) (select_pipeline id).

(** [ORDER BY c.slug, p.name, p.id] in the database's collation. *)
Definition by_slug_name {A} (slug name : A → string) (id : A → uuid) (x y : A) : bool :=
  let ltb a b := text_leb a b && negb (text_leb b a) in
  lex_leb ltb (lex_leb ltb N.leb) (slug x, (name x, id x)) (slug y, (name y, id y)).

Definition ListPipelines (customerID : option uuid) : Op (list Pipeline) :=
  query (λ d, order_by (by_slug_name p_CustomerSlug p_Name p_ID)
    (omap (λ p,
       c ← customers d !! pr_CustomerID p;
       if not_deleted c && matches customerID (pr_CustomerID p)
       then scanPipeline d p else None) (rows (pipelines d)))).

(** [DELETE FROM pipelines]: the versions cascade. *)
Definition DeletePipeline (id : uuid) (entries : list Entry) : Op unit :=
  inTx (
    n ← wrapErr "delete pipeline" (exec (λ _ d,
      match pipelines d !! id with
      | Some _ => (d <| pipelines ::= delete id |>
                     <| pipeline_versions ::= filter (λ '(_, v), vr_PipelineID v ≠ id) |>, 1)
      | None => (d, 0)
      end));
    if bool_decide (n = 0) then mthrow ErrNotFound else Write entries).

Definition ListPipelineVersions (pipelineID : uuid) : Op (list PipelineVersion) :=
  query (λ d, order_by (λ x y, Z.leb (pv_Version y) (pv_Version x))
    (omap (scanPipelineVersion d) (versions_of d pipelineID))).

Definition GetPipelineVersion (pipelineID : uuid) (version : Z) : Op PipelineVersion :=
  onErr (λ err, if Is err NoRows then ErrNotFound else err)
    (select_version pipelineID version).

Definition CreatePipelineVersion (v : NewPipelineVersion) (entries : list Entry)
    : Op PipelineVersion :=
  inTx (
    onErr (λ err, if Is err NoRows then ErrNotFound else err)
      (queryRow (λ d, _ ← pipelines d !! nv_PipelineID v; Some true));;
    next ← queryRow (λ d,
      Some (default 0 (max_version (versions_of d (nv_PipelineID v))) + 1)%Z);
    insertPipelineVersion v next;;
    Write entries;;
    select_version_id (nv_ID v)).

Definition ActivatePipelineVersion (pipelineID : uuid) (version : Z)
    (entries : list Entry) : Op (Pipeline * PipelineVersion) :=
  inTx (
    ver ← onErr (λ err, if Is err NoRows then ErrNotFound else err)
            (select_version pipelineID version);
    if negb (bool_decide (pv_ValidationStatus ver = ValidationValid))
    then mthrow (Wrap ("version " +:+ Itoa version +:+ " is invalid") ErrConflict)
    else
      wrapErr "activate version" (exec (λ _ d,
        match pipelines d !! pipelineID with
        | Some p =>
          (d <| pipelines ::= <[pipelineID := p <| pr_ActiveVersionID := Some (pv_ID ver) |>]> |>, 1)
        | None => (d, 0)
        end));;
      Write entries;;
      pipe ← select_pipeline pipelineID;
      mret (pipe, {|
        pv_ID := pv_ID ver; pv_PipelineID := pv_PipelineID ver; pv_Version := pv_Version ver;
        pv_Graph := pv_Graph ver; pv_RenderedYAML := pv_RenderedYAML ver;
        pv_ConfigHash := pv_ConfigHash ver; pv_ValidationStatus := pv_ValidationStatus ver;
        pv_ValidationOutput := pv_ValidationOutput ver; pv_CreatedBy := pv_CreatedBy ver;
        pv_CreatedByEmail := pv_CreatedByEmail ver; pv_CreatedAt := pv_CreatedAt ver;
        pv_Active := true |})).

(** [SELECT … FROM pipelines p JOIN customers c … JOIN pipeline_versions v …]:
    the row a pipeline contributes. *)
Definition active_row (d : db) (targetClass : string) (customerID : option uuid)
    (p : PipelineRow) : option ActivePipeline :=
  if bool_decide (pr_TargetClass p = targetClass) && matches customerID (pr_CustomerID p)
  then
    c ← customers d !! pr_CustomerID p;
    if bool_decide (c_Status c = CustomerActive) then
      v ← (vid ← pr_ActiveVersionID p; pipeline_versions d !! vid);
      Some {| act_PipelineID := pr_ID p; act_PipelineName := pr_Name p;
              act_CustomerID := pr_CustomerID p; act_CustomerSlug := c_Slug c;
              act_ClientID := c_ClientID c; act_Graph := vr_Graph v |}
    else None
  else None.

Definition ListActivePipelines (targetClass : string) (customerID : option uuid)
    : Op (list ActivePipeline) :=
  query (λ d, order_by (by_slug_name act_CustomerSlug act_PipelineName act_PipelineID)
    (omap (active_row d targetClass customerID) (rows (pipelines d)))).

End PgPipelines.
