(* ===== verification/PgMisc.v ===== *)
(** * Management tokens, audit log, billing, webhooks and SSO providers
    (internal/store/pg_apitokens.go, pg_audit.go, pg_billing.go,
    pg_webhooks.go, pg_authproviders.go) *)
From S2P Require Import Prelude GoStrings Store World PgCore.

Section PgMisc.
Context {ENV : Env}.

(** ** Management-API tokens *)

(** [apiTokenSelect]: the token without its hash, joined with the creator. *)
Definition scanAPIToken (d : db) (t : TokenRow) : APIToken := {|
  t_ID := tr_ID t; t_Name := tr_Name t; t_TokenPrefix := tr_TokenPrefix t;
  t_Role := tr_Role t; t_CreatedBy := tr_CreatedBy t;
  t_CreatedByEmail := u ← (uid ← tr_CreatedBy t; users d !! uid); Some (u_Email u);
  t_CreatedAt := tr_CreatedAt t; t_ExpiresAt := tr_ExpiresAt t;
  t_RevokedAt := tr_RevokedAt t; t_LastUsedAt := tr_LastUsedAt t |}.

Definition CreateAPIToken (t : NewAPIToken) (entries : list Entry) : Op APIToken :=
  inTx (
    wrapErr "insert api token" (stmt (λ now d,
      let row := {|
        tr_ID := nt_ID t; tr_Name := nt_Name t; tr_TokenPrefix := nt_TokenPrefix t;
        tr_TokenHash := nt_TokenHash t; tr_Role := nt_Role t;
        tr_CreatedBy := nt_CreatedBy t; tr_CreatedAt := now;
        tr_ExpiresAt := nt_ExpiresAt t; tr_RevokedAt := None; tr_LastUsedAt := None |} in
      constrained
        [(bool_decide (nt_Role t ∈ user_roles), PgCheck "api_tokens_role_check");
         (is_none (api_tokens d !! nt_ID t), PgUnique "api_tokens_pkey");
         (fk_ok (users d) (nt_CreatedBy t), PgForeignKey "api_tokens_created_by_fkey")]
        (d <| api_tokens ::= <[nt_ID t := row]> |>, tt)));;
    Write entries;;
    queryRow (λ d, scanAPIToken d <$> api_tokens d !! nt_ID t)).

Definition ListAPITokens : Op (list APIToken) :=
  query (λ d, order_by (λ x y, Z.leb (t_CreatedAt y) (t_CreatedAt x))
    (scanAPIToken d <$> rows (api_tokens d))).

Definition RevokeAPIToken (id : uuid) (entries : list Entry) : Op unit :=
  inTx (
    n ← wrapErr "revoke api token" (exec (λ now d,
      match api_tokens d !! id with
      | Some t =>
        if is_none (tr_RevokedAt t)
        then (d <| api_tokens ::= <[id := t <| tr_RevokedAt := Some now |>]> |>, 1)
        else (d, 0)
      | None => (d, 0)
      end));
    (if bool_decide (n = 0) then
       r ← mtry (queryRow (λ d, _ ← api_tokens d !! id; Some true));
       match r with
       | inr err => if Is err NoRows then mthrow ErrNotFound else mret tt
       | inl _ => mret tt
       end
     else mret tt);;
    Write entries).

Definition ActiveAPITokensByPrefix (prefix : string) : Op (list APITokenAuth) :=
  query (λ d, omap (λ t,
    if bool_decide (tr_TokenPrefix t = prefix) && is_none (tr_RevokedAt t)
    then Some {| ta_ID := tr_ID t; ta_Role := tr_Role t; ta_CreatedBy := tr_CreatedBy t;
                 ta_TokenHash := tr_TokenHash t; ta_ExpiresAt := tr_ExpiresAt t |}
    else None) (rows (api_tokens d))).

(** ** Audit log *)

(** One row of the result: the entry joined with actor and customer. *)
Definition scan_audit (d : db) (r : AuditRec) : AuditRow :=
  let e := l_Entry r in {|
  ar_ID := l_ID r; ar_ActorUserID := e_ActorUserID e;
  ar_ActorEmail := u ← (uid ← e_ActorUserID e; users d !! uid); Some (u_Email u);
  ar_ActorType := e_ActorType e; ar_Action := e_Action e;
  ar_EntityType := e_EntityType e; ar_EntityID := e_EntityID e;
  ar_CustomerID := e_CustomerID e;
  ar_CustomerName := c ← (cid ← e_CustomerID e; customers d !! cid); Some (c_Name c);
  ar_Payload := e_Payload e; ar_CreatedAt := l_CreatedAt r |}.

(** SQL equality with a nullable column: NULL never matches. *)
Definition matches_null {A} `{EqDecision A} (f : option A) (x : option A) : bool :=
  match f with Some y => bool_decide (x = Some y) | None => true end.

(** The [WHERE] clause [ListAuditLog] builds, without the cursor. *)
Definition audit_where (f : AuditFilter) (r : AuditRec) : bool :=
  let e := l_Entry r in
  matches (af_Action f) (e_Action e)
  && matches (af_EntityType f) (e_EntityType e)
  && matches_null (af_CustomerID f) (e_CustomerID e)
  && matches_null (af_ActorUserID f) (e_ActorUserID e)
  && match af_From f with Some t => (t <=? l_CreatedAt r)%Z | None => true end
  && match af_To f with Some t => (l_CreatedAt r <=? t)%Z | None => true end.

Definition before_cursor (f : AuditFilter) (r : AuditRec) : bool :=
  match af_BeforeID f with Some i => (l_ID r <? i)%Z | None => true end.

Definition audit_page (f : AuditFilter) (log : list AuditRec) : list AuditRec :=
  take (Z.to_nat (af_Limit f))
    (order_by (λ x y, Z.leb (l_ID y) (l_ID x))
      (where_ (λ r, audit_where f r && before_cursor f r) log)).

Definition ListAuditLog (f : AuditFilter) : Op (list AuditRow) :=
  query (λ d, scan_audit d <$> audit_page f (audit_log d)).

(** ** Billing *)

Definition GetBillingSettings : Op BillingSettings :=
  onErr (λ err, if Is err NoRows then ErrNotFound else err) (queryRow billing_settings).

Definition UpdateBillingSettings (upd : BillingSettingsUpdate) (actor : option uuid)
    (entries : list Entry) : Op BillingSettings :=
  inTx (
    out ← wrapErr "update billing settings" (stmt (λ now d,
      match billing_settings d with
      | Some b =>
        let b' := b
          <| b_PricePerGiBMicro ::= λ x, default x (bu_PricePerGiBMicro upd) |>
          <| b_PricePerMillionItemsMicro ::= λ x, default x (bu_PricePerMillionItemsMicro upd) |>
          <| b_Currency ::= λ x, default x (bu_Currency upd) |>
          <| b_UpdatedAt := now |> <| b_UpdatedBy := actor |> in
        constrained
          [(fk_ok (users d) actor, PgForeignKey "billing_settings_updated_by_fkey")]
          (d <| billing_settings := Some b' |>, b')
      | None => inr NoRows
      end));
    Write entries;;
    mret out).

(** ** Webhooks *)

Definition webhook_types : list string := [WebhookTypeGeneric; WebhookTypeSlack].

Definition ListWebhooks : Op (list Webhook) :=
  query (λ d, order_by (by_created w_CreatedAt w_ID) (rows (webhooks d))).

Definition GetWebhook (id : uuid) : Op Webhook :=
  onErr (λ err, if Is err NoRows then ErrNotFound else err)
    (queryRow (λ d, webhooks d !! id)).

Definition CreateWebhook (w : NewWebhook) (entries : list Entry) : Op Webhook :=
  inTx (
    out ← wrapErr "insert webhook" (stmt (λ now d,
      let row := {|
        w_ID := nw_ID w; w_Type := nw_Type w; w_Name := nw_Name w; w_URL := nw_URL w;
        w_Events := nw_Events w; w_SecretEnc := nw_SecretEnc w; w_Enabled := nw_Enabled w;
        w_CreatedBy := nw_CreatedBy w; w_CreatedAt := now; w_UpdatedAt := now |} in
      constrained
        [(bool_decide (nw_Type w ∈ webhook_types), PgCheck "webhooks_type_check");
         (is_none (webhooks d !! nw_ID w), PgUnique "webhooks_pkey");
         (fk_ok (users d) (nw_CreatedBy w), PgForeignKey "webhooks_created_by_fkey")]
        (d <| webhooks ::= <[nw_ID w := row]> |>, row)));
    Write entries;;
    mret out).

Definition UpdateWebhook (id : uuid) (upd : WebhookUpdate) (entries : list Entry)
    : Op Webhook :=
  inTx (
    out ← onErr (λ err, if Is err NoRows then ErrNotFound else Wrap "update webhook" err)
      (stmt (λ now d,
        match webhooks d !! id with
        | Some w =>
          let w' := w
            <| w_Type ::= λ x, default x (wu_Type upd) |>
            <| w_Name ::= λ x, default x (wu_Name upd) |>
            <| w_URL ::= λ x, default x (wu_URL upd) |>
            <| w_Events ::= λ x, default x (wu_Events upd) |>
            <| w_SecretEnc ::= λ x, if wu_SecretSet upd then wu_SecretEnc upd else x |>
            <| w_Enabled ::= λ x, default x (wu_Enabled upd) |>
            <| w_UpdatedAt := now |> in
          constrained [(bool_decide (w_Type w' ∈ webhook_types), PgCheck "webhooks_type_check")]
            (d <| webhooks ::= <[id := w']> |>, w')
        | None => inr NoRows
        end));
    Write entries;;
    mret out).

Definition DeleteWebhook (id : uuid) (entries : list Entry) : Op unit :=
  inTx (
    n ← wrapErr "delete webhook" (exec (λ _ d,
      match webhooks d !! id with
      | Some _ => (d <| webhooks ::= delete id |>, 1)
      | None => (d, 0)
      end));
    if bool_decide (n = 0) then mthrow ErrNotFound else Write entries).

Definition WriteAuditEntries (entries : list Entry) : Op unit :=
  if bool_decide (entries = []) then mret tt else inTx (Write entries).

(** ** SSO providers *)

Definition provider_types : list string :=
  ["google"; "microsoft"; "github"; "oidc"; "saml"].

Definition ListAuthProviders (enabledOnly : bool) : Op (list AuthProvider) :=
  query (λ d, order_by (by_created ap_CreatedAt ap_ID)
    (where_ (λ p, negb enabledOnly || ap_Enabled p) (rows (auth_providers d)))).

Definition GetAuthProvider (id : uuid) : Op AuthProvider :=
  onErr (λ err, if Is err NoRows then ErrNotFound else err)
    (queryRow (λ d, auth_providers d !! id)).

Definition GetAuthProviderByName (name : string) : Op AuthProvider :=
  onErr (λ err, if Is err NoRows then ErrNotFound else err)
    (queryRow (λ d, find_row (λ p, bool_decide (ap_Name p = name)) (auth_providers d))).

Definition CreateAuthProvider (p : NewAuthProvider) (entries : list Entry)
    : Op AuthProvider :=
  inTx (
    out ← onErr (λ err,
        if isUniqueViolation err "auth_providers_name_key" then ErrNameExists
        else Wrap "insert auth provider" err)
      (stmt (λ now d,
        let row := {|
          ap_ID := nap_ID p; ap_Type := nap_Type p; ap_Name := nap_Name p;
          ap_DisplayName := nap_DisplayName p; ap_ClientID := nap_ClientID p;
          ap_ClientSecretEnc := nap_ClientSecretEnc p; ap_Issuer := nap_Issuer p;
          ap_SAMLConfig := nap_SAMLConfig p; ap_Enabled := nap_Enabled p;
          ap_CreatedAt := now; ap_UpdatedAt := now |} in
        constrained
          [(bool_decide (nap_Type p ∈ provider_types), PgCheck "auth_providers_type_check");
           (is_none (auth_providers d !! nap_ID p), PgUnique "auth_providers_pkey");
           (negb (exists_row (λ x, bool_decide (ap_Name x = nap_Name p)) (auth_providers d)),
              PgUnique "auth_providers_name_key")]
          (d <| auth_providers ::= <[nap_ID p := row]> |>, row)));
    Write entries;;
    mret out).

Definition UpdateAuthProvider (id : uuid) (upd : AuthProviderUpdate)
    (entries : list Entry) : Op AuthProvider :=
  inTx (
    out ← onErr (λ err, if Is err NoRows then ErrNotFound else Wrap "update auth provider" err)
      (stmt (λ now d,
        match auth_providers d !! id with
        | Some p =>
          let p' := p
            <| ap_DisplayName ::= λ x, default x (apu_DisplayName upd) |>
            <| ap_ClientID ::= λ x, default x (apu_ClientID upd) |>
            <| ap_ClientSecretEnc ::= λ x, default x (apu_ClientSecretEnc upd) |>
            <| ap_Issuer ::= λ x, match apu_Issuer upd with Some i => Some i | None => x end |>
            <| ap_SAMLConfig ::= λ x, match apu_SAMLConfig upd with Some i => Some i | None => x end |>
            <| ap_Enabled ::= λ x, default x (apu_Enabled upd) |>
            <| ap_UpdatedAt := now |> in
          inl (d <| auth_providers ::= <[id := p']> |>, p')
        | None => inr NoRows
        end));
    Write entries;;
    mret out).

Definition DeleteAuthProvider (id : uuid) (entries : list Entry) : Op unit :=
  inTx (
    n ← wrapErr "delete auth provider" (exec (λ _ d,
      match auth_providers d !! id with
      | Some _ => (d <| auth_providers ::= delete id |>, 1)
      | None => (d, 0)
      end));
    if bool_decide (n = 0) then mthrow ErrNotFound else Write entries).

End PgMisc.
