(* ===== verification/StoreCalls.v ===== *)
(** * The store as a transition system

    Every state-changing method of the [Store] interface
    (internal/store/store.go) as one [call]; a [step] of the system is one
    call in any environment, so [rtc step] is every sequential history of the
    database with every pattern of failures.  This file gives the frame of
    each shared piece (audit writes, agent events), shows that every call is
    atomic, and that the primary keys of the tables stay consistent. *)
From S2P Require Import Prelude GoStrings Store World PgCore PgUsers PgFleet PgPipelines PgMisc.

Inductive call :=
  | CallCreateCustomer (c : NewCustomer) (k : NewAPIKey) (entries : list Entry)
  | CallUpdateCustomer (id : uuid) (upd : CustomerUpdate) (entries : list Entry)
  | CallSoftDeleteCustomer (id : uuid) (entries : list Entry)
  | CallCreateAPIKey (k : NewAPIKey) (entries : list Entry)
  | CallRevokeAPIKey (customerID keyID : uuid) (entries : list Entry)
  | CallTouchAPIKeys (usages : gmap uuid time)
  | CallUpsertUserByIdentity (provider subject email : string)
      (displayName : option string) (roleIfNew : string)
  | CallCreateSCIMUser (id : uuid) (email role : string)
      (displayName externalID : option string) (entries : list Entry)
  | CallUpdateSCIMUser (id : uuid) (displayName externalID : option string)
      (entries : list Entry)
  | CallSetUserCustomerGrants (userID : uuid) (customerIDs : list uuid)
      (entries : list Entry)
  | CallCreateInvitedUser (id : uuid) (email role : string) (entries : list Entry)
  | CallUpdateUserAdmin (id : uuid) (upd : UserUpdate) (entries : list Entry)
  | CallDeleteUser (id : uuid) (entries : list Entry)
  | CallCreateBootstrapToken (t : NewBootstrapToken) (entries : list Entry)
  | CallRevokeBootstrapToken (customerID tokenID : uuid) (entries : list Entry)
  | CallEnrollAgent (a : NewAgent)
  | CallSetAgentToken (id : uuid) (prefix hash : string) (at_ : time)
  | CallDeleteAgent (id : uuid) (entries : list Entry)
  | CallUpdateAgentDescription (id : uuid) (name agentVersion : option string)
      (description : option json) (capabilities : option Z)
  | CallUpdateAgentMeta (id : uuid) (displayName : option string)
      (labels : option json) (entries : list Entry)
  | CallSetAgentConnected (id : uuid) (connected : bool) (at_ : time)
  | CallSetAgentAssignedConfig (id : uuid) (hash : option string)
  | CallSetAgentAckedConfig (id : uuid) (hash : option string)
  | CallSetAgentEffectiveConfig (id : uuid) (yaml hash : string)
  | CallSetAgentRemoteConfigStatus (id : uuid) (status : string)
      (errorMessage eventType : option string) (detail : option json)
  | CallSetAgentHealth (id : uuid) (health : option json) (healthy : bool)
      (flipEvent : option string)
  | CallTouchAgents (seen : gmap uuid time)
  | CallCreatePipeline (p : NewPipeline) (v : NewPipelineVersion) (entries : list Entry)
  | CallDeletePipeline (id : uuid) (entries : list Entry)
  | CallCreatePipelineVersion (v : NewPipelineVersion) (entries : list Entry)
  | CallActivatePipelineVersion (pipelineID : uuid) (version : Z) (entries : list Entry)
  | CallCreateAPIToken (t : NewAPIToken) (entries : list Entry)
  | CallRevokeAPIToken (id : uuid) (entries : list Entry)
  | CallUpdateBillingSettings (upd : BillingSettingsUpdate) (actor : option uuid)
      (entries : list Entry)
  | CallCreateWebhook (w : NewWebhook) (entries : list Entry)
  | CallUpdateWebhook (id : uuid) (upd : WebhookUpdate) (entries : list Entry)
  | CallDeleteWebhook (id : uuid) (entries : list Entry)
  | CallWriteAuditEntries (entries : list Entry)
  | CallCreateAuthProvider (p : NewAuthProvider) (entries : list Entry)
  | CallUpdateAuthProvider (id : uuid) (upd : AuthProviderUpdate) (entries : list Entry)
  | CallDeleteAuthProvider (id : uuid) (entries : list Entry).

Lemma checks_None l : checks l = None ↔ Forall (λ x, x.1 = true) l.
Proof.
  induction l as [|[[] e] l IH]; simpl.
  - done.
  - rewrite IH, Forall_cons. simpl. tauto.
  - rewrite Forall_cons. simpl. split; [done|by intros [? _]].
Qed.

Section Calls.
Context {ENV : Env}.

Definition void {A} (m : Op A) : Op unit := m ≫= λ _, mret tt.

Definition run_call (c : call) : Op unit :=
  match c with
  | CallCreateCustomer c k es => void (CreateCustomer c k es)
  | CallUpdateCustomer id upd es => void (UpdateCustomer id upd es)
  | CallSoftDeleteCustomer id es => SoftDeleteCustomer id es
  | CallCreateAPIKey k es => void (CreateAPIKey k es)
  | CallRevokeAPIKey cid kid es => RevokeAPIKey cid kid es
  | CallTouchAPIKeys us => TouchAPIKeys us
  | CallUpsertUserByIdentity p s e d r => void (UpsertUserByIdentity p s e d r)
  | CallCreateSCIMUser id e r d x es => void (CreateSCIMUser id e r d x es)
  | CallUpdateSCIMUser id d x es => void (UpdateSCIMUser id d x es)
  | CallSetUserCustomerGrants id cs es => SetUserCustomerGrants id cs es
  | CallCreateInvitedUser id e r es => void (CreateInvitedUser id e r es)
  | CallUpdateUserAdmin id upd es => void (UpdateUserAdmin id upd es)
  | CallDeleteUser id es => DeleteUser id es
  | CallCreateBootstrapToken t es => void (CreateBootstrapToken t es)
  | CallRevokeBootstrapToken cid tid es => RevokeBootstrapToken cid tid es
  | CallEnrollAgent a => void (EnrollAgent a)
  | CallSetAgentToken id p h t => SetAgentToken id p h t
  | CallDeleteAgent id es => DeleteAgent id es
  | CallUpdateAgentDescription id n v d c => UpdateAgentDescription id n v d c
  | CallUpdateAgentMeta id n l es => void (UpdateAgentMeta id n l es)
  | CallSetAgentConnected id b t => SetAgentConnected id b t
  | CallSetAgentAssignedConfig id h => SetAgentAssignedConfig id h
  | CallSetAgentAckedConfig id h => SetAgentAckedConfig id h
  | CallSetAgentEffectiveConfig id y h => SetAgentEffectiveConfig id y h
  | CallSetAgentRemoteConfigStatus id s e t d => SetAgentRemoteConfigStatus id s e t d
  | CallSetAgentHealth id h b e => SetAgentHealth id h b e
  | CallTouchAgents seen => TouchAgents seen
  | CallCreatePipeline p v es => void (CreatePipeline p v es)
  | CallDeletePipeline id es => DeletePipeline id es
  | CallCreatePipelineVersion v es => void (CreatePipelineVersion v es)
  | CallActivatePipelineVersion id v es => void (ActivatePipelineVersion id v es)
  | CallCreateAPIToken t es => void (CreateAPIToken t es)
  | CallRevokeAPIToken id es => RevokeAPIToken id es
  | CallUpdateBillingSettings u a es => void (UpdateBillingSettings u a es)
  | CallCreateWebhook w es => void (CreateWebhook w es)
  | CallUpdateWebhook id u es => void (UpdateWebhook id u es)
  | CallDeleteWebhook id es => DeleteWebhook id es
  | CallWriteAuditEntries es => WriteAuditEntries es
  | CallCreateAuthProvider p es => void (CreateAuthProvider p es)
  | CallUpdateAuthProvider id u es => void (UpdateAuthProvider id u es)
  | CallDeleteAuthProvider id es => DeleteAuthProvider id es
  end.

(** ** Frames *)

Lemma insert_audit_inl e w u w' :
  insert_audit e w = (inl u, w') →
  w' = w <| w_tick ::= S |> <| w_audit_seq := (w_audit_seq w + 1)%Z |>
         <| w_db := (w_db w) <| audit_log := audit_log (w_db w) ++
              [ {| l_ID := (w_audit_seq w + 1)%Z; l_Entry := e; l_CreatedAt := sql_now w |} ] |> |>.
Proof.
  unfold insert_audit. destruct (fault _ || _); [done|].
  case_bool_decide; [|done]. by intros [= _ <-].
Qed.

(** [audit.Write] fills in the default actor type. *)
Definition audited (e : Entry) : Entry :=
  if bool_decide (e_ActorType e = "")
  then {| e_ActorUserID := e_ActorUserID e; e_ActorType := ActorUser;
          e_Action := e_Action e; e_EntityType := e_EntityType e;
          e_EntityID := e_EntityID e; e_CustomerID := e_CustomerID e;
          e_Payload := e_Payload e |}
  else e.

(** What an audit write does to the tables: it appends to [audit_log]. *)
Lemma Write_inl es w u w' :
  Write es w = (inl u, w') →
  ∃ recs, w_db w' = (w_db w) <| audit_log := audit_log (w_db w) ++ recs |> ∧
          l_Entry <$> recs = audited <$> es.
Proof.
  unfold Write. revert w; induction es as [|e es IH]; intros w H; simpl in H.
  - apply ret_inl in H as [_ ->]. exists []. rewrite app_nil_r.
    by destruct w' as [[] ? ? ? ?].
  - apply bind_inl in H as ([] & w1 & H1 & H2).
    apply wrapErr_inl, insert_audit_inl in H1 as ->.
    apply IH in H2 as (recs & -> & Hr). simpl. rewrite <- (assoc_L (++)).
    eexists. split; [done|]. csimpl. by rewrite Hr.
Qed.

Lemma insert_event_inl a t p w u w' :
  insert_event a t p w = (inl u, w') →
  w' = w <| w_tick ::= S |> <| w_event_seq := (w_event_seq w + 1)%Z |>
         <| w_db := (w_db w) <| agent_events := agent_events (w_db w) ++
              [ {| ev_ID := (w_event_seq w + 1)%Z; ev_AgentID := a; ev_EventType := t;
                   ev_Detail := p; ev_CreatedAt := sql_now w |} ] |> |> ∧
  t ∈ event_types ∧ is_some (agents (w_db w) !! a) = true.
Proof.
  unfold insert_event. destruct (fault _ || _); [done|]. simpl.
  case_bool_decide; [|done]. destruct (is_some _) eqn:?; [|done]. by intros [= _ <-].
Qed.

(** ** Atomicity *)

Lemma atomic_void {A} (m : Op A) : atomic m → atomic (void m).
Proof. intros H. by apply atomic_map. Qed.

Lemma atomic_exec f : atomic (exec f).
Proof. apply atomic_stmt. Qed.

Lemma atomic_update_agent id f : atomic (update_agent id f).
Proof. apply atomic_stmt. Qed.

#[local] Hint Resolve atomic_exec atomic_update_agent : atomic.

(** An update that reports [ErrNotFound] afterwards affected no row. *)
Lemma atomic_must_affect msg id f :
  atomic (wrapErr msg (update_agent id f) ≫= must_affect).
Proof.
  intros w e w' [H|(n & w1 & H & H')]%bind_inr.
  - unfold wrapErr, mtry, mbind, M_bind in H.
    destruct (update_agent id f w) as [[?|?] ?] eqn:E; [done|].
    injection H as _ <-. by eapply atomic_update_agent.
  - run_inv. unfold update_agent in H. run_inv.
    unfold must_affect in H'. case_bool_decide; [|done]. subst n.
    injection H' as _ <-. simpl. destruct (agents (w_db w) !! id); simplify_eq. done.
Qed.

#[local] Hint Resolve atomic_must_affect : atomic.

Lemma atomic_run_call c : atomic (run_call c).
Proof.
  destruct c; simpl; try apply atomic_void;
    unfold CreateCustomer, UpdateCustomer, SoftDeleteCustomer, CreateAPIKey,
      RevokeAPIKey, TouchAPIKeys, UpsertUserByIdentity, CreateSCIMUser, UpdateSCIMUser,
      SetUserCustomerGrants, CreateInvitedUser, UpdateUserAdmin, DeleteUser,
      CreateBootstrapToken, RevokeBootstrapToken, EnrollAgent, SetAgentToken,
      DeleteAgent, UpdateAgentDescription, UpdateAgentMeta, SetAgentConnected,
      SetAgentAssignedConfig, SetAgentAckedConfig, SetAgentEffectiveConfig,
      SetAgentRemoteConfigStatus, SetAgentHealth, TouchAgents, CreatePipeline,
      DeletePipeline, CreatePipelineVersion, ActivatePipelineVersion, CreateAPIToken,
      RevokeAPIToken, UpdateBillingSettings, CreateWebhook, UpdateWebhook,
      DeleteWebhook, WriteAuditEntries, CreateAuthProvider, UpdateAuthProvider,
      DeleteAuthProvider, GetCustomer; atomic_tac.
Qed.

(** ** Inverting a whole call *)

Lemma queryRow_inr {A} (f : db → option A) w e w' :
  queryRow f w = (inr e, w') → w_db w' = w_db w ∧ (e = NoRows → f (w_db w) = None).
Proof.
  unfold queryRow, stmt, fail_stmt. destruct (fault _ || _); [by intros [= <- <-]|].
  destruct (f (w_db w)); [done|]. by intros [= <- <-].
Qed.

(** The grant loop only adds grants. *)
Lemma grants_loop_inl (uid : uuid) (cids : list uuid) w u w' :
  mfor cids (λ cid,
    onErr (λ err,
        if isForeignKeyViolation err "user_customer_grants_customer_id_fkey"
        then ErrNotFound else Wrap "insert grant" err)
      (stmt (λ _ d,
        constrained
          [(is_some (users d !! uid), PgForeignKey "user_customer_grants_user_id_fkey");
           (is_some (customers d !! cid),
              PgForeignKey "user_customer_grants_customer_id_fkey")]
          (d <| user_customer_grants ::= λ g, {[(uid, cid)]} ∪ g |>, tt)))) w = (inl u, w') →
  w_db w' = (w_db w) <| user_customer_grants ::=
    λ g, list_to_set ((λ cid, (uid, cid)) <$> cids) ∪ g |> ∧
  (∀ cid, cid ∈ cids → is_some (customers (w_db w) !! cid) = true) ∧
  w_txtime w' = w_txtime w.
Proof.
  revert w; induction cids as [|cid cids IH]; intros w H; simpl in H.
  - apply ret_inl in H as [_ ->]. split_and!; [|by intros ? ?%elem_of_nil|done].
    destruct w' as [[] ? ? ? ? ?]; simpl. unfold setf; simpl. by rewrite (left_id_L ∅ (∪)).
  - apply bind_inl in H as ([] & w1 & H1 & H2). run_inv.
    apply IH in H2 as (-> & Hc & ->). simplify_eq. simpl in *.
    destruct (is_some (users _ !! _)); [|done].
    destruct (is_some (customers _ !! cid)) eqn:?; [|done].
    split_and!; [|intros c [->|?]%elem_of_cons; auto|done].
    f_equal. set_solver.
Qed.

End Calls.

(** [call_inv H] takes a successful call apart: the tables after it appear as
    updates of the tables before. *)
Ltac call_unfold H :=
  unfold run_call, void, CreateCustomer, UpdateCustomer, SoftDeleteCustomer,
    CreateAPIKey, RevokeAPIKey, TouchAPIKeys, UpsertUserByIdentity, CreateSCIMUser,
    UpdateSCIMUser, SetUserCustomerGrants, CreateInvitedUser, UpdateUserAdmin,
    DeleteUser, CreateBootstrapToken, RevokeBootstrapToken, EnrollAgent, SetAgentToken,
    DeleteAgent, UpdateAgentDescription, UpdateAgentMeta, SetAgentConnected,
    SetAgentAssignedConfig, SetAgentAckedConfig, SetAgentEffectiveConfig,
    SetAgentRemoteConfigStatus, SetAgentHealth, TouchAgents, CreatePipeline,
    DeletePipeline, CreatePipelineVersion, ActivatePipelineVersion, CreateAPIToken,
    RevokeAPIToken, UpdateBillingSettings, CreateWebhook, UpdateWebhook,
    DeleteWebhook, WriteAuditEntries, CreateAuthProvider, UpdateAuthProvider,
    DeleteAuthProvider, GetCustomer, insertAPIKey, insert_user, update_user,
    ensureEnabledAdminRemains, deleteSessionsByUser, detach_api_keys,
    detach_pipeline_versions, detach_bootstrap_tokens, delete_user_row,
    insertAgentEvent, update_agent, must_affect, insertPipelineVersion,
    select_user, select_pipeline, select_version_id, select_version, update_where in H.

(** What a primitive does to the tables, with the rest of the world dropped. *)
Section TableEffects.
Context {ENV : Env}.

Lemma stmt_db {A} (f : time → db → (db * A) + error) w a w' :
  stmt f w = (inl a, w') → ∃ t, f t (w_db w) = inl (w_db w', a).
Proof. intros (d & Hf & _ & ->)%stmt_inl. eauto. Qed.

Lemma exec_db f w a w' :
  exec f w = (inl a, w') → ∃ t, f t (w_db w) = (w_db w', a).
Proof. intros (d & Hf & ->)%exec_inl. eauto. Qed.

Lemma query_db {A} (f : db → list A) w a w' :
  query f w = (inl a, w') → a = f (w_db w) ∧ w_db w' = w_db w.
Proof. by intros [-> ->]%query_inl. Qed.

Lemma queryRow_db {A} (f : db → option A) w a w' :
  queryRow f w = (inl a, w') → f (w_db w) = Some a ∧ w_db w' = w_db w.
Proof. by intros [? ->]%queryRow_inl. Qed.

Lemma inTx_db {A} (m : Op A) w a w' :
  inTx m w = (inl a, w') →
  ∃ w1 w2, w_db w1 = w_db w ∧ m w1 = (inl a, w2) ∧ w_db w' = w_db w2.
Proof. intros (w2 & Hm & ->)%inTx_inl. eexists _, w2. split_and!; [|exact Hm|]; done. Qed.

Lemma Write_db es w u w' :
  Write es w = (inl u, w') →
  ∃ recs, w_db w' = (w_db w) <| audit_log := audit_log (w_db w) ++ recs |> ∧
          l_Entry <$> recs = audited <$> es.
Proof. apply Write_inl. Qed.

Lemma insert_event_db a t p w u w' :
  insert_event a t p w = (inl u, w') →
  (∃ e, w_db w' = (w_db w) <| agent_events := agent_events (w_db w) ++ [e] |> ∧
        ev_AgentID e = a) ∧
  t ∈ event_types ∧ is_some (agents (w_db w) !! a) = true.
Proof. intros (-> & ? & ?)%insert_event_inl. split; [|done]. by eexists. Qed.

Lemma uuid_New_db w a w' : uuid_New w = (inl a, w') → w_db w' = w_db w.
Proof. by intros [= _ <-]. Qed.

End TableEffects.

Ltac call_step :=
  match goal with
  | H : (_ ≫= _) _ = (inl _, _) |- _ => apply bind_inl in H as (? & ? & ? & ?)
  | H : mret _ _ = (inl _, _) |- _ => apply ret_inl in H as [? ?]; subst
  | H : mthrow _ _ = (inl _, _) |- _ => discriminate H
  | H : wrapErr _ _ _ = (inl _, _) |- _ => apply wrapErr_inl in H
  | H : onErr _ _ _ = (inl _, _) |- _ => apply onErr_inl in H
  | H : inTx _ _ = (inl _, _) |- _ => apply inTx_db in H as (? & ? & ? & ? & ?)
  | H : exec _ _ = (inl _, _) |- _ => apply exec_db in H as [? ?]
  | H : query _ _ = (inl _, _) |- _ => apply query_db in H as [? ?]
  | H : queryRow _ _ = (inl _, _) |- _ => apply queryRow_db in H as [? ?]
  | H : queryRow _ _ = (inr _, _) |- _ => apply queryRow_inr in H as [? ?]
  | H : stmt _ _ = (inl _, _) |- _ => apply stmt_db in H as [? ?]
  | H : constrained _ _ = inl (_, _) |- _ => apply constrained_inl in H as [? ?]
  | H : mtry _ _ = (inl _, _) |- _ => apply mtry_inl in H
  | H : uuid_New _ = (inl _, _) |- _ => apply uuid_New_db in H
  | H : Write _ _ = (inl _, _) |- _ => apply Write_db in H as (? & ? & ?)
  | H : insert_event _ _ _ _ = (inl _, _) |- _ =>
    apply insert_event_db in H as ((? & ? & ?) & ? & ?)
  | H : mfor _ _ _ = (inl _, _) |- _ => apply grants_loop_inl in H as (? & ? & _)
  | H : (if ?b then _ else _) _ = (inl _, _) |- _ => destruct b eqn:?
  | H : (match ?x with _ => _ end) _ = (inl _, _) |- _ => destruct x eqn:?
  | H : (match ?x with _ => _ end) = inl (_, _) |- _ => destruct x eqn:?
  | H : (match ?x with _ => _ end) = (_, _) |- _ => destruct x eqn:?
  end.

(** Reduces a call's run to equations between tables: every intermediate
    database is eliminated in favour of the one before the call. *)
Ltac call_inv H :=
  call_unfold H; repeat (call_step; cbv beta zeta iota in * );
  repeat match goal with w : world |- _ => destruct w end;
  cbn [w_db w_tick] in *; simplify_eq.

(** ** Histories *)

(** One call, in any environment. *)
Definition step (w w' : world) : Prop :=
  ∃ (ENV : Env) (c : call), w' = (run_call c w).2.

(** An invariant of the tables holds along every history as soon as the
    successful calls keep it. *)
Lemma history_inv (P : db → Prop) :
  (∀ (ENV : Env) c w u w', run_call c w = (inl u, w') → P (w_db w) → P (w_db w')) →
  ∀ w w', rtc step w w' → P (w_db w) → P (w_db w').
Proof.
  intros Hc w w' Hs. induction Hs as [w|w w1 w2 (ENV & c & ->) _ IH]; [done|].
  intros HP. apply IH. eapply (atomic_keeps P); [apply atomic_run_call| |done].
  intros; by eapply Hc.
Qed.
