(* ===== verification/StoreInv.v ===== *)
(** * Invariants of the store

    Properties of the tables that hold along every history of [StoreCalls.step]. *)
From S2P Require Import Prelude GoStrings Store World PgCore PgUsers PgFleet PgPipelines PgMisc StoreCalls.

(** ** Primary keys *)

(** Every row is filed under its own identifier. *)
Definition keyed {V} (id : V → uuid) (t : gmap uuid V) : Prop :=
  map_Forall (λ k v, id v = k) t.

Section Keyed.
Context {V : Type} (id : V → uuid).

Lemma keyed_insert t k v : keyed id t → id v = k → keyed id (<[k := v]> t).
Proof. intros Ht Hv. by apply map_Forall_insert_2. Qed.

Lemma keyed_delete t k : keyed id t → keyed id (delete k t).
Proof. intros Ht. by apply map_Forall_delete. Qed.

Lemma keyed_filter (P : uuid * V → Prop) `{!∀ x, Decision (P x)} t :
  keyed id t → keyed id (filter P t).
Proof. intros Ht k v [Hl _]%map_lookup_filter_Some. by apply Ht. Qed.

Lemma keyed_fmap t (f : V → V) :
  keyed id t → (∀ v, id (f v) = id v) → keyed id (f <$> t).
Proof.
  intros Ht Hf k v. rewrite lookup_fmap, fmap_Some.
  intros (v0 & Hl & ->). rewrite Hf. by apply Ht.
Qed.

Lemma keyed_imap t (f : uuid → V → V) :
  keyed id t → (∀ k v, id (f k v) = id v) →
  keyed id (map_imap (λ k v, Some (f k v)) t).
Proof.
  intros Ht Hf k v. rewrite map_lookup_imap. intros (v0 & Hl & [= <-])%bind_Some.
  rewrite Hf. by apply Ht.
Qed.

End Keyed.

(** Goals [id (updated row) = key]. *)
Ltac keyed_side :=
  intros; simpl; repeat case_match; simpl; auto;
  match goal with
  | Ht : keyed ?id ?t, Hl : ?t !! ?k = Some ?v |- ?id ?v = ?k => exact (Ht k v Hl)
  end.

Create HintDb keyed discriminated.
#[export] Hint Resolve keyed_insert keyed_delete keyed_filter keyed_fmap keyed_imap : keyed.
#[export] Hint Extern 5 (_ = _) => keyed_side : keyed.

Record ids_ok (d : db) : Prop := {
  ids_customers : keyed c_ID (customers d);
  ids_users : keyed u_ID (users d);
  ids_api_keys : keyed k_ID (api_keys d);
  ids_pipelines : keyed pr_ID (pipelines d);
  ids_versions : keyed vr_ID (pipeline_versions d);
  ids_bootstrap_tokens : keyed bt_ID (bootstrap_tokens d);
  ids_agents : keyed gr_ID (agents d);
  ids_api_tokens : keyed tr_ID (api_tokens d);
  ids_webhooks : keyed w_ID (webhooks d);
  ids_auth_providers : keyed ap_ID (auth_providers d);
}.

Lemma find_row_Some `{Countable K} {V} (p : V → bool) (t : gmap K V) v :
  find_row p t = Some v → p v = true ∧ ∃ k, t !! k = Some v.
Proof.
  unfold find_row. intros Hh%head_Some_elem_of.
  apply list_elem_of_filter in Hh as [Hp Hin]. split; [done|].
  unfold rows in Hin. apply list_elem_of_fmap in Hin as ([k v'] & -> & Hin).
  exists k. by apply elem_of_map_to_list.
Qed.

Lemma call_ids_ok (ENV : Env) c w u w' :
  run_call c w = (inl u, w') → ids_ok (w_db w) → ids_ok (w_db w').
Proof.
  intros H Hok. destruct c; call_inv H; try done; destruct Hok; constructor; simpl;
    try solve [auto | eauto 6 with keyed];
    simpl in *; rewrite lookup_insert_eq in *; simplify_eq; eauto 6 with keyed.
Qed.

(** ** The last enabled admin *)

Definition has_admin (d : db) : Prop :=
  map_Exists (λ _ u, enabled_admin u = true) (users d).

Lemma where_nil {A} (p : A → bool) l :
  length (where_ p l) ≠ 0 ↔ ∃ x, x ∈ l ∧ p x = true.
Proof.
  unfold where_. split.
  - destruct (filter _ l) as [|x l'] eqn:E; [done|]. intros _. exists x.
    assert (Hx : x ∈ filter (λ x, p x = true) l) by (rewrite E; left).
    apply list_elem_of_filter in Hx. tauto.
  - intros (x & Hx & Hp) Hl. apply length_zero_iff_nil in Hl.
    assert (Hf : x ∈ filter (λ x, p x = true) l) by (by apply list_elem_of_filter).
    rewrite Hl in Hf. by apply elem_of_nil in Hf.
Qed.

Lemma elem_of_rows `{Countable K} {V} (t : gmap K V) v :
  v ∈ rows t ↔ ∃ k, t !! k = Some v.
Proof.
  unfold rows. rewrite list_elem_of_fmap. split.
  - intros ([k v'] & -> & Hin). exists k. by apply elem_of_map_to_list.
  - intros [k Hk]. exists (k, v). by rewrite elem_of_map_to_list.
Qed.

Lemma exists_row_true `{Countable K} {V} (p : V → bool) (t : gmap K V) k v :
  t !! k = Some v → p v = true → exists_row p t = true.
Proof.
  intros Hk Hp. apply existsb_exists. exists v. split; [|done].
  apply list_elem_of_In, elem_of_rows. eauto.
Qed.

Lemma find_row_exists `{Countable K} {V} (p : V → bool) (t : gmap K V) v :
  find_row p t = Some v → exists_row p t = true.
Proof. intros (Hp & k & Hk)%find_row_Some. by eapply exists_row_true. Qed.

(** What [ensureEnabledAdminRemains] counts. *)
Lemma count_admins d :
  length (where_ enabled_admin (rows (users d))) ≠ 0 ↔ has_admin d.
Proof.
  rewrite where_nil. unfold has_admin, map_Exists. split.
  - intros (u & [k Hk]%elem_of_rows & Hp). by exists k, u.
  - intros (k & u & Hk & Hp). exists u. rewrite elem_of_rows. eauto.
Qed.

Lemma exists_insert {V} (P : V → bool) (t : gmap uuid V) k v' :
  map_Exists (λ _ v, P v = true) t →
  (∀ v, t !! k = Some v → P v = true → P v' = true) →
  map_Exists (λ _ v, P v = true) (<[k := v']> t).
Proof.
  intros (k0 & v & Hk & Hp) Hv. destruct (decide (k0 = k)) as [->|Hne].
  - exists k, v'. rewrite lookup_insert_eq. eauto.
  - exists k0, v. by rewrite lookup_insert_ne.
Qed.

(** A login keeps an enabled admin one: the role is the stored one or admin. *)
Lemma login_enabled_admin (u x : User) (forced : bool) t :
  u_Role x = u_Role u → u_DisabledAt x = u_DisabledAt u → enabled_admin u = true →
  enabled_admin (x <| u_Role := if forced then "admin" else u_Role u |>
                   <| u_LastLoginAt := Some t |>) = true.
Proof.
  unfold enabled_admin; simpl. intros <- <-. destruct forced; [|done].
  rewrite !andb_true_iff. intros [_ ?]. by rewrite bool_decide_true.
Qed.

Lemma user_insert_fresh d id email role x :
  checks (user_insert_checks d id email role x) = None → users d !! id = None.
Proof.
  unfold user_insert_checks; simpl. case_match; [|done].
  unfold is_none, is_some. by destruct (users d !! id).
Qed.

(** The user a login resolves to is the stored row. *)
Lemma login_resolves d x u :
  keyed u_ID (users d) → (∃ k, users d !! k = Some x) →
  users d !! u_ID x = Some u → u = x.
Proof. intros Hids [k Hk] Hu. rewrite (Hids k x Hk) in Hu. congruence. Qed.

Lemma call_has_admin (ENV : Env) c w u w' :
  run_call c w = (inl u, w') →
  ids_ok (w_db w) ∧ has_admin (w_db w) → has_admin (w_db w').
Proof.
  intros H [Hok Ha]. pose proof (ids_users _ Hok) as Hids.
  destruct c; call_inv H; try done;
    try match goal with
    | Hc : bool_decide (length (where_ enabled_admin _) = 0) = false |- _ =>
      apply bool_decide_eq_false_1, count_admins in Hc; exact Hc
    | Hc : checks (user_insert_checks _ _ _ _ _) = None |- _ => apply user_insert_fresh in Hc
    end; unfold has_admin in *; simpl in *; try apply exists_insert; try done.
  all: repeat match goal with
    | Hb : _ ≫= _ = Some _ |- _ => apply bind_Some in Hb as (? & _ & ?)
    | Hf : find_row _ _ = Some _ |- _ => apply find_row_Some in Hf as [_ [? ?]]
    | Hl : <[?k := _]> _ !! ?k = Some _ |- _ => rewrite lookup_insert_eq in Hl
    end; simplify_eq.
  - intros v Hv. assert (u = x4) as -> by (eapply login_resolves; eauto).
    simplify_eq. by apply login_enabled_admin.
  - intros v Hv. assert (u = x4) as -> by (eapply login_resolves; eauto).
    simplify_eq. by apply login_enabled_admin.
  - apply exists_insert; [done|]. intros; congruence.
  - rewrite lookup_insert_eq. intros v Hv. simplify_eq.
    apply (login_enabled_admin (new_user x9 email displayName roleIfNew None x13)); done.
  - intros; congruence.
  - intros; simplify_eq; done.
  - intros; congruence.
Qed.

(** ** Enrollment counts

    The [used_count] of a bootstrap token never falls below the number of
    agents enrolled through it, and every such agent's token exists. *)

(** The enrolment column of the agents table. *)
Definition via (ags : gmap uuid AgentRow) : gmap uuid (option uuid) :=
  gr_EnrolledVia <$> ags.

Definition enrolled_by (tid : uuid) (m : gmap uuid (option uuid)) : gmap uuid (option uuid) :=
  filter (λ '(_, v), v = Some tid) m.

Record enroll_inv (m : gmap uuid (option uuid)) (ts : gmap uuid BootstrapToken) : Prop := {
  en_fk : ∀ k tid, m !! k = Some (Some tid) → is_Some (ts !! tid);
  en_count : ∀ tid t, ts !! tid = Some t →
    (Z.of_nat (size (enrolled_by tid m)) ≤ bt_UsedCount t)%Z;
}.

Definition enroll_ok (d : db) : Prop := enroll_inv (via (agents d)) (bootstrap_tokens d).

(** Updating a row without touching the column leaves the column alone. *)
Lemma via_update ags id r r' :
  ags !! id = Some r → gr_EnrolledVia r' = gr_EnrolledVia r → via (<[id := r']> ags) = via ags.
Proof.
  intros Hl He. unfold via. rewrite fmap_insert, He.
  apply insert_id. by rewrite lookup_fmap, Hl.
Qed.

Lemma via_imap ags (f : uuid → AgentRow → AgentRow) :
  (∀ k r, gr_EnrolledVia (f k r) = gr_EnrolledVia r) →
  via (map_imap (λ k r, Some (f k r)) ags) = via ags.
Proof.
  intros Hf. apply map_eq. intros k. unfold via.
  rewrite !lookup_fmap, map_lookup_imap. destruct (ags !! k); simpl; [|done].
  by rewrite Hf.
Qed.

Section Preservation.
Context (m : gmap uuid (option uuid)) (ts : gmap uuid BootstrapToken).
Hypothesis Hinv : enroll_inv m ts.

(** Token updates that keep the count. *)
Lemma enroll_inv_fmap (f : BootstrapToken → BootstrapToken) :
  (∀ t, bt_UsedCount (f t) = bt_UsedCount t) → enroll_inv m (f <$> ts).
Proof.
  destruct Hinv as [Hfk Hc]. intros Hf. constructor.
  - intros k tid [t Ht]%Hfk. rewrite lookup_fmap, Ht. by eexists.
  - intros tid t. rewrite lookup_fmap, fmap_Some. intros (t0 & Ht & ->). rewrite Hf. eauto.
Qed.

(** A new token starts at zero and nobody used it yet. *)
Lemma enroll_inv_new_token tid t :
  ts !! tid = None → bt_UsedCount t = 0%Z → enroll_inv m (<[tid := t]> ts).
Proof.
  destruct Hinv as [Hfk Hc]. intros Hn H0. constructor.
  - intros k tid' [t' Ht']%Hfk. rewrite lookup_insert_is_Some.
    destruct (decide (tid = tid')); eauto.
  - intros tid' t'. rewrite lookup_insert_Some. intros [[<- <-]|[_ ?]]; [|eauto].
    rewrite H0. replace (enrolled_by tid m) with (∅ : gmap uuid (option uuid));
      [by rewrite map_size_empty|].
    symmetry. apply map_empty. intros k. apply map_lookup_filter_None. right.
    intros v Hk ->. apply Hfk in Hk as [? ?]. congruence.
Qed.

Lemma enroll_inv_delete k : enroll_inv (delete k m) ts.
Proof.
  destruct Hinv as [Hfk Hc]. constructor.
  - intros k' tid [_ H]%lookup_delete_Some. eauto.
  - intros tid t Ht. etrans; [|by apply Hc]. apply inj_le. unfold enrolled_by.
    rewrite map_filter_delete. apply map_subseteq_size, delete_subseteq.
Qed.

(** Enrolment: one more agent, one more use. *)
Lemma enroll_inv_enroll k tid t :
  m !! k = None → ts !! tid = Some t →
  enroll_inv (<[k := Some tid]> m) (<[tid := t <| bt_UsedCount ::= Z.add 1 |>]> ts).
Proof.
  destruct Hinv as [Hfk Hc]. intros Hk Ht. constructor.
  - intros k' tid'. rewrite lookup_insert_Some, lookup_insert_is_Some.
    intros [[_ [= <-]]|[_ ?]]; [by left|]. destruct (decide (tid = tid')); eauto.
  - intros tid' t'. rewrite lookup_insert_Some. unfold enrolled_by.
    intros [[<- <-]|[Hne Ht']]; simpl.
    + rewrite map_filter_insert_True by done. rewrite map_size_insert_None.
      * specialize (Hc tid t Ht). unfold enrolled_by in Hc. lia.
      * apply map_lookup_filter_None. auto.
    + rewrite map_filter_insert_False by congruence.
      rewrite delete_id by done. eauto.
Qed.

End Preservation.

(** What the constraints of an [INSERT INTO agents] establish. *)
Lemma agent_checks d (a : NewAgent) b es :
  checks ((b, PgCheck "agents_class_check")
          :: (is_none (agents d !! na_ID a), PgUnique "agents_pkey") :: es) = None →
  agents d !! na_ID a = None.
Proof.
  simpl. destruct b; [|done]. unfold is_none, is_some. by destruct (agents d !! na_ID a).
Qed.

Lemma call_enroll_ok (ENV : Env) c w u w' :
  run_call c w = (inl u, w') → enroll_ok (w_db w) → enroll_ok (w_db w').
Proof.
  intros H Hok. destruct c; call_inv H; try done; unfold enroll_ok in *; cbn;
    try (erewrite via_update; [done|done|done]);
    try (apply enroll_inv_fmap; [done|]; intros t; by case_match).
  - (* CreateBootstrapToken *) apply enroll_inv_new_token; [done| |done].
    match goal with Hc : checks _ = None |- _ => simpl in Hc end.
    destruct (is_none _) eqn:E; [|done]. unfold is_none, is_some in E.
    by destruct (bootstrap_tokens _ !! nbt_ID t).
  - (* EnrollAgent *) match goal with Hc : checks _ = None |- _ => apply agent_checks in Hc end.
    rewrite fmap_insert. apply enroll_inv_enroll; [done| |done].
    by rewrite lookup_fmap, fmap_None.
  - (* EnrollAgent, no such token *)
    match goal with Hc : checks _ = None |- _ => simpl in Hc end.
    repeat case_match; try done. simpl in *.
    by destruct (bootstrap_tokens _ !! na_EnrolledVia a).
  - (* DeleteAgent *) rewrite fmap_delete. by apply enroll_inv_delete.
  - (* TouchAgents *) pose proof via_imap as Hv. unfold via in Hv. rewrite Hv; [done|].
    intros k r. by case_match.
Qed.
