(* ===== verification/PipelineInv.v ===== *)
(** * Pipeline versions along every history

    Version numbers of a pipeline are unique and without gaps from 1 on, and
    an active version exists, belongs to its pipeline and was found valid. *)
From S2P Require Import Prelude GoStrings Store World PgCore PgUsers PgFleet PgPipelines PgMisc StoreCalls StoreInv.

Record pipe_inv (ps : gmap uuid PipelineRow) (vs : gmap uuid VersionRow) : Prop := {
  pi_keys : keyed vr_ID vs;
  pi_owner : ∀ k v, vs !! k = Some v → is_Some (ps !! vr_PipelineID v);
  pi_unique : ∀ k v k' v', vs !! k = Some v → vs !! k' = Some v' →
    vr_PipelineID v = vr_PipelineID v' → vr_Version v = vr_Version v' → k = k';
  pi_gapless : ∀ k v n, vs !! k = Some v → (1 ≤ n ≤ vr_Version v)%Z →
    ∃ k' v', vs !! k' = Some v' ∧ vr_PipelineID v' = vr_PipelineID v ∧ vr_Version v' = n;
  pi_positive : ∀ k v, vs !! k = Some v → (1 ≤ vr_Version v)%Z;
  pi_active : ∀ k p vid, ps !! k = Some p → pr_ActiveVersionID p = Some vid →
    ∃ v, vs !! vid = Some v ∧ vr_PipelineID v = k ∧ vr_ValidationStatus v = ValidationValid;
}.

(** ** The highest version *)

Lemma elem_of_versions d pid v :
  v ∈ versions_of d pid ↔
  vr_PipelineID v = pid ∧ ∃ k, pipeline_versions d !! k = Some v.
Proof.
  unfold versions_of, where_. rewrite list_elem_of_filter, elem_of_rows.
  by rewrite bool_decide_eq_true.
Qed.

Lemma foldr_max_spec (l : list Z) a :
  (a ≤ foldr Z.max a l)%Z ∧ (∀ x, x ∈ l → (x ≤ foldr Z.max a l)%Z) ∧
  (foldr Z.max a l = a ∨ foldr Z.max a l ∈ l).
Proof.
  induction l as [|b l (IH1 & IH2 & IH3)]; simpl.
  - split_and!; [lia|by intros ? ?%elem_of_nil|auto].
  - split_and!; [lia|intros x [->|?%IH2]%elem_of_cons; lia|].
    destruct (Z.max_spec b (foldr Z.max a l)) as [[_ ->]|[_ ->]].
    + destruct IH3 as [->|]; [auto|]. right. by right.
    + right. left.
Qed.

Lemma max_version_spec l m :
  max_version l = Some m →
  (∃ v, v ∈ l ∧ vr_Version v = m) ∧ ∀ v, v ∈ l → (vr_Version v ≤ m)%Z.
Proof.
  destruct l as [|v l]; [done|]. simpl. intros [= <-].
  destruct (foldr_max_spec (vr_Version <$> l) (vr_Version v)) as (H1 & H2 & H3). split.
  - destruct H3 as [->|(x & -> & Hx)%list_elem_of_fmap].
    + exists v. split; [left|done].
    + exists x. split; [by right|done].
  - intros x [->|Hx]%elem_of_cons; [done|]. apply H2. by apply list_elem_of_fmap_2.
Qed.

Lemma max_version_None l : max_version l = None → l = [].
Proof. by destruct l. Qed.

(** ** Preservation, one table change at a time *)

Section Preservation.
Context (ps : gmap uuid PipelineRow) (vs : gmap uuid VersionRow).
Hypothesis Hinv : pipe_inv ps vs.

(** A fresh pipeline has no active version. *)
Lemma pipe_inv_new_pipeline k p :
  ps !! k = None → pr_ActiveVersionID p = None → pipe_inv (<[k := p]> ps) vs.
Proof.
  destruct Hinv as [Hk Ho Hu Hg Hp Ha]. intros Hf Hn. constructor; auto.
  - intros k0 v Hv. rewrite lookup_insert_is_Some. destruct (decide (k = vr_PipelineID v)); eauto.
  - intros k0 p0 vid. rewrite lookup_insert_Some. intros [[<- <-]|[? ?]] ?; [congruence|eauto].
Qed.

(** A new version takes the number after all existing ones of its pipeline. *)
Lemma pipe_inv_new_version row :
  vs !! vr_ID row = None → is_Some (ps !! vr_PipelineID row) → (1 ≤ vr_Version row)%Z →
  (∀ k v, vs !! k = Some v → vr_PipelineID v = vr_PipelineID row →
          (vr_Version v < vr_Version row)%Z) →
  (∀ n, (1 ≤ n < vr_Version row)%Z → ∃ k v, vs !! k = Some v ∧
          vr_PipelineID v = vr_PipelineID row ∧ vr_Version v = n) →
  pipe_inv ps (<[vr_ID row := row]> vs).
Proof.
  destruct Hinv as [Hk Ho Hu Hg Hp Ha]. intros Hf Hpl H1 Hlt Hall.
  assert (Hold : ∀ k v, vs !! k = Some v → <[vr_ID row := row]> vs !! k = Some v).
  { intros k v Hv. rewrite lookup_insert_ne; [done|]. congruence. }
  constructor.
  - by apply keyed_insert.
  - intros k v. rewrite lookup_insert_Some. intros [[<- <-]|[_ ?]]; eauto.
  - intros k v k' v'. rewrite !lookup_insert_Some.
    intros [[<- <-]|[_ Hv]] [[<- <-]|[_ Hv']] Hpp Hvv; eauto.
    + specialize (Hlt k' v' Hv'). lia || (rewrite <- Hpp in Hlt; specialize (Hlt eq_refl); lia).
    + specialize (Hlt k v Hv Hpp). lia.
  - intros k v n. rewrite lookup_insert_Some. intros [[<- <-]|[_ Hv]] Hn.
    + destruct (decide (n = vr_Version row)) as [->|Hne].
      * exists (vr_ID row), row. by rewrite lookup_insert_eq.
      * destruct (Hall n) as (k' & v' & ? & ? & ?); [lia|]. eauto 10.
    + destruct (Hg k v n Hv Hn) as (k' & v' & ? & ? & ?). eauto 10.
  - intros k v. rewrite lookup_insert_Some. intros [[<- <-]|[_ ?]]; eauto.
  - intros k p vid Hpk Hact. destruct (Ha k p vid Hpk Hact) as (v & ? & ? & ?). eauto 10.
Qed.

(** Deleting a pipeline cascades to exactly its versions. *)
Lemma pipe_inv_delete id :
  pipe_inv (delete id ps) (filter (λ '(_, v), vr_PipelineID v ≠ id) vs).
Proof.
  destruct Hinv as [Hk Ho Hu Hg Hp Ha].
  assert (Hsub : ∀ k v, filter (λ '(_, v), vr_PipelineID v ≠ id) vs !! k = Some v ↔
                        vs !! k = Some v ∧ vr_PipelineID v ≠ id).
  { intros. by rewrite map_lookup_filter_Some. }
  constructor.
  - by apply keyed_filter.
  - intros k v [Hv Hne]%Hsub. rewrite lookup_delete_ne by congruence. eauto.
  - intros k v k' v' [Hv _]%Hsub [Hv' _]%Hsub. eauto.
  - intros k v n [Hv Hne]%Hsub Hn. destruct (Hg k v n Hv Hn) as (k' & v' & H1 & H2 & H3).
    exists k', v'. rewrite Hsub. split_and!; congruence.
  - intros k v [Hv _]%Hsub. eauto.
  - intros k p vid [Hne Hpk]%lookup_delete_Some Hact.
    destruct (Ha k p vid Hpk Hact) as (v & H1 & H2 & H3).
    exists v. rewrite Hsub. split_and!; congruence.
Qed.

(** Activation points at an existing valid version of the same pipeline. *)
Lemma pipe_inv_activate k p v :
  ps !! k = Some p → vs !! vr_ID v = Some v → vr_PipelineID v = k →
  vr_ValidationStatus v = ValidationValid →
  pipe_inv (<[k := p <| pr_ActiveVersionID := Some (vr_ID v) |>]> ps) vs.
Proof.
  destruct Hinv as [Hk Ho Hu Hg Hp Ha]. intros Hpk Hv Hpl Hst. constructor; auto.
  - intros k0 v0 Hv0. rewrite lookup_insert_is_Some.
    destruct (decide (k = vr_PipelineID v0)); eauto.
  - intros k0 p0 vid. rewrite lookup_insert_Some. intros [[<- <-]|[? ?]]; [|eauto].
    simpl. intros [= <-]. eauto.
Qed.

(** Dropping the attribution of versions changes nothing else. *)
Lemma pipe_inv_detach (q : VersionRow → bool) :
  pipe_inv ps ((λ v, if q v then v <| vr_CreatedBy := None |> else v) <$> vs).
Proof.
  destruct Hinv as [Hk Ho Hu Hg Hp Ha].
  set (g := λ v, if q v then v <| vr_CreatedBy := None |> else v).
  assert (Hg' : ∀ v, vr_ID (g v) = vr_ID v ∧ vr_PipelineID (g v) = vr_PipelineID v ∧
    vr_Version (g v) = vr_Version v ∧ vr_ValidationStatus (g v) = vr_ValidationStatus v).
  { intros v. unfold g. by destruct (q v). }
  assert (Hl : ∀ k v, (g <$> vs) !! k = Some v → ∃ v0, vs !! k = Some v0 ∧ v = g v0).
  { intros k v. rewrite lookup_fmap, fmap_Some. intros (v0 & ? & ->). eauto. }
  assert (Hr : ∀ k v, vs !! k = Some v → (g <$> vs) !! k = Some (g v)).
  { intros k v Hv. by rewrite lookup_fmap, Hv. }
  constructor.
  - apply keyed_fmap; [done|]. intros v. apply Hg'.
  - intros k v (v0 & H0 & ->)%Hl. destruct (Hg' v0) as (_ & -> & _). eauto.
  - intros k v k' v' (v0 & H0 & ->)%Hl (v0' & H0' & ->)%Hl.
    destruct (Hg' v0) as (_ & -> & -> & _), (Hg' v0') as (_ & -> & -> & _). eauto.
  - intros k v n (v0 & H0 & ->)%Hl. destruct (Hg' v0) as (_ & -> & -> & _). intros Hn.
    destruct (Hg k v0 n H0 Hn) as (k' & v' & H1 & H2 & H3). exists k', (g v').
    destruct (Hg' v') as (_ & -> & -> & _). eauto.
  - intros k v (v0 & H0 & ->)%Hl. destruct (Hg' v0) as (_ & _ & -> & _). eauto.
  - intros k p vid Hpk Hact. destruct (Ha k p vid Hpk Hact) as (v & H1 & H2 & H3).
    exists (g v). destruct (Hg' v) as (_ & -> & _ & ->). eauto.
Qed.

End Preservation.

(** ** The inserts of the store *)

Definition pipes_ok (d : db) : Prop := pipe_inv (pipelines d) (pipeline_versions d).

Lemma is_some_true {A} (o : option A) : is_some o = true ↔ is_Some o.
Proof. by destruct o; split; try done; intros []. Qed.

Lemma is_none_true {A} (o : option A) : is_none o = true ↔ o = None.
Proof. by destruct o. Qed.

(** What the constraints of an [INSERT INTO pipeline_versions] establish. *)
Lemma version_checks d (v : NewPipelineVersion) version es :
  checks ([(bool_decide (nv_ValidationStatus v ∈ [ValidationValid; ValidationInvalid]),
              PgCheck "pipeline_versions_validation_status_check");
           (is_none (pipeline_versions d !! nv_ID v), PgUnique "pipeline_versions_pkey");
           (negb (existsb (λ x, bool_decide (vr_Version x = version))
                    (versions_of d (nv_PipelineID v))),
              PgUnique "pipeline_versions_pipeline_id_version_key");
           (is_some (pipelines d !! nv_PipelineID v),
              PgForeignKey "pipeline_versions_pipeline_id_fkey")] ++ es) = None →
  pipeline_versions d !! nv_ID v = None ∧ is_Some (pipelines d !! nv_PipelineID v) ∧
  ∀ k x, pipeline_versions d !! k = Some x → vr_PipelineID x = nv_PipelineID v →
         vr_Version x ≠ version.
Proof.
  simpl. destruct (bool_decide _); [|done].
  destruct (is_none _) eqn:E1; [|done]. destruct (negb _) eqn:E2; [|done].
  destruct (is_some _) eqn:E3; [|done]. intros _.
  apply is_none_true in E1. apply is_some_true in E3. split_and!; [done..|].
  intros k x Hx Hp Hv. apply negb_true_iff in E2.
  apply not_true_iff_false in E2. apply E2, existsb_exists. exists x.
  rewrite bool_decide_eq_true. split; [|done].
  apply list_elem_of_In, elem_of_versions. eauto.
Qed.

(** Version 1 is refused for a pipeline that has versions already. *)
Lemma first_version_free d pid :
  pipes_ok d →
  (∀ k x, pipeline_versions d !! k = Some x → vr_PipelineID x = pid → vr_Version x ≠ 1%Z) →
  ∀ k x, pipeline_versions d !! k = Some x → vr_PipelineID x ≠ pid.
Proof.
  intros Hok Hno k x Hx Hp. pose proof (pi_positive _ _ Hok k x Hx).
  destruct (pi_gapless _ _ Hok k x 1 Hx) as (k' & v' & H1 & H2 & H3); [lia|].
  apply (Hno k' v'); congruence.
Qed.

(** The row an insert files, and the invariant after it. *)
Lemma pipes_ok_insert d (v : NewPipelineVersion) row :
  pipes_ok d → vr_ID row = nv_ID v → vr_PipelineID row = nv_PipelineID v →
  (1 ≤ vr_Version row)%Z →
  pipeline_versions d !! nv_ID v = None → is_Some (pipelines d !! nv_PipelineID v) →
  (∀ k x, pipeline_versions d !! k = Some x → vr_PipelineID x = nv_PipelineID v →
          (vr_Version x < vr_Version row)%Z) →
  (∀ n, (1 ≤ n < vr_Version row)%Z → ∃ k x, pipeline_versions d !! k = Some x ∧
          vr_PipelineID x = nv_PipelineID v ∧ vr_Version x = n) →
  pipe_inv (pipelines d) (<[nv_ID v := row]> (pipeline_versions d)).
Proof.
  intros Hok Hid Hpid H1 Hf Hp Hlt Hall. rewrite <- Hid.
  apply pipe_inv_new_version; rewrite ?Hid, ?Hpid; auto.
Qed.

(** [COALESCE(max(version), 0) + 1] is above all versions, and all versions
    below it exist. *)
Lemma next_version d pid :
  pipes_ok d →
  let next := (default 0 (max_version (versions_of d pid)) + 1)%Z in
  (1 ≤ next)%Z ∧
  (∀ k x, pipeline_versions d !! k = Some x → vr_PipelineID x = pid → (vr_Version x < next)%Z) ∧
  (∀ n, (1 ≤ n < next)%Z → ∃ k x, pipeline_versions d !! k = Some x ∧
          vr_PipelineID x = pid ∧ vr_Version x = n).
Proof.
  intros Hok. destruct (max_version _) as [m|] eqn:E; simpl.
  - apply max_version_spec in E as [(v & [Hp [k Hk]]%elem_of_versions & <-) Hmax].
    pose proof (pi_positive _ _ Hok k v Hk). split_and!; [lia|..].
    + intros k' x Hx Hpx. enough (vr_Version x ≤ vr_Version v)%Z by lia.
      apply Hmax, elem_of_versions. eauto.
    + intros n Hn. destruct (pi_gapless _ _ Hok k v n Hk) as (k' & v' & ? & ? & ?); [lia|].
      exists k', v'. split_and!; congruence.
  - apply max_version_None in E. split_and!; [lia| |intros; lia].
    intros k x Hx Hpx. assert (Hin : x ∈ versions_of d pid) by (apply elem_of_versions; eauto).
    rewrite E in Hin. by apply elem_of_nil in Hin.
Qed.

Lemma call_pipes_ok (ENV : Env) c w u w' :
  run_call c w = (inl u, w') → pipes_ok (w_db w) → pipes_ok (w_db w').
Proof.
  intros H Hok. destruct c; call_inv H; try done; unfold pipes_ok; cbn.
  - (* DeleteUser *) by apply pipe_inv_detach.
  - (* CreatePipeline *)
    match goal with Hc : checks ((_, PgCheck "pipeline_versions_validation_status_check") :: _)
      = None |- _ => apply (version_checks _ _ _ [_]) in Hc as (Hf & Hp & Hno) end.
    match goal with Hc : checks _ = None |- _ => rename Hc into Hpc end.
    simpl in Hpc, Hf, Hp, Hno. destruct (bool_decide _); [|done].
    destruct (is_none _) eqn:Hn; [|done]. apply is_none_true in Hn.
    match goal with Hd : pipes_ok ?d |- pipe_inv ?ps _ =>
      assert (Hok' : pipes_ok (d <| pipelines := ps |>)) by by apply pipe_inv_new_pipeline end.
    pose proof (first_version_free _ _ Hok' Hno) as Hno'.
    apply (pipes_ok_insert _ v _ Hok'); try done; simpl.
    + intros k y Hy Hpy. by destruct (Hno' k y Hy).
    + intros n Hn'. lia.
  - (* DeletePipeline *) by apply pipe_inv_delete.
  - (* CreatePipelineVersion *)
    match goal with Hc : checks ((_, PgCheck "pipeline_versions_validation_status_check") :: _)
      = None |- _ => apply (version_checks _ _ _ [_]) in Hc as (Hf & Hp & Hno) end.
    destruct (next_version _ (nv_PipelineID v) Hok) as (? & ? & ?).
    by apply pipes_ok_insert.
  - (* ActivatePipelineVersion *)
    match goal with Hb : find_row _ _ ≫= _ = Some _ |- _ =>
      apply bind_Some in Hb as (v & [Hq [k Hk]]%find_row_Some & Hs) end.
    apply andb_true_iff in Hq as [Hq1%bool_decide_eq_true_1 _].
    unfold scanPipelineVersion in Hs. apply bind_Some in Hs as (p' & Hp' & [= <-]).
    simpl in *. pose proof (pi_keys _ _ Hok k v Hk) as Hid. simpl in Hid.
    apply pipe_inv_activate; try done; [congruence|].
    by apply negb_false_iff, bool_decide_eq_true_1 in Heqb.
Qed.
