(* ===== verification/StoreProps.v ===== *)
(** * What the store guarantees

    Theorems about every call and every history of the store: atomicity,
    auditing, the last enabled admin, pipeline versions, enrollment counts,
    and what revocation and deletion leave behind. *)
From S2P Require Import Prelude GoStrings Store World PgCore PgUsers PgFleet PgPipelines PgMisc StoreCalls StoreInv PipelineInv.

(** The audit entries a call is given to write with its change. *)
Definition call_entries (c : call) : list Entry :=
  match c with
  | CallCreateCustomer _ _ es | CallUpdateCustomer _ _ es | CallSoftDeleteCustomer _ es
  | CallCreateAPIKey _ es | CallRevokeAPIKey _ _ es | CallCreateSCIMUser _ _ _ _ _ es
  | CallUpdateSCIMUser _ _ _ es | CallSetUserCustomerGrants _ _ es
  | CallCreateInvitedUser _ _ _ es | CallUpdateUserAdmin _ _ es | CallDeleteUser _ es
  | CallCreateBootstrapToken _ es | CallRevokeBootstrapToken _ _ es | CallDeleteAgent _ es
  | CallUpdateAgentMeta _ _ _ es | CallCreatePipeline _ _ es | CallDeletePipeline _ es
  | CallCreatePipelineVersion _ es | CallActivatePipelineVersion _ _ es
  | CallCreateAPIToken _ es | CallRevokeAPIToken _ es | CallUpdateBillingSettings _ _ es
  | CallCreateWebhook _ es | CallUpdateWebhook _ _ es | CallDeleteWebhook _ es
  | CallWriteAuditEntries es | CallCreateAuthProvider _ es | CallUpdateAuthProvider _ _ es
  | CallDeleteAuthProvider _ es => es
  | _ => []
  end.

(** ** Concrete worlds *)

Definition with_admin : world :=
  (@run_call quiet_env
     (CallUpsertUserByIdentity "dev" "1" "root@x" None "admin") world_init).2.

Definition admin_id : uuid := 1003.

Definition demote_admin : call :=
  CallUpdateUserAdmin admin_id {| uu_Role := Some "viewer"; uu_Disabled := None |} [].

Lemma with_admin_ids : ids_ok (w_db with_admin).
Proof. constructor; apply (bool_decide_unpack _); vm_compute; exact I. Qed.

Lemma with_admin_admin : has_admin (w_db with_admin).
Proof. apply count_admins. vm_compute. discriminate. Qed.

(** ** Theorems *)

(** C1: whatever calls are made on the store, in whatever order and with
    whatever failures in between, an installation that has an enabled
    administrator keeps at least one. *)
Theorem last_admin_remains (w w' : world) :
  ids_ok (w_db w) → has_admin (w_db w) → rtc step w w' → has_admin (w_db w').
Proof.
  intros Hids Ha Hs.
  apply (history_inv (λ d, ids_ok d ∧ has_admin d)) with w; [|done..].
  intros ENV c w1 u w2 Hc [H1 H2]. split; [by eapply call_ids_ok|by eapply call_has_admin].
Qed.

Lemma last_admin_remains_witness :
  has_admin (w_db (@run_call quiet_env demote_admin with_admin).2).
Proof.
  apply (last_admin_remains with_admin).
  - exact with_admin_ids.
  - exact with_admin_admin.
  - apply rtc_once. exists quiet_env, demote_admin. reflexivity.
Defined.

(** C3: every state-changing call of the store is all-or-nothing: when it
    returns an error, whichever statement, check or commit failed, no table
    has changed. *)
Theorem store_calls_atomic (ENV : Env) (c : call) (w : world) (e : error) (w' : world) :
  run_call c w = (inr e, w') → w_db w' = w_db w.
Proof. apply atomic_run_call. Qed.

Lemma store_calls_atomic_witness :
  w_db (@run_call quiet_env demote_admin with_admin).2 = w_db with_admin.
Proof.
  apply (store_calls_atomic quiet_env demote_admin with_admin ErrLastAdmin).
  vm_compute. reflexivity.
Defined.

(** C4: a successful call appends exactly the audit entries it was given, in
    order, and with the default actor type filled in; so a change is committed
    with its audit trail or not at all. *)
Theorem store_calls_audited (ENV : Env) (c : call) (w : world) (u : unit) (w' : world) :
  run_call c w = (inl u, w') →
  ∃ recs, audit_log (w_db w') = audit_log (w_db w) ++ recs ∧
          l_Entry <$> recs = audited <$> call_entries c.
Proof.
  intros H. destruct c; call_inv H; simpl;
    try (eexists; split; [reflexivity|]; done);
    try (exists []; split; [by rewrite app_nil_r|reflexivity]).
  apply bool_decide_eq_true_1 in Heqb as ->. exists []. by rewrite app_nil_r.
Qed.

Definition some_entry : Entry := {|
  e_ActorUserID := None; e_ActorType := ""; e_Action := "customer.create";
  e_EntityType := "customer"; e_EntityID := "x"; e_CustomerID := None; e_Payload := None |}.

Lemma store_calls_audited_witness :
  ∃ recs, audit_log (w_db (@run_call quiet_env (CallWriteAuditEntries [some_entry]) world_init).2)
          = [] ++ recs ∧ l_Entry <$> recs = audited <$> [some_entry].
Proof.
  apply (store_calls_audited quiet_env (CallWriteAuditEntries [some_entry]) world_init tt).
  vm_compute. reflexivity.
Defined.

(** C5: along every history from an empty installation, the versions of a
    pipeline are numbered 1, 2, 3, ... without gaps or repetitions, and the
    active version of a pipeline exists, belongs to that pipeline and passed
    validation. *)
Theorem pipeline_versions_consistent (w : world) :
  rtc step world_init w →
  (∀ k v n, pipeline_versions (w_db w) !! k = Some v → (1 ≤ n ≤ vr_Version v)%Z →
     exists! k', ∃ v', pipeline_versions (w_db w) !! k' = Some v' ∧
       vr_PipelineID v' = vr_PipelineID v ∧ vr_Version v' = n) ∧
  (∀ k p vid, pipelines (w_db w) !! k = Some p → pr_ActiveVersionID p = Some vid →
     ∃ v, pipeline_versions (w_db w) !! vid = Some v ∧ vr_PipelineID v = k ∧
          vr_ValidationStatus v = ValidationValid).
Proof.
  intros Hs. assert (Hok : pipes_ok (w_db w)).
  { apply (history_inv pipes_ok) with world_init; [apply call_pipes_ok|done|].
    by constructor. }
  split; [|apply (pi_active _ _ Hok)].
  intros k v n Hv Hn. destruct (pi_gapless _ _ Hok k v n Hv Hn) as (k' & v' & H1 & H2 & H3).
  exists k'. split; [eauto|]. intros k2 (v2 & H4 & H5 & H6).
  eapply (pi_unique _ _ Hok); [done|done|congruence..].
Qed.

Definition new_version (pid vid : uuid) : NewPipelineVersion := {|
  nv_ID := vid; nv_PipelineID := pid; nv_Graph := JNull; nv_RenderedYAML := "";
  nv_ConfigHash := ""; nv_ValidationStatus := ValidationValid;
  nv_ValidationOutput := None; nv_CreatedBy := None |}.

Definition customer_calls : list call :=
  [CallCreateCustomer {| nc_ID := 1; nc_Slug := "acme"; nc_Name := "Acme"; nc_ClientID := "c" |}
     {| nk_ID := 2; nk_CustomerID := 1; nk_Name := "default"; nk_KeyPrefix := "otm_0a";
        nk_KeyHash := "h"; nk_CreatedBy := None; nk_ExpiresAt := None |} []].

Definition pipeline_calls : list call :=
  customer_calls ++
  [CallCreatePipeline {| np_ID := 3; np_CustomerID := 1; np_Name := "p"; np_TargetClass := "" |}
     (new_version 3 4) [];
   CallCreatePipelineVersion (new_version 3 5) [];
   CallActivatePipelineVersion 3 2 []].

(** A quiet run of a list of calls. *)
Definition run_quiet (cs : list call) (w : world) : world :=
  fold_left (λ w c, (@run_call quiet_env c w).2) cs w.

Lemma run_quiet_steps cs w : rtc step w (run_quiet cs w).
Proof.
  revert w; induction cs as [|c cs IH]; intros w; [apply rtc_refl|].
  eapply rtc_l; [|apply IH]. by exists quiet_env, c.
Qed.

Lemma pipeline_versions_consistent_witness :
  (pr_ActiveVersionID <$> pipelines (w_db (run_quiet pipeline_calls world_init)) !! 3%N)
    = Some (Some 5%N) ∧
  (∀ k p vid, pipelines (w_db (run_quiet pipeline_calls world_init)) !! k = Some p →
     pr_ActiveVersionID p = Some vid →
     ∃ v, pipeline_versions (w_db (run_quiet pipeline_calls world_init)) !! vid = Some v ∧
          vr_PipelineID v = k ∧ vr_ValidationStatus v = ValidationValid).
Proof.
  split; [vm_compute; reflexivity|].
  apply (pipeline_versions_consistent _ (run_quiet_steps pipeline_calls world_init)).
Defined.

(** Along every history from an empty installation, [used_count] of a
    bootstrap token is at least the number of agents currently enrolled
    through it. *)
Theorem used_count_covers_agents (w : world) (tid : uuid) (t : BootstrapToken) :
  rtc step world_init w →
  bootstrap_tokens (w_db w) !! tid = Some t →
  (Z.of_nat (size (filter (λ '(_, r), gr_EnrolledVia r = Some tid) (agents (w_db w))))
     ≤ bt_UsedCount t)%Z.
Proof.
  intros Hs Ht. assert (Hok : enroll_ok (w_db w)).
  { apply (history_inv enroll_ok) with world_init; [apply call_enroll_ok|done|].
    by constructor. }
  pose proof (en_count _ _ Hok tid t Ht) as Hc. etrans; [|exact Hc]. apply inj_le.
  unfold enrolled_by, via. rewrite map_filter_fmap, map_size_fmap.
  by apply Nat.eq_le_incl.
Qed.

Definition enroll_calls : list call :=
  customer_calls ++
  [CallCreateBootstrapToken {| nbt_ID := 7; nbt_CustomerID := 1; nbt_Name := "t";
     nbt_TokenPrefix := "otm_bt_0a"; nbt_TokenHash := "h"; nbt_MaxUses := 1;
     nbt_CreatedBy := None; nbt_ExpiresAt := 1000 |} [];
   CallEnrollAgent {| na_ID := 8; na_InstanceUID := "u8"; na_CustomerID := 1;
     na_Class := AgentClassEdge; na_Name := None; na_AgentVersion := None;
     na_Description := None; na_Capabilities := 0; na_EnrolledVia := 7 |};
   CallEnrollAgent {| na_ID := 9; na_InstanceUID := "u9"; na_CustomerID := 1;
     na_Class := AgentClassEdge; na_Name := None; na_AgentVersion := None;
     na_Description := None; na_Capabilities := 0; na_EnrolledVia := 7 |}].

Lemma used_count_covers_agents_witness :
  ∃ t, bootstrap_tokens (w_db (run_quiet enroll_calls world_init)) !! 7%N = Some t ∧
       bt_MaxUses t = 1%Z ∧ bt_UsedCount t = 2%Z ∧
       (Z.of_nat (size (filter (λ '(_, r), gr_EnrolledVia r = Some 7%N)
          (agents (w_db (run_quiet enroll_calls world_init))))) ≤ bt_UsedCount t)%Z.
Proof.
  eexists. split; [vm_compute; reflexivity|]. split; [reflexivity|]. split; [reflexivity|].
  apply (used_count_covers_agents _ 7%N _ (run_quiet_steps enroll_calls world_init)).
  vm_compute. reflexivity.
Defined.

(** Deleting a customer leaves it unreachable: after a successful
    [SoftDeleteCustomer] the customer is marked deleted, every key of it is
    revoked, and [ActiveKeysByPrefix] returns none of them for any prefix. *)
Theorem soft_delete_revokes (ENV : Env) (id : uuid) (es : list Entry) w u w' :
  ids_ok (w_db w) → SoftDeleteCustomer id es w = (inl u, w') →
  (c_Status <$> customers (w_db w') !! id) = Some CustomerDeleted ∧
  (∀ k key, api_keys (w_db w') !! k = Some key → k_CustomerID key = id →
     is_Some (k_RevokedAt key)) ∧
  (∀ prefix keys w2, ActiveKeysByPrefix prefix w' = (inl keys, w2) →
     Forall (λ a, ak_CustomerID a ≠ id) keys).
Proof.
  intros Hids H. call_inv H; try done. cbn.
  assert (Hrev : ∀ k key,
    ((λ v, if bool_decide (k_CustomerID v = id) && is_none (k_RevokedAt v)
           then v <| k_RevokedAt := Some x6 |> else v) <$> api_keys w_db4) !! k = Some key →
    k_CustomerID key = id → is_Some (k_RevokedAt key)).
  { intros k key. rewrite lookup_fmap, fmap_Some. intros (k0 & _ & ->).
    destruct (bool_decide _ && _) eqn:E; [by eexists|].
    intros Hc. rewrite bool_decide_true in E by done. simpl in E.
    unfold is_none, is_some in E. by destruct (k_RevokedAt k0). }
  split_and!; [by rewrite lookup_insert_eq|done|].
  intros prefix keys w2 [-> _]%query_inl. apply Forall_forall.
  intros a (key & [k Hk]%elem_of_rows & Ha)%list_elem_of_omap Hid. simpl in Hk.
  destruct (bool_decide _ && _) eqn:E; [|done]. apply andb_true_iff in E as [_ E].
  apply bind_Some in Ha as (cust & _ & [= <-]). simpl in Hid.
  destruct (Hrev k key Hk Hid) as [? Hr]. unfold is_none, is_some in E. by rewrite Hr in E.
Qed.

Definition customer_world : world := run_quiet customer_calls world_init.

Lemma soft_delete_revokes_witness :
  (c_Status <$> customers (w_db (@SoftDeleteCustomer quiet_env 1%N [] customer_world).2) !! 1%N)
    = Some CustomerDeleted.
Proof.
  refine (proj1 (soft_delete_revokes quiet_env 1%N [] customer_world tt _ _ _)).
  - constructor; apply (bool_decide_unpack _); vm_compute; exact I.
  - vm_compute. reflexivity.
Defined.

(** The rows that refer to a user and are not detached by [DeleteUser]. *)
Definition undetached_reference (d : db) (id : uuid) : Prop :=
  (∃ k w, webhooks d !! k = Some w ∧ w_CreatedBy w = Some id) ∨
  (∃ k t, api_tokens d !! k = Some t ∧ tr_CreatedBy t = Some id) ∨
  (∃ b, billing_settings d = Some b ∧ b_UpdatedBy b = Some id).

Lemma user_references_blocked d id :
  undetached_reference d id → checks (user_references d id) ≠ None.
Proof.
  intros Href Hc. apply checks_None in Hc. unfold user_references in Hc.
  rewrite !Forall_cons in Hc. destruct Hc as (_ & _ & _ & Hw & Ht & Hb & _). simpl in *.
  apply negb_true_iff in Hw, Ht.
  destruct Href as [(k & w & Hk & Hc)|[(k & t & Hk & Hc)|(b & Hk & Hc)]].
  - eapply (exists_row_true (λ r, bool_decide (w_CreatedBy r = Some id))) in Hk;
      [|by apply bool_decide_eq_true]. congruence.
  - eapply (exists_row_true (λ r, bool_decide (tr_CreatedBy r = Some id))) in Hk;
      [|by apply bool_decide_eq_true]. congruence.
  - rewrite Hk in Hb. by rewrite bool_decide_true in Hb.
Qed.

(** [DeleteUser] cannot delete a user who created a webhook or a
    management token or last changed the price list: those columns reference
    [users] and are not among the three the method detaches, so the DELETE is
    refused in every environment. *)
Theorem delete_user_blocked (ENV : Env) (id : uuid) (es : list Entry) w u w' :
  undetached_reference (w_db w) id → DeleteUser id es w ≠ (inl u, w').
Proof.
  intros Href H. call_inv H; try done.
  match goal with Hc : checks (user_references _ _) = None |- _ =>
    apply user_references_blocked in Hc; [done|exact Href] end.
Qed.

Definition webhook_world : world :=
  run_quiet
    [CallCreateWebhook {| nw_ID := 5; nw_Type := "slack"; nw_Name := "ops"; nw_URL := "https://x";
       nw_Events := []; nw_SecretEnc := None; nw_Enabled := true; nw_CreatedBy := Some 2000%N |} []]
    (run_quiet [CallCreateInvitedUser 2000 "op@x" "operator" []] with_admin).

Lemma delete_user_blocked_witness :
  (@DeleteUser quiet_env 2000%N [] webhook_world).1 ≠ inl tt.
Proof.
  intros Hr. eapply (delete_user_blocked quiet_env 2000%N [] webhook_world).
  - left. exists 5%N. eexists. split; vm_compute; reflexivity.
  - rewrite <- Hr. apply surjective_pairing.
Defined.

(** ** Two administrations at once

    [PG.inTx] begins its transactions with the isolation level of the server,
    READ COMMITTED unless changed: a statement sees what was committed before it
    and the writes of its own transaction.  The schedule below is the database's
    and not code of the repository: two transactions have run all their
    statements before either commits.  UpdateUserAdmin and DeleteUser lock the
    row of the user they are called for and no other, so two of them for
    different users do not wait for each other.

    Run one after the other they keep an enabled administrator
    ([last_admin_remains]); the example shows two that overlap and do not. *)
Module Interleave.

(** What a table holds after a transaction commits that began on [base] and
    left [mine]: the rows it wrote over what was [committed] meanwhile. *)
Definition commit_rows {V} `{EqDecision V} (base mine committed : gmap uuid V) : gmap uuid V :=
  merge (λ change c, match change with Some row => row | None => c end)
    (merge (λ b m, if decide (b = m) then None else Some m) base mine) committed.

#[export] Instance User_eq_dec : EqDecision User.
Proof. solve_decision. Defined.

(** The users once both calls ran on [w] in that schedule and committed, with
    the answers the callers get. *)
Definition overlap (ENV1 ENV2 : Env) (c1 c2 : call) (w : world)
    : (unit + error) * (unit + error) * gmap uuid User :=
  let '(r1, w1) := @run_call ENV1 c1 w in
  let '(r2, w2) := @run_call ENV2 c2 w in
  (r1, r2, commit_rows (users (w_db w)) (users (w_db w2)) (users (w_db w1))).

(** ** The only two administrators, demoted and deleted at once *)

Definition second_admin : call := CallUpsertUserByIdentity "dev" "2" "second@x" None "admin".
Definition two_admins : world := (@run_call quiet_env second_admin with_admin).2.
Definition second_id : uuid :=
  default 0%N (list_find (λ k, k ≠ admin_id) (map_to_list (users (w_db two_admins))).*1 ≫= λ p, Some p.2).
Definition delete_second : call := CallDeleteUser second_id [].

Example both_admins_gone :
  let '(r1, r2, t) := overlap quiet_env quiet_env demote_admin delete_second two_admins in
  r1 = inl tt ∧ r2 = inl tt ∧ existsb enabled_admin (rows t) = false.
Proof. vm_compute. auto. Qed.

(** One after the other, the second call is refused. *)
Example second_is_refused :
  (@run_call quiet_env delete_second (@run_call quiet_env demote_admin two_admins).2).1 = inr ErrLastAdmin.
Proof. vm_compute. reflexivity. Qed.
End Interleave.
