(* ===== verification/Tokens.v ===== *)
(** * Credentials (internal/tenants/keys.go, agenttoken.go, apitoken.go,
    bootstrap.go)

    The four kinds of secrets the control plane hands out, their lookup
    prefixes, and when an enrollment token is usable; and the roles a token or
    a user can have (internal/authz).  All have the shape
    [<tag><8 hex>_<base64url of 32 bytes>]. *)
From Stdlib Require Import Ascii.
From S2P Require Import Prelude GoStrings Sha256 Store World.

Record GeneratedKey := {
  g_Secret : string;
  g_Prefix : string;
  g_Hash : string;
}.

Definition HashAPIKey (key : string) : string := Sha256.Sum256 key.

(** The construction the four generators share, on the 36 random bytes. *)
Definition mint (tag : string) (buf : string) : GeneratedKey :=
  let prefix := tag +:+ hex_encode (slice_to 4 buf) in
  let secret := prefix +:+ "_" +:+ b64_encode (String.substring 4 (String.length buf) buf) in
  {| g_Secret := secret; g_Prefix := prefix; g_Hash := HashAPIKey secret |}.

Section Generate.
Context {ENV : Env}.

Definition GenerateAPIKey : Op GeneratedKey :=
  buf ← wrapErr "generate api key" (rand_Read 36);
  mret (mint "otm_" buf).

Definition GenerateAgentToken : Op GeneratedKey :=
  buf ← wrapErr "generate agent token" (rand_Read 36);
  mret (mint "otm_at_" buf).

Definition GenerateAPIToken : Op GeneratedKey :=
  buf ← wrapErr "generate api token" (rand_Read 36);
  mret (mint "otm_pat_" buf).

Definition GenerateBootstrapToken : Op GeneratedKey :=
  buf ← wrapErr "generate bootstrap token" (rand_Read 36);
  mret (mint "otm_bt_" buf).

End Generate.

(** The loop over the runes of the hexadecimal part. *)
Definition all_hex_runes (s : string) : bool :=
  forallb (λ c, negb ((negb (is_digit c)) && negb (in_range 97 102 c))) (runes s).

Definition ParseKeyPrefix (key : string) : option string :=
  match SplitN key "_" 3 with
  | [p0; p1; p2] =>
    if bool_decide (p0 = "otm") && bool_decide (String.length p1 = 8)
       && negb (bool_decide (p2 = ""))
    then if all_hex_runes p1 then Some ("otm_" +:+ p1) else None
    else None
  | _ => None
  end.

(** The parsers of the three tagged kinds differ only in the tag. *)
Definition parse_tagged (tag : string) (token : string) : option string :=
  match SplitN token "_" 4 with
  | [p0; p1; p2; p3] =>
    if bool_decide (p0 = "otm") && bool_decide (p1 = tag)
       && bool_decide (String.length p2 = 8) && negb (bool_decide (p3 = ""))
    then if all_hex_runes p2 then Some ("otm_" +:+ tag +:+ "_" +:+ p2) else None
    else None
  | _ => None
  end.

Definition ParseAgentTokenPrefix (token : string) : option string := parse_tagged "at" token.
Definition ParseAPITokenPrefix (token : string) : option string := parse_tagged "pat" token.
Definition ParseBootstrapTokenPrefix (token : string) : option string := parse_tagged "bt" token.

(** [TokenUsable]: nil or the reason the token is refused. *)
Inductive TokenRefusal :=
  | TokenExpired (at_ : time)
  | TokenExhausted (used max : Z)
  | TokenCustomer (status : string).

Definition TokenUsable (t : EnrollToken) (now : time) : option TokenRefusal :=
  if negb (now <? et_ExpiresAt t)%Z then Some (TokenExpired (et_ExpiresAt t))
  else if (0 <? et_MaxUses t)%Z && (et_MaxUses t <=? et_UsedCount t)%Z
  then Some (TokenExhausted (et_UsedCount t) (et_MaxUses t))
  else if negb (bool_decide (et_CustomerStatus t = CustomerActive))
  then Some (TokenCustomer (et_CustomerStatus t))
  else None.

(** ** Hexadecimal strings decode to themselves *)

Lemma is_lower_hex_ascii c : is_lower_hex c = true → (c <? 128)%N = true.
Proof.
  unfold is_lower_hex, is_digit, in_range. rewrite orb_true_iff, !andb_true_iff, !N.leb_le, N.ltb_lt.
  lia.
Qed.

Lemma runes_ascii (s : string) :
  all_bytes (λ c, (c <? 128)%N) s = true → runes s = map N_of_ascii (chars s).
Proof.
  unfold runes, all_bytes. induction s as [|a s IH]; [done|].
  cbn [chars forallb map]. intros [Ha Hs]%andb_true_iff. cbn [decode].
  rewrite Ha. cbn [fmap list_fmap fst]. by rewrite <- IH.
Qed.

Lemma all_hex_runes_hex s :
  all_bytes is_lower_hex s = true → all_hex_runes s = true.
Proof.
  intros H. unfold all_hex_runes. rewrite runes_ascii.
  - unfold all_bytes in H. rewrite forallb_forall in *. intros c Hc.
    apply in_map_iff in Hc as (a & <- & Ha). specialize (H a Ha).
    unfold is_lower_hex in H. by rewrite <- negb_orb, H.
  - eapply all_bytes_mono; [|done]. apply is_lower_hex_ascii.
Qed.

(** The smallest second byte of a three- or four-byte sequence. *)
Lemma second_ok_ge b0 b1 :
  second_ok b0 b1 = true →
  ((b0 = 224 → 160 ≤ b1) ∧ (b0 = 240 → 144 ≤ b1) ∧ 128 ≤ b1)%N.
Proof.
  unfold second_ok, in_range.
  repeat case_match; rewrite andb_true_iff, !N.leb_le; intros [? ?];
    repeat match goal with
    | Hb : (_ =? _)%N = true |- _ => apply N.eqb_eq in Hb
    | Hb : (_ =? _)%N = false |- _ => apply N.eqb_neq in Hb
    end; split_and!; intros; lia.
Qed.

(** Conversely, eight bytes whose runes are all hexadecimal digits are eight
    hexadecimal digits: a multi-byte rune is never below 128. *)
Lemma decode_runes_ascii s :
  Forall (λ c, (c < 128)%N) (runes s) → all_bytes (λ c, (c <? 128)%N) s = true.
Proof.
  assert (Hn : ∀ n s, (String.length s < n)%nat → Forall (λ c, (c < 128)%N) (runes s) →
    all_bytes (λ c, (c <? 128)%N) s = true); [|intros; eapply Hn; eauto].
  clear s. induction n as [|n IH]; intros s Hl H; [lia|].
  destruct s as [|a s]; [done|]. unfold all_bytes. cbn [chars forallb].
  unfold runes in H. cbn [decode] in H. simpl in Hl.
  destruct (N_of_ascii a <? 128)%N eqn:Ea.
  - simpl. apply Forall_cons in H as [_ H]. apply IH; [lia|done].
  - exfalso. apply N.ltb_ge in Ea.
    assert (Hbad : ∀ l, ¬ Forall (λ c, (c < 128)%N) ((RuneError, String a "") :: l).*1).
    { intros l Hf. apply Forall_cons in Hf as [Hf _]. simpl in Hf. unfold RuneError in Hf. lia. }
    unfold in_range in H.
    repeat (case_match; try (by eapply Hbad)); simplify_eq;
      apply Forall_cons in H as [H _]; simpl in H;
      repeat match goal with
      | Hb : _ && _ = true |- _ => apply andb_true_iff in Hb as [? ?]
      | Hb : (_ <=? _)%N = true |- _ => apply N.leb_le in Hb
      | Hb : second_ok _ _ = true |- _ => apply second_ok_ge in Hb as (? & ? & ?)
      end; lia.
Qed.

Lemma all_hex_runes_inv s : all_hex_runes s = true → all_bytes is_lower_hex s = true.
Proof.
  unfold all_hex_runes. intros H.
  assert (Ha : all_bytes (λ c, (c <? 128)%N) s = true).
  { apply decode_runes_ascii, Forall_forall. intros c Hc.
    rewrite forallb_forall in H. apply list_elem_of_In, H in Hc.
    rewrite <- negb_orb, negb_involutive in Hc.
    by apply is_lower_hex_ascii, N.ltb_lt in Hc. }
  rewrite runes_ascii in H by done. unfold all_bytes. rewrite forallb_forall in *.
  intros a Hin. specialize (H (N_of_ascii a)). rewrite <- negb_orb, negb_involutive in H.
  apply H, in_map_iff. eauto.
Qed.

(** ** The four kinds together *)

Inductive kind := KAPIKey | KAgentToken | KAPIToken | KBootstrapToken.

#[export] Instance kind_eq_dec : EqDecision kind.
Proof. solve_decision. Defined.

Definition tag_of (kd : kind) : string :=
  match kd with
  | KAPIKey => "otm_"
  | KAgentToken => "otm_at_"
  | KAPIToken => "otm_pat_"
  | KBootstrapToken => "otm_bt_"
  end.

Definition generate `{Env} (kd : kind) : Op GeneratedKey :=
  match kd with
  | KAPIKey => GenerateAPIKey
  | KAgentToken => GenerateAgentToken
  | KAPIToken => GenerateAPIToken
  | KBootstrapToken => GenerateBootstrapToken
  end.

Definition parse (kd : kind) (s : string) : option string :=
  match kd with
  | KAPIKey => ParseKeyPrefix s
  | KAgentToken => ParseAgentTokenPrefix s
  | KAPIToken => ParseAPITokenPrefix s
  | KBootstrapToken => ParseBootstrapTokenPrefix s
  end.

Lemma hex_free_of_underscore s : all_bytes is_lower_hex s = true → free_of "_" s = true.
Proof.
  apply all_bytes_mono. intros c. unfold is_lower_hex, is_digit, in_range.
  rewrite negb_true_iff, N.eqb_neq, orb_true_iff, !andb_true_iff, !N.leb_le.
  change (code "_") with 95%N. lia.
Qed.

Lemma rand_Read_inl `{Env} n w buf w' :
  rand_Read n w = (inl buf, w') → String.length buf = n.
Proof.
  unfold rand_Read, tick, mbind, M_bind. simpl. case_match; [done|]. intros [= <- _].
  by rewrite <- length_chars, chars_of_list, length_map, length_seq.
Qed.

Lemma generate_inl `{Env} kd w k w' :
  generate kd w = (inl k, w') →
  ∃ buf, String.length buf = 36 ∧ k = mint (tag_of kd) buf.
Proof.
  destruct kd; unfold generate, GenerateAPIKey, GenerateAgentToken, GenerateAPIToken,
    GenerateBootstrapToken; intros (buf & w1 & Hb%wrapErr_inl & Hk)%bind_inl;
    apply ret_inl in Hk as [<- _]; exists buf; (split; [by eapply rand_Read_inl|done]).
Qed.

(** The random part split in its two halves. *)
Lemma split_buf buf :
  String.length buf = 36 →
  ∃ b1 b2, buf = b1 +:+ b2 ∧ String.length b1 = 4 ∧ String.length b2 = 32 ∧
    slice_to 4 buf = b1 ∧ String.substring 4 (String.length buf) buf = b2.
Proof.
  intros Hl.
  destruct buf as [|a1 [|a2 [|a3 [|a4 b2]]]]; try (simpl in Hl; lia).
  exists (String a1 (String a2 (String a3 (String a4 "")))), b2.
  assert (Hb2 : String.length b2 = 32) by (simpl in Hl; lia).
  split_and!; [done|done|done| |].
  - unfold slice_to. simpl. by destruct b2.
  - assert (Hsub : ∀ n s, String.length s ≤ n → String.substring 0 n s = s).
    { induction n as [|n IH]; intros [|c s] Hs; simpl in *; try lia; auto. rewrite IH; [done|lia]. }
    rewrite Hl. apply (Hsub 36). lia.
Qed.

Lemma b64_nonempty s : String.length s = 32 → b64_encode s ≠ "".
Proof. intros Hl He. pose proof (length_b64_encode s) as Hb. by rewrite He, Hl in Hb. Qed.

Lemma underscore_app x : "_" +:+ x = String "_" x.
Proof. done. Qed.

Lemma otm_app x : "otm_" +:+ x = "otm" +:+ String "_" x.
Proof. done. Qed.

Lemma parse_tagged_shape tag hex sec :
  free_of "_" tag = true → all_bytes is_lower_hex hex = true → String.length hex = 8 →
  sec ≠ "" →
  parse_tagged tag ("otm_" +:+ tag +:+ "_" +:+ hex +:+ "_" +:+ sec)
  = Some ("otm_" +:+ tag +:+ "_" +:+ hex).
Proof.
  intros Ht Hh Hl Hs. unfold parse_tagged.
  rewrite !otm_app, !underscore_app, SplitN_app by done.
  rewrite SplitN_app by done. rewrite SplitN_app by by apply hex_free_of_underscore.
  cbn [SplitN]. rewrite !bool_decide_true, (bool_decide_false (sec = "")) by done.
  simpl. by rewrite all_hex_runes_hex.
Qed.

Lemma parse_key_shape hex sec :
  all_bytes is_lower_hex hex = true → String.length hex = 8 → sec ≠ "" →
  ParseKeyPrefix ("otm_" +:+ hex +:+ "_" +:+ sec) = Some ("otm_" +:+ hex).
Proof.
  intros Hh Hl Hs. unfold ParseKeyPrefix.
  rewrite !otm_app, !underscore_app, SplitN_app by done.
  rewrite SplitN_app by by apply hex_free_of_underscore.
  cbn [SplitN]. rewrite !bool_decide_true, (bool_decide_false (sec = "")) by done.
  simpl. by rewrite all_hex_runes_hex.
Qed.

(** What an accepted credential looks like. *)
Lemma SplitN_cons_inv (s : string) sep n p rest :
  SplitN s sep (S (S n)) = p :: rest → rest ≠ [] →
  ∃ r, s = p +:+ String sep r ∧ free_of sep p = true ∧ SplitN r sep (S n) = rest.
Proof.
  simpl SplitN at 1. destruct (cut sep s) as [[b r]|] eqn:E.
  - intros [= -> <-] _. apply cut_Some in E as [-> ?]. eauto.
  - intros [= -> <-]. done.
Qed.

Lemma parse_tagged_sound tag token p :
  parse_tagged tag token = Some p →
  ∃ hex sec, token = "otm_" +:+ tag +:+ "_" +:+ hex +:+ "_" +:+ sec ∧
    all_bytes is_lower_hex hex = true ∧ String.length hex = 8 ∧ sec ≠ "" ∧
    p = "otm_" +:+ tag +:+ "_" +:+ hex.
Proof.
  unfold parse_tagged. destruct (SplitN token "_" 4) as [|p0 [|p1 [|p2 [|p3 [|]]]]] eqn:E; try done.
  destruct (_ && _) eqn:Ec; [|done]. destruct (all_hex_runes p2) eqn:Eh; [|done].
  rewrite !andb_true_iff, !bool_decide_eq_true, negb_true_iff, bool_decide_eq_false in Ec.
  destruct Ec as [[[-> ->] Hl] Hs]. intros [= <-].
  apply SplitN_cons_inv in E as (r1 & -> & _ & E); [|done].
  apply SplitN_cons_inv in E as (r2 & -> & _ & E); [|done].
  apply SplitN_cons_inv in E as (r3 & -> & _ & E); [|done].
  simpl in E. injection E as ->. apply all_hex_runes_inv in Eh. by exists p2, p3.
Qed.

Lemma parse_key_sound key p :
  ParseKeyPrefix key = Some p →
  ∃ hex sec, key = "otm_" +:+ hex +:+ "_" +:+ sec ∧
    all_bytes is_lower_hex hex = true ∧ String.length hex = 8 ∧ sec ≠ "" ∧
    p = "otm_" +:+ hex.
Proof.
  unfold ParseKeyPrefix. destruct (SplitN key "_" 3) as [|p0 [|p1 [|p2 [|]]]] eqn:E; try done.
  destruct (_ && _) eqn:Ec; [|done]. destruct (all_hex_runes p1) eqn:Eh; [|done].
  rewrite !andb_true_iff, !bool_decide_eq_true, negb_true_iff, bool_decide_eq_false in Ec.
  destruct Ec as [[-> Hl] Hs]. intros [= <-].
  apply SplitN_cons_inv in E as (r1 & -> & _ & E); [|done].
  apply SplitN_cons_inv in E as (r2 & -> & _ & E); [|done].
  simpl in E. injection E as ->. apply all_hex_runes_inv in Eh. by exists p1, p2.
Qed.

(** The second field tells the kinds apart: eight characters for an API key,
    the tag otherwise. *)
Lemma parse_second_field kd s p :
  parse kd s = Some p →
  ∃ x r, s = "otm_" +:+ (x +:+ String "_" r) ∧ free_of "_" x = true ∧
    match kd with
    | KAPIKey => String.length x = 8
    | KAgentToken => x = "at"
    | KAPIToken => x = "pat"
    | KBootstrapToken => x = "bt"
    end.
Proof.
  destruct kd; simpl.
  - intros (hex & sec & -> & Hh & Hl & _ & _)%parse_key_sound.
    exists hex, sec. split_and!; [done|by apply hex_free_of_underscore|done].
  - intros (hex & sec & -> & _)%parse_tagged_sound. eexists "at", _. by split_and!.
  - intros (hex & sec & -> & _)%parse_tagged_sound. eexists "pat", _. by split_and!.
  - intros (hex & sec & -> & _)%parse_tagged_sound. eexists "bt", _. by split_and!.
Qed.

Lemma parse_kind_unique kd kd' s p p' :
  parse kd s = Some p → parse kd' s = Some p' → kd = kd'.
Proof.
  intros (x & r & -> & Hx & Hk)%parse_second_field
    (x' & r' & He%app_str_inj_l & Hx' & Hk')%parse_second_field.
  apply (f_equal (cut "_")) in He. rewrite !cut_app in He by done. simplify_eq.
  by destruct kd, kd'; simplify_eq.
Qed.

Lemma mint_parses kd buf :
  String.length buf = 36 →
  parse kd (g_Secret (mint (tag_of kd) buf)) = Some (g_Prefix (mint (tag_of kd) buf)).
Proof.
  intros (b1 & b2 & _ & H1 & H2 & Hs1 & Hs2)%split_buf. unfold mint. simpl.
  rewrite Hs1, Hs2, !app_str_assoc.
  assert (Hh := hex_encode_lower b1). assert (Hl := length_hex_encode b1).
  rewrite H1 in Hl. apply b64_nonempty in H2.
  destruct kd; simpl; [by apply parse_key_shape|..].
  - by apply (parse_tagged_shape "at").
  - by apply (parse_tagged_shape "pat").
  - by apply (parse_tagged_shape "bt").
Qed.

(** ** Theorems *)

(** A freshly generated credential of any of the four kinds is recognised
    by the parser of its own kind, which returns exactly the stored lookup
    prefix, and by no other parser; the stored hash is the SHA-256 of the
    secret. *)
Theorem generated_credential_parses (ENV : Env) (kd : kind) w k w' :
  generate kd w = (inl k, w') →
  (∀ kd', parse kd' (g_Secret k) = if decide (kd' = kd) then Some (g_Prefix k) else None) ∧
  g_Hash k = HashAPIKey (g_Secret k).
Proof.
  intros (buf & Hb & ->)%generate_inl. split; [|done]. intros kd'.
  pose proof (mint_parses kd buf Hb) as Hp. destruct (decide (kd' = kd)) as [->|Hne]; [done|].
  destruct (parse kd' _) eqn:E; [|done]. destruct Hne. by eapply parse_kind_unique.
Qed.

Definition sample_key : GeneratedKey :=
  match (@generate quiet_env KBootstrapToken world_init).1 with
  | inl k => k
  | inr _ => {| g_Secret := ""; g_Prefix := ""; g_Hash := "" |}
  end.

Lemma generated_credential_parses_witness :
  ParseBootstrapTokenPrefix (g_Secret sample_key) = Some "otm_bt_000b1621" ∧
  ParseKeyPrefix (g_Secret sample_key) = None.
Proof.
  assert (Hg : ∀ kd', parse kd' (g_Secret sample_key) =
    if decide (kd' = KBootstrapToken) then Some (g_Prefix sample_key) else None).
  { refine (proj1 (generated_credential_parses quiet_env KBootstrapToken world_init
                     sample_key _ _)). vm_compute. reflexivity. }
  split; [exact (Hg KBootstrapToken)|exact (Hg KAPIKey)].
Defined.

(** Two credentials of one kind with the same secret were made from the
    same 36 random bytes: the encoding loses no entropy. *)
Theorem mint_injective (kd : kind) (b b' : string) :
  String.length b = 36 → String.length b' = 36 →
  g_Secret (mint (tag_of kd) b) = g_Secret (mint (tag_of kd) b') → b = b'.
Proof.
  intros (b1 & b2 & -> & H1 & H2 & Hs1 & Hs2)%split_buf
    (b1' & b2' & -> & H1' & H2' & Hs1' & Hs2')%split_buf.
  unfold mint. simpl. rewrite Hs1, Hs2, Hs1', Hs2', !app_str_assoc.
  intros [Hh Hr]%app_str_inj_l%app_str_inj_length; [|by rewrite !length_hex_encode, H1, H1'].
  apply hex_encode_inj in Hh as ->. apply app_str_inj_l, b64_encode_inj in Hr as ->; [done|lia].
Qed.

Definition zeros36 : string := String.string_of_list_ascii (repeat "000"%char 36).

Lemma mint_injective_witness : zeros36 = zeros36.
Proof. apply (mint_injective KAPIKey); vm_compute; reflexivity. Defined.

(** ** Roles (internal/authz/authz.go) *)

Definition RoleViewer : string := "viewer".
Definition RoleOperator : string := "operator".
Definition RoleAdmin : string := "admin".

(** The [level] map; a missing key reads as 0. *)
Definition level (role : string) : Z :=
  if bool_decide (role = RoleViewer) then 1
  else if bool_decide (role = RoleOperator) then 2
  else if bool_decide (role = RoleAdmin) then 3
  else 0.

Definition Known (role : string) : bool := negb (level role =? 0)%Z.

Definition AtLeast (role min : string) : bool :=
  negb (level role =? 0)%Z && negb (level min =? 0)%Z && (level min <=? level role)%Z.

Definition CanMutate (role : string) : bool := AtLeast role RoleOperator.

(** The roles that may mutate are exactly these two. *)
Lemma CanMutate_iff role : CanMutate role = true ↔ role = RoleOperator ∨ role = RoleAdmin.
Proof.
  unfold CanMutate, AtLeast, level. split.
  - repeat case_bool_decide; subst; auto; done.
  - by intros [->| ->].
Qed.

Lemma AtLeast_admin role : AtLeast role RoleAdmin = true ↔ role = RoleAdmin.
Proof.
  unfold AtLeast, level. split; [|by intros ->].
  repeat case_bool_decide; subst; auto; done.
Qed.

Lemma AtLeast_trans a b c : AtLeast a b = true → AtLeast b c = true → AtLeast a c = true.
Proof. unfold AtLeast. rewrite !andb_true_iff, !Z.leb_le. intros [[]] [[]]. split_and!; try done. lia. Qed.
