(* ===== verification/Slug.v ===== *)
(** * Slugs (internal/tenants/slug.go)

    Customer and pipeline slugs: which are valid, and how one is derived from
    a name.  The derivation sees the runes of the lower-cased name; what the
    [unicode] tables map non-ASCII runes to is left open. *)
From Stdlib Require Import Ascii.
From S2P Require Import Prelude GoStrings.

Definition slug_alnum (c : N) : bool := is_lower c || is_digit c.
Definition slug_char (c : N) : bool := slug_alnum c || (c =? 45)%N.

(** [^[a-z0-9][a-z0-9-]{1,62}[a-z0-9]$]. *)
Definition ValidSlug (s : string) : bool :=
  match chars s with
  | [] => false
  | a :: l =>
    slug_alnum (code a) &&
    match reverse l with
    | [] => false
    | b :: m =>
      slug_alnum (code b) && forallb (λ c, slug_char (code c)) m
      && (1 <=? length m) && (length m <=? 62)
    end
  end.

(** One iteration of the loop over the runes: the builder and [lastHyphen]. *)
Definition slug_step (st : list ascii * bool) (r : N) : list ascii * bool :=
  let '(b, lastHyphen) := st in
  if slug_alnum r then (b ++ [ascii_of_N r], false)
  else if lastHyphen then (b, lastHyphen)
  else (b ++ ["-"%char], true).

(** The padding loop: at most three rounds, as each adds a character. *)
Fixpoint slug_pad (fuel : nat) (s : string) : string :=
  match fuel with
  | O => s
  | S fuel' =>
    if (String.length s <? 3) then
      if bool_decide (s = "") then "customer" else slug_pad fuel' (s +:+ "0")
    else s
  end.

Definition DeriveSlug (unicode_lower : N → N) (name : string) : string :=
  let b := (fold_left slug_step (runes (ToLower unicode_lower name)) ([], true)).1 in
  let s := Trim (String.string_of_list_ascii b) "-" in
  let s := if (64 <? String.length s) then Trim (slice_to 64 s) "-" else s in
  slug_pad 3 s.

(** ** Trimming *)

Lemma drop_while_suffix {A} (p : A → bool) l : ∃ l1, l = l1 ++ drop_while p l.
Proof.
  induction l as [|x l [l1 IH]]; simpl; [by exists []|].
  destruct (p x); [|by exists []]. exists (x :: l1). simpl. by rewrite <- IH.
Qed.

Lemma drop_while_head {A} (p : A → bool) l x :
  head (drop_while p l) = Some x → p x = false.
Proof.
  induction l as [|y l IH]; simpl; [done|]. destruct (p y) eqn:E; [done|].
  by intros [= ->].
Qed.

Lemma last_app_nonempty {A} (l l2 : list A) : l2 ≠ [] → last (l ++ l2) = last l2.
Proof.
  intros H. rewrite last_app. destruct (last l2) eqn:E; [done|].
  by apply last_None in E.
Qed.

Lemma trim_by_spec {A} (p : A → bool) l :
  (∃ l1 l2, l = l1 ++ trim_by p l ++ l2) ∧
  (∀ x, head (trim_by p l) = Some x → p x = false) ∧
  (∀ x, last (trim_by p l) = Some x → p x = false).
Proof.
  unfold trim_by. set (d := drop_while p l).
  destruct (drop_while_suffix p l) as [l1 Hl1].
  destruct (drop_while_suffix p (reverse d)) as [l2 Hl2].
  assert (Hd : d = reverse (drop_while p (reverse d)) ++ reverse l2).
  { rewrite <- reverse_app, <- Hl2. by rewrite reverse_involutive. }
  split_and!.
  - exists l1, (reverse l2). by rewrite <- Hd.
  - intros x Hx. apply (drop_while_head p l). fold d. rewrite Hd.
    destruct (reverse (drop_while p (reverse d))); [done|]. done.
  - intros x. rewrite last_reverse. apply drop_while_head.
Qed.

(** ** Derived slugs are valid *)

Definition slug_chars (l : list ascii) : Prop := Forall (λ a, slug_char (code a) = true) l.

Lemma slug_step_chars st r : slug_chars st.1 → slug_chars (slug_step st r).1.
Proof.
  destruct st as [b h]. simpl. intros Hb. destruct (slug_alnum r) eqn:E; simpl.
  - apply Forall_app. split; [done|]. apply Forall_singleton.
    unfold slug_char. rewrite N_ascii_embedding; [by rewrite E|].
    unfold slug_alnum, is_lower, is_digit, in_range in E.
    rewrite orb_true_iff, !andb_true_iff, !N.leb_le in E. lia.
  - destruct h; simpl; [done|]. apply Forall_app. split; [done|]. by apply Forall_singleton.
Qed.

Lemma slug_loop_chars rs st : slug_chars st.1 → slug_chars (fold_left slug_step rs st).1.
Proof.
  revert st; induction rs as [|r rs IH]; intros st H; simpl; [done|].
  by apply IH, slug_step_chars.
Qed.

(** A trimmed slug text: allowed characters, no hyphen at either end. *)
Record trimmed (s : string) : Prop := {
  tr_chars : slug_chars (chars s);
  tr_head : ∀ a, head (chars s) = Some a → slug_alnum (code a) = true;
  tr_last : ∀ a, last (chars s) = Some a → slug_alnum (code a) = true;
}.

Lemma slug_char_not_hyphen a :
  slug_char (code a) = true → bool_decide (a = "-"%char) = false → slug_alnum (code a) = true.
Proof.
  unfold slug_char. rewrite orb_true_iff, N.eqb_eq, bool_decide_eq_false.
  intros [?|H] Hn; [done|]. destruct Hn. by apply code_inj.
Qed.

Lemma trimmed_Trim (s : string) : slug_chars (chars s) → trimmed (Trim s "-").
Proof.
  intros Hs. unfold Trim.
  destruct (trim_by_spec (λ a, bool_decide (a = "-"%char)) (chars s))
    as ((l1 & l2 & Hl) & Hh & Hla).
  assert (Hc : slug_chars (trim_by (λ a, bool_decide (a = "-"%char)) (chars s))).
  { unfold slug_chars in Hs. rewrite Hl in Hs.
    apply Forall_app in Hs as [_ Hs]. by apply Forall_app in Hs as [Hs _]. }
  constructor; rewrite chars_of_list; [done|..].
  - intros a Ha. apply slug_char_not_hyphen; [|by apply Hh].
    unfold slug_chars in Hc. rewrite Forall_forall in Hc. apply Hc. by apply head_Some_elem_of.
  - intros a Ha. apply slug_char_not_hyphen; [|by apply Hla].
    unfold slug_chars in Hc. rewrite Forall_forall in Hc. apply Hc. by apply last_Some_elem_of.
Qed.

Lemma length_Trim (s : string) a : String.length (Trim s a) ≤ String.length s.
Proof.
  unfold Trim. rewrite <- !length_chars, chars_of_list.
  destruct (trim_by_spec (λ b, bool_decide (b = a)) (chars s)) as ((l1 & l2 & Hl) & _).
  rewrite Hl at 2. rewrite !length_app. lia.
Qed.

Lemma chars_slice n (s : string) : chars (slice_to n s) = take n (chars s).
Proof.
  unfold slice_to. revert n; induction s as [|a s IH]; intros [|n]; simpl; try done.
  by rewrite IH.
Qed.

Lemma trimmed_snoc s : trimmed s → s ≠ "" → trimmed (s +:+ "0").
Proof.
  intros [Hc Hh Hl] Hne. assert (chars s ≠ []) by (by destruct s).
  constructor; rewrite chars_app.
  - apply Forall_app. split; [done|]. by apply Forall_singleton.
  - intros a. destruct (chars s) eqn:E; [done|]. simpl in *. eauto.
  - intros a. rewrite last_app_nonempty by done. by intros [= <-].
Qed.

Lemma trimmed_ValidSlug s :
  trimmed s → 3 ≤ String.length s ≤ 64 → ValidSlug s = true.
Proof.
  intros [Hc Hh Hl] Hlen. unfold ValidSlug. rewrite <- length_chars in Hlen.
  destruct (chars s) as [|a l]; [simpl in Hlen; lia|]. rewrite (Hh a eq_refl). simpl in *.
  destruct (reverse l) as [|b m] eqn:E.
  { apply (f_equal length) in E. rewrite length_reverse in E. simpl in E. lia. }
  assert (Hm : l = reverse m ++ [b]).
  { rewrite <- (reverse_involutive l), E. by rewrite reverse_cons. }
  subst l. rewrite (Hl b) by by rewrite last_cons, last_snoc.
  apply Forall_cons in Hc as [_ [Hc _]%Forall_app].
  assert (Hf : forallb (λ c, slug_char (code c)) m = true).
  { apply forallb_forall. intros c Hin%list_elem_of_In%elem_of_reverse.
    rewrite Forall_forall in Hc. auto. }
  rewrite Hf. rewrite length_app, length_reverse in Hlen. simpl in Hlen.
  rewrite !andb_true_iff, !Nat.leb_le. split_and!; try done; [|lia]. destruct m; [simpl in Hlen; lia|done].
Qed.

Lemma slug_pad_valid s :
  trimmed s → String.length s ≤ 64 → ValidSlug (slug_pad 3 s) = true.
Proof.
  intros Ht Hl.
  assert (Hpad : ∀ n s, trimmed s → String.length s ≤ 64 → 3 ≤ n + String.length s ∨ s = "" →
    n ≠ 0 → ValidSlug (slug_pad n s) = true); [|apply Hpad; auto; lia].
  clear. induction n as [|n IH]; intros s Ht Hl Hn H0; [done|]. cbn [slug_pad].
  destruct (String.length s <? 3) eqn:E.
  - apply Nat.ltb_lt in E. case_bool_decide as He; [by vm_compute|].
    destruct Hn as [Hn|]; [|done]. pose proof (trimmed_snoc s Ht He) as Ht'.
    assert (Hl' : String.length (s +:+ "0") = S (String.length s))
      by (rewrite length_app_str; simpl; lia).
    destruct n as [|n]; [|apply IH; [done|lia|lia|done]].
    cbn [slug_pad]. apply trimmed_ValidSlug; [done|lia].
  - apply Nat.ltb_ge in E. apply trimmed_ValidSlug; [done|lia].
Qed.

(** The slug derived from any name, truncated and padded, is valid. *)
Lemma derived_slug_valid (unicode_lower : N → N) (name : string) :
  ValidSlug (DeriveSlug unicode_lower name) = true.
Proof.
  unfold DeriveSlug. set (b := (fold_left slug_step _ _).1).
  assert (Hb : slug_chars b) by (apply slug_loop_chars; constructor).
  set (s := Trim (String.string_of_list_ascii b) "-").
  assert (Hs : trimmed s) by (apply trimmed_Trim; by rewrite chars_of_list).
  cbv zeta. destruct (64 <? String.length s) eqn:E.
  - apply slug_pad_valid.
    + apply trimmed_Trim. rewrite chars_slice. by apply Forall_take, tr_chars.
    + etrans; [apply length_Trim|]. rewrite <- length_chars, chars_slice, length_take. lia.
  - apply slug_pad_valid; [done|]. by apply Nat.ltb_ge in E.
Qed.

(** ** Theorems *)

(** [DeriveSlug] returns a valid slug for every name, whatever its bytes
    (invalid UTF-8 included) and whatever the case tables say about non-ASCII
    runes. *)
Theorem DeriveSlug_valid (unicode_lower : N → N) (name : string) :
  ValidSlug (DeriveSlug unicode_lower name) = true.
Proof. apply derived_slug_valid. Qed.

Example DeriveSlug_example :
  DeriveSlug (λ r, r) "  Acme & Sons (EU)! " = "acme-sons-eu" ∧
  DeriveSlug (λ r, r) "??" = "customer" ∧ DeriveSlug (λ r, r) "A" = "a00".
Proof. vm_compute. auto. Qed.

