(* ===== verification/Tenants.v ===== *)
(** * Tenant management (internal/tenants/service.go, bootstrap.go, apitoken.go)

    The service on top of the store: it validates names and slugs, mints
    identifiers and credentials, and hands the store the change together with
    its audit entries. *)
From Stdlib Require Import Ascii.
From S2P Require Import Prelude GoStrings Sha256 Store World Tokens PgCore PgUsers PgFleet PgPipelines PgMisc Slug.

Record CreatedCustomer := {
  cc_Customer : Customer;
  cc_Key : APIKey;
  cc_Secret : string;
}.

Record CreatedKey := {
  ck_Key : APIKey;
  ck_Secret : string;
}.

Record CreatedBootstrapToken := {
  cbt_Token : BootstrapToken;
  cbt_Secret : string;
}.

Record CreatedAPIToken := {
  cat_Token : APIToken;
  cat_Secret : string;
}.

Definition defaultBootstrapTokenTTL : Z := 30 * 24 * 3600 * 1000000000.

(** An audit entry by the acting user. *)
Definition entry (actor : option uuid) (action entityType : string) (entityID : uuid)
    (customer : option uuid) (payload : option json) : Entry := {|
  e_ActorUserID := actor; e_ActorType := ""; e_Action := action;
  e_EntityType := entityType; e_EntityID := uuid_String entityID;
  e_CustomerID := customer; e_Payload := payload |}.

(** [name = strings.TrimSpace(name)]; empty or longer than 200 bytes is refused. *)
Definition name_ok (name : string) : bool :=
  negb (bool_decide (name = "")) && (String.length name <=? 200).

(** Optional members of a JSON payload. *)
Definition opt_member {A} (k : string) (f : A → json) (o : option A) : list (string * json) :=
  match o with Some a => [(k, f a)] | None => [] end.

Definition json_opt_int (o : option Z) : json :=
  match o with Some n => JNum (Itoa n) | None => JNull end.

Module Tenants.
Section Tenants.
Context {ENV : Env}.

Definition NewClientID : Op string :=
  b ← wrapErr "generate client id" (rand_Read 4);
  mret ("cust_" +:+ hex_encode b).

(** The retry loop of [CreateCustomer]: [attempt] counts from 1, [fuel] is what
    is left of [maxAttempts]. *)
Fixpoint create_loop (actor : option uuid) (name baseSlug : string) (derived : bool)
    (fuel : nat) (attempt : Z) (trySlug : string) : Op CreatedCustomer :=
  match fuel with
  | O => mthrow (Wrap ("could not find a free slug for " +:+ baseSlug) ErrSlugExists)
  | S fuel' =>
    clientID ← NewClientID;
    key ← GenerateAPIKey;
    customerID ← uuid_New;
    keyID ← uuid_New;
    let newCustomer := {| nc_ID := customerID; nc_Slug := trySlug; nc_Name := name;
                          nc_ClientID := clientID |} in
    let newKey := {| nk_ID := keyID; nk_CustomerID := customerID; nk_Name := "default";
                     nk_KeyPrefix := g_Prefix key; nk_KeyHash := g_Hash key;
                     nk_CreatedBy := actor; nk_ExpiresAt := None |} in
    let entries :=
      [entry actor "customer.create" "customer" customerID (Some customerID)
         (Some (JObj [("name", JStr name); ("slug", JStr trySlug); ("client_id", JStr clientID)]));
       entry actor "apikey.create" "api_key" keyID (Some customerID)
         (Some (JObj [("name", JStr "default"); ("key_prefix", JStr (g_Prefix key))]))] in
    r ← mtry (PgCore.CreateCustomer newCustomer newKey entries);
    match r with
    | inl (cust, apiKey) =>
      mret {| cc_Customer := cust; cc_Key := apiKey; cc_Secret := g_Secret key |}
    | inr err =>
      if Is err ErrSlugExists && derived
      then create_loop actor name baseSlug derived fuel' (attempt + 1)
             (baseSlug +:+ "-" +:+ Itoa (attempt + 1))
      else if Is err ErrConflict
      then create_loop actor name baseSlug derived fuel' (attempt + 1) trySlug
      else mthrow err
    end
  end.

Definition maxAttempts : nat := 10.

Definition CreateCustomer (actor : option uuid) (name : string) (slug : option string)
    : Op CreatedCustomer :=
  let name := TrimSpace name in
  if negb (name_ok name) then mthrow ErrInvalidName
  else
    match slug with
    | None =>
      let baseSlug := DeriveSlug unicode_lower name in
      create_loop actor name baseSlug true maxAttempts 1 baseSlug
    | Some baseSlug =>
      if negb (ValidSlug baseSlug) then mthrow ErrInvalidSlug
      else create_loop actor name baseSlug false maxAttempts 1 baseSlug
    end.

Definition UpdateCustomer (actor : option uuid) (id : uuid) (upd : CustomerUpdate)
    : Op Customer :=
  let trimmed := TrimSpace <$> cu_Name upd in
  if match trimmed with Some n => negb (name_ok n) | None => false end
  then mthrow ErrInvalidName
  else
    let upd := {| cu_Name := trimmed; cu_Status := cu_Status upd;
                  cu_RateLimitItemsPerSec := cu_RateLimitItemsPerSec upd;
                  cu_RetentionDays := cu_RetentionDays upd |} in
    let payload :=
      opt_member "name" JStr (cu_Name upd) ++ opt_member "status" JStr (cu_Status upd)
      ++ (if oi_Set (cu_RateLimitItemsPerSec upd)
          then [("rate_limit_items_per_sec", json_opt_int (oi_Value (cu_RateLimitItemsPerSec upd)))]
          else [])
      ++ (if oi_Set (cu_RetentionDays upd)
          then [("retention_days", json_opt_int (oi_Value (cu_RetentionDays upd)))] else []) in
    PgCore.UpdateCustomer id upd
      [entry actor "customer.update" "customer" id (Some id) (Some (JObj payload))].

Definition DeleteCustomer (actor : option uuid) (id : uuid) : Op unit :=
  SoftDeleteCustomer id [entry actor "customer.delete" "customer" id (Some id) None].

Definition CreateAPIKey (actor : option uuid) (customerID : uuid) (name : string)
    (expiresAt : option time) : Op CreatedKey :=
  let name := TrimSpace name in
  if negb (name_ok name) then mthrow ErrInvalidName
  else
    key ← GenerateAPIKey;
    keyID ← uuid_New;
    stored ← PgCore.CreateAPIKey
      {| nk_ID := keyID; nk_CustomerID := customerID; nk_Name := name;
         nk_KeyPrefix := g_Prefix key; nk_KeyHash := g_Hash key; nk_CreatedBy := actor;
         nk_ExpiresAt := expiresAt |}
      [entry actor "apikey.create" "api_key" keyID (Some customerID)
         (Some (JObj [("name", JStr name); ("key_prefix", JStr (g_Prefix key))]))];
    mret {| ck_Key := stored; ck_Secret := g_Secret key |}.

Definition RevokeAPIKey (actor : option uuid) (customerID keyID : uuid) : Op unit :=
  PgCore.RevokeAPIKey customerID keyID
    [entry actor "apikey.revoke" "api_key" keyID (Some customerID) None].

Definition CreateBootstrapToken (actor : option uuid) (customerID : uuid) (name : string)
    (expiresAt : option time) (maxUses : Z) : Op CreatedBootstrapToken :=
  let name := TrimSpace name in
  if negb (name_ok name) then mthrow ErrInvalidName
  else
    let maxUses := if (maxUses <? 0)%Z then 0%Z else maxUses in
    tok ← GenerateBootstrapToken;
    now ← time_Now;
    let expiry := match expiresAt with
                  | Some t => t
                  | None => (now + defaultBootstrapTokenTTL)%Z
                  end in
    id ← uuid_New;
    stored ← PgFleet.CreateBootstrapToken
      {| nbt_ID := id; nbt_CustomerID := customerID; nbt_Name := name;
         nbt_TokenPrefix := g_Prefix tok; nbt_TokenHash := g_Hash tok;
         nbt_MaxUses := maxUses; nbt_CreatedBy := actor; nbt_ExpiresAt := expiry |}
      [entry actor "bootstraptoken.create" "bootstrap_token" id (Some customerID)
         (Some (JObj [("name", JStr name); ("token_prefix", JStr (g_Prefix tok));
                      ("max_uses", JNum (Itoa maxUses))]))];
    mret {| cbt_Token := stored; cbt_Secret := g_Secret tok |}.

Definition RevokeBootstrapToken (actor : option uuid) (customerID tokenID : uuid) : Op unit :=
  PgFleet.RevokeBootstrapToken customerID tokenID
    [entry actor "bootstraptoken.revoke" "bootstrap_token" tokenID (Some customerID) None].

Definition CreateAPIToken (actor : option uuid) (name role : string)
    (expiresAt : option time) : Op CreatedAPIToken :=
  let name := TrimSpace name in
  if negb (name_ok name) then mthrow ErrInvalidName
  else if negb (Known role) then mthrow (Wrap ("unknown role " +:+ role) ErrInvalidName)
  else
    tok ← GenerateAPIToken;
    id ← uuid_New;
    stored ← PgMisc.CreateAPIToken
      {| nt_ID := id; nt_Name := name; nt_TokenPrefix := g_Prefix tok;
         nt_TokenHash := g_Hash tok; nt_Role := role; nt_CreatedBy := actor;
         nt_ExpiresAt := expiresAt |}
      [entry actor "apitoken.create" "api_token" id None
         (Some (JObj [("name", JStr name); ("role", JStr role);
                      ("token_prefix", JStr (g_Prefix tok))]))];
    mret {| cat_Token := stored; cat_Secret := g_Secret tok |}.

Definition RevokeAPIToken (actor : option uuid) (tokenID : uuid) : Op unit :=
  PgMisc.RevokeAPIToken tokenID
    [entry actor "apitoken.revoke" "api_token" tokenID None None].

End Tenants.
End Tenants.
