(* ===== verification/IngestAuth.v ===== *)
(** * Ingest-key validation (internal/ingestauth/service.go)

    The gRPC service the gateways call.  It is written against the two store
    methods it needs, the interface [KeyStore]; the PostgreSQL store is one
    instance ([pg_key_store]).  Usage timestamps are collected in memory and
    flushed to the store. *)
From S2P Require Import Prelude GoStrings Sha256 Store World Tokens PgCore PgUsers PgFleet PgPipelines PgMisc Slug StoreCalls StoreInv StoreProps Tenants.

(** [ingestauth.Store], plus the clock the service reads. *)
Class KeyStore (T : Type) := {
  ks_ActiveKeysByPrefix : string → M T error (list AuthKey);
  ks_TouchAPIKeys : gmap uuid time → M T error unit;
  ks_Now : M T error time;
}.

#[export] Instance pg_key_store `{Env} : KeyStore world := {|
  ks_ActiveKeysByPrefix := ActiveKeysByPrefix;
  ks_TouchAPIKeys := TouchAPIKeys;
  ks_Now := time_Now;
|}.

Module IngestAuth.

Definition outcomeOK : string := "ok".
Definition outcomeMalformed : string := "malformed".
Definition outcomeInvalid : string := "invalid".
Definition outcomeExpired : string := "expired".
Definition outcomeCustomerInactive : string := "customer_inactive".
Definition outcomeError : string := "error".

Definition cacheTTLSeconds : Z := 30.

(** [authv1.ValidateAPIKeyResponse]. *)
Record Response := {
  Valid : bool;
  CustomerId : string;
  ClientId : string;
  CacheTtlSeconds : Z;
  RateLimitItemsPerSec : Z;
}.

Definition invalid_response : Response := {|
  Valid := false; CustomerId := ""; ClientId := ""; CacheTtlSeconds := 0;
  RateLimitItemsPerSec := 0 |}.

(** The service: pending usage timestamps, the request counter by outcome, and
    the store behind it. *)
Record Service (T : Type) := {
  sv_pending : gmap uuid time;
  sv_requests : gmap string nat;
  sv_store : T;
}.
Arguments sv_pending {T}.
Arguments sv_requests {T}.
Arguments sv_store {T}.

#[export] Instance eta_Service {T} : Eta (Service T) :=
  λ r, Build_Service T (sv_pending r) (sv_requests r) (sv_store r).

Section Service.
Context {T : Type} `{!KeyStore T}.

Definition New (st : T) : Service T :=
  {| sv_pending := ∅; sv_requests := ∅; sv_store := st |}.

Definition inc (outcome : string) : M (Service T) error unit :=
  mmodify (λ s, s <| sv_requests ::= partial_alter (λ n, Some (S (default 0 n))) outcome |>).

(** A call into the store. *)
Definition call_store {A} (m : M T error A) : M (Service T) error A := λ s,
  let '(r, t) := m (sv_store s) in (r, s <| sv_store := t |>).

Definition record_usage (pending : gmap uuid time) (keyID : uuid) (ts : time)
    : gmap uuid time :=
  match pending !! keyID with
  | Some prev => if (prev <? ts)%Z then <[keyID := ts]> pending else pending
  | None => <[keyID := ts]> pending
  end.

Definition recordUsage (keyID : uuid) (ts : time) : M (Service T) error unit :=
  mmodify (λ s, s <| sv_pending ::= λ p, record_usage p keyID ts |>).

(** The loop over the candidate keys: the first whose hash matches. *)
Definition find_match (hash : string) (keys : list AuthKey) : option AuthKey :=
  head (filter (λ k, ak_KeyHash k = hash) keys).

Definition uint32 (z : Z) : Z := (z `mod` 2 ^ 32)%Z.

Definition ValidateAPIKey (apiKey : string) : M (Service T) error Response :=
  match ParseKeyPrefix apiKey with
  | None => inc outcomeMalformed;; mret invalid_response
  | Some prefix =>
    r ← mtry (call_store (ks_ActiveKeysByPrefix prefix));
    match r with
    | inr _ => inc outcomeError;; mthrow (ErrNew "key lookup failed")
    | inl keys =>
      match find_match (HashAPIKey apiKey) keys with
      | None => inc outcomeInvalid;; mret invalid_response
      | Some match_ =>
        expired ← match ak_ExpiresAt match_ with
                  | Some t => now ← call_store ks_Now; mret (negb (now <? t)%Z)
                  | None => mret false
                  end;
        if expired : bool then inc outcomeExpired;; mret invalid_response
        else if negb (bool_decide (ak_CustomerStatus match_ = CustomerActive))
        then inc outcomeCustomerInactive;; mret invalid_response
        else
          now ← call_store ks_Now;
          recordUsage (ak_KeyID match_) now;;
          inc outcomeOK;;
          mret {| Valid := true; CustomerId := uuid_String (ak_CustomerID match_);
                  ClientId := ak_ClientID match_; CacheTtlSeconds := cacheTTLSeconds;
                  RateLimitItemsPerSec := uint32 (ak_RateLimitItemsPerSec match_) |}
      end
    end
  end.

(** The batch is taken before the write, so a failed write drops it. *)
Definition Flush : M (Service T) error unit :=
  batch ← mgets sv_pending;
  mmodify (λ s, s <| sv_pending := ∅ |>);;
  if bool_decide (batch = ∅) then mret tt
  else mtry (call_store (ks_TouchAPIKeys batch));; mret tt.

End Service.

(** ** Verdicts *)

Section Verdicts.
Context {ENV : Env}.

Abbreviation IS := (Service world).

Lemma call_store_inl {A} (m : Op A) (s : IS) a s' :
  call_store m s = (inl a, s') →
  m (sv_store s) = (inl a, sv_store s') ∧ sv_pending s' = sv_pending s.
Proof. unfold call_store. destruct (m (sv_store s)) as [[?|?] ?]; by intros [= -> <-]. Qed.

Lemma find_match_Some h keys k :
  find_match h keys = Some k → k ∈ keys ∧ ak_KeyHash k = h.
Proof.
  unfold find_match. intros Hk%head_Some_elem_of. apply list_elem_of_filter in Hk. tauto.
Qed.

(** A key the store would accept: present, not revoked, of this prefix. *)
Record active_key (d : db) (apiKey : string) (key : APIKey) (c : Customer) : Prop := {
  ak_row : ∃ id, api_keys d !! id = Some key;
  ak_owner : customers d !! k_CustomerID key = Some c;
  ak_live : k_RevokedAt key = None;
  ak_hash : k_KeyHash key = HashAPIKey apiKey;
  ak_prefix : ParseKeyPrefix apiKey = Some (k_KeyPrefix key);
}.

(** What [ActiveKeysByPrefix] hands the service. *)
Definition auth_key_of (key : APIKey) (c : Customer) : AuthKey := {|
  ak_KeyID := k_ID key; ak_CustomerID := k_CustomerID key; ak_ClientID := c_ClientID c;
  ak_KeyHash := k_KeyHash key; ak_CustomerStatus := c_Status c;
  ak_ExpiresAt := k_ExpiresAt key;
  ak_RateLimitItemsPerSec := default 0%Z (c_RateLimitItemsPerSec c) |}.

Lemma elem_of_ActiveKeys prefix w keys w' a :
  ActiveKeysByPrefix prefix w = (inl keys, w') →
  a ∈ keys ↔ ∃ id key c, api_keys (w_db w) !! id = Some key ∧
    customers (w_db w) !! k_CustomerID key = Some c ∧ k_KeyPrefix key = prefix ∧
    k_RevokedAt key = None ∧ a = auth_key_of key c.
Proof.
  intros [-> _]%query_inl. rewrite list_elem_of_omap. split.
  - intros (key & [id Hid]%elem_of_rows & Ha).
    destruct (bool_decide _ && _) eqn:E; [|done].
    apply andb_true_iff in E as [E1%bool_decide_eq_true_1 E2].
    apply bind_Some in Ha as (c & Hc & [= <-]). exists id, key, c. split_and!; try done.
    unfold is_none, is_some in E2. by destruct (k_RevokedAt key).
  - intros (id & key & c & Hid & Hc & <- & Hr & ->). exists key.
    split; [by apply elem_of_rows; eauto|]. by rewrite bool_decide_true, Hr, Hc.
Qed.

(** Time is read, the store's tables are not touched. *)
Lemma now_inl (s : IS) a s' :
  call_store time_Now s = (inl a, s') → w_db (sv_store s') = w_db (sv_store s) ∧
    sv_pending s' = sv_pending s ∧ a = clock (w_tick (sv_store s)).
Proof. intros [Hn Hp]%call_store_inl. by injection Hn as <- <-. Qed.

(** The verdict on an accepted key, step by step. *)
Lemma ValidateAPIKey_accepts apiKey (s : IS) resp s' :
  ValidateAPIKey apiKey s = (inl resp, s') → Valid resp = true →
  ∃ key c now, active_key (w_db (sv_store s)) apiKey key c ∧
    c_Status c = CustomerActive ∧
    (∀ t, k_ExpiresAt key = Some t → ∃ n, clock n < t)%Z ∧
    resp = {| Valid := true; CustomerId := uuid_String (k_CustomerID key);
              ClientId := c_ClientID c; CacheTtlSeconds := cacheTTLSeconds;
              RateLimitItemsPerSec := uint32 (default 0%Z (c_RateLimitItemsPerSec c)) |} ∧
    sv_pending s' = record_usage (sv_pending s) (k_ID key) now ∧
    w_db (sv_store s') = w_db (sv_store s).
Proof.
  unfold ValidateAPIKey. destruct (ParseKeyPrefix apiKey) as [prefix|] eqn:Hpre.
  2: { intros (? & ? & _ & [<- _]%ret_inl)%bind_inl. done. }
  intros (r & s1 & Hq%mtry_inl & H)%bind_inl Hv.
  destruct r as [keys|e]; [|by apply bind_inl in H as (? & ? & _ & ?)].
  apply call_store_inl in Hq as [Hq Hp1].
  destruct (find_match _ keys) as [m|] eqn:Hm.
  2: { apply bind_inl in H as (? & ? & _ & [<- _]%ret_inl). done. }
  apply find_match_Some in Hm as [Hin Hhash].
  apply (elem_of_ActiveKeys _ _ _ _ _ Hq) in Hin
    as (id & key & c & Hid & Hc & Hpk & Hr & ->).
  apply query_inl in Hq as [_ Hs1].
  apply bind_inl in H as (expired & s2 & He & H).
  assert (Hexp : w_db (sv_store s2) = w_db (sv_store s1) ∧ sv_pending s2 = sv_pending s1 ∧
    (expired = false → ∀ t, k_ExpiresAt key = Some t → ∃ n, (clock n < t)%Z)).
  { simpl in He. destruct (k_ExpiresAt key) as [t|].
    - apply bind_inl in He as (now & s3 & (Hd & Hpe & Hnow)%now_inl & [<- <-]%ret_inl).
      split_and!; [done|done|]. intros Hb%negb_false_iff%Z.ltb_lt t' [= <-].
      eexists. by rewrite <- Hnow.
    - apply ret_inl in He as [<- <-]. done. }
  destruct Hexp as (Hd2 & Hp2 & Hexp).
  destruct expired.
  { apply bind_inl in H as (? & ? & _ & [<- _]%ret_inl). done. }
  destruct (negb _) eqn:Hst.
  { apply bind_inl in H as (? & ? & _ & [<- _]%ret_inl). done. }
  apply negb_false_iff, bool_decide_eq_true_1 in Hst.
  apply bind_inl in H as (now & s3 & (Hd3 & Hp3 & _)%now_inl & H).
  apply bind_inl in H as (? & s4 & ->%mmodify_inl & H).
  apply bind_inl in H as (? & s5 & ->%mmodify_inl & [<- <-]%ret_inl). simpl in *.
  exists key, c, now. split_and!; try done; [|by apply Hexp|congruence|].
  - constructor; try done; [by exists id|congruence].
  - rewrite Hd3, Hd2, Hs1. done.
Qed.

(** A stored live key is found as long as no key of another customer shares
    its hash, and then the verdict is positive. *)
Lemma ValidateAPIKey_complete apiKey (s : IS) key c :
  active_key (w_db (sv_store s)) apiKey key c →
  c_Status c = CustomerActive → k_ExpiresAt key = None →
  (∀ id key', api_keys (w_db (sv_store s)) !! id = Some key' →
     k_KeyHash key' = k_KeyHash key →
     k_CustomerID key' = k_CustomerID key ∧ k_ExpiresAt key' = None) →
  fault (w_tick (sv_store s)) || w_aborted (sv_store s) = false →
  ∃ s', ValidateAPIKey apiKey s =
    (inl {| Valid := true; CustomerId := uuid_String (k_CustomerID key);
            ClientId := c_ClientID c; CacheTtlSeconds := cacheTTLSeconds;
            RateLimitItemsPerSec := uint32 (default 0%Z (c_RateLimitItemsPerSec c)) |}, s').
Proof.
  intros [[id Hid] Hc Hlive Hhash Hpre] Hst Hexp Huniq Hf. unfold ValidateAPIKey. rewrite Hpre.
  destruct (ActiveKeysByPrefix (k_KeyPrefix key) (sv_store s)) as [r w1] eqn:Hq.
  assert (∃ keys, r = inl keys) as [keys ->].
  { unfold ActiveKeysByPrefix, query, stmt in Hq. rewrite Hf in Hq. injection Hq as <- _. eauto. }
  assert (Hin : auth_key_of key c ∈ keys).
  { apply (elem_of_ActiveKeys _ _ _ _ _ Hq). exists id, key, c. by rewrite Hlive. }
  assert (∃ m, find_match (HashAPIKey apiKey) keys = Some m) as [m Hm].
  { unfold find_match. destruct (filter _ keys) as [|m l] eqn:E; [|by exists m].
    assert (Hin' : auth_key_of key c ∈ filter (λ k, ak_KeyHash k = HashAPIKey apiKey) keys)
      by (by apply list_elem_of_filter). rewrite E in Hin'. by apply elem_of_nil in Hin'. }
  pose proof (find_match_Some _ _ _ Hm) as [Hmin Hmh].
  apply (elem_of_ActiveKeys _ _ _ _ _ Hq) in Hmin
    as (id' & key' & c' & Hid' & Hc' & _ & _ & ->).
  destruct (Huniq id' key' Hid') as [Hcid Hexp']; [simpl in Hmh; congruence|].
  assert (c' = c) as -> by congruence.
  cbn [mbind M_bind mtry]. unfold mbind, M_bind, mtry, call_store. simpl.
  rewrite Hq, Hm. simpl. rewrite Hexp', Hst, bool_decide_true by done. simpl.
  rewrite Hcid. eauto.
Qed.

(** ** Usage timestamps *)

Inductive usage_event := Used (keyID : uuid) (ts : time) | Flushed.

Definition run_usage (e : usage_event) : M IS error unit :=
  match e with Used id ts => recordUsage id ts | Flushed => Flush end.

Definition after_usage (evs : list usage_event) (s : IS) : IS :=
  fold_left (λ s e, (run_usage e s).2) evs s.

(** The column [last_used_at], and what it will be once the pending update is
    written. *)
Definition last_used (s : IS) (id : uuid) : option (option time) :=
  k_LastUsedAt <$> api_keys (w_db (sv_store s)) !! id.

Definition effective (s : IS) (id : uuid) : option (option time) :=
  match sv_pending s !! id with
  | Some ts => (λ t, greatest t ts) <$> last_used s id
  | None => last_used s id
  end.

(** The specification: every use raises the timestamp, flushes do not show. *)
Definition spec_usage (id : uuid) (o : option (option time)) (e : usage_event)
    : option (option time) :=
  match e with
  | Used id' ts => if decide (id' = id) then (λ t, greatest t ts) <$> o else o
  | Flushed => o
  end.

Lemma greatest_greatest t a b : greatest (greatest t a) b = greatest t (Z.max a b).
Proof. unfold greatest. simpl. f_equal. lia. Qed.

Lemma effective_used s id' ts id :
  effective (run_usage (Used id' ts) s).2 id = spec_usage id (effective s id) (Used id' ts).
Proof.
  unfold effective, last_used, record_usage. simpl. unfold record_usage.
  destruct (decide (id' = id)) as [->|Hne].
  - destruct (sv_pending s !! id) as [prev|] eqn:E.
    + destruct (prev <? ts)%Z eqn:El.
      * rewrite lookup_insert_eq. destruct (api_keys _ !! id); simpl; [|done].
        rewrite greatest_greatest. apply Z.ltb_lt in El. by rewrite Z.max_r by lia.
      * rewrite E. destruct (api_keys _ !! id); simpl; [|done].
        rewrite greatest_greatest. apply Z.ltb_ge in El. by rewrite Z.max_l by lia.
    + rewrite lookup_insert_eq. by destruct (api_keys _ !! id).
  - assert (Hl : match sv_pending s !! id' with
      | Some prev => if (prev <? ts)%Z then <[id' := ts]> (sv_pending s) else sv_pending s
      | None => <[id' := ts]> (sv_pending s) end !! id = sv_pending s !! id);
      [|by rewrite Hl].
    destruct (sv_pending s !! id') as [prev|]; [destruct (prev <? ts)%Z|];
      by rewrite ?lookup_insert_ne by done.
Qed.

Lemma Touch_quiet usages w :
  (∀ n, fault n = false) → w_aborted w = false →
  ∃ w', TouchAPIKeys usages w = (inl tt, w') ∧ w_aborted w' = false ∧
    ∀ id, api_keys (w_db w') !! id = (λ k, match usages !! id with
      | Some ts => k <| k_LastUsedAt := greatest (k_LastUsedAt k) ts |>
      | None => k end) <$> api_keys (w_db w) !! id.
Proof.
  intros Hf Ha. unfold TouchAPIKeys. case_bool_decide as He.
  - exists w. split_and!; [done|done|]. intros id. rewrite He, lookup_empty.
    by destruct (api_keys _ !! id).
  - unfold exec, stmt, mbind, M_bind. rewrite Hf, Ha. simpl.
    eexists. split_and!; [done|done|]. intros id. simpl. rewrite map_lookup_imap.
    by destruct (api_keys (w_db w) !! id).
Qed.

Lemma flush_quiet s :
  (∀ n, fault n = false) → w_aborted (sv_store s) = false →
  let s' := (Flush s).2 in
  w_aborted (sv_store s') = false ∧ sv_pending s' = ∅ ∧
  ∀ id, last_used s' id = effective s id.
Proof.
  intros Hf Ha. unfold Flush. unfold mbind, M_bind, mgets, mmodify. simpl.
  case_bool_decide as He; simpl.
  - split_and!; [done|done|]. intros id. unfold effective, last_used. by rewrite He, lookup_empty.
  - destruct (Touch_quiet (sv_pending s) (sv_store s) Hf Ha) as (w' & Hw & Ha' & Hk).
    unfold mtry, call_store. simpl. rewrite Hw. simpl. split_and!; [done|done|].
    intros id. unfold effective, last_used. simpl. rewrite Hk.
    destruct (sv_pending s !! id); by destruct (api_keys (w_db (sv_store s)) !! id).
Qed.

Lemma after_usage_spec evs s id :
  (∀ n, fault n = false) → w_aborted (sv_store s) = false →
  w_aborted (sv_store (after_usage evs s)) = false ∧
  effective (after_usage evs s) id = fold_left (spec_usage id) evs (effective s id).
Proof.
  intros Hf. revert s; induction evs as [|e evs IH]; intros s Ha; [done|].
  cbn [after_usage fold_left]. destruct e as [id' ts|].
  - rewrite <- effective_used. by apply IH.
  - destruct (flush_quiet s Hf Ha) as (Ha' & Hp & Hl). simpl.
    destruct (IH (Flush s).2 Ha') as [IH1 IH2]. split; [done|].
    unfold after_usage in IH2. rewrite IH2. f_equal.
    unfold effective at 1. rewrite Hp, lookup_empty. apply Hl.
Qed.

End Verdicts.

(** ** Theorems *)

(** C6: a key is accepted only if a stored, unrevoked key of the presented
    prefix has the SHA-256 of exactly the presented string, is not expired,
    and belongs to an active customer; the response names that customer, and
    validation itself changes no table. *)
Theorem ValidateAPIKey_sound (ENV : Env) (apiKey : string) (s : Service world) resp s' :
  ValidateAPIKey apiKey s = (inl resp, s') → Valid resp = true →
  (∃ key c, active_key (w_db (sv_store s)) apiKey key c ∧ c_Status c = CustomerActive ∧
    (∀ t, k_ExpiresAt key = Some t → ∃ n, (clock n < t)%Z) ∧
    CustomerId resp = uuid_String (k_CustomerID key) ∧ ClientId resp = c_ClientID c ∧
    CacheTtlSeconds resp = cacheTTLSeconds) ∧
  w_db (sv_store s') = w_db (sv_store s).
Proof.
  intros H Hv.
  destruct (ValidateAPIKey_accepts _ _ _ _ H Hv) as (key & c & now & Hk & Hst & He & -> & _ & Hd).
  split; [|done]. exists key, c. done.
Qed.

(** A customer with one freshly minted key. *)
Definition minted :
    (CreatedKey + error) * world :=
  @Tenants.CreateAPIKey quiet_env None 1%N "ci" None customer_world.

Definition minted_secret : string :=
  match minted.1 with inl k => ck_Secret k | inr _ => "" end.

Lemma ValidateAPIKey_sound_witness :
  w_db (sv_store (@ValidateAPIKey world (@pg_key_store quiet_env) minted_secret (New minted.2)).2)
  = w_db minted.2.
Proof.
  eapply (ValidateAPIKey_sound quiet_env minted_secret (New minted.2)).
  - vm_compute. reflexivity.
  - reflexivity.
Defined.

(** Last-used timestamps are neither lost nor lowered: over any sequence of
    accepted requests and flushes with a reachable database, after a final
    flush the stored [last_used_at] of a key is the latest of its old value and
    all its uses. *)
Theorem usage_is_latest (ENV : Env) (evs : list usage_event) (s : Service world) (id : uuid) :
  (∀ n, fault n = false) → w_aborted (sv_store s) = false → sv_pending s = ∅ →
  last_used (after_usage (evs ++ [Flushed]) s) id
  = fold_left (spec_usage id) evs (last_used s id).
Proof.
  intros Hf Ha Hp. destruct (after_usage_spec evs s id Hf Ha) as [Ha' He].
  unfold after_usage in *. rewrite fold_left_app. simpl.
  destruct (flush_quiet _ Hf Ha') as (_ & _ & Hl). rewrite Hl, He.
  f_equal. unfold effective. by rewrite Hp, lookup_empty.
Qed.

Lemma usage_is_latest_witness :
  last_used (@after_usage quiet_env
      ([Used 2%N 50%Z; Flushed; Used 2%N 40%Z; Used 2%N 70%Z] ++ [Flushed])
      (New customer_world)) 2%N = Some (Some 70%Z).
Proof.
  rewrite (usage_is_latest quiet_env); [|reflexivity..]. vm_compute. reflexivity.
Defined.

End IngestAuth.
