(* ===== verification/TenantsProps.v ===== *)
(** * Tenant management end to end

    What a caller of the tenant service gets: the secret handed out once is
    the one the gateways accept, and how derived slugs are de-duplicated. *)
From Stdlib Require Import Ascii.
From S2P Require Import Prelude GoStrings Sha256 Store World Tokens PgCore PgUsers PgFleet PgPipelines PgMisc Slug StoreCalls StoreInv StoreProps Tenants IngestAuth.

Section Props.
Context {ENV : Env}.

Lemma inTx_not_aborted {A} (m : Op A) w a w' : inTx m w = (inl a, w') → w_aborted w' = false.
Proof. by intros (w2 & _ & ->)%inTx_inl. Qed.

(** The row a successful [CreateAPIKey] stores and returns. *)
Lemma CreateAPIKey_stores k es w key w' :
  PgCore.CreateAPIKey k es w = (inl key, w') →
  api_keys (w_db w') !! nk_ID k = Some key ∧
  k_CustomerID key = nk_CustomerID k ∧ k_KeyPrefix key = nk_KeyPrefix k ∧
  k_KeyHash key = nk_KeyHash k ∧ k_ExpiresAt key = nk_ExpiresAt k ∧
  k_RevokedAt key = None ∧ w_aborted w' = false.
Proof.
  intros H. assert (Hab : w_aborted w' = false).
  { apply bind_inl in H as (? & ? & _ & H). by eapply inTx_not_aborted. }
  unfold PgCore.CreateAPIKey in H. call_inv H. cbn in *.
  rewrite lookup_insert_eq. by split_and!.
Qed.

(** What the service hands the store and returns. *)
Lemma service_CreateAPIKey_inl actor cid name exp w ck w' :
  Tenants.CreateAPIKey actor cid name exp w = (inl ck, w') →
  ∃ buf, String.length buf = 36 ∧
    let g := mint (tag_of KAPIKey) buf in
    ck_Secret ck = g_Secret g ∧
    (∃ id, api_keys (w_db w') !! id = Some (ck_Key ck)) ∧
    k_CustomerID (ck_Key ck) = cid ∧ k_KeyPrefix (ck_Key ck) = g_Prefix g ∧
    k_KeyHash (ck_Key ck) = HashAPIKey (g_Secret g) ∧ k_ExpiresAt (ck_Key ck) = exp ∧
    k_RevokedAt (ck_Key ck) = None ∧ w_aborted w' = false.
Proof.
  unfold Tenants.CreateAPIKey. destruct (negb _); [done|].
  intros (g & w1 & Hg & H)%bind_inl. apply (generate_inl KAPIKey) in Hg as (buf & Hb & ->).
  apply bind_inl in H as (id & w2 & _ & H).
  apply bind_inl in H as (key & w3 & Hk%CreateAPIKey_stores & [<- <-]%ret_inl).
  destruct Hk as (? & ? & ? & ? & ? & ? & ?). exists buf. cbn in *. split_and!; eauto.
Qed.

End Props.

(** C7: the secret [CreateAPIKey] returns is accepted by the ingest-auth
    service on the database it leaves behind: for an active customer, without
    an expiry, and unless a key of another customer has the same SHA-256, the
    next lookup answers valid with that customer's client id. *)
Theorem created_key_validates (ENV : Env) actor cid name w ck w' (c : Customer) pending reqs :
  Tenants.CreateAPIKey actor cid name None w = (inl ck, w') →
  customers (w_db w') !! cid = Some c → c_Status c = CustomerActive →
  (∀ id key, api_keys (w_db w') !! id = Some key → k_KeyHash key = k_KeyHash (ck_Key ck) →
     k_CustomerID key = cid ∧ k_ExpiresAt key = None) →
  fault (w_tick w') = false →
  ∃ s', IngestAuth.ValidateAPIKey (ck_Secret ck)
          (IngestAuth.Build_Service world pending reqs w') =
    (inl {| IngestAuth.Valid := true; IngestAuth.CustomerId := uuid_String cid;
            IngestAuth.ClientId := c_ClientID c; IngestAuth.CacheTtlSeconds := 30;
            IngestAuth.RateLimitItemsPerSec :=
              IngestAuth.uint32 (default 0%Z (c_RateLimitItemsPerSec c)) |}, s').
Proof.
  intros (buf & Hb & Hsec & [id Hid] & Hcid & Hpre & Hhash & Hexp & Hrev & Hab)%service_CreateAPIKey_inl
    Hc Hst Huniq Hf. subst cid.
  apply IngestAuth.ValidateAPIKey_complete; try done.
  - constructor; simpl; try done; [by exists id|congruence|].
    rewrite Hsec, Hpre. apply (mint_parses KAPIKey buf Hb).
  - simpl. by rewrite Hf, Hab.
Qed.

Lemma created_key_validates_witness :
  (@IngestAuth.ValidateAPIKey world (@pg_key_store quiet_env) IngestAuth.minted_secret
     (IngestAuth.New IngestAuth.minted.2)).1 =
  inl {| IngestAuth.Valid := true;
         IngestAuth.CustomerId := "00000000-0000-0000-0000-000000000001";
         IngestAuth.ClientId := "c"; IngestAuth.CacheTtlSeconds := 30;
         IngestAuth.RateLimitItemsPerSec := 0 |}.
Proof.
  destruct IngestAuth.minted as [[ck|e] w'] eqn:E.
  2: { vm_compute in E. discriminate E. }
  assert (Hck : IngestAuth.minted_secret = ck_Secret ck).
  { unfold IngestAuth.minted_secret. by rewrite E. }
  rewrite Hck. cbn [fst snd].
  edestruct (created_key_validates quiet_env None 1%N "ci" customer_world ck w') as [s' Hs'].
  - exact E.
  - vm_compute in E. injection E as <- <-. vm_compute. reflexivity.
  - reflexivity.
  - intros id key Hkey. vm_compute in E. injection E as <- <-. intros Hh.
    apply elem_of_map_to_list in Hkey. vm_compute in Hkey.
    repeat (apply elem_of_cons in Hkey as [Hkey|Hkey]; [simplify_eq; vm_compute in Hh |- *;
      try done; discriminate Hh|]). by apply elem_of_nil in Hkey.
  - reflexivity.
  - unfold IngestAuth.New. rewrite Hs'. reflexivity.
Defined.

(** ** Slugs of created customers *)

Section Slugs.
Context {ENV : Env}.

Lemma store_CreateCustomer_slug c k es w cust key w' :
  PgCore.CreateCustomer c k es w = (inl (cust, key), w') → c_Slug cust = nc_Slug c.
Proof. intros H. unfold PgCore.CreateCustomer in H. call_inv H. done. Qed.

(** The slugs the loop may still try. *)
Definition slug_choice (base : string) (derived : bool) (last_ : Z) (s : string) : Prop :=
  s = base ∨ (derived = true ∧ ∃ k, (2 ≤ k ≤ last_)%Z ∧ s = base +:+ "-" +:+ Itoa k).

Lemma create_loop_slug actor name base derived fuel attempt try_ w r w' :
  Tenants.create_loop actor name base derived fuel attempt try_ w = (inl r, w') →
  (1 ≤ attempt)%Z →
  slug_choice base derived attempt try_ →
  slug_choice base derived (attempt + Z.of_nat fuel - 1) (c_Slug (cc_Customer r)).
Proof.
  revert attempt try_ w; induction fuel as [|fuel IH]; intros attempt try_ w H Ha Ht; [done|].
  cbn [Tenants.create_loop] in H.
  apply bind_inl in H as (cid & w1 & _ & H). apply bind_inl in H as (key & w2 & _ & H).
  apply bind_inl in H as (u1 & w3 & _ & H). apply bind_inl in H as (u2 & w4 & _ & H).
  cbv zeta in H. apply bind_inl in H as (res & w5 & Hres%mtry_inl & H).
  destruct res as [[cust ak]|err].
  - apply ret_inl in H as [<- _]. apply store_CreateCustomer_slug in Hres. simpl in *.
    rewrite Hres. destruct Ht as [->|(Hd & k & Hk & ->)]; [by left|].
    right. split; [done|]. exists k. split; [lia|done].
  - assert (Hmono : slug_choice base derived (attempt + 1) try_).
    { destruct Ht as [->|(Hd & k & Hk & ->)]; [by left|]. right. split; [done|].
      exists k. split; [lia|done]. }
    replace (attempt + Z.of_nat (S fuel) - 1)%Z with (attempt + 1 + Z.of_nat fuel - 1)%Z by lia.
    destruct (Is err ErrSlugExists && derived) eqn:E.
    + apply IH in H; [done|lia|]. apply andb_true_iff in E as [_ ->]. right. split; [done|].
      eexists. split; [|done]. lia.
    + destruct (Is err ErrConflict); [|done]. by apply IH in H; [|lia|].
Qed.

End Slugs.

(** A created customer has the slug the caller asked for, which is valid,
    or a slug derived from the trimmed name: the derived one itself or that
    with a suffix -2 to -10. *)
Theorem CreateCustomer_slug (ENV : Env) actor name slug w r w' :
  Tenants.CreateCustomer actor name slug w = (inl r, w') →
  match slug with
  | Some s => c_Slug (cc_Customer r) = s ∧ ValidSlug s = true
  | None =>
    let base := DeriveSlug unicode_lower (TrimSpace name) in
    c_Slug (cc_Customer r) = base ∨
    ∃ k, (2 ≤ k ≤ 10)%Z ∧ c_Slug (cc_Customer r) = base +:+ "-" +:+ Itoa k
  end.
Proof.
  unfold Tenants.CreateCustomer. destruct (negb (name_ok _)); [done|]. destruct slug as [s|].
  - destruct (ValidSlug s) eqn:Ev; cbn [negb]; [|done]. intros H.
    apply create_loop_slug in H as [->|[? _]]; [done|done|lia|by left].
  - intros H. apply create_loop_slug in H as [->|(_ & k & Hk & ->)]; [by left| |lia|by left].
    right. exists k. split; [|done]. change (Z.of_nat Tenants.maxAttempts) with 10%Z in Hk. lia.
Qed.

Lemma CreateCustomer_slug_witness :
  c_Slug (match (@Tenants.CreateCustomer quiet_env None " Acme " None customer_world).1 with
          | inl r => cc_Customer r
          | inr _ => {| c_ID := 0; c_Slug := ""; c_Name := ""; c_ClientID := ""; c_Status := "";
                        c_RateLimitItemsPerSec := None; c_RetentionDays := None;
                        c_CreatedAt := 0; c_UpdatedAt := 0 |}
          end) = "acme-2" ∧
  (let base := DeriveSlug (@unicode_lower quiet_env) (TrimSpace " Acme ") in
   "acme-2" = base ∨ ∃ k, (2 ≤ k ≤ 10)%Z ∧ "acme-2" = base +:+ "-" +:+ Itoa k).
Proof.
  destruct (@Tenants.CreateCustomer quiet_env None " Acme " None customer_world) as [[r|e] w'] eqn:E.
  2: { vm_compute in E. discriminate E. }
  pose proof (CreateCustomer_slug quiet_env None " Acme " None customer_world r w' E) as H.
  assert (Hs : c_Slug (cc_Customer r) = "acme-2").
  { vm_compute in E. injection E as <- _. reflexivity. }
  cbn [fst]. split; [exact Hs|]. cbv zeta in H. rewrite Hs in H. exact H.
Defined.

(** A name of 64 letters, and a world in which its derived slug is taken. *)
Definition long_name : string := String.string_of_list_ascii (repeat "a"%char 64).

Definition long_world : world :=
  (@Tenants.CreateCustomer quiet_env None long_name None world_init).2.

(** the suffix that de-duplicates a derived slug is appended without
    shortening the slug: for a name that derives to 64 characters the second
    customer is stored under a 66-character slug, which is not a valid one. *)
Theorem deduplicated_slug_invalid :
  ∃ r, (@Tenants.CreateCustomer quiet_env None long_name None long_world).1 = inl r ∧
       c_Slug (cc_Customer r) = long_name +:+ "-2" ∧
       ValidSlug (c_Slug (cc_Customer r)) = false ∧
       ValidSlug (DeriveSlug (λ r, r) long_name) = true.
Proof. eexists. split; [vm_compute; reflexivity|]. vm_compute. auto. Qed.
