(* ===== verification/KeyCache.v ===== *)
(** * The gateway's key cache (collector/extension/tenantauth/cache.go)

    An LRU over [container/list]: the list holds elements, a map points from
    keys to elements.  Elements are identifiers into a heap of items, as the
    pointers of the Go code are; the abstract cache is an association list,
    most recently used first. *)
From S2P Require Import Prelude GoStrings.

Section KeyCache.
Context {V : Type}.

Record lruItem := {
  it_key : string;
  it_entry : V;
}.

(** [ll] lists element identifiers, front first; [heap] holds what they point
    to; [next] is the identifier the next [PushFront] allocates. *)
Record keyCache := {
  kc_maxEntries : Z;
  kc_ll : list nat;
  kc_heap : gmap nat lruItem;
  kc_items : gmap string nat;
  kc_next : nat;
}.

#[export] Instance eta_keyCache : Eta keyCache :=
  λ r, Build_keyCache (kc_maxEntries r) (kc_ll r) (kc_heap r) (kc_items r) (kc_next r).

Definition newKeyCache (maxEntries : Z) : keyCache := {|
  kc_maxEntries := maxEntries; kc_ll := []; kc_heap := ∅; kc_items := ∅; kc_next := 0 |}.

(** [list.MoveToFront] and [list.Remove]. *)
Definition remove_el (el : nat) (l : list nat) : list nat := filter (λ x, x ≠ el) l.
Definition move_to_front (el : nat) (l : list nat) : list nat := el :: remove_el el l.

Definition get (hash : string) (c : keyCache) : option V * keyCache :=
  match kc_items c !! hash with
  | None => (None, c)
  | Some el =>
    let c' := c <| kc_ll ::= move_to_front el |> in
    (it_entry <$> kc_heap c !! el, c')
  end.

(** The eviction loop: each round removes the back element. *)
Fixpoint evict (fuel : nat) (c : keyCache) : keyCache :=
  match fuel with
  | O => c
  | S fuel' =>
    if (kc_maxEntries c <? Z.of_nat (size (kc_items c)))%Z then
      match last (kc_ll c) with
      | None => c
      | Some oldest =>
        evict fuel' (c <| kc_ll ::= remove_el oldest |>
                       <| kc_items ::= match kc_heap c !! oldest with
                                       | Some it => delete (it_key it)
                                       | None => id
                                       end |>)
      end
    else c
  end.

Definition put (hash : string) (e : V) (c : keyCache) : keyCache :=
  match kc_items c !! hash with
  | Some el =>
    c <| kc_heap ::= alter (λ it, {| it_key := it_key it; it_entry := e |}) el |>
      <| kc_ll ::= move_to_front el |>
  | None =>
    let el := kc_next c in
    let c1 := c <| kc_heap ::= <[el := {| it_key := hash; it_entry := e |}]> |>
                <| kc_ll ::= cons el |>
                <| kc_items ::= <[hash := el]> |>
                <| kc_next ::= S |> in
    evict (length (kc_ll c1)) c1
  end.

Definition cache_len (c : keyCache) : Z := Z.of_nat (size (kc_items c)).

(** ** The abstract cache *)

Definition alru := list (string * V).

Definition a_get (hash : string) (l : alru) : option V * alru :=
  match list_find (λ p, p.1 = hash) l with
  | Some (_, p) => (Some p.2, p :: filter (λ q, q.1 ≠ hash) l)
  | None => (None, l)
  end.

Definition a_put (maxEntries : Z) (hash : string) (e : V) (l : alru) : alru :=
  match list_find (λ p, p.1 = hash) l with
  | Some _ => (hash, e) :: filter (λ q, q.1 ≠ hash) l
  | None => take (Z.to_nat maxEntries) ((hash, e) :: l)
  end.

(** The abstraction, and when a concrete cache represents one. *)
Definition item_of (h : gmap nat lruItem) (el : nat) : option (string * V) :=
  (λ it, (it_key it, it_entry it)) <$> h !! el.

Definition abs (c : keyCache) : alru := omap (item_of (kc_heap c)) (kc_ll c).

Record cache_ok (c : keyCache) : Prop := {
  ok_nodup : NoDup (kc_ll c);
  ok_heap : ∀ el, el ∈ kc_ll c → is_Some (kc_heap c !! el);
  ok_fresh : ∀ el, el ∈ kc_ll c → el < kc_next c;
  ok_items : ∀ k el, kc_items c !! k = Some el ↔
    el ∈ kc_ll c ∧ it_key <$> kc_heap c !! el = Some k;
}.

(** ** Refinement *)

(** Two elements of the list never carry the same key. *)
Lemma ok_key_inj c el el' k :
  cache_ok c → el ∈ kc_ll c → el' ∈ kc_ll c →
  it_key <$> kc_heap c !! el = Some k → it_key <$> kc_heap c !! el' = Some k → el = el'.
Proof.
  intros Hok H1 H2 H3 H4.
  assert (Ha : kc_items c !! k = Some el) by (by apply (ok_items c Hok)).
  assert (Hb : kc_items c !! k = Some el') by (by apply (ok_items c Hok)). congruence.
Qed.

Lemma abs_filter (h : gmap nat lruItem) ll el0 it0 :
  h !! el0 = Some it0 →
  (∀ el it, el ∈ ll → h !! el = Some it → it_key it = it_key it0 → el = el0) →
  omap (item_of h) (remove_el el0 ll)
  = filter (λ q, q.1 ≠ it_key it0) (omap (item_of h) ll).
Proof.
  intros H0. unfold remove_el. induction ll as [|el ll IH]; intros Hinj; [done|].
  specialize (IH ltac:(intros; eapply Hinj; eauto; by right)).
  destruct (decide (el = el0)) as [->|Hne].
  - rewrite filter_cons_False by tauto. cbn [omap list_omap].
    unfold item_of at 2. rewrite H0. simpl. rewrite filter_cons_False by (simpl; tauto). done.
  - rewrite filter_cons_True by done. cbn [omap list_omap].
    destruct (item_of h el) as [[k e]|] eqn:E; [|done].
    unfold item_of in E. apply fmap_Some in E as (it & Hit & [= -> ->]).
    rewrite filter_cons_True; [by rewrite IH|]. simpl. intros Hk. apply Hne.
    eapply Hinj; eauto. left.
Qed.

Lemma abs_find_Some c k el it :
  cache_ok c → kc_items c !! k = Some el → kc_heap c !! el = Some it →
  ∃ i, list_find (λ p, p.1 = k) (abs c) = Some (i, (k, it_entry it)).
Proof.
  intros Hok Hi Hh. apply (ok_items c Hok) in Hi as [Hin Hk]. rewrite Hh in Hk.
  injection Hk as Hk.
  assert (Hin' : (k, it_entry it) ∈ abs c).
  { apply list_elem_of_omap. exists el. split; [done|]. unfold item_of. rewrite Hh. simpl.
    by rewrite Hk. }
  destruct (list_find_elem_of (λ p, p.1 = k) _ _ Hin' eq_refl) as [[i [k' e']] Hf].
  exists i. rewrite Hf. apply list_find_Some in Hf as (Hl & Hk' & _). simpl in Hk'. subst k'.
  apply list_elem_of_lookup_2, list_elem_of_omap in Hl as (el' & Hel' & Hit).
  unfold item_of in Hit. destruct (kc_heap c !! el') as [it'|] eqn:E; [|done].
  injection Hit as Hk2 <-. assert (el' = el) as ->; [|congruence].
  eapply (ok_key_inj c _ _ k); eauto; [rewrite E|rewrite Hh]; simpl; congruence.
Qed.

Lemma abs_find_None c k :
  cache_ok c → kc_items c !! k = None → list_find (λ p, p.1 = k) (abs c) = None.
Proof.
  intros Hok Hn. apply list_find_None, Forall_forall. intros [k' e] Hin Hk. simpl in Hk. subst k'.
  apply list_elem_of_omap in Hin as (el & Hel & Hit). unfold item_of in Hit.
  destruct (kc_heap c !! el) as [it|] eqn:E; [|done]. injection Hit as <- _.
  assert (kc_items c !! it_key it = Some el) by (apply (ok_items c Hok); by rewrite E).
  congruence.
Qed.

Lemma elem_of_move el el' l : el' ∈ move_to_front el l ↔ el' = el ∨ el' ∈ l.
Proof.
  unfold move_to_front, remove_el. rewrite elem_of_cons, list_elem_of_filter.
  destruct (decide (el' = el)); tauto.
Qed.

Lemma cache_ok_move c el :
  cache_ok c → el ∈ kc_ll c → cache_ok (c <| kc_ll ::= move_to_front el |>).
Proof.
  intros [Hn Hh Hf Hi] Hin. constructor; simpl.
  - constructor; [|by apply NoDup_filter]. unfold remove_el. rewrite list_elem_of_filter. tauto.
  - intros el' [->|?]%elem_of_move; auto.
  - intros el' [->|?]%elem_of_move; auto.
  - intros k el'. rewrite Hi, elem_of_move. split; [tauto|]. intros [[->|?] ?]; auto.
Qed.

Lemma abs_move c k el it :
  cache_ok c → kc_items c !! k = Some el → kc_heap c !! el = Some it →
  abs (c <| kc_ll ::= move_to_front el |>)
  = (k, it_entry it) :: filter (λ q, q.1 ≠ k) (abs c).
Proof.
  intros Hok Hi Hh. pose proof Hi as Hi'. apply (ok_items c Hok) in Hi' as [Hin Hk].
  rewrite Hh in Hk. injection Hk as <-. unfold abs, move_to_front. simpl.
  unfold item_of at 1. rewrite Hh. simpl. f_equal. apply abs_filter; [done|].
  intros el' it' Hel' Hit' Hkey.
  eapply (ok_key_inj c _ _ (it_key it)); eauto; [rewrite Hit'|rewrite Hh]; simpl; congruence.
Qed.

Lemma get_refines c hash :
  cache_ok c →
  cache_ok (get hash c).2 ∧ a_get hash (abs c) = ((get hash c).1, abs (get hash c).2).
Proof.
  intros Hok. unfold get, a_get. destruct (kc_items c !! hash) as [el|] eqn:Hi; simpl.
  - pose proof Hi as Hi'. apply (ok_items c Hok) in Hi' as [Hin _].
    destruct (ok_heap c Hok el Hin) as [it Hit].
    destruct (abs_find_Some c hash el it Hok Hi Hit) as [i ->]. simpl.
    split; [by apply cache_ok_move|]. rewrite Hit. simpl. f_equal. symmetry. by apply abs_move.
  - by rewrite abs_find_None.
Qed.

(** ** Insertion and eviction *)

Lemma abs_keys c : cache_ok c → (abs c).*1 = omap (λ el, it_key <$> kc_heap c !! el) (kc_ll c).
Proof.
  intros _. unfold abs. induction (kc_ll c) as [|el l IH]; [done|]. cbn [omap list_omap].
  unfold item_of at 1. destruct (kc_heap c !! el); simpl; [by f_equal|done].
Qed.

Lemma length_abs c : cache_ok c → length (abs c) = length (kc_ll c).
Proof.
  intros Hok. unfold abs. pose proof (ok_heap c Hok) as Hh.
  induction (kc_ll c) as [|el l IH]; [done|]. cbn [omap list_omap].
  destruct (Hh el ltac:(left)) as [it Hit]. unfold item_of at 1. rewrite Hit. simpl.
  rewrite IH; [done|]. intros; apply Hh. by right.
Qed.

Lemma elem_of_abs_keys c k :
  cache_ok c → k ∈ (abs c).*1 ↔ is_Some (kc_items c !! k).
Proof.
  intros Hok. rewrite abs_keys, list_elem_of_omap by done. split.
  - intros (el & Hel & Hk). exists el. by apply (ok_items c Hok).
  - intros [el Hi]. apply (ok_items c Hok) in Hi. eauto.
Qed.

Lemma NoDup_abs_keys c : cache_ok c → NoDup (abs c).*1.
Proof.
  intros Hok. rewrite abs_keys by done.
  assert (Hinj : ∀ el el' k, el ∈ kc_ll c → el' ∈ kc_ll c →
    it_key <$> kc_heap c !! el = Some k → it_key <$> kc_heap c !! el' = Some k → el = el')
    by (intros; by eapply (ok_key_inj c)).
  pose proof (ok_nodup c Hok) as Hn. induction Hn as [|el l Hel Hn IH]; [constructor|].
  cbn [omap list_omap]. destruct (kc_heap c !! el) as [it|] eqn:E; simpl.
  - constructor; [|apply IH; intros; eapply Hinj; eauto; by right].
    rewrite list_elem_of_omap. intros (el' & Hel' & Hk).
    assert (el' = el) as ->; [|done].
    eapply Hinj; [by right|left|done|]. by rewrite E.
  - apply IH. intros; eapply Hinj; eauto; by right.
Qed.

Lemma size_items c : cache_ok c → size (kc_items c) = length (abs c).
Proof.
  intros Hok. rewrite <- size_dom, <- (length_fmap fst).
  rewrite <- (size_list_to_set (C:=gset string)) by by apply NoDup_abs_keys.
  f_equal. apply set_eq. intros k. rewrite elem_of_dom, elem_of_list_to_set.
  symmetry. by apply elem_of_abs_keys.
Qed.

(** Removing the back element. *)
Lemma evict_step c el it :
  cache_ok c → last (kc_ll c) = Some el → kc_heap c !! el = Some it →
  let c' := c <| kc_ll ::= remove_el el |> <| kc_items ::= delete (it_key it) |> in
  cache_ok c' ∧ abs c = abs c' ++ [(it_key it, it_entry it)].
Proof.
  intros Hok Hlast Hit. apply last_Some in Hlast as [l Hl].
  pose proof Hok as [Hn Hh Hf Hi]. simpl.
  assert (Hrem : remove_el el (kc_ll c) = l).
  { rewrite Hl in Hn |- *. apply NoDup_app in Hn as (_ & Hd & _). unfold remove_el.
    rewrite filter_app, filter_cons_False, filter_nil, app_nil_r by tauto.
    apply filter_all. intros x Hx ->. apply (Hd el Hx). by left. }
  split.
  - constructor; simpl; rewrite Hrem.
    + rewrite Hl in Hn. by apply NoDup_app in Hn as (? & _).
    + intros x Hx. apply Hh. rewrite Hl. set_solver.
    + intros x Hx. apply Hf. rewrite Hl. set_solver.
    + intros k el'. rewrite lookup_delete_Some, Hi, Hl. split.
      * intros (Hne & [Hin|Hs%list_elem_of_singleton]%elem_of_app & Hk); [done|]. subst el'.
        rewrite Hit in Hk. simpl in Hk. congruence.
      * intros [Hin Hk]. split_and!; [|set_solver|done]. intros <-.
        assert (el' = el) as ->.
        { eapply (ok_key_inj c); eauto; [rewrite Hl; set_solver..|by rewrite Hit]. }
        rewrite Hl in Hn. apply NoDup_app in Hn as (_ & Hd & _). apply (Hd el Hin). by left.
  - unfold abs. simpl. rewrite Hrem, Hl, omap_app. f_equal. simpl. unfold item_of.
    by rewrite Hit.
Qed.

Lemma evict_refines fuel c :
  cache_ok c → length (kc_ll c) ≤ fuel →
  cache_ok (evict fuel c) ∧ abs (evict fuel c) = take (Z.to_nat (kc_maxEntries c)) (abs c) ∧
  kc_maxEntries (evict fuel c) = kc_maxEntries c.
Proof.
  revert c; induction fuel as [|fuel IH]; intros c Hok Hlen; cbn [evict].
  - split_and!; [done| |done]. rewrite take_ge; [done|]. rewrite length_abs by done. lia.
  - destruct (kc_maxEntries c <? _)%Z eqn:E.
    + apply Z.ltb_lt in E. destruct (last (kc_ll c)) as [el|] eqn:Hlast.
      * destruct (ok_heap c Hok el) as [it Hit]; [by apply last_Some_elem_of|].
        rewrite Hit. destruct (evict_step c el it Hok Hlast Hit) as [Hok' Habs].
        match type of Hok' with cache_ok ?x => set (c' := x) in * end.
        pose proof (f_equal length Habs) as Hla.
        rewrite length_app, !length_abs in Hla by done. cbn [length] in Hla.
        rewrite size_items, length_abs in E by done.
        destruct (IH c' Hok') as (H1 & H2 & H3); [lia|].
        split_and!; [done| |done]. rewrite H2, Habs. change (kc_maxEntries c') with (kc_maxEntries c).
        rewrite take_app_le; [done|]. rewrite length_abs by done. lia.
      * apply last_None in Hlast. split_and!; [done| |done].
        unfold abs. rewrite Hlast. cbn. by destruct (Z.to_nat _).
    + apply Z.ltb_ge in E. rewrite size_items in E by done.
      split_and!; [done| |done]. rewrite take_ge; [done|lia].
Qed.

Lemma put_refines c hash e :
  cache_ok c →
  cache_ok (put hash e c) ∧ abs (put hash e c) = a_put (kc_maxEntries c) hash e (abs c) ∧
  kc_maxEntries (put hash e c) = kc_maxEntries c.
Proof.
  intros Hok. pose proof Hok as [Hn Hh Hf Hi]. unfold put, a_put.
  destruct (kc_items c !! hash) as [el|] eqn:Hit.
  - pose proof Hit as Hit'. apply Hi in Hit' as [Hin Hk].
    destruct (Hh el Hin) as [it Hel].
    destruct (abs_find_Some c hash el it Hok Hit Hel) as [i ->].
    set (c1 := c <| kc_heap ::= alter (λ it, {| it_key := it_key it; it_entry := e |}) el |>).
    assert (Hkeys : ∀ x, it_key <$> kc_heap c1 !! x = it_key <$> kc_heap c !! x).
    { intros x. simpl. destruct (decide (x = el)) as [->|];
        [rewrite lookup_alter_eq; by destruct (kc_heap c !! el)|by rewrite lookup_alter_ne]. }
    assert (Hok1 : cache_ok c1).
    { constructor; [done| |done|].
      - intros x Hx. apply Hh in Hx as [? ?]. apply (fmap_is_Some it_key).
        rewrite Hkeys. apply fmap_is_Some. eauto.
      - intros k x. rewrite Hkeys. apply Hi. }
    split_and!; [by apply cache_ok_move| |done].
    rewrite (abs_move c1 hash el {| it_key := it_key it; it_entry := e |}); [|done|done|].
    2: { simpl. by rewrite lookup_alter_eq, Hel. }
    simpl. f_equal. rewrite Hel in Hk. injection Hk as <-.
    etrans; [symmetry; apply (abs_filter (kc_heap c1) (kc_ll c) el
      {| it_key := it_key it; it_entry := e |})|].
    + simpl. by rewrite lookup_alter_eq, Hel.
    + intros x itx Hx Hitx Hkx. eapply (ok_key_inj c1 _ _ (it_key it)); eauto;
        [rewrite Hitx; simpl in *; congruence|]. by rewrite Hkeys, Hel.
    + etrans; [|apply (abs_filter (kc_heap c) (kc_ll c) el it Hel)].
      * apply omap_ext_in. intros x Hx.
        unfold remove_el in Hx. apply list_elem_of_filter in Hx as [Hne _].
        unfold item_of. simpl. by rewrite lookup_alter_ne.
      * intros x itx Hx Hitx Hkx. eapply (ok_key_inj c _ _ (it_key it)); eauto;
          [rewrite Hitx|rewrite Hel]; simpl; congruence.
  - rewrite abs_find_None by done.
    set (c1 := _ <| kc_next ::= S |>).
    assert (Hfresh : kc_next c ∉ kc_ll c) by (intros Hx%Hf; lia).
    assert (Hlk : ∀ x, x ∈ kc_ll c → kc_heap c1 !! x = kc_heap c !! x).
    { intros x Hx. simpl. rewrite lookup_insert_ne; [done|]. intros <-. done. }
    assert (Hok1 : cache_ok c1).
    { constructor; simpl.
      - by constructor.
      - intros x [->|Hx]%elem_of_cons; [by rewrite lookup_insert_eq|].
        specialize (Hlk x Hx). simpl in Hlk. rewrite Hlk. auto.
      - intros x [->|Hx%Hf]%elem_of_cons; lia.
      - intros k x. rewrite lookup_insert_Some, Hi, elem_of_cons. split.
        + intros [[<- <-]|(Hne & Hx & Hk)]; [by rewrite lookup_insert_eq; auto|].
          specialize (Hlk x Hx). simpl in Hlk. rewrite Hlk. auto.
        + intros [[->|Hx] Hk].
          * rewrite lookup_insert_eq in Hk. simpl in Hk. left. split; congruence.
          * specialize (Hlk x Hx). simpl in Hlk. rewrite Hlk in Hk. right. split_and!; [|done..].
            intros <-. assert (kc_items c !! hash = Some x) by (by apply Hi). congruence. }
    destruct (evict_refines (length (kc_ll c1)) c1 Hok1 (le_n _)) as (H1 & H2 & H3).
    split_and!; [done| |done]. rewrite H2. simpl. f_equal. unfold abs at 1. cbn [omap list_omap kc_ll].
    simpl. unfold item_of at 1. rewrite lookup_insert_eq. simpl. f_equal.
    apply omap_ext_in. intros x Hx.
    unfold item_of. specialize (Hlk x Hx). simpl in Hlk. by rewrite Hlk.
Qed.

Lemma cache_ok_new m : cache_ok (newKeyCache m).
Proof.
  constructor; simpl; [constructor|by intros ? ?%elem_of_nil..|].
  intros k el. rewrite lookup_empty. split; [done|]. by intros [?%elem_of_nil _].
Qed.

(** ** Sequences of operations *)

Inductive cache_op := OpGet (hash : string) | OpPut (hash : string) (e : V).

Definition run_op (c : keyCache) (o : cache_op) : option (option V) * keyCache :=
  match o with
  | OpGet h => let '(r, c') := get h c in (Some r, c')
  | OpPut h e => (None, put h e c)
  end.

Definition a_run_op (m : Z) (l : alru) (o : cache_op) : option (option V) * alru :=
  match o with
  | OpGet h => let '(r, l') := a_get h l in (Some r, l')
  | OpPut h e => (None, a_put m h e l)
  end.

(** The answers of a run, and the state it ends in. *)
Fixpoint run_ops {C} (step : C → cache_op → option (option V) * C) (c : C)
    (ops : list cache_op) : list (option (option V)) * C :=
  match ops with
  | [] => ([], c)
  | o :: ops' =>
    let '(r, c1) := step c o in
    let '(rs, c2) := run_ops step c1 ops' in (r :: rs, c2)
  end.

Lemma run_op_refines c o :
  cache_ok c →
  let '(r, c') := run_op c o in
  cache_ok c' ∧ kc_maxEntries c' = kc_maxEntries c ∧
  a_run_op (kc_maxEntries c) (abs c) o = (r, abs c').
Proof.
  intros Hok. destruct o as [h|h e]; simpl.
  - destruct (get_refines c h Hok) as [H1 H2]. destruct (get h c) as [r c'] eqn:E. simpl in *.
    rewrite H2. split_and!; [done| |done]. unfold get in E. by case_match; simplify_eq.
  - destruct (put_refines c h e Hok) as (H1 & H2 & H3). by rewrite H2.
Qed.

Lemma run_ops_refines ops c :
  cache_ok c →
  let '(rs, c') := run_ops run_op c ops in
  cache_ok c' ∧ kc_maxEntries c' = kc_maxEntries c ∧
  run_ops (a_run_op (kc_maxEntries c)) (abs c) ops = (rs, abs c').
Proof.
  revert c; induction ops as [|o ops IH]; intros c Hok; simpl; [done|].
  pose proof (run_op_refines c o Hok) as H. destruct (run_op c o) as [r c1].
  destruct H as (H1 & H2 & H3). rewrite H3. specialize (IH c1 H1).
  destruct (run_ops run_op c1 ops) as [rs c2]. destruct IH as (H4 & H5 & H6).
  rewrite H2 in H6. rewrite H6. split_and!; [done|congruence|done].
Qed.

Lemma length_a_run_op m l o :
  length l ≤ Z.to_nat m → length (a_run_op m l o).2 ≤ Z.to_nat m.
Proof.
  assert (Hf : ∀ h i p, list_find (λ p : string * V, p.1 = h) l = Some (i, p) →
    S (length (filter (λ q, q.1 ≠ h) l)) ≤ length l).
  { intros h i p (Hl & Hk & _)%list_find_Some. apply list_elem_of_lookup_2 in Hl.
    apply list_elem_of_split in Hl as (l1 & l2 & ->).
    rewrite filter_app, filter_cons_False by (simpl in *; tauto).
    rewrite !length_app. simpl. pose proof (length_filter (λ q, q.1 ≠ h) l1).
    pose proof (length_filter (λ q, q.1 ≠ h) l2). lia. }
  intros Hl. destruct o as [h|h e]; simpl.
  - unfold a_get. destruct (list_find _ l) as [[i p]|] eqn:E; simpl; [|done].
    etrans; [exact (Hf _ _ _ E)|exact Hl].
  - unfold a_put. destruct (list_find _ l) as [[i p]|] eqn:E; simpl.
    + etrans; [exact (Hf _ _ _ E)|exact Hl].
    + rewrite length_take. lia.
Qed.

Lemma length_a_run_ops m ops l :
  length l ≤ Z.to_nat m → length (run_ops (a_run_op m) l ops).2 ≤ Z.to_nat m.
Proof.
  revert l; induction ops as [|o ops IH]; intros l Hl; simpl; [done|].
  pose proof (length_a_run_op m l o Hl) as H1. destruct (a_run_op m l o) as [r l1].
  specialize (IH l1 H1). by destruct (run_ops _ l1 ops).
Qed.

(** ** What clients use *)

Lemma get_Some c h e : cache_ok c → (get h c).1 = Some e → (h, e) ∈ abs c.
Proof.
  intros Hok Hg. destruct (get_refines c h Hok) as [_ Ha]. unfold a_get in Ha.
  destruct (list_find _ _) as [[i p]|] eqn:E; [|congruence].
  rewrite Hg in Ha. injection Ha as Hp _. apply list_find_Some in E as (Hl & Hk & _).
  apply list_elem_of_lookup_2 in Hl. destruct p as [k v]. simpl in *. by subst.
Qed.

Lemma get_elems c h p : cache_ok c → p ∈ abs (get h c).2 → p ∈ abs c.
Proof.
  intros Hok. destruct (get_refines c h Hok) as [_ Ha]. unfold a_get in Ha.
  destruct (list_find _ _) as [[i q]|] eqn:E; injection Ha as _ <-; [|done].
  apply list_find_Some in E as (Hl & _ & _). apply list_elem_of_lookup_2 in Hl.
  rewrite elem_of_cons, list_elem_of_filter. by intros [->|[_ ?]].
Qed.

Lemma put_elems c h e p :
  cache_ok c → p ∈ abs (put h e c) → p = (h, e) ∨ (p ∈ abs c ∧ p.1 ≠ h).
Proof.
  intros Hok. destruct (put_refines c h e Hok) as (_ & -> & _). unfold a_put.
  destruct (list_find _ _) as [[i q]|] eqn:E.
  - rewrite elem_of_cons, list_elem_of_filter. tauto.
  - intros (j & Hp & _)%elem_of_take. apply list_elem_of_lookup_2, elem_of_cons in Hp.
    destruct Hp as [->|Hp]; [by left|]. right. split; [done|].
    apply list_find_None in E. rewrite Forall_forall in E. by apply E.
Qed.

(** ** Theorem *)

(** C10: the pointer-and-map cache implements a least-recently-used association
    list: for every bound and every sequence of lookups and insertions from
    the empty cache, every lookup answers what the association list answers,
    and the cache never holds more than [max_entries] keys. *)
Theorem keyCache_refines_lru (maxEntries : Z) (ops : list cache_op) :
  let '(answers, c) := run_ops run_op (newKeyCache maxEntries) ops in
  run_ops (a_run_op maxEntries) [] ops = (answers, abs c) ∧
  (cache_len c ≤ Z.max 0 maxEntries)%Z.
Proof.
  pose proof (run_ops_refines ops (newKeyCache maxEntries) (cache_ok_new maxEntries)) as H.
  destruct (run_ops run_op _ ops) as [rs c]. destruct H as (Hok & _ & H). split; [done|].
  pose proof (length_a_run_ops maxEntries ops [] ltac:(simpl; lia)) as Hl.
  simpl in H. unfold abs in H at 1. simpl in H. rewrite H in Hl. simpl in Hl.
  unfold cache_len. rewrite size_items by done. lia.
Qed.

End KeyCache.
Arguments lruItem : clear implicits.
Arguments keyCache : clear implicits.
Arguments alru : clear implicits.
