(* ===== verification/TenantAuth.v ===== *)
(** * The gateway's authenticator (collector/extension/tenantauth)

    Key extraction, the cache-first decision of [Authenticate] and the
    identity it attaches.  The control plane's answer to one [ValidateAPIKey]
    call is an argument: it is used only when the code makes the call. *)
From Stdlib Require Import Ascii.
From S2P Require Import Prelude GoStrings Sha256 KeyCache.

Record CacheConfig := {
  TTL : Z;
  NegativeTTL : Z;
  MaxEntries : Z;
  StaleIfError : Z;
}.

Record Config := {
  cfg_Endpoint : string;
  cfg_Cache : CacheConfig;
}.

Definition ValidateConfig (cfg : Config) : list string :=
  (if bool_decide (cfg_Endpoint cfg = "")
   then ["endpoint must be set to the control-plane AuthService gRPC address"] else [])
  ++ (if (TTL (cfg_Cache cfg) <=? 0)%Z then ["cache.ttl must be positive"] else [])
  ++ (if (NegativeTTL (cfg_Cache cfg) <=? 0)%Z
      then ["cache.negative_ttl must be positive"] else [])
  ++ (if (MaxEntries (cfg_Cache cfg) <=? 0)%Z
      then ["cache.max_entries must be positive"] else [])
  ++ (if (StaleIfError (cfg_Cache cfg) <? 0)%Z
      then ["cache.stale_if_error must not be negative"] else []).

(** The settings of the factory (factory.go): all but the endpoint. *)
Definition createDefaultConfig : Config := {|
  cfg_Endpoint := "";
  cfg_Cache := {| TTL := 30 * second; NegativeTTL := 5 * second; MaxEntries := 50000;
                  StaleIfError := 15 * 60 * second |} |}%Z.

Example default_config_needs_endpoint :
  ValidateConfig createDefaultConfig = ["endpoint must be set to the control-plane AuthService gRPC address"] ∧
  ValidateConfig {| cfg_Endpoint := "control:9443"; cfg_Cache := cfg_Cache createDefaultConfig |} = [].
Proof. by vm_compute. Qed.

(** [authData], the identity that rides on [client.Info]. *)
Record authData := {
  tenantID : string;
  clientID : string;
  customerID : string;
  rateLimitItemsPerSec : Z;
}.

Definition AttrTenantID : string := "tenant.id".
Definition AttrClientID : string := "client.id".
Definition AttrCustomerID : string := "customer.id".
Definition AttrRateLimitItemsPerSec : string := "rate_limit_items_per_sec".

(** An attribute value: [any] holding a string or an int64, or nil. *)
Inductive attr := AttrString (s : string) | AttrInt64 (z : Z) | AttrNil.

Definition GetAttribute (a : authData) (name : string) : attr :=
  if bool_decide (name = AttrTenantID) then AttrString (tenantID a)
  else if bool_decide (name = AttrClientID) then AttrString (clientID a)
  else if bool_decide (name = AttrCustomerID) then AttrString (customerID a)
  else if bool_decide (name = AttrRateLimitItemsPerSec) then AttrInt64 (rateLimitItemsPerSec a)
  else AttrNil.

Definition GetAttributeNames : list string :=
  [AttrTenantID; AttrClientID; AttrCustomerID; AttrRateLimitItemsPerSec].

Record cacheEntry := {
  ce_valid : bool;
  ce_data : option authData;
  ce_freshUntil : Z;
  ce_staleUntil : Z;
}.

(** The fields of [ValidateAPIKeyResponse] the gateway reads. *)
Record ValidateResponse := {
  resp_Valid : bool;
  resp_CustomerId : string;
  resp_ClientId : string;
  resp_CacheTtlSeconds : Z;
  resp_RateLimit : Z;
}.

(** The answer of the control plane to one call: a response or an RPC error. *)
Inductive rpc_answer := RpcOk (resp : ValidateResponse) | RpcErr (msg : string).

Inductive auth_result :=
  | Accept (d : authData)
  | ErrNoKey
  | ErrInvalidKey
  | ErrUnavailable (msg : string)
  | NilDereference.

Definition outcomeOK : string := "ok".
Definition outcomeInvalidKey : string := "invalid_key".
Definition outcomeNoKey : string := "no_key".
Definition outcomeUpstreamErrorStale : string := "upstream_error_stale".
Definition outcomeUpstreamErrorReject : string := "upstream_error_reject".

(** ** Key extraction *)

(** ASCII case folding is all [strings.EqualFold] does against "Bearer": no
    rune outside ASCII folds to one of its letters. *)
Definition EqualFoldASCII (s t : string) : bool :=
  let lower s := map (λ a, lower_ascii (code a)) (chars s) in
  bool_decide (lower s = lower t).

Definition first_nonempty (cur : string) (k : string) : string :=
  if negb (bool_decide (k = "")) && bool_decide (cur = "") then k else cur.

Definition bearer_value (cur v : string) : string :=
  match cut " " (TrimSpace v) with
  | Some (scheme, rest) =>
    if EqualFoldASCII scheme "Bearer" then first_nonempty cur (TrimSpace rest) else cur
  | None => cur
  end.

(** The loop over the header map, in the order Go happens to visit it. *)
Definition extract_step (unicode_lower : N → N) (st : string * string)
    (h : string * list string) : string * string :=
  let '(bearer, apiKey) := st in
  let name := ToLower unicode_lower h.1 in
  if bool_decide (name = "authorization") then (fold_left bearer_value h.2 bearer, apiKey)
  else if bool_decide (name = "x-api-key")
  then (bearer, fold_left (λ cur v, first_nonempty cur (TrimSpace v)) h.2 apiKey)
  else st.

Definition extractKey (unicode_lower : N → N) (sources : list (string * list string)) : string :=
  let '(bearer, apiKey) := fold_left (extract_step unicode_lower) sources ("", "") in
  if negb (bool_decide (bearer = "")) then bearer else apiKey.

(** ** Authenticate *)

Abbreviation cache := (keyCache cacheEntry).

Definition key_hash (key : string) : string := hex_encode (Sha256.Sum256 key).

(** [min(cfg.TTL, cache_ttl_seconds)] when the server sends one. *)
Definition effective_ttl (cfg : Config) (resp : ValidateResponse) : Z :=
  let ttl := TTL (cfg_Cache cfg) in
  if (0 <? resp_CacheTtlSeconds resp)%Z then
    let serverTTL := (resp_CacheTtlSeconds resp * second)%Z in
    if (serverTTL <? ttl)%Z then serverTTL else ttl
  else ttl.

Definition data_of (resp : ValidateResponse) : authData := {|
  tenantID := resp_ClientId resp; clientID := resp_ClientId resp;
  customerID := resp_CustomerId resp; rateLimitItemsPerSec := resp_RateLimit resp |}.

(** What is stored for a verdict of the control plane at time [now]. *)
Definition entry_of (cfg : Config) (now : Z) (resp : ValidateResponse) : cacheEntry :=
  if resp_Valid resp
  then {| ce_valid := true; ce_data := Some (data_of resp);
          ce_freshUntil := now + effective_ttl cfg resp;
          ce_staleUntil := now + StaleIfError (cfg_Cache cfg) |}
  else {| ce_valid := false; ce_data := None;
          ce_freshUntil := now + NegativeTTL (cfg_Cache cfg);
          ce_staleUntil := zero_time |}.

(** [a.count(..., e.data.tenantID); return contextWithAuth(ctx, e.data)]. *)
Definition accept_entry (outcome : string) (e : cacheEntry) (c : cache)
    : auth_result * string * cache :=
  match ce_data e with
  | Some d => (Accept d, outcome, c)
  | None => (NilDereference, outcome, c)
  end.

(** After a miss or an expired entry: the answer of the control plane, or the
    stale entry when it cannot be reached. *)
Definition ask_control_plane (cfg : Config) (now : Z) (hash : string) (rpc : rpc_answer)
    (c : cache) : auth_result * string * cache :=
  match rpc with
  | RpcErr msg =>
    let '(r, c') := get hash c in
    match r with
    | Some e =>
      if ce_valid e && (now <? ce_staleUntil e)%Z
      then accept_entry outcomeUpstreamErrorStale e c'
      else (ErrUnavailable msg, outcomeUpstreamErrorReject, c')
    | None => (ErrUnavailable msg, outcomeUpstreamErrorReject, c')
    end
  | RpcOk resp =>
    let c' := put hash (entry_of cfg now resp) c in
    if resp_Valid resp then (Accept (data_of resp), outcomeOK, c')
    else (ErrInvalidKey, outcomeInvalidKey, c')
  end.

(** The result, the outcome that is counted, and the cache afterwards. *)
Definition Authenticate (unicode_lower : N → N) (cfg : Config) (now : Z)
    (sources : list (string * list string)) (rpc : rpc_answer) (c : cache)
    : auth_result * string * cache :=
  let key := extractKey unicode_lower sources in
  if bool_decide (key = "") then (ErrNoKey, outcomeNoKey, c)
  else
    let hash := key_hash key in
    let '(r, c1) := get hash c in
    match r with
    | Some e =>
      if (now <? ce_freshUntil e)%Z then
        if negb (ce_valid e) then (ErrInvalidKey, outcomeInvalidKey, c1)
        else accept_entry outcomeOK e c1
      else ask_control_plane cfg now hash rpc c1
    | None => ask_control_plane cfg now hash rpc c1
    end.

(** ** Traces

    One request: when it arrives, its headers, and what the control plane
    would answer.  [verdicts] is the ghost history of the answers actually
    obtained, newest first. *)
Record request := {
  rq_now : Z;
  rq_sources : list (string * list string);
  rq_rpc : rpc_answer;
}.

Section Traces.
Context (unicode_lower : N → N) (cfg : Config).

Definition rq_hash (q : request) : string :=
  key_hash (extractKey unicode_lower (rq_sources q)).

(** Is the control plane asked? *)
Definition consults (q : request) (c : cache) : bool :=
  negb (bool_decide (extractKey unicode_lower (rq_sources q) = "")) &&
  match (get (rq_hash q) c).1 with
  | Some e => negb (rq_now q <? ce_freshUntil e)%Z
  | None => true
  end.

Definition verdict := (string * (Z * ValidateResponse))%type.

Definition handle (q : request) (c : cache) : auth_result * string * cache :=
  Authenticate unicode_lower cfg (rq_now q) (rq_sources q) (rq_rpc q) c.

Definition trace_step (st : cache * list verdict) (q : request) : cache * list verdict :=
  let '(c, hist) := st in
  ((handle q c).2,
   match rq_rpc q with
   | RpcOk resp => if consults q c then (rq_hash q, (rq_now q, resp)) :: hist else hist
   | RpcErr _ => hist
   end).

Definition run_trace (qs : list request) : cache * list verdict :=
  fold_left trace_step qs (newKeyCache (MaxEntries (cfg_Cache cfg)), []).

(** The latest verdict on a key. *)
Definition latest (h : string) (hist : list verdict) : option (Z * ValidateResponse) :=
  match list_find (λ v, v.1 = h) hist with Some (_, v) => Some v.2 | None => None end.

End Traces.

(** ** The cache holds the latest verdicts *)

Section TraceInvariant.
Context (unicode_lower : N → N) (cfg : Config).

Definition trace_ok (st : cache * list verdict) : Prop :=
  cache_ok st.1 ∧
  ∀ h e, (h, e) ∈ abs st.1 → ∃ t resp, latest h st.2 = Some (t, resp) ∧ e = entry_of cfg t resp.

Lemma latest_cons h v hist :
  latest h (v :: hist) = if decide (v.1 = h) then Some v.2 else latest h hist.
Proof.
  unfold latest. cbn [list_find]. destruct (decide (v.1 = h)); [done|].
  match goal with |- context [list_find ?P hist] => destruct (list_find P hist) as [[i w]|]; simpl; done end.
Qed.

Lemma cache_ok_get c h : cache_ok c → cache_ok (get (V:=cacheEntry) h c).2.
Proof. intros Hok. by destruct (get_refines c h Hok). Qed.

Lemma cache_ok_put c h e : cache_ok c → cache_ok (put (V:=cacheEntry) h e c).
Proof. intros Hok. by destruct (put_refines c h e Hok) as (? & _). Qed.

Lemma accept_entry_cache o e c : (accept_entry o e c).2 = c.
Proof. unfold accept_entry. by destruct (ce_data e). Qed.

Lemma ask_cache now hash rpc c :
  cache_ok c →
  cache_ok (ask_control_plane cfg now hash rpc c).2 ∧
  ∀ p, p ∈ abs (ask_control_plane cfg now hash rpc c).2 →
    match rpc with
    | RpcOk resp => p = (hash, entry_of cfg now resp) ∨ (p ∈ abs c ∧ p.1 ≠ hash)
    | RpcErr _ => p ∈ abs c
    end.
Proof.
  intros Hok. destruct rpc as [resp|msg]; simpl.
  - pose proof (cache_ok_put c hash (entry_of cfg now resp) Hok).
    pose proof (λ p, put_elems c hash (entry_of cfg now resp) p Hok).
    by destruct (resp_Valid resp).
  - pose proof (cache_ok_get c hash Hok) as Hg. pose proof (λ p, get_elems c hash p Hok) as He.
    destruct (get hash c) as [[e|] c']; simpl in *; [|done].
    by destruct (_ && _); rewrite ?accept_entry_cache.
Qed.

(** The cache after a request: only a consulted verdict adds to it. *)
Lemma handle_cache q c :
  cache_ok c →
  cache_ok (handle unicode_lower cfg q c).2 ∧
  ∀ p, p ∈ abs (handle unicode_lower cfg q c).2 →
    match rq_rpc q with
    | RpcOk resp =>
      if consults unicode_lower q c
      then p = (rq_hash unicode_lower q, entry_of cfg (rq_now q) resp) ∨
           (p ∈ abs c ∧ p.1 ≠ rq_hash unicode_lower q)
      else p ∈ abs c
    | RpcErr _ => p ∈ abs c
    end.
Proof.
  intros Hok. unfold handle, Authenticate, consults. fold (rq_hash unicode_lower q).
  destruct (bool_decide (extractKey _ _ = "")); simpl.
  { split; [done|]. by destruct (rq_rpc q). }
  pose proof (cache_ok_get c (rq_hash unicode_lower q) Hok) as Hok1.
  pose proof (λ p, get_elems c (rq_hash unicode_lower q) p Hok) as Hel1.
  destruct (get (rq_hash unicode_lower q) c) as [r c1]. simpl in *.
  destruct (ask_cache (rq_now q) (rq_hash unicode_lower q) (rq_rpc q) c1 Hok1) as [Hok2 Hel2].
  assert (Hmiss : ∀ p, p ∈ abs (ask_control_plane cfg (rq_now q) (rq_hash unicode_lower q)
      (rq_rpc q) c1).2 →
    match rq_rpc q with
    | RpcOk resp => p = (rq_hash unicode_lower q, entry_of cfg (rq_now q) resp) ∨
                    (p ∈ abs c ∧ p.1 ≠ rq_hash unicode_lower q)
    | RpcErr _ => p ∈ abs c
    end).
  { intros p Hp%Hel2. destruct (rq_rpc q); [destruct Hp as [->|[??]]|]; auto. }
  destruct r as [e|]; [destruct (rq_now q <? ce_freshUntil e)%Z; simpl|]; try done.
  destruct (negb (ce_valid e)); rewrite ?accept_entry_cache; simpl;
    (split; [done|]); intros p Hp%Hel1; by destruct (rq_rpc q).
Qed.

Lemma trace_ok_step st q : trace_ok st → trace_ok (trace_step unicode_lower cfg st q).
Proof.
  destruct st as [c hist]. intros [Hok Hinv]. unfold trace_step.
  destruct (handle_cache q c Hok) as [Hok' Hel]. split; [done|]. simpl in *.
  intros h e Hin. specialize (Hel (h, e) Hin).
  destruct (rq_rpc q) as [resp|msg]; [|by apply Hinv].
  destruct (consults unicode_lower q c); [|by apply Hinv]. rewrite latest_cons. simpl.
  destruct Hel as [[= -> ->]|[Hin' Hne]].
  - rewrite decide_True by done. eauto.
  - simpl in Hne. rewrite decide_False by done. by apply Hinv.
Qed.

Lemma trace_ok_run qs : trace_ok (run_trace unicode_lower cfg qs).
Proof.
  unfold run_trace.
  assert (H0 : trace_ok (newKeyCache (MaxEntries (cfg_Cache cfg)), [])).
  { split; [apply cache_ok_new|]. by intros h e ?%elem_of_nil. }
  revert H0. generalize (newKeyCache (V:=cacheEntry) (MaxEntries (cfg_Cache cfg)), @nil verdict).
  induction qs as [|q qs IH]; intros st Hst; simpl; [done|]. by apply IH, trace_ok_step.
Qed.

(** When a cached verdict may be used without a fresh answer. *)
Definition usable (q : request) (t : Z) (resp : ValidateResponse) : Prop :=
  (rq_now q < t + effective_ttl cfg resp)%Z ∨
  (∃ msg, rq_rpc q = RpcErr msg) ∧ (rq_now q < t + StaleIfError (cfg_Cache cfg))%Z.

Lemma accept_entry_inv o e c d o' c' :
  accept_entry o e c = (Accept d, o', c') → ce_data e = Some d.
Proof. unfold accept_entry. by destruct (ce_data e); intros; simplify_eq. Qed.

Lemma entry_of_valid t resp :
  ce_valid (entry_of cfg t resp) = resp_Valid resp.
Proof. unfold entry_of. by destruct (resp_Valid resp). Qed.

(** What an accepted request rests on. *)
Lemma handle_accepts st q d o c' :
  trace_ok st → handle unicode_lower cfg q st.1 = (Accept d, o, c') →
  ∃ t resp, latest (rq_hash unicode_lower q) (trace_step unicode_lower cfg st q).2 = Some (t, resp) ∧
    resp_Valid resp = true ∧ d = data_of resp ∧ (t = rq_now q ∨ usable q t resp).
Proof.
  destruct st as [c hist]. intros [Hok Hinv] H. simpl in *.
  unfold trace_step, consults. unfold handle, Authenticate in H. fold (rq_hash unicode_lower q) in H.
  destruct (bool_decide _) eqn:Ek; [done|]. simpl.
  pose proof (λ e, get_Some c (rq_hash unicode_lower q) e Hok) as Hg.
  pose proof (cache_ok_get c (rq_hash unicode_lower q) Hok) as Hok1.
  pose proof (λ p, get_elems c (rq_hash unicode_lower q) p Hok) as Hel.
  destruct (get (rq_hash unicode_lower q) c) as [r c1]. simpl in *.
  assert (Hcached : ∀ e, (rq_hash unicode_lower q, e) ∈ abs c → ce_valid e = true →
    ce_data e = Some d → ∃ t resp, latest (rq_hash unicode_lower q) hist = Some (t, resp) ∧
      resp_Valid resp = true ∧ d = data_of resp ∧
      ce_freshUntil e = (t + effective_ttl cfg resp)%Z ∧
      ce_staleUntil e = (t + StaleIfError (cfg_Cache cfg))%Z).
  { intros e Hin Hv Hd. destruct (Hinv _ _ Hin) as (t & resp & Hl & ->).
    rewrite entry_of_valid in Hv. exists t, resp. unfold entry_of in *. rewrite Hv in *.
    simpl in *. by simplify_eq. }
  assert (Hask : ask_control_plane cfg (rq_now q) (rq_hash unicode_lower q) (rq_rpc q) c1
      = (Accept d, o, c') →
    ∃ t resp, latest (rq_hash unicode_lower q) (match rq_rpc q with
      | RpcOk resp => (rq_hash unicode_lower q, (rq_now q, resp)) :: hist | RpcErr _ => hist end)
      = Some (t, resp) ∧ resp_Valid resp = true ∧ d = data_of resp ∧
      (t = rq_now q ∨ usable q t resp)).
  { destruct (rq_rpc q) as [resp|msg] eqn:Erpc; simpl.
    - destruct (resp_Valid resp) eqn:Ev; [|done]. intros [= <- _ _]. rewrite latest_cons. simpl.
      rewrite decide_True by done. eauto 10.
    - pose proof (λ e, get_Some c1 (rq_hash unicode_lower q) e Hok1) as Hg2.
      destruct (get _ c1) as [[e|] c2]; simpl in *; [|done].
      destruct (ce_valid e && _) eqn:Ev; [|done]. apply andb_true_iff in Ev as [Ev Es%Z.ltb_lt].
      intros Hd%accept_entry_inv.
      destruct (Hcached e) as (t & resp & ? & ? & ? & ? & Hst); [by apply Hel, Hg2|done|done|].
      exists t, resp. split_and!; try done. right. right. split; [by eexists|]. by rewrite <- Hst. }
  destruct r as [e|]; [|by apply Hask].
  destruct (rq_now q <? ce_freshUntil e)%Z eqn:Ef; [|by apply Hask]. apply Z.ltb_lt in Ef.
  destruct (ce_valid e) eqn:Ev; [|done]. simpl in H. apply accept_entry_inv in H.
  destruct (Hcached e) as (t & resp & Hl & ? & ? & Hfr & _); [by apply Hg|done|done|].
  exists t, resp. split_and!; try done; [by destruct (rq_rpc q)|]. right. left. by rewrite <- Hfr.
Qed.

(** A valid entry always carries an identity. *)
Lemma accept_entry_no_nil o t resp c :
  ce_valid (entry_of cfg t resp) = true →
  (accept_entry o (entry_of cfg t resp) c).1.1 ≠ NilDereference.
Proof.
  rewrite entry_of_valid. unfold accept_entry, entry_of. by intros ->.
Qed.

Lemma ask_no_nil now hash rpc st c :
  trace_ok st → cache_ok c → (∀ p, p ∈ abs c → p ∈ abs st.1) →
  (ask_control_plane cfg now hash rpc c).1.1 ≠ NilDereference.
Proof.
  intros [_ Hinv] Hok Hsub. destruct rpc as [resp|msg]; simpl; [by destruct (resp_Valid resp)|].
  pose proof (λ e, get_Some c hash e Hok) as Hg.
  destruct (get hash c) as [[e|] c']; simpl in *; [|done].
  destruct (ce_valid e && _) eqn:Ev; [|done]. apply andb_true_iff in Ev as [Ev _].
  destruct (Hinv hash e) as (t & resp & _ & ->); [by apply Hsub, Hg|].
  by apply accept_entry_no_nil.
Qed.

Lemma handle_no_nil st q :
  trace_ok st → (handle unicode_lower cfg q st.1).1.1 ≠ NilDereference.
Proof.
  intros Hst. pose proof Hst as [Hok Hinv]. unfold handle, Authenticate.
  destruct (bool_decide _); [done|].
  pose proof (cache_ok_get st.1 (rq_hash unicode_lower q) Hok) as Hok1.
  pose proof (λ p, get_elems st.1 (rq_hash unicode_lower q) p Hok) as Hel.
  pose proof (λ e, get_Some st.1 (rq_hash unicode_lower q) e Hok) as Hg.
  fold (rq_hash unicode_lower q). destruct (get _ st.1) as [[e|] c1]; simpl in *;
    [|by eapply ask_no_nil].
  destruct (rq_now q <? ce_freshUntil e)%Z; [|by eapply ask_no_nil].
  destruct (ce_valid e) eqn:Ev; simpl; [|done].
  destruct (Hinv _ _ (Hg e eq_refl)) as (t & resp & _ & ->). by apply accept_entry_no_nil.
Qed.

End TraceInvariant.

(** ** Theorems *)

(** C11: bounded staleness.  After any sequence of requests, one that is
    accepted rests on the latest verdict the control plane gave on that key:
    it said valid, the identity attached is the one it named, and it was
    obtained for this very request, or less than min(ttl, the server's cache
    ttl) ago, or the control plane is unreachable and it was obtained less
    than stale_if_error ago.  A key never validated is never accepted. *)
Theorem accepted_on_bounded_staleness (unicode_lower : N → N) (cfg : Config)
    (qs : list request) (q : request) (d : authData) (o : string) (c' : cache) :
  let st := run_trace unicode_lower cfg qs in
  handle unicode_lower cfg q st.1 = (Accept d, o, c') →
  ∃ t resp,
    latest (rq_hash unicode_lower q) (trace_step unicode_lower cfg st q).2 = Some (t, resp) ∧
    resp_Valid resp = true ∧ d = data_of resp ∧ (t = rq_now q ∨ usable cfg q t resp).
Proof. intros st. apply handle_accepts, trace_ok_run. Qed.

(** no request sequence makes [Authenticate] dereference the nil identity
    of a negative cache entry. *)
Theorem authenticate_never_nil (unicode_lower : N → N) (cfg : Config)
    (qs : list request) (q : request) :
  (handle unicode_lower cfg q (run_trace unicode_lower cfg qs).1).1.1 ≠ NilDereference.
Proof. apply handle_no_nil, trace_ok_run. Qed.

(** A gateway with the default cache settings, a valid key seen at time 0,
    and the same key while the control plane is down. *)
Definition example_cfg : Config := {|
  cfg_Endpoint := "control:4317";
  cfg_Cache := {| TTL := 60 * second; NegativeTTL := 10 * second; MaxEntries := 2;
                  StaleIfError := 300 * second |} |}.

Definition example_request (now : Z) (rpc : rpc_answer) : request := {|
  rq_now := now; rq_sources := [("Authorization", ["bearer  k1 "])]; rq_rpc := rpc |}.

Definition example_resp : ValidateResponse := {|
  resp_Valid := true; resp_CustomerId := "c"; resp_ClientId := "acme";
  resp_CacheTtlSeconds := 30; resp_RateLimit := 0 |}.

Lemma accepted_on_bounded_staleness_witness :
  let qs := [example_request 0 (RpcOk example_resp)] in
  let q := example_request (100 * second) (RpcErr "down") in
  (handle id example_cfg q (run_trace id example_cfg qs).1).1
    = (Accept (data_of example_resp), outcomeUpstreamErrorStale) ∧
  ∃ t resp,
    latest (rq_hash id q) (trace_step id example_cfg (run_trace id example_cfg qs) q).2
      = Some (t, resp) ∧
    resp_Valid resp = true ∧ data_of example_resp = data_of resp ∧
    (t = rq_now q ∨ usable example_cfg q t resp).
Proof.
  intros qs q. split; [vm_compute; reflexivity|].
  eapply (accepted_on_bounded_staleness id example_cfg qs q). vm_compute. reflexivity.
Defined.
