(* ===== verification/Binary64.v ===== *)
(** * Go's float64

    IEEE 754 binary64 on the Standard Library's [spec_float], behind the class
    [Num] of the arithmetic the quota uses, and how far a result is from the
    exact one: on positive numbers away from overflow and underflow every
    operation is within [ulp] = 2^-52 of the exact result, relatively
    ([rounded_add], [rounded_sub], [rounded_mul], [rounded_div],
    [rounded_of_Z]), and comparisons are exact ([fltb_spec], [fleb_spec]). *)
From Stdlib Require Import SpecFloat QArith Qpower Lqa.
From S2P Require Import Prelude GoStrings.
#[local] Open Scope Z_scope.

Class Num (F : Type) := {
  of_Z : Z → F;
  nadd : F → F → F;
  nsub : F → F → F;
  nmul : F → F → F;
  ndiv : F → F → F;
  nleb : F → F → bool;
  nltb : F → F → bool;
  trunc : F → Z; (** [int64(x)] *)
}.

(** IEEE 754 binary64, round to nearest even. *)
Definition prec : Z := 53.
Definition emax : Z := 1024.

(** Conversion to int64 truncates; out of range (NaN and the infinities too)
    amd64 answers the smallest integer. *)
Definition sf_trunc (x : spec_float) : Z :=
  match x with
  | S754_zero _ => 0
  | S754_finite s m e =>
    let a := Z.shiftl (Zpos m) e in
    let z := if s then - a else a in
    if (MinInt64 <=? z) && (z <=? MaxInt64) then z else MinInt64
  | _ => MinInt64
  end.

#[export] Instance binary64 : Num spec_float := {
  of_Z z := binary_normalize prec emax z 0 false;
  nadd := SFadd prec emax;
  nsub := SFsub prec emax;
  nmul := SFmul prec emax;
  ndiv := SFdiv prec emax;
  nleb := SFleb;
  nltb := SFltb;
  trunc := sf_trunc;
}.

(** ** Powers of two *)

Definition pw (e : Z) : Q := Qpower 2 e.
#[global] Arguments pw e : simpl never.
#[local] Arguments inject_Z x : simpl never.
#[local] Arguments Qmult x y : simpl never.

Lemma pw_pos e : (0 < pw e)%Q.
Proof. apply Qpower_0_lt. by compute. Qed.
#[local] Hint Resolve pw_pos : core.

Lemma pw_plus a b : (pw (a + b) == pw a * pw b)%Q.
Proof. apply Qpower_plus. by compute. Qed.

Lemma pw_Z n : 0 ≤ n → (pw n == inject_Z (2 ^ n))%Q.
Proof. intros Hn. symmetry. by apply Zpower_Qpower. Qed.

Lemma pw_one n : 0 ≤ n → (1 <= pw n)%Q.
Proof.
  intros Hn. rewrite pw_Z by done. change 1%Q with (inject_Z 1). rewrite <- Zle_Qle.
  pose proof (Z.pow_pos_nonneg 2 n). lia.
Qed.

Lemma pw_le a b : a ≤ b → (pw a <= pw b)%Q.
Proof.
  intros Hab. replace b with (a + (b - a)) by lia. rewrite pw_plus.
  pose proof (pw_pos a). pose proof (pw_one (b - a) ltac:(lia)). nra.
Qed.

Lemma pw_le_inv a b : (pw a <= pw b)%Q → a ≤ b.
Proof.
  intros Hp. apply Z.nlt_ge. intros Hlt. pose proof (pw_le (b + 1) a ltac:(lia)) as H.
  rewrite pw_plus in H. change (pw 1) with 2%Q in H. pose proof (pw_pos b). lra.
Qed.

Lemma inject_pos p : (0 < inject_Z (Zpos p))%Q.
Proof. change 0%Q with (inject_Z 0). by rewrite <- Zlt_Qlt. Qed.
#[local] Hint Resolve inject_pos : core.

(** ** Shifting and rounding a mantissa *)

Lemma digits_log2 m : Zpos (digits2_pos m) = Z.log2 (Zpos m) + 1.
Proof.
  induction m as [m IH|m IH|]; [| |done]; cbn [digits2_pos]; rewrite Pos2Z.inj_succ, IH.
  - rewrite (Pos2Z.inj_xI m), Z.log2_succ_double by done. lia.
  - rewrite (Pos2Z.inj_xO m), Z.log2_double by done. lia.
Qed.

Lemma iter_shr_m p mrs : 0 ≤ shr_m mrs → shr_m (SpecFloat.iter_pos shr_1 p mrs) = shr_m mrs / 2 ^ Zpos p.
Proof.
  assert (H1 : ∀ x, 0 ≤ shr_m x → shr_m (shr_1 x) = shr_m x / 2).
  { intros [m r s]. simpl. destruct m as [|[q|q|]|q]; simpl; intros Hm; try done.
    - apply (Z.div_unique_pos _ _ _ 1); lia.
    - apply (Z.div_unique_pos _ _ _ 0); lia. }
  revert mrs. induction p as [p IH|p IH|]; intros mrs Hm; cbn [SpecFloat.iter_pos].
  - assert (Hx : 0 ≤ shr_m (shr_1 mrs)) by (rewrite H1 by done; apply Z.div_pos; lia).
    assert (Hy : 0 ≤ shr_m (SpecFloat.iter_pos shr_1 p (shr_1 mrs))) by (rewrite IH by done; apply Z.div_pos; lia).
    rewrite (IH _ Hy), (IH _ Hx), (H1 _ Hm), !Z.div_div by lia. f_equal.
    replace (Zpos p~1) with (1 + Zpos p + Zpos p) by lia. rewrite !Z.pow_add_r by lia. lia.
  - assert (Hy : 0 ≤ shr_m (SpecFloat.iter_pos shr_1 p mrs)) by (rewrite IH by done; apply Z.div_pos; lia).
    rewrite (IH _ Hy), (IH _ Hm), !Z.div_div by lia. f_equal.
    replace (Zpos p~0) with (Zpos p + Zpos p) by lia. by rewrite !Z.pow_add_r by lia.
  - by rewrite H1.
Qed.

Lemma shr_record_m m l : shr_m (shr_record_of_loc m l) = m.
Proof. by destruct l as [|[]]. Qed.

Lemma loc_of_record m l : loc_of_shr_record (shr_record_of_loc m l) = l.
Proof. by destruct l as [|[]]. Qed.

Lemma round_choices m l : round_nearest_even m l = m ∨ l ≠ loc_Exact ∧ round_nearest_even m l = m + 1.
Proof. destruct l as [|[]]; simpl; auto. destruct (Z.even m); auto. Qed.

Abbreviation exponent := (fexp prec emax).
Lemma exponent_max e : exponent e = Z.max (e - 53) (-1074).
Proof. done. Qed.

(** A mantissa and its exponent in the canonical form of a double. *)
Definition canonical (m : positive) (e : Z) : Prop :=
  Zpos m < 2 ^ 53 ∧ -1074 ≤ e ∧ (e = -1074 ∨ 2 ^ 52 ≤ Zpos m).

Lemma shr_fexp_small m e l :
  exponent (Zdigits2 m + e) ≤ e → shr_fexp prec emax m e l = (shr_record_of_loc m l, e).
Proof. intros Hle. unfold shr_fexp, shr. destruct (_ - e) eqn:E; try done. lia. Qed.

Lemma shr_fexp_shift m e l E :
  0 ≤ m → E = exponent (Zdigits2 m + e) → e < E →
  ∃ r, shr_fexp prec emax m e l = (r, E) ∧ shr_m r = m / 2 ^ (E - e).
Proof.
  intros Hm -> Hlt. unfold shr_fexp, shr. destruct (_ - e) as [|p|p] eqn:E; try lia.
  eexists. split; [f_equal; lia|]. rewrite iter_shr_m, shr_record_m by (by rewrite shr_record_m). done.
Qed.

Lemma digits_bounds m : 2 ^ (Zpos (digits2_pos m) - 1) ≤ Zpos m < 2 ^ Zpos (digits2_pos m).
Proof.
  rewrite digits_log2. replace (Z.log2 (Zpos m) + 1 - 1) with (Z.log2 (Zpos m)) by lia.
  pose proof (Z.log2_spec (Zpos m) eq_refl). by rewrite Z.add_1_r.
Qed.

Lemma digits_le m n : 0 ≤ n → Zpos m < 2 ^ n → Zpos (digits2_pos m) ≤ n.
Proof.
  intros Hn Hm. pose proof (digits_bounds m) as [Hd _].
  assert (Zpos (digits2_pos m) - 1 < n); [|lia]. apply (Z.pow_lt_mono_r_iff 2); lia.
Qed.

(** Rounding to nearest keeps what was shifted out in the last place: the
    result is the truncated mantissa or its successor, and the mantissa itself
    when nothing was lost. *)
Lemma round_aux_spec s m e l E :
  e ≤ E → E = exponent (Zpos (digits2_pos m) + e) → E ≤ 900 →
  0 < Zpos m / 2 ^ (E - e) →
  ∃ m' e' q, binary_round_aux prec emax s (Zpos m) e l = S754_finite s m' e' ∧ canonical m' e' ∧
    (q = Zpos m / 2 ^ (E - e) ∨ (e < E ∨ l ≠ loc_Exact) ∧ q = Zpos m / 2 ^ (E - e) + 1) ∧
    (inject_Z (Zpos m') * pw e' == inject_Z q * pw E)%Q.
Proof.
  intros He HE HE9 Hq. set (q0 := Zpos m / 2 ^ (E - e)) in *.
  pose proof (digits_bounds m) as [Hlo Hhi]. set (d := Zpos (digits2_pos m)) in *.
  assert (Hd : 1 ≤ d) by (unfold d; lia).
  rewrite exponent_max in HE.
  assert (H53 : q0 < 2 ^ 53).
  { apply Z.div_lt_upper_bound; [lia|]. rewrite <- Z.pow_add_r by lia.
    eapply Z.lt_le_trans; [exact Hhi|]. apply Z.pow_le_mono_r; lia. }
  assert (H52 : E = -1074 ∨ 2 ^ 52 ≤ q0).
  { destruct (decide (E = -1074)) as [|Hne]; [by left|right].
    apply Z.div_le_lower_bound; [lia|]. rewrite <- Z.pow_add_r by lia.
    etransitivity; [|exact Hlo]. apply Z.pow_le_mono_r; lia. }
  assert (Hfirst : ∃ r, shr_fexp prec emax (Zpos m) e l = (r, E) ∧ shr_m r = q0 ∧
    (loc_of_shr_record r ≠ loc_Exact → e < E ∨ l ≠ loc_Exact)).
  { destruct (decide (e < E)) as [Hlt|Hge].
    - destruct (shr_fexp_shift (Zpos m) e l E) as (r & Hr & Hm); try done. exists r. auto.
    - assert (e = E) as -> by lia. exists (shr_record_of_loc (Zpos m) l).
      rewrite shr_fexp_small by (simpl; rewrite exponent_max; fold d; lia).
      rewrite shr_record_m, loc_of_record. unfold q0. rewrite Z.sub_diag, Z.div_1_r. auto. }
  destruct Hfirst as (r & Hr & Hm & Hloc). unfold binary_round_aux. rewrite Hr, Hm.
  set (q := round_nearest_even q0 (loc_of_shr_record r)).
  assert (Hq' : q = q0 ∨ (e < E ∨ l ≠ loc_Exact) ∧ q = q0 + 1).
  { unfold q. destruct (round_choices q0 (loc_of_shr_record r)) as [->|[Hne ->]]; auto. }
  clearbody q. destruct (decide (q < 2 ^ 53)) as [Hlt|Hge].
  - destruct q as [|p|p]; [lia| |lia].
    pose proof (digits_le p 53 ltac:(lia) Hlt) as Hdp.
    rewrite shr_fexp_small by (simpl; rewrite exponent_max; lia). cbn [shr_record_of_loc shr_m].
    rewrite (proj2 (Z.leb_le E (emax - prec))) by (unfold emax, prec; lia).
    exists p, E, (Zpos p). split; [done|]. split; [|split; [exact Hq'|done]]. split_and!; lia.
  - assert (q = 2 ^ 53) as -> by lia.
    destruct (shr_fexp_shift (2 ^ 53) E loc_Exact (E + 1)) as (r' & Hr' & Hm'); [lia| |lia|].
    { rewrite exponent_max. change (Zdigits2 (2 ^ 53)) with 54. lia. }
    rewrite Hr', Hm'. replace (E + 1 - E) with 1 by lia. change (2 ^ 53 / 2 ^ 1) with (Zpos (2 ^ 52)).
    rewrite (proj2 (Z.leb_le (E + 1) (emax - prec))) by (unfold emax, prec; lia).
    exists (2 ^ 52)%positive, (E + 1), (2 ^ 53). split; [done|]. split; [split_and!; try done; lia|].
    split; [done|]. rewrite pw_plus. change (pw 1) with 2%Q.
    change (inject_Z (2 ^ 53)) with (inject_Z (2 ^ 52 * 2)). rewrite inject_Z_mult.
    change (inject_Z 2) with 2%Q. change (inject_Z (Zpos (2 ^ 52))) with (inject_Z (2 ^ 52)). ring.
Qed.

(** ** Values *)

Definition fval (x : spec_float) : Q :=
  match x with S754_finite false m e => inject_Z (Zpos m) * pw e | _ => 0 end.

(** Zero or a positive double in canonical form. *)
Definition fin (x : spec_float) : Prop :=
  match x with
  | S754_zero false => True
  | S754_finite false m e => canonical m e
  | _ => False
  end.

(** The relative error of an operation. *)
Definition ulp : Q := pw (-52).
Definition rounded (a : spec_float) (x : Q) : Prop :=
  fin a ∧ ((1 - ulp) * x <= fval a)%Q ∧ (fval a <= (1 + ulp) * x)%Q.

Lemma ulp_small : (0 < ulp)%Q ∧ (ulp <= 1 # 1000000)%Q.
Proof. split; by vm_compute. Qed.

Lemma fval_nonneg x : (0 <= fval x)%Q.
Proof.
  destruct x as [| | |[] m e]; simpl; try apply Qle_refl.
  pose proof (inject_pos m). pose proof (pw_pos e). nra.
Qed.

Lemma rounded_exact a x : fin a → (fval a == x)%Q → rounded a x.
Proof.
  intros Hf Hx. split; [done|]. pose proof (fval_nonneg a). pose proof ulp_small as [? _]. rewrite <- Hx. split; nra.
Qed.

Lemma inject_le a b : a ≤ b → (inject_Z a <= inject_Z b)%Q.
Proof. by rewrite <- Zle_Qle. Qed.

(** What is shifted out of a mantissa is less than one in the last place. *)
Lemma truncated m e k :
  0 ≤ k → let q := m / 2 ^ k in
  (inject_Z q * pw (e + k) <= inject_Z m * pw e)%Q ∧
  (inject_Z (m + 1) * pw e <= inject_Z (q + 1) * pw (e + k))%Q.
Proof.
  intros Hk q. pose proof (Z.pow_pos_nonneg 2 k ltac:(lia) Hk) as Hp.
  pose proof (Z.div_mod m (2 ^ k) ltac:(lia)) as Hm. pose proof (Z.mod_pos_bound m (2 ^ k) Hp) as Hr.
  fold q in Hm. pose proof (pw_pos e) as He. rewrite pw_plus, (pw_Z k Hk).
  assert (H1 : (inject_Z q * inject_Z (2 ^ k) <= inject_Z m)%Q)
    by (rewrite <- inject_Z_mult; apply inject_le; lia).
  assert (H2 : (inject_Z (m + 1) <= inject_Z (q + 1) * inject_Z (2 ^ k))%Q)
    by (rewrite <- inject_Z_mult; apply inject_le; lia).
  split; nra.
Qed.

Lemma round_aux_near m e l x :
  let d := Zpos (digits2_pos m) in let E := exponent (d + e) in
  (inject_Z (Zpos m) * pw e <= x)%Q → (x < inject_Z (Zpos m + 1) * pw e)%Q → (x <= pw 900)%Q →
  e ≤ E → E = d + e - 53 ∨ E = e ∧ l = loc_Exact ∧ (x == inject_Z (Zpos m) * pw e)%Q →
  rounded (binary_round_aux prec emax false (Zpos m) e l) x.
Proof.
  intros d E Hlo Hhi Hx He Hcase. pose proof (digits_bounds m) as [Hd1 Hd2]. fold d in Hd1, Hd2.
  assert (Hdpos : 1 ≤ d) by (unfold d; lia).
  assert (HE : E ≤ 900).
  { assert (d - 1 + e ≤ 900).
    { apply pw_le_inv. eapply Qle_trans; [|exact Hx]. eapply Qle_trans; [|exact Hlo].
      rewrite pw_plus, (pw_Z (d - 1)) by lia. pose proof (inject_le _ _ Hd1). pose proof (pw_pos e). nra. }
    unfold E. rewrite exponent_max. lia. }
  set (q := Zpos m / 2 ^ (E - e)).
  assert (Hq : 2 ^ 52 ≤ q ∨ E = e ∧ l = loc_Exact ∧ (x == inject_Z (Zpos m) * pw e)%Q ∧ q = Zpos m).
  { destruct Hcase as [Hn|(HEe & Hl & Hxe)].
    - left. apply Z.div_le_lower_bound; [apply Z.pow_pos_nonneg; lia|]. rewrite <- Z.pow_add_r by lia.
      replace (E - e + 52) with (d - 1) by lia. done.
    - right. unfold q. rewrite HEe, Z.sub_diag, Z.div_1_r. auto. }
  destruct (round_aux_spec false m e l E He eq_refl HE) as (m' & e' & q' & -> & Hc & Hq' & Hval).
  { fold q. lia. }
  fold q in Hq'. destruct (truncated (Zpos m) e (E - e) ltac:(lia)) as [T1 T2]. fold q in T1, T2.
  replace (e + (E - e)) with E in T1, T2 by lia. pose proof (pw_pos E) as HpE.
  destruct Hq as [Hq|(HEe & Hl & Hxe & Hqm)].
  - split; [exact Hc|]. simpl. rewrite Hval.
    assert (Hu : (pw E <= ulp * (inject_Z q * pw E))%Q).
    { pose proof (inject_le _ _ Hq) as Hi. rewrite <- (pw_Z 52) in Hi by lia.
      assert (H1 : (ulp * pw 52 == 1)%Q) by (by vm_compute). pose proof ulp_small as [Hu0 _].
      assert (H2 : (pw 52 * pw E <= inject_Z q * pw E)%Q) by nra.
      apply (Qmult_le_l _ _ ulp Hu0) in H2. rewrite Qmult_assoc, H1 in H2. lra. }
    rewrite !inject_Z_plus in T2. rewrite inject_Z_plus in Hhi. change (inject_Z 1) with 1%Q in Hhi. change (inject_Z 1) with 1%Q in T2.
    set (V := (inject_Z q * pw E)%Q) in *.
    assert (T3 : ((inject_Z q + 1) * pw E == V + pw E)%Q) by (unfold V; ring). rewrite T3 in T2.
    pose proof ulp_small as [Hu0 _].
    assert (Hux : (ulp * V <= ulp * x)%Q) by (apply Qmult_le_l; [done|lra]).
    destruct Hq' as [->|[_ ->]].
    + fold V. split; lra.
    + rewrite inject_Z_plus. change (inject_Z 1) with 1%Q. rewrite T3. split; lra.
  - apply rounded_exact; [exact Hc|]. simpl. rewrite Hval. destruct Hq' as [->|[[?|?] _]]; [|lia|done].
    rewrite Hqm, HEe. by symmetry.
Qed.

Lemma shl_align_spec m e e' :
  (shl_align m e e').2 = Z.min e e' ∧ Zpos (shl_align m e e').1 = Zpos m * 2 ^ (e - Z.min e e').
Proof.
  unfold shl_align. destruct (e' - e) as [|d|d] eqn:E; cbn [fst snd].
  1,2: replace (Z.min e e') with e by lia; rewrite Z.sub_diag; lia.
  replace (Z.min e e') with e' by lia. split; [done|].
  change (Pos.iter xO m d) with (shift_pos d m). rewrite shift_pos_correct. change (Z.pow_pos 2 d) with (2 ^ Zpos d).
  replace (e - e') with (Zpos d) by lia. lia.
Qed.

Lemma shl_align_val m e e' :
  (inject_Z (Zpos (shl_align m e e').1) * pw (Z.min e e') == inject_Z (Zpos m) * pw e)%Q.
Proof.
  rewrite (proj2 (shl_align_spec m e e')), inject_Z_mult, <- pw_Z by lia.
  rewrite <- Qmult_assoc, <- pw_plus. by replace (e - Z.min e e' + Z.min e e') with e by lia.
Qed.

Lemma digits_aligned m e e' :
  Zpos (digits2_pos (shl_align m e e').1) = Zpos (digits2_pos m) + (e - Z.min e e').
Proof.
  rewrite !digits_log2, (proj2 (shl_align_spec m e e')). rewrite Z.log2_mul_pow2 by lia. lia.
Qed.

Lemma round_near m e x :
  -1074 ≤ e → (x == inject_Z (Zpos m) * pw e)%Q → (x <= pw 900)%Q →
  rounded (binary_round prec emax false m e) x.
Proof.
  intros He Hx Hmax. unfold binary_round. set (E := exponent (Zpos (digits2_pos m) + e)).
  pose proof (digits_aligned m e E) as Hd. pose proof (shl_align_val m e E) as Hv.
  pose proof (proj1 (shl_align_spec m e E)) as He'.
  destruct (shl_align m e E) as [mz ez]. cbn [fst snd] in *. subst ez.
  assert (HE : exponent (Zpos (digits2_pos mz) + Z.min e E) = E) by (rewrite Hd; unfold E; f_equal; lia).
  apply round_aux_near; rewrite ?HE, ?Hv; try done.
  - rewrite Hx. apply Qle_refl.
  - rewrite inject_Z_plus, Hx, <- Hv. pose proof (pw_pos (Z.min e E)). change (inject_Z 1) with 1%Q. lra.
  - lia.
  - destruct (decide (E ≤ e)) as [Hle|Hgt]; [right; split_and!; [lia|done|done]|left].
    rewrite Hd. unfold E in *. rewrite exponent_max in *. lia.
Qed.

Lemma normalize_near z e x :
  0 ≤ z → -1074 ≤ e → (x == inject_Z z * pw e)%Q → (x <= pw 900)%Q →
  rounded (binary_normalize prec emax z e false) x.
Proof.
  intros Hz He Hx Hmax. destruct z as [|p|p]; [|by apply round_near|lia].
  simpl. apply rounded_exact; [done|]. rewrite Hx. simpl. change (inject_Z 0) with 0%Q. ring.
Qed.

Lemma fin_exponent s m e : fin (S754_finite s m e) → s = false ∧ -1074 ≤ e.
Proof. by destruct s; [|intros (_ & ? & _)]. Qed.

Lemma pw_le_900 z : z ≤ 2 ^ 70 → (inject_Z z <= pw 900)%Q.
Proof.
  intros Hz. eapply Qle_trans; [by apply inject_le|]. rewrite <- pw_Z by lia. by apply pw_le.
Qed.

Lemma rounded_of_Z z : 0 ≤ z ≤ 2 ^ 70 → rounded (of_Z z) (inject_Z z).
Proof.
  intros Hz. apply normalize_near; try lia; [|apply pw_le_900; lia]. change (pw 0) with 1%Q. ring.
Qed.

Lemma rounded_add a b :
  fin a → fin b → (fval a + fval b <= pw 900)%Q → rounded (nadd a b) (fval a + fval b).
Proof.
  intros Ha Hb Hmax. destruct a as [[]| | |[] ma ea], b as [[]| | |[] mb eb]; try done.
  1-2: apply rounded_exact; [exact Hb || exact Ha|simpl; ring].
  apply fin_exponent in Ha as [_ Ha], Hb as [_ Hb].
  pose proof (shl_align_val ma ea (Z.min ea eb)) as Va. pose proof (shl_align_val mb eb (Z.min ea eb)) as Vb.
  replace (Z.min ea (Z.min ea eb)) with (Z.min ea eb) in Va by lia.
  replace (Z.min eb (Z.min ea eb)) with (Z.min ea eb) in Vb by lia.
  apply normalize_near; [simpl; lia|lia| |done]. simpl.
  change (Zpos (?p + ?q)) with (Zpos p + Zpos q). rewrite inject_Z_plus, <- Va, <- Vb. ring.
Qed.

Lemma rounded_sub a b :
  fin a → fin b → (fval b <= fval a)%Q → (fval a <= pw 900)%Q → rounded (nsub a b) (fval a - fval b).
Proof.
  intros Ha Hb Hle Hmax. pose proof (fval_nonneg b).
  destruct a as [[]| | |[] ma ea], b as [[]| | |[] mb eb]; try done.
  - exfalso. simpl in Hle. pose proof (inject_pos mb). pose proof (pw_pos eb). nra.
  - apply rounded_exact; [exact Ha|simpl; ring].
  - apply fin_exponent in Ha as [_ Ha], Hb as [_ Hb].
    pose proof (shl_align_val ma ea (Z.min ea eb)) as Va. pose proof (shl_align_val mb eb (Z.min ea eb)) as Vb.
    replace (Z.min ea (Z.min ea eb)) with (Z.min ea eb) in Va by lia.
    replace (Z.min eb (Z.min ea eb)) with (Z.min ea eb) in Vb by lia.
    simpl in Hle, Hmax, H |- *. unfold binary64, nsub, SFsub. cbn [cond_Zopp].
    apply normalize_near; [|lia| |lra].
    + apply Z.le_0_sub. rewrite Zle_Qle. rewrite <- Va, <- Vb in Hle.
      by apply Qmult_lt_0_le_reg_r in Hle.
    + unfold Z.sub. rewrite inject_Z_plus, inject_Z_opp, <- Va, <- Vb. ring.
Qed.

(** Products and quotients of numbers whose result is a normal double. *)
Lemma mantissa_value m e :
  (pw (Zpos (digits2_pos m) + e - 1) <= inject_Z (Zpos m) * pw e)%Q ∧
  (inject_Z (Zpos m) * pw e < pw (Zpos (digits2_pos m) + e))%Q.
Proof.
  pose proof (digits_bounds m) as [H1 H2]. pose proof (pw_pos e).
  replace (Zpos (digits2_pos m) + e - 1) with (Zpos (digits2_pos m) - 1 + e) by lia.
  rewrite !pw_plus, (pw_Z (Zpos _ - 1)), (pw_Z (Zpos _)) by lia. apply inject_le in H1. rewrite Zlt_Qlt in H2. split.
  - apply Qmult_le_compat_r; [done|lra].
  - by apply Qmult_lt_r.
Qed.

Lemma pw_lt_inv a b : (pw a < pw b)%Q → a < b.
Proof. intros Hp. apply Z.nle_gt. intros Hle%pw_le. lra. Qed.

Lemma canonical_digits m e :
  canonical m e → Zpos (digits2_pos m) ≤ 53 ∧ (e = -1074 ∨ Zpos (digits2_pos m) = 53).
Proof.
  intros (H53 & He & Hn). pose proof (digits_le m 53 ltac:(lia) H53). split; [done|].
  destruct Hn as [?|Hn]; [by left|right]. rewrite digits_log2 in *.
  assert (52 ≤ Z.log2 (Zpos m)); [|lia]. apply Z.log2_le_pow2; lia.
Qed.

Lemma digits_mul a b :
  Zpos (digits2_pos a) + Zpos (digits2_pos b) - 1 ≤ Zpos (digits2_pos (a * b))
    ≤ Zpos (digits2_pos a) + Zpos (digits2_pos b).
Proof.
  rewrite !digits_log2. change (Zpos (a * b)) with (Zpos a * Zpos b).
  pose proof (Z.log2_mul_below (Zpos a) (Zpos b) eq_refl eq_refl).
  pose proof (Z.log2_mul_above (Zpos a) (Zpos b) ltac:(lia) ltac:(lia)). lia.
Qed.

Lemma rounded_mul a b :
  fin a → fin b → (fval a * fval b == 0)%Q ∨ (pw (-900) <= fval a * fval b)%Q → (fval a * fval b <= pw 900)%Q →
  rounded (nmul a b) (fval a * fval b).
Proof.
  intros Ha Hb Hmin Hmax. destruct a as [[]| | |[] ma ea], b as [[]| | |[] mb eb]; try done.
  { apply rounded_exact; [exact I|simpl; ring]. }
  simpl in Hmin, Hmax |- *. set (x := (_ * _)%Q) in *.
  assert (Hx : (x == inject_Z (Zpos (ma * mb)) * pw (ea + eb))%Q).
  { unfold x. change (Zpos (ma * mb)) with (Zpos ma * Zpos mb). rewrite inject_Z_mult, pw_plus. ring. }
  assert (Hnorm : -900 < Zpos (digits2_pos (ma * mb)) + (ea + eb)).
  { destruct (mantissa_value (ma * mb) (ea + eb)) as [H1 H2]. rewrite <- Hx in H1, H2.
    apply pw_lt_inv. pose proof (pw_pos (Zpos (digits2_pos (ma * mb)) + (ea + eb) - 1)).
    destruct Hmin as [?|?]; lra. }
  apply round_aux_near; try done; rewrite ?exponent_max.
  - rewrite Hx. apply Qle_refl.
  - rewrite inject_Z_plus, Hx. pose proof (pw_pos (ea + eb)). change (inject_Z 1) with 1%Q. lra.
  - assert (53 ≤ Zpos (digits2_pos (ma * mb))); [|lia].
    destruct (canonical_digits _ _ Ha), (canonical_digits _ _ Hb). pose proof (digits_mul ma mb). lia.
  - left. lia.
Qed.

Lemma div_core m1 e1 m2 e2 (q e' : Z) l :
  SFdiv_core_binary prec emax (Zpos m1) e1 (Zpos m2) e2 = (q, e', l) →
  (-900 ≤ Zpos (digits2_pos m1) + e1 - (Zpos (digits2_pos m2) + e2)) →
  let x := (inject_Z (Zpos m1) * pw e1 / (inject_Z (Zpos m2) * pw e2))%Q in
  2 ^ 52 ≤ q ∧ (inject_Z q * pw e' <= x)%Q ∧ (x < inject_Z (q + 1) * pw e')%Q.
Proof.
  intros Hcore HD x. unfold SFdiv_core_binary, Zdigits2 in Hcore. rewrite exponent_max in Hcore.
  set (D := Zpos (digits2_pos m1) + e1 - (Zpos (digits2_pos m2) + e2)) in *.
  set (ee := Z.min (Z.max (D - 53) (-1074)) (e1 - e2)) in *. set (s := e1 - e2 - ee) in *.
  assert (Hs : 0 ≤ s) by lia.
  assert (Hm : match s with Z0 => Zpos m1 | Zpos _ => Z.shiftl (Zpos m1) s | Zneg _ => 0 end = Zpos m1 * 2 ^ s).
  { destruct s as [|p|p]; [lia|by rewrite Z.shiftl_mul_pow2 by lia|lia]. }
  rewrite Hm in Hcore. pose proof (Z_div_mod (Zpos m1 * 2 ^ s) (Zpos m2) eq_refl) as Hdm.
  destruct (Z.div_eucl _ _) as [q0 r]. assert (q = q0 ∧ e' = ee) as [-> ->] by (split; congruence). clear Hcore. destruct Hdm as [Hq Hr].
  pose proof (digits_bounds m1) as [H1 _]. pose proof (digits_bounds m2) as [_ H2].
  pose proof (Z.pow_pos_nonneg 2 s ltac:(lia) Hs).
  assert (Hlow : 2 ^ 52 * Zpos m2 ≤ Zpos m1 * 2 ^ s).
  { transitivity (2 ^ 52 * 2 ^ Zpos (digits2_pos m2)); [lia|].
    transitivity (2 ^ (Zpos (digits2_pos m1) - 1) * 2 ^ s); [|nia].
    rewrite <- !Z.pow_add_r by lia. apply Z.pow_le_mono_r; lia. }
  split; [nia|].
  assert (Hx : (x * inject_Z (Zpos m2) == inject_Z (Zpos m1) * inject_Z (2 ^ s) * pw ee)%Q).
  { rewrite <- pw_Z, <- Qmult_assoc, <- pw_plus by done. unfold x.
    replace e1 with (s + ee + e2) by lia. rewrite pw_plus. field.
    pose proof (inject_pos m2). pose proof (pw_pos e2). split; intros E; rewrite E in *; lra. }
  pose proof (inject_pos m2) as Hm2. pose proof (pw_pos ee) as Hee.
  split.
  - apply (Qmult_le_r _ _ (inject_Z (Zpos m2)) Hm2). rewrite Hx.
    assert (E : (inject_Z q0 * pw ee * inject_Z (Zpos m2) == inject_Z (q0 * Zpos m2) * pw ee)%Q)
      by (rewrite inject_Z_mult; ring).
    rewrite E.
    rewrite <- inject_Z_mult. apply Qmult_le_compat_r; [apply inject_le; lia|lra].
  - apply (Qmult_lt_r _ _ (inject_Z (Zpos m2)) Hm2). rewrite Hx.
    assert (E : (inject_Z (q0 + 1) * pw ee * inject_Z (Zpos m2) == inject_Z ((q0 + 1) * Zpos m2) * pw ee)%Q)
      by (rewrite inject_Z_mult; ring).
    rewrite E.
    rewrite <- inject_Z_mult. apply Qmult_lt_r; [done|]. rewrite <- Zlt_Qlt. lia.
Qed.

Lemma rounded_div a b :
  fin a → fin b → (0 < fval b)%Q → (fval a == 0)%Q ∨ (pw (-900) <= fval a / fval b)%Q →
  (fval a / fval b <= pw 900)%Q → rounded (ndiv a b) (fval a / fval b).
Proof.
  intros Ha Hb Hpos Hmin Hmax.
  destruct b as [[]| | |[] mb eb]; try done.
  destruct a as [[]| | |[] ma ea]; try done.
  simpl in Hpos, Hmin, Hmax |- *. set (x := (_ / _)%Q) in *.
  destruct (SFdiv_core_binary _ _ _ _ _ _) as [[q e'] l] eqn:Hcore.
  destruct (mantissa_value ma ea) as [A1 A2], (mantissa_value mb eb) as [B1 B2].
  assert (HA : (inject_Z (Zpos ma) * pw ea == x * (inject_Z (Zpos mb) * pw eb))%Q) by (rewrite (Qmult_comm x); symmetry; apply Qmult_div_r; intros E; rewrite E in Hpos; lra).
  pose proof (inject_pos ma). pose proof (pw_pos ea).
  assert (Hx : (pw (-900) <= x)%Q) by (destruct Hmin as [?|?]; [exfalso; nra|done]).
  apply div_core in Hcore as (Hq & Hlo & Hhi).
  2: { set (d1 := Zpos (digits2_pos ma)) in *. set (d2 := Zpos (digits2_pos mb)) in *.
    assert (pw (-900 + (d2 + eb - 1)) < pw (d1 + ea))%Q as ?%pw_lt_inv; [|lia].
    rewrite pw_plus. pose proof (pw_pos (-900)). pose proof (pw_pos (d2 + eb - 1)).
    eapply Qle_lt_trans; [|exact A2]. rewrite HA. apply Qmult_le_compat_nonneg; split; lra. }
  fold x in Hlo, Hhi. destruct q as [|p|p]; [lia| |lia].
  pose proof (digits_bounds p) as [Hp1 Hp2].
  assert (Hd : 53 ≤ Zpos (digits2_pos p)).
  { rewrite digits_log2. assert (52 ≤ Z.log2 (Zpos p)); [|lia]. apply Z.log2_le_pow2; lia. }
  assert (Hnorm : -900 < Zpos (digits2_pos p) + e').
  { apply pw_lt_inv. eapply Qle_lt_trans; [exact Hx|]. eapply Qlt_le_trans; [exact Hhi|].
    rewrite pw_plus, (pw_Z (Zpos _)) by lia. apply Qmult_le_compat_r; [apply inject_le; lia|]. pose proof (pw_pos e'). lra. }
  apply round_aux_near; try done; rewrite ?exponent_max; [lia|left; lia].
Qed.

(** ** Comparisons *)

Lemma fcompare_spec a b : fin a → fin b → SFcompare a b = Some (fval a ?= fval b)%Q.
Proof.
  assert (Hfin : ∀ m e, (0 < inject_Z (Zpos m) * pw e)%Q).
  { intros m e. pose proof (inject_pos m). pose proof (pw_pos e). nra. }
  assert (Hlt : ∀ m1 e1 m2 e2, canonical m1 e1 → canonical m2 e2 → e1 < e2 →
    (inject_Z (Zpos m1) * pw e1 < inject_Z (Zpos m2) * pw e2)%Q).
  { intros m1 e1 m2 e2 (H1 & Hlo & _) (_ & _ & H2) He. destruct H2 as [?|H2]; [lia|].
    rewrite Zlt_Qlt in H1. apply inject_le in H2. rewrite <- pw_Z in H1, H2 by lia.
    apply Qlt_le_trans with (pw (53 + e1)).
    - rewrite pw_plus. by apply Qmult_lt_r.
    - eapply Qle_trans; [apply (pw_le _ (52 + e2)); lia|]. rewrite pw_plus. apply Qmult_le_compat_r; [done|].
      pose proof (pw_pos e2). lra. }
  intros Ha Hb. destruct a as [[]| | |[] m1 e1], b as [[]| | |[] m2 e2]; try done; simpl; f_equal.
  - symmetry. apply Qlt_alt. apply Hfin.
  - symmetry. apply Qgt_alt. apply Hfin.
  - destruct (Z.compare_spec e1 e2) as [->|He|He].
    + change (Pos.compare_cont Eq m1 m2) with (Zpos m1 ?= Zpos m2). pose proof (pw_pos e2) as Hp.
      destruct (Z.compare_spec (Zpos m1) (Zpos m2)) as [->|Hm|Hm]; symmetry.
      * by apply Qeq_alt.
      * apply Qlt_alt, Qmult_lt_r; [done|]. by rewrite <- Zlt_Qlt.
      * apply Qgt_alt, Qmult_lt_r; [done|]. by rewrite <- Zlt_Qlt.
    + symmetry. apply Qlt_alt. by apply Hlt.
    + symmetry. apply Qgt_alt. by apply Hlt.
Qed.

Lemma fltb_spec a b : fin a → fin b → nltb a b = true ↔ (fval a < fval b)%Q.
Proof.
  intros Ha Hb. simpl. unfold SFltb. rewrite fcompare_spec by done. rewrite Qlt_alt.
  destruct (_ ?= _)%Q; done.
Qed.

Lemma fleb_spec a b : fin a → fin b → nleb a b = true ↔ (fval a <= fval b)%Q.
Proof.
  intros Ha Hb. simpl. unfold SFleb. rewrite fcompare_spec by done. rewrite Qle_alt.
  destruct (_ ?= _)%Q; split; try done; by intros [].
Qed.

(** ** Signs *)

(** Not above zero. *)
Definition nonpos (x : spec_float) : Prop :=
  match x with S754_finite false _ _ | S754_infinity false => False | _ => True end.

Lemma nonpos_ltb x : nonpos x → nltb (of_Z 0) x = false.
Proof. by destruct x as [|[]| |[]]. Qed.

Lemma round_aux_nonpos m e l : nonpos (binary_round_aux prec emax true m e l).
Proof.
  unfold binary_round_aux. destruct (shr_fexp _ _ _ _ _) as [r e1]. destruct (shr_fexp _ _ _ _ _) as [r2 e2].
  destruct (shr_m r2); try done. by destruct (_ <=? _).
Qed.

Lemma normalize_nonpos m e : m ≤ 0 → nonpos (binary_normalize prec emax m e false).
Proof.
  intros Hm. destruct m as [|p|p]; [done|lia|]. simpl. unfold binary_round.
  destruct (shl_align _ _ _). apply round_aux_nonpos.
Qed.

Lemma nonpos_add x y : nonpos x → nonpos y → nonpos (nadd x y).
Proof.
  intros Hx Hy. destruct x as [[]|[]| |[] mx ex], y as [[]|[]| |[] my ey]; try done.
  apply normalize_nonpos. simpl. lia.
Qed.

Lemma nonpos_div x m e : nonpos x → nonpos (ndiv x (S754_finite false m e)).
Proof.
  intros Hx. destruct x as [[]|[]| |[] mx ex]; try done. simpl.
  destruct (SFdiv_core_binary _ _ _ _ _ _) as [[q e'] l]. apply round_aux_nonpos.
Qed.

#[global] Arguments fval x : simpl never.
