(* ===== verification/TenantQuota.v ===== *)
(** * The per-tenant ingest quota (collector/processor/tenantquota)

    The token buckets run on the doubles of [Binary64].  What does not depend
    on rounding is proved for every kind of numbers with [NumLaws]; the rate
    bound is proved for the doubles, rounding included. *)
From Stdlib Require Import Ascii SpecFloat QArith Lqa.
From S2P Require Import Prelude GoStrings Binary64 TenantAuth.
#[local] Open Scope Z_scope.

(** The little the code relies on: [x < x] is false, and no time has passed
    between an instant and itself. *)
Class NumLaws F `{Num F} := {
  nltb_irrefl (x : F) : nltb x x = false;
  no_time : nltb (of_Z 0) (nadd (of_Z 0) (ndiv (of_Z 0) (of_Z second)) : F) = false;
}.

#[export] Instance binary64_laws : NumLaws spec_float.
Proof.
  split; [|reflexivity]. intros [[]|[]| |[] m e]; try done;
    cbn; unfold SFltb, SFcompare; rewrite Z.compare_refl, Pos.compare_cont_refl; done.
Qed.

(** ** Time *)

(** [t.Sub(u)], saturating at the bounds of a Duration. *)
Definition time_Sub (t u : Z) : Z := Z.max MinInt64 (Z.min MaxInt64 (t - u)).

Definition minute : Z := 60 * second.
Definition millisecond : Z := 1000000.
Definition idleTimeout : Z := 10 * minute.
Definition gcInterval : Z := 10 * minute.

(** [d.Seconds()]. *)
Definition Seconds `{Num F} (d : Z) : F :=
  nadd (of_Z (Z.quot d second)) (ndiv (of_Z (Z.rem d second)) (of_Z second)).

#[global] Arguments Seconds {F H} d : simpl never.

(** ** Token buckets *)

Record bucket (F : Type) := {
  tokens : F;
  capacity : F;
  rate : F;
  lastSeen : Z;
}.
Arguments tokens {F}. Arguments capacity {F}. Arguments rate {F}. Arguments lastSeen {F}.
Arguments Build_bucket {F}.

Record registry (F : Type) := {
  burstSeconds : F;
  buckets : gmap string (bucket F);
  lastGC : Z;
}.
Arguments burstSeconds {F}. Arguments buckets {F}. Arguments lastGC {F}.
Arguments Build_registry {F}.

#[export] Instance eta_bucket F : Eta (bucket F) :=
  λ b, Build_bucket (tokens b) (capacity b) (rate b) (lastSeen b).
#[export] Instance eta_registry F : Eta (registry F) :=
  λ r, Build_registry (burstSeconds r) (buckets r) (lastGC r).

Section Buckets.
Context {F : Type} `{Num F}.

Definition newRegistry (burst : F) : registry F :=
  {| burstSeconds := burst; buckets := ∅; lastGC := zero_time |}.

Definition maybeGC (now : Z) (r : registry F) : registry F :=
  if time_Sub now (lastGC r) <? gcInterval then r
  else r <| lastGC := now |>
         <| buckets ::= filter (λ kb, ¬ idleTimeout ≤ time_Sub now (lastSeen kb.2)) |>.

Definition retryHint (deficit rate_ : F) : Z :=
  let d := trunc (nmul (ndiv deficit rate_) (of_Z second)) in
  let d := if d <? 100 * millisecond then 100 * millisecond else d in
  if 30 * second <? d then 30 * second else d.

(** Refill for the elapsed time, then apply the limit of this call. *)
Definition refill (now : Z) (rate_ capacity_ : F) (b : bucket F) : bucket F :=
  let dt := Seconds (time_Sub now (lastSeen b)) in
  let t := if nltb (of_Z 0) dt then nadd (tokens b) (nmul dt (rate b)) else tokens b in
  {| tokens := if nltb capacity_ t then capacity_ else t;
     capacity := capacity_; rate := rate_; lastSeen := now |}.

Definition take (now : Z) (tenant : string) (limit n : Z) (r : registry F)
    : (bool * Z) * registry F :=
  let rate_ := of_Z limit in
  let capacity_ := nmul rate_ (burstSeconds r) in
  let r := maybeGC now r in
  let b := default {| tokens := capacity_; capacity := capacity_; rate := rate_; lastSeen := now |}
             (buckets r !! tenant) in
  let b := refill now rate_ capacity_ b in
  let need := of_Z n in
  if nleb need (tokens b)
  then ((true, 0), r <| buckets ::= <[tenant := b <| tokens := nsub (tokens b) need |>]> |>)
  else ((false, retryHint (nsub need (tokens b)) rate_), r <| buckets ::= <[tenant := b]> |>).

Definition registry_size (r : registry F) : nat := size (buckets r).

End Buckets.

(** ** Admission *)

(** [Validate] and the default of the factory, in seconds of the limit. *)
Definition ValidateQuotaConfig `{Num F} (burst : F) : bool := negb (nleb burst (of_Z 0)).
Definition defaultBurstSeconds `{Num F} : F := of_Z 2.

(** The default is valid; so is NaN, which is not less than zero either, and
    with it batches of a limited tenant are refused, an hour later as well: the
    capacity and the tokens are NaN from the first batch on. *)
Example burst_settings :
  ValidateQuotaConfig (defaultBurstSeconds (F:=spec_float)) = true ∧
  ValidateQuotaConfig (of_Z 0 : spec_float) = false ∧
  ValidateQuotaConfig S754_nan = true ∧
  (let '(r1, s1) := take 0 "acme" 1000 1 (newRegistry S754_nan) in
   let '(r2, _) := take (3600 * second) "acme" 1000 1 s1 in
   (r1.1, r2.1)) = (false, false).
Proof. vm_compute. by split_and!. Qed.

(** The dynamic type of an attribute of [client.AuthData]. *)
Inductive attr_value :=
  | VInt64 (z : Z) | VInt (z : Z) | VInt32 (z : Z) | VUint32 (z : Z) | VUint64 (z : Z)
  | VString (s : string)
  | VOther.

(** [fmt.Sscanf(v, "%d", &n)]: leading spaces are skipped (a newline is an
    error), an optional sign, then digits; the rest of the input is left. *)
Fixpoint scan_digits (acc : Z) (seen : bool) (l : list ascii) : option Z :=
  match l with
  | a :: l' =>
    if is_digit (code a) then scan_digits (10 * acc + Z.of_N (code a) - 48) true l'
    else if seen then Some acc else None
  | [] => if seen then Some acc else None
  end.

Definition Sscanf_d (s : string) : option Z :=
  let rs := drop_while (λ p : N * string, is_space p.1 && negb (p.1 =? 10)%N) (decode s) in
  let l := chars (concat_str rs.*2) in
  let signed (neg : bool) l :=
    z ← scan_digits 0 false l;
    let z := if neg : bool then - z else z in
    if (MinInt64 <=? z) && (z <=? MaxInt64) then Some z else None in
  match l with
  | a :: l' => if bool_decide (code a = 45%N) then signed true l'
               else if bool_decide (code a = 43%N) then signed false l' else signed false l
  | [] => None
  end.

Definition limitFromAuth (v : attr_value) : Z :=
  match v with
  | VInt64 z | VInt z | VInt32 z | VUint32 z => z
  | VUint64 z => if 2 ^ 62 <? z then 2 ^ 62 else z
  | VString s => default 0 (Sscanf_d s)
  | VOther => 0
  end.

(** [client.AuthData], an attribute lookup; [None] is the nil interface. *)
Abbreviation AuthData := (string → attr_value).

Definition string_attr (v : attr_value) : string :=
  match v with VString s => s | _ => "" end.

(** The gRPC status [quota_admit] returns. *)
Record exhausted := {
  ex_tenant : string;
  ex_limit : Z;
  ex_n : Z;
  ex_signal : string;
  ex_retryAfter : Z;
}.

Record quota (F : Type) := {
  q_registry : registry F;
  q_decisions : gmap (string * string) Z;
  q_rejectedItems : gmap (string * string) Z;
}.
Arguments q_registry {F}. Arguments q_decisions {F}. Arguments q_rejectedItems {F}.
Arguments Build_quota {F}.
#[export] Instance eta_quota F : Eta (quota F) :=
  λ q, Build_quota (q_registry q) (q_decisions q) (q_rejectedItems q).

Definition add_counter (k : string * string) (v : Z) (m : gmap (string * string) Z) :=
  <[k := default 0 (m !! k) + v]> m.

Section Admit.
Context {F : Type} `{Num F}.

Definition newQuota (burst : F) : quota F :=
  {| q_registry := newRegistry burst; q_decisions := ∅; q_rejectedItems := ∅ |}.

Definition quota_admit (auth : option AuthData) (signal : string) (n : Z) (now : Z) (q : quota F)
    : option exhausted * quota F :=
  match auth with
  | None => (None, q)
  | Some get_attr =>
    let tenant := string_attr (get_attr "tenant.id") in
    let limit := limitFromAuth (get_attr "rate_limit_items_per_sec") in
    if bool_decide (tenant = "") || (limit <=? 0) || (n =? 0) then (None, q)
    else
      let '((allowed, retryAfter), reg) := take now tenant limit n (q_registry q) in
      let q := q <| q_registry := reg |> in
      if allowed : bool then (None, q <| q_decisions ::= add_counter (tenant, "allowed") 1 |>)
      else (Some {| ex_tenant := tenant; ex_limit := limit; ex_n := n; ex_signal := signal;
                    ex_retryAfter := retryAfter |},
            q <| q_decisions ::= add_counter (tenant, "rejected") 1 |>
              <| q_rejectedItems ::= add_counter (tenant, signal) n |>)
  end.

End Admit.

(** What the gateway's authenticator puts on the context, as [AuthData]. *)
Definition auth_attrs (a : authData) : AuthData := λ name,
  match GetAttribute a name with
  | AttrString s => VString s
  | AttrInt64 z => VInt64 z
  | AttrNil => VOther
  end.

(** ** What holds for every kind of numbers *)

Section AnyNumbers.
Context {F : Type} `{Num F}.

Lemma retryHint_bounds (deficit rate_ : F) :
  100 * millisecond ≤ retryHint deficit rate_ ≤ 30 * second.
Proof.
  unfold retryHint, millisecond, second.
  repeat (case_match; rewrite ?Z.ltb_lt, ?Z.ltb_ge in *); lia.
Qed.

Lemma maybeGC_lookup now (r : registry F) t :
  buckets (maybeGC now r) !! t = buckets r !! t ∨
  buckets (maybeGC now r) !! t = None ∧
    ∃ b, buckets r !! t = Some b ∧ idleTimeout ≤ time_Sub now (lastSeen b).
Proof.
  unfold maybeGC. case_match; [by left|]. simpl.
  destruct (buckets r !! t) as [b|] eqn:E.
  - destruct (decide (idleTimeout ≤ time_Sub now (lastSeen b))) as [Hi|Hi].
    + right. split; [|by eauto]. apply map_lookup_filter_None. right. intros b' Hb' Hn.
      simplify_eq. by apply Hn.
    + left. by apply map_lookup_filter_Some.
  - left. apply map_lookup_filter_None. by left.
Qed.

(** The tenant's bucket as a call at [now] finds it. *)
Definition current (now : Z) (tenant : string) (limit : Z) (r : registry F) : bucket F :=
  let cap := nmul (of_Z limit) (burstSeconds r) in
  refill now (of_Z limit) cap
    (default {| tokens := cap; capacity := cap; rate := of_Z limit; lastSeen := now |}
       (buckets (maybeGC now r) !! tenant)).

Lemma maybeGC_burst now (r : registry F) : burstSeconds (maybeGC now r) = burstSeconds r.
Proof. unfold maybeGC. by destruct (_ <? _). Qed.

Lemma take_decision now tenant limit n (r : registry F) :
  (take now tenant limit n r).1 =
  let b := current now tenant limit r in
  if nleb (of_Z n) (tokens b) then (true, 0)
  else (false, retryHint (nsub (of_Z n) (tokens b)) (of_Z limit)).
Proof. unfold take, current. cbv zeta. by destruct (nleb _ _). Qed.

(** The call as one update of the tenant's bucket. *)
Lemma take_inv now tenant limit n (r : registry F) res r' :
  take now tenant limit n r = (res, r') →
  ∃ b, b = current now tenant limit r ∧
    res.1 = nleb (of_Z n) (tokens b) ∧
    burstSeconds r' = burstSeconds r ∧ lastGC r' = lastGC (maybeGC now r) ∧
    buckets r' = <[tenant := if res.1 then b <| tokens := nsub (tokens b) (of_Z n) |> else b]>
                   (buckets (maybeGC now r)) ∧
    (res.1 = false → 100 * millisecond ≤ res.2 ≤ 30 * second).
Proof.
  unfold take. intros Ht. exists (current now tenant limit r). split; [reflexivity|].
  pose proof (maybeGC_burst now r) as Hb. fold (current now tenant limit r) in Ht.
  cbv zeta in Ht. unfold current in *.
  destruct (nleb _ _) eqn:E; injection Ht as <- <-; simpl; rewrite ?E; split_and!; try done.
  intros _. apply retryHint_bounds.
Qed.

Lemma maybeGC_fresh now (r : registry F) : time_Sub now (lastGC r) < gcInterval → maybeGC now r = r.
Proof. intros Hlt. unfold maybeGC. by rewrite (proj2 (Z.ltb_lt _ _) Hlt). Qed.

Lemma maybeGC_swept now (r : registry F) : time_Sub now (lastGC (maybeGC now r)) < gcInterval.
Proof.
  unfold maybeGC. destruct (time_Sub now (lastGC r) <? gcInterval) eqn:E; [by apply Z.ltb_lt|].
  simpl. unfold time_Sub. rewrite Z.sub_diag. by compute.
Qed.

Lemma refill_idemp `{!NumLaws F} now (rate_ cap : F) b :
  refill now rate_ cap (refill now rate_ cap b) = refill now rate_ cap b.
Proof.
  assert (Hs : nltb (of_Z 0) (Seconds (time_Sub now now) : F) = false)
    by (unfold time_Sub; rewrite Z.sub_diag; exact no_time).
  unfold refill at 1. change (lastSeen (refill now rate_ cap b)) with now. rewrite Hs.
  unfold refill. cbn [tokens]. f_equal.
  destruct (nltb cap (if nltb (of_Z 0) _ then _ else _)) eqn:E; [by rewrite nltb_irrefl|by rewrite E].
Qed.

Lemma take_after_reject `{!NumLaws F} now tenant limit n m hint (r r' : registry F) :
  take now tenant limit n r = ((false, hint), r') →
  (take now tenant limit m r').1 = (take now tenant limit m r).1.
Proof.
  intros Ht. apply take_inv in Ht as (b & Hb & Hres & Hbu & Hgc & Hbs & _). simpl in Hbs.
  assert (Hcur : current now tenant limit r' = current now tenant limit r).
  { unfold current at 1. rewrite Hbu, maybeGC_fresh, Hbs, lookup_insert_eq.
    - subst b. unfold current. apply refill_idemp.
    - rewrite Hgc. apply maybeGC_swept. }
  by rewrite !take_decision, Hcur.
Qed.

Lemma quota_admit_burst auth signal n now (q : quota F) :
  burstSeconds (q_registry (quota_admit auth signal n now q).2) = burstSeconds (q_registry q).
Proof.
  unfold quota_admit. destruct auth; [|done]. case_match; [done|].
  destruct (take _ _ _ _ _) as [res r'] eqn:E.
  apply take_inv in E as (b & _ & _ & Hb & _). by destruct res as [[] ?].
Qed.

End AnyNumbers.

(** ** The rate bound *)

(** One batch offered to the processor. *)
Record batch := {
  ba_auth : option AuthData;
  ba_signal : string;
  ba_n : Z;
  ba_now : Z;
}.

Definition ba_tenant (b : batch) : string :=
  match ba_auth b with Some g => string_attr (g "tenant.id") | None => "" end.
Definition ba_limit (b : batch) : Z :=
  match ba_auth b with Some g => limitFromAuth (g "rate_limit_items_per_sec") | None => 0 end.

Section Run.
Context {F : Type} `{Num F}.

Definition offer (b : batch) (q : quota F) : option exhausted * quota F :=
  quota_admit (ba_auth b) (ba_signal b) (ba_n b) (ba_now b) q.

(** The items of a tenant that pass. *)
Definition passed (tenant : string) (b : batch) (r : option exhausted) : Z :=
  match r with
  | None => if bool_decide (ba_tenant b = tenant) then ba_n b else 0
  | Some _ => 0
  end.

Fixpoint admitted (tenant : string) (bs : list batch) (q : quota F) : Z :=
  match bs with
  | [] => 0
  | b :: bs' =>
    let '(r, q') := offer b q in
    passed tenant b r + admitted tenant bs' q'
  end.

Lemma offer_cases b (q : quota F) :
  let '(r, q') := offer b q in
  (ba_tenant b = "" ∨ ba_limit b ≤ 0 ∨ ba_n b = 0) ∧ r = None ∧ q' = q ∨
  ba_tenant b ≠ "" ∧ 0 < ba_limit b ∧
    ∃ res, take (ba_now b) (ba_tenant b) (ba_limit b) (ba_n b) (q_registry q)
             = (res, q_registry q') ∧ (r = None ↔ res.1 = true).
Proof.
  unfold offer, quota_admit, ba_tenant, ba_limit. destruct (ba_auth b) as [g|]; [|by left; auto].
  destruct (_ || _) eqn:E.
  - cbn beta iota zeta. left. rewrite !orb_true_iff, bool_decide_eq_true, Z.leb_le, Z.eqb_eq in E. tauto.
  - rewrite !orb_false_iff, bool_decide_eq_false, Z.leb_gt in E. destruct E as [[? ?] _].
    destruct (take _ _ _ _ _) as [[allowed hint] r'] eqn:Et. destruct allowed; simpl; right;
      (split_and!; [done..|]); eexists; (split; [reflexivity|]); done.
Qed.

End Run.

Fixpoint times_sorted (t : Z) (bs : list batch) : Prop :=
  match bs with
  | [] => True
  | b :: bs' => t ≤ ba_now b ∧ times_sorted (ba_now b) bs'
  end.

Definition end_time (t : Z) (bs : list batch) : Z := fold_left (λ _ b, ba_now b) bs t.

(** ** Seconds in doubles *)

#[local] Arguments inject_Z x : simpl never.
#[local] Arguments Qmult x y : simpl never.
#[local] Hint Resolve fval_nonneg : core.

Definition secs (d : Z) : Q := (inject_Z d / inject_Z second)%Q.

(** Rounding once more adds two [ulp] to an upper bound. *)
Lemma rounded_upto a x k P :
  rounded a x → (x <= (1 + k * ulp) * P)%Q → (0 <= P)%Q → (0 <= k)%Q → (k <= 100)%Q →
  (fval a <= (1 + (k + 2) * ulp) * P)%Q.
Proof.
  intros (_ & _ & Ha) Hx HP Hk Hk'. pose proof ulp_small as [Hu Hu'].
  assert (H1 : ((1 + ulp) * x <= (1 + ulp) * ((1 + k * ulp) * P))%Q) by (apply Qmult_le_l; lra).
  assert (H2 : (0 <= ulp * P)%Q) by nra.
  assert (H3 : (k * ulp <= 1 # 2)%Q) by nra.
  assert (H4 : (k * ulp * (ulp * P) <= (1 # 2) * (ulp * P))%Q) by (by apply Qmult_le_compat_r).
  lra.
Qed.

Lemma secs_le d d' : d ≤ d' → (secs d <= secs d')%Q.
Proof.
  intros. unfold secs, Qdiv. apply Qmult_le_compat_r; [by apply inject_le|by compute].
Qed.

Lemma secs_nonneg d : 0 ≤ d → (0 <= secs d)%Q.
Proof. intros Hd. apply (secs_le 0 d) in Hd. eapply Qle_trans; [|exact Hd]. by vm_compute. Qed.

Lemma second_double : of_Z second = S754_finite false 8388608000000000 (-23).
Proof. reflexivity. Qed.

Lemma second_val : fin (of_Z second) ∧ (fval (of_Z second) == inject_Z second)%Q.
Proof. rewrite second_double. split; [|by vm_compute]. simpl. unfold canonical. lia. Qed.

(** A duration that is not positive is not positive in seconds. *)
Lemma Seconds_nonpos d : d ≤ 0 → nltb (of_Z 0) (Seconds d : spec_float) = false.
Proof.
  intros Hd. apply nonpos_ltb. unfold Seconds. rewrite second_double.
  apply nonpos_add; [|apply nonpos_div]; apply normalize_nonpos.
  - apply Z.quot_le_upper_bound; unfold second; lia.
  - apply Z.rem_nonpos; unfold second; lia.
Qed.

Lemma Seconds_near d :
  0 ≤ d ≤ MaxInt64 →
  fin (Seconds d : spec_float) ∧ ((1 - 4 * ulp) * secs d <= fval (Seconds d))%Q ∧
  (fval (Seconds d) <= (1 + 5 * ulp) * secs d)%Q.
Proof.
  intros [Hd Hmax]. unfold MaxInt64 in Hmax. unfold Seconds.
  pose proof (Z.quot_rem' d second) as Hqr.
  assert (Hq : 0 ≤ Z.quot d second) by (apply Z.quot_pos; unfold second; lia).
  assert (Hr : 0 ≤ Z.rem d second < second) by (apply Z.rem_bound_pos; unfold second; lia).
  set (q := Z.quot d second) in *. set (r := Z.rem d second) in *.
  destruct second_val as [Fs Vs].
  pose proof (rounded_of_Z q ltac:(unfold second in *; lia)) as (Fq & Q1 & Q2).
  pose proof (rounded_of_Z r ltac:(unfold second in *; lia)) as (Fr & R1 & R2).
  pose proof ulp_small as [Hu Hu'].
  assert (Hsecs : (secs d == inject_Z q + secs r)%Q).
  { unfold secs. rewrite Hqr, inject_Z_plus, inject_Z_mult. field. intros E. by compute in E. }
  assert (Hq0 : (0 <= inject_Z q)%Q) by (by apply (inject_le 0 q)).
  pose proof (secs_nonneg r (proj1 Hr)) as Hr0.
  assert (Hr1 : (secs r <= 1)%Q) by (apply (Qle_trans _ (secs second)); [apply secs_le; lia|by vm_compute]).
  assert (Hq1 : (inject_Z q <= inject_Z (2 ^ 63))%Q) by (apply inject_le; unfold second in *; lia).
  assert (Hbig : (inject_Z (2 ^ 65) <= pw 900)%Q) by (by apply pw_le_900).
  assert (Hdiv : rounded (ndiv (of_Z r) (of_Z second) : spec_float) (fval (of_Z r) / fval (of_Z second))%Q).
  { apply rounded_div; [done|done|rewrite Vs; by compute| |].
    - destruct (decide (r = 0)) as [->|Hne]; [left; by vm_compute|right]. rewrite Vs.
      assert (H1 : (inject_Z 1 <= inject_Z r)%Q) by (apply inject_le; lia). change (inject_Z 1) with 1%Q in H1.
      apply Qle_trans with ((1 # 2) / inject_Z second)%Q; [by vm_compute|].
      apply Qmult_le_compat_r; [|by compute].  nra.
    - rewrite Vs. apply Qle_trans with (2 * secs r)%Q; [|change (inject_Z (2 ^ 65)) with (36893488147419103232#1)%Q in Hbig; lra].
      unfold secs, Qdiv. rewrite Qmult_assoc. apply Qmult_le_compat_r; [|by compute].
      assert (0 <= inject_Z r)%Q by (apply (inject_le 0 r); lia). nra. }
  assert (Hx1 : ((1 - ulp) * secs r <= fval (of_Z r) / fval (of_Z second))%Q).
  { rewrite Vs. unfold secs, Qdiv. rewrite Qmult_assoc. apply Qmult_le_compat_r; [done|by compute]. }
  assert (Hx2 : (fval (of_Z r) / fval (of_Z second) <= (1 + ulp) * secs r)%Q).
  { rewrite Vs. unfold secs, Qdiv. rewrite Qmult_assoc. apply Qmult_le_compat_r; [done|by compute]. }
  set (x := (fval (of_Z r) / fval (of_Z second))%Q) in *.
  destruct Hdiv as (Fx & X1 & X2). set (y := fval (ndiv (of_Z r) (of_Z second))) in *.
  assert (Hur : (ulp * (ulp * secs r) <= (1 # 1000000) * (ulp * secs r))%Q) by (apply Qmult_le_compat_r; nra).
  assert (Hux1 : (ulp * x <= ulp * ((1 + ulp) * secs r))%Q) by (by apply Qmult_le_l).
  assert (Huq : (0 <= ulp * inject_Z q)%Q) by nra. assert (Hur0 : (0 <= ulp * secs r)%Q) by nra.
  assert (Huq1 : (ulp * inject_Z q <= inject_Z q)%Q) by nra. assert (Hur1 : (ulp * secs r <= secs r)%Q) by nra.
  change (inject_Z (2 ^ 65)) with (36893488147419103232#1)%Q in Hbig.
  change (inject_Z (2 ^ 63)) with (9223372036854775808#1)%Q in Hq1.
  pose proof (rounded_add (of_Z q) (ndiv (of_Z r) (of_Z second)) Fq Fx) as Hsum. fold y in Hsum.
  destruct Hsum as (Fz & Z1 & Z2); [lra|]. split; [exact Fz|]. rewrite Hsecs.
  set (v := fval (of_Z q)) in *.
  assert (Huv : (ulp * (v + y) <= ulp * ((1 + ulp) * inject_Z q + (1 + 3 * ulp) * secs r))%Q)
    by (apply Qmult_le_l; [done|lra]).
  assert (Huq2 : (ulp * (ulp * inject_Z q) <= (1 # 1000000) * (ulp * inject_Z q))%Q) by (apply Qmult_le_compat_r; nra).
  split; lra.
Qed.

(** What the time since the last batch adds, at any rate. *)
Lemma refill_near l d :
  0 < l ≤ MaxInt64 → d ≤ MaxInt64 → nltb (of_Z 0) (Seconds d : spec_float) = true →
  let x := nmul (Seconds d) (of_Z l) : spec_float in
  fin x ∧ (fval x <= (1 + 9 * ulp) * (inject_Z l * secs d))%Q ∧ 0 < d.
Proof.
  intros [Hl Hl'] Hd Hpos x. assert (Hd0 : 0 < d) by (apply Z.nle_gt; intros Hle; by rewrite Seconds_nonpos in Hpos).
  unfold MaxInt64 in Hl'. destruct (Seconds_near d ltac:(lia)) as (Fs & S1 & S2).
  pose proof (rounded_of_Z l ltac:(lia)) as (Fl & L1 & L2). pose proof ulp_small as [Hu Hu'].
  assert (Hl1 : (1 <= inject_Z l)%Q) by (apply (inject_le 1 l); lia).
  assert (Hl2 : (inject_Z l <= inject_Z (2 ^ 63))%Q) by (apply inject_le; lia).
  assert (Hs1 : (secs 1 <= secs d)%Q) by (apply secs_le; lia).
  assert (Hs2 : (secs d <= secs (2 ^ 63))%Q) by (apply secs_le; unfold MaxInt64 in Hd; lia).
  assert (Hs3 : (1 # 1000000000 <= secs d)%Q) by (eapply Qle_trans; [|exact Hs1]; by vm_compute).
  assert (Hs4 : (secs d <= 10000000000)%Q) by (eapply Qle_trans; [exact Hs2|]; by vm_compute).
  change (inject_Z (2 ^ 63)) with (9223372036854775808#1)%Q in Hl2.
  set (s := fval (Seconds d)) in *. set (w := fval (of_Z l)) in *.
  assert (Hs5 : ((1 # 2000000000) <= s)%Q) by nra. assert (Hw5 : ((1 # 2) <= w)%Q) by nra.
  assert (Hs6 : (s <= 20000000000)%Q) by nra. assert (Hw6 : (w <= 20000000000000000000)%Q) by nra.
  assert (Hlow : ((1 # 2000000000) * (1 # 2) <= s * w)%Q) by (apply Qmult_le_compat_nonneg; split; lra).
  assert (Hhigh : (s * w <= 20000000000 * 20000000000000000000)%Q) by (apply Qmult_le_compat_nonneg; split; lra).
  assert (Hm : rounded x (s * w)%Q).
  { apply rounded_mul; try done.
    - right. eapply Qle_trans; [|exact Hlow]. by vm_compute.
    - eapply Qle_trans; [exact Hhigh|]. by vm_compute. }
  split; [apply Hm|]. split; [|done].
  replace (1 + 9 * ulp)%Q with (1 + (7 + 2) * ulp)%Q by done.
  apply (rounded_upto x (s * w)); [done| | |lra..].
  - apply Qle_trans with ((1 + 5 * ulp) * secs d * ((1 + ulp) * inject_Z l))%Q;
      [apply Qmult_le_compat_nonneg; split; lra|].
    set (P := (inject_Z l * secs d)%Q).
    assert (HP : (0 <= P)%Q) by (apply Qmult_le_0_compat; lra).
    assert (E : ((1 + 5 * ulp) * secs d * ((1 + ulp) * inject_Z l) == P + 6 * (ulp * P) + 5 * (ulp * (ulp * P)))%Q)
      by (unfold P; ring).
    rewrite E. assert (0 <= ulp * P)%Q by nra.
    assert (ulp * (ulp * P) <= (1 # 1000000) * (ulp * P))%Q by (by apply Qmult_le_compat_r). lra.
  - apply Qmult_le_0_compat; lra.
Qed.

(** ** The rate bound *)

Section RateBound.
Context (tenant : string) (limit : Z) (burst : spec_float) (t0 : Z).
Context (Htenant : tenant ≠ "") (Hlimit : 0 < limit ≤ MaxInt64).
Context (Fburst : fin burst) (Hburst : (pw (-30) <= fval burst)%Q) (Hburst' : (fval burst <= 600)%Q).

Abbreviation L := (inject_Z limit).
Abbreviation full := (L * fval burst)%Q.

(** Burst plus what the rate allows since the start of the window, and the
    rounding of [k] batches. *)
Definition allowance (t k : Z) : Q :=
  ((1 + 16 * ulp) * (full + L * secs (t - t0)) + inject_Z k * (16 * ulp * full))%Q.

Lemma L_bounds : (1 <= L)%Q ∧ (L <= 9223372036854775808#1)%Q.
Proof. unfold MaxInt64 in Hlimit. split; [apply (inject_le 1 limit)|apply (inject_le limit (2 ^ 63))]; lia. Qed.

Lemma full_bounds : (pw (-30) <= full)%Q ∧ (full <= pw 74)%Q.
Proof.
  pose proof L_bounds as [H1 H2]. pose proof (pw_pos (-30)). split.
  - rewrite <- (Qmult_1_l (pw (-30))). apply Qmult_le_compat_nonneg; split; lra.
  - apply Qle_trans with ((9223372036854775808#1) * 600)%Q; [|by vm_compute].
    apply Qmult_le_compat_nonneg; split; lra.
Qed.

Definition cap : spec_float := nmul (of_Z limit) burst.

Lemma cap_near : fin cap ∧ (fval cap <= (1 + 3 * ulp) * full)%Q ∧ (fval cap <= pw 75)%Q.
Proof.
  pose proof L_bounds as [H1 H2]. pose proof full_bounds as [P1 P2]. pose proof ulp_small as [Hu Hu'].
  unfold MaxInt64 in Hlimit. pose proof (rounded_of_Z limit ltac:(lia)) as (Fl & L1 & L2).
  pose proof (pw_pos (-30)) as Hp.
  assert (X1 : (fval (of_Z limit) * fval burst <= (1 + 1 * ulp) * full)%Q).
  { apply Qle_trans with ((1 + ulp) * L * fval burst)%Q; [apply Qmult_le_compat_r; lra|]. lra. }
  assert (X2 : ((1 # 2) * pw (-30) <= fval (of_Z limit) * fval burst)%Q)
    by (apply Qmult_le_compat_nonneg; split; try lra; nra).
  assert (Hr : rounded cap (fval (of_Z limit) * fval burst)).
  { apply rounded_mul; try done.
    - right. eapply Qle_trans; [|exact X2]. by vm_compute.
    - eapply Qle_trans; [exact X1|]. apply Qle_trans with (2 * pw 74)%Q; [nra|by vm_compute]. }
  assert (Hc : (fval cap <= (1 + 3 * ulp) * full)%Q).
  { replace (1 + 3 * ulp)%Q with (1 + (1 + 2) * ulp)%Q by done.
    apply (rounded_upto cap _ 1 _ Hr X1); lra. }
  split; [apply Hr|]. split; [done|]. eapply Qle_trans; [exact Hc|].
  apply Qle_trans with (2 * pw 74)%Q; [nra|by vm_compute].
Qed.

Lemma allowance_step t t' d k :
  d ≤ t' - t → (allowance t k + (1 + 16 * ulp) * (L * secs d) <= allowance t' k)%Q.
Proof.
  intros Hd. unfold allowance. pose proof L_bounds as [H1 _]. pose proof ulp_small as [Hu _].
  assert (E : (secs (t' - t0) == secs (t - t0) + secs (t' - t))%Q).
  { unfold secs. replace (t' - t0) with ((t - t0) + (t' - t)) by lia.
    rewrite inject_Z_plus. field. intros E. by compute in E. }
  rewrite E. pose proof (secs_le _ _ Hd) as Hs.
  assert (L * secs d <= L * secs (t' - t))%Q by (apply Qmult_le_l; lra).
  assert ((1 + 16 * ulp) * (L * secs d) <= (1 + 16 * ulp) * (L * secs (t' - t)))%Q by (apply Qmult_le_l; lra).
  lra.
Qed.

Lemma allowance_mono t t' k k' : t ≤ t' → k ≤ k' → (allowance t k <= allowance t' k')%Q.
Proof.
  intros Ht Hk. pose proof (allowance_step t t' 0 k ltac:(lia)) as Hs.
  assert (E : (secs 0 == 0)%Q) by (by compute). rewrite E in Hs.
  apply (inject_le) in Hk. pose proof ulp_small as [Hu _]. pose proof full_bounds as [Hf _]. pose proof (pw_pos (-30)).
  assert (H0 : (0 <= 16 * ulp * full)%Q) by (apply Qmult_le_0_compat; lra).
  pose proof (Qmult_le_compat_r _ _ _ Hk H0) as Hk2. unfold allowance in *. lra.
Qed.

(** Ten idle minutes are worth a full bucket. *)
Lemma allowance_idle t t' k :
  idleTimeout ≤ t' - t → (allowance t k + fval cap <= allowance t' k)%Q.
Proof.
  intros Hi. pose proof (allowance_step t t' idleTimeout k Hi) as Hs.
  assert (E : (secs idleTimeout == 600)%Q) by (by compute). rewrite E in Hs.
  pose proof L_bounds as [H1 _]. pose proof cap_near as (_ & Hc & _). pose proof ulp_small as [Hu _].
  assert (H2 : (full <= L * 600)%Q) by (apply Qmult_le_l; lra).
  assert ((1 + 3 * ulp) * full <= (1 + 3 * ulp) * (L * 600))%Q by (apply Qmult_le_l; lra).
  assert (0 <= ulp * (L * 600))%Q by nra. lra.
Qed.

(** *** One batch *)

(** A bucket as the code leaves it, whatever limit it was filled at. *)
Definition tok_ok (b : bucket spec_float) : Prop :=
  fin (tokens b) ∧ (fval (tokens b) <= pw 80)%Q ∧ ∃ l, 0 < l ≤ MaxInt64 ∧ rate b = of_Z l.
Definition registry_ok (r : registry spec_float) : Prop :=
  match buckets r !! tenant with Some b => tok_ok b | None => True end.

Lemma time_Sub_le t u : u ≤ t → time_Sub t u ≤ t - u.
Proof. unfold time_Sub, MinInt64, MaxInt64. lia. Qed.
Lemma time_Sub_max t u : time_Sub t u ≤ MaxInt64.
Proof. unfold time_Sub, MinInt64, MaxInt64. lia. Qed.

Lemma time_Sub_idle t u : idleTimeout ≤ time_Sub t u → idleTimeout ≤ t - u.
Proof. unfold time_Sub, idleTimeout, minute, second, MinInt64. lia. Qed.

(** The tokens after a refill are those there were and what the rate added,
    and the last place of a full bucket; never more than that. *)
Lemma refill_bound now b l :
  fin (tokens b) → (fval (tokens b) <= pw 80)%Q → 0 < l ≤ MaxInt64 → rate b = of_Z l →
  let t := tokens (refill now (of_Z limit) cap b) in
  let d := Z.max 0 (time_Sub now (lastSeen b)) in
  fin t ∧ (fval t <= fval cap)%Q ∧
  (fval t <= fval (tokens b) + (1 + 9 * ulp) * (inject_Z l * secs d) + ulp * fval cap)%Q.
Proof.
  intros Ft Ht Hl Hr. unfold refill. cbn [tokens]. rewrite Hr.
  set (d := time_Sub now (lastSeen b)). pose proof cap_near as (Fc & _ & _). pose proof ulp_small as [Hu Hu'].
  set (t := if nltb (of_Z 0) (Seconds d) then _ else _).
  set (X := ((1 + 9 * ulp) * (inject_Z l * secs (Z.max 0 d)))%Q).
  assert (HX : (0 <= X)%Q).
  { apply Qmult_le_0_compat; [lra|]. apply Qmult_le_0_compat; [apply (inject_le 0 l); lia|apply secs_nonneg; lia]. }
  assert (Hcap0 : (0 <= ulp * fval cap)%Q) by (apply Qmult_le_0_compat; [lra|done]).
  assert (Hmid : fin t ∧ (fval t <= fval (tokens b) + X ∨
      ∃ y, y <= fval (tokens b) + X ∧ fval t <= (1 + ulp) * y)%Q).
  { unfold t. destruct (nltb (of_Z 0) (Seconds d)) eqn:Hdt.
    - destruct (refill_near l d Hl (time_Sub_max _ _) Hdt) as (Fx & Hx & Hd0).
      set (x := nmul (Seconds d) (of_Z l)) in *.
      assert (Hx' : (fval x <= X)%Q) by (unfold X; by replace (Z.max 0 d) with d by lia).
      destruct (rounded_add (tokens b) x Ft Fx) as (Fs & _ & Hs).
      { assert (X <= pw 110)%Q; [|assert (pw 80 + pw 110 <= pw 900)%Q by (by vm_compute); lra].
        apply Qle_trans with (2 * (pw 63 * pw 34))%Q; [|by vm_compute].
        assert (Hl0 : (0 <= inject_Z l)%Q) by (apply (inject_le 0 l); lia).
        assert (Hl63 : (inject_Z l <= pw 63)%Q)
          by (apply (Qle_trans _ (inject_Z (2 ^ 63))); [apply inject_le; unfold MaxInt64 in Hl; lia|by vm_compute]).
        pose proof (secs_nonneg (Z.max 0 d) ltac:(lia)) as Hs0.
        assert (Hs34 : (secs (Z.max 0 d) <= pw 34)%Q).
        { apply (Qle_trans _ (secs (2 ^ 63))); [|by vm_compute]. apply secs_le.
          pose proof (time_Sub_max now (lastSeen b)) as Hmx. fold d in Hmx. unfold MaxInt64 in Hmx. lia. }
        assert (inject_Z l * secs (Z.max 0 d) <= pw 63 * pw 34)%Q by (apply Qmult_le_compat_nonneg; done).
        apply Qmult_le_compat_nonneg; [split; lra|]. split; [by apply Qmult_le_0_compat|done]. }
      split; [done|]. right. exists (fval (tokens b) + fval x)%Q. split; [lra|done].
    - split; [done|]. left. lra. }
  destruct Hmid as [Fm Hm]. destruct (nltb cap t) eqn:Hct.
  - apply (fltb_spec cap t Fc Fm) in Hct. split; [done|]. split; [apply Qle_refl|].
    destruct Hm as [?|(y & Hy & Hyt)]; [lra|].
    destruct (Qlt_le_dec y (fval cap)) as [Hlt|Hge]; [|lra].
    assert (ulp * y <= ulp * fval cap)%Q by (apply Qmult_le_l; lra). lra.
  - assert (Hct' : (fval t <= fval cap)%Q).
    { apply Qnot_lt_le. intros Hlt%(fltb_spec cap t Fc Fm). by rewrite Hlt in Hct. }
    split; [done|]. split; [done|]. destruct Hm as [?|(y & Hy & Hyt)]; [lra|].
    destruct (Qlt_le_dec y (fval cap)) as [Hlt|Hge]; [|lra].
    assert (ulp * y <= ulp * fval cap)%Q by (apply Qmult_le_l; lra). lra.
Qed.

(** What a batch takes out of the bucket covers its items, up to three times
    the last place of a full bucket. *)
Lemma take_bound n t :
  0 ≤ n ≤ MaxInt64 → fin t → (fval t <= fval cap)%Q → nleb (of_Z n) t = true →
  let t' := nsub t (of_Z n) in
  fin t' ∧ (fval t' <= pw 80)%Q ∧ (inject_Z n + fval t' <= fval t + 4 * ulp * fval cap)%Q.
Proof.
  intros Hn Ft Ht Hle. unfold MaxInt64 in Hn. pose proof (rounded_of_Z n ltac:(lia)) as (Fn & N1 & N2).
  apply (fleb_spec _ _ Fn Ft) in Hle. pose proof cap_near as (Fc & _ & Hc75). pose proof ulp_small as [Hu Hu'].
  assert (H75 : (2 * pw 75 <= pw 80)%Q ∧ (pw 75 <= pw 900)%Q) by (split; by vm_compute).
  destruct (rounded_sub t (of_Z n) Ft Fn Hle ltac:(lra)) as (Fs & _ & Hs).
  pose proof (fval_nonneg (of_Z n)) as Hn0. set (N := fval (of_Z n)) in *. set (T := fval t) in *.
  set (C := fval cap) in *. assert (HC : (0 <= C)%Q) by apply fval_nonneg.
  assert (Hi : (0 <= inject_Z n)%Q) by (apply (inject_le 0 n); lia).
  assert (HuC : (ulp * C <= C)%Q) by nra.
  assert (H1 : (ulp * (T - N) <= ulp * C)%Q) by (apply Qmult_le_l; lra).
  assert (H2 : (inject_Z n <= 2 * N)%Q) by nra.
  assert (H3 : (ulp * inject_Z n <= ulp * (2 * C))%Q) by (apply Qmult_le_l; lra).
  split; [done|]. split; lra.
Qed.

(** [spent] items of the tenant have passed in the window, in at most [k]
    batches, the last of the tenant at [last]; [now] is the time of the last
    batch of anyone. *)
Definition bucket_inv (spent k last now : Z) (r : registry spec_float) : Prop :=
  last ≤ now ∧ (inject_Z spent <= allowance last k)%Q ∧
  match buckets r !! tenant with
  | Some b => lastSeen b = last ∧ rate b = of_Z limit ∧ fin (tokens b) ∧ (fval (tokens b) <= pw 80)%Q ∧
              (inject_Z spent + fval (tokens b) <= allowance last k)%Q
  | None => idleTimeout ≤ now - last
  end.

Lemma bucket_inv_weaken spent k k' last now now' r :
  k ≤ k' → now ≤ now' → bucket_inv spent k last now r → bucket_inv spent k' last now' r.
Proof.
  intros Hk Hle (Hl & Hs & Hb). pose proof (allowance_mono last last k k' ltac:(lia) Hk).
  split; [lia|]. split; [lra|]. destruct (buckets r !! tenant); [|lia].
  destruct Hb as (? & ? & ? & ? & ?). split_and!; try done. lra.
Qed.

(** Sweeping the buckets keeps the invariants. *)
Lemma bucket_inv_gc spent k last now now' r :
  now ≤ now' → bucket_inv spent k last now r → bucket_inv spent k last now' (maybeGC now' r).
Proof.
  intros Hle (Hl & Hs & Hb). split_and!; [lia|done|].
  destruct (maybeGC_lookup now' r tenant) as [->|[-> (b & Eb & Hi)]].
  - destruct (buckets r !! tenant); [done|lia].
  - rewrite Eb in Hb. destruct Hb as (<- & _). by apply time_Sub_idle.
Qed.

Lemma registry_ok_gc now r : registry_ok r → registry_ok (maybeGC now r).
Proof. unfold registry_ok. by destruct (maybeGC_lookup now r tenant) as [->|[-> _]]. Qed.

Lemma bucket_inv_other spent k last now now' t' limit' n r res r' :
  now ≤ now' → t' ≠ tenant → take now' t' limit' n r = (res, r') →
  bucket_inv spent k last now r → bucket_inv spent k last now' r'.
Proof.
  intros Hle Hne Ht Hi. apply take_inv in Ht as (b & _ & _ & _ & _ & Hb & _).
  apply (bucket_inv_gc _ _ _ _ now' r Hle) in Hi. unfold bucket_inv in *. rewrite Hb.
  by rewrite lookup_insert_ne.
Qed.

Lemma registry_ok_other now t' limit' n r res r' :
  t' ≠ tenant → take now t' limit' n r = (res, r') → registry_ok r → registry_ok r'.
Proof.
  intros Hne Ht Hi. apply take_inv in Ht as (b & _ & _ & _ & _ & Hb & _).
  apply (registry_ok_gc now) in Hi. unfold registry_ok in *. rewrite Hb. by rewrite lookup_insert_ne.
Qed.

Lemma allowance_next t k : (allowance t k + 5 * ulp * fval cap <= allowance t (k + 1))%Q.
Proof.
  unfold allowance. rewrite inject_Z_plus. change (inject_Z 1) with 1%Q.
  pose proof cap_near as (_ & Hc & _). pose proof ulp_small as [Hu Hu'].
  pose proof full_bounds as [Hf _]. pose proof (pw_pos (-30)).
  assert (5 * ulp * fval cap <= 5 * ulp * ((1 + 3 * ulp) * full))%Q by (apply Qmult_le_l; lra).
  assert (0 <= ulp * full)%Q by nra.
  assert (ulp * (ulp * full) <= (1 # 1000000) * (ulp * full))%Q by (by apply Qmult_le_compat_r). lra.
Qed.

(** The bucket a batch of the tenant finds, from what the registry had. *)
Lemma current_bound now r :
  burstSeconds r = burst → registry_ok r →
  let b := current now tenant limit r in
  lastSeen b = now ∧ rate b = of_Z limit ∧ fin (tokens b) ∧ (fval (tokens b) <= fval cap)%Q.
Proof.
  intros Hbu Hok b. unfold b, current. rewrite Hbu. fold cap. split; [done|]. split; [done|].
  apply (registry_ok_gc now) in Hok. unfold registry_ok in Hok.
  assert (H75 : (pw 75 <= pw 80)%Q) by (by apply pw_le). pose proof cap_near as (Fc & _ & Hc).
  destruct (buckets (maybeGC now r) !! tenant) as [b0|]; cbn [default].
  - destruct Hok as (F0 & T0 & l & Hl & Hr). by destruct (refill_bound now b0 l F0 T0 Hl Hr) as (? & ? & _).
  - match goal with |- context [refill _ _ _ ?b1] =>
      destruct (refill_bound now b1 limit) as (? & ? & _) end; try done. simpl. lra.
Qed.

(** Taking from a bucket that holds at most [room] more than was spent. *)
Lemma take_spent now n r res r' spent k :
  0 ≤ n ≤ MaxInt64 → burstSeconds r = burst → registry_ok r → take now tenant limit n r = (res, r') →
  (inject_Z spent + fval (tokens (current now tenant limit r)) <= allowance now k + ulp * fval cap)%Q →
  bucket_inv (spent + if res.1 then n else 0) (k + 1) now now r'.
Proof.
  intros Hn Hbu Hok Ht Hroom. apply take_inv in Ht as (b & Hb & Hres & _ & _ & Hbs & _).
  pose proof (current_bound now r Hbu Hok) as Hcur. cbv zeta in Hcur. rewrite <- Hb in Hcur, Hroom.
  destruct Hcur as (Hl & Hr & Ft & Htc). pose proof (allowance_next now k) as Hnext.
  assert (H75 : (pw 75 <= pw 80)%Q) by (by apply pw_le). pose proof cap_near as (_ & _ & Hc).
  pose proof ulp_small as [Hu _]. pose proof (fval_nonneg (tokens b)) as Ht0.
  assert (HuC : (0 <= ulp * fval cap)%Q) by (apply Qmult_le_0_compat; [lra|done]).
  unfold bucket_inv. rewrite Hbs, lookup_insert_eq, inject_Z_plus. split; [done|].
  set (t' := nsub (tokens b) (of_Z n)). destruct (res.1).
  - destruct (take_bound n (tokens b) Hn Ft Htc (eq_sym Hres)) as (F' & T' & Hn').
    pose proof (fval_nonneg t'). fold t' in F', T', Hn'. simpl. split_and!; try done; lra.
  - change (inject_Z 0) with 0%Q. split_and!; try done; lra.
Qed.

Lemma bucket_inv_registry spent k last now r : bucket_inv spent k last now r → registry_ok r.
Proof.
  intros (_ & _ & Hb). unfold registry_ok. destruct (buckets r !! tenant); [|done].
  destruct Hb as (_ & Hr & F & T & _). split; [done|]. split; [done|]. by exists limit.
Qed.

(** The tenant's own batch, with an invariant from earlier in the window. *)
Lemma bucket_inv_take spent k last now now' n r res r' :
  now ≤ now' → 0 ≤ n ≤ MaxInt64 → burstSeconds r = burst → take now' tenant limit n r = (res, r') →
  bucket_inv spent k last now r →
  bucket_inv (spent + if res.1 then n else 0) (k + 1) now' now' r'.
Proof.
  intros Hle Hn Hbu Ht Hi. pose proof (bucket_inv_registry _ _ _ _ _ Hi) as Hok.
  apply (take_spent now' n r res r'); try done.
  pose proof (current_bound now' r Hbu Hok) as (_ & _ & _ & Hcap).
  apply (bucket_inv_gc _ _ _ _ now' r Hle) in Hi. destruct Hi as (Hl & Hs & Hi).
  pose proof ulp_small as [Hu _].
  assert (HuC : (0 <= ulp * fval cap)%Q) by (apply Qmult_le_0_compat; [lra|done]).
  unfold current in *. rewrite Hbu in *. fold cap in Hcap |- *.
  destruct (buckets (maybeGC now' r) !! tenant) as [b0|]; cbn [default] in *.
  - destruct Hi as (Hls & Hr & F0 & T0 & Hroom).
    destruct (refill_bound now' b0 limit F0 T0 Hlimit Hr) as (_ & _ & Hup). rewrite Hls in Hup.
    set (d := Z.max 0 (time_Sub now' last)) in *.
    pose proof (time_Sub_le now' last Hl). pose proof (allowance_step last now' d k ltac:(lia)) as Hst.
    assert (0 <= L * secs d)%Q.
    { apply Qmult_le_0_compat; [pose proof L_bounds; lra|apply secs_nonneg; lia]. }
    assert (0 <= ulp * (L * secs d))%Q by (apply Qmult_le_0_compat; lra). change (id b0) with b0. lra.
  - pose proof (allowance_idle last now' k Hi). lra.
Qed.

(** Its first batch in the window. *)
Lemma bucket_inv_first now n r res r' :
  t0 ≤ now → 0 ≤ n ≤ MaxInt64 → burstSeconds r = burst → registry_ok r → take now tenant limit n r = (res, r') →
  bucket_inv (if res.1 then n else 0) 1 now now r'.
Proof.
  intros Hle Hn Hbu Hok Ht. apply (take_spent now n r res r' 0 0); try done.
  pose proof (current_bound now r Hbu Hok) as (_ & _ & _ & Hcap).
  pose proof cap_near as (_ & Hc & _). pose proof ulp_small as [Hu _]. pose proof L_bounds.
  assert (HuC : (0 <= ulp * fval cap)%Q) by (apply Qmult_le_0_compat; [lra|done]).
  pose proof full_bounds as [Hf _]. pose proof (pw_pos (-30)).
  assert (0 <= ulp * full)%Q by nra.
  assert (0 <= (1 + 16 * ulp) * (L * secs (now - t0)))%Q.
  { apply Qmult_le_0_compat; [lra|]. apply Qmult_le_0_compat; [lra|apply secs_nonneg; lia]. }
  unfold allowance. change (inject_Z 0) with 0%Q. lra.
Qed.

(** Any batch of the tenant leaves its bucket as the code fills it. *)
Lemma registry_ok_take now n r res r' :
  0 ≤ n ≤ MaxInt64 → burstSeconds r = burst → registry_ok r → take now tenant limit n r = (res, r') →
  registry_ok r'.
Proof.
  intros Hn Hbu Hok Ht. apply take_inv in Ht as (b & Hb & Hres & _ & _ & Hbs & _).
  pose proof (current_bound now r Hbu Hok) as Hcur. cbv zeta in Hcur. rewrite <- Hb in Hcur.
  destruct Hcur as (Hl & Hr & Ft & Htc).
  assert (H75 : (pw 75 <= pw 80)%Q) by (by apply pw_le). pose proof cap_near as (_ & _ & Hc).
  unfold registry_ok. rewrite Hbs, lookup_insert_eq. unfold tok_ok.
  set (t' := nsub (tokens b) (of_Z n)). destruct (res.1).
  - destruct (take_bound n (tokens b) Hn Ft Htc (eq_sym Hres)) as (F' & T' & _). fold t' in F', T'.
    simpl. split_and!; try done. eauto.
  - split_and!; try done; [lra|eauto].
Qed.

(** One batch, seen from the tenant. *)
Lemma offer_tenant b (q : quota spec_float) :
  (ba_tenant b = tenant → ba_limit b = limit) →
  let '(r, q') := offer b q in
  (passed tenant b r = 0 ∧
    (q' = q ∨ ∃ t' l n res, t' ≠ tenant ∧
       take (ba_now b) t' l n (q_registry q) = (res, q_registry q'))) ∨
  ba_tenant b = tenant ∧
  ∃ res, take (ba_now b) tenant limit (ba_n b) (q_registry q) = (res, q_registry q') ∧
    passed tenant b r = if res.1 then ba_n b else 0.
Proof.
  intros Hl. pose proof (offer_cases b q) as Ho. destruct (offer b q) as [r q'].
  destruct Ho as [(Hun & -> & ->)|(Hne & Hpos & res & Ht & Hres)].
  - left. split; [|by left]. simpl. case_bool_decide as E; [|done].
    rewrite E, Hl in Hun by done. destruct Hun as [?|[?|?]]; [done|lia|done].
  - destruct (decide (ba_tenant b = tenant)) as [E|Hne'].
    + right. split; [done|]. exists res. rewrite E, (Hl E) in Ht. split; [done|]. unfold passed.
      rewrite bool_decide_true by done. destruct (res.1), r; simpl; try done.
      * by pose proof (proj2 Hres eq_refl).
      * by pose proof (proj1 Hres eq_refl).
    + left. split; [|right; by eexists _, _, _, _]. unfold passed.
      rewrite bool_decide_false by done. by destruct r.
Qed.

Lemma offer_burst b (q : quota spec_float) :
  burstSeconds (q_registry (offer b q).2) = burstSeconds (q_registry q).
Proof. apply quota_admit_burst. Qed.

(** A batch with the limit of the tenant, if it is of the tenant. *)
Definition fits (b : batch) : Prop := ba_tenant b = tenant → ba_limit b = limit ∧ 0 ≤ ba_n b ≤ MaxInt64.

Lemma registry_ok_offer b (q : quota spec_float) :
  fits b → burstSeconds (q_registry q) = burst → registry_ok (q_registry q) → registry_ok (q_registry (offer b q).2).
Proof.
  intros Hf Hbu Hok. pose proof (offer_cases b q) as Ho. destruct (offer b q) as [r q']. cbn [snd].
  destruct Ho as [(_ & _ & ->)|(_ & _ & res & Ht & _)]; [done|].
  destruct (decide (ba_tenant b = tenant)) as [E|Hne]; [|by eapply registry_ok_other].
  destruct (Hf E) as [El Hn]. rewrite E, El in Ht. by eapply registry_ok_take.
Qed.

(** A window of batches in time order. *)
Lemma admitted_after spent k last now bs q :
  times_sorted now bs → burstSeconds (q_registry q) = burst → (∀ b, b ∈ bs → fits b) →
  bucket_inv spent k last now (q_registry q) →
  (inject_Z (spent + admitted tenant bs q) <= allowance (end_time now bs) (k + Z.of_nat (length bs)))%Q.
Proof.
  revert spent k last now q; induction bs as [|b bs IH]; intros spent k last now q Hs Hb Hl Hi.
  - simpl. rewrite !Z.add_0_r. destruct Hi as (Hle & Hsp & _).
    pose proof (allowance_mono last now k k Hle ltac:(lia)). lra.
  - destruct Hs as [Hnow Hs]. pose proof (Hl b ltac:(left)) as Hfit.
    pose proof (offer_tenant b q (λ E, proj1 (Hfit E))) as Ho.
    pose proof (offer_burst b q) as Hb'. cbn [admitted end_time fold_left length].
    destruct (offer b q) as [r q']. simpl in Hb'. rewrite Hb in Hb'.
    replace (k + Z.of_nat (S (length bs))) with (k + 1 + Z.of_nat (length bs)) by lia. rewrite Z.add_assoc.
    assert (Hl' : ∀ b', b' ∈ bs → fits b') by (intros; apply Hl; by right).
    destruct Ho as [(-> & [->|(t' & l & n & res & Hne & Ht)])|(E & res & Ht & ->)].
    + rewrite Z.add_0_r. apply (IH _ _ last); try done. by apply (bucket_inv_weaken _ k _ _ now); [lia|..].
    + rewrite Z.add_0_r. apply (IH _ _ last); try done.
      apply (bucket_inv_weaken _ k _ _ (ba_now b)); [lia..|]. by eapply (bucket_inv_other _ _ _ now).
    + apply (IH _ _ (ba_now b)); try done. apply (bucket_inv_take _ _ last now _ _ (q_registry q)); try done.
      by apply Hfit.
Qed.

Lemma allowance_nonneg now k : t0 ≤ now → 0 ≤ k → (0 <= allowance now k)%Q.
Proof.
  intros Hle Hk. pose proof ulp_small as [Hu _]. pose proof full_bounds as [Hf _]. pose proof (pw_pos (-30)).
  pose proof L_bounds as [H1 _]. pose proof (secs_nonneg (now - t0) ltac:(lia)).
  assert (0 <= L * secs (now - t0))%Q by (apply Qmult_le_0_compat; lra).
  assert (0 <= (1 + 16 * ulp) * (full + L * secs (now - t0)))%Q by (apply Qmult_le_0_compat; lra).
  assert (0 <= inject_Z k * (16 * ulp * full))%Q.
  { apply Qmult_le_0_compat; [by apply (inject_le 0 k)|]. apply Qmult_le_0_compat; lra. }
  unfold allowance. lra.
Qed.

(** The whole window, from any state the code can have left the tenant in. *)
Lemma admitted_before now bs q :
  t0 ≤ now → times_sorted now bs → burstSeconds (q_registry q) = burst → registry_ok (q_registry q) →
  (∀ b, b ∈ bs → fits b) →
  (inject_Z (admitted tenant bs q) <= allowance (end_time now bs) (Z.of_nat (length bs)))%Q.
Proof.
  revert now q; induction bs as [|b bs IH]; intros now q Ht0 Hs Hb Hok Hl.
  - by apply allowance_nonneg.
  - destruct Hs as [Hnow Hs]. pose proof (Hl b ltac:(left)) as Hfit.
    pose proof (offer_tenant b q (λ E, proj1 (Hfit E))) as Ho. pose proof (registry_ok_offer b q Hfit Hb Hok) as Hok'.
    pose proof (offer_burst b q) as Hb'. cbn [admitted end_time fold_left length].
    destruct (offer b q) as [r q']. simpl in Hb', Hok'. rewrite Hb in Hb'.
    assert (Hl' : ∀ b', b' ∈ bs → fits b') by (intros; apply Hl; by right).
    destruct Ho as [(-> & _)|(E & res & Ht & ->)].
    + eapply Qle_trans; [apply (IH (ba_now b)); try done; lia|]. apply allowance_mono; [done|lia].
    + replace (Z.of_nat (S (length bs))) with (1 + Z.of_nat (length bs)) by lia.
      apply (admitted_after _ _ (ba_now b)); try done.
      eapply bucket_inv_first; [lia| |exact Hb|exact Hok|done]. by apply Hfit.
Qed.

(** The allowance with the rounding gathered: 2^-48 of it and of a full bucket
    for each batch. *)
Lemma allowance_slack t k :
  (allowance t k == (full + L * secs (t - t0)) +
     (1 # 281474976710656) * (full + L * secs (t - t0) + inject_Z k * full))%Q.
Proof.
  assert (E : (16 * ulp == 1 # 281474976710656)%Q) by (by vm_compute).
  unfold allowance. rewrite <- E. ring.
Qed.

End RateBound.

(** ** Theorems *)

Definition quota_identity : authData :=
  {| tenantID := "acme"; clientID := "acme"; customerID := "c"; rateLimitItemsPerSec := 10 |}.
Definition quota_auth : AuthData := auth_attrs quota_identity.

Definition quota_batch (limit n now : Z) : batch := {|
  ba_auth := Some (auth_attrs {| tenantID := "acme"; clientID := "acme"; customerID := "c"; rateLimitItemsPerSec := limit |});
  ba_signal := "logs"; ba_n := n; ba_now := now |}.

(** 20 items pass at once, one more does not, 10 more pass a second later. *)
Example quota_run :
  admitted "acme" [quota_batch 10 20 0; quota_batch 10 1 0; quota_batch 10 10 second] (newQuota (of_Z 2 : spec_float)) = 30.
Proof. vm_compute. reflexivity. Qed.

(** Rounding lets items pass that the exact limit would not: after one second
    and a nanosecond at 999999999 items a second and a burst of two seconds,
    2999999998 are through, and the exact limit is a billionth less. *)
Example rounding_admits_more :
  let bs := [quota_batch 999999999 1999999998 0; quota_batch 999999999 1000000000 1000000001] in
  admitted "acme" bs (newQuota (of_Z 2 : spec_float)) = 2999999998 ∧
  (inject_Z 999999999 * 2 + inject_Z 999999999 * secs 1000000001 < inject_Z 2999999998)%Q.
Proof. split; by vm_compute. Qed.

(** A rejected batch consumes nothing:
    any other batch of the tenant at that instant is decided as if the rejected
    one had never been offered.  The retry hint is between 100 milliseconds and
    30 seconds, and the bucket of another tenant is untouched unless it has
    been idle for ten minutes. *)
Theorem rejected_consumes_nothing {F} {NF : Num F} {LF : NumLaws F} (now : Z) (tenant : string)
    (limit n m hint : Z) (r r' : registry F) :
  take now tenant limit n r = ((false, hint), r') →
  (take now tenant limit m r').1 = (take now tenant limit m r).1 ∧
  100 * millisecond ≤ hint ≤ 30 * second ∧
  ∀ t, t ≠ tenant →
    buckets r' !! t = buckets r !! t ∨
    buckets r' !! t = None ∧
      ∃ b, buckets r !! t = Some b ∧ idleTimeout ≤ time_Sub now (lastSeen b).
Proof.
  intros Ht. split; [|split].
  - by eapply take_after_reject.
  - apply take_inv in Ht as (b & _ & _ & _ & _ & _ & Hh). by apply Hh.
  - intros t Hne. apply take_inv in Ht as (b & _ & _ & _ & _ & -> & _).
    rewrite lookup_insert_ne by done. apply maybeGC_lookup.
Qed.

(** On doubles: 21 items do not fit in a burst of 20, and 20 still do. *)
Lemma rejected_consumes_nothing_witness :
  let r := newRegistry (of_Z 2 : spec_float) in
  let '((allowed, hint), r') := take 0 "acme" 10 21 r in
  allowed = false ∧ hint = 100 * millisecond ∧
  (take 0 "acme" 10 20 r').1 = (take 0 "acme" 10 20 r).1.
Proof.
  intros r. destruct (take 0 "acme" 10 21 r) as [[allowed hint] r'] eqn:E.
  assert (Ha : allowed = false) by (revert E; vm_compute; congruence). subst allowed.
  split_and!; [done|revert E; vm_compute; congruence|].
  by apply (rejected_consumes_nothing 0 "acme" 10 21 20 hint r r' E).
Defined.
