(* ===== verification/TenantStamp.v ===== *)
(** * Stamping the tenant identity (collector/processor/tenantstamp)

    The resources of a batch are read and written through pdata's attribute
    map, which is a library: the interface [AttrMap] has the operations the
    code calls and what their documentation promises. *)
From S2P Require Import Prelude GoStrings TenantAuth TenantQuota.

(** [pcommon.Map].  [PutStr] inserts or replaces; [Remove] removes the entry
    of the key. *)
Class AttrMap (T : Type) := {
  Get : string → T → option attr_value;
  Remove : string → T → T;
  PutStr : string → string → T → T;
  Get_Remove k m : Get k (Remove k m) = None;
  Get_Remove_ne k k' m : k ≠ k' → Get k (Remove k' m) = Get k m;
  Get_PutStr k v m : Get k (PutStr k v m) = Some (VString v);
  Get_PutStr_ne k k' v m : k ≠ k' → Get k (PutStr k' v m) = Get k m;
}.

#[export] Instance gmap_attrs : AttrMap (gmap string attr_value).
Proof.
  refine {| Get k m := m !! k; Remove k m := delete k m;
            PutStr k v m := <[k := VString v]> m |}.
  - intros. apply lookup_delete_eq.
  - intros. by apply lookup_delete_ne.
  - intros. apply lookup_insert_eq.
  - intros. by apply lookup_insert_ne.
Defined.

Definition attrTenantID : string := "tenant.id".
Definition attrClientID : string := "client.id".
Definition attrCustomerID : string := "customer.id".
Definition dropWarnInterval : Z := 10 * second.

Record identity := {
  id_tenantID : string;
  id_clientID : string;
  id_customerID : string;
}.

(** The counter per signal, the time of the last warning, and how many
    warnings were logged. *)
Record stamper := {
  droppedTotal : gmap string Z;
  lastWarnNanos : Z;
  warnings : nat;
}.
#[export] Instance eta_stamper : Eta stamper :=
  λ s, Build_stamper (droppedTotal s) (lastWarnNanos s) (warnings s).

Definition newStamper : stamper := {| droppedTotal := ∅; lastWarnNanos := 0; warnings := 0 |}.

Definition attrString (auth : AuthData) (name : string) : string := string_attr (auth name).

(** [drop], without a concurrent call between the load and the swap. *)
Definition drop (signal : string) (now : Z) (s : stamper) : stamper :=
  let s := s <| droppedTotal ::= λ m, <[signal := (default 0 (m !! signal) + 1)%Z]> m |> in
  if (dropWarnInterval <=? now - lastWarnNanos s)%Z
  then s <| lastWarnNanos := now |> <| warnings ::= S |>
  else s.

Definition identityFromContext (auth : option AuthData) (signal : string) (now : Z) (s : stamper)
    : option identity * stamper :=
  match auth with
  | None => (None, drop signal now s)
  | Some g =>
    let id := {| id_tenantID := attrString g attrTenantID;
                 id_clientID := attrString g attrClientID;
                 id_customerID := attrString g attrCustomerID |} in
    if bool_decide (id_tenantID id = "") then (None, drop signal now s) else (Some id, s)
  end.

Section Stamp.
Context {T : Type} `{AttrMap T}.

Definition stamp (id : identity) (attrs : T) : T :=
  let attrs := Remove attrTenantID attrs in
  let attrs := Remove attrClientID attrs in
  let attrs := Remove attrCustomerID attrs in
  let attrs := PutStr attrTenantID (id_tenantID id) attrs in
  let attrs := if negb (bool_decide (id_clientID id = ""))
               then PutStr attrClientID (id_clientID id) attrs else attrs in
  if negb (bool_decide (id_customerID id = ""))
  then PutStr attrCustomerID (id_customerID id) attrs else attrs.

(** [processTraces], [processLogs] and [processMetrics] are the same code over
    the resources of the batch; [None] is [ErrSkipProcessingData]. *)
Definition process (signal : string) (auth : option AuthData) (now : Z) (resources : list T)
    (s : stamper) : option (list T) * stamper :=
  let '(id, s) := identityFromContext auth signal now s in
  match id with
  | None => (None, s)
  | Some id => (Some (map (stamp id) resources), s)
  end.

Definition processTraces := process "traces".
Definition processLogs := process "logs".
Definition processMetrics := process "metrics".

(** ** Lemmas *)

Definition nonempty_str (v : string) : option attr_value :=
  if bool_decide (v = "") then None else Some (VString v).

(** The identity attributes of a resource. *)
Definition identity_attrs (m : T) : list (option attr_value) :=
  [Get attrTenantID m; Get attrClientID m; Get attrCustomerID m].

Lemma stamp_identity id m :
  identity_attrs (stamp id m) =
  [Some (VString (id_tenantID id)); nonempty_str (id_clientID id); nonempty_str (id_customerID id)].
Proof.
  unfold identity_attrs, stamp, nonempty_str.
  destruct (bool_decide (id_clientID id = "")), (bool_decide (id_customerID id = "")); simpl;
    repeat first [rewrite Get_PutStr | rewrite Get_PutStr_ne by done
                 | rewrite Get_Remove | rewrite Get_Remove_ne by done]; done.
Qed.

Lemma stamp_other id k m :
  k ∉ [attrTenantID; attrClientID; attrCustomerID] → Get k (stamp id m) = Get k m.
Proof.
  rewrite !not_elem_of_cons. intros (? & ? & ? & _). unfold stamp.
  destruct (bool_decide (id_clientID id = "")), (bool_decide (id_customerID id = "")); simpl;
    repeat first [rewrite Get_PutStr_ne by done | rewrite Get_Remove_ne by done]; done.
Qed.

Lemma identityFromContext_inv auth signal now s id s' :
  identityFromContext auth signal now s = (Some id, s') →
  s' = s ∧ id_tenantID id ≠ "" ∧ ∃ g, auth = Some g ∧
    id_tenantID id = attrString g attrTenantID ∧ id_clientID id = attrString g attrClientID ∧
    id_customerID id = attrString g attrCustomerID.
Proof.
  unfold identityFromContext. destruct auth as [g|]; [|done].
  case_bool_decide; [done|]. intros [= <- <-]. eauto 10.
Qed.

End Stamp.

(** ** Theorems *)

(** No spoofing.  Whatever attributes a client put on its resources, a
    batch that passes carries on every resource exactly the tenant, client and
    customer of the request's identity - absent where the identity has none -
    and every other attribute unchanged; a batch without an identity, or with
    an empty tenant, does not pass. *)
Theorem stamped_with_own_identity {T} {AM : AttrMap T} (signal : string) (auth : option AuthData)
    (now : Z) (rs : list T) (s : stamper) :
  match (process signal auth now rs s).1 with
  | None => ∀ g, auth = Some g → attrString g attrTenantID = ""
  | Some rs' =>
    ∃ g, auth = Some g ∧ attrString g attrTenantID ≠ "" ∧
      Forall2 (λ m m',
        identity_attrs m' = [Some (VString (attrString g attrTenantID));
                             nonempty_str (attrString g attrClientID);
                             nonempty_str (attrString g attrCustomerID)] ∧
        ∀ k, k ∉ [attrTenantID; attrClientID; attrCustomerID] → Get k m' = Get k m) rs rs'
  end.
Proof.
  unfold process. destruct (identityFromContext auth signal now s) as [[id|] s'] eqn:E; simpl.
  - apply identityFromContext_inv in E as (-> & Hne & g & -> & Et & Ec & Eu).
    exists g. rewrite <- Et, <- Ec, <- Eu. split_and!; [done..|].
    induction rs; simpl; constructor; [|done]. split; [apply stamp_identity|].
    intros. by apply stamp_other.
  - intros g ->. unfold identityFromContext in E. case_bool_decide; [done|]. by simplify_eq.
Qed.

(** The gateway end to end.  What [Authenticate] accepted is what is
    stamped: with the identity of an accepted request, every resource of the
    batch leaves with that tenant, and the batch is not counted as dropped. *)
Theorem accepted_identity_is_stamped {T} {AM : AttrMap T} (signal : string) (d : authData)
    (now : Z) (rs : list T) (s : stamper) :
  tenantID d ≠ "" →
  ∃ rs', process signal (Some (auth_attrs d)) now rs s = (Some rs', s) ∧
    length rs' = length rs ∧
    ∀ m, m ∈ rs' → Get attrTenantID m = Some (VString (tenantID d)).
Proof.
  intros Hne. unfold process, identityFromContext. cbn [id_tenantID].
  change (attrString (auth_attrs d) attrTenantID) with (tenantID d).
  rewrite bool_decide_false by done. eexists. split; [done|]. split; [apply length_map|].
  intros m (m0 & -> & _)%list_elem_of_fmap.
  match goal with |- Get _ (stamp ?i _) = _ => pose proof (stamp_identity i m0) as Hs end.
  by injection Hs as ->.
Qed.

Lemma accepted_identity_is_stamped_witness :
  let spoofed : gmap string attr_value :=
    <["tenant.id" := VString "victim"]> (<["host" := VString "h"]> ∅) in
  (process "logs" (Some quota_auth) 0 [spoofed] newStamper).1
    = Some [<["tenant.id" := VString "acme"]> (<["client.id" := VString "acme"]>
             (<["customer.id" := VString "c"]> (<["host" := VString "h"]> ∅)))] ∧
  ∃ rs', process "logs" (Some quota_auth) 0 [spoofed] newStamper = (Some rs', newStamper) ∧
    length rs' = 1 ∧ ∀ m, m ∈ rs' → Get attrTenantID m = Some (VString "acme").
Proof.
  intros spoofed. split; [vm_compute; reflexivity|].
  apply (accepted_identity_is_stamped "logs" quota_identity 0 [spoofed] newStamper). done.
Defined.
