(* ===== verification/Gateway.v ===== *)
(** * The gateway of the ingest tier

    One request through the collector of src/deploy/compose/otelcol-gateway.yaml:
    the receiver asks the extension tenantauth, and on each signal the batch
    passes tenantstamp and then tenantquota; the factory of tenantquota gives
    the instances of the three signals one registry.  The collector framework
    is the composition itself.  Put together with the control plane the
    gateway asks, data leaves under a tenant only while the control plane
    holds a live key of it ([forwarded_only_for_live_keys]), revocation takes
    effect in time ([revocation_takes_effect]) and a tenant's quota holds over
    all signals ([gateway_quota]). *)
From Stdlib Require Import Ascii SpecFloat QArith.
From S2P Require Import Prelude GoStrings Sha256 Store World StoreCalls Tokens Tenants IngestAuth KeyCache Binary64 TenantAuth TenantQuota TenantStamp.
#[local] Open Scope Z_scope.

Module Gateway.

Inductive Signal := Traces | Logs | Metrics.
#[export] Instance Signal_eq_dec : EqDecision Signal.
Proof. solve_decision. Defined.
Definition signal_name (s : Signal) : string :=
  match s with Traces => "traces" | Logs => "logs" | Metrics => "metrics" end.

(** A field per signal. *)
Definition set_at {A} (s : Signal) (x : A) (f : Signal → A) : Signal → A :=
  λ s', if decide (s' = s) then x else f s'.

(** ** The factory of tenantquota (factory.go)

    [sharedQuotas]: the quotas allocated so far by their address, and the map
    from a component to the address of its quota. *)
Record sharedQuotas (F : Type) := {
  sq_heap : nat → quota F;
  sq_next : nat;
  sq_quotas : gmap string nat;
}.
#[global] Arguments sq_heap {F} _ _.
#[global] Arguments sq_next {F} _.
#[global] Arguments sq_quotas {F} _.
#[global] Arguments Build_sharedQuotas {F} _ _ _.

Section Factory.
Context {F : Type} `{Num F}.

Definition store_quota (r : nat) (q : quota F) (s : sharedQuotas F) : sharedQuotas F :=
  Build_sharedQuotas (λ r', if decide (r' = r) then q else sq_heap s r') (sq_next s) (sq_quotas s).

(** [==] on float64. *)
Definition same_burst (x y : F) : bool := nleb x y && nleb y x.

(** [get]: the quota of the component, a new one when it has none or its
    burst changed; [telemetry] is the error of a counter that cannot be
    created. *)
Definition shared_get (telemetry : option string) (id : string) (burst : F) (s : sharedQuotas F)
    : (nat + string) * sharedQuotas F :=
  let fresh :=
    match telemetry with
    | Some e => (inr e, s)
    | None =>
      let r := sq_next s in
      (inl r, Build_sharedQuotas (λ r', if decide (r' = r) then newQuota burst else sq_heap s r')
                (S r) (<[id := r]> (sq_quotas s)))
    end in
  match sq_quotas s !! id with
  | Some r => if same_burst (burstSeconds (q_registry (sq_heap s r))) burst then (inl r, s) else fresh
  | None => fresh
  end.

Definition newShared : sharedQuotas F := Build_sharedQuotas (λ _, newQuota (of_Z 0)) 0 ∅.

End Factory.

(** ** One request *)

(** A batch: when it arrives and with which headers, when it reaches the
    quota, its resources and how many items it has. *)
Record batch_in (T : Type) := {
  bi_signal : Signal;
  bi_now : Z;
  bi_sources : list (string * list string);
  bi_at : Z;
  bi_resources : list T;
  bi_items : Z;
}.
#[global] Arguments bi_signal {T} _.
#[global] Arguments bi_now {T} _.
#[global] Arguments bi_sources {T} _.
#[global] Arguments bi_at {T} _.
#[global] Arguments bi_resources {T} _.
#[global] Arguments bi_items {T} _.
#[global] Arguments Build_batch_in {T} _ _ _ _ _ _.

(** Refused by the authenticator, dropped without an identity, refused by the
    quota, or passed on with the identity of the request. *)
Inductive result (T : Type) :=
  | Unauthenticated (r : auth_result)
  | Skipped
  | Exhausted (e : exhausted)
  | Forwarded (d : authData) (rs : list T).
#[global] Arguments Unauthenticated {T} _.
#[global] Arguments Skipped {T}.
#[global] Arguments Exhausted {T} _.
#[global] Arguments Forwarded {T} _ _.

(** The key cache, a stamper per signal, and the quotas with the address each
    signal's processor holds. *)
Record gateway (F : Type) := {
  gw_cache : cache;
  gw_stamper : Signal → stamper;
  gw_ref : Signal → nat;
  gw_shared : sharedQuotas F;
}.
#[global] Arguments gw_cache {F} _.
#[global] Arguments gw_stamper {F} _ _.
#[global] Arguments gw_ref {F} _ _.
#[global] Arguments gw_shared {F} _.
#[global] Arguments Build_gateway {F} _ _ _ _.

Section Gateway.
Context {T : Type} {AM : AttrMap T} {F : Type} {NF : Num F}.
Context (unicode_lower : N → N) (cfg : TenantAuth.Config).

(** The quota behind a signal. *)
Definition gw_quota (g : gateway F) (s : Signal) : quota F := sq_heap (gw_shared g) (gw_ref g s).

(** Creating the processors of the three pipelines of the component [id]. *)
Definition newGateway (id : string) (burst : F) : option (gateway F) :=
  let '(t, s) := shared_get None id burst newShared in
  let '(l, s) := shared_get None id burst s in
  let '(m, s) := shared_get None id burst s in
  match t, l, m with
  | inl t, inl l, inl m =>
    Some (Build_gateway (newKeyCache (MaxEntries (cfg_Cache cfg))) (λ _, newStamper)
            (λ s, match s with Traces => t | Logs => l | Metrics => m end) s)
  | _, _, _ => None
  end.

(** The processors of a signal, on an authenticated batch. *)
Definition processors (d : authData) (b : batch_in T) (g : gateway F) : result T * gateway F :=
  let sig := bi_signal b in
  let '(out, st) := process (signal_name sig) (Some (auth_attrs d)) (bi_at b) (bi_resources b) (gw_stamper g sig) in
  let g := Build_gateway (gw_cache g) (set_at sig st (gw_stamper g)) (gw_ref g) (gw_shared g) in
  match out with
  | None => (Skipped, g)
  | Some rs =>
    let '(r, q) := quota_admit (Some (auth_attrs d)) (signal_name sig) (bi_items b) (bi_at b) (gw_quota g sig) in
    (match r with Some e => Exhausted e | None => Forwarded d rs end,
     Build_gateway (gw_cache g) (gw_stamper g) (gw_ref g) (store_quota (gw_ref g sig) q (gw_shared g)))
  end.

(** The request as the authenticator sees it. *)
Definition request_of (b : batch_in T) (rpc : rpc_answer) : request :=
  {| rq_now := bi_now b; rq_sources := bi_sources b; rq_rpc := rpc |}.

Definition ingest (rpc : rpc_answer) (b : batch_in T) (g : gateway F) : result T * gateway F :=
  let '(r, _, c) := handle unicode_lower cfg (request_of b rpc) (gw_cache g) in
  let g := Build_gateway c (gw_stamper g) (gw_ref g) (gw_shared g) in
  match r with
  | Accept d => processors d b g
  | r => (Unauthenticated r, g)
  end.

(** ** With the control plane *)

(** What becomes of a call: answered, never arrived, or answered too late. *)
Inductive link := Reachable | Unreachable | AnswerLost.

(** A verdict the gateway got: on which key, when, what, and the tables and
    environment the control plane had. *)
Record asked := {
  as_hash : string;
  as_time : Z;
  as_resp : ValidateResponse;
  as_db : db;
  as_env : Env;
}.

Record system := {
  sy_gw : gateway F;
  sy_cp : IngestAuth.Service world;
  sy_log : list asked;
}.

(** The response message, an int64 of its unsigned fields. *)
Definition response_of (r : IngestAuth.Response) : ValidateResponse := {|
  resp_Valid := IngestAuth.Valid r; resp_CustomerId := IngestAuth.CustomerId r;
  resp_ClientId := IngestAuth.ClientId r; resp_CacheTtlSeconds := IngestAuth.CacheTtlSeconds r;
  resp_RateLimit := IngestAuth.RateLimitItemsPerSec r |}.

Definition secret_of (b : batch_in T) : string := extractKey unicode_lower (bi_sources b).

Definition asks (b : batch_in T) (s : system) : bool :=
  consults unicode_lower (request_of b (RpcErr "")) (gw_cache (sy_gw s)).

(** The call of a request: its answer, the control plane afterwards, and the
    verdict if there is one.  An answer that was not asked for is not looked
    at. *)
Definition call_cp (ENV : Env) (l : link) (b : batch_in T) (s : system)
    : rpc_answer * IngestAuth.Service world * list asked :=
  if negb (asks b s) then (RpcOk (response_of IngestAuth.invalid_response), sy_cp s, [])
  else
    match l with
    | Unreachable => (RpcErr "connection refused", sy_cp s, [])
    | _ =>
      let '(r, cp) := IngestAuth.ValidateAPIKey (secret_of b) (sy_cp s) in
      match l, r with
      | Reachable, inl resp =>
        (RpcOk (response_of resp), cp,
         [{| as_hash := key_hash (secret_of b); as_time := bi_now b; as_resp := response_of resp;
             as_db := w_db (IngestAuth.sv_store (sy_cp s)); as_env := ENV |}])
      | _, inr _ => (RpcErr "key lookup failed", cp, [])
      | _, _ => (RpcErr "deadline exceeded", cp, [])
      end
    end.

Definition sys_ingest (ENV : Env) (l : link) (b : batch_in T) (s : system) : result T * system :=
  let '(rpc, cp, asked) := call_cp ENV l b s in
  let '(r, g) := ingest rpc b (sy_gw s) in
  (r, {| sy_gw := g; sy_cp := cp; sy_log := asked ++ sy_log s |}).

(** What happens: a call of the control plane's store, a flush of the usage
    timestamps, a request. *)
Inductive event :=
  | EvStore (ENV : Env) (c : call)
  | EvFlush (ENV : Env)
  | EvIngest (ENV : Env) (l : link) (b : batch_in T).

Definition sys_step (s : system) (e : event) : system :=
  match e with
  | EvStore ENV c =>
    {| sy_gw := sy_gw s;
       sy_cp := IngestAuth.Build_Service world (IngestAuth.sv_pending (sy_cp s)) (IngestAuth.sv_requests (sy_cp s))
                (run_call c (IngestAuth.sv_store (sy_cp s))).2;
       sy_log := sy_log s |}
  | EvFlush ENV =>
    {| sy_gw := sy_gw s; sy_cp := (IngestAuth.Flush (sy_cp s)).2; sy_log := sy_log s |}
  | EvIngest ENV l b => (sys_ingest ENV l b s).2
  end.

Definition sys_run (evs : list event) (s : system) : system := fold_left sys_step evs s.

End Gateway.

(** ** What leaves the gateway *)

Section Stamped.
Context {T : Type} {AM : AttrMap T} {F : Type} {NF : Num F}.
Context (unicode_lower : N → N) (cfg : TenantAuth.Config).

(** A resource with the identity of the request and nothing else changed. *)
Definition stamped (d : authData) (m m' : T) : Prop :=
  identity_attrs m' = [Some (VString (tenantID d)); nonempty_str (clientID d); nonempty_str (customerID d)] ∧
  ∀ k, k ∉ [attrTenantID; attrClientID; attrCustomerID] → Get k m' = Get k m.

Lemma process_stamped signal d now rs (s : stamper) out s' :
  process signal (Some (auth_attrs d)) now rs s = (Some out, s') →
  tenantID d ≠ "" ∧ Forall2 (stamped d) rs out.
Proof.
  unfold process. destruct (identityFromContext _ _ _ _) as [[id|] s1] eqn:E; [|done]. intros [= <- _].
  apply identityFromContext_inv in E as (_ & Hne & g & [= <-] & Et & Ec & Eu).
  change (attrString (auth_attrs d) attrTenantID) with (tenantID d) in Et.
  change (attrString (auth_attrs d) attrClientID) with (clientID d) in Ec.
  change (attrString (auth_attrs d) attrCustomerID) with (customerID d) in Eu.
  split; [congruence|]. induction rs as [|m rs IH]; simpl; constructor; [|done]. split.
  - by rewrite stamp_identity, Et, Ec, Eu.
  - intros k. apply stamp_other.
Qed.

Lemma processors_frame d b (g : gateway F) :
  gw_cache (processors (T:=T) d b g).2 = gw_cache g ∧ gw_ref (processors (T:=T) d b g).2 = gw_ref g.
Proof.
  unfold processors. destruct (process _ _ _ _ _) as [[rs|] st]; [|done].
  by destruct (quota_admit _ _ _ _ _).
Qed.

Lemma processors_forward d b (g : gateway F) d' rs g' :
  processors d b g = (Forwarded d' rs, g') →
  d' = d ∧ tenantID d ≠ "" ∧ Forall2 (stamped d) (bi_resources b) rs.
Proof.
  unfold processors. destruct (process _ _ _ _ _) as [[out|] st] eqn:E; [|done].
  apply process_stamped in E as [Hne HF]. destruct (quota_admit _ _ _ _ _) as [[e|] q]; [done|].
  by intros [= <- <- _].
Qed.

Lemma ingest_frame rpc b (g : gateway F) :
  gw_cache (ingest (T:=T) unicode_lower cfg rpc b g).2
    = (handle unicode_lower cfg (request_of b rpc) (gw_cache g)).2 ∧
  gw_ref (ingest (T:=T) unicode_lower cfg rpc b g).2 = gw_ref g.
Proof.
  unfold ingest. destruct (handle _ _ _ _) as [[r o] c]. cbn [snd].
  destruct r; try done. apply (processors_frame d b (Build_gateway c (gw_stamper g) (gw_ref g) (gw_shared g))).
Qed.

Lemma ingest_forward rpc b (g : gateway F) d rs g' :
  ingest unicode_lower cfg rpc b g = (Forwarded d rs, g') →
  (∃ o c, handle unicode_lower cfg (request_of b rpc) (gw_cache g) = (Accept d, o, c)) ∧
  Forall2 (stamped d) (bi_resources b) rs.
Proof.
  unfold ingest. destruct (handle _ _ _ _) as [[r o] c]. destruct r as [d0| | | |]; try done.
  intros (-> & _ & HF)%processors_forward. eauto.
Qed.

(** ** The log of the control plane's verdicts *)

(** A key row for a secret, of an active customer, neither revoked nor expired
    in the environment of the call. *)
Record live_key (d : db) (ENV : Env) (secret : string) (key : APIKey) (c : Customer) : Prop := {
  lk_row : ∃ id, api_keys d !! id = Some key;
  lk_hash : k_KeyHash key = HashAPIKey secret;
  lk_live : k_RevokedAt key = None;
  lk_unexpired : ∀ t, k_ExpiresAt key = Some t → ∃ n, clock n < t;
  lk_owner : customers d !! k_CustomerID key = Some c;
  lk_active : c_Status c = CustomerActive;
}.

(** A positive verdict rests on a live key and names its customer. *)
Definition justified (a : asked) : Prop :=
  resp_Valid (as_resp a) = true →
  ∃ secret key c, as_hash a = key_hash secret ∧ live_key (as_db a) (as_env a) secret key c ∧
    resp_ClientId (as_resp a) = c_ClientID c ∧ resp_CustomerId (as_resp a) = uuid_String (k_CustomerID key) ∧
    resp_CacheTtlSeconds (as_resp a) = IngestAuth.cacheTTLSeconds.

Definition verdicts (log : list asked) : list verdict :=
  (λ a, (as_hash a, (as_time a, as_resp a))) <$> log.

Record sys_ok (s : system (F:=F)) : Prop := {
  ok_trace : trace_ok cfg (gw_cache (sy_gw s), verdicts (sy_log s));
  ok_log : Forall justified (sy_log s);
}.

Lemma key_hash_inj secret secret' :
  key_hash secret = key_hash secret' → HashAPIKey secret = HashAPIKey secret'.
Proof. unfold key_hash, HashAPIKey. apply hex_encode_inj. Qed.

Lemma call_cp_justified ENV l (b : batch_in T) (s : system (F:=F)) :
  Forall justified (call_cp unicode_lower ENV l b s).2.
Proof.
  unfold call_cp. destruct (negb _); [constructor|]. destruct l; [|constructor|].
  - destruct (IngestAuth.ValidateAPIKey _ _) as [[resp|e] cp] eqn:Hv; [|constructor].
    repeat constructor. intros Hok.
    destruct (IngestAuth.ValidateAPIKey_accepts _ _ _ _ Hv Hok) as (key & c & now & Hk & Hst & He & -> & _).
    exists (secret_of unicode_lower b), key, c. destruct Hk. by split_and!.
  - by destruct (IngestAuth.ValidateAPIKey _ _) as [[resp|e] cp].
Qed.

(** The verdicts of a call are those the gateway's cache sees. *)
Lemma call_cp_trace ENV l (b : batch_in T) (s : system (F:=F)) :
  let '(rpc, _, asked) := call_cp unicode_lower ENV l b s in
  trace_step unicode_lower cfg (gw_cache (sy_gw s), verdicts (sy_log s)) (request_of b rpc) =
    ((handle unicode_lower cfg (request_of b rpc) (gw_cache (sy_gw s))).2, verdicts (asked ++ sy_log s)).
Proof.
  assert (Hasks : ∀ rpc, consults unicode_lower (request_of b rpc) (gw_cache (sy_gw s)) = asks unicode_lower b s)
    by done.
  unfold call_cp. destruct (asks unicode_lower b s) eqn:Ha; cbn [negb].
  - destruct l; [|done|]; destruct (IngestAuth.ValidateAPIKey _ _) as [[resp|e] cp]; try done.
    unfold trace_step. by rewrite Hasks.
  - unfold trace_step. by rewrite Hasks.
Qed.

Lemma sys_ingest_eq ENV l (b : batch_in T) (s : system (F:=F)) :
  let '(rpc, _, asked) := call_cp unicode_lower ENV l b s in
  (sys_ingest unicode_lower cfg ENV l b s).1 = (ingest unicode_lower cfg rpc b (sy_gw s)).1 ∧
  sy_gw (sys_ingest unicode_lower cfg ENV l b s).2 = (ingest unicode_lower cfg rpc b (sy_gw s)).2 ∧
  sy_log (sys_ingest unicode_lower cfg ENV l b s).2 = asked ++ sy_log s.
Proof.
  unfold sys_ingest. destruct (call_cp _ _ _ _ _) as [[rpc cp] asked]. by destruct (ingest _ _ _ _ _).
Qed.

Lemma sys_ok_ingest ENV l (b : batch_in T) s : sys_ok s → sys_ok (sys_ingest unicode_lower cfg ENV l b s).2.
Proof.
  intros [Ht Hl]. pose proof (sys_ingest_eq ENV l b s) as He. pose proof (call_cp_trace ENV l b s) as Htr.
  pose proof (call_cp_justified ENV l b s) as Hj.
  destruct (call_cp _ _ _ _ _) as [[rpc cp] asked]. destruct He as (_ & Hg & Hlog). split.
  - rewrite Hg, Hlog, (proj1 (ingest_frame rpc b (sy_gw s))), <- Htr. by apply trace_ok_step.
  - rewrite Hlog. by apply Forall_app.
Qed.

Lemma sys_ok_run evs s : sys_ok s → sys_ok (sys_run (T:=T) unicode_lower cfg evs s).
Proof.
  revert s. induction evs as [|e evs IH]; intros s Hs; [done|]. cbn [sys_run fold_left]. apply IH.
  destruct e; [|by destruct Hs|]; [by destruct Hs|by apply sys_ok_ingest].
Qed.

Lemma latest_verdicts h log t resp :
  latest h (verdicts log) = Some (t, resp) →
  ∃ a, a ∈ log ∧ as_hash a = h ∧ as_time a = t ∧ as_resp a = resp ∧
       head (filter (λ a, as_hash a = h) log) = Some a.
Proof.
  induction log as [|a log IH]; [done|]. cbn [verdicts fmap list_fmap]. rewrite latest_cons. cbn [fst snd].
  rewrite filter_cons. destruct (decide (as_hash a = h)) as [He|Hne].
  - intros [= <- <-]. exists a. split_and!; try done. left.
  - intros (a' & Hin & ?)%IH. exists a'. split; [by right|done].
Qed.

(** The last verdict the control plane gave on a key. *)
Definition last_asked (secret : string) (log : list asked) : option asked :=
  head (filter (λ a, as_hash a = key_hash secret) log).

Lemma effective_ttl_min resp :
  resp_CacheTtlSeconds resp = IngestAuth.cacheTTLSeconds →
  effective_ttl cfg resp = Z.min (TTL (cfg_Cache cfg)) (30 * second).
Proof.
  intros Hr. unfold effective_ttl. rewrite Hr. unfold IngestAuth.cacheTTLSeconds. simpl.
  destruct (_ <? _) eqn:E; [apply Z.ltb_lt in E|apply Z.ltb_ge in E]; lia.
Qed.

(** When a verdict obtained at [t] still decides a request. *)
Definition decides (answer : rpc_answer) (now t : Z) : Prop :=
  t = now ∨ now < t + Z.min (TTL (cfg_Cache cfg)) (30 * second) ∨
  (∃ msg, answer = RpcErr msg) ∧ now < t + StaleIfError (cfg_Cache cfg).

Lemma forwarded_rests ENV l (b : batch_in T) s d rs s' :
  sys_ok s → sys_ingest unicode_lower cfg ENV l b s = (Forwarded d rs, s') →
  Forall2 (stamped d) (bi_resources b) rs ∧
  ∃ a key c, last_asked (secret_of unicode_lower b) (sy_log s') = Some a ∧
    live_key (as_db a) (as_env a) (secret_of unicode_lower b) key c ∧
    tenantID d = c_ClientID c ∧ customerID d = uuid_String (k_CustomerID key) ∧
    decides (call_cp unicode_lower ENV l b s).1.1 (bi_now b) (as_time a).
Proof.
  intros Hok Hrun. pose proof (sys_ok_ingest ENV l b s Hok) as [_ Hlog]. rewrite Hrun in Hlog.
  pose proof (sys_ingest_eq ENV l b s) as He. pose proof (call_cp_trace ENV l b s) as Htr.
  destruct (call_cp _ _ _ _ _) as [[rpc cp] asked]. rewrite Hrun in He. destruct He as (H1 & _ & Hl).
  cbn [fst snd] in *. destruct (ingest _ _ rpc b _) as [r g'] eqn:Hi. cbn [fst] in H1. subst r.
  apply ingest_forward in Hi as [(o & c0 & Hh) HF]. split; [done|].
  destruct Hok as [Htok _].
  destruct (handle_accepts _ _ _ _ _ _ _ Htok Hh) as (t & resp & Hlat & Hv & -> & Huse).
  rewrite Htr in Hlat. cbn [snd] in Hlat. rewrite <- Hl in Hlat.
  destruct (latest_verdicts _ _ _ _ Hlat) as (a & Hin & Hha & <- & <- & Hlast).
  rewrite Forall_forall in Hlog.
  destruct (Hlog a Hin Hv) as (secret & key & c & Hhs & Hk & Hcl & Hcu & Httl).
  exists a, key, c. split_and!.
  - exact Hlast.
  - destruct Hk. constructor; try done.
    rewrite lk_hash0. apply key_hash_inj. by rewrite <- Hhs, Hha.
  - exact Hcl.
  - exact Hcu.
  - unfold decides, usable in *. rewrite (effective_ttl_min _ Httl) in Huse.
    cbn [rq_now rq_rpc request_of] in Huse. naive_solver.
Qed.

End Stamped.


(** ** Creating the processors *)

Section Created.
Context {F : Type} {NF : Num F} (cfg : TenantAuth.Config).

Definition one_quota (r : nat) (g : gateway F) : Prop := ∀ s, gw_ref g s = r.

(** The quota of a component that has one with this burst. *)
Lemma shared_get_again telemetry id burst (s : sharedQuotas F) r :
  sq_quotas s !! id = Some r → same_burst (burstSeconds (q_registry (sq_heap s r))) burst = true →
  shared_get telemetry id burst s = (inl r, s).
Proof. unfold shared_get. by intros -> ->. Qed.

(** Another burst, as after a reload of the configuration, starts from an
    empty registry: every tenant has its full burst again. *)
Lemma shared_get_changed id burst (s : sharedQuotas F) r :
  sq_quotas s !! id = Some r → same_burst (burstSeconds (q_registry (sq_heap s r))) burst = false →
  let '(res, s') := shared_get None id burst s in
  res = inl (sq_next s) ∧ sq_quotas s' !! id = Some (sq_next s) ∧ sq_heap s' (sq_next s) = newQuota burst.
Proof.
  unfold shared_get. intros -> ->. simpl. rewrite lookup_insert_eq. by rewrite decide_True.
Qed.

Lemma newGateway_shares id burst :
  nleb burst burst = true →
  ∃ g r, newGateway cfg id burst = Some g ∧ one_quota r g ∧ sq_heap (gw_shared g) r = newQuota burst ∧
    gw_cache g = newKeyCache (MaxEntries (cfg_Cache cfg)).
Proof.
  intros Hb. unfold newGateway.
  assert (Hsame : same_burst burst burst = true) by (unfold same_burst; by rewrite Hb).
  assert (H0 : shared_get None id burst (newShared (F:=F)) =
    (inl 0%nat, Build_sharedQuotas (λ r', if decide (r' = 0%nat) then newQuota burst else newQuota (of_Z 0)) 1
                  (<[id := 0%nat]> ∅))) by (unfold shared_get; simpl; by rewrite lookup_empty).
  rewrite H0. rewrite !(shared_get_again None id burst _ 0%nat); try (simpl; by rewrite lookup_insert_eq); try done.
  eexists _, 0%nat. split; [reflexivity|]. split_and!; try done. by intros [].
Qed.

End Created.

(** ** The quota over all signals *)

Section Quota.
Context {T : Type} {AM : AttrMap T} (unicode_lower : N → N) (cfg : TenantAuth.Config).

(** Requests with what the control plane answers, should it be asked. *)
Abbreviation traffic := (list (batch_in T * rpc_answer)).

Definition gw_run (l : traffic) (g : gateway spec_float) : gateway spec_float :=
  fold_left (λ g x, (ingest unicode_lower cfg x.2 x.1 g).2) l g.

(** The items of a tenant that leave the gateway. *)
Definition forwarded_items (tenant : string) (b : batch_in T) (r : result T) : Z :=
  match r with Forwarded d _ => if bool_decide (tenantID d = tenant) then bi_items b else 0 | _ => 0 end.

Fixpoint gw_total (tenant : string) (l : traffic) (g : gateway spec_float) : Z :=
  match l with
  | [] => 0
  | (b, rpc) :: l' =>
    let '(r, g') := ingest unicode_lower cfg rpc b g in
    forwarded_items tenant b r + gw_total tenant l' g'
  end.

Fixpoint arrivals_sorted (t : Z) (l : traffic) : Prop :=
  match l with [] => True | (b, _) :: l' => t ≤ bi_at b ∧ arrivals_sorted (bi_at b) l' end.
Definition last_arrival (t : Z) (l : traffic) : Z := fold_left (λ _ x, bi_at x.1) l t.

Context (tenant : string) (limit : Z).

(** The control plane's answers give the tenant this limit. *)
Definition limit_of (resp : ValidateResponse) : Prop :=
  resp_ClientId resp = tenant → resp_RateLimit resp = limit.

Lemma limits_step st q :
  Forall (λ v : verdict, limit_of v.2.2) st.2 → (∀ resp, rq_rpc q = RpcOk resp → limit_of resp) →
  Forall (λ v : verdict, limit_of v.2.2) (trace_step unicode_lower cfg st q).2.
Proof.
  destruct st as [c hist]. intros Hl Hq. unfold trace_step. cbn [snd].
  destruct (rq_rpc q) as [resp|msg]; [|done]. destruct (consults _ _ _); [|done].
  constructor; [by apply Hq|done].
Qed.

Lemma latest_Forall (P : ValidateResponse → Prop) h (hist : list verdict) t resp :
  Forall (λ v : verdict, P v.2.2) hist → latest h hist = Some (t, resp) → P resp.
Proof.
  induction 1 as [|v hist Hv _ IH]; [done|]. rewrite latest_cons. destruct (decide _); [|done].
  by intros [= Heq]; rewrite Heq in Hv.
Qed.

(** The batch as the quota sees it. *)
Definition at_quota (d : authData) (b : batch_in T) : batch :=
  {| ba_auth := Some (auth_attrs d); ba_signal := signal_name (bi_signal b); ba_n := bi_items b; ba_now := bi_at b |}.

Lemma at_quota_tenant d b : ba_tenant (at_quota d b) = tenantID d.
Proof. done. Qed.
Lemma at_quota_limit d b : ba_limit (at_quota d b) = rateLimitItemsPerSec d.
Proof. done. Qed.

(** A request offers at most one batch to the shared quota. *)
Lemma ingest_offers rpc b (g : gateway spec_float) r :
  one_quota r g →
  let q := sq_heap (gw_shared g) r in
  let '(res, g') := ingest unicode_lower cfg rpc b g in
  let q' := sq_heap (gw_shared g') r in
  (forwarded_items tenant b res = 0 ∧ q' = q) ∨
  ∃ d o c, handle unicode_lower cfg (request_of b rpc) (gw_cache g) = (Accept d, o, c) ∧
    let '(x, q1) := offer (at_quota d b) q in
    q' = q1 ∧ forwarded_items tenant b res = passed tenant (at_quota d b) x.
Proof.
  intros Hr. unfold ingest. destruct (handle _ _ _ _) as [[a o] c]. destruct a as [d| | | |];
    cbv beta iota zeta; try (by left).
  unfold processors. cbn [gw_cache gw_stamper gw_ref gw_shared].
  destruct (process _ _ _ _ _) as [[rs|] st]; cbv beta iota zeta; [|by left].
  unfold gw_quota. cbn [gw_ref gw_shared]. rewrite Hr.
  assert (Hoff : offer (at_quota d b) (sq_heap (gw_shared g) r) =
    quota_admit (Some (auth_attrs d)) (signal_name (bi_signal b)) (bi_items b) (bi_at b) (sq_heap (gw_shared g) r)) by done.
  destruct (quota_admit _ _ _ _ _) as [x q1]. cbv beta iota zeta. cbn [gw_shared store_quota sq_heap].
  right. exists d, o, c. split; [done|]. rewrite Hoff, decide_True by done. split; [done|].
  unfold passed. rewrite at_quota_tenant. by destruct x.
Qed.

Lemma gw_total_admitted r l : ∀ (g : gateway spec_float) hist t,
  one_quota r g → trace_ok cfg (gw_cache g, hist) → Forall (λ v : verdict, limit_of v.2.2) hist →
  (∀ b resp, (b, RpcOk resp) ∈ l → limit_of resp) → (∀ b rpc, (b, rpc) ∈ l → 0 ≤ bi_items b ≤ MaxInt64) →
  arrivals_sorted t l →
  ∃ bs, gw_total tenant l g = admitted tenant bs (sq_heap (gw_shared g) r) ∧ times_sorted t bs ∧
    end_time t bs ≤ last_arrival t l ∧ (length bs ≤ length l)%nat ∧ (∀ b, b ∈ bs → fits tenant limit b).
Proof.
  induction l as [|[b rpc] l IH]; intros g hist t Hr Ht Hh Hl Hn Hs.
  { exists []. split_and!; try done. intros b Hb. by apply elem_of_nil in Hb. }
  destruct Hs as [Hle Hs]. cbn [gw_total].
  pose proof (ingest_offers rpc b g r Hr) as Ho.
  destruct (ingest_frame unicode_lower cfg rpc b g) as [Hc Href].
  pose proof (trace_ok_step unicode_lower cfg _ (request_of b rpc) Ht) as Ht'.
  pose proof (limits_step (gw_cache g, hist) (request_of b rpc) Hh) as Hh'.
  destruct (ingest _ _ _ _ _) as [res g']. cbn [snd] in Hc, Href.
  assert (Hacc : ∀ d o c, handle unicode_lower cfg (request_of b rpc) (gw_cache g) = (Accept d, o, c) →
             tenantID d = tenant → rateLimitItemsPerSec d = limit).
  { intros d o c Ha. destruct (handle_accepts _ _ _ _ _ _ _ Ht Ha) as (t0 & resp & Hlat & _ & -> & _).
    refine (latest_Forall limit_of _ _ _ _ _ Hlat). apply Hh'.
    cbn [rq_rpc request_of]. intros resp' ->. by apply (Hl b); left. }
  destruct (IH g' (trace_step unicode_lower cfg (gw_cache g, hist) (request_of b rpc)).2 (bi_at b)) as
    (bs & Htot & Hts & Hend & Hlen & Hlim).
  - intros s. by rewrite Href.
  - unfold trace_step in Ht' |- *. cbn [snd] in *. by rewrite Hc.
  - apply Hh'. cbn [rq_rpc request_of]. intros resp' ->. by apply (Hl b); left.
  - intros b' resp' Hin. apply (Hl b'). by right.
  - intros b' rpc' Hin. apply (Hn b' rpc'). by right.
  - done.
  - cbv zeta in Ho. destruct Ho as [[-> Hq]|(d & o & c & Ha & Ho)].
    + exists bs. rewrite Htot, Hq. split_and!; [done| | |simpl; lia|done].
      * destruct bs as [|b0 bs]; [done|]. destruct Hts as [? ?]. split; [lia|done].
      * cbn [last_arrival fold_left fst]. unfold last_arrival in Hend.
        destruct bs as [|b0 bs]; [|done]. cbn in Hend |- *. lia.
    + exists (at_quota d b :: bs). cbn [admitted]. destruct (offer _ _) as [x q1]. destruct Ho as [<- ->].
      rewrite Htot. split_and!; [done|done|exact Hend|simpl; lia|].
      intros b' [->|Hb]%elem_of_cons; [|by apply Hlim]. intros Htd. split; [exact (Hacc d o c Ha Htd)|].
      apply (Hn b rpc). left.
Qed.

Lemma gw_run_inv r l burst : ∀ (g : gateway spec_float) hist,
  0 < limit ≤ MaxInt64 → fin burst → (pw (-30) <= fval burst)%Q → (fval burst <= 600)%Q →
  one_quota r g → burstSeconds (q_registry (sq_heap (gw_shared g) r)) = burst →
  registry_ok tenant (q_registry (sq_heap (gw_shared g) r)) →
  trace_ok cfg (gw_cache g, hist) → Forall (λ v : verdict, limit_of v.2.2) hist →
  (∀ b resp, (b, RpcOk resp) ∈ l → limit_of resp) → (∀ b rpc, (b, rpc) ∈ l → 0 ≤ bi_items b ≤ MaxInt64) →
  ∃ hist', one_quota r (gw_run l g) ∧ burstSeconds (q_registry (sq_heap (gw_shared (gw_run l g)) r)) = burst ∧
    registry_ok tenant (q_registry (sq_heap (gw_shared (gw_run l g)) r)) ∧
    trace_ok cfg (gw_cache (gw_run l g), hist') ∧ Forall (λ v : verdict, limit_of v.2.2) hist'.
Proof.
  induction l as [|[b rpc] l IH]; intros g hist Hpos Fb Hb1 Hb2 Hr Hb Hok Ht Hh Hl Hn; [eauto 10|].
  cbn [gw_run fold_left fst snd].
  pose proof (ingest_offers rpc b g r Hr) as Ho.
  destruct (ingest_frame unicode_lower cfg rpc b g) as [Hc Href].
  pose proof (trace_ok_step unicode_lower cfg _ (request_of b rpc) Ht) as Ht'.
  pose proof (limits_step (gw_cache g, hist) (request_of b rpc) Hh) as Hh'.
  assert (Hh2 : Forall (λ v : verdict, limit_of v.2.2) (trace_step unicode_lower cfg (gw_cache g, hist) (request_of b rpc)).2).
  { apply Hh'. cbn [rq_rpc request_of]. intros resp' ->. by apply (Hl b); left. }
  assert (Hq : burstSeconds (q_registry (sq_heap (gw_shared (ingest unicode_lower cfg rpc b g).2) r)) = burst ∧
    registry_ok tenant (q_registry (sq_heap (gw_shared (ingest unicode_lower cfg rpc b g).2) r))).
  { destruct (ingest unicode_lower cfg rpc b g) as [res g'] eqn:Hi. cbn [snd]. cbv zeta in Ho.
    destruct Ho as [[_ ->]|(d & o & c & Ha & Ho)]; [done|].
    pose proof (offer_burst (at_quota d b) (sq_heap (gw_shared g) r)) as Hob.
    assert (Hfit : fits tenant limit (at_quota d b)).
    { intros Htd. split; [|apply (Hn b rpc); left].
      destruct (handle_accepts _ _ _ _ _ _ _ Ht Ha) as (t0 & resp & Hlat & _ & -> & _).
      by refine (latest_Forall limit_of _ _ _ _ Hh2 Hlat _). }
    pose proof (registry_ok_offer tenant limit burst Hpos Fb Hb1 Hb2 _ _ Hfit Hb Hok) as Hok'.
    destruct (offer _ _) as [x q1]. destruct Ho as [-> _]. cbn [snd] in Hob, Hok'. split; [congruence|done]. }
  apply (IH _ (trace_step unicode_lower cfg (gw_cache g, hist) (request_of b rpc)).2); try done.
  - intros s. by rewrite Href.
  - apply Hq.
  - apply Hq.
  - unfold trace_step in Ht' |- *. cbn [snd] in *. by rewrite Hc.
  - intros b' resp' Hin. apply (Hl b'). by right.
  - intros b' rpc' Hin. apply (Hn b' rpc'). by right.
Qed.

(** C12: The quota holds over all signals.  In a gateway that was configured
    with one tenantquota component, whatever was sent before and whatever
    others send, the items of a tenant that leave in a window, logs, spans and
    metric points together, are at most its burst plus its rate times the
    length of the window, computed in doubles as the processor does: rounding
    can add a 2^-48th of that allowance and of a full burst for each batch of
    the window.  The control plane answers with one limit, of a positive
    int64; the burst is between 2^-30 and 600 seconds, since the bucket of a
    tenant that was idle for ten minutes comes back full. *)
Theorem gateway_quota id burst g0 (before window : traffic) t0 :
  newGateway cfg id burst = Some g0 →
  tenant ≠ "" → 0 < limit ≤ MaxInt64 → fin burst → (pw (-30) <= fval burst)%Q → (fval burst <= 600)%Q →
  (∀ b resp, (b, RpcOk resp) ∈ before ++ window → resp_ClientId resp = tenant → resp_RateLimit resp = limit) →
  (∀ b rpc, (b, rpc) ∈ before ++ window → 0 ≤ bi_items b ≤ MaxInt64) →
  arrivals_sorted t0 window →
  let full := (inject_Z limit * fval burst)%Q in
  let allowed := (full + inject_Z limit * secs (last_arrival t0 window - t0))%Q in
  let batches := Z.of_nat (length window) in
  (inject_Z (gw_total tenant window (gw_run before g0))
     <= allowed + (1 # 281474976710656) * (allowed + inject_Z batches * full))%Q.
Proof.
  intros Hnew Hne Hpos Fb Hb1 Hb2 Hlim Hn Hs full allowed batches.
  destruct (newGateway_shares cfg id burst) as (g & r & Hg & Hone & Hq & Hcache).
  { apply fleb_spec; try done. apply Qle_refl. }
  rewrite Hnew in Hg. injection Hg as <-.
  destruct (gw_run_inv r before burst g0 []) as (hist & H1 & H2 & H3 & H4 & H5); try done.
  - by rewrite Hq.
  - rewrite Hq. unfold registry_ok. simpl. by rewrite lookup_empty.
  - rewrite Hcache. exact (trace_ok_run unicode_lower cfg []).
  - intros b resp Hin. refine (Hlim b resp _). apply elem_of_app. by left.
  - intros b rpc Hin. apply (Hn b rpc). apply elem_of_app. by left.
  - destruct (gw_total_admitted r window (gw_run before g0) hist t0) as (bs & -> & Hts & Hend & Hlen & Hl); try done.
    { intros b resp Hin. refine (Hlim b resp _). apply elem_of_app. by right. }
    { intros b rpc Hin. apply (Hn b rpc). apply elem_of_app. by right. }
    unfold allowed, full, batches. rewrite <- allowance_slack.
    eapply Qle_trans; [apply (admitted_before tenant limit burst t0 Hne Hpos Fb Hb1 Hb2 t0 bs); [lia|done..]|].
    apply (allowance_mono limit burst t0 Hpos Hb1 Hb2); [exact Hend|lia].
Qed.

End Quota.


(** ** From the key to the data *)

Section EndToEnd.
Context {T : Type} {AM : AttrMap T} {F : Type} {NF : Num F}.
Context (unicode_lower : N → N) (cfg : TenantAuth.Config).

(** A new gateway and a control plane on some tables. *)
Definition sys_start (g : gateway F) (w : world) : system :=
  {| sy_gw := g; sy_cp := IngestAuth.New w; sy_log := [] |}.

Lemma newGateway_cache id burst (g : gateway F) :
  newGateway cfg id burst = Some g → gw_cache g = newKeyCache (MaxEntries (cfg_Cache cfg)).
Proof.
  unfold newGateway. destruct (shared_get _ _ _ _) as [t s1]. destruct (shared_get _ _ _ s1) as [l s2].
  destruct (shared_get _ _ _ s2) as [m s3]. destruct t, l, m; try done. by intros [= <-].
Qed.

Lemma sys_ok_start id burst g w : newGateway cfg id burst = Some g → sys_ok cfg (sys_start g w).
Proof.
  intros Hg. split; [|constructor]. simpl. rewrite (newGateway_cache _ _ _ Hg).
  exact (trace_ok_run unicode_lower cfg []).
Qed.

(** C8: Ingest from the key to the data.  Whatever the control plane's store
    went through and whatever was sent before, with calls answered, refused or
    lost: a batch that leaves the gateway carries on every resource the tenant
    and customer of its request and nothing else of theirs changed, and when
    the control plane was last asked about the presented secret its tables
    held, under its hash, a key that was neither revoked nor expired, of an
    active customer that is this tenant; that was for this very request, less
    than the smaller of the configured TTL and 30 seconds ago, or less than
    stale_if_error ago and the call of this request failed. *)
Theorem forwarded_only_for_live_keys id burst g w evs ENV l (b : batch_in T) d rs s' :
  newGateway cfg id burst = Some g →
  let s := sys_run unicode_lower cfg evs (sys_start g w) in
  let secret := secret_of unicode_lower b in
  sys_ingest unicode_lower cfg ENV l b s = (Forwarded d rs, s') →
  Forall2 (stamped d) (bi_resources b) rs ∧
  ∃ a key c, last_asked secret (sy_log s') = Some a ∧ live_key (as_db a) (as_env a) secret key c ∧
    tenantID d = c_ClientID c ∧ customerID d = uuid_String (k_CustomerID key) ∧
    decides cfg (call_cp unicode_lower ENV l b s).1.1 (bi_now b) (as_time a).
Proof.
  intros Hg s secret. apply forwarded_rests. unfold s. apply sys_ok_run. by apply (sys_ok_start id burst).
Qed.

(** C9: Revocation takes effect.  If from [t0] on the control plane, whenever
    it was asked about a secret, held no live key for it, then no batch sent
    with that secret leaves the gateway once the larger of the cache time (at
    most 30 seconds) and stale_if_error has passed since [t0]. *)
Theorem revocation_takes_effect id burst g w evs ENV l (b : batch_in T) t0 :
  newGateway cfg id burst = Some g → ValidateConfig cfg = [] →
  let s := sys_run unicode_lower cfg evs (sys_start g w) in
  let secret := secret_of unicode_lower b in
  let '(r, s') := sys_ingest unicode_lower cfg ENV l b s in
  (∀ a, a ∈ sy_log s' → as_hash a = key_hash secret → t0 ≤ as_time a →
     ∀ key c, ¬ live_key (as_db a) (as_env a) secret key c) →
  t0 + Z.max (Z.min (TTL (cfg_Cache cfg)) (30 * second)) (StaleIfError (cfg_Cache cfg)) ≤ bi_now b →
  ∀ d rs, r ≠ Forwarded d rs.
Proof.
  intros Hg Hcfg s secret. destruct (sys_ingest _ _ _ _ _ _) as [r s'] eqn:Hrun.
  intros Hgone Hnow d rs ->.
  destruct (forwarded_rests unicode_lower cfg ENV l b s d rs s') as (_ & a & key & c & Hlast & Hk & _ & _ & Hdec).
  { apply sys_ok_run. by apply (sys_ok_start id burst). }
  { exact Hrun. }
  apply head_Some_elem_of, list_elem_of_filter in Hlast as [Hh Hin].
  assert (Ht : as_time a < t0).
  { apply Z.nle_gt. intros Hle. by eapply (Hgone a). }
  assert (Hpos : 0 ≤ StaleIfError (cfg_Cache cfg)).
  { unfold ValidateConfig in Hcfg. repeat apply app_eq_nil in Hcfg as [_ Hcfg].
    destruct (_ <? 0) eqn:E; [done|]. by apply Z.ltb_ge in E. }
  destruct Hdec as [?|[?|[_ ?]]]; lia.
Qed.

End EndToEnd.


(** ** Runs *)

Definition demo_gateway : gateway spec_float :=
  default (Build_gateway (newKeyCache 0) (λ _, newStamper) (λ _, 0%nat) newShared)
    (newGateway example_cfg "tenantquota" (of_Z 2)).

Lemma demo_gateway_new : newGateway example_cfg "tenantquota" (of_Z 2) = Some demo_gateway.
Proof. reflexivity. Qed.

(** A batch of log records whose sender claims another tenant. *)
Definition demo_batch (sig : Signal) (now items : Z) : batch_in (gmap string attr_value) := {|
  bi_signal := sig; bi_now := now; bi_at := now; bi_items := items;
  bi_sources := [("Authorization", ["Bearer " +:+ IngestAuth.minted_secret])];
  bi_resources := [<["tenant.id" := VString "victim"]> (<["host" := VString "h"]> ∅)] |}.

Definition demo_start : system := sys_start demo_gateway IngestAuth.minted.2.

(** The key is validated at time 0, revoked, and asked about again at 40 s. *)
Definition demo_used : list (event (T:=gmap string attr_value)) :=
  [EvIngest quiet_env Reachable (demo_batch Logs 0 1)].
Definition demo_revoked : list (event (T:=gmap string attr_value)) :=
  demo_used ++
  [EvStore quiet_env (CallRevokeAPIKey 1%N
     (match IngestAuth.minted.1 with inl k => k_ID (ck_Key k) | inr _ => 0%N end) [])].
Definition demo_known : list (event (T:=gmap string attr_value)) :=
  demo_revoked ++ [EvIngest quiet_env Reachable (demo_batch Logs (40 * second) 1)].

Definition demo_run evs := sys_run id example_cfg evs demo_start.
Definition demo_ingest l b evs := sys_ingest id example_cfg quiet_env l b (demo_run evs).

Definition passes (r : result (gmap string attr_value)) : bool :=
  match r with Forwarded _ _ => true | _ => false end.

Lemma passes_inv r : passes r = true → ∃ d rs, r = Forwarded d rs.
Proof. destruct r; try discriminate. eauto. Qed.

(** A revoked key works for the rest of its 30 seconds, and for the whole of
    stale_if_error while the control plane is away; not afterwards, and not
    once the control plane said so. *)
Example revoked_key_in_the_gateway :
  passes (demo_ingest Reachable (demo_batch Logs (20 * second) 1) demo_revoked).1 = true ∧
  passes (demo_ingest Reachable (demo_batch Logs (40 * second) 1) demo_revoked).1 = false ∧
  passes (demo_ingest Unreachable (demo_batch Logs (299 * second) 1) demo_revoked).1 = true ∧
  passes (demo_ingest Unreachable (demo_batch Logs (300 * second) 1) demo_revoked).1 = false ∧
  passes (demo_ingest Unreachable (demo_batch Logs (60 * second) 1) demo_known).1 = false.
Proof. vm_compute. auto. Qed.

Lemma forwarded_only_for_live_keys_witness :
  let s := demo_run demo_revoked in
  let b := demo_batch Logs (299 * second) 1 in
  ∃ d rs s' a key c, sys_ingest id example_cfg quiet_env Unreachable b s = (Forwarded d rs, s') ∧
    Forall2 (stamped d) (bi_resources b) rs ∧
    last_asked (secret_of id b) (sy_log s') = Some a ∧ as_time a = 0 ∧
    live_key (as_db a) (as_env a) (secret_of id b) key c ∧ tenantID d = c_ClientID c.
Proof.
  intros s b.
  assert (Hp : passes (sys_ingest id example_cfg quiet_env Unreachable b s).1 = true)
    by (vm_compute; reflexivity).
  destruct (sys_ingest id example_cfg quiet_env Unreachable b s) as [r s'] eqn:Hrun.
  destruct (passes_inv r Hp) as (d & rs & ->).
  destruct (forwarded_only_for_live_keys id example_cfg "tenantquota" (of_Z 2) demo_gateway
    IngestAuth.minted.2 demo_revoked quiet_env Unreachable b d rs s' demo_gateway_new Hrun)
    as (HF & a & key & c & Hlast & Hk & Hd & _).
  exists d, rs, s', a, key, c. split_and!; [reflexivity|exact HF|exact Hlast| |exact Hk|exact Hd].
  assert (Ha : as_time <$> last_asked (secret_of id b) (sy_log s') = Some 0).
  { change s' with (Forwarded d rs, s').2. rewrite <- Hrun. vm_compute. reflexivity. }
  rewrite Hlast in Ha. exact (f_equal (default 0) Ha).
Defined.

(** Every key row under the hash of a secret is revoked. *)
Definition all_revoked (secret : string) (d : db) : bool :=
  forallb (λ k, negb (bool_decide (k_KeyHash k = HashAPIKey secret)) || is_some (k_RevokedAt k))
    (map_to_list (api_keys d)).*2.

Lemma all_revoked_dead d ENV secret key c : all_revoked secret d = true → ¬ live_key d ENV secret key c.
Proof.
  unfold all_revoked. rewrite forallb_forall. intros Hall [[i Hi] Hh Hr _ _ _].
  assert (Hin : key ∈ (map_to_list (api_keys d)).*2).
  { apply list_elem_of_fmap. exists (i, key). split; [done|]. by apply elem_of_map_to_list. }
  apply list_elem_of_In, Hall in Hin. by rewrite Hr, bool_decide_true in Hin.
Qed.

Lemma revocation_takes_effect_witness :
  match (demo_ingest Unreachable (demo_batch Logs (310 * second) 1) demo_known).1 with
  | Forwarded _ _ => False
  | _ => True
  end.
Proof.
  enough (Hn : ∀ d rs, (demo_ingest Unreachable (demo_batch Logs (310 * second) 1) demo_known).1 ≠ Forwarded d rs)
    by (destruct (demo_ingest _ _ _).1; auto; by eapply Hn).
  pose proof (revocation_takes_effect id example_cfg "tenantquota" (of_Z 2) demo_gateway
    IngestAuth.minted.2 demo_known quiet_env Unreachable (demo_batch Logs (310 * second) 1) (10 * second)
    demo_gateway_new eq_refl) as H.
  unfold demo_ingest, demo_run. cbv zeta in H. unfold demo_start.
  destruct (sys_ingest _ _ _ _ _ _) as [r s'] eqn:Hrun. apply H; [|by vm_compute].
  intros a Hin _ Ht key c.
  assert (Hsec : secret_of id (demo_batch Logs (310 * second) 1) = IngestAuth.minted_secret)
    by (vm_compute; reflexivity).
  rewrite Hsec. apply all_revoked_dead.
  assert (Hlog : forallb (λ a, negb (10 * second <=? as_time a) ||
      all_revoked IngestAuth.minted_secret (as_db a)) (sy_log s') = true).
  { change s' with (r, s').2. rewrite <- Hrun. vm_compute. reflexivity. }
  rewrite forallb_forall in Hlog. apply list_elem_of_In, Hlog in Hin.
  apply Z.leb_le in Ht. by rewrite Ht in Hin.
Defined.

(** Three signals and one budget: of 15 log records, 10 metric points and 5
    spans at once, the metric points do not pass. *)
Definition demo_traffic : list (batch_in (gmap string attr_value) * rpc_answer) :=
  let answer := RpcOk {| resp_Valid := true; resp_CustomerId := "c"; resp_ClientId := "acme";
                         resp_CacheTtlSeconds := 30; resp_RateLimit := 10 |} in
  [(demo_batch Logs 0 15, answer); (demo_batch Metrics 0 10, answer); (demo_batch Traces 0 5, answer)].

Lemma gateway_quota_witness :
  gw_total id example_cfg "acme" demo_traffic demo_gateway = 20 ∧
  (inject_Z (gw_total id example_cfg "acme" demo_traffic (gw_run id example_cfg [] demo_gateway))
     <= inject_Z 10 * fval (of_Z 2) + inject_Z 10 * secs (last_arrival 0 demo_traffic - 0) +
        (1 # 281474976710656) * (inject_Z 10 * fval (of_Z 2) + inject_Z 10 * secs (last_arrival 0 demo_traffic - 0)
           + inject_Z (Z.of_nat (length demo_traffic)) * (inject_Z 10 * fval (of_Z 2))))%Q.
Proof.
  split; [vm_compute; reflexivity|].
  apply (gateway_quota id example_cfg "acme" 10 "tenantquota" (of_Z 2) demo_gateway [] demo_traffic 0); try done.
  - change (of_Z 2) with (S754_finite false 4503599627370496 (-51)). unfold fin, canonical. lia.
  - intros b resp Hin. repeat (apply elem_of_cons in Hin as [[= _ ->]|Hin]; [done|]). by apply elem_of_nil in Hin.
  - intros b rpc Hin. repeat (apply elem_of_cons in Hin as [[= -> _]|Hin]; [done|]). by apply elem_of_nil in Hin.
Defined.
End Gateway.
