(* ===== verification/AuditLog.v ===== *)
(** * The audit log endpoint (internal/api/handlers_admin.go)

    [ListAuditLog] of the API server, a page of the log behind a cursor, and
    what a client reads that follows the cursor while others keep writing. *)
From S2P Require Import Prelude GoStrings Store World PgCore PgUsers PgFleet PgPipelines PgMisc StoreCalls.

Record AuditEntry := {
  ae_Id : Z;
  ae_ActorType : string;
  ae_ActorUserId : option uuid;
  ae_ActorEmail : option string;
  ae_Action : string;
  ae_EntityType : string;
  ae_EntityId : string;
  ae_CustomerId : option uuid;
  ae_CustomerName : option string;
  ae_Payload : option json;
  ae_CreatedAt : time;
}.

Record ListAuditLogParams := {
  lp_Action : option string;
  lp_EntityType : option string;
  lp_CustomerId : option uuid;
  lp_ActorUserId : option uuid;
  lp_From : option time;
  lp_To : option time;
  lp_Limit : option Z;
  lp_BeforeId : option Z;
}.
#[export] Instance eta_ListAuditLogParams : Eta ListAuditLogParams :=
  λ r, Build_ListAuditLogParams (lp_Action r) (lp_EntityType r) (lp_CustomerId r)
    (lp_ActorUserId r) (lp_From r) (lp_To r) (lp_Limit r) (lp_BeforeId r).

Record AuditPage := {
  Entries : list AuditEntry;
  NextBeforeId : option Z;
}.

(** [json.Unmarshal(r.Payload, &map)]: an object, or null, which leaves the
    map nil. *)
Definition payload_map (p : option json) : option json :=
  match p with
  | Some (JObj m) => Some (JObj m)
  | Some JNull => Some JNull
  | _ => None
  end.

Definition audit_entry (r : AuditRow) : AuditEntry := {|
  ae_Id := ar_ID r; ae_ActorType := ar_ActorType r; ae_ActorUserId := ar_ActorUserID r;
  ae_ActorEmail := ar_ActorEmail r; ae_Action := ar_Action r; ae_EntityType := ar_EntityType r;
  ae_EntityId := ar_EntityID r; ae_CustomerId := ar_CustomerID r;
  ae_CustomerName := ar_CustomerName r; ae_Payload := payload_map (ar_Payload r);
  ae_CreatedAt := ar_CreatedAt r |}.

Definition clamp_limit (p : option Z) : Z :=
  let limit := default 50%Z p in
  let limit := if (limit <? 1)%Z then 1%Z else limit in
  if (200 <? limit)%Z then 200%Z else limit.

Definition audit_filter (p : ListAuditLogParams) : AuditFilter := {|
  af_Action := lp_Action p; af_EntityType := lp_EntityType p; af_CustomerID := lp_CustomerId p;
  af_ActorUserID := lp_ActorUserId p; af_From := lp_From p; af_To := lp_To p;
  af_Limit := clamp_limit (lp_Limit p); af_BeforeID := lp_BeforeId p |}.

Definition ServeAuditLog `{Env} (p : ListAuditLogParams) : Op AuditPage :=
  let filter_ := audit_filter p in
  rows ← ListAuditLog filter_;
  mret {| Entries := audit_entry <$> rows;
          NextBeforeId := if bool_decide (Z.of_nat (length rows) = af_Limit filter_)
                          then ar_ID <$> last rows else None |}.

(** ** The log only grows

    What one store call does to the log, rolled back or not: the new entries
    have fresh, increasing identifiers. *)

Definition in_seq (lo hi : Z) (r : AuditRec) : Prop := (lo < l_ID r ≤ hi)%Z.

Definition log_grows (w w' : world) : Prop :=
  (w_audit_seq w ≤ w_audit_seq w')%Z ∧
  ∃ new, audit_log (w_db w') = audit_log (w_db w) ++ new ∧
    StronglySorted Z.lt (l_ID <$> new) ∧ Forall (in_seq (w_audit_seq w) (w_audit_seq w')) new.

#[export] Instance log_grows_preorder : PreOrder log_grows.
Proof.
  split.
  - intros w. split; [lia|]. exists []. rewrite app_nil_r. split_and!; constructor.
  - intros w1 w2 w3 (Hs1 & n1 & E1 & O1 & F1) (Hs2 & n2 & E2 & O2 & F2). split; [lia|].
    exists (n1 ++ n2). rewrite E2, E1, app_assoc, fmap_app. split_and!; [done| |].
    + apply StronglySorted_app_2; [|done..]. intros x y (r & -> & Hr)%list_elem_of_fmap
        (r' & -> & Hr')%list_elem_of_fmap.
      rewrite Forall_forall in F1, F2. destruct (F1 _ Hr), (F2 _ Hr'). lia.
    + apply Forall_app. split; eapply Forall_impl; eauto; unfold in_seq; simpl; lia.
Qed.

(** A world whose tables keep their log. *)
Lemma log_grows_same w w' :
  audit_log (w_db w') = audit_log (w_db w) → (w_audit_seq w ≤ w_audit_seq w')%Z → log_grows w w'.
Proof.
  intros E Hs. split; [done|]. exists []. rewrite E, app_nil_r. split_and!; constructor.
Qed.

Section Grows.
Context {ENV : Env}.

Lemma grows_stmt {A} (f : time → db → (db * A) + error) :
  (∀ t d d' a, f t d = inl (d', a) → audit_log d' = audit_log d) → steps log_grows (stmt f).
Proof.
  intros Hf w. unfold stmt, fail_stmt. destruct (fault _ || _); [by apply log_grows_same|].
  destruct (f _ _) as [[d a]|e] eqn:E; simpl; apply log_grows_same; simpl; try done; try lia.
  by eapply Hf.
Qed.

Lemma grows_exec f :
  (∀ t d, audit_log (f t d).1 = audit_log d) → steps log_grows (exec f).
Proof.
  intros Hf. apply grows_stmt. intros t d d' a [= E]. specialize (Hf t d). by rewrite E in Hf.
Qed.

Lemma grows_query {A} (f : db → list A) : steps log_grows (query f).
Proof. apply grows_stmt. by intros t d d' a [= <- _]. Qed.

Lemma grows_queryRow {A} (f : db → option A) : steps log_grows (queryRow f).
Proof. apply grows_stmt. intros t d d' a. destruct (f d); [by intros [= <- _]|done]. Qed.

Lemma grows_inTx {A} (m : Op A) : steps log_grows m → steps log_grows (inTx m).
Proof.
  intros Hm w. unfold inTx. destruct (fault (w_tick w)); [by apply log_grows_same|].
  specialize (Hm (w <| w_tick ::= S |> <| w_txtime := Some (clock (w_tick w)) |>)).
  destruct Hm as [Hs (new & E & O & F)]. simpl in *.
  destruct (m _) as [[a|e] w2]; simpl in *; [|by apply log_grows_same].
  case_match; simpl; [by apply log_grows_same|]. split; [done|]. by exists new.
Qed.

Lemma grows_insert_audit e : steps log_grows (insert_audit e).
Proof.
  intros w. unfold insert_audit, fail_stmt. destruct (fault _ || _); [by apply log_grows_same|].
  case_bool_decide; simpl; [|apply log_grows_same; simpl; [done|lia]].
  split; simpl; [lia|]. eexists. split; [reflexivity|]. simpl.
  split; repeat constructor; simpl; lia.
Qed.

Lemma grows_insert_event a t p : steps log_grows (insert_event a t p).
Proof.
  intros w. unfold insert_event, fail_stmt. destruct (fault _ || _); [by apply log_grows_same|].
  case_match; by apply log_grows_same.
Qed.

Lemma grows_Write es : steps log_grows (Write es).
Proof.
  apply steps_for; [typeclasses eauto|]. intros e. unfold wrapErr.
  apply steps_bind; [typeclasses eauto|apply steps_try, grows_insert_audit|].
  intros [a|er]; [apply steps_ret|apply steps_throw]; typeclasses eauto.
Qed.

Lemma grows_wrapErr {A} msg (m : Op A) : steps log_grows m → steps log_grows (wrapErr msg m).
Proof.
  intros Hm. unfold wrapErr. apply steps_bind; [typeclasses eauto|by apply steps_try|].
  intros [a|er]; [apply steps_ret|apply steps_throw]; typeclasses eauto.
Qed.

Lemma grows_onErr {A} f (m : Op A) : steps log_grows m → steps log_grows (onErr f m).
Proof.
  intros Hm. unfold onErr. apply steps_bind; [typeclasses eauto|by apply steps_try|].
  intros [a|er]; [apply steps_ret|apply steps_throw]; typeclasses eauto.
Qed.

Lemma grows_uuid_New : steps log_grows uuid_New.
Proof. intros w. by apply log_grows_same. Qed.

End Grows.

#[export] Hint Resolve grows_query grows_queryRow grows_insert_event grows_Write grows_uuid_New
  : steps.
#[export] Hint Extern 1 (steps log_grows (inTx _)) => apply grows_inTx : steps.

(** Statements leave the log alone. *)
Ltac log_untouched :=
  intros; simpl in *; unfold constrained in *; repeat case_match; simpl in *; simplify_eq; try done.

Ltac grows_tac :=
  repeat first
    [ solve [eauto 2 with steps]
    | lazymatch goal with
      | |- steps _ (inTx _) => apply grows_inTx
      | |- steps _ (wrapErr _ _) => apply grows_wrapErr
      | |- steps _ (onErr _ _) => apply grows_onErr
      | |- steps _ (exec _) => apply grows_exec
      | |- steps _ (stmt _) => apply grows_stmt
      | |- steps _ (_ ≫= _) => apply steps_bind; [typeclasses eauto| |intros ?]
      | |- steps _ (mfor _ _) => apply steps_for; [typeclasses eauto|intros ?]
      | |- steps _ (mtry _) => apply steps_try
      | |- steps _ (mwhen _ _) => apply steps_when; [typeclasses eauto|]
      | |- steps _ (mret _) => apply steps_ret; typeclasses eauto
      | |- steps _ (mthrow _) => apply steps_throw; typeclasses eauto
      | |- steps _ (match ?x with _ => _ end) => destruct x
      | |- steps _ (let _ := _ in _) => cbv zeta
      end
    | log_untouched ].

Lemma grows_call (ENV : Env) c : steps log_grows (run_call c).
Proof.
  destruct c; unfold run_call, void, CreateCustomer, UpdateCustomer, SoftDeleteCustomer,
    CreateAPIKey, RevokeAPIKey, TouchAPIKeys, UpsertUserByIdentity, CreateSCIMUser,
    UpdateSCIMUser, SetUserCustomerGrants, CreateInvitedUser, UpdateUserAdmin,
    DeleteUser, CreateBootstrapToken, RevokeBootstrapToken, EnrollAgent, SetAgentToken,
    DeleteAgent, UpdateAgentDescription, UpdateAgentMeta, SetAgentConnected,
    SetAgentAssignedConfig, SetAgentAckedConfig, SetAgentEffectiveConfig,
    SetAgentRemoteConfigStatus, SetAgentHealth, TouchAgents, CreatePipeline,
    DeletePipeline, CreatePipelineVersion, ActivatePipelineVersion, CreateAPIToken,
    RevokeAPIToken, UpdateBillingSettings, CreateWebhook, UpdateWebhook,
    DeleteWebhook, WriteAuditEntries, CreateAuthProvider, UpdateAuthProvider,
    DeleteAuthProvider, GetCustomer, insertAPIKey, insert_user, update_user,
    ensureEnabledAdminRemains, deleteSessionsByUser, detach_api_keys,
    detach_pipeline_versions, detach_bootstrap_tokens, delete_user_row,
    insertAgentEvent, update_agent, must_affect, insertPipelineVersion,
    select_user, select_pipeline, select_version_id, select_version, update_where; grows_tac.
Qed.

(** Along a history: sorted identifiers, none above the sequence. *)
Definition log_ok (w : world) : Prop :=
  StronglySorted Z.lt (l_ID <$> audit_log (w_db w)) ∧
  Forall (λ r, l_ID r ≤ w_audit_seq w)%Z (audit_log (w_db w)).

Lemma log_ok_grows w w' : log_ok w → log_grows w w' → log_ok w'.
Proof.
  intros [O F] (Hs & new & E & On & Fn). rewrite Forall_forall in F, Fn.
  split; rewrite E.
  - rewrite fmap_app. apply StronglySorted_app_2; [|done..].
    intros x y (r & -> & Hr)%list_elem_of_fmap (r' & -> & Hr')%list_elem_of_fmap.
    destruct (Fn _ Hr'). specialize (F _ Hr). lia.
  - apply Forall_forall. intros r [Hr|Hr]%elem_of_app.
    + specialize (F _ Hr). lia.
    + by destruct (Fn _ Hr).
Qed.

Lemma rtc_grows w w' : rtc step w w' → log_grows w w'.
Proof.
  induction 1 as [w|w w1 w2 (ENV & c & ->) _ IH]; [reflexivity|].
  etrans; [apply grows_call|done].
Qed.

Lemma history_log_ok w : rtc step world_init w → log_ok w.
Proof.
  intros H%rtc_grows. eapply log_ok_grows; [|exact H]. split; constructor.
Qed.

(** ** Pages *)

(** The matching entries below a cursor, newest first. *)
Definition below (c : option Z) (r : AuditRec) : bool :=
  match c with Some i => (l_ID r <? i)%Z | None => true end.

Definition matching (p : ListAuditLogParams) (c : option Z) (log : list AuditRec) : list AuditRec :=
  reverse (where_ (λ r, audit_where (audit_filter p) r && below c r) log).

Definition with_cursor (p : ListAuditLogParams) (c : option Z) : ListAuditLogParams :=
  p <| lp_BeforeId := c |>.

Lemma filter_sorted (P : AuditRec → bool) log :
  StronglySorted Z.lt (l_ID <$> log) → StronglySorted Z.lt (l_ID <$> where_ P log).
Proof.
  induction log as [|r log IH]; intros Hs; [constructor|]. cbn in Hs. inversion Hs as [|? ? Hs' Hx]; subst.
  unfold where_. destruct (decide (P r = true)).
  - rewrite filter_cons_True by done. cbn. constructor; [by apply IH|].
    rewrite Forall_forall in Hx |- *. intros x (r' & -> & Hr')%list_elem_of_fmap. apply Hx.
    apply list_elem_of_fmap. exists r'. split; [done|]. by apply list_elem_of_filter in Hr' as [_ ?].
  - rewrite filter_cons_False by done. by apply IH.
Qed.

Definition id_desc (x y : AuditRec) : Prop := Is_true (l_ID y <=? l_ID x)%Z.

#[export] Instance id_desc_trans : Transitive id_desc.
Proof. unfold id_desc. intros x y z. rewrite !Is_true_true, !Z.leb_le. lia. Qed.
#[export] Instance id_desc_total : Total id_desc.
Proof. unfold id_desc. intros x y. rewrite !Is_true_true, !Z.leb_le. lia. Qed.

Lemma sorted_inj log x y :
  StronglySorted Z.lt (l_ID <$> log) → x ∈ log → y ∈ log → l_ID x = l_ID y → x = y.
Proof.
  induction log as [|r log IH]; intros Hs; [by intros ?%elem_of_nil|].
  cbn in Hs. inversion Hs as [|? ? Hs' Hx]; subst. rewrite Forall_forall in Hx.
  assert (Hlt : ∀ z, z ∈ log → (l_ID r < l_ID z)%Z)
    by (intros z Hz; apply Hx; apply list_elem_of_fmap; eauto).
  intros [->|Hx1]%elem_of_cons [->|Hy1]%elem_of_cons E; [done|..|by apply IH].
  - specialize (Hlt y Hy1). lia.
  - specialize (Hlt x Hx1). lia.
Qed.

Lemma sorted_reverse log :
  StronglySorted Z.lt (l_ID <$> log) → StronglySorted id_desc (reverse log).
Proof.
  induction log as [|r log IH]; intros Hs; [constructor|].
  cbn in Hs. inversion Hs as [|? ? Hs' Hx]; subst. rewrite Forall_forall in Hx.
  rewrite reverse_cons. specialize (IH Hs').
  assert (Hall : ∀ z, z ∈ reverse log → id_desc z r).
  { intros z Hz. rewrite elem_of_reverse in Hz. unfold id_desc. rewrite Is_true_true, Z.leb_le.
    assert (l_ID r < l_ID z)%Z; [|lia]. apply Hx, list_elem_of_fmap. by exists z. }
  induction IH as [|x l Hs1 IH1 Hx1]; simpl; [by repeat constructor|]. constructor.
  - apply IH1. intros z Hz. apply Hall. by right.
  - apply Forall_app. split; [done|]. repeat constructor. apply Hall. left.
Qed.

(** Sorting what is already increasing reverses it. *)
Lemma order_by_desc log :
  StronglySorted Z.lt (l_ID <$> log) →
  order_by (λ x y, Z.leb (l_ID y) (l_ID x)) log = reverse log.
Proof.
  intros Hs. apply (StronglySorted_unique_strong id_desc).
  - intros x y Hx Hy. unfold id_desc. rewrite !Is_true_true, !Z.leb_le. intros.
    apply (sorted_inj log); [done| | |lia].
    + by rewrite <- (merge_sort_Permutation id_desc log).
    + by apply elem_of_reverse.
  - apply StronglySorted_merge_sort; apply _.
  - by apply sorted_reverse.
  - etrans; [apply (merge_sort_Permutation id_desc)|]. by rewrite reverse_Permutation.
Qed.

Lemma page_matching p c w :
  log_ok w →
  audit_page (audit_filter (with_cursor p c)) (audit_log (w_db w))
  = take (Z.to_nat (clamp_limit (lp_Limit p))) (matching p c (audit_log (w_db w))).
Proof.
  intros [Hs _]. unfold audit_page, matching. simpl. f_equal. apply order_by_desc.
  by apply filter_sorted.
Qed.

(** The rest of a page: what is below its last entry. *)
Lemma below_drop (l : list AuditRec) n r :
  StronglySorted Z.lt (l_ID <$> reverse l) → last (take n l) = Some r → n = length (take n l) →
  where_ (below (Some (l_ID r))) l = drop n l.
Proof.
  intros Hs Hlast Hn. apply last_Some in Hlast as [l1 Hl1].
  rewrite <- (take_drop n l) in Hs |- * at 1. rewrite Hl1 in Hs |- *.
  rewrite reverse_app, reverse_snoc, fmap_app in Hs. unfold where_. rewrite filter_app.
  apply StronglySorted_app in Hs as (Hlt0 & _ & Hs).
  assert (Hlt : ∀ x, x ∈ drop n l → (l_ID x < l_ID r)%Z).
  { intros x Hx. apply Hlt0.
    - apply list_elem_of_fmap. exists x. split; [done|]. by apply elem_of_reverse.
    - cbn. left. }
  cbn in Hs. inversion Hs as [|? ? Hs' Hx]; subst.
  rewrite Forall_forall in Hx. rewrite (filter_all _ (drop n l)).
  2: { intros x Hd. simpl. apply Z.ltb_lt. by apply Hlt. }
  assert (filter (λ x, below (Some (l_ID r)) x = true) (l1 ++ [r]) = []) as ->; [|done].
  apply filter_none. intros x Hin. simpl. rewrite Z.ltb_lt.
  apply elem_of_app in Hin as [Hin| ->%list_elem_of_singleton]; [|lia].
  assert (l_ID r < l_ID x)%Z; [|lia]. apply Hx, list_elem_of_fmap. exists x.
  split; [done|]. by apply elem_of_reverse.
Qed.

(** Moving the cursor down inside the log it came from. *)
Lemma matching_below p c r log :
  below c r = true →
  matching p (Some (l_ID r)) log = where_ (below (Some (l_ID r))) (matching p c log).
Proof.
  intros Hc. unfold matching, where_. rewrite filter_reverse, list_filter_filter.
  f_equal. apply list_filter_iff. intros x. simpl.
  rewrite !andb_true_iff, Z.ltb_lt. destruct c as [i|]; simpl in *; [|tauto].
  apply Z.ltb_lt in Hc. rewrite Z.ltb_lt. split; [|tauto]. intros. split_and!; try tauto. lia.
Qed.

(** What others write meanwhile is above every cursor. *)
Lemma matching_grows p i w w' :
  log_grows w w' → (i ≤ w_audit_seq w)%Z →
  matching p (Some i) (audit_log (w_db w')) = matching p (Some i) (audit_log (w_db w)).
Proof.
  intros (_ & new & -> & _ & Hf) Hi. unfold matching, where_. rewrite filter_app.
  rewrite (filter_none _ new), app_nil_r; [done|]. intros r Hr. rewrite Forall_forall in Hf.
  destruct (Hf r Hr). simpl. rewrite andb_true_iff, Z.ltb_lt. lia.
Qed.

(** ** Reading to the end

    A client that starts at cursor [c] and follows [NextBeforeId]; between two
    requests any store calls run. *)
Inductive pages (p : ListAuditLogParams) : option Z → world → list AuditEntry → Prop :=
  | pages_last ENV c w pg w' :
      @ServeAuditLog ENV (with_cursor p c) w = (inl pg, w') → NextBeforeId pg = None →
      pages p c w (Entries pg)
  | pages_more ENV c w pg w' i w1 es :
      @ServeAuditLog ENV (with_cursor p c) w = (inl pg, w') → NextBeforeId pg = Some i →
      rtc step w' w1 → pages p (Some i) w1 es →
      pages p c w (Entries pg ++ es).

(** An entry of the response shows a row of the log. *)
Definition shows (e : AuditEntry) (r : AuditRec) : Prop :=
  ae_Id e = l_ID r ∧ ae_CreatedAt e = l_CreatedAt r ∧ ae_ActorType e = e_ActorType (l_Entry r) ∧
  ae_ActorUserId e = e_ActorUserID (l_Entry r) ∧ ae_Action e = e_Action (l_Entry r) ∧
  ae_EntityType e = e_EntityType (l_Entry r) ∧ ae_EntityId e = e_EntityID (l_Entry r) ∧
  ae_CustomerId e = e_CustomerID (l_Entry r) ∧ ae_Payload e = payload_map (e_Payload (l_Entry r)).

Lemma limit_pos p : (1 ≤ clamp_limit p ≤ 200)%Z.
Proof. unfold clamp_limit. repeat case_match; rewrite ?Z.ltb_lt, ?Z.ltb_ge in *; lia. Qed.

(** One request: a page of what matches, and whether it was full. *)
Lemma serve_inv (ENV : Env) p c w pg w' :
  log_ok w → ServeAuditLog (with_cursor p c) w = (inl pg, w') →
  let n := Z.to_nat (clamp_limit (lp_Limit p)) in
  let m := matching p c (audit_log (w_db w)) in
  Forall2 shows (Entries pg) (take n m) ∧ w' = w <| w_tick ::= S |> ∧
  NextBeforeId pg = if bool_decide (length (take n m) = n) then l_ID <$> last (take n m) else None.
Proof.
  intros Hok H. unfold ServeAuditLog in H. apply bind_inl in H as (rs & w1 & H & Hr).
  apply ret_inl in Hr as [<- <-]. unfold ListAuditLog in H.
  apply query_inl in H as [-> ->]. rewrite page_matching by done. simpl.
  set (n := Z.to_nat (clamp_limit (lp_Limit p))). set (m := matching p c (audit_log (w_db w))).
  split_and!; [|done|].
  - induction (take n m) as [|r l IH]; simpl; constructor; [|done]. repeat split.
  - rewrite length_fmap. pose proof (limit_pos (lp_Limit p)).
    case_bool_decide as E; case_bool_decide as E'; [|exfalso; subst n; lia..|done].
    rewrite fmap_last, <- option_fmap_compose. done.
Qed.

Lemma matching_elem p c r log : r ∈ matching p c log → below c r = true ∧ r ∈ log.
Proof.
  unfold matching, where_. rewrite elem_of_reverse, list_elem_of_filter, andb_true_iff. tauto.
Qed.

(** The cursor of a full page, and what is left below it. *)
Lemma next_page p c w n r :
  log_ok w → let m := matching p c (audit_log (w_db w)) in
  length (take n m) = n → last (take n m) = Some r →
  (l_ID r ≤ w_audit_seq w)%Z ∧ matching p (Some (l_ID r)) (audit_log (w_db w)) = drop n m.
Proof.
  intros [Hs Hf] m Hn Hl.
  assert (Hr : r ∈ m) by (eapply subseteq_take, last_Some_elem_of, Hl).
  apply matching_elem in Hr as [Hb Hin]. rewrite Forall_forall in Hf. split; [by apply Hf|].
  rewrite (matching_below p c) by done. apply below_drop; [|done..].
  unfold m, matching. rewrite reverse_involutive. by apply filter_sorted.
Qed.

Lemma pages_complete p c w es :
  pages p c w es → log_ok w → Forall2 shows es (matching p c (audit_log (w_db w))).
Proof.
  induction 1 as [ENV c w pg w' H Hn|ENV c w pg w' i w1 es H Hn Hstep _ IH]; intros Hok.
  - destruct (serve_inv ENV p c w pg w' Hok H) as (He & _ & Hnext). simpl in *.
    case_bool_decide as E.
    + rewrite Hn in Hnext. destruct (last (take _ _)) eqn:El; [done|].
      apply last_None in El. rewrite El in E. pose proof (limit_pos (lp_Limit p)).
      simpl in E. lia.
    + rewrite take_ge in He; [done|]. rewrite length_take in E. lia.
  - destruct (serve_inv ENV p c w pg w' Hok H) as (He & -> & Hnext). simpl in *.
    rewrite Hn in Hnext. case_bool_decide as E; [|done].
    destruct (last (take _ _)) as [r|] eqn:El; [|done]. injection Hnext as ->.
    destruct (next_page p c w _ r Hok E El) as [Hseq Hdrop].
    pose proof (rtc_grows _ _ Hstep) as Hg.
    assert (Hgw : log_grows w w1) by (destruct Hg; split; done).
    rewrite <- (take_drop (Z.to_nat (clamp_limit (lp_Limit p))) (matching p c _)).
    apply Forall2_app; [done|]. rewrite <- Hdrop, <- (matching_grows p (l_ID r) w w1) by done.
    apply IH. by eapply log_ok_grows.
Qed.

(** With no failures the walk ends. *)
Lemma serve_quiet p w :
  w_aborted w = false → ∃ pg, @ServeAuditLog quiet_env p w = (inl pg, w <| w_tick ::= S |>).
Proof.
  intros Ha. unfold ServeAuditLog, mbind, M_bind, ListAuditLog, query, stmt. simpl. rewrite Ha.
  destruct w. eexists. reflexivity.
Qed.

Lemma pages_exist_from n p c w :
  w_aborted w = false → log_ok w → length (matching p c (audit_log (w_db w))) ≤ n →
  ∃ es, pages p c w es.
Proof.
  revert c w; induction n as [n IH] using lt_wf_ind; intros c w Ha Hok Hn.
  destruct (serve_quiet (with_cursor p c) w Ha) as [pg H].
  destruct (serve_inv quiet_env p c w pg _ Hok H) as (_ & _ & Hnext). simpl in Hnext.
  destruct (NextBeforeId pg) as [i|] eqn:Ei; [|eexists; by eapply pages_last].
  case_bool_decide as E; [|done]. destruct (last (take _ _)) as [r|] eqn:El; [|done].
  injection Hnext as ->. destruct (next_page p c w _ r Hok E El) as [_ Hdrop].
  pose proof (limit_pos (lp_Limit p)).
  pose proof (f_equal length (take_drop (Z.to_nat (clamp_limit (lp_Limit p)))
    (matching p c (audit_log (w_db w))))) as Hlen. rewrite length_app, E in Hlen.
  destruct (IH (length (drop (Z.to_nat (clamp_limit (lp_Limit p)))
    (matching p c (audit_log (w_db w))))) ltac:(lia) (Some (l_ID r)) (w <| w_tick ::= S |>))
    as [es Hes]; [done|done|simpl; by rewrite Hdrop|].
  eexists. eapply pages_more; [exact H|exact Ei|apply rtc_refl|exact Hes].
Qed.

(** ** Theorems *)

(** C13: following [nextBeforeId] from the start reads the log: whatever store
    calls run between two requests, failing ones included, the pages together
    show exactly the entries that matched the filter when the walk began,
    newest first, each once, none skipped. *)
Theorem audit_pages_complete (p : ListAuditLogParams) (w : world) (es : list AuditEntry) :
  rtc step world_init w → pages p None w es →
  Forall2 shows es (reverse (where_ (audit_where (audit_filter p)) (audit_log (w_db w)))).
Proof.
  intros Hw%history_log_ok Hp. pose proof (pages_complete p None w es Hp Hw) as H.
  unfold matching, where_ in *. erewrite list_filter_iff; [exact H|].
  intros r. simpl. by rewrite andb_true_r.
Qed.

(** The walk ends: while the database answers, following [nextBeforeId]
    reaches a page without one. *)
Theorem audit_pages_end (p : ListAuditLogParams) (w : world) :
  rtc step world_init w → w_aborted w = false → ∃ es, pages p None w es.
Proof. intros Hw%history_log_ok Ha. by eapply pages_exist_from. Qed.

Definition log_entry (action : string) : Entry := {|
  e_ActorUserID := None; e_ActorType := ActorSystem; e_Action := action;
  e_EntityType := "customer"; e_EntityID := "1"; e_CustomerID := None; e_Payload := None |}.

Definition log_three : world :=
  (@run_call quiet_env
     (CallWriteAuditEntries [log_entry "a"; log_entry "b"; log_entry "a"]) world_init).2.

Definition two_per_page (action : option string) : ListAuditLogParams := {|
  lp_Action := action; lp_EntityType := None; lp_CustomerId := None; lp_ActorUserId := None;
  lp_From := None; lp_To := None; lp_Limit := Some 2%Z; lp_BeforeId := None |}.

(** A write lands between the first page and the second. *)
Definition log_four : world :=
  (@run_call quiet_env (CallWriteAuditEntries [log_entry "c"])
     (@ServeAuditLog quiet_env (with_cursor (two_per_page None) None) log_three).2).2.

Definition page_entries (c : option Z) (w : world) : list AuditEntry :=
  match (@ServeAuditLog quiet_env (with_cursor (two_per_page None) c) w).1 with
  | inl pg => Entries pg
  | inr _ => []
  end.

Lemma audit_pages_complete_witness :
  let es := page_entries None log_three ++ page_entries (Some 2%Z) log_four in
  ae_Id <$> es = [3; 2; 1]%Z ∧
  Forall2 shows es (reverse (where_ (audit_where (audit_filter (two_per_page None)))
                                    (audit_log (w_db log_three)))).
Proof.
  intros es. split; [vm_compute; reflexivity|].
  apply (audit_pages_complete (two_per_page None) log_three es).
  - apply rtc_once. exists quiet_env, (CallWriteAuditEntries
      [log_entry "a"; log_entry "b"; log_entry "a"]). reflexivity.
  - eapply (pages_more _ quiet_env).
    + vm_compute. reflexivity.
    + vm_compute. reflexivity.
    + apply rtc_once. exists quiet_env, (CallWriteAuditEntries [log_entry "c"]). reflexivity.
    + eapply (pages_last _ quiet_env); vm_compute; reflexivity.
Defined.

Lemma audit_pages_end_witness : ∃ es, pages (two_per_page (Some "a")) None log_three es.
Proof.
  apply audit_pages_end; [|vm_compute; reflexivity].
  apply rtc_once. exists quiet_env, (CallWriteAuditEntries
    [log_entry "a"; log_entry "b"; log_entry "a"]). reflexivity.
Defined.
