(* ===== verification/OpAMP.v ===== *)
(** * OpAMP: messages, connections and the registry (internal/opamp/registry.go)

    The OpAMP messages as far as the control plane reads and writes them, the
    state it keeps per agent and per connection, and the effects a handler has
    outside both: frames sent, connections closed, fleet events.

    Registry operations hold the mutex for their whole body, so each is one
    step.  A connection is an identifier; the protocol's flag values belong to
    the opamp-go library and are the class [OpampProto]. *)
From Stdlib Require Import Ascii.
From S2P Require Import Prelude GoStrings Store World.

Class OpampProto := {
  AcceptsRemoteConfig : Z;
  AcceptsOpAMPConnectionSettings : Z;
  AcceptsStatus : Z;
  OffersRemoteConfig : Z;
  AcceptsEffectiveConfig : Z;
  OffersConnectionSettings : Z;
  ReportFullState : Z;
}.

(** The values of the OpAMP specification. *)
Definition opamp_spec : OpampProto := {|
  AcceptsRemoteConfig := 2; AcceptsOpAMPConnectionSettings := 256; AcceptsStatus := 1;
  OffersRemoteConfig := 2; AcceptsEffectiveConfig := 4; OffersConnectionSettings := 32;
  ReportFullState := 1 |}.

(** ** Messages *)

(** A double is the JSON literal encoding/json prints for it, [None] for NaN
    and the infinities, which it refuses. *)
Inductive AnyValue :=
  | AStr (s : string)
  | ABool (b : bool)
  | AInt (z : Z)
  | ADouble (lit : option string)
  | ABytes (s : string)
  | AArray (l : list AnyValue)
  | AKvlist (l : list (string * AnyValue))
  | ANone.

Record AgentDescription := {
  ad_identifying : list (string * AnyValue);
  ad_nonIdentifying : list (string * AnyValue);
}.

Inductive RemoteConfigStatuses := StUNSET | StAPPLIED | StAPPLYING | StFAILED.

Record RemoteConfigStatus := {
  rcs_Status : RemoteConfigStatuses;
  rcs_LastRemoteConfigHash : string;
  rcs_ErrorMessage : string;
}.

Inductive ComponentHealth := Health {
  ch_Healthy : bool;
  ch_Status : string;
  ch_LastError : string;
  ch_StartTimeUnixNano : Z;
  ch_StatusTimeUnixNano : Z;
  ch_ComponentHealthMap : list (string * ComponentHealth);
}.

(** [EffectiveConfig] is its config map: file names and bodies. *)
Record AgentToServer := {
  ms_InstanceUid : string;
  ms_Capabilities : Z;
  ms_AgentDescription : option AgentDescription;
  ms_RemoteConfigStatus : option RemoteConfigStatus;
  ms_EffectiveConfig : option (list (string * string));
  ms_Health : option ComponentHealth;
}.

Record AgentRemoteConfig := {
  rc_ConfigMap : list (string * (string * string)); (** name, body, content type *)
  rc_ConfigHash : string;
}.

Record ConnectionSettingsOffers := {
  cs_Hash : string;
  cs_Headers : list (string * string);
  cs_DestinationEndpoint : string;
}.

Record ServerToAgent := {
  sa_InstanceUid : string;
  sa_Capabilities : Z;
  sa_Flags : Z;
  sa_ErrorResponse : option string;
  sa_RemoteConfig : option AgentRemoteConfig;
  sa_ConnectionSettings : option ConnectionSettingsOffers;
}.
#[export] Instance eta_ServerToAgent : Eta ServerToAgent :=
  λ r, Build_ServerToAgent (sa_InstanceUid r) (sa_Capabilities r) (sa_Flags r)
    (sa_ErrorResponse r) (sa_RemoteConfig r) (sa_ConnectionSettings r).

(** ** State *)

Abbreviation connection := nat.

Record ConnAuth := {
  ca_TokenID : uuid;
  ca_CustomerID : uuid;
  ca_AgentID : option uuid;
  ca_ViaAgentToken : bool;
}.

Record agentConn := {
  ac_conn : option connection;
  ac_instanceUID : string;
  ac_agentID : uuid;
  ac_customerID : uuid;
  ac_capabilities : Z;
  ac_lastAckedHash : option string;
  ac_remoteConfigStatus : string;
  ac_healthy : option bool;
  ac_lastSeen : time;
  ac_dirtySeen : bool;
  ac_tokenOffered : bool;
}.
#[export] Instance eta_agentConn : Eta agentConn :=
  λ r, Build_agentConn (ac_conn r) (ac_instanceUID r) (ac_agentID r) (ac_customerID r)
    (ac_capabilities r) (ac_lastAckedHash r) (ac_remoteConfigStatus r) (ac_healthy r)
    (ac_lastSeen r) (ac_dirtySeen r) (ac_tokenOffered r).

Record registry := {
  byUID : gmap string agentConn;
  byConn : gmap connection string;
}.
#[export] Instance eta_registry : Eta registry := λ r, Build_registry (byUID r) (byConn r).

Definition newRegistry : registry := {| byUID := ∅; byConn := ∅ |}.

(** What leaves the process. *)
Inductive output :=
  | Sent (c : connection) (m : ServerToAgent)
  | SendFailed (c : connection) (m : ServerToAgent)
  | Disconnected (c : connection)
  | FleetEvent (eventType : string) (agentID customerID : uuid) (detail : option json).

(** ** Registry operations *)

Definition reg_get (uid : string) (r : registry) : option agentConn := byUID r !! uid.

Definition reg_put (st : agentConn) (r : registry) : registry :=
  let key := ac_instanceUID st in
  let r := match byUID r !! key with
           | Some prev =>
             if bool_decide (ac_conn prev = ac_conn st) then r
             else match ac_conn prev with
                  | Some c => r <| byConn ::= delete c |>
                  | None => r
                  end
           | None => r
           end in
  let r := r <| byUID ::= <[key := st]> |> in
  match ac_conn st with
  | Some c => r <| byConn ::= <[c := key]> |>
  | None => r
  end.

Definition reg_touch (uid : string) (at_ : time) (r : registry) : registry :=
  r <| byUID ::= alter (λ st,
         let st := if (ac_lastSeen st <? at_)%Z then st <| ac_lastSeen := at_ |> else st in
         st <| ac_dirtySeen := true |>) uid |>.

Definition reg_update (uid : string) (f : agentConn → agentConn) (r : registry) : registry :=
  r <| byUID ::= alter f uid |>.

Definition removeConn (c : connection) (r : registry) : option agentConn * registry :=
  match byConn r !! c with
  | None => (None, r)
  | Some key =>
    let r := r <| byConn ::= delete c |> in
    match byUID r !! key with
    | Some st =>
      if bool_decide (ac_conn st = Some c) then (Some st, r <| byUID ::= delete key |>)
      else (None, r)
    | None => (None, r)
    end
  end.

Definition isConnected (uid : string) (r : registry) : bool := is_some (byUID r !! uid).

Definition connsForCustomer (customerID : uuid) (r : registry) : list agentConn :=
  filter (λ st, ac_customerID st = customerID ∧ ac_agentID st ≠ 0%N) (rows (byUID r)).

(** The loop over the map: with two entries of one agent, the one visited last
    wins. *)
Definition drainDirtySeen (r : registry) : gmap uuid time * registry :=
  let dirty st := ac_dirtySeen st && negb (bool_decide (ac_agentID st = 0%N)) in
  (foldl (λ out st, if dirty st then <[ac_agentID st := ac_lastSeen st]> out else out)
     ∅ (rows (byUID r)),
   r <| byUID ::= fmap (λ st, if dirty st then st <| ac_dirtySeen := false |> else st) |>).

(** ** Payloads *)

(** A Go map from a list of assignments, the last one winning, as a JSON
    object. *)
Definition json_map (l : list (string * json)) : json :=
  JObj (map_to_list (foldl (λ m kv, <[kv.1 := kv.2]> m) (∅ : gmap string json) l)).

(** [attrsToMap] and [anyValueToGo]; [None] when json.Marshal refuses. *)
Fixpoint anyValueToGo (v : AnyValue) : option json :=
  match v with
  | AStr s => Some (JStr s)
  | ABool b => Some (JBool b)
  | AInt z => Some (JNum (Itoa z))
  | ADouble lit => JNum <$> lit
  | ABytes s => Some (JStr (hex_encode s))
  | AArray l => JArr <$> mapM anyValueToGo l
  | AKvlist l =>
    json_map <$> (fix attrs (l : list (string * AnyValue)) : option (list (string * json)) :=
      match l with
      | [] => Some []
      | (k, v) :: l' => j ← anyValueToGo v; js ← attrs l'; Some ((k, j) :: js)
      end) l
  | ANone => Some JNull
  end.

Definition attrsToMap (kvs : list (string * AnyValue)) : option json :=
  anyValueToGo (AKvlist kvs).

Definition descriptionJSON (d : AgentDescription) : option json :=
  i ← attrsToMap (ad_identifying d);
  n ← attrsToMap (ad_nonIdentifying d);
  Some (json_map [("identifying", i); ("nonIdentifying", n)]).

Definition GetStringValue (v : AnyValue) : string :=
  match v with AStr s => s | _ => "" end.

Definition nonempty (s : string) : option string := if bool_decide (s = "") then None else Some s.

Definition agentIdentity (d : AgentDescription) : option string * option string :=
  let '(hostName, serviceName, version) :=
    foldl (λ '(h, s, v) kv,
      let val := GetStringValue kv.2 in
      if bool_decide (kv.1 = "host.name") then (val, s, v)
      else if bool_decide (kv.1 = "service.name") then (h, val, v)
      else if bool_decide (kv.1 = "service.version")
      then (h, s, match nonempty val with Some x => Some x | None => v end)
      else (h, s, v)) ("", "", None) (ad_identifying d) in
  let hostName :=
    foldl (λ h kv, if bool_decide (kv.1 = "host.name") && bool_decide (h = "")
                   then GetStringValue kv.2 else h) hostName (ad_nonIdentifying d) in
  (match nonempty hostName with Some h => Some h | None => nonempty serviceName end, version).

Definition mapRemoteConfigStatus (s : RemoteConfigStatuses) : string :=
  match s with
  | StAPPLYING => RemoteConfigApplying
  | StAPPLIED => RemoteConfigApplied
  | StFAILED => RemoteConfigFailed
  | StUNSET => RemoteConfigUnset
  end.

(** The config map is a map: its first entry named "" stands for the lookup. *)
Definition effectiveConfigBody (ec : list (string * string)) : option string :=
  match list_find (λ f, f.1 = "") ec with
  | Some (_, f) => Some f.2
  | None => match ec with [f] => Some f.2 | _ => None end
  end.

Definition remoteConfig (body hash : string) : AgentRemoteConfig := {|
  rc_ConfigMap := [("", (body, "text/yaml"))]; rc_ConfigHash := hash |}.

(** ** RFC 3339 *)

(** Days since 1970-01-01 to year, month and day. *)
Definition civil (days : Z) : Z * Z * Z :=
  let z := (days + 719468)%Z in
  let era := (z / 146097)%Z in
  let doe := (z - era * 146097)%Z in
  let yoe := ((doe - doe / 1460 + doe / 36524 - doe / 146096) / 365)%Z in
  let doy := (doe - (365 * yoe + yoe / 4 - yoe / 100))%Z in
  let mp := ((5 * doy + 2) / 153)%Z in
  let d := (doy - (153 * mp + 2) / 5 + 1)%Z in
  let m := if (mp <? 10)%Z then (mp + 3)%Z else (mp - 9)%Z in
  ((yoe + era * 400 + if (m <=? 2)%Z then 1 else 0)%Z, m, d).

Definition zero_pad (w : nat) (z : Z) : string :=
  let s := Itoa z in
  String.string_of_list_ascii (repeat "0"%char (w - String.length s)) +:+ s.

(** [.999999999] drops trailing zeros, and the point with them. *)
Definition fraction (nanos : Z) : string :=
  let l := rev (drop_while (λ a, bool_decide (a = "0"%char)) (rev (chars (zero_pad 9 nanos)))) in
  match l with [] => "" | _ => "." +:+ String.string_of_list_ascii l end.

(** [time.Unix(0, ns).UTC().Format(time.RFC3339Nano)]. *)
Definition rfc3339nano (ns : Z) : string :=
  let secs := (ns / second)%Z in
  let '(y, m, d) := civil (secs / 86400) in
  let tod := (secs mod 86400)%Z in
  zero_pad 4 y +:+ "-" +:+ zero_pad 2 m +:+ "-" +:+ zero_pad 2 d +:+ "T"
  +:+ zero_pad 2 (tod / 3600) +:+ ":" +:+ zero_pad 2 (tod / 60 mod 60) +:+ ":"
  +:+ zero_pad 2 (tod mod 60) +:+ fraction (ns mod second) +:+ "Z".

Fixpoint componentHealthToMap (h : ComponentHealth) : json :=
  let str k s := match nonempty s with Some s => [(k, JStr s)] | None => [] end in
  let ts k t := if bool_decide (t = 0%Z) then [] else [(k, JStr (rfc3339nano (wrap64 t)))] in
  json_map
    ([("healthy", JBool (ch_Healthy h))]
     ++ str "status" (ch_Status h)
     ++ str "lastError" (ch_LastError h)
     ++ ts "startTime" (ch_StartTimeUnixNano h)
     ++ ts "statusTime" (ch_StatusTimeUnixNano h)
     ++ match ch_ComponentHealthMap h with
        | [] => []
        | m => [("components", json_map (map (λ kv, (kv.1, componentHealthToMap kv.2)) m))]
        end).

Example rfc3339nano_ex : rfc3339nano 1700000000123000000 = "2023-11-14T22:13:20.123Z".
Proof. reflexivity. Qed.
