(* ===== verification/OpampHandler.v ===== *)
(** * The OpAMP message handler (internal/opamp/handler.go)

    One definition per method of [Handler].  A message, a closed connection, a
    configuration push and a flush are each one step: messages of different
    connections interleave between steps, not inside one.  Within a step the
    agent state a method works on is the object [put] stored, so a write to it
    is a write to the registry. *)
From S2P Require Import Prelude GoStrings Sha256 Store World PgCore PgFleet Tokens OpAMP.

(** [pipelines.Service] as the handler uses it. *)
Class ConfigRenderer := {
  RenderEdgeCurrent : uuid → Op string;
  RenderEdgeCurrent_readonly c : readonly (RenderEdgeCurrent c);
}.

(** Whether [conn.Send] succeeds, by the number of effects so far. *)
Class Transport := { send_ok : nat → connection → bool }.

Record HandlerCfg := {
  publicEndpoint : string;
  has_sink : bool;
}.

Record hstate := {
  hs_w : world;
  hs_reg : registry;
  hs_out : list output;
}.
#[export] Instance eta_hstate : Eta hstate := λ r, Build_hstate (hs_w r) (hs_reg r) (hs_out r).

Abbreviation H := (M hstate error).

(** A store call, its error looked at by the caller. *)
Definition call_st {A} (m : Op A) : H (A + error) := λ s,
  let '(r, w) := m (hs_w s) in (inl r, s <| hs_w := w |>).

(** A store call whose error is only logged. *)
Definition call_log {A} (m : Op A) : H unit := call_st m;; mret tt.

(** [time.Now()] and [uuid.New()], which do not fail. *)
Definition lift_op {A} (m : Op A) : H A := λ s,
  let '(r, w) := m (hs_w s) in (r, s <| hs_w := w |>).
Definition now_ `{Env} : H time := lift_op time_Now.
Definition new_uuid `{Env} : H uuid := lift_op uuid_New.

Definition emit (o : output) : H unit := mmodify (λ s, s <| hs_out ::= λ l, l ++ [o] |>).

Definition disconnect (conn : option connection) : H unit :=
  match conn with Some c => emit (Disconnected c) | None => mret tt end.

Definition modify_reg (f : registry → registry) : H unit :=
  mmodify (λ s, s <| hs_reg ::= f |>).

(** A write to the live agent state. *)
Definition set_st (f : agentConn → agentConn) (st : agentConn) : H agentConn :=
  modify_reg (reg_update (ac_instanceUID st) f);; mret (f st).

Section Handler.
Context {ENV : Env} {PROTO : OpampProto} {RENDER : ConfigRenderer} {TRANSPORT : Transport}.
Context (cfg : HandlerCfg).

Definition serverCapabilities : Z :=
  Z.lor (Z.lor AcceptsStatus OffersRemoteConfig) AcceptsEffectiveConfig.

Definition has_cap (caps flag : Z) : bool := negb (Z.land caps flag =? 0)%Z.

Definition emitEvent (eventType : string) (agentID customerID : uuid) (detail : option json)
    : H unit :=
  if has_sink cfg then emit (FleetEvent eventType agentID customerID detail) else mret tt.

(** ** Authentication of a connection *)

Definition TokenRefusal_error (r : TokenRefusal) : error :=
  match r with
  | TokenExpired _ => ErrNew "token expired"
  | TokenExhausted _ _ => ErrNew "token max uses reached"
  | TokenCustomer _ => ErrNew "customer is not active"
  end.

Definition authenticateAgentToken (prefix token : string) : Op ConnAuth :=
  agents ← wrapErr "agent token lookup failed" (AgentsByTokenPrefix prefix);
  match list_find (λ a, aa_TokenHash a = Some (HashAPIKey token)) agents with
  | Some (_, a) =>
    if bool_decide (aa_CustomerStatus a = CustomerActive)
    then mret {| ca_TokenID := 0%N; ca_CustomerID := aa_CustomerID a;
                 ca_AgentID := Some (aa_AgentID a); ca_ViaAgentToken := true |}
    else mthrow (ErrNew ("customer is " +:+ aa_CustomerStatus a))
  | None => mthrow (ErrNew "unknown agent token")
  end.

Definition authenticateBootstrapToken (prefix token : string) : Op ConnAuth :=
  toks ← wrapErr "token lookup failed" (ActiveBootstrapTokensByPrefix prefix);
  match list_find (λ t, et_TokenHash t = HashAPIKey token) toks with
  | Some (_, t) =>
    now ← time_Now;
    match TokenUsable t now with
    | Some r => mthrow (TokenRefusal_error r)
    | None => mret {| ca_TokenID := et_TokenID t; ca_CustomerID := et_CustomerID t;
                      ca_AgentID := None; ca_ViaAgentToken := false |}
    end
  | None => mthrow (ErrNew "unknown bootstrap token")
  end.

(** The value of the Authorization header. *)
Definition Authenticate (header : string) : Op ConnAuth :=
  let token := TrimPrefix header "Bearer " in
  if negb (HasPrefix "Bearer " header) || bool_decide (token = "")
  then mthrow (ErrNew "missing bearer token")
  else match ParseAgentTokenPrefix token with
       | Some prefix => authenticateAgentToken prefix token
       | None =>
         match ParseBootstrapTokenPrefix token with
         | Some prefix => authenticateBootstrapToken prefix token
         | None => mthrow (ErrNew "malformed token")
         end
       end.

(** ** Handling a message *)

Inductive resolved := Resolved (st : agentConn) | AskFullState | Reject.

(** The recursive call after a lost race carries no description, so it does
    not recurse again: two rounds are enough. *)
Fixpoint resolveAgent (fuel : nat) (conn : option connection) (auth : ConnAuth) (uid : string)
    (desc : option AgentDescription) (caps : Z) : H resolved :=
  match fuel with
  | O => mret AskFullState
  | S fuel' =>
    r ← call_st (GetAgentByInstanceUID uid);
    match r with
    | inl agent =>
      if bool_decide (a_CustomerID agent = Some (ca_CustomerID auth)) then
        mret (Resolved {|
          ac_conn := conn; ac_instanceUID := uid; ac_agentID := a_ID agent;
          ac_customerID := ca_CustomerID auth;
          ac_capabilities := match a_Capabilities agent with
                             | Some c => (c mod 2 ^ 64)%Z
                             | None => 0
                             end;
          ac_lastAckedHash := a_AckedConfigHash agent;
          ac_remoteConfigStatus := a_RemoteConfigStatus agent;
          ac_healthy := a_Healthy agent; ac_lastSeen := zero_time;
          ac_dirtySeen := false; ac_tokenOffered := false |})
      else mret Reject
    | inr err =>
      if Is err ErrNotFound then
        match desc with
        | None => mret AskFullState
        | Some d =>
          let '(name, version) := agentIdentity d in
          id ← new_uuid;
          r ← call_st (EnrollAgent {|
            na_ID := id; na_InstanceUID := uid; na_CustomerID := ca_CustomerID auth;
            na_Class := AgentClassEdge; na_Name := name; na_AgentVersion := version;
            na_Description := descriptionJSON d; na_Capabilities := wrap64 caps;
            na_EnrolledVia := ca_TokenID auth |});
          match r with
          | inl agent =>
            mret (Resolved {|
              ac_conn := conn; ac_instanceUID := uid; ac_agentID := a_ID agent;
              ac_customerID := ca_CustomerID auth; ac_capabilities := caps;
              ac_lastAckedHash := None; ac_remoteConfigStatus := a_RemoteConfigStatus agent;
              ac_healthy := None; ac_lastSeen := zero_time;
              ac_dirtySeen := false; ac_tokenOffered := false |})
          | inr e =>
            if Is e ErrConflict then resolveAgent fuel' conn auth uid None 0
            else mret AskFullState
          end
        end
      else mret AskFullState
    end
  end.

Definition handleRemoteConfigStatus (st : agentConn) (rcs : RemoteConfigStatus) : H agentConn :=
  let status := mapRemoteConfigStatus (rcs_Status rcs) in
  let acked := rcs_LastRemoteConfigHash rcs in
  let has_acked := negb (bool_decide (acked = "")) in
  let newHash := has_acked && negb (bool_decide (acked = default "" (ac_lastAckedHash st))) in
  st ←
    (if has_acked then
       st ← set_st (λ a, a <| ac_lastAckedHash := Some acked |>) st;
       (if newHash then call_log (SetAgentAckedConfig (ac_agentID st) (Some acked)) else mret tt);;
       mret st
     else if bool_decide (status = RemoteConfigUnset) then
       st ← set_st (λ a, a <| ac_lastAckedHash := None |>) st;
       call_log (SetAgentAckedConfig (ac_agentID st) None);;
       mret st
     else mret st);
  let terminal := bool_decide (status = RemoteConfigApplied)
                  || bool_decide (status = RemoteConfigFailed) in
  if bool_decide (status = ac_remoteConfigStatus st) && negb (newHash && terminal) then mret st
  else
    let failed := bool_decide (status = RemoteConfigFailed) in
    let errMsg := if failed then nonempty (rcs_ErrorMessage rcs) else None in
    let eventType :=
      if bool_decide (status = RemoteConfigApplied) then Some AgentEventConfigApplied
      else if failed then Some AgentEventConfigFailed else None in
    let detail := json_map ([("hash", JStr (hex_encode acked))]
                   ++ match errMsg with Some m => [("error", JStr m)] | None => [] end) in
    r ← call_st (SetAgentRemoteConfigStatus (ac_agentID st) status errMsg eventType (Some detail));
    match r with
    | inr _ => mret st
    | inl _ =>
      (if failed
       then emitEvent WebhookEventAgentConfigFailed (ac_agentID st) (ac_customerID st) (Some detail)
       else mret tt);;
      set_st (λ a, a <| ac_remoteConfigStatus := status |>) st
    end.

Definition handleEffectiveConfig (st : agentConn) (ec : list (string * string)) : H unit :=
  match effectiveConfigBody ec with
  | None => mret tt
  | Some body => call_log (SetAgentEffectiveConfig (ac_agentID st) body (Sha256.Sum256 body))
  end.

Definition handleHealth (st : agentConn) (health : ComponentHealth) : H agentConn :=
  let healthy := ch_Healthy health in
  let flip :=
    if bool_decide (ac_healthy st = Some healthy) then None
    else Some (if healthy then AgentEventHealthy else AgentEventUnhealthy) in
  r ← call_st (SetAgentHealth (ac_agentID st) (Some (componentHealthToMap health)) healthy flip);
  match r with
  | inr _ => mret st
  | inl _ =>
    (if is_some flip && negb healthy then
       emitEvent WebhookEventAgentUnhealthy (ac_agentID st) (ac_customerID st)
         (Some (json_map
           (match nonempty (ch_Status health) with Some s => [("status", JStr s)] | None => [] end
            ++ match nonempty (ch_LastError health) with
               | Some e => [("lastError", JStr e)] | None => [] end)))
     else mret tt);;
    set_st (λ a, a <| ac_healthy := Some healthy |>) st
  end.

Definition maybeOfferConfig (st : agentConn) (resp : ServerToAgent) : H ServerToAgent :=
  if negb (has_cap (ac_capabilities st) AcceptsRemoteConfig) then mret resp
  else
    r ← call_st (RenderEdgeCurrent (ac_customerID st));
    match r with
    | inr _ => mret resp
    | inl desired =>
      let hash := Sha256.Sum256 desired in
      call_log (SetAgentAssignedConfig (ac_agentID st) (Some hash));;
      if bool_decide (hash = default "" (ac_lastAckedHash st)) then mret resp
      else mret (resp <| sa_RemoteConfig := Some (remoteConfig desired hash) |>
                      <| sa_Flags ::= λ f, Z.lor f ReportFullState |>)
    end.

Definition maybeOfferAgentToken (st : agentConn) (resp : ServerToAgent) : H ServerToAgent :=
  if ac_tokenOffered st then mret resp
  else if negb (has_cap (ac_capabilities st) AcceptsOpAMPConnectionSettings) then mret resp
  else
    r ← call_st GenerateAgentToken;
    match r with
    | inr _ => mret resp
    | inl gen =>
      at_ ← now_;
      r ← call_st (SetAgentToken (ac_agentID st) (g_Prefix gen) (g_Hash gen) at_);
      match r with
      | inr _ => mret resp
      | inl _ =>
        set_st (λ a, a <| ac_tokenOffered := true |>) st;;
        mret (resp
          <| sa_Capabilities ::= λ c, Z.lor c OffersConnectionSettings |>
          <| sa_ConnectionSettings := Some {|
               cs_Hash := Sha256.Sum256 (g_Prefix gen);
               cs_Headers := [("Authorization", "Bearer " +:+ g_Secret gen)];
               cs_DestinationEndpoint := publicEndpoint cfg |} |>)
      end
    end.

Definition refuse (conn : option connection) (resp : ServerToAgent) (msg : string)
    : H ServerToAgent :=
  disconnect conn;; mret (resp <| sa_ErrorResponse := Some msg |>).

(** The description refresh of a known agent. *)
Definition refresh_description (st : agentConn) (msg : AgentToServer) (d : AgentDescription)
    : H unit :=
  let '(name, version) := agentIdentity d in
  match descriptionJSON d with
  | None => mret tt
  | Some desc =>
    call_log (UpdateAgentDescription (ac_agentID st) name version (Some desc)
      (if bool_decide (ms_Capabilities msg = 0%Z) then None
       else Some (wrap64 (ms_Capabilities msg))))
  end.

(** After [h.reg.put(st)]: the connected transition, the reports, the offers. *)
Definition react (auth : ConnAuth) (msg : AgentToServer) (now : time) (newConn : bool)
    (st : agentConn) (resp : ServerToAgent) : H ServerToAgent :=
  (if newConn then call_log (SetAgentConnected (ac_agentID st) true now) else mret tt);;
  st ← match ms_RemoteConfigStatus msg with
       | Some rcs => handleRemoteConfigStatus st rcs
       | None => mret st
       end;
  match ms_EffectiveConfig msg with
  | Some ec => handleEffectiveConfig st ec
  | None => mret tt
  end;;
  st ← match ms_Health msg with Some h => handleHealth st h | None => mret st end;
  resp ← (if newConn || is_some (ms_AgentDescription msg) then maybeOfferConfig st resp
          else mret resp);
  if newConn && negb (ca_ViaAgentToken auth) then maybeOfferAgentToken st resp else mret resp.

(** The state [put] stores. *)
Definition served (conn : option connection) (now : time) (msg : AgentToServer) (st : agentConn)
    : agentConn :=
  st <| ac_conn := conn |> <| ac_lastSeen := now |> <| ac_dirtySeen := true |>
     <| ac_capabilities ::= λ c, if bool_decide (ms_Capabilities msg = 0%Z) then c
                                 else ms_Capabilities msg |>.

(** From [st.conn = conn] on: the agent is known and allowed. *)
Definition serve (conn : option connection) (auth : ConnAuth) (msg : AgentToServer)
    (now : time) (known newConn : bool) (st : agentConn) (resp : ServerToAgent)
    : H ServerToAgent :=
  let st := served conn now msg st in
  match ms_AgentDescription msg with
  | Some d => if known then refresh_description st msg d else mret tt
  | None => mret tt
  end;;
  modify_reg (reg_put st);;
  react auth msg now newConn st resp.

Definition HandleMessage (conn : option connection) (auth : ConnAuth) (msg : AgentToServer)
    : H ServerToAgent :=
  let uid := ms_InstanceUid msg in
  let resp := {| sa_InstanceUid := uid; sa_Capabilities := serverCapabilities; sa_Flags := 0;
                 sa_ErrorResponse := None; sa_RemoteConfig := None;
                 sa_ConnectionSettings := None |} in
  if bool_decide (uid = "")
  then mret (resp <| sa_ErrorResponse := Some "missing instance_uid" |>)
  else
    now ← now_;
    prev ← mgets (λ s, reg_get uid (hs_reg s));
    let newConn := match prev with
                   | None => true
                   | Some p => negb (bool_decide (ac_conn p = conn))
                   end in
    r ← match prev with
        | None => resolveAgent 2 conn auth uid (ms_AgentDescription msg) (ms_Capabilities msg)
        | Some st => mret (if bool_decide (ac_customerID st = ca_CustomerID auth)
                           then Resolved st else Reject)
        end;
    match r with
    | Reject => refuse conn resp "instance uid is bound to another customer"
    | AskFullState => mret (resp <| sa_Flags ::= λ f, Z.lor f ReportFullState |>)
    | Resolved st =>
      if ca_ViaAgentToken auth &&
         match ca_AgentID auth with
         | Some id => negb (bool_decide (ac_agentID st = id))
         | None => false
         end
      then refuse conn resp "token does not match this agent"
      else serve conn auth msg now (is_some prev) newConn st resp
    end.

(** ** Connections, pushes, flushes *)

Definition HandleConnectionClose (conn : connection) : H unit :=
  st ← (λ s, let '(st, r) := removeConn conn (hs_reg s) in
             (inl st, s <| hs_reg := r |>)) : H (option agentConn);
  match st with
  | None => mret tt
  | Some st =>
    if bool_decide (ac_agentID st = 0%N) then mret tt
    else
      at_ ← (if bool_decide (ac_lastSeen st = zero_time) then now_ else mret (ac_lastSeen st));
      call_log (SetAgentConnected (ac_agentID st) false at_);;
      emitEvent WebhookEventAgentOffline (ac_agentID st) (ac_customerID st) None
  end.

Definition push (desired hash : string) (pushed : Z) (st : agentConn) : H Z :=
  if negb (has_cap (ac_capabilities st) AcceptsRemoteConfig) then mret pushed
  else
    call_log (SetAgentAssignedConfig (ac_agentID st) (Some hash));;
    match ac_conn st with
    | None => mret pushed
    | Some c =>
      let msg := {| sa_InstanceUid := ac_instanceUID st; sa_Capabilities := serverCapabilities;
                    sa_Flags := ReportFullState; sa_ErrorResponse := None;
                    sa_RemoteConfig := Some (remoteConfig desired hash);
                    sa_ConnectionSettings := None |} in
      n ← mgets (λ s, length (hs_out s));
      if send_ok n c then emit (Sent c msg);; mret (pushed + 1)%Z
      else emit (SendFailed c msg);; mret pushed
    end.

Fixpoint push_all (desired hash : string) (l : list agentConn) (pushed : Z) : H Z :=
  match l with
  | [] => mret pushed
  | st :: l' => pushed ← push desired hash pushed st; push_all desired hash l' pushed
  end.

(** [(pushed, offline)]. *)
Definition EdgeConfigChanged (customerID : uuid) : H (Z * Z) :=
  r ← call_st (RenderEdgeCurrent customerID);
  match r with
  | inr e => mthrow (Wrap "render edge config" e)
  | inl desired =>
    let hash := Sha256.Sum256 desired in
    conns ← mgets (λ s, connsForCustomer customerID (hs_reg s));
    pushed ← push_all desired hash conns 0;
    r ← call_st (ListAgents {| agf_Class := Some AgentClassEdge;
                               agf_CustomerID := Some customerID; agf_Connected := Some false |});
    match r with
    | inr _ => mret (pushed, 0%Z)
    | inl agents => mret (pushed, Z.of_nat (length agents))
    end
  end.

Definition IsConnected (instanceUID : string) : H bool :=
  mgets (λ s, isConnected instanceUID (hs_reg s)).

Definition FlushSeen : H unit :=
  seen ← (λ s, let '(seen, r) := drainDirtySeen (hs_reg s) in
               (inl seen, s <| hs_reg := r |>)) : H (gmap uuid time);
  if bool_decide (seen = ∅) then mret tt else call_log (TouchAgents seen).

End Handler.
