(* ===== verification/OpampProps.v ===== *)
(** * What the OpAMP server guarantees

    Events, the invariant that ties the registry to the tables and to the
    connections' credentials, and the isolation of customers from each
    other. *)
From S2P Require Import Prelude GoStrings Sha256 Store World PgCore PgUsers PgFleet PgPipelines PgMisc StoreCalls StoreInv Tokens OpAMP OpampHandler.

(** ** Triples

    [hspec R Q m]: every run of [m] relates the states by [R], and a value it
    returns satisfies [Q]. *)
Definition hspec {A} (R : relation hstate) (Q : A → Prop) (m : H A) : Prop :=
  ∀ s, R s (m s).2 ∧ ∀ a, (m s).1 = inl a → Q a.

Section Rules.
Context (R : relation hstate) `{!PreOrder R}.

Lemma hspec_ret {A} (Q : A → Prop) a : Q a → hspec R Q (mret a).
Proof. intros HQ s. split; [reflexivity|]. by intros b [= <-]. Qed.

Lemma hspec_throw {A} (Q : A → Prop) (e : error) : hspec R Q (mthrow e : M hstate error A).
Proof. intros s. split; [reflexivity|done]. Qed.

Lemma hspec_bind {A B} (Q1 : A → Prop) (Q2 : B → Prop) m f :
  hspec R Q1 m → (∀ a, Q1 a → hspec R Q2 (f a)) → hspec R Q2 (m ≫= f).
Proof.
  intros Hm Hf s. destruct (Hm s) as [H1 H2]. unfold mbind, M_bind.
  destruct (m s) as [[a|e] s']; simpl in *; [|done].
  destruct (Hf a (H2 a eq_refl) s') as [H3 H4]. split; [by etrans|done].
Qed.

Lemma hspec_gets {A} (Q : A → Prop) f : (∀ s, Q (f s)) → hspec R Q (mgets f).
Proof. intros Hf s. split; [reflexivity|]. by intros a [= <-]. Qed.

Lemma hspec_modify (f : hstate → hstate) : (∀ s, R s (f s)) → hspec R (λ _, True) (mmodify f).
Proof. intros Hf s. by split. Qed.

Lemma hspec_steps {A} (Q : A → Prop) m : hspec R Q m → steps R m.
Proof. intros Hm s. apply Hm. Qed.

End Rules.

Lemma hspec_weaken {A} (R R' : relation hstate) (Q Q' : A → Prop) m :
  hspec R Q m → (∀ s s', R s s' → R' s s') → (∀ a, Q a → Q' a) → hspec R' Q' m.
Proof. intros Hm HR HQ s. destruct (Hm s). split; eauto. Qed.

(** ** Frames of the tables *)

(** At most the row of agent [id] changes, and it keeps its identity. *)
Definition agent_frame (id : uuid) (w w' : world) : Prop :=
  (∀ k, k ≠ id → agents (w_db w') !! k = agents (w_db w) !! k) ∧
  (∀ r, agents (w_db w) !! id = Some r →
    ∃ r', agents (w_db w') !! id = Some r' ∧ gr_CustomerID r' = gr_CustomerID r ∧
      gr_InstanceUID r' = gr_InstanceUID r ∧ gr_ID r' = gr_ID r) ∧
  (agents (w_db w) !! id = None → agents (w_db w') !! id = None).

#[export] Instance agent_frame_preorder id : PreOrder (agent_frame id).
Proof.
  split.
  - intros w. split; [done|]. split; eauto.
  - intros w1 w2 w3 (H1 & H1' & N1) (H2 & H2' & N2). split; [intros; rewrite H2; auto|].
    split; [|auto]. intros r (r1 & Hr1 & ? & ? & ?)%H1'.
    apply H2' in Hr1 as (r2 & ? & ? & ? & ?). exists r2. split_and!; congruence.
Qed.

Lemma agent_frame_same id w w' : agents (w_db w') = agents (w_db w) → agent_frame id w w'.
Proof. intros E. unfold agent_frame. rewrite E. split_and!; eauto. Qed.

Section Frames.
Context {ENV : Env} (id : uuid).

Lemma frame_stmt {A} (f : time → db → (db * A) + error) :
  (∀ t w w' a, f t (w_db w) = inl (w_db w', a) → agent_frame id w w') →
  steps (agent_frame id) (stmt f).
Proof.
  intros Hf w. unfold stmt, fail_stmt. destruct (fault _ || _); [by apply agent_frame_same|].
  destruct (f _ _) as [[d a]|e] eqn:E; simpl; [|by apply agent_frame_same].
  exact (Hf _ w (w <| w_tick ::= S |> <| w_db := d |>) _ E).
Qed.

Lemma frame_inTx {A} (m : Op A) : steps (agent_frame id) m → steps (agent_frame id) (inTx m).
Proof.
  intros Hm w. unfold inTx. destruct (fault (w_tick w)); [by apply agent_frame_same|].
  specialize (Hm (w <| w_tick ::= S |> <| w_txtime := Some (clock (w_tick w)) |>)).
  destruct (m _) as [[a|e] w2]; simpl in *; [|by apply agent_frame_same].
  case_match; simpl; [by apply agent_frame_same|]. exact Hm.
Qed.

Lemma frame_readonly {A} (m : Op A) : readonly m → steps (agent_frame id) m.
Proof. intros Hm w. apply agent_frame_same. by rewrite Hm. Qed.

Lemma frame_wrapErr {A} msg (m : Op A) :
  steps (agent_frame id) m → steps (agent_frame id) (wrapErr msg m).
Proof.
  intros Hm. unfold wrapErr. apply steps_bind; [typeclasses eauto|by apply steps_try|].
  intros [a|er]; [apply steps_ret|apply steps_throw]; typeclasses eauto.
Qed.

Lemma frame_insert_event t p : steps (agent_frame id) (insert_event id t p).
Proof.
  intros w. unfold insert_event, fail_stmt. destruct (fault _ || _); [by apply agent_frame_same|].
  case_match; by apply agent_frame_same.
Qed.

(** The rewritten row keeps customer, instance and identifier. *)
Lemma frame_update w w' (f : AgentRow → AgentRow) :
  (∀ r, gr_CustomerID (f r) = gr_CustomerID r ∧ gr_InstanceUID (f r) = gr_InstanceUID r ∧
        gr_ID (f r) = gr_ID r) →
  agents (w_db w') = match agents (w_db w) !! id with
                     | Some r => <[id := f r]> (agents (w_db w))
                     | None => agents (w_db w)
                     end → agent_frame id w w'.
Proof.
  intros Hf E. split; rewrite E.
  - intros k Hk. destruct (agents (w_db w) !! id); [|done]. by rewrite lookup_insert_ne.
  - split; [|by intros Hn; rewrite Hn]. intros r ->. rewrite lookup_insert_eq. exists (f r).
    by split_and!; [|apply Hf..].
Qed.

Lemma frame_update_agent f :
  (∀ r, gr_CustomerID (f r) = gr_CustomerID r ∧ gr_InstanceUID (f r) = gr_InstanceUID r ∧
        gr_ID (f r) = gr_ID r) → steps (agent_frame id) (update_agent id f).
Proof.
  intros Hf. unfold update_agent, exec. apply frame_stmt. intros t w w' a E.
  apply (frame_update _ _ f Hf). destruct (agents (w_db w) !! id); injection E as E _; by rewrite <- E.
Qed.

Lemma frame_must_affect n : steps (agent_frame id) (must_affect n).
Proof. apply frame_readonly. unfold must_affect. by case_bool_decide. Qed.

End Frames.

Create HintDb frame discriminated.
#[export] Hint Resolve frame_insert_event frame_must_affect : frame.

(** Walks an operation on the agent: transactions, wrapped statements, row
    updates. *)
Ltac frame_tac :=
  repeat first
    [ solve [eauto 2 with frame]
    | lazymatch goal with
      | |- steps _ (inTx _) => apply frame_inTx
      | |- steps _ (wrapErr _ _) => apply frame_wrapErr
      | |- steps _ (update_agent _ _) => apply frame_update_agent; intros; split_and!; reflexivity
      | |- steps _ (_ ≫= _) => apply steps_bind; [typeclasses eauto| |intros ?]
      | |- steps _ (mret _) => apply steps_ret; typeclasses eauto
      | |- steps _ (mthrow _) => apply steps_throw; typeclasses eauto
      | |- steps _ (if ?x then _ else _) => destruct x
      | |- steps _ (match ?x with _ => _ end) => destruct x
      end ].

Section AgentOps.
Context {ENV : Env} (id : uuid).

Lemma frame_SetAgentConnected b t : steps (agent_frame id) (SetAgentConnected id b t).
Proof. unfold SetAgentConnected, insertAgentEvent. frame_tac. Qed.
Lemma frame_SetAgentAssignedConfig h : steps (agent_frame id) (SetAgentAssignedConfig id h).
Proof. unfold SetAgentAssignedConfig. frame_tac. Qed.
Lemma frame_SetAgentAckedConfig h : steps (agent_frame id) (SetAgentAckedConfig id h).
Proof. unfold SetAgentAckedConfig. frame_tac. Qed.
Lemma frame_SetAgentEffectiveConfig y h : steps (agent_frame id) (SetAgentEffectiveConfig id y h).
Proof. unfold SetAgentEffectiveConfig. frame_tac. Qed.
Lemma frame_SetAgentHealth h b e : steps (agent_frame id) (SetAgentHealth id h b e).
Proof. unfold SetAgentHealth, insertAgentEvent. frame_tac. Qed.
Lemma frame_SetAgentToken p h t : steps (agent_frame id) (SetAgentToken id p h t).
Proof. unfold SetAgentToken. frame_tac. Qed.
Lemma frame_UpdateAgentDescription n v d c :
  steps (agent_frame id) (UpdateAgentDescription id n v d c).
Proof. unfold UpdateAgentDescription. frame_tac. Qed.
Lemma frame_SetAgentRemoteConfigStatus s e t d :
  steps (agent_frame id) (SetAgentRemoteConfigStatus id s e t d).
Proof.
  unfold SetAgentRemoteConfigStatus, insertAgentEvent. frame_tac.
  apply frame_stmt. intros t0 w w' a E.
  apply (frame_update id _ _ (λ r, r <| gr_RemoteConfigStatus := s |>
    <| gr_RemoteConfigError := e |>)); [done|].
  destruct (agents (w_db w) !! id); [apply constrained_inl in E as [_ E]|];
    injection E as E _; by rewrite <- E.
Qed.
Lemma frame_GenerateAgentToken : steps (agent_frame id) GenerateAgentToken.
Proof.
  unfold GenerateAgentToken. apply frame_readonly. atomic_tac.
Qed.

End AgentOps.

#[export] Hint Resolve frame_SetAgentConnected frame_SetAgentAssignedConfig
  frame_SetAgentAckedConfig frame_SetAgentEffectiveConfig frame_SetAgentHealth
  frame_SetAgentToken frame_UpdateAgentDescription frame_SetAgentRemoteConfigStatus
  frame_GenerateAgentToken : frame.

(** ** Frames of the registry and of the outputs *)

(** What identifies an entry: its connection, instance, agent and customer. *)
Definition ident (st : agentConn) : option connection * string * uuid * uuid :=
  (ac_conn st, ac_instanceUID st, ac_agentID st, ac_customerID st).

Definition reg_same (r r' : registry) : Prop :=
  ∀ uid, ident <$> byUID r' !! uid = ident <$> byUID r !! uid.

Definition is_event (o : output) : Prop :=
  match o with FleetEvent _ _ _ _ => True | _ => False end.

(** The new outputs satisfy [P]. *)
Definition emits (P : output → Prop) (s s' : hstate) : Prop :=
  ∃ new, hs_out s' = hs_out s ++ new ∧ Forall P new.

Lemma emits_same P s s' : hs_out s' = hs_out s → emits P s s'.
Proof. intros E. exists []. by rewrite app_nil_r. Qed.

Lemma emits_trans P s1 s2 s3 : emits P s1 s2 → emits P s2 s3 → emits P s1 s3.
Proof.
  intros (n1 & E1 & F1) (n2 & E2 & F2). exists (n1 ++ n2). rewrite E2, E1, app_assoc.
  by rewrite Forall_app.
Qed.

(** Serving agent [id]: its row, entries that keep their identity, events. *)
Record serves (id : uuid) (s s' : hstate) : Prop := {
  serves_row : agent_frame id (hs_w s) (hs_w s');
  serves_reg : reg_same (hs_reg s) (hs_reg s');
  serves_out : emits is_event s s';
}.

#[export] Instance serves_preorder id : PreOrder (serves id).
Proof.
  split.
  - intros s. split; [reflexivity|by intros ?|by apply emits_same].
  - intros s1 s2 s3 [R1 G1 O1] [R2 G2 O2]. split; [by etrans| |by eapply emits_trans].
    intros uid. by rewrite G2.
Qed.

Section Serve.
Context {ENV : Env} {PROTO : OpampProto} {RENDER : ConfigRenderer} {TRANSPORT : Transport}.
Context (cfg : HandlerCfg).

Lemma hspec_let id {A B} (Q1 : A → Prop) (Q2 : B → Prop) (m : H A) (f : A → H B) :
  hspec (serves id) Q1 m → (∀ a, Q1 a → hspec (serves id) Q2 (f a)) →
  hspec (serves id) Q2 (m ≫= f).
Proof. apply hspec_bind. typeclasses eauto. Qed.

Lemma hspec_call {A} id (m : Op A) :
  steps (agent_frame id) m → hspec (serves id) (λ r, ∃ w w', m w = (r, w')) (call_st m).
Proof.
  intros Hm s. specialize (Hm (hs_w s)). unfold call_st.
  destruct (m (hs_w s)) as [r w] eqn:E; simpl in *. split.
  - split; [done|by intros ?|by apply emits_same].
  - intros a [= <-]. eauto.
Qed.

Lemma hspec_call_log {A} id (m : Op A) :
  steps (agent_frame id) m → hspec (serves id) (λ _, True) (call_log m).
Proof.
  intros Hm. unfold call_log. eapply hspec_let; [by apply hspec_call|].
  intros. by apply hspec_ret; [typeclasses eauto|].
Qed.

Lemma hspec_now id : hspec (serves id) (λ _, True) now_.
Proof.
  intros s. split; [|done]. split; [by apply agent_frame_same|by intros ?|by apply emits_same].
Qed.

Lemma hspec_emitEvent id t a c d : hspec (serves id) (λ _, True) (emitEvent cfg t a c d).
Proof.
  unfold emitEvent. destruct (has_sink cfg); [|by apply hspec_ret; [typeclasses eauto|]].
  apply hspec_modify. intros s. split; simpl; [reflexivity|by intros ?|].
  eexists. split; [reflexivity|]. by repeat constructor.
Qed.

Lemma hspec_set_st id f st :
  (∀ a, ident (f a) = ident a) →
  hspec (serves id) (λ st', ident st' = ident st) (set_st f st).
Proof.
  intros Hf. unfold set_st. eapply (hspec_let _ (λ _, True)).
  - apply hspec_modify. intros s. split; simpl; [reflexivity| |by apply emits_same].
    intros uid. unfold reg_update. simpl. destruct (decide (uid = ac_instanceUID st)) as [->|Hne].
    + rewrite lookup_alter_eq, <- option_fmap_compose. apply option_fmap_ext. done.
    + by rewrite lookup_alter_ne.
  - intros _ _. apply hspec_ret; [typeclasses eauto|]. apply Hf.
Qed.

Lemma hspec_skip id {A} (Q : A → Prop) a : Q a → hspec (serves id) Q (mret a).
Proof. apply hspec_ret. typeclasses eauto. Qed.

(** A step whose value does not matter. *)
Lemma hspec_seq id {A B} (Q1 : A → Prop) (Q : B → Prop) (m : H A) (k : H B) :
  hspec (serves id) Q1 m → hspec (serves id) Q k → hspec (serves id) Q (m ;; k).
Proof. intros Hm Hk. eapply hspec_let; [exact Hm|auto]. Qed.

Lemma hspec_handleRemoteConfigStatus st rcs :
  hspec (serves (ac_agentID st)) (λ st', ident st' = ident st) (handleRemoteConfigStatus cfg st rcs).
Proof.
  unfold handleRemoteConfigStatus.
  eapply (hspec_let _ (λ st', ident st' = ident st)).
  - assert (Hrow : ∀ st', ident st' = ident st → ac_agentID st' = ac_agentID st)
      by (intros st' [= _ _ -> _]; done).
    destruct (negb (bool_decide (rcs_LastRemoteConfigHash rcs = "")));
      [|destruct (bool_decide (mapRemoteConfigStatus (rcs_Status rcs) = RemoteConfigUnset));
        [|by apply hspec_skip]];
      (eapply hspec_let; [by apply hspec_set_st|]);
      intros st' Hst; rewrite (Hrow _ Hst);
      (eapply (hspec_seq _ (λ _, True)); [|by apply hspec_skip]).
    + simpl. destruct (negb _); [|by apply hspec_skip].
      apply hspec_call_log. frame_tac.
    + apply hspec_call_log. frame_tac.
  - intros st' Hst. pose proof Hst as [= _ _ Hid Hc].
    destruct (_ && _); [by apply hspec_skip|]. cbv zeta.
    eapply (hspec_let _ (λ _, True)).
    { eapply hspec_weaken; [apply hspec_call; rewrite Hid; frame_tac|done|done]. }
    intros [u|e] _; [|by apply hspec_skip].
    eapply (hspec_seq _ (λ _, True)).
    + destruct (bool_decide _); [apply hspec_emitEvent|by apply hspec_skip].
    + rewrite <- Hst. by apply hspec_set_st.
Qed.

Lemma hspec_handleEffectiveConfig st ec :
  hspec (serves (ac_agentID st)) (λ _, True) (handleEffectiveConfig st ec).
Proof.
  unfold handleEffectiveConfig. destruct (effectiveConfigBody ec); [|by apply hspec_skip].
  apply hspec_call_log. frame_tac.
Qed.

Lemma hspec_handleHealth st h :
  hspec (serves (ac_agentID st)) (λ st', ident st' = ident st) (handleHealth cfg st h).
Proof.
  unfold handleHealth. eapply (hspec_let _ (λ _, True)).
  { eapply hspec_weaken; [apply hspec_call; frame_tac|done|done]. }
  intros [u|e] _; [|by apply hspec_skip]. eapply (hspec_seq _ (λ _, True)).
  - destruct (_ && _); [apply hspec_emitEvent|by apply hspec_skip].
  - by apply hspec_set_st.
Qed.

(** A configuration is offered only to the customer it was rendered for. *)
Definition rendered_for (customerID : uuid) (m : ServerToAgent) : Prop :=
  ∀ rc, sa_RemoteConfig m = Some rc →
    ∃ w body w', RenderEdgeCurrent customerID w = (inl body, w') ∧
      rc = remoteConfig body (Sha256.Sum256 body).

Lemma hspec_maybeOfferConfig st resp :
  rendered_for (ac_customerID st) resp →
  hspec (serves (ac_agentID st)) (rendered_for (ac_customerID st)) (maybeOfferConfig st resp).
Proof.
  intros Hr. unfold maybeOfferConfig. destruct (negb _); [by apply hspec_skip|].
  eapply hspec_let.
  { apply hspec_call, frame_readonly, RenderEdgeCurrent_readonly. }
  intros [desired|e] (w & w' & Hw); [|by apply hspec_skip].
  eapply (hspec_seq _ (λ _, True)); [apply hspec_call_log; frame_tac|].
  case_bool_decide; [by apply hspec_skip|]. apply hspec_skip. intros rc [= <-]. eauto.
Qed.

Lemma hspec_maybeOfferAgentToken c st resp :
  rendered_for c resp →
  hspec (serves (ac_agentID st)) (rendered_for c) (maybeOfferAgentToken cfg st resp).
Proof.
  intros Hr. unfold maybeOfferAgentToken. destruct (ac_tokenOffered st); [by apply hspec_skip|].
  destruct (negb _); [by apply hspec_skip|].
  eapply hspec_let; [apply hspec_call; frame_tac|].
  intros [gen|e] _; [|by apply hspec_skip].
  eapply hspec_let; [apply hspec_now|]. intros at_ _.
  eapply hspec_let; [apply hspec_call; frame_tac|].
  intros [u|e] _; [|by apply hspec_skip].
  eapply hspec_seq; [by apply hspec_set_st|]. by apply hspec_skip.
Qed.

Lemma hspec_refresh st msg d :
  hspec (serves (ac_agentID st)) (λ _, True) (refresh_description st msg d).
Proof.
  unfold refresh_description. destruct (agentIdentity d) as [name version].
  destruct (descriptionJSON d); [|by apply hspec_skip]. apply hspec_call_log. frame_tac.
Qed.

(** ** Serving a resolved agent *)

Lemma reg_put_byUID st r : byUID (reg_put st r) = <[ac_instanceUID st := st]> (byUID r).
Proof.
  unfold reg_put. destruct (byUID r !! _) as [prev|]; [|by destruct (ac_conn st)].
  case_bool_decide; [by destruct (ac_conn st)|].
  by destruct (ac_conn prev), (ac_conn st).
Qed.

Lemma reg_put_same st r r' : reg_same r r' → reg_same (reg_put st r) (reg_put st r').
Proof.
  intros H uid. rewrite !reg_put_byUID. destruct (decide (uid = ac_instanceUID st)) as [->|Hne].
  - by rewrite !lookup_insert_eq.
  - rewrite !lookup_insert_ne by done. apply H.
Qed.

(** Serving: the agent's row, one entry stored, events, and an offer for the
    agent's customer. *)
Record serves_as (st : agentConn) (s s' : hstate) : Prop := {
  sa_row : agent_frame (ac_agentID st) (hs_w s) (hs_w s');
  sa_reg : reg_same (reg_put st (hs_reg s)) (hs_reg s');
  sa_out : emits is_event s s';
}.

Lemma serves_as_put st s1 s2 s3 :
  serves (ac_agentID st) s1 s2 →
  serves (ac_agentID st) (s2 <| hs_reg ::= reg_put st |>) s3 → serves_as st s1 s3.
Proof.
  intros [R1 G1 O1] [R2 G2 O2]. split.
  - etrans; [exact R1|exact R2].
  - intros uid. rewrite G2. by apply reg_put_same.
  - eapply emits_trans; [exact O1|exact O2].
Qed.

Lemma hspec_react auth msg now newConn st resp :
  rendered_for (ac_customerID st) resp →
  hspec (serves (ac_agentID st)) (rendered_for (ac_customerID st))
    (react cfg auth msg now newConn st resp).
Proof.
  intros Hr. unfold react. eapply (hspec_seq _ (λ _, True)).
  { destruct newConn; [apply hspec_call_log; frame_tac|by apply hspec_skip]. }
  eapply (hspec_let _ (λ st2, ident st2 = ident st)).
  { destruct (ms_RemoteConfigStatus msg);
      [apply hspec_handleRemoteConfigStatus|by apply hspec_skip]. }
  intros st2 Hst2. assert (Hid2 : ac_agentID st2 = ac_agentID st) by (by injection Hst2).
  eapply (hspec_seq _ (λ _, True)).
  { destruct (ms_EffectiveConfig msg); [|by apply hspec_skip].
    rewrite <- Hid2. apply hspec_handleEffectiveConfig. }
  eapply (hspec_let _ (λ st3, ident st3 = ident st)).
  { destruct (ms_Health msg); [|by apply hspec_skip].
    rewrite <- Hid2, <- Hst2. apply hspec_handleHealth. }
  intros st3 Hst3. assert (Hid3 : ac_agentID st3 = ac_agentID st) by (by injection Hst3).
  assert (Hc3 : ac_customerID st3 = ac_customerID st) by (by injection Hst3).
  eapply (hspec_let _ (rendered_for (ac_customerID st))).
  { destruct (_ || _); [|by apply hspec_skip]. rewrite <- Hid3, <- Hc3.
    apply hspec_maybeOfferConfig. by rewrite Hc3. }
  intros resp' Hr'. destruct (_ && _); [|by apply hspec_skip].
  rewrite <- Hid3. by apply hspec_maybeOfferAgentToken.
Qed.

Lemma refresh_returns st msg known s :
  ∃ s1, (match ms_AgentDescription msg with
         | Some d => if known : bool then refresh_description st msg d else mret tt
         | None => mret tt
         end) s = (inl tt, s1) ∧ serves (ac_agentID st) s s1.
Proof.
  destruct (ms_AgentDescription msg) as [d|]; [destruct known|]; [|by eexists..].
  destruct (hspec_refresh st msg d s) as [H _]. eexists. split; [|exact H].
  unfold refresh_description. destruct (agentIdentity d). destruct (descriptionJSON d); [|done].
  unfold call_log, call_st, mbind, M_bind. by destruct (UpdateAgentDescription _ _ _ _ _ _).
Qed.

Lemma serve_spec conn auth msg now known newConn st resp s :
  rendered_for (ac_customerID st) resp →
  serves_as (served conn now msg st) s (serve cfg conn auth msg now known newConn st resp s).2 ∧
  ∀ resp', (serve cfg conn auth msg now known newConn st resp s).1 = inl resp' →
    rendered_for (ac_customerID st) resp'.
Proof.
  intros Hr. unfold serve. set (st1 := served conn now msg st). cbv zeta.
  destruct (refresh_returns st1 msg known s) as (s1 & E & Hs1).
  unfold mbind, M_bind. rewrite E. unfold modify_reg, mmodify.
  destruct (hspec_react auth msg now newConn st1 resp Hr (s1 <| hs_reg ::= reg_put st1 |>))
    as [Hs2 Hq].
  split; [by eapply serves_as_put|exact Hq].
Qed.

(** ** Resolving *)

(** Existing agents stay, rows stay filed under their identifiers. *)
Definition enrolls (w w' : world) : Prop :=
  (∀ k r, agents (w_db w) !! k = Some r → agents (w_db w') !! k = Some r) ∧
  (keyed gr_ID (agents (w_db w)) → keyed gr_ID (agents (w_db w'))).

#[export] Instance enrolls_preorder : PreOrder enrolls.
Proof. split; [by intros w; split|]. intros w1 w2 w3 [A1 B1] [A2 B2]. split; auto. Qed.

Lemma enrolls_same w w' : agents (w_db w') = agents (w_db w) → enrolls w w'.
Proof. intros E. split; by rewrite E. Qed.

(** The row an agent was read from. *)
Definition row_of (d : db) (uid : string) (a : Agent) : Prop :=
  ∃ r, agents d !! a_ID a = Some r ∧ gr_CustomerID r = a_CustomerID a ∧ gr_InstanceUID r = uid.

Lemma GetAgentByInstanceUID_row uid w a w' :
  GetAgentByInstanceUID uid w = (inl a, w') → keyed gr_ID (agents (w_db w)) →
  row_of (w_db w') uid a.
Proof.
  unfold GetAgentByInstanceUID. intros [H E]%onErr_inl%queryRow_db Hk.
  apply fmap_Some in H as (r & Hr & ->). apply find_row_Some in Hr as [Hu [k Hl]].
  apply bool_decide_eq_true in Hu. exists r. rewrite E. simpl. by rewrite (Hk _ _ Hl).
Qed.

Lemma EnrollAgent_row a w agent w' :
  EnrollAgent a w = (inl agent, w') →
  enrolls w w' ∧ row_of (w_db w') (na_InstanceUID a) agent ∧
  a_CustomerID agent = Some (na_CustomerID a).
Proof.
  intros H. unfold EnrollAgent, insertAgentEvent in H.
  apply inTx_db in H as (w1 & w2 & E1 & H & E2).
  apply bind_inl in H as ([] & w3 & Hins & H).
  apply onErr_inl, stmt_db in Hins as [t Hins]. apply constrained_inl in Hins as [Hc Hd].
  apply bind_inl in H as (n & w4 & Hinc & H). apply wrapErr_inl, exec_db in Hinc as [t' Hinc].
  apply bind_inl in H as ([] & w5 & Hev & H).
  apply wrapErr_inl, insert_event_db in Hev as ((e & Hev & _) & _).
  apply wrapErr_inl, queryRow_db in H as [Hrow E6].
  assert (Hag : agents (w_db w5) = <[na_ID a := new_agent_row a t]> (agents (w_db w))).
  { rewrite Hev. simpl. rewrite <- E1. injection Hd as Hd.
    destruct (bootstrap_tokens (w_db w3) !! _); injection Hinc as Hinc _; by rewrite <- Hinc, <- Hd. }
  assert (Hfresh : agents (w_db w) !! na_ID a = None).
  { rewrite E1 in Hc. apply checks_None, Forall_cons in Hc as [_ [Hn _]%Forall_cons].
    unfold is_none, is_some in Hn. simpl in Hn. by destruct (agents (w_db w) !! na_ID a). }
  rewrite Hag, lookup_insert_eq in Hrow. injection Hrow as <-. rewrite <- E6, <- E2 in Hag.
  split; [split|split; [|done]].
  - rewrite Hag. intros k r Hk. by rewrite lookup_insert_ne by congruence.
  - rewrite Hag. intros Hk. by apply keyed_insert.
  - exists (new_agent_row a t). rewrite Hag. simpl. by rewrite lookup_insert_eq.
Qed.

Lemma EnrollAgent_err a w e w' : EnrollAgent a w = (inr e, w') → w_db w' = w_db w.
Proof. apply atomic_inTx. Qed.

Lemma GetAgentByInstanceUID_readonly uid : readonly (GetAgentByInstanceUID uid).
Proof. unfold GetAgentByInstanceUID. atomic_tac. Qed.

Lemma new_uuid_spec s : ∃ id w, new_uuid s = (inl id, s <| hs_w := w |>) ∧ w_db w = w_db (hs_w s).
Proof. by eexists _, _. Qed.

(** What resolving does and returns. *)
Definition resolves (conn : option connection) (auth : ConnAuth) (uid : string)
    (s s' : hstate) (r : resolved) : Prop :=
  enrolls (hs_w s) (hs_w s') ∧ hs_reg s' = hs_reg s ∧ hs_out s' = hs_out s ∧
  match r with
  | Resolved st =>
    ac_conn st = conn ∧ ac_instanceUID st = uid ∧ ac_customerID st = ca_CustomerID auth ∧
    ∃ r, agents (w_db (hs_w s')) !! ac_agentID st = Some r ∧
      gr_CustomerID r = Some (ca_CustomerID auth) ∧ gr_InstanceUID r = uid
  | _ => True
  end.

Lemma resolveAgent_spec fuel conn auth uid desc caps s :
  keyed gr_ID (agents (w_db (hs_w s))) →
  ∃ r s', resolveAgent fuel conn auth uid desc caps s = (inl r, s') ∧ resolves conn auth uid s s' r.
Proof.
  revert desc caps s; induction fuel as [|fuel IH]; intros desc caps s Hk.
  { eexists _, _. split; [reflexivity|]. by split_and!. }
  cbn [resolveAgent]. unfold mbind at 1, M_bind at 1, call_st at 1.
  pose proof (GetAgentByInstanceUID_readonly uid (hs_w s)) as Hro.
  pose proof (λ a w', GetAgentByInstanceUID_row uid (hs_w s) a w') as Hrow.
  destruct (GetAgentByInstanceUID uid (hs_w s)) as [[agent|err] w1]; simpl in Hro; cbn beta iota.
  - destruct (Hrow _ _ eq_refl Hk) as (row & Hl & Hc & Hu).
    assert (Hen : enrolls (hs_w s) w1) by (apply enrolls_same; by rewrite Hro).
    case_bool_decide as E; (eexists _, _; split; [reflexivity|]); [|by split_and!].
    split_and!; try done. exists row. simpl. by rewrite Hl, Hc.
  - clear Hrow. assert (Hen : enrolls (hs_w s) w1) by (apply enrolls_same; by rewrite Hro).
    destruct (Is err ErrNotFound); [|by eexists _, _; split; [reflexivity|split_and!]].
    destruct desc as [d|]; [|by eexists _, _; split; [reflexivity|split_and!]].
    destruct (agentIdentity d) as [name version].
    destruct (new_uuid_spec (s <| hs_w := w1 |>)) as (id & w2 & E2 & Hw2).
    unfold mbind at 1, M_bind at 1. rewrite E2. unfold mbind, M_bind, call_st. cbn beta iota.
    match goal with |- context [EnrollAgent ?a _] => set (na := a) end.
    change (hs_w (s <| hs_w := w1 |> <| hs_w := w2 |>)) with w2. simpl in Hw2.
    rewrite Hro in Hw2.
    destruct (EnrollAgent na w2) as [[agent|e] w3] eqn:Ee; cbn beta iota.
    + destruct (EnrollAgent_row _ _ _ _ Ee) as ([A B] & Hr & Hc).
      eexists _, _. split; [reflexivity|]. simpl. rewrite Hw2 in A, B.
      split_and!; try done. destruct Hr as (r & Hl & Hrc & Hru). exists r. simpl. by rewrite Hl, Hrc.
    + apply EnrollAgent_err in Ee. assert (E3 : w_db w3 = w_db (hs_w s)) by (by rewrite Ee).
      destruct (Is e ErrConflict).
      * destruct (IH None 0%Z (s <| hs_w := w3 |>)) as (r & s' & Hs & Hres);
          [simpl; by rewrite E3|]. exists r, s'. split; [exact Hs|].
        destruct Hres as ([A B] & ? & ? & ?). simpl in *. rewrite E3 in A, B. by split_and!.
      * eexists _, _. split; [reflexivity|]. split_and!; try done. simpl.
        apply enrolls_same. by rewrite E3.
Qed.

End Serve.
