(* ===== verification/OpampSafety.v ===== *)
(** * Customers stay apart on the OpAMP server

    The events of a running server, the invariant that ties every registry
    entry to its connection's customer and to its row, and the theorems. *)
From S2P Require Import Prelude GoStrings Sha256 Store World PgCore PgUsers PgFleet PgPipelines PgMisc StoreCalls StoreInv StoreProps Tokens OpAMP OpampHandler OpampProps.

Section Safety.
Context {PROTO : OpampProto} {RENDER : ConfigRenderer} (cfg : HandlerCfg).

(** What each connection authenticated as; the server binds it on accept. *)
Context (authOf : connection → ConnAuth).

Abbreviation customer_of c := (ca_CustomerID (authOf c)).

(** ** Events *)

(** A frame answered on its own connection, a closed connection, an activation
    that pushes, a flush. *)
Inductive event :=
  | EvMessage (c : connection) (msg : AgentToServer)
  | EvClose (c : connection)
  | EvPush (customerID : uuid)
  | EvFlush.

Definition run_event (ENV : Env) (TRANSPORT : Transport) (ev : event) : H unit :=
  match ev with
  | EvMessage c msg => resp ← HandleMessage cfg (Some c) (authOf c) msg; emit (Sent c resp)
  | EvClose c => HandleConnectionClose cfg c
  | EvPush cid => EdgeConfigChanged cid;; mret tt
  | EvFlush => FlushSeen
  end.

(** The API refuses to delete an agent that is connected
    (handlers_fleet.go, DeleteAgent). *)
Definition delete_allowed (c : call) (s : hstate) : Prop :=
  match c with
  | CallDeleteAgent id _ =>
    ∀ r, agents (w_db (hs_w s)) !! id = Some r →
      isConnected (gr_InstanceUID r) (hs_reg s) = false
  | _ => True
  end.

Inductive ostep (s : hstate) : hstate → Prop :=
  | os_event ENV TRANSPORT ev : ostep s (run_event ENV TRANSPORT ev s).2
  | os_call ENV c : delete_allowed c s →
    ostep s (s <| hs_w := (@run_call ENV c (hs_w s)).2 |>).

(** ** Invariant *)

Definition entry_ok (d : db) (uid : string)
    (i : option connection * string * uuid * uuid) : Prop :=
  let '(conn, u, aid, cid) := i in
  u = uid ∧ (∀ c, conn = Some c → customer_of c = cid) ∧
  ∃ r, agents d !! aid = Some r ∧ gr_CustomerID r = Some cid ∧ gr_InstanceUID r = uid.

Record hs_ok (s : hstate) : Prop := {
  ok_keyed : keyed gr_ID (agents (w_db (hs_w s)));
  ok_entry : ∀ uid i, ident <$> byUID (hs_reg s) !! uid = Some i → entry_ok (w_db (hs_w s)) uid i;
}.

(** Rows keep their customer and instance. *)
Definition rows_kept (P : uuid → Prop) (w w' : world) : Prop :=
  ∀ k r, agents (w_db w) !! k = Some r → P k →
    ∃ r', agents (w_db w') !! k = Some r' ∧ gr_CustomerID r' = gr_CustomerID r ∧
      gr_InstanceUID r' = gr_InstanceUID r.

Lemma entry_ok_kept P w w' uid i :
  rows_kept P w w' → P i.1.2 → entry_ok (w_db w) uid i → entry_ok (w_db w') uid i.
Proof.
  destruct i as [[[conn u] aid] cid]. intros Hk HP (Hu & Hc & r & Hr & Hrc & Hru).
  destruct (Hk _ _ Hr HP) as (r' & ? & ? & ?). split_and!; [done..|]. exists r'.
  split_and!; congruence.
Qed.

Lemma frame_kept id w w' : agent_frame id w w' → rows_kept (λ _, True) w w'.
Proof.
  intros (H1 & H2 & _) k r Hr _. destruct (decide (k = id)) as [->|Hne].
  - destruct (H2 r Hr) as (r' & ? & ? & ? & ?). eauto.
  - exists r. by rewrite H1.
Qed.

Lemma frame_keyed id w w' :
  agent_frame id w w' → keyed gr_ID (agents (w_db w)) → keyed gr_ID (agents (w_db w')).
Proof.
  intros (H1 & H2 & H3) Hk k r' Hr'. destruct (decide (k = id)) as [->|Hne].
  - destruct (agents (w_db w) !! id) as [r|] eqn:Hr; [|by rewrite H3 in Hr'].
    destruct (H2 r eq_refl) as (r2 & Hr2 & _ & _ & Hid). rewrite Hr' in Hr2. injection Hr2 as <-.
    rewrite Hid. by apply Hk.
  - rewrite H1 in Hr' by done. by apply Hk.
Qed.

Lemma enrolls_kept w w' : enrolls w w' → rows_kept (λ _, True) w w'.
Proof. intros [H1 _] k r Hr _. exists r. auto. Qed.

Lemma hs_ok_enrolls s s' :
  hs_ok s → enrolls (hs_w s) (hs_w s') → hs_reg s' = hs_reg s → hs_ok s'.
Proof.
  intros [Hk He] Hen Hreg. split; [by apply Hen|]. rewrite Hreg. intros uid i Hi.
  eapply entry_ok_kept; [by apply enrolls_kept|done|]. by apply He.
Qed.

(** Storing the served agent. *)
Lemma hs_ok_serves_as s s' st :
  hs_ok s → serves_as st s s' →
  (∃ r, agents (w_db (hs_w s)) !! ac_agentID st = Some r ∧
    gr_CustomerID r = Some (ac_customerID st) ∧ gr_InstanceUID r = ac_instanceUID st) →
  (∀ c, ac_conn st = Some c → customer_of c = ac_customerID st) →
  hs_ok s'.
Proof.
  intros [Hk He] [Hrow Hreg _] Hr Hc. split; [by eapply frame_keyed|].
  intros uid i. rewrite (Hreg uid), reg_put_byUID.
  intros Hi. eapply entry_ok_kept; [by eapply frame_kept|done|]. revert Hi.
  destruct (decide (uid = ac_instanceUID st)) as [->|Hne].
  - rewrite lookup_insert_eq. intros [= <-]. by split_and!.
  - rewrite lookup_insert_ne by done. apply He.
Qed.

(** ** One message *)

Section Message.
Context {ENV : Env} {TRANSPORT : Transport}.

Definition resolve_prev (conn : option connection) (auth : ConnAuth) (msg : AgentToServer)
    (prev : option agentConn) : H resolved :=
  match prev with
  | None => resolveAgent 2 conn auth (ms_InstanceUid msg) (ms_AgentDescription msg)
              (ms_Capabilities msg)
  | Some st => mret (if bool_decide (ac_customerID st = ca_CustomerID auth)
                     then Resolved st else Reject)
  end.

Lemma resolve_prev_spec c msg s :
  hs_ok s →
  ∃ r s', resolve_prev (Some c) (authOf c) msg (byUID (hs_reg s) !! ms_InstanceUid msg) s
          = (inl r, s') ∧
    enrolls (hs_w s) (hs_w s') ∧ hs_reg s' = hs_reg s ∧ hs_out s' = hs_out s ∧
    ∀ st, r = Resolved st →
      ac_instanceUID st = ms_InstanceUid msg ∧ ac_customerID st = customer_of c ∧
      ∃ row, agents (w_db (hs_w s')) !! ac_agentID st = Some row ∧
        gr_CustomerID row = Some (customer_of c) ∧ gr_InstanceUID row = ms_InstanceUid msg.
Proof.
  intros [Hk He]. unfold resolve_prev.
  destruct (byUID (hs_reg s) !! ms_InstanceUid msg) as [st|] eqn:Est.
  - eexists _, s. split; [reflexivity|]. split_and!; [reflexivity|done..|].
    intros st'. case_bool_decide as Hc; [|done]. intros [= <-].
    destruct (He (ms_InstanceUid msg) (ident st)) as (Hu & _ & row & Hr & Hrc & Hru);
      [by rewrite Est|]. rewrite Hc in Hrc. eauto 10.
  - destruct (resolveAgent_spec 2 (Some c) (authOf c) (ms_InstanceUid msg)
      (ms_AgentDescription msg) (ms_Capabilities msg) s Hk) as (r & s' & Hs & He' & Hg & Ho & Hr).
    exists r, s'. split_and!; [done..|]. intros st ->. destruct Hr as (_ & ? & ? & ?). eauto.
Qed.

(** What a message may change: rows of the connection's customer, and with an
    agent token only that agent's row. *)
Definition only_own (c : connection) (w w' : world) : Prop :=
  ∀ k r, agents (w_db w) !! k = Some r →
    agents (w_db w') !! k = Some r ∨
    gr_CustomerID r = Some (customer_of c) ∧
    (ca_ViaAgentToken (authOf c) = true → ∀ id, ca_AgentID (authOf c) = Some id → k = id).

Record message_ok (c : connection) (s : hstate) (res : (ServerToAgent + error) * hstate) : Prop := {
  mo_ok : hs_ok res.2;
  mo_out : emits (λ o, is_event o ∨ o = Disconnected c) s res.2;
  mo_resp : ∀ resp, res.1 = inl resp → rendered_for (customer_of c) resp;
  mo_own : only_own c (hs_w s) (hs_w res.2);
}.

Lemma only_own_enrolls c w w' : enrolls w w' → only_own c w w'.
Proof. intros [H _] k r Hr. left. by apply H. Qed.

Lemma message_ok_quiet c s s' resp :
  hs_ok s → enrolls (hs_w s) (hs_w s') → hs_reg s' = hs_reg s →
  emits (λ o, is_event o ∨ o = Disconnected c) s s' → sa_RemoteConfig resp = None →
  message_ok c s (inl resp, s').
Proof.
  intros Hok Hen Hreg Hout Hr. split; simpl; [by eapply hs_ok_enrolls|done| |by apply only_own_enrolls].
  intros resp' [= <-] rc. by rewrite Hr.
Qed.

Lemma message_ok_serve c msg now known newConn st resp s s1 :
  hs_ok s → enrolls (hs_w s) (hs_w s1) → hs_reg s1 = hs_reg s → hs_out s1 = hs_out s →
  ac_instanceUID st = ms_InstanceUid msg → ac_customerID st = customer_of c →
  (∃ row, agents (w_db (hs_w s1)) !! ac_agentID st = Some row ∧
     gr_CustomerID row = Some (customer_of c) ∧ gr_InstanceUID row = ms_InstanceUid msg) →
  ca_ViaAgentToken (authOf c) && match ca_AgentID (authOf c) with
    | Some id => negb (bool_decide (ac_agentID st = id)) | None => false end = false →
  sa_RemoteConfig resp = None →
  message_ok c s (serve cfg (Some c) (authOf c) msg now known newConn st resp s1).
Proof.
  intros Hok Hen Hreg Hout Hu Hc (row & Hrow & Hrc & Hru) Htok Hresp.
  destruct (serve_spec cfg (Some c) (authOf c) msg now known newConn st resp s1)
    as [Hs Hq]; [intros rc; by rewrite Hresp|].
  assert (Hok1 : hs_ok s1) by (by eapply hs_ok_enrolls).
  split.
  - eapply (hs_ok_serves_as s1); [done|exact Hs| |].
    + exists row. simpl. by rewrite Hc, Hu.
    + simpl. intros c' [= <-]. done.
  - destruct (sa_out _ _ _ Hs) as (new & En & Fn). exists new. rewrite <- Hout.
    split; [done|]. eapply Forall_impl; [exact Fn|]. auto.
  - rewrite <- Hc. exact Hq.
  - intros k r Hr. apply Hen in Hr. destruct (sa_row _ _ _ Hs) as [Hf _]. simpl in Hf.
    destruct (decide (k = ac_agentID st)) as [->|Hne]; [|left; by rewrite Hf].
    right. rewrite Hr in Hrow. injection Hrow as ->. split; [done|].
    intros Hv id Hid. rewrite Hv, Hid in Htok. simpl in Htok. by case_bool_decide.
Qed.

Lemma HandleMessage_spec c msg s :
  hs_ok s → message_ok c s (HandleMessage cfg (Some c) (authOf c) msg s).
Proof.
  intros Hok. unfold HandleMessage. case_bool_decide as Hu.
  { apply message_ok_quiet; [done|reflexivity|done|by apply emits_same|done]. }
  unfold mbind at 1, M_bind at 1. unfold now_ at 1, lift_op.
  destruct (time_Now (hs_w s)) as [rnow w1] eqn:En.
  assert (∃ now, rnow = inl now) as [now ->] by (injection En as <- _; eauto).
  assert (Hw1 : w_db w1 = w_db (hs_w s)) by (injection En as _ <-; done).
  set (s1 := s <| hs_w := w1 |>).
  assert (Hen1 : enrolls (hs_w s) (hs_w s1)) by (apply enrolls_same; simpl; by rewrite Hw1).
  assert (Hok1 : hs_ok s1) by (by eapply hs_ok_enrolls).
  unfold mbind at 1, M_bind at 1, mgets at 1. cbv zeta. unfold reg_get.
  fold (resolve_prev (Some c) (authOf c) msg (byUID (hs_reg s1) !! ms_InstanceUid msg)).
  destruct (resolve_prev_spec c msg s1 Hok1) as (r & s2 & Hs2 & Hen2 & Hreg & Hout & Hr).
  unfold mbind at 1, M_bind at 1. rewrite Hs2.
  assert (Hen : enrolls (hs_w s) (hs_w s2)) by (by etrans).
  destruct r as [st| |].
  - destruct (Hr st eq_refl) as (Hu' & Hc & Hrow).
    match goal with |- context [if ?b then _ else _] => destruct b eqn:Etok end.
    + apply message_ok_quiet; [done|done|done| |done].
      eexists. split; [simpl; by rewrite Hout|]. constructor; [by right|constructor].
    + by apply message_ok_serve.
  - apply message_ok_quiet; [done..|by apply emits_same|done].
  - apply message_ok_quiet; [done|done|done| |done].
    eexists. split; [simpl; by rewrite Hout|]. constructor; [by right|constructor].
Qed.

(** ** The other events *)

Definition frame_ok (o : output) : Prop :=
  match o with
  | Sent c m | SendFailed c m => rendered_for (customer_of c) m
  | _ => True
  end.

(** Rows and entries keep what the invariant is about; frames are in order. *)
Record quiet (s s' : hstate) : Prop := {
  q_rows : rows_kept (λ _, True) (hs_w s) (hs_w s');
  q_keyed : keyed gr_ID (agents (w_db (hs_w s))) → keyed gr_ID (agents (w_db (hs_w s')));
  q_reg : ∀ uid i, ident <$> byUID (hs_reg s') !! uid = Some i →
    ident <$> byUID (hs_reg s) !! uid = Some i;
  q_out : emits frame_ok s s';
}.

#[export] Instance quiet_preorder : PreOrder quiet.
Proof.
  split.
  - intros s. split; [intros k r; eauto|done|done|by apply emits_same].
  - intros s1 s2 s3 [R1 K1 G1 O1] [R2 K2 G2 O2]. split; [|auto|auto|by eapply emits_trans].
    intros k r Hr _. destruct (R1 k r Hr I) as (r1 & Hr1 & ? & ?).
    destruct (R2 k r1 Hr1 I) as (r2 & ? & ? & ?). exists r2. split_and!; congruence.
Qed.

Lemma hs_ok_quiet s s' : hs_ok s → quiet s s' → hs_ok s'.
Proof.
  intros [Hk He] [Hr Hk' Hg _]. split; [auto|]. intros uid i Hi%Hg.
  eapply entry_ok_kept; [exact Hr|done|]. by apply He.
Qed.

Lemma quiet_call {A} id (m : Op A) s :
  steps (agent_frame id) m → quiet s (call_log m s).2.
Proof.
  intros Hm. specialize (Hm (hs_w s)). unfold call_log, call_st, mbind, M_bind.
  destruct (m (hs_w s)) as [r w]. simpl in *.
  split; [by eapply frame_kept|by eapply frame_keyed|done|by apply emits_same].
Qed.

Lemma quiet_emit o s : frame_ok o → quiet s (emit o s).2.
Proof.
  intros Ho. split; [intros k r; eauto|done|done|]. exists [o]. by repeat constructor.
Qed.

Lemma removeConn_spec c r st r' :
  removeConn c r = (st, r') →
  (∀ uid st', byUID r' !! uid = Some st' → byUID r !! uid = Some st').
Proof.
  unfold removeConn. destruct (byConn r !! c) as [key|]; [|by intros [= _ <-]]. simpl.
  destruct (byUID r !! key) as [st0|]; [|by intros [= _ <-]].
  case_bool_decide; intros [= _ <-]; simpl; [|done].
  intros uid st'. by rewrite lookup_delete_Some; intros [_ ?].
Qed.

Lemma close_quiet c s : quiet s (HandleConnectionClose cfg c s).2.
Proof.
  unfold HandleConnectionClose, mbind, M_bind.
  destruct (removeConn c (hs_reg s)) as [o r'] eqn:Er.
  assert (H1 : quiet s (s <| hs_reg := r' |>)).
  { split; [intros k r; eauto|done| |by apply emits_same]. simpl. intros uid i.
    rewrite !fmap_Some. intros (st & Hst & ->). exists st. split; [|done].
    by eapply removeConn_spec. }
  destruct o as [st|]; [|exact H1]. case_bool_decide; [exact H1|].
  assert (H2 : ∀ t s2, quiet s s2 → quiet s (
    (call_log (SetAgentConnected (ac_agentID st) false t);;
     emitEvent cfg WebhookEventAgentOffline (ac_agentID st) (ac_customerID st) None) s2).2).
  { intros t s2 Hs2. unfold mbind, M_bind.
    pose proof (quiet_call (ac_agentID st) _ s2 (frame_SetAgentConnected _ false t)) as Hc.
    destruct (call_log _ s2) as [[u|e] s3]; simpl in Hc; [|by etrans].
    etrans; [exact Hs2|]. etrans; [exact Hc|].
    unfold emitEvent. destruct (has_sink cfg); [by apply quiet_emit|reflexivity]. }
  case_bool_decide; [|by apply H2]. unfold now_, lift_op.
  destruct (time_Now _) as [rt w1] eqn:En.
  assert (∃ t, rt = inl t) as [t ->] by (injection En as <- _; eauto). apply H2.
  etrans; [exact H1|]. injection En as _ <-.
  split; [intros k r; eauto|done|done|by apply emits_same].
Qed.

(** A push: the agents it is for are those of the customer. *)
Lemma push_quiet cid desired st n s :
  (∀ c, ac_conn st = Some c → customer_of c = cid) →
  (∃ w w', RenderEdgeCurrent cid w = (inl desired, w')) →
  quiet s (push desired (Sha256.Sum256 desired) n st s).2.
Proof.
  intros Hc (w & w' & Hw). unfold push. destruct (negb _); [reflexivity|].
  unfold mbind at 1, M_bind at 1.
  pose proof (quiet_call (ac_agentID st) _ s
    (frame_SetAgentAssignedConfig _ (Some (Sha256.Sum256 desired)))) as Hq.
  destruct (call_log _ s) as [[u|e] s1]; simpl in Hq; [|done].
  etrans; [exact Hq|]. destruct (ac_conn st) as [c|]; [|reflexivity].
  unfold mbind, M_bind, mgets.
  assert (Hf : rendered_for (customer_of c) {| sa_InstanceUid := ac_instanceUID st;
    sa_Capabilities := serverCapabilities; sa_Flags := ReportFullState;
    sa_ErrorResponse := None; sa_RemoteConfig := Some (remoteConfig desired (Sha256.Sum256 desired));
    sa_ConnectionSettings := None |}).
  { intros rc [= <-]. rewrite (Hc c eq_refl). eauto. }
  cbv zeta. destruct (send_ok _ _); by apply (quiet_emit (_ c _)).
Qed.

Lemma push_all_quiet cid desired l n s :
  (∀ st c, st ∈ l → ac_conn st = Some c → customer_of c = cid) →
  (∃ w w', RenderEdgeCurrent cid w = (inl desired, w')) →
  quiet s (push_all desired (Sha256.Sum256 desired) l n s).2.
Proof.
  intros Hl Hw. revert n s Hl; induction l as [|st l IH]; intros n s Hl; [reflexivity|].
  cbn [push_all]. unfold mbind, M_bind.
  pose proof (push_quiet cid desired st n s (λ c, Hl st c ltac:(left)) Hw) as Hq.
  destruct (push _ _ n st s) as [[m|e] s1]; simpl in Hq; [|done].
  etrans; [exact Hq|]. apply IH. intros st' c Hin. apply Hl. by right.
Qed.

Lemma call_readonly_quiet {A} (m : Op A) s : readonly m → quiet s (call_st m s).2.
Proof.
  intros Hm. specialize (Hm (hs_w s)). unfold call_st. destruct (m (hs_w s)) as [r w].
  simpl in Hm. split; simpl; [|by rewrite Hm|done|by apply emits_same].
  intros k row Hr _. exists row. by rewrite Hm.
Qed.

Lemma edge_quiet cid s : hs_ok s → quiet s (EdgeConfigChanged cid s).2.
Proof.
  intros Hok. unfold EdgeConfigChanged. unfold mbind at 1, M_bind at 1, call_st at 1.
  pose proof (call_readonly_quiet _ s (RenderEdgeCurrent_readonly cid)) as Hq.
  unfold call_st in Hq. destruct (RenderEdgeCurrent cid (hs_w s)) as [[desired|e] w1] eqn:Er;
    simpl in Hq; [|done].
  etrans; [exact Hq|]. cbv zeta. unfold mbind at 1, M_bind at 1, mgets.
  unfold mbind at 1, M_bind at 1.
  match goal with |- context [push_all ?d ?h ?l ?n ?s1] =>
    pose proof (push_all_quiet cid d l n s1) as Hp end.
  destruct (push_all _ _ _ _ _) as [[p|e] s2]; simpl in Hp.
  - etrans; [apply Hp|].
    + intros st c. unfold connsForCustomer. simpl. intros [[Hc _] Hin]%list_elem_of_filter Hconn.
      apply elem_of_rows in Hin as [uid Hst].
      destruct (ok_entry _ Hok uid (ident st)) as (_ & He & _); [by rewrite Hst|].
      by rewrite (He c Hconn).
    + eauto.
    + unfold mbind, M_bind. match goal with |- context [call_st ?m s2] =>
        pose proof (call_readonly_quiet m s2) as Hl end.
      destruct (call_st _ s2) as [[[a|e]|e] s3]; simpl in *; apply Hl; atomic_tac.
  - apply Hp; [|by eauto]. intros st c. unfold connsForCustomer. simpl.
    intros [[Hc _] Hin]%list_elem_of_filter Hconn. apply elem_of_rows in Hin as [uid Hst].
    destruct (ok_entry _ Hok uid (ident st)) as (_ & He & _); [by rewrite Hst|].
    by rewrite (He c Hconn).
Qed.

Lemma TouchAgents_rows seen w :
  rows_kept (λ _, True) w (TouchAgents seen w).2 ∧
  (keyed gr_ID (agents (w_db w)) → keyed gr_ID (agents (w_db (TouchAgents seen w).2))).
Proof.
  unfold TouchAgents. case_bool_decide; [split; [intros k r; eauto|done]|].
  unfold exec, stmt, fail_stmt, mbind, M_bind.
  destruct (fault _ || _); [split; [intros k r; eauto|done]|]. simpl. split.
  - intros k r Hr _. simpl. rewrite map_lookup_imap, Hr. simpl. eexists. split; [reflexivity|].
    by destruct (seen !! k).
  - intros Hk. apply keyed_imap; [done|]. intros k r. by destruct (seen !! k).
Qed.

Lemma flush_event_quiet s : quiet s (FlushSeen s).2.
Proof.
  unfold FlushSeen. unfold mbind at 1, M_bind at 1.
  destruct (drainDirtySeen (hs_reg s)) as [seen r'] eqn:Er. cbn beta iota.
  assert (H1 : quiet s (s <| hs_reg := r' |>)).
  { split; [intros k r; eauto|done| |by apply emits_same]. injection Er as _ <-. simpl.
    intros uid i. rewrite lookup_fmap, <- option_fmap_compose. intros <-.
    apply option_fmap_ext. intros st. unfold compose. by destruct (_ && _). }
  case_bool_decide; [exact H1|]. etrans; [exact H1|].
  destruct (TouchAgents_rows seen (hs_w s)) as [Hr Hk].
  unfold call_log, call_st, mbind, M_bind. simpl.
  destruct (TouchAgents seen (hs_w s)) as [r w]. simpl in *.
  split; [done|done|done|by apply emits_same].
Qed.

(** A row of a table in which one row was rewritten. *)
Ltac row_tac :=
  match goal with
  | Hr : ?t !! ?aid = Some ?row |- ∃ r', <[?key := ?v]> ?t !! ?aid = Some r' ∧ _ =>
    destruct (decide (aid = key)) as [->|Hne];
    [exists v; rewrite lookup_insert_eq; simplify_eq; try by split_and!
    |exists row; by rewrite lookup_insert_ne]
  end.

(** A store call keeps the rows of the agents it does not delete. *)
Lemma call_rows c w u w' :
  run_call c w = (inl u, w') →
  rows_kept (λ k, ∀ es, c ≠ CallDeleteAgent k es) w w' ∧
  (keyed gr_ID (agents (w_db w)) → keyed gr_ID (agents (w_db w'))).
Proof.
  intros Hc. unfold rows_kept. destruct c; call_inv Hc; simpl;
    (split; [intros aid row Hr Hdel|intros Hk]); eauto 6 with keyed; try row_tac.
  - (* EnrollAgent *) match goal with Hx : checks _ = None |- _ => apply agent_checks in Hx end.
    congruence.
  - match goal with Hx : checks _ = None |- _ => apply agent_checks in Hx end. congruence.
  - (* DeleteAgent *) exists row. rewrite lookup_delete_ne; [done|]. intros <-. by eapply Hdel.
  - (* TouchAgents *) rewrite map_lookup_imap, Hr. simpl. eexists. split; [reflexivity|].
    by destruct (seen !! aid).
Qed.

Lemma hs_ok_call c s :
  hs_ok s → delete_allowed c s → hs_ok (s <| hs_w := (run_call c (hs_w s)).2 |>).
Proof.
  intros [Hk He] Hdel. destruct (run_call c (hs_w s)) as [[u|e] w'] eqn:Ec; simpl.
  - destruct (call_rows c (hs_w s) u w' Ec) as [Hr Hk']. split; simpl; [auto|].
    intros uid i Hi. eapply entry_ok_kept; [exact Hr| |by apply He].
    pose proof (He uid i Hi) as Hent. destruct i as [[[conn u'] aid] cid].
    destruct Hent as (-> & _ & r & Hrow & _ & Hru). simpl. intros es ->.
    specialize (Hdel r Hrow). rewrite Hru in Hdel. unfold isConnected in Hdel.
    by destruct (byUID (hs_reg s) !! uid).
  - apply atomic_run_call in Ec. split; simpl; [by rewrite Ec|].
    intros uid i Hi. rewrite Ec. by apply He.
Qed.

End Message.

(** ** Every step *)

Lemma frames_after ENV TRANSPORT ev s :
  hs_ok s → emits frame_ok s (run_event ENV TRANSPORT ev s).2.
Proof.
  intros Hok. destruct ev as [c msg|c|cid|].
  - destruct (HandleMessage_spec c msg s Hok) as [_ Ho Hr _]. unfold run_event, mbind, M_bind.
    assert (Hf : ∀ s', emits (λ o, is_event o ∨ o = Disconnected c) s s' → emits frame_ok s s').
    { intros s' (new & E & F). exists new. split; [done|]. eapply Forall_impl; [exact F|].
      intros o. by destruct o; intros [?|?]. }
    destruct (HandleMessage _ _ _ _ s) as [[resp|e] s']; simpl in *; [|auto].
    eapply emits_trans; [apply Hf, Ho|]. exists [Sent c resp]. split; [done|].
    repeat constructor. by apply Hr.
  - by destruct (close_quiet c s).
  - destruct (edge_quiet cid s Hok) as [_ _ _ Ho]. unfold run_event, mbind, M_bind.
    by destruct (EdgeConfigChanged cid s) as [[[]|] s'].
  - by destruct (flush_event_quiet s).
Qed.

Lemma hs_ok_step s s' : ostep s s' → hs_ok s → hs_ok s'.
Proof.
  intros [ENV TRANSPORT ev|ENV c Hdel] Hok; [|by apply hs_ok_call].
  destruct ev as [c msg|c|cid|]; unfold run_event.
  - destruct (HandleMessage_spec c msg s Hok) as [Hok' _ _ _]. unfold mbind, M_bind.
    destruct (HandleMessage _ _ _ _ s) as [[resp|e] s2]; [|done].
    destruct Hok' as [Hk He]. by split.
  - eapply hs_ok_quiet; [exact Hok|apply close_quiet].
  - assert (Hq := edge_quiet cid s Hok). eapply hs_ok_quiet in Hq; [|exact Hok].
    unfold mbind, M_bind. by destruct (EdgeConfigChanged cid s) as [[[]|] s2].
  - eapply hs_ok_quiet; [exact Hok|apply flush_event_quiet].
Qed.

(** A server that has just started on the tables of [w]. *)
Definition started (w : world) : hstate := {| hs_w := w; hs_reg := newRegistry; hs_out := [] |}.

Lemma agents_keyed_history w : rtc step world_init w → keyed gr_ID (agents (w_db w)).
Proof.
  intros Hw. eapply (history_inv (λ d, keyed gr_ID (agents d))); [|exact Hw|done].
  intros ENV c w1 u w2 Hc. by apply (call_rows c w1 u w2 Hc).
Qed.

Lemma hs_ok_run w s : rtc step world_init w → rtc ostep (started w) s → hs_ok s.
Proof.
  intros Hw Hs. assert (H0 : hs_ok (started w)).
  { split; simpl; [by apply agents_keyed_history|]. intros uid i. by rewrite lookup_empty. }
  revert H0. induction Hs as [|s1 s2 s3 Hstep _ IH]; [done|]. intros Hok.
  by apply IH, (hs_ok_step s1).
Qed.

(** ** Theorems *)

(** C14: customer isolation of configurations.  Along every run of the server -
    messages, pushes, closed connections, flushes and store calls in any order,
    with any failures - every frame on a connection that carries a
    configuration carries one that was rendered for the customer whose token
    the connection presented. *)
Theorem configs_reach_only_their_customer (w : world) (s : hstate) :
  rtc step world_init w → rtc ostep (started w) s →
  ∀ c m, Sent c m ∈ hs_out s ∨ SendFailed c m ∈ hs_out s → rendered_for (customer_of c) m.
Proof.
  intros Hw Hs. assert (Hf : Forall frame_ok (hs_out s)).
  { assert (H0 : hs_ok (started w)) by (by eapply hs_ok_run; [|apply rtc_refl]).
    assert (Hf0 : Forall frame_ok (hs_out (started w))) by constructor.
    revert H0 Hf0. induction Hs as [|s1 s2 s3 Hstep _ IH]; [done|]. intros Hok Hf.
    apply IH; [by eapply hs_ok_step|]. destruct Hstep as [ENV TRANSPORT ev|]; [|done].
    destruct (frames_after ENV TRANSPORT ev s1 Hok) as (new & -> & Fn). by apply Forall_app. }
  rewrite Forall_forall in Hf. intros c m [H|H]; exact (Hf _ H).
Qed.

(** C15: customer isolation of agents.  A message changes no existing agent row
    but those of the connection's own customer, and on a connection
    authenticated with an agent token only the row of that agent. *)
Theorem messages_change_only_own_agents (ENV : Env) (TRANSPORT : Transport) (w : world)
    (s : hstate) (c : connection) (msg : AgentToServer) :
  rtc step world_init w → rtc ostep (started w) s →
  only_own c (hs_w s) (hs_w (run_event ENV TRANSPORT (EvMessage c msg) s).2).
Proof.
  intros Hw Hs. pose proof (hs_ok_run w s Hw Hs) as Hok.
  destruct (HandleMessage_spec c msg s Hok) as [_ _ _ Ho]. unfold run_event, mbind, M_bind.
  by destruct (HandleMessage _ _ _ _ s) as [[resp|e] s'].
Qed.

End Safety.

(** ** Concrete runs *)

Definition opamp_calls : list call :=
  customer_calls ++
  [CallCreateBootstrapToken {| nbt_ID := 7; nbt_CustomerID := 1; nbt_Name := "t";
     nbt_TokenPrefix := "otm_bt_0a"; nbt_TokenHash := "h"; nbt_MaxUses := 0;
     nbt_CreatedBy := None; nbt_ExpiresAt := 1000 |} []].

Definition opamp_world : world := run_quiet opamp_calls world_init.

#[global] Program Definition example_render : ConfigRenderer := {|
  RenderEdgeCurrent c := mret ("config of " +:+ uuid_String c) |}.
Next Obligation. done. Qed.

Definition always_send : Transport := {| send_ok := λ _ _, true |}.
Definition example_cfg : HandlerCfg := {| publicEndpoint := ""; has_sink := true |}.

(** Every connection presented the bootstrap token of customer 1. *)
Definition example_auth (_ : connection) : ConnAuth := {|
  ca_TokenID := 7; ca_CustomerID := 1; ca_AgentID := None; ca_ViaAgentToken := false |}.

Definition hello (uid : string) : AgentToServer := {|
  ms_InstanceUid := uid; ms_Capabilities := 2;
  ms_AgentDescription := Some {| ad_identifying := [("service.name", AStr "otelcol")];
                                 ad_nonIdentifying := [] |};
  ms_RemoteConfigStatus := None; ms_EffectiveConfig := None; ms_Health := None |}.

Definition run_events (evs : list event) (s : hstate) : hstate :=
  fold_left (λ s ev, (@run_event opamp_spec example_render example_cfg example_auth
                        quiet_env always_send ev s).2) evs s.

Lemma run_events_steps evs s :
  rtc (@ostep opamp_spec example_render example_cfg example_auth) s (run_events evs s).
Proof.
  revert s; induction evs as [|ev evs IH]; intros s; [apply rtc_refl|].
  eapply rtc_l; [|apply IH]. apply os_event.
Qed.

(** Enrolled, offered the configuration of customer 1, pushed it once more. *)
Lemma configs_reach_only_their_customer_witness :
  let s := run_events [EvMessage 3 (hello "u1"); EvPush 1] (started opamp_world) in
  ∃ m m', hs_out s = [Sent 3 m; Sent 3 m'] ∧
    is_some (sa_RemoteConfig m) = true ∧ is_some (sa_RemoteConfig m') = true ∧
    @rendered_for example_render 1 m ∧ @rendered_for example_render 1 m'.
Proof.
  intros s. eexists _, _. split; [vm_compute; reflexivity|].
  split; [reflexivity|]. split; [reflexivity|].
  split; apply (@configs_reach_only_their_customer opamp_spec example_render example_cfg
    example_auth opamp_world s (run_quiet_steps opamp_calls world_init)
    (run_events_steps _ _) 3);
    left; vm_compute; [left|right; left].
Defined.

Lemma messages_change_only_own_agents_witness :
  let s := run_events [EvMessage 3 (hello "u1")] (started opamp_world) in
  only_own example_auth 4 (hs_w s)
    (hs_w (@run_event opamp_spec example_render example_cfg example_auth quiet_env always_send
             (EvMessage 4 (hello "u2")) s).2).
Proof.
  intros s. apply (@messages_change_only_own_agents opamp_spec example_render example_cfg
    example_auth quiet_env always_send opamp_world s 4 (hello "u2")).
  - apply run_quiet_steps.
  - apply run_events_steps.
Defined.

(** A connection that changes its instance UID leaves the first agent
    behind: after the connection is closed the registry still holds it, its
    row still says connected, and no closing connection removes it. *)
Theorem instance_switch_leaks :
  let s := run_events [EvMessage 3 (hello "u1"); EvMessage 3 (hello "u2"); EvClose 3]
             (started opamp_world) in
  isConnected "u1" (hs_reg s) = true ∧
  (∃ r, find_row (λ r, bool_decide (gr_InstanceUID r = "u1")) (agents (w_db (hs_w s))) = Some r ∧
     gr_Connected r = true) ∧
  ∀ c, isConnected "u1" (removeConn c (hs_reg s)).2 = true.
Proof.
  intros s. assert (Hc : byConn (hs_reg s) = ∅) by (vm_compute; reflexivity).
  split; [vm_compute; reflexivity|]. split.
  - eexists. split; [vm_compute; reflexivity|reflexivity].
  - intros c. unfold removeConn. rewrite Hc, lookup_empty. vm_compute. reflexivity.
Qed.
