(* ===== verification/OpampAuth.v ===== *)
(** * Who may connect over OpAMP

    What an accepted Authorization header rests on, and that the agent token
    the handler offers is one the server then accepts. *)
From S2P Require Import Prelude GoStrings Store World PgCore PgUsers PgFleet PgPipelines PgMisc StoreCalls StoreInv StoreProps Tokens OpAMP OpampHandler OpampProps OpampSafety.

(** The agent token in force for an agent of an active customer. *)
Record live_agent_token (d : db) (token : string) (id cid : uuid) : Prop := {
  lat_row : ∃ k r c, agents d !! k = Some r ∧ gr_ID r = id ∧
    gr_TokenHash r = Some (HashAPIKey token) ∧ gr_CustomerID r = Some cid ∧
    customers d !! cid = Some c ∧ c_Status c = CustomerActive;
}.

(** A bootstrap token that may enroll at [now]. *)
Record live_bootstrap_token (d : db) (now : time) (token : string) (tid cid : uuid) : Prop := {
  lbt_row : ∃ k t c, bootstrap_tokens d !! k = Some t ∧ bt_ID t = tid ∧ bt_CustomerID t = cid ∧
    bt_TokenHash t = HashAPIKey token ∧ bt_RevokedAt t = None ∧ (now < bt_ExpiresAt t)%Z ∧
    ((bt_MaxUses t ≤ 0)%Z ∨ (bt_UsedCount t < bt_MaxUses t)%Z) ∧
    customers d !! cid = Some c ∧ c_Status c = CustomerActive;
}.

Section OpampAuth.
Context {ENV : Env}.

Lemma AgentsByTokenPrefix_inv prefix w l w' a :
  AgentsByTokenPrefix prefix w = (inl l, w') → a ∈ l →
  ∃ k r c, agents (w_db w) !! k = Some r ∧ gr_ID r = aa_AgentID a ∧
    gr_TokenHash r = aa_TokenHash a ∧ gr_CustomerID r = Some (aa_CustomerID a) ∧
    customers (w_db w) !! aa_CustomerID a = Some c ∧ c_Status c = aa_CustomerStatus a.
Proof.
  intros [-> _]%query_inl (r & Hr & Hf)%list_elem_of_omap. apply elem_of_rows in Hr as [k Hr].
  case_bool_decide; [|done]. apply bind_Some in Hf as (cid & Hcid & Hf).
  apply bind_Some in Hf as (c & Hc & Hf). destruct (not_deleted c); [|done].
  injection Hf as <-. simpl. eauto 10.
Qed.

Lemma ActiveBootstrapTokensByPrefix_inv prefix w l w' t :
  ActiveBootstrapTokensByPrefix prefix w = (inl l, w') → t ∈ l →
  ∃ k b c, bootstrap_tokens (w_db w) !! k = Some b ∧ bt_ID b = et_TokenID t ∧
    bt_CustomerID b = et_CustomerID t ∧ bt_TokenHash b = et_TokenHash t ∧
    bt_RevokedAt b = None ∧ bt_ExpiresAt b = et_ExpiresAt t ∧ bt_MaxUses b = et_MaxUses t ∧
    bt_UsedCount b = et_UsedCount t ∧
    customers (w_db w) !! et_CustomerID t = Some c ∧ c_Status c = et_CustomerStatus t.
Proof.
  intros [-> _]%query_inl (b & Hb & Hf)%list_elem_of_omap. apply elem_of_rows in Hb as [k Hb].
  destruct (_ && _) eqn:E; [|done]. apply andb_true_iff in E as [_ Hr].
  apply bind_Some in Hf as (c & Hc & Hf). injection Hf as <-. simpl.
  exists k, b, c. split_and!; try done. unfold is_none, is_some in Hr. by destruct (bt_RevokedAt b).
Qed.

Lemma TokenUsable_None t now :
  TokenUsable t now = None →
  (now < et_ExpiresAt t)%Z ∧ ((et_MaxUses t ≤ 0)%Z ∨ (et_UsedCount t < et_MaxUses t)%Z) ∧
  et_CustomerStatus t = CustomerActive.
Proof.
  unfold TokenUsable. destruct (negb _) eqn:E1; [done|].
  apply negb_false_iff, Z.ltb_lt in E1. destruct (_ && _) eqn:E2; [done|].
  case_bool_decide; [|done]. intros _. split_and!; [done| |done].
  apply andb_false_iff in E2 as [?%Z.ltb_ge|?%Z.leb_gt]; auto.
Qed.

Lemma list_find_elem {A} (P : A → Prop) `{!∀ x, Decision (P x)} l i x :
  list_find P l = Some (i, x) → x ∈ l ∧ P x.
Proof. intros (Hl & HP & _)%list_find_Some. split; [by eapply list_elem_of_lookup_2|done]. Qed.

Lemma authenticateAgentToken_inv prefix token w auth w' :
  authenticateAgentToken prefix token w = (inl auth, w') →
  ca_ViaAgentToken auth = true ∧ ca_TokenID auth = 0%N ∧
  ∃ id, ca_AgentID auth = Some id ∧ live_agent_token (w_db w) token id (ca_CustomerID auth).
Proof.
  unfold authenticateAgentToken. intros (l & w1 & Hl%wrapErr_inl & H)%bind_inl.
  destruct (list_find _ l) as [[i a]|] eqn:Ef; [|done]. apply list_find_elem in Ef as [Hin Hh].
  case_bool_decide as Hact; [|done]. apply ret_inl in H as [<- _]. simpl.
  split; [done|]. split; [done|]. exists (aa_AgentID a). split; [done|].
  destruct (AgentsByTokenPrefix_inv _ _ _ _ _ Hl Hin) as (k & r & c & ? & ? & ? & ? & ? & ?).
  split. exists k, r, c. split_and!; congruence.
Qed.

Lemma authenticateBootstrapToken_inv prefix token w auth w' :
  authenticateBootstrapToken prefix token w = (inl auth, w') →
  ca_ViaAgentToken auth = false ∧ ca_AgentID auth = None ∧
  ∃ now, live_bootstrap_token (w_db w) now token (ca_TokenID auth) (ca_CustomerID auth) ∧
    now = clock (w_tick w + 1).
Proof.
  unfold authenticateBootstrapToken. intros (l & w1 & Hl%wrapErr_inl & H)%bind_inl.
  destruct (list_find _ l) as [[i t]|] eqn:Ef; [|done]. apply list_find_elem in Ef as [Hin Hh].
  pose proof Hl as [_ Hw1]%query_inl.
  apply bind_inl in H as (now & w2 & Hn & H). destruct (TokenUsable t now) eqn:Eu; [done|].
  apply ret_inl in H as [<- _]. apply TokenUsable_None in Eu as (He & Hm & Hact). simpl.
  split; [done|]. split; [done|]. exists now.
  destruct (ActiveBootstrapTokensByPrefix_inv _ _ _ _ _ Hl Hin)
    as (k & b & c & ? & ? & ? & ? & ? & Hx & Hmu & Huc & ? & ?).
  split.
  - split. exists k, b, c. rewrite Hx, Hmu, Huc. split_and!; congruence || done.
  - injection Hn as <- _. rewrite Hw1. simpl. f_equal. lia.
Qed.

(** ** Theorems *)

(** C16: an accepted OpAMP connection.  The header is a bearer token; with an
    agent token the connection is bound to the one agent whose stored hash it
    matches and to that agent's customer; with a bootstrap token, to the
    customer of a stored token that is not revoked, not expired and not used
    up.  Either way the customer is active. *)
Theorem opamp_Authenticate_sound (header : string) (w : world) auth w' :
  Authenticate header w = (inl auth, w') →
  let token := TrimPrefix header "Bearer " in
  HasPrefix "Bearer " header = true ∧
  (ca_ViaAgentToken auth = true ∧ ca_TokenID auth = 0%N ∧
     (∃ id, ca_AgentID auth = Some id ∧ live_agent_token (w_db w) token id (ca_CustomerID auth))
   ∨ ca_ViaAgentToken auth = false ∧ ca_AgentID auth = None ∧
     live_bootstrap_token (w_db w) (clock (w_tick w + 1)) token
       (ca_TokenID auth) (ca_CustomerID auth)).
Proof.
  unfold Authenticate. cbv zeta. set (token := TrimPrefix header "Bearer ").
  destruct (HasPrefix "Bearer " header); simpl; [|done]. case_bool_decide; [done|].
  intros Ha. split; [done|]. destruct (ParseAgentTokenPrefix token) as [p|].
  - left. by eapply authenticateAgentToken_inv.
  - destruct (ParseBootstrapTokenPrefix token) as [p|]; [|done]. right.
    apply authenticateBootstrapToken_inv in Ha as (? & ? & now & ? & ->). done.
Qed.

End OpampAuth.

(** ** The offered token *)

(** The Authorization value in an offer. *)
Definition offered_header (m : ServerToAgent) : option string :=
  cs ← sa_ConnectionSettings m;
  match cs_Headers cs with [(k, v)] => if bool_decide (k = "Authorization") then Some v else None
  | _ => None end.

Lemma substring_all n x : String.length x ≤ n → String.substring 0 n x = x.
Proof.
  revert n; induction x as [|a x IH]; intros [|n] Hn; simpl in *; try done; [lia|].
  by rewrite IH by lia.
Qed.

Lemma TrimPrefix_bearer x : TrimPrefix ("Bearer " +:+ x) "Bearer " = x.
Proof. unfold TrimPrefix. simpl. apply substring_all. change ("" +:+ x) with x. lia. Qed.

Section Offer.
Context {ENV : Env}.

Lemma SetAgentToken_inl id p h t w u w' :
  SetAgentToken id p h t w = (inl u, w') →
  customers (w_db w') = customers (w_db w) ∧ w_aborted w = false ∧ w_aborted w' = false ∧
  ∀ r, agents (w_db w) !! id = Some r →
    agents (w_db w') !! id = Some (r <| gr_TokenPrefix := Some p |> <| gr_TokenHash := Some h |>
                                     <| gr_TokenIssuedAt := Some t |>).
Proof.
  unfold SetAgentToken, update_agent. intros (n & w1 & H & [_ <-]%ret_inl)%bind_inl.
  apply stmt_inl in H as (d & Hd & Hf & ->). simpl. apply orb_false_iff in Hf as [_ Hab].
  destruct (agents (w_db w) !! id) as [r|] eqn:Er; injection Hd as <- _; simpl;
    (split_and!; [done..|]); [|done].
  intros r' [= <-]. by rewrite lookup_insert_eq.
Qed.

Lemma AgentsByTokenPrefix_complete prefix w k r c cid :
  fault (w_tick w) || w_aborted w = false →
  agents (w_db w) !! k = Some r → gr_TokenPrefix r = Some prefix →
  gr_CustomerID r = Some cid → customers (w_db w) !! cid = Some c → c_Status c = CustomerActive →
  ∃ l w', AgentsByTokenPrefix prefix w = (inl l, w') ∧
    {| aa_AgentID := gr_ID r; aa_CustomerID := cid; aa_InstanceUID := gr_InstanceUID r;
       aa_TokenHash := gr_TokenHash r; aa_CustomerStatus := c_Status c |} ∈ l.
Proof.
  intros Hf Hr Hp Hcid Hc Hst. unfold AgentsByTokenPrefix, query, stmt. rewrite Hf.
  eexists _, _. split; [reflexivity|]. apply list_elem_of_omap. exists r.
  split; [apply elem_of_rows; eauto|]. rewrite bool_decide_true by done. rewrite Hcid. simpl.
  rewrite Hc. simpl. unfold not_deleted. rewrite Hst. done.
Qed.

(** Authenticating with the token of one agent's row. *)
Lemma Authenticate_agent (gen : GeneratedKey) w k r c cid :
  ParseAgentTokenPrefix (g_Secret gen) = Some (g_Prefix gen) →
  fault (w_tick w) || w_aborted w = false → g_Secret gen ≠ "" →
  agents (w_db w) !! k = Some r → gr_TokenPrefix r = Some (g_Prefix gen) →
  gr_TokenHash r = Some (HashAPIKey (g_Secret gen)) → gr_CustomerID r = Some cid →
  customers (w_db w) !! cid = Some c → c_Status c = CustomerActive →
  (∀ k' r', agents (w_db w) !! k' = Some r' →
     gr_TokenHash r' = Some (HashAPIKey (g_Secret gen)) →
     gr_ID r' = gr_ID r ∧ gr_CustomerID r' = gr_CustomerID r) →
  (Authenticate ("Bearer " +:+ g_Secret gen) w).1
  = inl {| ca_TokenID := 0%N; ca_CustomerID := cid; ca_AgentID := Some (gr_ID r);
           ca_ViaAgentToken := true |}.
Proof.
  intros Hp Hf Hne Hr Hpre Hh Hcid Hc Hst Huniq. unfold Authenticate.
  rewrite TrimPrefix_bearer, Hp. rewrite (bool_decide_false _ Hne). simpl.
  unfold authenticateAgentToken.
  destruct (AgentsByTokenPrefix_complete _ w k r c cid Hf Hr Hpre Hcid Hc Hst)
    as (l & w' & Hl & Hin).
  unfold wrapErr, mtry, mbind, M_bind. rewrite Hl. cbn beta iota. simpl.
  edestruct (list_find_elem_of (λ a, aa_TokenHash a = Some (HashAPIKey (g_Secret gen))) l)
    as [[i a] Ef]; [exact Hin|exact Hh|].
  rewrite Ef. apply list_find_elem in Ef as [Hal Hah].
  destruct (AgentsByTokenPrefix_inv _ _ _ _ _ Hl Hal)
    as (k' & r' & c' & Hr' & Hid & Hth & Hc' & Hcu & Hs').
  rewrite Hah in Hth. destruct (Huniq k' r' Hr' Hth) as [Eid Ecid].
  assert (aa_CustomerID a = cid) as Ecu by congruence. rewrite Ecu in *.
  rewrite bool_decide_true by congruence. simpl. by rewrite <- Hid, Eid.
Qed.

Lemma call_st_inl {A} (m : Op A) s r s1 :
  call_st m s = (inl r, s1) → m (hs_w s) = (r, hs_w s1).
Proof. unfold call_st. destruct (m (hs_w s)). by intros [= -> <-]. Qed.

(** An offer was made, or the response's settings are as they were. *)
Lemma maybeOfferAgentToken_inl {PROTO : OpampProto} cfg st resp s resp' s' :
  maybeOfferAgentToken cfg st resp s = (inl resp', s') →
  sa_ConnectionSettings resp' = sa_ConnectionSettings resp ∨
  ∃ gen w1 w2 t u, GenerateAgentToken (hs_w s) = (inl gen, w1) ∧ w_db w2 = w_db w1 ∧
    SetAgentToken (ac_agentID st) (g_Prefix gen) (g_Hash gen) t w2 = (inl u, hs_w s') ∧
    offered_header resp' = Some ("Bearer " +:+ g_Secret gen).
Proof.
  unfold maybeOfferAgentToken. destruct (ac_tokenOffered st); [by intros [<- _]%ret_inl; left|].
  destruct (negb _); [by intros [<- _]%ret_inl; left|].
  intros (r & s1 & Hg%call_st_inl & H)%bind_inl.
  destruct r as [gen|e]; [|by apply ret_inl in H as [<- _]; left].
  apply bind_inl in H as (t & s2 & Ht & H). injection Ht as _ <-.
  apply bind_inl in H as (r & s3 & Hs%call_st_inl & H).
  destruct r as [u|e]; [|by apply ret_inl in H as [<- _]; left].
  apply bind_inl in H as (st' & s4 & Hst & [<- <-]%ret_inl). injection Hst as _ <-.
  right. eexists gen, (hs_w s1), _, t, u. split_and!; [exact Hg| |exact Hs|done]. done.
Qed.

End Offer.

(** C29: The token offered to an agent is in force.  When [maybeOfferAgentToken]
    attaches connection settings, a connection that presents the header it
    sent is accepted as exactly that agent of its customer, provided the
    customer is active, the database answers, and no other agent's token has
    the same SHA-256. *)
Theorem offered_token_authenticates (ENV : Env) (PROTO : OpampProto) (cfg : HandlerCfg)
    (st : agentConn) (resp resp' : ServerToAgent) (s s' : hstate) (h : string)
    (r : AgentRow) (c : Customer) :
  maybeOfferAgentToken cfg st resp s = (inl resp', s') →
  sa_ConnectionSettings resp = None → offered_header resp' = Some h →
  agents (w_db (hs_w s)) !! ac_agentID st = Some r → gr_ID r = ac_agentID st →
  gr_CustomerID r = Some (ac_customerID st) →
  customers (w_db (hs_w s)) !! ac_customerID st = Some c → c_Status c = CustomerActive →
  fault (w_tick (hs_w s')) = false →
  (∀ k r', agents (w_db (hs_w s')) !! k = Some r' →
     gr_TokenHash r' = Some (HashAPIKey (TrimPrefix h "Bearer ")) →
     gr_ID r' = ac_agentID st ∧ gr_CustomerID r' = Some (ac_customerID st)) →
  (Authenticate h (hs_w s')).1
  = inl {| ca_TokenID := 0%N; ca_CustomerID := ac_customerID st;
           ca_AgentID := Some (ac_agentID st); ca_ViaAgentToken := true |}.
Proof.
  intros H Hnone Hh Hr Hid Hcid Hc Hst Hf Huniq.
  apply maybeOfferAgentToken_inl in H as [E|(gen & w1 & w2 & t & u & Hg & Hw2 & Hs & Hh')].
  { unfold offered_header in Hh. by rewrite E, Hnone in Hh. }
  rewrite Hh in Hh'. injection Hh' as ->. rewrite TrimPrefix_bearer in Huniq.
  assert (Hw1 : w_db w1 = w_db (hs_w s)).
  { assert (Hro : readonly GenerateAgentToken) by (unfold GenerateAgentToken; atomic_tac).
    specialize (Hro (hs_w s)). by rewrite Hg in Hro. }
  apply (generate_inl KAgentToken) in Hg as (buf & Hb & ->).
  pose proof (mint_parses KAgentToken buf Hb) as Hp.
  apply SetAgentToken_inl in Hs as (Hcu & _ & Hab & Hrow).
  rewrite Hw2, Hw1 in Hcu, Hrow. specialize (Hrow r Hr).
  match type of Hrow with _ = Some ?r2 =>
    etrans; [apply (Authenticate_agent (mint (tag_of KAgentToken) buf) (hs_w s') (ac_agentID st)
      r2 c (ac_customerID st)); try done|] end.
  - by rewrite Hf, Hab.
  - by rewrite Hcu.
  - simpl. rewrite Hid, Hcid. exact Huniq.
  - simpl. by rewrite Hid.
Qed.

(** ** A concrete agent *)

Definition hello_settings (uid : string) : AgentToServer := {|
  ms_InstanceUid := uid; ms_Capabilities := 258;
  ms_AgentDescription := ms_AgentDescription (hello uid);
  ms_RemoteConfigStatus := None; ms_EffectiveConfig := None; ms_Health := None |}.

(** An agent that accepts connection settings, enrolled and offered a token. *)
Definition offered_state : hstate :=
  run_events [EvMessage 3 (hello_settings "u1")] (started opamp_world).

Definition offered_value : string :=
  match hs_out offered_state with
  | [Sent _ m] => default "" (offered_header m)
  | _ => ""
  end.

Definition offered_auth : ConnAuth + error :=
  (@Authenticate quiet_env offered_value (hs_w offered_state)).1.

Lemma opamp_Authenticate_sound_witness :
  ∃ auth, offered_auth = inl auth ∧ ca_ViaAgentToken auth = true ∧
    HasPrefix "Bearer " offered_value = true.
Proof.
  destruct offered_auth as [auth|e] eqn:Ea.
  2: { vm_compute in Ea. discriminate Ea. }
  exists auth. split; [reflexivity|]. split.
  - vm_compute in Ea. injection Ea as <-. reflexivity.
  - unfold offered_auth in Ea.
    destruct (@Authenticate quiet_env offered_value (hs_w offered_state)) as [r w'] eqn:E.
    simpl in Ea. rewrite Ea in E.
    exact (proj1 (@opamp_Authenticate_sound quiet_env offered_value _ auth w' E)).
Defined.

(** The same agent, described by hand: enrolled, without a token yet. *)
Definition enrolled_state : hstate := run_events [EvMessage 3 (hello "u1")] (started opamp_world).

Definition enrolled_agent : agentConn :=
  match byUID (hs_reg enrolled_state) !! "u1" with
  | Some st => st <| ac_capabilities := 256%Z |>
  | None => {| ac_conn := None; ac_instanceUID := ""; ac_agentID := 0; ac_customerID := 0;
               ac_capabilities := 0; ac_lastAckedHash := None; ac_remoteConfigStatus := "";
               ac_healthy := None; ac_lastSeen := 0; ac_dirtySeen := false;
               ac_tokenOffered := false |}
  end.

Definition blank_response : ServerToAgent := {|
  sa_InstanceUid := "u1"; sa_Capabilities := 0; sa_Flags := 0; sa_ErrorResponse := None;
  sa_RemoteConfig := None; sa_ConnectionSettings := None |}.

Definition offer_run : (ServerToAgent + error) * hstate :=
  @maybeOfferAgentToken quiet_env opamp_spec example_cfg enrolled_agent blank_response
    enrolled_state.

Definition offer_header : string :=
  match offer_run.1 with inl m => default "" (offered_header m) | inr _ => "" end.

Lemma offer_run_agents :
  map_to_list (agents (w_db (hs_w offer_run.2)))
  = match agents (w_db (hs_w offer_run.2)) !! ac_agentID enrolled_agent with
    | Some r => [(ac_agentID enrolled_agent, r)]
    | None => []
    end.
Proof. vm_compute. reflexivity. Qed.

Lemma Some_pair {A B} (x x' : A) (y y' : B) : Some (x, y) = Some (x', y') → x = x' ∧ y = y'.
Proof. by intros [= -> ->]. Qed.

Lemma offer_run_row :
  (λ r, (gr_ID r, gr_CustomerID r))
    <$> agents (w_db (hs_w offer_run.2)) !! ac_agentID enrolled_agent
  = Some (ac_agentID enrolled_agent, Some (ac_customerID enrolled_agent)).
Proof. vm_compute. reflexivity. Qed.

(** The enrolled agent's row and customer. *)
Definition enrolled_row : option AgentRow :=
  agents (w_db (hs_w enrolled_state)) !! ac_agentID enrolled_agent.
Definition enrolled_customer : option Customer :=
  customers (w_db (hs_w enrolled_state)) !! ac_customerID enrolled_agent.

Lemma offered_token_authenticates_witness :
  (@Authenticate quiet_env offer_header (hs_w offer_run.2)).1
  = inl {| ca_TokenID := 0%N; ca_CustomerID := ac_customerID enrolled_agent;
           ca_AgentID := Some (ac_agentID enrolled_agent); ca_ViaAgentToken := true |}.
Proof.
  destruct enrolled_row as [r|] eqn:Er; [|vm_compute in Er; discriminate Er].
  destruct enrolled_customer as [c|] eqn:Ec; [|vm_compute in Ec; discriminate Ec].
  destruct (offer_run.1) as [resp'|e] eqn:Eo; [|vm_compute in Eo; discriminate Eo].
  assert (Hrun : offer_run = (inl resp', offer_run.2))
    by (rewrite <- Eo; apply surjective_pairing).
  assert (Hh : offered_header resp' = Some offer_header).
  { unfold offer_header. rewrite Eo. vm_compute in Eo. injection Eo as <-. reflexivity. }
  apply (offered_token_authenticates quiet_env opamp_spec example_cfg enrolled_agent
    blank_response resp' enrolled_state offer_run.2 offer_header r c Hrun); try assumption.
  - reflexivity.
  - vm_compute in Er. injection Er as <-. vm_compute. reflexivity.
  - vm_compute in Er. injection Er as <-. vm_compute. reflexivity.
  - vm_compute in Ec. injection Ec as <-. reflexivity.
  - reflexivity.
  - intros k r' Hr' _. apply elem_of_map_to_list in Hr'. rewrite offer_run_agents in Hr'.
    pose proof offer_run_row as Hrow.
    destruct (agents _ !! _) as [r2|]; [|by apply elem_of_nil in Hr'].
    apply list_elem_of_singleton, pair_equal_spec in Hr' as [_ ->].
    apply Some_pair in Hrow as [H1 H2]. split; [exact H1|exact H2].
Defined.
