(* ===== verification/GoText.v ===== *)
(** * More of Go's standard library: quoting, number parsing, base64

    [strconv.Quote] (fmt's [%q]), [strconv.ParseInt] and [strconv.ParseFloat]
    on the literals [json.Number] carries, and [encoding/base64]'s
    [StdEncoding], with the facts the renderer and the secrets code rely on. *)
From Stdlib Require Import Ascii SpecFloat.
From S2P Require Import Prelude GoStrings.

(** ** Quoting *)

Definition dquote : ascii := "034"%char.
Definition backslash : ascii := "092"%char.

(** [n] lowercase hexadecimal digits of [r], most significant first. *)
Fixpoint hexn (n : nat) (r : N) : string :=
  match n with
  | O => ""
  | S n' => hexn n' (r / 16)%N +:+ String (digit_at hex_table (r mod 16)%N) ""
  end.

Definition esc (c : ascii) : string := String backslash (String c "").

(** [strconv.appendEscapedRune] with neither flag set; which runes beyond
    ASCII [strconv.IsPrint] accepts is a table, an argument here. *)
Definition escape_rune (unicode_print : N → bool) (x : N * string) : string :=
  let '(r, bytes) := x in
  if (r =? RuneError)%N && (String.length bytes =? 1)
  then esc "x" +:+ hexn 2 (default 0%N (code <$> head (chars bytes)))
  else if (r =? code dquote)%N then esc dquote
  else if (r =? code backslash)%N then esc backslash
  else if in_range 32 126 r || ((128 <=? r)%N && unicode_print r) then bytes
  else if (r =? 7)%N then esc "a" else if (r =? 8)%N then esc "b"
  else if (r =? 12)%N then esc "f" else if (r =? 10)%N then esc "n"
  else if (r =? 13)%N then esc "r" else if (r =? 9)%N then esc "t"
  else if (r =? 11)%N then esc "v"
  else if (r <? 32)%N || (r =? 127)%N then esc "x" +:+ hexn 2 r
  else if (r <? 65536)%N then esc "u" +:+ hexn 4 r
  else esc "U" +:+ hexn 8 r.

Definition Quote (unicode_print : N → bool) (s : string) : string :=
  String dquote (concat_str (map (escape_rune unicode_print) (decode s)) +:+ String dquote "").

(** Characters quoting leaves alone. *)
Definition plain_char (c : N) : bool :=
  in_range 32 126 c && negb (c =? 34)%N && negb (c =? 92)%N.

Lemma decode_ascii (s : string) :
  all_bytes (λ c, (c <? 128)%N) s = true →
  decode s = map (λ a, (code a, String a "")) (chars s).
Proof.
  induction s as [|a s IH]; [done|]. unfold all_bytes. cbn [chars forallb].
  intros [Ha Hs]%andb_true_iff. cbn [decode map]. rewrite Ha. by rewrite (IH Hs).
Qed.

Lemma concat_str_cons s l : concat_str (s :: l) = s +:+ concat_str l.
Proof. unfold concat_str. destruct l; simpl; [by rewrite app_str_nil_r|done]. Qed.

Lemma Quote_plain pr (s : string) :
  all_bytes plain_char s = true → Quote pr s = String dquote (s +:+ String dquote "").
Proof.
  intros H. unfold Quote. do 2 f_equal. rewrite decode_ascii.
  - rewrite map_map. induction s as [|a s IH]; [done|]. unfold all_bytes in H.
    cbn [chars forallb] in H. apply andb_true_iff in H as [Ha Hs].
    cbn [chars map]. rewrite concat_str_cons, (IH Hs).
    unfold plain_char in Ha. rewrite !andb_true_iff, !negb_true_iff in Ha.
    destruct Ha as [[Hr H1] H2]. unfold escape_rune.
    assert ((code a =? RuneError)%N = false) as ->.
    { unfold in_range in Hr. rewrite andb_true_iff, !N.leb_le in Hr. apply N.eqb_neq.
      unfold RuneError. lia. }
    change (code dquote) with 34%N. change (code backslash) with 92%N.
    by rewrite H1, H2, Hr.
  - eapply all_bytes_mono; [|exact H]. intros c. unfold plain_char, in_range.
    rewrite !andb_true_iff, !N.leb_le, N.ltb_lt. lia.
Qed.

Lemma Quote_plain_inj pr (s t : string) :
  all_bytes plain_char s = true → all_bytes plain_char t = true →
  Quote pr s = Quote pr t → s = t.
Proof.
  intros Hs Ht. rewrite !Quote_plain by done. intros [= H%(f_equal chars)].
  rewrite !chars_app in H. apply (inj (.++ _)) in H. by apply chars_inj.
Qed.

(** ** Numbers *)

(** The digits of [s] up to the first other character, and the rest. *)
Fixpoint span_digits (s : string) : list N * string :=
  match s with
  | String a s' =>
    if is_digit (code a)
    then let '(d, r) := span_digits s' in ((code a - 48)%N :: d, r)
    else ([], s)
  | "" => ([], "")
  end.

Definition digits_value (d : list N) : Z := fold_left (λ z n, z * 10 + Z.of_N n)%Z d 0%Z.

Definition sign_of (s : string) : bool * string :=
  match s with
  | String "-" s' => (true, s')
  | String "+" s' => (false, s')
  | _ => (false, s)
  end.

(** [strconv.ParseInt(s, 10, 64)]; [None] is a syntax or range error. *)
Definition ParseInt (s : string) : option Z :=
  let '(neg, u) := sign_of s in
  match span_digits u with
  | (d :: ds, "") =>
    let z := digits_value (d :: ds) in
    let z := if neg then (- z)%Z else z in
    if (MinInt64 <=? z)%Z && (z <=? MaxInt64)%Z then Some z else None
  | _ => None
  end.

(** [strconv.Atoi] on a 64-bit platform. *)
Definition Atoi (s : string) : option Z := ParseInt s.

(** A decimal literal: sign, digits, fraction, exponent; [m * 10^e]. *)
Definition decimal (s : string) : option (bool * Z * Z) :=
  let '(neg, u) := sign_of s in
  let '(i, r) := span_digits u in
  let '(f, r) := match r with String "." r' => span_digits r' | _ => ([], r) end in
  match i ++ f with
  | [] => None
  | ds =>
    let m := digits_value ds in
    let k := (- Z.of_nat (length f))%Z in
    match r with
    | "" => Some (neg, m, k)
    | String c r' =>
      if bool_decide (c ∈ ["e"; "E"]%char) then
        let '(eneg, v) := sign_of r' in
        match span_digits v with
        | (d :: ds', "") =>
          let e := digits_value (d :: ds') in
          Some (neg, m, k + (if eneg then - e else e))%Z
        | _ => None
        end
      else None
    end
  end.

(** [m * 10^e] rounded to the nearest binary64, ties to even. *)
Definition round64 (neg : bool) (m e : Z) : spec_float :=
  match m with
  | Zpos p =>
    if (0 <=? e)%Z
    then match Z.mul m (10 ^ e) with
         | Zpos q => binary_normalize 53 1024 (if neg then Zneg q else Zpos q) 0 neg
         | _ => S754_zero neg
         end
    else match (10 ^ (- e))%Z with
         | Zpos q => SFdiv 53 1024 (S754_finite neg p 0) (S754_finite false q 0)
         | _ => S754_zero neg
         end
  | _ => S754_zero neg
  end.

(** [strconv.ParseFloat(s, 64)] on a decimal literal; a value that rounds
    to an infinity is a range error. *)
Definition ParseFloat (s : string) : option spec_float :=
  match decimal s with
  | None => None
  | Some (neg, m, e) =>
    match round64 neg m e with
    | S754_infinity _ => None
    | x => Some x
    end
  end.

Example ParseInt_examples :
  ParseInt "-9223372036854775808" = Some MinInt64 ∧ ParseInt "9223372036854775808" = None
  ∧ ParseInt "1.0" = None ∧ ParseInt "" = None.
Proof. vm_compute. auto. Qed.

Example ParseFloat_examples :
  ParseFloat "0.1" = Some (S754_finite false 7205759403792794 (-56))
  ∧ ParseFloat "1e309" = None ∧ ParseFloat "-2.5e-1" = Some (S754_finite true 4503599627370496 (-54))
  ∧ ParseFloat "1e400x" = None.
Proof. vm_compute. auto. Qed.

(** ** [base64.StdEncoding] *)

Definition std_table : string :=
  "ABCDEFGHIJKLMNOPQRSTUVWXYZabcdefghijklmnopqrstuvwxyz0123456789+/".

Definition std_digit (n : N) : ascii := digit_at std_table n.

Fixpoint EncodeToString (s : string) : string :=
  let d := std_digit in
  match s with
  | "" => ""
  | String a "" =>
    let v := (code a * 16)%N in
    String (d (v / 64)%N) (String (d (v mod 64)%N) "==")
  | String a (String b "") =>
    let v := ((code a * 256 + code b) * 4)%N in
    String (d (v / 4096)%N) (String (d (v / 64 mod 64)%N) (String (d (v mod 64)%N) "="))
  | String a (String b (String c s')) =>
    let v := ((code a * 256 + code b) * 256 + code c)%N in
    String (d (v / 262144)%N) (String (d (v / 4096 mod 64)%N)
      (String (d (v / 64 mod 64)%N) (String (d (v mod 64)%N) (EncodeToString s'))))
  end.

(** The value of a digit. *)
Definition std_value (a : ascii) : option N :=
  let c := code a in
  if is_upper c then Some (c - 65)%N else if is_lower c then Some (c - 71)%N
  else if is_digit c then Some (c + 4)%N
  else if (c =? 43)%N then Some 62%N else if (c =? 47)%N then Some 63%N else None.

(** Quantum by quantum, on input without line breaks; the bits a short last
    quantum leaves over are not checked. *)
Fixpoint decode_quanta (s : string) : option string :=
  let byte n := ascii_of_N (n mod 256)%N in
  match s with
  | "" => Some ""
  | String a (String b (String c (String e s'))) =>
    x ← std_value a; y ← std_value b;
    if bool_decide (c = "="%char) then
      if bool_decide (e = "="%char ∧ s' = "") then Some (String (byte (x * 4 + y / 16)%N) "")
      else None
    else
      z ← std_value c;
      if bool_decide (e = "="%char) then
        if bool_decide (s' = "")
        then Some (String (byte (x * 4 + y / 16)%N) (String (byte (y * 16 + z / 4)%N) ""))
        else None
      else
        u ← std_value e;
        r ← decode_quanta s';
        Some (String (byte (x * 4 + y / 16)%N) (String (byte (y * 16 + z / 4)%N)
               (String (byte (z * 64 + u)%N) r)))
  | _ => None
  end.

(** [base64.StdEncoding.DecodeString]: line breaks are skipped. *)
Definition DecodeString (s : string) : option string :=
  decode_quanta (String.string_of_list_ascii
    (filter (λ a, a ≠ "013"%char ∧ a ≠ "010"%char) (chars s))).

Lemma std_value_digit n : (n < 64)%N → std_value (std_digit n) = Some n.
Proof.
  intros Hn. apply (bool_decide_unpack _).
  pose proof (all_below_spec 64 (λ k, bool_decide (std_value (std_digit k) = Some k))) as H.
  rewrite H; [done|by vm_compute|done].
Qed.

Definition not_break (a : ascii) : bool :=
  bool_decide (a ≠ "="%char ∧ a ≠ "013"%char ∧ a ≠ "010"%char).

Lemma std_digit_clean n : (n < 64)%N → not_break (std_digit n) = true.
Proof.
  intros Hn. pose proof (all_below_spec 64 (λ k, not_break (std_digit k))) as H.
  apply H; [by vm_compute|done].
Qed.

Lemma std_digit_ne n (a : ascii) :
  (n < 64)%N → a ∈ ["="; "013"; "010"]%char → std_digit n ≠ a.
Proof.
  intros Hn Ha E. pose proof (std_digit_clean n Hn) as Hc.
  unfold not_break in Hc. apply bool_decide_eq_true in Hc. rewrite E in Hc. set_solver.
Qed.

(** The bytes regrouped out of the four six-bit digits of a 24-bit value. *)
Lemma regroup (a b c : N) :
  (a < 256)%N → (b < 256)%N → (c < 256)%N →
  let v := ((a * 256 + b) * 256 + c)%N in
  ((v / 262144 * 4 + v / 4096 mod 64 / 16) mod 256 = a ∧
   (v / 4096 mod 64 * 16 + v / 64 mod 64 / 4) mod 256 = b ∧
   (v / 64 mod 64 * 64 + v mod 64) mod 256 = c)%N.
Proof. intros Ha Hb Hc v. subst v. split_and!; zify; Z.to_euclidean_division_equations; lia. Qed.

Lemma N_of_ascii_byte (a : ascii) n : (n mod 256 = code a)%N → ascii_of_N (n mod 256) = a.
Proof. intros ->. apply ascii_N_embedding. Qed.

Lemma EncodeToString_clean s :
  Forall (λ a, a ≠ "013"%char ∧ a ≠ "010"%char) (chars (EncodeToString s)).
Proof.
  assert (Hd : ∀ n, (n < 64)%N → std_digit n ≠ "013"%char ∧ std_digit n ≠ "010"%char).
  { intros n Hn. split; apply std_digit_ne; try done; set_solver. }
  induction s as [|a|a b|a b c s IH] using string_ind3; cbn [EncodeToString chars];
    repeat apply Forall_cons_2; try exact IH; try apply Forall_nil_2; try (split; done);
    try (pose proof (code_bound a)); try (pose proof (code_bound b));
    try (pose proof (code_bound c));
    apply Hd; try (by apply N.mod_lt); apply N.Div0.div_lt_upper_bound; lia.
Qed.

Lemma decode_quanta_encode s : decode_quanta (EncodeToString s) = Some s.
Proof.
  induction s as [|a|a b|a b c s IH] using string_ind3; [done|..];
    pose proof (code_bound a); try (pose proof (code_bound b));
    try (pose proof (code_bound c)); cbn [EncodeToString].
  - destruct (regroup (code a) 0 0) as (E1 & _); [lia..|].
    set (v := (code a * 16)%N).
    assert (Hv : (v / 64 < 64 ∧ v mod 64 < 64)%N).
    { subst v. split; [apply N.Div0.div_lt_upper_bound; lia|by apply N.mod_lt]. }
    cbn [decode_quanta]. rewrite !std_value_digit by apply Hv. simpl.
    do 2 f_equal. apply N_of_ascii_byte. subst v.
    zify; Z.to_euclidean_division_equations; lia.
  - set (v := ((code a * 256 + code b) * 4)%N).
    assert (Hv : (v / 4096 < 64 ∧ v / 64 mod 64 < 64 ∧ v mod 64 < 64)%N).
    { subst v. split_and!; try (by apply N.mod_lt). apply N.Div0.div_lt_upper_bound; lia. }
    cbn [decode_quanta]. rewrite !std_value_digit by apply Hv. simpl.
    rewrite bool_decide_false by (apply std_digit_ne; [apply Hv|set_solver]).
    do 2 f_equal; [|f_equal]; apply N_of_ascii_byte; subst v;
      zify; Z.to_euclidean_division_equations; lia.
  - destruct (regroup (code a) (code b) (code c)) as (E1 & E2 & E3); [lia..|].
    set (v := ((code a * 256 + code b) * 256 + code c)%N) in *.
    assert (Hv : (v / 262144 < 64 ∧ v / 4096 mod 64 < 64 ∧ v / 64 mod 64 < 64
                  ∧ v mod 64 < 64)%N).
    { subst v. split_and!; try (by apply N.mod_lt). apply N.Div0.div_lt_upper_bound; lia. }
    cbn [decode_quanta]. rewrite !std_value_digit by apply Hv. simpl.
    rewrite !bool_decide_false by (apply std_digit_ne; [apply Hv|set_solver]).
    rewrite IH. simpl. do 2 f_equal; [|f_equal; [|f_equal]]; by apply N_of_ascii_byte.
Qed.

(** [DecodeString] undoes [EncodeToString]. *)
Lemma DecodeString_EncodeToString s : DecodeString (EncodeToString s) = Some s.
Proof.
  unfold DecodeString. rewrite filter_all.
  - rewrite String.string_of_list_ascii_of_string. apply decode_quanta_encode.
  - intros a Ha. pose proof (EncodeToString_clean s) as H. rewrite Forall_forall in H. auto.
Qed.

Example DecodeString_examples :
  DecodeString "aGk=" = Some "hi" ∧ DecodeString "aGk" = None ∧ DecodeString "a=k=" = None.
Proof. vm_compute. auto. Qed.

(** ** Strings without a character *)

Lemma free_of_app c s t : free_of c (s +:+ t) = free_of c s && free_of c t.
Proof. apply all_bytes_app. Qed.

(** Two strings joined by a character neither first part contains. *)
Lemma join_inj c (s t s' t' : string) :
  free_of c s = true → free_of c s' = true →
  s +:+ String c t = s' +:+ String c t' → s = s' ∧ t = t'.
Proof.
  intros Hs Hs' H. pose proof (cut_app c s t Hs) as E.
  rewrite H, (cut_app c s' t' Hs') in E. by injection E as -> ->.
Qed.

(** ** Decimal rendering *)

Lemma pretty_N_char_digit x : (x < 10)%N → is_digit (code (pretty_N_char x)) = true.
Proof.
  intros Hx. pose proof (all_below_spec 10 (λ k, is_digit (code (pretty_N_char k)))) as H.
  apply H; [by vm_compute|done].
Qed.

Lemma pretty_N_go_digits x s :
  all_bytes is_digit s = true → all_bytes is_digit (pretty_N_go x s) = true.
Proof.
  revert s. induction (N.lt_wf_0 x) as [x _ IH]. intros s Hs.
  destruct (decide (x = 0)%N) as [->|Hx]; [by rewrite pretty_N_go_0|].
  rewrite pretty_N_go_step by lia. apply IH; [by apply N.div_lt; lia|].
  unfold all_bytes in *. cbn [chars forallb]. rewrite Hs, pretty_N_char_digit; [done|].
  by apply N.mod_lt.
Qed.

Lemma Itoa_nat_digits (n : nat) : all_bytes is_digit (Itoa (Z.of_nat n)) = true.
Proof.
  unfold Itoa, pretty, pretty_Z. destruct n as [|n]; [by vm_compute|].
  simpl. unfold pretty, pretty_positive, pretty, pretty_N. rewrite decide_False by done.
  by apply pretty_N_go_digits.
Qed.

Lemma Itoa_inj (x y : Z) : Itoa x = Itoa y → x = y.
Proof. intros H. by apply (inj (pretty (A:=Z))). Qed.

(** Reading back what [Itoa] wrote, in the range of an int. *)
Lemma pretty_N_char_code x : (x < 10)%N → is_digit (code (pretty_N_char x)) = true ∧ (code (pretty_N_char x) - 48)%N = x.
Proof.
  intros Hx. pose proof (all_below_spec 10 (λ k, is_digit (code (pretty_N_char k)) && bool_decide ((code (pretty_N_char k) - 48)%N = k))) as H.
  specialize (H eq_refl x Hx). apply andb_true_iff in H as [H1 H2]. split; [done|by apply bool_decide_eq_true in H2].
Qed.

(** The digits put in front of a text are read before it, and are worth the
    number. *)
Lemma span_pretty_N_go x s d r :
  span_digits s = (d, r) →
  ∃ d', span_digits (pretty_N_go x s) = (d' ++ d, r) ∧ digits_value d' = Z.of_N x ∧ (x ≠ 0%N → d' ≠ []).
Proof.
  revert s d r. induction (N.lt_wf_0 x) as [x _ IH]. intros s d r Hs.
  destruct (decide (x = 0)%N) as [->|Hx]; [exists []; by rewrite pretty_N_go_0|].
  rewrite pretty_N_go_step by lia.
  destruct (pretty_N_char_code (x `mod` 10)) as [Hd Hc]; [by apply N.mod_lt|].
  destruct (IH (x `div` 10)%N ltac:(apply N.div_lt; lia) (String (pretty_N_char (x `mod` 10)) s) ((x `mod` 10)%N :: d) r)
    as (d' & -> & Hv & _).
  { cbn [span_digits]. by rewrite Hd, Hs, Hc. }
  exists (d' ++ [(x `mod` 10)%N]). rewrite <- app_assoc. split_and!; [done| |by destruct d'].
  unfold digits_value in *. rewrite fold_left_app, Hv. cbn [fold_left].
  pose proof (N.div_mod' x 10). lia.
Qed.

Lemma span_pretty_N x : ∃ d ds, span_digits (pretty x) = (d :: ds, "") ∧ digits_value (d :: ds) = Z.of_N x.
Proof.
  unfold pretty, pretty_N. case_decide as Hx; [subst; by exists 0%N, []|].
  destruct (span_pretty_N_go x "" [] "" eq_refl) as (d & -> & Hv & Hd).
  rewrite app_nil_r. destruct d as [|d ds]; [by destruct Hd|by exists d, ds].
Qed.

Lemma sign_of_digits s d ds r : span_digits s = (d :: ds, r) → sign_of s = (false, s).
Proof.
  destruct s as [|a s]; [done|]. cbn [span_digits]. destruct (is_digit (code a)) eqn:Ha; [|done]. intros _.
  destruct a as [[] [] [] [] [] [] [] []]; (done || discriminate Ha).
Qed.

Lemma ParseInt_Itoa z : (MinInt64 ≤ z ≤ MaxInt64)%Z → ParseInt (Itoa z) = Some z.
Proof.
  intros Hz. unfold ParseInt, Itoa. destruct z as [|p|p]; [done| |].
  - unfold pretty, pretty_Z. destruct (span_pretty_N (N.pos p)) as (d & ds & Hd & Hv).
    unfold pretty, pretty_positive. rewrite (sign_of_digits _ _ _ _ Hd), Hd, Hv. cbn [Z.of_N].
    by rewrite !(proj2 (Z.leb_le _ _)) by lia.
  - unfold pretty, pretty_Z. destruct (span_pretty_N (N.pos p)) as (d & ds & Hd & Hv).
    change (sign_of ("-" +:+ pretty p)) with (true, pretty p). unfold pretty, pretty_positive.
    cbv beta iota zeta. rewrite Hd, Hv. cbn [Z.of_N].
    by rewrite !(proj2 (Z.leb_le _ _)) by lia.
Qed.
