(* ===== verification/Json.v ===== *)
(** * Decoded JSON as Go values

    The [any] values [encoding/json] produces with [UseNumber]: [json] of
    Store.v, its objects standing for Go maps.  Here: map reads, induction
    through the nesting, values with distinct keys, and the resolution of a
    [json.Number] to a Go number. *)
From Stdlib Require Import Ascii SpecFloat.
From S2P Require Import Prelude GoStrings Store GoText.

Abbreviation members := (list (string * json)).

Fixpoint member {A} (k : string) (m : list (string * A)) : option A :=
  match m with
  | [] => None
  | (k', v) :: m' => if bool_decide (k' = k) then Some v else member k m'
  end.

(** Type assertions [v.(string)], [v.(map[string]any)] and [v.([]any)]. *)
Definition as_string (v : json) : option string :=
  match v with JStr s => Some s | _ => None end.
Definition as_map (v : json) : option members :=
  match v with JObj m => Some m | _ => None end.
Definition as_slice (v : json) : option (list json) :=
  match v with JArr l => Some l | _ => None end.

(** Induction that also goes through arrays and objects. *)
Definition json_nest_ind (P : json → Prop)
    (Hnull : P JNull) (Hbool : ∀ b, P (JBool b)) (Hnum : ∀ l, P (JNum l))
    (Hstr : ∀ s, P (JStr s)) (Harr : ∀ l, Forall P l → P (JArr l))
    (Hobj : ∀ m, Forall (λ kv, P kv.2) m → P (JObj m)) : ∀ v, P v :=
  fix go v :=
    match v with
    | JNull => Hnull
    | JBool b => Hbool b
    | JNum l => Hnum l
    | JStr s => Hstr s
    | JArr l => Harr l ((fix gol l := match l return Forall P l with
                         | [] => Forall_nil_2 P
                         | x :: l' => Forall_cons_2 P x l' (go x) (gol l')
                         end) l)
    | JObj m => Hobj m ((fix gom m := match m return Forall (λ kv, P kv.2) m with
                         | [] => Forall_nil_2 _
                         | kv :: m' => Forall_cons_2 _ kv m' (go kv.2) (gom m')
                         end) m)
    end.

(** Objects are maps: no key twice, at any depth. *)
Fixpoint distinct_keys (v : json) : Prop :=
  match v with
  | JArr l => (fix gol l := match l with [] => True | x :: l' => distinct_keys x ∧ gol l' end) l
  | JObj m => NoDup m.*1 ∧
      (fix gom m := match m with [] => True | kv :: m' => distinct_keys kv.2 ∧ gom m' end) m
  | _ => True
  end.

Lemma distinct_keys_arr l : distinct_keys (JArr l) ↔ Forall distinct_keys l.
Proof.
  simpl. induction l as [|x l IH]; [by rewrite Forall_nil|]. by rewrite Forall_cons, IH.
Qed.

Lemma distinct_keys_obj m :
  distinct_keys (JObj m) ↔ NoDup m.*1 ∧ Forall (λ kv, distinct_keys kv.2) m.
Proof.
  simpl. apply and_iff_compat_l.
  induction m as [|kv m IH]; [by rewrite Forall_nil|]. by rewrite Forall_cons, IH.
Qed.

Lemma member_elem {A} k (m : list (string * A)) v : member k m = Some v → (k, v) ∈ m.
Proof.
  induction m as [|[k' v'] m IH]; simpl; [done|]. case_bool_decide as Hk.
  - intros [= ->]. subst. left.
  - intros Hm. right. auto.
Qed.

Lemma elem_member {A} k (m : list (string * A)) v :
  NoDup m.*1 → (k, v) ∈ m → member k m = Some v.
Proof.
  induction m as [|[k' v'] m IH]; simpl; [by intros _ H%elem_of_nil|].
  intros [Hk Hnd]%NoDup_cons [[= -> ->]|H]%elem_of_cons; [by rewrite bool_decide_true|].
  rewrite bool_decide_false; [by apply IH|]. intros ->. apply Hk.
  by apply (list_elem_of_fmap_2 fst) in H.
Qed.

(** The keys of a map, sorted: [sort.Strings] over the collected keys. *)
Definition sorted_members {A} (m : list (string * A)) : list (string * A) :=
  merge_sort (λ x y, Is_true (String.leb x.1 y.1)) m.

(** ** [json.Number] *)

Inductive scalar :=
  | SNull
  | SBool (b : bool)
  | SInt (z : Z)
  | SFloat (f : spec_float)
  | SStr (s : string).

(** [Int64], else [Float64], else the literal. *)
Definition number (lit : string) : scalar :=
  match ParseInt lit with
  | Some z => SInt z
  | None => match ParseFloat lit with Some f => SFloat f | None => SStr lit end
  end.

Example number_examples :
  number "8192" = SInt 8192 ∧ number "1e400" = SStr "1e400"
  ∧ number "9223372036854775808" = SFloat (S754_finite false 4503599627370496 11).
Proof. vm_compute. auto. Qed.

(** ** Strings in lexicographic order *)

#[export] Instance String_leb_total : Total (λ x y : string, Is_true (String.leb x y)).
Proof. intros x y. destruct (String.leb_total x y) as [->| ->]; auto. Qed.

Lemma ascii_compare_trans_lt (a b c : ascii) :
  Ascii.compare a b = Lt → Ascii.compare b c = Lt → Ascii.compare a c = Lt.
Proof. unfold Ascii.compare. rewrite !N.compare_lt_iff. lia. Qed.

Lemma ascii_compare_eq (a b : ascii) : Ascii.compare a b = Eq → a = b.
Proof. unfold Ascii.compare. intros H%N.compare_eq_iff. by apply code_inj. Qed.

Lemma String_compare_trans_lt (s t u : string) :
  String.compare s t = Lt → String.compare t u = Lt → String.compare s u = Lt.
Proof.
  revert t u; induction s as [|a s IH]; intros [|b t] [|c u]; simpl; try done.
  destruct (Ascii.compare a b) eqn:Eab; try done;
    destruct (Ascii.compare b c) eqn:Ebc; try done; intros H1 H2.
  - apply ascii_compare_eq in Eab as ->. rewrite Ebc. eauto.
  - apply ascii_compare_eq in Eab as ->. by rewrite Ebc.
  - apply ascii_compare_eq in Ebc as ->. by rewrite Eab.
  - by rewrite (ascii_compare_trans_lt _ _ _ Eab Ebc).
Qed.

#[export] Instance String_leb_trans : Transitive (λ x y : string, Is_true (String.leb x y)).
Proof.
  intros x y z. unfold String.leb.
  destruct (String.compare x y) eqn:Exy; try done;
    destruct (String.compare y z) eqn:Eyz; try done; intros _ _.
  - apply String.compare_eq_iff in Exy as ->. by rewrite Eyz.
  - apply String.compare_eq_iff in Exy as ->. by rewrite Eyz.
  - apply String.compare_eq_iff in Eyz as ->. by rewrite Exy.
  - by rewrite (String_compare_trans_lt _ _ _ Exy Eyz).
Qed.

#[export] Instance String_leb_antisymm :
  AntiSymm (=) (λ x y : string, Is_true (String.leb x y)).
Proof.
  intros x y Hx Hy. apply String.leb_antisym; by apply Is_true_true.
Qed.
