(* ===== verification/Catalog.v ===== *)
(** * The component catalog (internal/pipelines/catalog/catalog.go)

    The curated collector components with their JSON Schemas, each schema and
    default given as the JSON value its text denotes.  The schema validator is
    a library; it is an argument. *)
From Stdlib Require Import Ascii SpecFloat.
From S2P Require Import Prelude GoStrings Store GoText Json.

Definition KindProcessor : string := "processor".
Definition KindExporter : string := "exporter".

Record Component := {
  cat_Type : string;
  cat_Kind : string;
  cat_DisplayName : string;
  cat_Description : string;
  cat_DocsURL : string;
  cat_Schema : json;
  cat_Defaults : json;
}.

(** [Schema] and [Defaults]: the decoded object. *)
Definition Schema (c : Component) : members := default [] (as_map (cat_Schema c)).
Definition Defaults (c : Component) : members := default [] (as_map (cat_Defaults c)).

(** A config value as the validator sees it. *)
Inductive goval :=
  | GScalar (s : scalar)
  | GArr (l : list goval)
  | GObj (m : list (string * goval)).

Fixpoint normalize (v : json) : goval :=
  match v with
  | JObj m => GObj (map (λ kv, (kv.1, normalize kv.2)) m)
  | JArr l => GArr (map normalize l)
  | JNum lit => GScalar (number lit)
  | JNull => GScalar SNull
  | JBool b => GScalar (SBool b)
  | JStr s => GScalar (SStr s)
  end.

(** The library's error tree.  A leaf says where in the value it applies, the
    required properties missing when that is the complaint, and its message. *)
Inductive ValidationError :=
  | Causes (l : list ValidationError)
  | Leaf (loc missing : list string) (msg : string).

(** [jsonschema.Schema.Validate] on a compiled schema, and what compiling a
    schema may refuse. *)
Class JSONSchema := {
  schema_compile : json → option string;
  schema_Validate : json → goval → option ValidationError;
}.

(** [ValidateConfig]: nil, a schema violation, or another error. *)
Inductive ConfigError :=
  | Violation (e : ValidationError)
  | Broken (msg : string).

Definition ValidateConfig `{JSONSchema} (c : Component) (config : option members)
    : option ConfigError :=
  match schema_compile (cat_Schema c) with
  | Some msg => Some (Broken msg)
  | None => Violation <$> schema_Validate (cat_Schema c) (normalize (JObj (default [] config)))
  end.

(** ** The components *)

Definition durationSchema : json :=
  JObj [
    ("type", JStr "string");
    ("pattern", JStr "^[0-9]+(ns|us|ms|s|m|h)$");
    ("description", JStr "Go duration, e.g. 5s")].

Definition headersSchema : json :=
  JObj [
    ("type", JStr "object");
    ("description", JStr "Additional headers sent with every request.");
    ("additionalProperties", JObj [("type", JStr "string"); ("format", JStr "password")])].

Definition sendingQueueSchema : json :=
  JObj [
    ("type", JStr "object");
    ("additionalProperties", JBool false);
    ("properties", JObj [
      ("enabled", JObj [("type", JStr "boolean")]);
      ("queue_size", JObj [("type", JStr "integer"); ("minimum", JNum "1")])])].

Definition retryOnFailureSchema : json :=
  JObj [
    ("type", JStr "object");
    ("additionalProperties", JBool false);
    ("properties", JObj [("enabled", JObj [("type", JStr "boolean")])])].

Definition tlsSchema : json :=
  JObj [
    ("type", JStr "object");
    ("additionalProperties", JBool false);
    ("properties", JObj [
      ("insecure", JObj [
        ("type", JStr "boolean");
        ("description", JStr "Disable TLS (plaintext connection).")]);
      ("insecure_skip_verify", JObj [
        ("type", JStr "boolean");
        ("description", JStr "Skip certificate verification.")])])].

Definition compressionSchema : json :=
  JObj [
    ("type", JStr "string");
    ("enum", JArr [JStr "gzip"; JStr "zstd"; JStr "snappy"; JStr "none"])].

Definition errorModeSchema : json :=
  JObj [
    ("type", JStr "string");
    ("enum", JArr [JStr "ignore"; JStr "silent"; JStr "propagate"])].

Definition proc_batch : Component := {|
  cat_Type := "batch"; cat_Kind := KindProcessor;
  cat_DisplayName := "Batch";
  cat_Description := "Batches telemetry before export to reduce request count.";
  cat_DocsURL :=
    "https://github.com/open-telemetry/opentelemetry-collector/tree/main/processor/batchprocessor";
  cat_Schema :=
    JObj [
      ("type", JStr "object");
      ("additionalProperties", JBool false);
      ("properties", JObj [
        ("timeout", durationSchema);
        ("send_batch_size", JObj [("type", JStr "integer"); ("minimum", JNum "0")]);
        ("send_batch_max_size", JObj [("type", JStr "integer"); ("minimum", JNum "0")])])];
  cat_Defaults :=
    JObj [("timeout", JStr "5s"); ("send_batch_size", JNum "8192")] |}.

Definition proc_memory_limiter : Component := {|
  cat_Type := "memory_limiter"; cat_Kind := KindProcessor;
  cat_DisplayName := "Memory Limiter";
  cat_Description := "Refuses/drops data when the collector approaches its memory limit.";
  cat_DocsURL :=
    "https://github.com/open-telemetry/opentelemetry-collector/tree/main/processor/memorylimiterprocessor";
  cat_Schema :=
    JObj [
      ("type", JStr "object");
      ("additionalProperties", JBool false);
      ("required", JArr [JStr "check_interval"]);
      ("properties", JObj [
        ("check_interval", durationSchema);
        ("limit_percentage", JObj [("type", JStr "integer"); ("minimum", JNum "1"); ("maximum", JNum "100")]);
        ("spike_limit_percentage", JObj [("type", JStr "integer"); ("minimum", JNum "0"); ("maximum", JNum "100")]);
        ("limit_mib", JObj [("type", JStr "integer"); ("minimum", JNum "0")]);
        ("spike_limit_mib", JObj [("type", JStr "integer"); ("minimum", JNum "0")])])];
  cat_Defaults :=
    JObj [
      ("check_interval", JStr "1s");
      ("limit_percentage", JNum "80");
      ("spike_limit_percentage", JNum "20")] |}.

Definition proc_filter : Component := {|
  cat_Type := "filter"; cat_Kind := KindProcessor;
  cat_DisplayName := "Filter";
  cat_Description := "Drops telemetry matching OTTL conditions.";
  cat_DocsURL :=
    "https://github.com/open-telemetry/opentelemetry-collector-contrib/tree/main/processor/filterprocessor";
  cat_Schema :=
    JObj [
      ("type", JStr "object");
      ("additionalProperties", JBool false);
      ("properties", JObj [
        ("error_mode", errorModeSchema);
        ("logs", JObj [
          ("type", JStr "object");
          ("additionalProperties", JBool false);
          ("properties", JObj [
            ("log_record", JObj [
              ("type", JStr "array");
              ("items", JObj [("type", JStr "string")]);
              ("description", JStr "OTTL conditions; matching records are dropped.")])])]);
        ("traces", JObj [
          ("type", JStr "object");
          ("additionalProperties", JBool false);
          ("properties", JObj [
            ("span", JObj [("type", JStr "array"); ("items", JObj [("type", JStr "string")])]);
            ("spanevent", JObj [("type", JStr "array"); ("items", JObj [("type", JStr "string")])])])]);
        ("metrics", JObj [
          ("type", JStr "object");
          ("additionalProperties", JBool false);
          ("properties", JObj [
            ("metric", JObj [("type", JStr "array"); ("items", JObj [("type", JStr "string")])]);
            ("datapoint", JObj [("type", JStr "array"); ("items", JObj [("type", JStr "string")])])])])])];
  cat_Defaults :=
    JObj [("error_mode", JStr "ignore")] |}.

Definition proc_transform : Component := {|
  cat_Type := "transform"; cat_Kind := KindProcessor;
  cat_DisplayName := "Transform";
  cat_Description := "Modifies telemetry with OTTL statements.";
  cat_DocsURL :=
    "https://github.com/open-telemetry/opentelemetry-collector-contrib/tree/main/processor/transformprocessor";
  cat_Schema :=
    JObj [
      ("type", JStr "object");
      ("additionalProperties", JBool false);
      ("properties", JObj [
        ("error_mode", errorModeSchema);
        ("log_statements", JObj [
          ("type", JStr "array");
          ("items", JObj [("type", JStr "string")]);
          ("description", JStr "Flat OTTL statements applied to logs.")]);
        ("trace_statements", JObj [("type", JStr "array"); ("items", JObj [("type", JStr "string")])]);
        ("metric_statements", JObj [("type", JStr "array"); ("items", JObj [("type", JStr "string")])])])];
  cat_Defaults :=
    JObj [("error_mode", JStr "ignore")] |}.

Definition proc_attributes : Component := {|
  cat_Type := "attributes"; cat_Kind := KindProcessor;
  cat_DisplayName := "Attributes";
  cat_Description := "Inserts, updates, deletes or hashes span/log/metric attributes.";
  cat_DocsURL :=
    "https://github.com/open-telemetry/opentelemetry-collector-contrib/tree/main/processor/attributesprocessor";
  cat_Schema :=
    JObj [
      ("type", JStr "object");
      ("additionalProperties", JBool false);
      ("required", JArr [JStr "actions"]);
      ("properties", JObj [
        ("actions", JObj [
          ("type", JStr "array");
          ("items", JObj [
            ("type", JStr "object");
            ("additionalProperties", JBool false);
            ("required", JArr [JStr "key"; JStr "action"]);
            ("properties", JObj [
              ("key", JObj [("type", JStr "string"); ("minLength", JNum "1")]);
              ("action", JObj [
                ("type", JStr "string");
                ("enum", JArr [JStr "insert"; JStr "update"; JStr "upsert"; JStr "delete"; JStr "hash"; JStr "extract"; JStr "convert"])]);
              ("value", JObj []);
              ("from_attribute", JObj [("type", JStr "string")]);
              ("pattern", JObj [("type", JStr "string")]);
              ("converted_type", JObj [
                ("type", JStr "string");
                ("enum", JArr [JStr "int"; JStr "double"; JStr "string"])])])])])])];
  cat_Defaults :=
    JObj [("actions", JArr [])] |}.

Definition proc_resource : Component := {|
  cat_Type := "resource"; cat_Kind := KindProcessor;
  cat_DisplayName := "Resource";
  cat_Description := "Modifies resource attributes (applies to all signals).";
  cat_DocsURL :=
    "https://github.com/open-telemetry/opentelemetry-collector-contrib/tree/main/processor/resourceprocessor";
  cat_Schema :=
    JObj [
      ("type", JStr "object");
      ("additionalProperties", JBool false);
      ("required", JArr [JStr "attributes"]);
      ("properties", JObj [
        ("attributes", JObj [
          ("type", JStr "array");
          ("items", JObj [
            ("type", JStr "object");
            ("additionalProperties", JBool false);
            ("required", JArr [JStr "key"; JStr "action"]);
            ("properties", JObj [
              ("key", JObj [("type", JStr "string"); ("minLength", JNum "1")]);
              ("action", JObj [
                ("type", JStr "string");
                ("enum", JArr [JStr "insert"; JStr "update"; JStr "upsert"; JStr "delete"; JStr "hash"; JStr "extract"; JStr "convert"])]);
              ("value", JObj []);
              ("from_attribute", JObj [("type", JStr "string")]);
              ("pattern", JObj [("type", JStr "string")])])])])])];
  cat_Defaults :=
    JObj [("attributes", JArr [])] |}.

Definition exp_otlp : Component := {|
  cat_Type := "otlp"; cat_Kind := KindExporter;
  cat_DisplayName := "OTLP (gRPC)";
  cat_Description := "Sends telemetry to an OTLP gRPC endpoint.";
  cat_DocsURL :=
    "https://github.com/open-telemetry/opentelemetry-collector/tree/main/exporter/otlpexporter";
  cat_Schema :=
    JObj [
      ("type", JStr "object");
      ("additionalProperties", JBool false);
      ("required", JArr [JStr "endpoint"]);
      ("properties", JObj [
        ("endpoint", JObj [
          ("type", JStr "string");
          ("minLength", JNum "1");
          ("description", JStr "host:port of the OTLP gRPC endpoint.")]);
        ("tls", tlsSchema);
        ("compression", compressionSchema);
        ("timeout", durationSchema);
        ("headers", headersSchema);
        ("sending_queue", sendingQueueSchema);
        ("retry_on_failure", retryOnFailureSchema)])];
  cat_Defaults :=
    JObj [
      ("endpoint", JStr "backend.example.com:4317");
      ("tls", JObj [("insecure", JBool false)]);
      ("compression", JStr "gzip")] |}.

Definition exp_otlphttp : Component := {|
  cat_Type := "otlphttp"; cat_Kind := KindExporter;
  cat_DisplayName := "OTLP (HTTP)";
  cat_Description := "Sends telemetry to an OTLP/HTTP endpoint.";
  cat_DocsURL :=
    "https://github.com/open-telemetry/opentelemetry-collector/tree/main/exporter/otlphttpexporter";
  cat_Schema :=
    JObj [
      ("type", JStr "object");
      ("additionalProperties", JBool false);
      ("required", JArr [JStr "endpoint"]);
      ("properties", JObj [
        ("endpoint", JObj [
          ("type", JStr "string");
          ("minLength", JNum "1");
          ("description", JStr "Base URL, e.g. https://otlp.example.com:4318.")]);
        ("tls", tlsSchema);
        ("compression", compressionSchema);
        ("timeout", durationSchema);
        ("headers", headersSchema);
        ("sending_queue", sendingQueueSchema);
        ("retry_on_failure", retryOnFailureSchema)])];
  cat_Defaults :=
    JObj [
      ("endpoint", JStr "https://backend.example.com:4318");
      ("compression", JStr "gzip")] |}.

Definition exp_debug : Component := {|
  cat_Type := "debug"; cat_Kind := KindExporter;
  cat_DisplayName := "Debug";
  cat_Description := "Logs telemetry to the collector's stdout (development only).";
  cat_DocsURL :=
    "https://github.com/open-telemetry/opentelemetry-collector/tree/main/exporter/debugexporter";
  cat_Schema :=
    JObj [
      ("type", JStr "object");
      ("additionalProperties", JBool false);
      ("properties", JObj [
        ("verbosity", JObj [
          ("type", JStr "string");
          ("enum", JArr [JStr "basic"; JStr "normal"; JStr "detailed"])]);
        ("sampling_initial", JObj [("type", JStr "integer"); ("minimum", JNum "0")]);
        ("sampling_thereafter", JObj [("type", JStr "integer"); ("minimum", JNum "0")])])];
  cat_Defaults :=
    JObj [("verbosity", JStr "basic")] |}.

Definition exp_clickhouse : Component := {|
  cat_Type := "clickhouse"; cat_Kind := KindExporter;
  cat_DisplayName := "ClickHouse";
  cat_Description := "Writes telemetry to ClickHouse tables.";
  cat_DocsURL :=
    "https://github.com/open-telemetry/opentelemetry-collector-contrib/tree/main/exporter/clickhouseexporter";
  cat_Schema :=
    JObj [
      ("type", JStr "object");
      ("additionalProperties", JBool false);
      ("required", JArr [JStr "endpoint"]);
      ("properties", JObj [
        ("endpoint", JObj [
          ("type", JStr "string");
          ("minLength", JNum "1");
          ("description", JStr "ClickHouse DSN, e.g. tcp://host:9000.")]);
        ("database", JObj [("type", JStr "string")]);
        ("username", JObj [("type", JStr "string")]);
        ("password", JObj [("type", JStr "string"); ("format", JStr "password")]);
        ("logs_table_name", JObj [("type", JStr "string")]);
        ("traces_table_name", JObj [("type", JStr "string")]);
        ("metrics_table_name", JObj [("type", JStr "string")]);
        ("ttl", durationSchema);
        ("timeout", durationSchema);
        ("sending_queue", sendingQueueSchema);
        ("retry_on_failure", retryOnFailureSchema)])];
  cat_Defaults :=
    JObj [
      ("endpoint", JStr "tcp://clickhouse.example.com:9000");
      ("database", JStr "otel")] |}.

Definition exp_prometheusremotewrite : Component := {|
  cat_Type := "prometheusremotewrite"; cat_Kind := KindExporter;
  cat_DisplayName := "Prometheus Remote Write";
  cat_Description := "Sends metrics to a Prometheus remote-write endpoint (metrics only).";
  cat_DocsURL :=
    "https://github.com/open-telemetry/opentelemetry-collector-contrib/tree/main/exporter/prometheusremotewriteexporter";
  cat_Schema :=
    JObj [
      ("type", JStr "object");
      ("additionalProperties", JBool false);
      ("required", JArr [JStr "endpoint"]);
      ("properties", JObj [
        ("endpoint", JObj [
          ("type", JStr "string");
          ("minLength", JNum "1");
          ("description", JStr "Remote-write URL, e.g. https://vm.example.com/api/v1/write.")]);
        ("tls", tlsSchema);
        ("timeout", durationSchema);
        ("headers", headersSchema);
        ("external_labels", JObj [
          ("type", JStr "object");
          ("additionalProperties", JObj [("type", JStr "string")])]);
        ("remote_write_queue", JObj [
          ("type", JStr "object");
          ("additionalProperties", JBool false);
          ("properties", JObj [
            ("enabled", JObj [("type", JStr "boolean")]);
            ("queue_size", JObj [("type", JStr "integer"); ("minimum", JNum "1")]);
            ("num_consumers", JObj [("type", JStr "integer"); ("minimum", JNum "1")])])]);
        ("resource_to_telemetry_conversion", JObj [
          ("type", JStr "object");
          ("additionalProperties", JBool false);
          ("properties", JObj [("enabled", JObj [("type", JStr "boolean")])])])])];
  cat_Defaults :=
    JObj [("endpoint", JStr "https://metrics.example.com/api/v1/write")] |}.

Definition exp_file : Component := {|
  cat_Type := "file"; cat_Kind := KindExporter;
  cat_DisplayName := "File";
  cat_Description := "Writes telemetry to a file on the forwarding collector.";
  cat_DocsURL :=
    "https://github.com/open-telemetry/opentelemetry-collector-contrib/tree/main/exporter/fileexporter";
  cat_Schema :=
    JObj [
      ("type", JStr "object");
      ("additionalProperties", JBool false);
      ("required", JArr [JStr "path"]);
      ("properties", JObj [
        ("path", JObj [("type", JStr "string"); ("minLength", JNum "1")]);
        ("format", JObj [("type", JStr "string"); ("enum", JArr [JStr "json"; JStr "proto"])]);
        ("flush_interval", durationSchema);
        ("rotation", JObj [
          ("type", JStr "object");
          ("additionalProperties", JBool false);
          ("properties", JObj [
            ("max_megabytes", JObj [("type", JStr "integer"); ("minimum", JNum "1")]);
            ("max_days", JObj [("type", JStr "integer"); ("minimum", JNum "1")]);
            ("max_backups", JObj [("type", JStr "integer"); ("minimum", JNum "0")])])])])];
  cat_Defaults :=
    JObj [("path", JStr "/var/lib/otelcol/export.json"); ("format", JStr "json")] |}.

Definition all : list Component :=
  [proc_batch; proc_memory_limiter; proc_filter; proc_transform; proc_attributes; proc_resource; exp_otlp; exp_otlphttp; exp_debug; exp_clickhouse; exp_prometheusremotewrite; exp_file].

Definition Lookup (kind typ : string) : option Component :=
  find (λ c, bool_decide (cat_Kind c = kind) && bool_decide (cat_Type c = typ)) all.

Definition byKind (kind : string) : list Component :=
  filter (λ c, cat_Kind c = kind) all.
Definition Processors : list Component := byKind KindProcessor.
Definition Exporters : list Component := byKind KindExporter.
Definition All : list Component := all.

(** ** Facts about the data *)

Lemma Lookup_Some kind typ c :
  Lookup kind typ = Some c → c ∈ all ∧ cat_Kind c = kind ∧ cat_Type c = typ.
Proof.
  intros [Hin Hp]%find_some. rewrite andb_true_iff, !bool_decide_eq_true in Hp.
  split; [by apply list_elem_of_In|done].
Qed.

(** Component types never contain the separator of component IDs. *)
Lemma all_types_plain c :
  c ∈ all → free_of "/" (cat_Type c) = true ∧ all_bytes plain_char (cat_Type c) = true.
Proof.
  intros Hc. assert (H : Forall (λ c, free_of "/" (cat_Type c) = true ∧
    all_bytes plain_char (cat_Type c) = true) all).
  { apply (bool_decide_unpack _). by vm_compute. }
  rewrite Forall_forall in H. auto.
Qed.

(** Every schema is a map whose keys are distinct at every depth. *)
Lemma all_schemas_distinct c : c ∈ all → distinct_keys (JObj (Schema c)).
Proof.
  assert (H : Forall (λ c, distinct_keys (JObj (Schema c))) all).
  { repeat apply Forall_cons_2; try apply Forall_nil_2;
      vm_compute; repeat split; try (apply (bool_decide_unpack _); by vm_compute). }
  rewrite Forall_forall in H. auto.
Qed.

Example Lookup_examples :
  (cat_DisplayName <$> Lookup KindExporter "otlp") = Some "OTLP (gRPC)"
  ∧ Lookup KindProcessor "otlp" = None.
Proof. vm_compute. auto. Qed.
