(* ===== verification/PipelineGraph.v ===== *)
(** * Pipeline graphs and component names
    (internal/pipelines/graph.go and naming.go)

    The graph a pipeline version stores, its JSON form, and the names its
    nodes get in the rendered collector configuration.  The names are shown
    to identify what they are built from: no two pipelines, and no two nodes
    of one, share a component ID. *)
From Stdlib Require Import Ascii.
From S2P Require Import Prelude GoStrings Store World Slug GoText Json.

(** Signals in canonical render order. *)
Definition Signals : list string := ["logs"; "traces"; "metrics"].

Definition validSignal (s : string) : bool := existsb (λ sig, bool_decide (s = sig)) Signals.

(** A nil [Config] is [None]; nil and empty slices are the same list. *)
Record Node := {
  n_Type : string;
  n_Name : option string;
  n_Config : option members;
}.

Record Graph := {
  g_Signals : list string;
  g_Processors : list Node;
  g_Exporters : list Node;
}.
#[export] Instance eta_Node : Eta Node := λ r, Build_Node (n_Type r) (n_Name r) (n_Config r).
#[export] Instance eta_Graph : Eta Graph :=
  λ r, Build_Graph (g_Signals r) (g_Processors r) (g_Exporters r).

Definition hasSignal (g : Graph) (sig : string) : bool :=
  existsb (λ s, bool_decide (s = sig)) (g_Signals g).

(** ** Decoding

    [encoding/json] matches a member to a field up to case; a JSON null
    leaves strings alone and makes pointers, slices and maps nil; a value of
    another type is an error. *)

(** The case folding of member names: ASCII, and the two runes that fold to
    an ASCII letter. *)
Definition fold_name (s : string) : list N :=
  map (λ r, if (r =? 383)%N then 115%N else if (r =? 8490)%N then 107%N else lower_ascii r)
    (runes s).

(** The last member that decodes into the field [k]. *)
Definition field (k : string) (m : members) : option json :=
  snd <$> last (filter (λ kv, fold_name kv.1 = fold_name k) m).

Definition decode_string (v : json) : option string :=
  match v with JStr s => Some s | JNull => Some "" | _ => None end.

Definition decode_node (v : json) : option Node :=
  match v with
  | JNull => Some {| n_Type := ""; n_Name := None; n_Config := None |}
  | JObj m =>
    t ← match field "type" m with None => Some "" | Some v => decode_string v end;
    n ← match field "name" m with
        | None | Some JNull => Some None
        | Some (JStr s) => Some (Some s)
        | _ => None
        end;
    c ← match field "config" m with
        | None | Some JNull => Some None
        | Some (JObj c) => Some (Some c)
        | _ => None
        end;
    Some {| n_Type := t; n_Name := n; n_Config := c |}
  | _ => None
  end.

Definition decode_list {A} (f : json → option A) (v : option json) : option (list A) :=
  match v with
  | None | Some JNull => Some []
  | Some (JArr l) => mapM f l
  | _ => None
  end.

Definition decode_graph (v : json) : option Graph :=
  match v with
  | JNull => Some {| g_Signals := []; g_Processors := []; g_Exporters := [] |}
  | JObj m =>
    s ← decode_list decode_string (field "signals" m);
    p ← decode_list decode_node (field "processors" m);
    e ← decode_list decode_node (field "exporters" m);
    Some {| g_Signals := s; g_Processors := p; g_Exporters := e |}
  | _ => None
  end.

Definition ParseGraph (raw : json) : Graph + error :=
  match decode_graph raw with
  | Some g => inl g
  | None => inr (ErrNew "parse pipeline graph")
  end.

Definition json_node (n : Node) : json :=
  JObj ([("type", JStr (n_Type n))]
    ++ match n_Name n with Some s => [("name", JStr s)] | None => [] end
    ++ [("config", match n_Config n with Some m => JObj m | None => JNull end)]).

Definition MarshalGraph (g : Graph) : json :=
  JObj [("signals", JArr (map JStr (g_Signals g)));
        ("processors", JArr (map json_node (g_Processors g)));
        ("exporters", JArr (map json_node (g_Exporters g)))].

Lemma mapM_map {A B C} (f : B → option C) (g : A → B) (h : A → C) l :
  (∀ x, f (g x) = Some (h x)) → mapM f (map g l) = Some (map h l).
Proof. intros H. induction l as [|x l IH]; [done|]. simpl. by rewrite H, IH. Qed.

Lemma decode_json_node n : decode_node (json_node n) = Some n.
Proof. by destruct n as [t [s|] [c|]]. Qed.

(** What [MarshalGraph] stores, [ParseGraph] reads back. *)
Lemma ParseGraph_MarshalGraph g : ParseGraph (MarshalGraph g) = inl g.
Proof.
  destruct g as [s p e]. unfold ParseGraph, MarshalGraph, decode_graph.
  cbn [g_Signals g_Processors g_Exporters].
  change (field "signals" _) with (Some (JArr (map JStr s))).
  change (field "processors" _) with (Some (JArr (map json_node p))).
  change (field "exporters" _) with (Some (JArr (map json_node e))).
  unfold decode_list. rewrite (mapM_map decode_string JStr id) by done.
  rewrite !(mapM_map decode_node json_node id) by apply decode_json_node. simpl.
  by rewrite !map_id.
Qed.

(** ** Names *)

Definition PipelineSlug (unicode_lower : N → N) (name : string) : string :=
  DeriveSlug unicode_lower name.

Definition pipelineKey (customerSlug pipelineSlug : string) : string :=
  customerSlug +:+ "__" +:+ pipelineSlug.

Definition CollectorPipelineID (signal customerSlug pipelineSlug : string) : string :=
  signal +:+ "/" +:+ pipelineKey customerSlug pipelineSlug.

Definition nodeSuffix (n : Node) (idx : nat) : string :=
  match n_Name n with
  | Some s => if bool_decide (s = "") then Itoa (Z.of_nat idx) else s
  | None => Itoa (Z.of_nat idx)
  end.

Definition ComponentID (n : Node) (idx : nat) (customerSlug pipelineSlug : string) : string :=
  n_Type n +:+ "/" +:+ pipelineKey customerSlug pipelineSlug +:+ "__" +:+ nodeSuffix n idx.

(** [regexp.QuoteMeta]: the special characters are ASCII. *)
Definition is_special (a : ascii) : bool :=
  bool_decide (a ∈ chars "\.+*?()|[]{}^$").
Definition QuoteMeta (s : string) : string :=
  concat_str (map (λ a, if is_special a then String backslash (String a "") else String a "")
                (chars s)).

Definition ExporterLabelRegex (customerSlug pipelineSlug : string) : string :=
  "^[^/]+/" +:+ QuoteMeta (pipelineKey customerSlug pipelineSlug) +:+ "__.*".

Definition ComponentType (id : string) : string :=
  match cut "/" id with Some (t, _) => t | None => id end.

(** [^[a-z0-9][a-z0-9-]{0,63}$]. *)
Definition ValidNodeName (name : string) : bool :=
  match chars name with
  | [] => false
  | a :: l => slug_alnum (code a) && forallb (λ c, slug_char (code c)) l && (length l <=? 63)
  end.

(** ** Names identify what they are built from *)

(** The segments of an ID are free of the separators around them. *)
Definition slug_ok (s : string) : bool := free_of "_" s.

Lemma slug_char_free (l : list ascii) :
  forallb (λ c, slug_char (code c)) l = true →
  free_of "_" (String.string_of_list_ascii l) = true.
Proof.
  intros H. unfold free_of, all_bytes. rewrite chars_of_list.
  rewrite forallb_forall in *. intros c Hc%H. simpl.
  unfold slug_char, slug_alnum, is_lower, is_digit, in_range in Hc.
  rewrite !orb_true_iff, !andb_true_iff, !N.leb_le, N.eqb_eq in Hc.
  apply negb_true_iff, N.eqb_neq. change (code "_") with 95%N. lia.
Qed.

Lemma free_of_chars c s :
  free_of c (String.string_of_list_ascii (chars s)) = free_of c s.
Proof. by rewrite String.string_of_list_ascii_of_string. Qed.

Lemma ValidSlug_ok s : ValidSlug s = true → slug_ok s = true.
Proof.
  unfold ValidSlug, slug_ok. rewrite <- (free_of_chars _ s).
  destruct (chars s) as [|a l]; [done|].
  intros [Ha H]%andb_true_iff. destruct (reverse l) as [|b m] eqn:E; [done|].
  apply (f_equal reverse) in E. rewrite reverse_involutive, reverse_cons in E. subst l.
  rewrite !andb_true_iff in H. destruct H as [[[Hb Hm] _] _].
  apply slug_char_free. simpl. unfold slug_char at 1. rewrite Ha. simpl.
  rewrite forallb_app. apply andb_true_iff. split.
  - rewrite forallb_forall in *. intros x Hx%list_elem_of_In. rewrite elem_of_reverse in Hx.
    by apply Hm, list_elem_of_In.
  - simpl. unfold slug_char. by rewrite Hb.
Qed.

Lemma ValidNodeName_free s : ValidNodeName s = true → free_of "_" s = true.
Proof.
  unfold ValidNodeName. rewrite <- (free_of_chars _ s). destruct (chars s) as [|a l]; [done|].
  rewrite !andb_true_iff. intros [[Ha Hl] _]. apply slug_char_free. simpl.
  unfold slug_char at 1. by rewrite Ha, Hl.
Qed.

Lemma digits_free s : all_bytes is_digit s = true → free_of "_" s = true.
Proof.
  apply all_bytes_mono. intros c. unfold is_digit, in_range.
  rewrite andb_true_iff, !N.leb_le, negb_true_iff, N.eqb_neq.
  change (code "_") with 95%N. lia.
Qed.

(** A node whose explicit name, if any, passed validation. *)
Definition node_ok (n : Node) : bool :=
  free_of "/" (n_Type n) &&
  match n_Name n with
  | Some s => bool_decide (s = "") || ValidNodeName s
  | None => true
  end.

Lemma nodeSuffix_free n i : node_ok n = true → free_of "_" (nodeSuffix n i) = true.
Proof.
  unfold node_ok, nodeSuffix. intros [_ H]%andb_true_iff.
  destruct (n_Name n) as [s|]; [|apply digits_free, Itoa_nat_digits].
  case_bool_decide; [apply digits_free, Itoa_nat_digits|].
  by apply ValidNodeName_free.
Qed.

Lemma pipelineKey_inj c p c' p' :
  slug_ok c = true → slug_ok c' = true →
  pipelineKey c p = pipelineKey c' p' → c = c' ∧ p = p'.
Proof.
  unfold pipelineKey. intros Hc Hc' H.
  apply (join_inj "_" c _ c' _ Hc Hc') in H as [-> H]. by injection H as ->.
Qed.

Lemma CollectorPipelineID_inj s c p s' c' p' :
  slug_ok c = true → slug_ok c' = true →
  free_of "/" s = true → free_of "/" s' = true →
  CollectorPipelineID s c p = CollectorPipelineID s' c' p' → s = s' ∧ c = c' ∧ p = p'.
Proof.
  intros Hc Hc' Hs Hs' H.
  apply (join_inj "/" s _ s' _ Hs Hs') in H as [-> H]. by apply pipelineKey_inj in H.
Qed.

Lemma ComponentID_inj n i c p n' i' c' p' :
  slug_ok c = true → slug_ok c' = true → slug_ok p = true → slug_ok p' = true →
  node_ok n = true → node_ok n' = true →
  ComponentID n i c p = ComponentID n' i' c' p' →
  n_Type n = n_Type n' ∧ nodeSuffix n i = nodeSuffix n' i' ∧ c = c' ∧ p = p'.
Proof.
  unfold ComponentID. intros Hc Hc' Hp Hp' Hn Hn' H.
  assert (Hty : ∀ n, node_ok n = true → free_of "/" (n_Type n) = true).
  { intros m [? _]%andb_true_iff. done. }
  apply (join_inj "/") in H as [Ht H]; [|by apply Hty..].
  unfold pipelineKey in H. rewrite !app_str_assoc in H.
  apply (join_inj "_" c _ c') in H as [-> H]; [|done..].
  injection H as H. apply (join_inj "_" p _ p') in H as [-> H]; [|done..].
  by injection H as H.
Qed.

Lemma ComponentType_ComponentID n i c p :
  node_ok n = true → ComponentType (ComponentID n i c p) = n_Type n.
Proof.
  intros [Hn _]%andb_true_iff. unfold ComponentType.
  pose proof (cut_app "/" (n_Type n) (pipelineKey c p +:+ "__" +:+ nodeSuffix n i) Hn) as E.
  by change (cut "/" (ComponentID n i c p)
    = Some (n_Type n, pipelineKey c p +:+ "__" +:+ nodeSuffix n i)) in E; rewrite E.
Qed.

(** ** JSON into Go structs

    [encoding/json] into structs: the members of an object in their order,
    each into the field its name matches up to case; null leaves a string, a
    boolean or a struct alone and makes a pointer or a slice nil; a value of
    another type makes the decoding fail in the end. *)

Definition setters (A : Type) := list (string * (A → json → option A)).

Fixpoint decode_members {A} (fields : setters A) (x : A) (m : members) : option A :=
  match m with
  | [] => Some x
  | (k, v) :: m' =>
    x ← match find (λ f, bool_decide (fold_name f.1 = fold_name k)) fields with
        | Some (_, set) => set x v
        | None => Some x
        end;
    decode_members fields x m'
  end.

Definition decode_struct {A} (fields : setters A) (x : A) (v : json) : option A :=
  match v with JObj m => decode_members fields x m | JNull => Some x | _ => None end.

Definition decode_text (old : string) (v : json) : option string :=
  match v with JStr s => Some s | JNull => Some old | _ => None end.
Definition decode_bool (old : bool) (v : json) : option bool :=
  match v with JBool b => Some b | JNull => Some old | _ => None end.
Definition decode_bool_ptr (v : json) : option (option bool) :=
  match v with JBool b => Some (Some b) | JNull => Some None | _ => None end.
Definition decode_text_ptr (v : json) : option (option string) :=
  match v with JStr s => Some (Some s) | JNull => Some None | _ => None end.

(** A slice and what an earlier, longer value left in its array: an element is
    decoded over what is there. *)
Record slice (A : Type) := { sl_elems : list A; sl_spare : list A }.
#[global] Arguments Build_slice {A} _ _.
#[global] Arguments sl_elems {A} _.
#[global] Arguments sl_spare {A} _.

Fixpoint decode_elems {A} (dec : A → json → option A) (zero : A) (buf : list A) (l : list json)
    : option (slice A) :=
  match l with
  | [] => Some (Build_slice [] buf)
  | v :: l' =>
    e ← dec (default zero (head buf)) v;
    s ← decode_elems dec zero (tail buf) l';
    Some (Build_slice (e :: sl_elems s) (sl_spare s))
  end.

Definition decode_slice {A} (dec : A → json → option A) (zero : A) (old : slice A) (v : json)
    : option (slice A) :=
  match v with
  | JNull | JArr [] => Some (Build_slice [] [])
  | JArr l => decode_elems dec zero (sl_elems old ++ sl_spare old) l
  | _ => None
  end.
