(* ===== verification/Render.v ===== *)
(** * Rendering collector configurations
    (internal/pipelines/render.go and render_edge.go)

    The renderer builds a tree of YAML nodes and hands it to the yaml
    library's encoder, which is an argument.  A scalar node is the Go value it
    was encoded from; a mapping is its keys in insertion order.

    [sort.Slice] is not stable; pipelines that compare equal have the same
    key, and the rendering of a list with equal keys is an error that depends
    on the keys alone, so any sort gives the same result. *)
From Stdlib Require Import Ascii SpecFloat.
From S2P Require Import Prelude GoStrings Store World GoText Json PipelineGraph.

(** ** YAML nodes *)

Inductive ynode :=
  | YScalar (s : scalar)
  | YSeq (flow : bool) (l : list ynode)
  | YMap (m : list (string * ynode)).

(** [toNode] and [mustNode] on a decoded JSON value: map keys are sorted. *)
Fixpoint toNode (v : json) : ynode :=
  match v with
  | JNull => YScalar SNull
  | JBool b => YScalar (SBool b)
  | JNum lit => YScalar (number lit)
  | JStr s => YScalar (SStr s)
  | JArr l => YSeq false (map toNode l)
  | JObj m => YMap (sorted_members (map (λ kv, (kv.1, toNode kv.2)) m))
  end.

(** ... on a string and on a [[]string]. *)
Definition str_node (s : string) : ynode := YScalar (SStr s).
Definition strs_node (l : list string) : ynode := YSeq true (map str_node l).

(** [mustNode(n.Config)]; a nil map is an empty mapping. *)
Definition config_node (n : Node) : ynode := toNode (JObj (default [] (n_Config n))).

(** [yaml.Encoder.Encode] followed by [Close]. *)
Class YAML := { yaml_Encode : ynode → option string }.

Definition marshalYAML `{YAML} (n : ynode) : string + error :=
  match yaml_Encode n with
  | Some s => inl s
  | None => inr (ErrNew "render: marshal yaml")
  end.

(** ** Pipelines as the renderer sees them *)

Record RenderPipeline := {
  rp_CustomerSlug : string;
  rp_ClientID : string;
  rp_PipelineSlug : string;
  rp_Graph : Graph;
}.
#[export] Instance eta_RenderPipeline : Eta RenderPipeline :=
  λ r, Build_RenderPipeline (rp_CustomerSlug r) (rp_ClientID r) (rp_PipelineSlug r) (rp_Graph r).

(** The comparison both renderers sort by. *)
Definition rp_less (x y : RenderPipeline) : bool :=
  if negb (bool_decide (rp_CustomerSlug x = rp_CustomerSlug y))
  then String.ltb (rp_CustomerSlug x) (rp_CustomerSlug y)
  else String.ltb (rp_PipelineSlug x) (rp_PipelineSlug y).

Definition sort_pipelines (l : list RenderPipeline) : list RenderPipeline :=
  order_by (λ x y, negb (rp_less y x)) l.

Definition rp_key (p : RenderPipeline) : string :=
  pipelineKey (rp_CustomerSlug p) (rp_PipelineSlug p).

(** The loop over [seen]: the first key seen before. *)
Fixpoint first_duplicate (seen : list string) (keys : list string) : option string :=
  match keys with
  | [] => None
  | k :: keys' => if bool_decide (k ∈ seen) then Some k else first_duplicate (k :: seen) keys'
  end.

Definition routingConnectorID (signal : string) : string := "routing/tenants_" +:+ signal.

Definition rp_component (p : RenderPipeline) (i : nat) (n : Node) : string :=
  ComponentID n i (rp_CustomerSlug p) (rp_PipelineSlug p).

(** The namespaced component IDs of a pipeline's nodes, and the entries that
    define them. *)
Definition node_ids (p : RenderPipeline) (nodes : list Node) : list string :=
  imap (rp_component p) nodes.
Definition node_entries (p : RenderPipeline) (nodes : list Node) : list (string * ynode) :=
  imap (λ i n, (rp_component p i n, config_node n)) nodes.

Definition processor_ids (p : RenderPipeline) : list string :=
  node_ids p (g_Processors (rp_Graph p)).
Definition exporter_ids (p : RenderPipeline) : list string :=
  node_ids p (g_Exporters (rp_Graph p)).
Definition processor_entries (p : RenderPipeline) : list (string * ynode) :=
  node_entries p (g_Processors (rp_Graph p)).
Definition exporter_entries (p : RenderPipeline) : list (string * ynode) :=
  node_entries p (g_Exporters (rp_Graph p)).

Definition collector_id (p : RenderPipeline) (sig : string) : string :=
  CollectorPipelineID sig (rp_CustomerSlug p) (rp_PipelineSlug p).

(** One [service.pipelines] entry per signal of the pipeline, in canonical
    order. *)
Definition service_entries (body : RenderPipeline → string → ynode) (p : RenderPipeline)
    : list (string * ynode) :=
  omap (λ sig, if hasSignal (rp_Graph p) sig then Some (collector_id p sig, body p sig) else None)
    Signals.

(** ** Sections both tiers share *)

Definition receivers_node : ynode :=
  YMap [("otlp", toNode (JObj [("protocols", JObj [
    ("grpc", JObj [("endpoint", JStr "0.0.0.0:4317")]);
    ("http", JObj [("endpoint", JStr "0.0.0.0:4318")])])]))].

Definition default_processors : list (string * ynode) :=
  [("memory_limiter", toNode (JObj [
      ("check_interval", JStr "1s"); ("limit_percentage", JNum "80");
      ("spike_limit_percentage", JNum "20")]));
   ("batch", toNode (JObj [("send_batch_size", JNum "8192"); ("timeout", JStr "5s")]))].

Definition processors_node (ps : list RenderPipeline) : ynode :=
  YMap (default_processors ++ ps ≫= processor_entries).

Definition exporters_node (needDebug : bool) (ps : list RenderPipeline) : ynode :=
  YMap ((if needDebug then [("debug", toNode (JObj []))] else []) ++ ps ≫= exporter_entries).

Definition extensions_node : ynode :=
  YMap [("health_check", toNode (JObj [("endpoint", JStr "0.0.0.0:13133")]))].

Definition telemetry_node : ynode :=
  toNode (JObj [
    ("logs", JObj [("level", JStr "info")]);
    ("metrics", JObj [("readers", JArr [JObj [("pull", JObj [("exporter", JObj [
       ("prometheus", JObj [("host", JStr "0.0.0.0"); ("port", JNum "8888")])])])]])])]).

(** An entry pipeline: the shared receiver and processors into [sink]. *)
Definition entry_pipeline (sink : string) : ynode :=
  YMap [("receivers", strs_node ["otlp"]);
        ("processors", strs_node ["memory_limiter"; "batch"]);
        ("exporters", strs_node [sink])].

Definition service_node (pipelines : list (string * ynode)) : ynode :=
  YMap [("extensions", strs_node ["health_check"]);
        ("telemetry", telemetry_node);
        ("pipelines", YMap pipelines)].

(** ** The forwarding tier *)

Section Render.
Context (unicode_print : N → bool) {YML : YAML}.

(** The pipelines carrying a signal, once for each time they list it. *)
Definition signalsWith (ps : list RenderPipeline) (sig : string) : list RenderPipeline :=
  ps ≫= λ p, filter (λ s, s = sig) (g_Signals (rp_Graph p)) ≫= λ _, [p].

Definition condition (clientID : string) : string :=
  "resource.attributes[" +:+ String dquote "tenant.id" +:+ String dquote "] == "
    +:+ Quote unicode_print clientID.

(** [byClient] and [clientOrder]: the clients in the order first met, each
    with its pipelines. *)
Definition clientOrder (routed : list RenderPipeline) : list string :=
  foldl (λ order p, if bool_decide (rp_ClientID p ∈ order) then order
                    else order ++ [rp_ClientID p]) [] routed.
Definition byClient (sig : string) (routed : list RenderPipeline) (clientID : string)
    : list string :=
  map (λ p, collector_id p sig) (filter (λ p, rp_ClientID p = clientID) routed).

Definition table_entry (sig : string) (routed : list RenderPipeline) (clientID : string) : ynode :=
  YMap [("condition", str_node (condition clientID));
        ("pipelines", strs_node (byClient sig routed clientID))].

Definition connector_node (sig : string) (routed : list RenderPipeline) : ynode :=
  YMap [("default_pipelines", strs_node []);
        ("error_mode", str_node "ignore");
        ("table", YSeq false (map (table_entry sig routed) (clientOrder routed)))].

Definition connector_entries (ps : list RenderPipeline) : list (string * ynode) :=
  omap (λ sig, match signalsWith ps sig with
               | [] => None
               | routed => Some (routingConnectorID sig, connector_node sig routed)
               end) Signals.

Definition forwarding_pipeline (p : RenderPipeline) (sig : string) : ynode :=
  YMap ([("receivers", strs_node [routingConnectorID sig])]
    ++ (if bool_decide (g_Processors (rp_Graph p) = []) then []
        else [("processors", strs_node (processor_ids p))])
    ++ [("exporters", strs_node (exporter_ids p))]).

Definition sink_of (ps : list RenderPipeline) (sig : string) : string :=
  match signalsWith ps sig with [] => "debug" | _ => routingConnectorID sig end.

Definition forwarding_doc (ps : list RenderPipeline) : ynode :=
  let needDebug := existsb (λ sig, bool_decide (signalsWith ps sig = [])) Signals in
  YMap ([("receivers", receivers_node); ("processors", processors_node ps)]
    ++ match connector_entries ps with [] => [] | cs => [("connectors", YMap cs)] end
    ++ [("exporters", exporters_node needDebug ps);
        ("extensions", extensions_node);
        ("service", service_node
           (map (λ sig, (sig +:+ "/in", entry_pipeline (sink_of ps sig))) Signals
            ++ ps ≫= service_entries forwarding_pipeline))]).

Definition duplicate_error (key what : string) : error :=
  ErrNew ("duplicate pipeline key " +:+ Quote unicode_print key +:+ " in rendered " +:+ what).

(** The tree [RenderForwardingConfig] encodes. *)
Definition forwarding_tree (pipelines : list RenderPipeline) : ynode + error :=
  let ps := sort_pipelines pipelines in
  match first_duplicate [] (map rp_key ps) with
  | Some key => inr (duplicate_error key "config")
  | None => inl (forwarding_doc ps)
  end.

Definition RenderForwardingConfig (pipelines : list RenderPipeline) : string + error :=
  match forwarding_tree pipelines with
  | inr e => inr e
  | inl n => marshalYAML n
  end.

(** The root of a per-pipeline fragment; [body] is the tier's. *)
Definition fragment_doc (body : RenderPipeline → string → ynode) (p : RenderPipeline) : ynode :=
  YMap ((if bool_decide (g_Processors (rp_Graph p) = []) then []
         else [("processors", YMap (processor_entries p))])
    ++ [("exporters", YMap (exporter_entries p));
        ("service", YMap [("pipelines", YMap (service_entries body p))])]).

Definition RenderFragment (p : RenderPipeline) : string + error :=
  marshalYAML (fragment_doc forwarding_pipeline p).

(** ** The edge tier *)

Definition edgeProcessorIDs (p : RenderPipeline) : list string :=
  ["memory_limiter"; "batch"] ++ processor_ids p.

Definition edge_pipeline (p : RenderPipeline) (_ : string) : ynode :=
  YMap [("receivers", strs_node ["otlp"]);
        ("processors", strs_node (edgeProcessorIDs p));
        ("exporters", strs_node (exporter_ids p))].

Definition edge_doc (ps : list RenderPipeline) : ynode :=
  let empty := bool_decide (ps = []) in
  YMap [("receivers", receivers_node);
        ("processors", processors_node ps);
        ("exporters", exporters_node empty ps);
        ("extensions", extensions_node);
        ("service", service_node
           ((if empty then map (λ sig, (sig +:+ "/in", entry_pipeline "debug")) Signals else [])
            ++ ps ≫= service_entries edge_pipeline))].

Definition edge_tree (pipelines : list RenderPipeline) : ynode + error :=
  let ps := sort_pipelines pipelines in
  match first_duplicate [] (map rp_key ps) with
  | Some key => inr (duplicate_error key "edge config")
  | None => inl (edge_doc ps)
  end.

Definition RenderEdgeConfig (pipelines : list RenderPipeline) : string + error :=
  match edge_tree pipelines with
  | inr e => inr e
  | inl n => marshalYAML n
  end.

Definition RenderEdgeFragment (p : RenderPipeline) : string + error :=
  marshalYAML (fragment_doc edge_pipeline p).

End Render.
