(* ===== verification/Validate.v ===== *)
(** * Validating pipeline graphs (internal/pipelines/validate.go)

    Structural validation against the catalog, then [otelcol validate] on the
    full configuration the candidate would be part of.  Running the collector
    binary is an oracle: whether it is there, whether the temporary file can
    be written, and what a run prints. *)
From Stdlib Require Import Ascii SpecFloat.
From S2P Require Import Prelude GoStrings Store World GoText Json Catalog PipelineGraph Render.

Record Issue := {
  iss_Path : option string;
  iss_Message : string;
}.

Definition issueAt (path message : string) : Issue :=
  {| iss_Path := Some path; iss_Message := message |}.

Record Result := {
  res_Valid : bool;
  res_Issues : list Issue;
  res_RenderedYAML : option string;
}.
#[export] Instance eta_Result : Eta Result :=
  λ r, Build_Result (res_Valid r) (res_Issues r) (res_RenderedYAML r).

(** [strings.LastIndex]. *)
Fixpoint LastIndex (sub s : string) : option nat :=
  match s with
  | "" => if bool_decide (sub = "") then Some 0 else None
  | String _ s' =>
    match LastIndex sub s' with
    | Some i => Some (S i)
    | None => if HasPrefix sub s then Some 0 else None
    end
  end.

(** Running the collector binary; the first argument counts effects. *)
Class OtelCol := {
  bin_present : nat → bool;
  temp_error : nat → option string;
  otelcol_validate : nat → string → option (string * string * string);
}.

Section Validate.
Context (unicode_print : N → bool) {SCHEMA : JSONSchema} {YML : YAML} {COL : OtelCol}.
Context (BinPath : string).

Definition q (s : string) : string := Quote unicode_print s.
Definition at_index (field : string) (i : nat) : string :=
  field +:+ "[" +:+ Itoa (Z.of_nat i) +:+ "]".

(** One round of the loop over the signals: [take i signals] is [seenSig]. *)
Definition signal_issue (signals : list string) (i : nat) (sig : string) : list Issue :=
  if negb (validSignal sig) then
    [issueAt (at_index "signals" i)
       ("unknown signal " +:+ q sig +:+ " (want logs, traces or metrics)")]
  else if bool_decide (sig ∈ take i signals) then
    [issueAt (at_index "signals" i) ("duplicate signal " +:+ q sig)]
  else [].

Definition signal_issues (signals : list string) : list Issue :=
  mjoin (imap (signal_issue signals) signals).

(** [schemaIssues]: the leaves of the error tree. *)
Definition location (base : string) (loc : list string) : string :=
  foldl (λ p seg, p +:+ "." +:+ seg) base loc.

Fixpoint schemaIssues (base : string) (e : ValidationError) : list Issue :=
  match e with
  | Causes l => flat_map (schemaIssues base) l
  | Leaf loc missing msg =>
    match missing with
    | [] => [issueAt (location base loc) msg]
    | _ => map (λ m, issueAt (location base loc +:+ "." +:+ m) "required property is missing")
             missing
    end
  end.

(** One round of the loop of [validateNodes]: the issues found and [seenID]
    afterwards. *)
Definition validateNode (field kindName : string) (i : nat) (n : Node)
    (seenID : gmap string nat) : list Issue * gmap string nat :=
  let base := at_index field i in
  let name_issues :=
    match n_Name n with
    | Some name =>
      if negb (bool_decide (name = "")) && negb (ValidNodeName name)
      then [issueAt (base +:+ ".name") "node name must match ^[a-z0-9][a-z0-9-]{0,63}$"]
      else []
    | None => []
    end in
  match Lookup kindName (n_Type n) with
  | None =>
    (name_issues ++ [issueAt (base +:+ ".type")
       ("unknown " +:+ kindName +:+ " type " +:+ q (n_Type n))], seenID)
  | Some comp =>
    let id := ComponentID n i "c" "p" in
    let dup_issues :=
      match seenID !! id with
      | Some prev => [issueAt base ("duplicate " +:+ kindName
          +:+ " instance (same type and name as " +:+ at_index field prev
          +:+ "); set a distinct name")]
      | None => []
      end in
    let schema_issues :=
      match ValidateConfig comp (n_Config n) with
      | None => []
      | Some (Violation e) => schemaIssues (base +:+ ".config") e
      | Some (Broken msg) => [issueAt (base +:+ ".config") msg]
      end in
    (name_issues ++ dup_issues ++ schema_issues, <[id := i]> seenID)
  end.

Fixpoint validateNodes_from (field kindName : string) (i : nat) (nodes : list Node)
    (seenID : gmap string nat) : list Issue :=
  match nodes with
  | [] => []
  | n :: nodes' =>
    let '(issues, seenID') := validateNode field kindName i n seenID in
    issues ++ validateNodes_from field kindName (S i) nodes' seenID'
  end.

Definition validateNodes (field kindName : string) (nodes : list Node) : list Issue :=
  validateNodes_from field kindName 0 nodes ∅.

Definition ValidateStructural (g : Graph) : list Issue :=
  (if bool_decide (g_Signals g = [])
   then [issueAt "signals" "at least one signal is required"] else [])
  ++ signal_issues (g_Signals g)
  ++ (if bool_decide (g_Exporters g = [])
      then [issueAt "exporters" "at least one exporter is required"] else [])
  ++ validateNodes "processors" KindProcessor (g_Processors g)
  ++ validateNodes "exporters" KindExporter (g_Exporters g).

(** ** Running the collector *)

Definition condenseValidateOutput (out : string) : string :=
  match LastIndex "Error:" out with
  | Some i => TrimSpace (String.substring i (String.length out) out)
  | None => out
  end.

(** What [runValidate] returns: nil, or the output with the error. *)
Definition runValidate (k : nat) (fullConfig : string) : option string :=
  match temp_error k with
  | Some _ => Some ""
  | None =>
    match otelcol_validate k fullConfig with
    | None => None
    | Some (stderr, stdout, err) =>
      let out := TrimSpace stderr in
      let out := if bool_decide (out = "") then TrimSpace stdout else out in
      let out := if bool_decide (out = "") then err else out in
      Some (condenseValidateOutput out)
    end
  end.

Definition ValidateRendered (k : nat) (fullConfig : string) : option string :=
  runValidate k fullConfig.

Definition error_text (e : error) : string :=
  match e with ErrNew s => s | _ => "" end.

Definition invalid (message : string) (yaml : option string) : Result :=
  {| res_Valid := false;
     res_Issues := [{| iss_Path := None; iss_Message := message |}];
     res_RenderedYAML := yaml |}.

Definition Validate (k : nat) (targetClass : string) (candidate : RenderPipeline)
    (activeOthers : list RenderPipeline) : Result :=
  match ValidateStructural (rp_Graph candidate) with
  | _ :: _ as issues => {| res_Valid := false; res_Issues := issues; res_RenderedYAML := None |}
  | [] =>
    let edge := bool_decide (targetClass = ClassEdge) in
    match (if edge then RenderEdgeFragment candidate else RenderFragment candidate) with
    | inr err => invalid ("render: " +:+ error_text err) None
    | inl fragment =>
      let inputs := activeOthers ++ [candidate] in
      match (if edge then RenderEdgeConfig unicode_print inputs
             else RenderForwardingConfig unicode_print inputs) with
      | inr err => invalid ("render " +:+ targetClass +:+ " config: " +:+ error_text err)
                     (Some fragment)
      | inl full =>
        if negb (bin_present k) then
          {| res_Valid := true;
             res_Issues := [{| iss_Path := None;
               iss_Message := "warning: otelcol validate skipped: collector binary unavailable at "
                              +:+ BinPath |}];
             res_RenderedYAML := Some fragment |}
        else
          match runValidate (S k) full with
          | Some out => invalid ("otelcol validate failed: " +:+ out) (Some fragment)
          | None => {| res_Valid := true; res_Issues := []; res_RenderedYAML := Some fragment |}
          end
      end
    end
  end.

(** ** What structural validation guarantees *)

Lemma Lookup_node_ok kind n c :
  Lookup kind (n_Type n) = Some c →
  match n_Name n with Some s => negb (bool_decide (s = "")) && negb (ValidNodeName s) = false
                    | None => True end →
  node_ok n = true.
Proof.
  intros (Hc & _ & Ht)%Lookup_Some Hn. apply all_types_plain in Hc as [Hc _].
  unfold node_ok. rewrite <- Ht, Hc. simpl. destruct (n_Name n) as [s|]; [|done].
  by destruct (bool_decide (s = "")), (ValidNodeName s).
Qed.

Lemma validateNodes_from_nil field kind i nodes seen :
  validateNodes_from field kind i nodes seen = [] →
  Forall (λ n, node_ok n = true ∧ is_some (Lookup kind (n_Type n)) = true) nodes ∧
  NoDup (imap (λ j n, ComponentID n (i + j) "c" "p") nodes) ∧
  ∀ j n, nodes !! j = Some n → seen !! ComponentID n (i + j) "c" "p" = None.
Proof.
  revert i seen. induction nodes as [|n nodes IH]; intros i seen; cbn [validateNodes_from].
  { intros _. split_and!; [done|apply NoDup_nil_2|done]. }
  unfold validateNode. destruct (Lookup kind (n_Type n)) as [comp|] eqn:El.
  2: { intros [[_ H]%app_eq_nil _]%app_eq_nil. done. }
  intros [[Hname [Hdup _]%app_eq_nil]%app_eq_nil [Hok [Hnd Hseen]]%IH]%app_eq_nil.
  destruct (seen !! ComponentID n i "c" "p") eqn:Es; [done|].
  split_and!.
  - apply Forall_cons_2; [|done]. split; [|by rewrite El].
    eapply Lookup_node_ok; [exact El|]. destruct (n_Name n); [|done].
    by destruct (negb _ && negb _).
  - simpl. rewrite Nat.add_0_r. apply NoDup_cons. split.
    + intros (j & n' & E & Hj)%elem_of_lookup_imap_1.
      specialize (Hseen j n' Hj). simpl in E. rewrite Nat.add_succ_r in E. simpl in Hseen.
      rewrite <- E, lookup_insert_eq in Hseen. done.
    + erewrite imap_ext; [exact Hnd|]. intros j x _. simpl. by rewrite Nat.add_succ_r.
  - intros [|j] n' Hj; simpl in Hj.
    + injection Hj as <-. by rewrite Nat.add_0_r.
    + specialize (Hseen j n' Hj). simpl in Hseen. rewrite Nat.add_succ_r.
      by apply lookup_insert_None in Hseen as [? _].
Qed.

Lemma join_nil {A} (l : list (list A)) : mjoin l = [] → Forall (λ x, x = []) l.
Proof.
  induction l as [|x l IH]; [done|]. simpl. intros [Hx Hl]%app_eq_nil. apply Forall_cons_2; auto.
Qed.

Lemma signal_issues_nil signals :
  signal_issues signals = [] →
  Forall (λ s, validSignal s = true) signals ∧ NoDup signals.
Proof.
  intros H. assert (Hall : ∀ i s, signals !! i = Some s →
    validSignal s = true ∧ s ∉ take i signals).
  { intros i s Hi. unfold signal_issues in H.
    assert (Hin : signal_issue signals i s = []).
    { eapply (proj1 (Forall_forall _ _) (join_nil _ H)).
      by apply (elem_of_lookup_imap_2 (signal_issue signals)). }
    unfold signal_issue in Hin.
    destruct (validSignal s); [|done]. simpl in Hin. by case_bool_decide. }
  split.
  - apply Forall_lookup. intros i s Hi. by apply (Hall i).
  - apply NoDup_alt. intros i j s Hi Hj.
    destruct (decide (i = j)) as [|Hne]; [done|exfalso].
    assert (∀ a b, a < b → signals !! a = Some s → signals !! b = Some s → False) as Hlt.
    { intros a b Hab Ha Hb. destruct (Hall b s Hb) as [_ Hn]. apply Hn.
      apply list_elem_of_lookup. exists a. by rewrite lookup_take_lt. }
    destruct (Nat.lt_total i j) as [|[|]]; eauto.
Qed.

End Validate.

(** A graph that structural validation accepts. *)
Record graph_ok (g : Graph) : Prop := {
  ok_signals : Forall (λ s, validSignal s = true) (g_Signals g);
  ok_signals_distinct : NoDup (g_Signals g);
  ok_signals_nonempty : g_Signals g ≠ [];
  ok_exporters : g_Exporters g ≠ [];
  ok_processor_nodes : Forall (λ n, node_ok n = true) (g_Processors g);
  ok_exporter_nodes : Forall (λ n, node_ok n = true) (g_Exporters g);
  ok_processor_types :
    Forall (λ n, is_some (Lookup KindProcessor (n_Type n)) = true) (g_Processors g);
  ok_exporter_types :
    Forall (λ n, is_some (Lookup KindExporter (n_Type n)) = true) (g_Exporters g);
  ok_processor_ids : NoDup (imap (λ i n, ComponentID n i "c" "p") (g_Processors g));
  ok_exporter_ids : NoDup (imap (λ i n, ComponentID n i "c" "p") (g_Exporters g));
}.

Lemma ValidateStructural_ok pr `{JSONSchema} g : ValidateStructural pr g = [] → graph_ok g.
Proof.
  unfold ValidateStructural. intros H0.
  apply app_eq_nil in H0 as [H1 H0]. apply app_eq_nil in H0 as [H2 H0].
  apply app_eq_nil in H0 as [H3 H0]. apply app_eq_nil in H0 as [H4 H5].
  apply signal_issues_nil in H2 as [Hs Hnd].
  apply validateNodes_from_nil in H4 as ([Hp1 Hp2]%Forall_and & Hp & _).
  apply validateNodes_from_nil in H5 as ([He1 He2]%Forall_and & He & _).
  constructor; try done.
  - intros E. by rewrite bool_decide_true in H1.
  - intros E. by rewrite bool_decide_true in H3.
Qed.
