(* ===== verification/RenderProps.v ===== *)
(** * Properties of the rendered configurations

    A reader for the rendered tree (sections, component references, routing
    tables), what makes a collector configuration well formed, and the
    theorems: rendered configurations are well formed, do not depend on the
    order of their inputs, and keep tenants apart. *)
From Stdlib Require Import Ascii SpecFloat.
From S2P Require Import Prelude GoStrings Store World GoText Json Catalog PipelineGraph Render Validate.

(** ** Reading a rendered configuration *)

Definition fields (n : ynode) : list (string * ynode) := match n with YMap m => m | _ => [] end.
Definition at_key (k : string) (n : ynode) : ynode := default (YMap []) (member k (fields n)).
Definition keys_of (n : ynode) : list string := (fields n).*1.
Definition elements (n : ynode) : list ynode := match n with YSeq _ l => l | _ => [] end.
Definition strings (n : ynode) : list string :=
  omap (λ x, match x with YScalar (SStr s) => Some s | _ => None end) (elements n).

Definition service_pipelines (doc : ynode) : ynode := at_key "pipelines" (at_key "service" doc).

(** What the collector requires of a configuration's references: distinct
    names, every name a pipeline mentions defined, and every route of a
    connector leading to a pipeline that receives from it. *)
Record wf_config (doc : ynode) : Prop := {
  wf_root : NoDup (keys_of doc);
  wf_distinct : ∀ k, k ∈ ["receivers"; "processors"; "connectors"; "exporters"; "extensions"] →
    NoDup (keys_of (at_key k doc));
  wf_pipelines_distinct : NoDup (keys_of (service_pipelines doc));
  wf_pipelines_some : keys_of (service_pipelines doc) ≠ [];
  wf_receivers : ∀ id pl, (id, pl) ∈ fields (service_pipelines doc) →
    strings (at_key "receivers" pl) ≠ [] ∧
    ∀ r, r ∈ strings (at_key "receivers" pl) →
      r ∈ keys_of (at_key "receivers" doc) ++ keys_of (at_key "connectors" doc);
  wf_processors : ∀ id pl r, (id, pl) ∈ fields (service_pipelines doc) →
    r ∈ strings (at_key "processors" pl) → r ∈ keys_of (at_key "processors" doc);
  wf_exporters : ∀ id pl, (id, pl) ∈ fields (service_pipelines doc) →
    strings (at_key "exporters" pl) ≠ [] ∧
    ∀ r, r ∈ strings (at_key "exporters" pl) →
      r ∈ keys_of (at_key "exporters" doc) ++ keys_of (at_key "connectors" doc);
  wf_routes : ∀ c conn entry, (c, conn) ∈ fields (at_key "connectors" doc) →
    entry ∈ elements (at_key "table" conn) →
    strings (at_key "pipelines" entry) ≠ [] ∧
    ∀ id, id ∈ strings (at_key "pipelines" entry) →
      ∃ pl, (id, pl) ∈ fields (service_pipelines doc) ∧ strings (at_key "receivers" pl) = [c];
  wf_connectors_fed : ∀ c, c ∈ keys_of (at_key "connectors" doc) →
    ∃ id pl, (id, pl) ∈ fields (service_pipelines doc) ∧ strings (at_key "exporters" pl) = [c];
  wf_extensions : ∀ e, e ∈ strings (at_key "extensions" (at_key "service" doc)) →
    e ∈ keys_of (at_key "extensions" doc);
}.

Lemma strings_strs_node l : strings (strs_node l) = l.
Proof. induction l as [|s l IH]; [done|]. by cbn; f_equal. Qed.

(** ** Duplicate detection *)

Lemma first_duplicate_None seen keys :
  first_duplicate seen keys = None ↔ NoDup keys ∧ ∀ k, k ∈ keys → k ∉ seen.
Proof.
  revert seen; induction keys as [|k keys IH]; intros seen; simpl.
  { split; [|done]. intros _. split; [apply NoDup_nil_2|by intros k ?%elem_of_nil]. }
  rewrite NoDup_cons. case_bool_decide as Hk.
  - split; [done|]. intros [_ H]. exfalso. by apply (H k); [left|].
  - rewrite IH. setoid_rewrite elem_of_cons. naive_solver.
Qed.

Lemma first_duplicate_nil keys : first_duplicate [] keys = None ↔ NoDup keys.
Proof. rewrite first_duplicate_None. split; [by intros [? _]|]. intros H. split; [done|]. set_solver. Qed.

(** ** Sorting *)

Definition rp_pair (p : RenderPipeline) : string * string := (rp_CustomerSlug p, rp_PipelineSlug p).

Definition pair_le (x y : string * string) : Prop :=
  (x.1 ≠ y.1 ∧ Is_true (String.leb x.1 y.1)) ∨ (x.1 = y.1 ∧ Is_true (String.leb x.2 y.2)).

Lemma ltb_leb a b : negb (String.ltb b a) = String.leb a b.
Proof.
  unfold String.ltb, String.leb. rewrite (String.compare_antisym a b).
  by destruct (String.compare b a).
Qed.

Lemma rp_le_pair x y : Is_true (negb (rp_less y x)) ↔ pair_le (rp_pair x) (rp_pair y).
Proof.
  unfold rp_less, pair_le, rp_pair. simpl.
  case_bool_decide as E; simpl; rewrite ltb_leb; [rewrite E; naive_solver|].
  split; [left; auto|]. intros [[_ ?]|[? _]]; [done|congruence].
Qed.

#[export] Instance pair_le_total : Total pair_le.
Proof.
  intros [a b] [a' b']. unfold pair_le. simpl. destruct (decide (a = a')) as [->|Hne].
  - destruct (String_leb_total b b'); auto.
  - destruct (String_leb_total a a'); auto.
Qed.

#[export] Instance pair_le_trans : Transitive pair_le.
Proof.
  intros [a b] [a' b'] [a'' b'']. unfold pair_le. simpl.
  intros [[Hn H]|[-> H]] [[Hn' H']|[-> H']].
  - left. split; [|by etrans]. intros ->. apply Hn. by apply (anti_symm (λ x y, Is_true (String.leb x y))).
  - auto.
  - auto.
  - right. split; [done|by etrans].
Qed.

#[export] Instance pair_le_antisymm : AntiSymm (=) pair_le.
Proof.
  intros [a b] [a' b']. unfold pair_le. simpl.
  intros [[Hn H]|[-> H]] [[Hn' H']|[? H']]; subst; try done.
  - destruct Hn. by apply (anti_symm (λ x y, Is_true (String.leb x y))).
  - f_equal. by apply (anti_symm (λ x y, Is_true (String.leb x y))).
Qed.

Lemma sort_pipelines_perm l : sort_pipelines l ≡ₚ l.
Proof. apply merge_sort_Permutation. Qed.

Lemma sort_pipelines_sorted l :
  StronglySorted (λ x y, Is_true (negb (rp_less y x))) (sort_pipelines l).
Proof.
  apply StronglySorted_merge_sort.
  - intros x y z. rewrite !rp_le_pair. apply pair_le_trans.
  - intros x y. rewrite !rp_le_pair. apply pair_le_total.
Qed.

Lemma sort_pipelines_pairs l : StronglySorted pair_le (map rp_pair (sort_pipelines l)).
Proof.
  pose proof (sort_pipelines_sorted l) as H. induction H as [|x l' H IH Hx]; simpl; constructor.
  - done.
  - apply Forall_map. eapply Forall_impl; [exact Hx|]. intros y. by rewrite rp_le_pair.
Qed.

Lemma sort_pipelines_pairs_eq l1 l2 :
  l1 ≡ₚ l2 → map rp_pair (sort_pipelines l1) = map rp_pair (sort_pipelines l2).
Proof.
  intros H. apply (StronglySorted_unique pair_le); [apply sort_pipelines_pairs..|].
  apply fmap_Permutation. by rewrite !sort_pipelines_perm.
Qed.

Lemma sort_pipelines_keys_eq l1 l2 :
  l1 ≡ₚ l2 → map rp_key (sort_pipelines l1) = map rp_key (sort_pipelines l2).
Proof.
  intros H%sort_pipelines_pairs_eq.
  assert (E : ∀ l, map rp_key l = map (λ x, pipelineKey x.1 x.2) (map rp_pair l)).
  { intros l. by rewrite map_map. }
  by rewrite !E, H.
Qed.

Lemma key_unique (l : list RenderPipeline) x y :
  NoDup (map rp_key l) → x ∈ l → y ∈ l → rp_key x = rp_key y → x = y.
Proof.
  intros Hnd [i Hi]%list_elem_of_lookup [j Hj]%list_elem_of_lookup E.
  assert (i = j) as ->; [|congruence].
  eapply (NoDup_lookup (map rp_key l)); [exact Hnd| |]; rewrite list_lookup_fmap.
  - by rewrite Hi.
  - rewrite Hj. simpl. by rewrite E.
Qed.

(** With distinct keys, the sorted list does not depend on the order given. *)
Lemma sort_pipelines_unique l1 l2 :
  l1 ≡ₚ l2 → NoDup (map rp_key l1) → sort_pipelines l1 = sort_pipelines l2.
Proof.
  intros H Hnd.
  eapply StronglySorted_unique_strong; [|apply sort_pipelines_sorted..|].
  - intros x y Hx Hy Hxy Hyx. rewrite sort_pipelines_perm in Hx.
    rewrite sort_pipelines_perm, <- H in Hy. rewrite rp_le_pair in Hxy, Hyx.
    apply (key_unique l1); [done..|]. pose proof (anti_symm pair_le _ _ Hxy Hyx) as E.
    unfold rp_pair in E. unfold rp_key. by injection E as -> ->.
  - by rewrite !sort_pipelines_perm.
Qed.

(** ** Component names are distinct *)

(** A pipeline as the service builds it: slugs without the separator, a graph
    that structural validation accepted. *)
Record input_ok (p : RenderPipeline) : Prop := {
  in_customer : slug_ok (rp_CustomerSlug p) = true;
  in_pipeline : slug_ok (rp_PipelineSlug p) = true;
  in_graph : graph_ok (rp_Graph p);
}.

(** Generated names contain a separator no fixed name has. *)
Lemma ComponentID_slash n i c p : free_of "/" (ComponentID n i c p) = false.
Proof.
  unfold ComponentID. rewrite free_of_app, andb_false_iff. right.
  change (free_of "/" (String "/" (pipelineKey c p +:+ "__" +:+ nodeSuffix n i)) = false).
  destruct (free_of _ _) eqn:E; [|done]. by apply free_of_cons in E as [[] _].
Qed.

Lemma pipelineKey_sep c p : free_of "_" (pipelineKey c p) = false.
Proof.
  unfold pipelineKey. rewrite free_of_app, andb_false_iff. right.
  destruct (free_of _ _) eqn:E; [|done]. by apply free_of_cons in E as [[] _].
Qed.

Lemma Signals_plain sig : sig ∈ Signals → free_of "/" sig = true ∧ free_of "_" sig = true.
Proof.
  intros H. assert (Hall : Forall (λ s, free_of "/" s = true ∧ free_of "_" s = true) Signals)
    by (apply (bool_decide_unpack _); by vm_compute).
  rewrite Forall_forall in Hall. auto.
Qed.

Lemma Signals_NoDup : NoDup Signals.
Proof. apply (bool_decide_unpack _). by vm_compute. Qed.

Lemma validSignal_elem s : validSignal s = true ↔ s ∈ Signals.
Proof.
  unfold validSignal. rewrite existsb_exists. split.
  - intros (x & Hx & E%bool_decide_eq_true). subst. by apply list_elem_of_In.
  - intros H. exists s. split; [by apply list_elem_of_In|by apply bool_decide_eq_true].
Qed.

Lemma collector_id_inj p q sig sig' :
  input_ok p → input_ok q → sig ∈ Signals → sig' ∈ Signals →
  collector_id p sig = collector_id q sig' → sig = sig' ∧ rp_key p = rp_key q.
Proof.
  intros [Hp _ _] [Hq _ _] Hs Hs' H. unfold rp_key.
  by apply CollectorPipelineID_inj in H as (-> & -> & ->); [|(done || by apply Signals_plain)..].
Qed.

Lemma collector_id_not_entry p sig sig' :
  sig ∈ Signals → sig' ∈ Signals → collector_id p sig ≠ sig' +:+ "/in".
Proof.
  intros Hs Hs' H.
  apply (join_inj "/" sig _ sig' "in") in H as [_ H]; [|by apply Signals_plain..].
  pose proof (pipelineKey_sep (rp_CustomerSlug p) (rp_PipelineSlug p)) as E. by rewrite H in E.
Qed.

Lemma node_ids_elem p nodes id :
  id ∈ node_ids p nodes → ∃ i n, nodes !! i = Some n ∧ id = rp_component p i n.
Proof. intros (i & n & -> & Hi)%elem_of_lookup_imap_1. eauto. Qed.

Lemma node_entries_keys p nodes : (node_entries p nodes).*1 = node_ids p nodes.
Proof. unfold node_entries, node_ids. apply fmap_imap. Qed.

Lemma rp_component_inj p q i j n m nodes nodes' :
  input_ok p → input_ok q →
  Forall (λ n, node_ok n = true) nodes → Forall (λ n, node_ok n = true) nodes' →
  nodes !! i = Some n → nodes' !! j = Some m →
  rp_component p i n = rp_component q j m →
  rp_key p = rp_key q ∧ ComponentID n i "c" "p" = ComponentID m j "c" "p".
Proof.
  intros [Hp Hp' _] [Hq Hq' _] Hn Hm Hi Hj H.
  rewrite Forall_lookup in Hn, Hm. specialize (Hn _ _ Hi). specialize (Hm _ _ Hj).
  apply ComponentID_inj in H as (Ht & Hs & Hc & Hpp); [|done..].
  unfold rp_key, ComponentID. by rewrite Ht, Hs, Hc, Hpp.
Qed.

Lemma node_ids_NoDup p nodes :
  input_ok p → Forall (λ n, node_ok n = true) nodes →
  NoDup (imap (λ i n, ComponentID n i "c" "p") nodes) → NoDup (node_ids p nodes).
Proof.
  intros Hp Hok Hnd. apply NoDup_alt. intros i j x.
  unfold node_ids. rewrite !list_lookup_imap_Some. intros (n & Hi & ->) (m & Hj & E).
  eapply rp_component_inj in E as [_ E]; [|exact Hp|exact Hp|exact Hok|exact Hok|exact Hi|exact Hj].
  eapply (NoDup_lookup _ i j (ComponentID n i "c" "p")); [exact Hnd|..];
    rewrite list_lookup_imap; [by rewrite Hi|rewrite Hj; simpl; by rewrite E].
Qed.

(** Keys of a section built from the nodes of several pipelines. *)
Section Keys.
Context (sel : Graph → list Node) (ps : list RenderPipeline).
Context (Hps : Forall input_ok ps) (Hkeys : NoDup (map rp_key ps)).
Context (Hok : ∀ g, graph_ok g → Forall (λ n, node_ok n = true) (sel g) ∧
                     NoDup (imap (λ i n, ComponentID n i "c" "p") (sel g))).

Lemma bind_entries_keys :
  (ps ≫= λ p, node_entries p (sel (rp_Graph p))).*1 = ps ≫= λ p, node_ids p (sel (rp_Graph p)).
Proof using.
  clear. induction ps as [|p l IH]; [done|]. cbn. rewrite fmap_app. f_equal; [|done].
  apply node_entries_keys.
Qed.

Lemma section_ids_NoDup : NoDup (ps ≫= λ p, node_ids p (sel (rp_Graph p))).
Proof using All.
  rewrite Forall_forall in Hps.
  apply NoDup_bind.
  - intros p q x Hp Hq (i & n & Hi & ->)%node_ids_elem (j & m & Hj & E)%node_ids_elem.
    apply (key_unique ps); [done..|].
    eapply rp_component_inj in E as [E _]; [exact E| | | | |exact Hi|exact Hj]; auto.
    + apply Hok, Hps. done.
    + apply Hok, Hps. done.
  - intros p Hp. destruct (Hok _ (in_graph _ (Hps p Hp))). by apply node_ids_NoDup; auto.
  - by apply NoDup_fmap_1 in Hkeys.
Qed.

Lemma section_keys_NoDup (fixed : list (string * ynode)) :
  NoDup fixed.*1 → Forall (λ k, free_of "/" k = true) fixed.*1 →
  NoDup (fixed ++ ps ≫= λ p, node_entries p (sel (rp_Graph p))).*1.
Proof using All.
  intros Hf Hs. rewrite fmap_app, bind_entries_keys. apply NoDup_app. split_and!; [done| |].
  - intros k Hk (p & Hk' & _)%list_elem_of_bind. apply node_ids_elem in Hk' as (i & n & _ & ->).
    rewrite Forall_forall in Hs. apply Hs in Hk. unfold rp_component in Hk.
    by rewrite ComponentID_slash in Hk.
  - apply section_ids_NoDup.
Qed.

Lemma section_has (fixed : list (string * ynode)) p k :
  p ∈ ps → k ∈ node_ids p (sel (rp_Graph p)) →
  k ∈ (fixed ++ ps ≫= λ p, node_entries p (sel (rp_Graph p))).*1.
Proof using.
  clear. intros Hp Hk. rewrite fmap_app, bind_entries_keys. apply elem_of_app. right.
  apply list_elem_of_bind. eauto.
Qed.

End Keys.

(** ** Collector pipelines and routing tables *)

Lemma hasSignal_elem g sig : hasSignal g sig = true ↔ sig ∈ g_Signals g.
Proof.
  unfold hasSignal. rewrite existsb_exists. split.
  - intros (x & Hx & E%bool_decide_eq_true). subst. by apply list_elem_of_In.
  - intros H. exists sig. split; [by apply list_elem_of_In|by apply bool_decide_eq_true].
Qed.

Lemma service_entries_elem body p id pl :
  (id, pl) ∈ service_entries body p ↔
  ∃ sig, sig ∈ Signals ∧ sig ∈ g_Signals (rp_Graph p) ∧ id = collector_id p sig ∧ pl = body p sig.
Proof.
  unfold service_entries. rewrite list_elem_of_omap. split.
  - intros (sig & Hs & E). destruct (hasSignal _ _) eqn:Eh; [|done].
    apply hasSignal_elem in Eh. injection E as <- <-. eauto.
  - intros (sig & Hs & Hh & -> & ->). exists sig. split; [done|].
    apply hasSignal_elem in Hh. by rewrite Hh.
Qed.

Lemma omap_keys_NoDup {A} (f : A → option (string * ynode)) (key : A → string) (l : list A) :
  NoDup l → (∀ x kv, f x = Some kv → kv.1 = key x) →
  (∀ x y, x ∈ l → y ∈ l → key x = key y → x = y) → NoDup (omap f l).*1.
Proof.
  intros Hnd Hf Hinj. induction Hnd as [|x l Hx Hnd IH]; [apply NoDup_nil_2|].
  cbn [omap list_omap]. assert (Hl : NoDup (omap f l).*1).
  { apply IH. intros; apply Hinj; try right; done. }
  destruct (f x) as [kv|] eqn:E; [|done]. cbn. apply NoDup_cons. split; [|done].
  intros (kv' & Ek & (y & Hy & E')%list_elem_of_omap)%list_elem_of_fmap.
  rewrite (Hf _ _ E), (Hf _ _ E') in Ek. apply Hx. rewrite (Hinj x y); [done|left|by right|done].
Qed.

Lemma service_entries_keys_NoDup body p : input_ok p → NoDup (service_entries body p).*1.
Proof.
  intros Hp. apply (omap_keys_NoDup _ (collector_id p)); [apply Signals_NoDup|..].
  - intros sig kv. destruct (hasSignal _ _); [|done]. by intros [= <-].
  - intros x y Hx Hy E. by apply collector_id_inj in E as [-> _].
Qed.

Definition entry_keys : list string := map (λ sig, sig +:+ "/in") Signals.

Lemma entry_keys_elem k : k ∈ entry_keys ↔ ∃ sig, sig ∈ Signals ∧ k = sig +:+ "/in".
Proof. unfold entry_keys. rewrite list_elem_of_fmap. naive_solver. Qed.

Lemma service_pipelines_NoDup body ps fixed :
  Forall input_ok ps → NoDup (map rp_key ps) →
  NoDup fixed.*1 → (∀ k, k ∈ fixed.*1 → k ∈ entry_keys) →
  NoDup (fixed ++ ps ≫= service_entries body).*1.
Proof.
  intros Hps Hkeys Hf Hsub. rewrite Forall_forall in Hps.
  rewrite fmap_app. apply NoDup_app. split_and!; [done| |].
  - intros k (sig & Hs & ->)%Hsub%entry_keys_elem ([id pl] & E & Hin)%list_elem_of_fmap.
    simpl in E. subst id. apply list_elem_of_bind in Hin as (p & Hin & Hp).
    apply service_entries_elem in Hin as (sig' & Hs' & _ & E & _).
    exact (collector_id_not_entry p sig' sig Hs' Hs (eq_sym E)).
  - assert (E : (ps ≫= service_entries body).*1 = ps ≫= λ p, (service_entries body p).*1).
    { clear. induction ps as [|p l IH]; [done|]. cbn. rewrite fmap_app. by f_equal. }
    rewrite E. apply NoDup_bind.
    + intros p q x Hp Hq ([i b] & -> & Hi)%list_elem_of_fmap ([j b'] & Ej & Hj)%list_elem_of_fmap.
      apply service_entries_elem in Hi as (s & Hs & _ & -> & _).
      apply service_entries_elem in Hj as (s' & Hs' & _ & -> & _). simpl in Ej.
      apply collector_id_inj in Ej as [_ Ek]; [|auto..]. by apply (key_unique ps).
    + intros p Hp. apply service_entries_keys_NoDup. auto.
    + by apply NoDup_fmap_1 in Hkeys.
Qed.

Lemma signalsWith_elem ps sig p :
  p ∈ signalsWith ps sig ↔ p ∈ ps ∧ sig ∈ g_Signals (rp_Graph p).
Proof.
  unfold signalsWith. rewrite list_elem_of_bind. setoid_rewrite list_elem_of_bind.
  setoid_rewrite list_elem_of_filter. set_solver.
Qed.

Lemma filter_eq_NoDup (s : string) (l : list string) :
  NoDup l → filter (λ x, x = s) l = if bool_decide (s ∈ l) then [s] else [].
Proof.
  induction 1 as [|x l Hx Hnd IH]; [done|]. rewrite filter_cons, IH.
  destruct (decide (x = s)) as [->|Hne].
  - rewrite (bool_decide_false (s ∈ l)) by done. by rewrite bool_decide_true by left.
  - destruct (decide (s ∈ l)); [rewrite !bool_decide_true by (try right; done)|
      rewrite !bool_decide_false by set_solver]; done.
Qed.

(** A pipeline that lists a signal once is routed once. *)
Lemma signalsWith_filter ps sig :
  Forall input_ok ps →
  signalsWith ps sig = filter (λ p, sig ∈ g_Signals (rp_Graph p)) ps.
Proof.
  unfold signalsWith. induction 1 as [|p ps Hp Hps IH]; [done|]. cbn [mbind list_bind].
  rewrite filter_cons, <- IH. rewrite filter_eq_NoDup by apply (ok_signals_distinct _ (in_graph _ Hp)).
  destruct (decide (sig ∈ g_Signals (rp_Graph p)));
    [rewrite bool_decide_true by done|rewrite bool_decide_false by done]; done.
Qed.

Lemma clientOrder_spec routed :
  NoDup (clientOrder routed) ∧
  ∀ c, c ∈ clientOrder routed ↔ ∃ p, p ∈ routed ∧ rp_ClientID p = c.
Proof.
  unfold clientOrder.
  assert (H : ∀ acc, NoDup acc →
    let r := foldl (λ order p, if bool_decide (rp_ClientID p ∈ order) then order
                    else order ++ [rp_ClientID p]) acc routed in
    NoDup r ∧ ∀ c, c ∈ r ↔ c ∈ acc ∨ ∃ p, p ∈ routed ∧ rp_ClientID p = c).
  { induction routed as [|p l IH]; intros acc Hacc; simpl.
    - split; [done|]. set_solver.
    - case_bool_decide as Hin.
      + destruct (IH acc Hacc) as [? H]. split; [done|]. intros c. rewrite H. set_solver.
      + assert (Hacc' : NoDup (acc ++ [rp_ClientID p])).
        { apply NoDup_app. split_and!; [done| |apply NoDup_singleton]. set_solver. }
        destruct (IH _ Hacc') as [? H]. split; [done|]. intros c. rewrite H. set_solver. }
  destruct (H [] (NoDup_nil_2)) as [? H']. split; [done|]. intros c. rewrite H'. set_solver.
Qed.

Section Forwarding.
Context (pr : N → bool).

Lemma connector_entries_elem ps c conn :
  (c, conn) ∈ connector_entries pr ps ↔
  ∃ sig, sig ∈ Signals ∧ signalsWith ps sig ≠ [] ∧ c = routingConnectorID sig ∧
         conn = connector_node pr sig (signalsWith ps sig).
Proof.
  unfold connector_entries. rewrite list_elem_of_omap. split.
  - intros (sig & Hs & E). exists sig. destruct (signalsWith ps sig) eqn:Er; [done|].
    injection E as <- <-. eauto.
  - intros (sig & Hs & Hne & -> & ->). exists sig. split; [done|].
    by destruct (signalsWith ps sig).
Qed.

Lemma connector_entries_NoDup ps : NoDup (connector_entries pr ps).*1.
Proof.
  apply (omap_keys_NoDup _ routingConnectorID); [apply Signals_NoDup|..].
  - intros sig kv. destruct (signalsWith ps sig); [done|]. by intros [= <-].
  - intros x y _ _ E. by apply app_str_inj_l in E.
Qed.

Lemma connector_key_in ps sig :
  sig ∈ Signals → signalsWith ps sig ≠ [] → routingConnectorID sig ∈ (connector_entries pr ps).*1.
Proof.
  intros Hs Hne. apply list_elem_of_fmap.
  exists (routingConnectorID sig, connector_node pr sig (signalsWith ps sig)).
  split; [done|]. apply connector_entries_elem. eauto.
Qed.

(** The sections of a forwarding configuration. *)
Lemma fwd_connectors ps :
  fields (at_key "connectors" (forwarding_doc pr ps)) = connector_entries pr ps.
Proof. unfold forwarding_doc. destruct (connector_entries pr ps); repeat split; reflexivity. Qed.

Lemma fwd_exporters ps :
  at_key "exporters" (forwarding_doc pr ps)
  = exporters_node (existsb (λ sig, bool_decide (signalsWith ps sig = [])) Signals) ps.
Proof. unfold forwarding_doc. destruct (connector_entries pr ps); repeat split; reflexivity. Qed.

Definition fwd_entries (ps : list RenderPipeline) : list (string * ynode) :=
  map (λ sig, (sig +:+ "/in", entry_pipeline (sink_of ps sig))) Signals.

Lemma fwd_service ps :
  service_pipelines (forwarding_doc pr ps)
  = YMap (fwd_entries ps ++ ps ≫= service_entries forwarding_pipeline).
Proof.
  unfold service_pipelines, forwarding_doc. destruct (connector_entries pr ps); reflexivity.
Qed.

Lemma fwd_extensions ps :
  at_key "extensions" (forwarding_doc pr ps) = extensions_node ∧
  at_key "extensions" (at_key "service" (forwarding_doc pr ps)) = strs_node ["health_check"].
Proof. unfold forwarding_doc. destruct (connector_entries pr ps); repeat split; reflexivity. Qed.

End Forwarding.

(** ** Rendered configurations are well formed *)

Lemma imap_nil {A B} (f : nat → A → B) l : l ≠ [] → imap f l ≠ [].
Proof. by destruct l. Qed.

Lemma node_sels :
  (∀ g, graph_ok g → Forall (λ n, node_ok n = true) (g_Processors g) ∧
     NoDup (imap (λ i n, ComponentID n i "c" "p") (g_Processors g))) ∧
  (∀ g, graph_ok g → Forall (λ n, node_ok n = true) (g_Exporters g) ∧
     NoDup (imap (λ i n, ComponentID n i "c" "p") (g_Exporters g))).
Proof. split; intros g []; done. Qed.

Section WellFormed.
Context (pr : N → bool) (ps : list RenderPipeline).
Context (Hps : Forall input_ok ps) (Hkeys : NoDup (map rp_key ps)).

Lemma processors_NoDup : NoDup (keys_of (processors_node ps)).
Proof using Hps Hkeys.
  apply (section_keys_NoDup g_Processors); try done; [apply node_sels| |];
    apply (bool_decide_unpack _); by vm_compute.
Qed.

Lemma exporters_NoDup b : NoDup (keys_of (exporters_node b ps)).
Proof using Hps Hkeys.
  apply (section_keys_NoDup g_Exporters); try done; [apply node_sels| |];
    destruct b; apply (bool_decide_unpack _); by vm_compute.
Qed.

Lemma default_processors_in k :
  k ∈ ["memory_limiter"; "batch"] → k ∈ keys_of (processors_node ps).
Proof using.
  intros H. unfold keys_of, processors_node. simpl. rewrite !elem_of_cons in *.
  destruct H as [->|[->|H]]; auto. by apply elem_of_nil in H.
Qed.

Lemma processor_in p k :
  p ∈ ps → k ∈ processor_ids p → k ∈ keys_of (processors_node ps).
Proof using. apply (section_has g_Processors). Qed.

Lemma exporter_in b p k :
  p ∈ ps → k ∈ exporter_ids p → k ∈ keys_of (exporters_node b ps).
Proof using. apply (section_has g_Exporters). Qed.

Lemma exporter_ids_nonempty p : p ∈ ps → exporter_ids p ≠ [].
Proof using Hps.
  rewrite Forall_forall in Hps. intros Hp. apply imap_nil. apply (in_graph _ (Hps p Hp)).
Qed.

Lemma entries_NoDup f : NoDup (map (λ sig : string, (sig +:+ "/in", f sig)) Signals : list (string * ynode)).*1.
Proof using.
  rewrite <- list_fmap_compose. change (NoDup entry_keys).
  apply (bool_decide_unpack _). by vm_compute.
Qed.

Lemma entries_keys f k :
  k ∈ (map (λ sig : string, (sig +:+ "/in", f sig)) Signals : list (string * ynode)).*1 →
  k ∈ entry_keys.
Proof using. by rewrite <- list_fmap_compose. Qed.

(** An entry of the forwarding tier's [service.pipelines]. *)
Lemma fwd_service_elem id pl :
  (id, pl) ∈ fields (service_pipelines (forwarding_doc pr ps)) →
  (∃ sig, sig ∈ Signals ∧ id = sig +:+ "/in" ∧ pl = entry_pipeline (sink_of ps sig)) ∨
  (∃ p sig, p ∈ ps ∧ sig ∈ Signals ∧ sig ∈ g_Signals (rp_Graph p) ∧
     id = collector_id p sig ∧ pl = forwarding_pipeline p sig).
Proof using.
  rewrite fwd_service. cbn [fields]. intros [H|H]%elem_of_app.
  - left. apply list_elem_of_fmap in H as (sig & E & Hs). injection E as -> ->. eauto.
  - right. apply list_elem_of_bind in H as (p & H & Hp).
    apply service_entries_elem in H as (sig & Hs & Hg & -> & ->). eauto 10.
Qed.

Lemma fwd_customer_entry p sig :
  p ∈ ps → sig ∈ Signals → sig ∈ g_Signals (rp_Graph p) →
  (collector_id p sig, forwarding_pipeline p sig)
    ∈ fields (service_pipelines (forwarding_doc pr ps)).
Proof using.
  intros Hp Hs Hg. rewrite fwd_service. cbn [fields]. apply elem_of_app. right.
  apply list_elem_of_bind. exists p. split; [|done]. apply service_entries_elem. eauto.
Qed.

Lemma forwarding_pipeline_parts p sig :
  strings (at_key "receivers" (forwarding_pipeline p sig)) = [routingConnectorID sig] ∧
  strings (at_key "processors" (forwarding_pipeline p sig)) = processor_ids p ∧
  strings (at_key "exporters" (forwarding_pipeline p sig)) = exporter_ids p.
Proof using.
  unfold forwarding_pipeline. case_bool_decide as E.
  - split_and!; [done| |apply strings_strs_node]. unfold processor_ids, node_ids. by rewrite E.
  - split_and!; [done|apply strings_strs_node..].
Qed.

Lemma sink_defined sig :
  sig ∈ Signals →
  sink_of ps sig ∈ keys_of (exporters_node
      (existsb (λ sig, bool_decide (signalsWith ps sig = [])) Signals) ps)
    ++ (connector_entries pr ps).*1.
Proof using.
  intros Hs. unfold sink_of. apply elem_of_app.
  destruct (signalsWith ps sig) eqn:E.
  - left. assert (existsb (λ sig, bool_decide (signalsWith ps sig = [])) Signals = true) as ->.
    { apply existsb_exists. exists sig. split; [by apply list_elem_of_In|by apply bool_decide_eq_true]. }
    unfold keys_of, exporters_node. simpl. left.
  - right. apply connector_key_in; [done|]. by rewrite E.
Qed.

Lemma fwd_routes c conn entry :
  (c, conn) ∈ fields (at_key "connectors" (forwarding_doc pr ps)) →
  entry ∈ elements (at_key "table" conn) →
  strings (at_key "pipelines" entry) ≠ [] ∧
  ∀ id, id ∈ strings (at_key "pipelines" entry) →
    ∃ pl, (id, pl) ∈ fields (service_pipelines (forwarding_doc pr ps)) ∧
          strings (at_key "receivers" pl) = [c].
Proof using.
  intros Hc He. rewrite fwd_connectors in Hc.
  apply connector_entries_elem in Hc as (sig & Hs & Hne & -> & ->).
  apply list_elem_of_fmap in He as (cl & -> & Hcl). apply clientOrder_spec in Hcl as (p & Hp & <-).
  unfold table_entry. change (at_key "pipelines" _) with (strs_node
    (byClient sig (signalsWith ps sig) (rp_ClientID p))). rewrite strings_strs_node. split.
  - unfold byClient. intros E%fmap_nil_inv.
    assert (H : p ∈ filter (λ q, rp_ClientID q = rp_ClientID p) (signalsWith ps sig))
      by by apply list_elem_of_filter.
    rewrite E in H. by apply elem_of_nil in H.
  - intros id (r & -> & [_ [Hr Hg]%signalsWith_elem]%list_elem_of_filter)%list_elem_of_fmap.
    exists (forwarding_pipeline r sig).
    split; [by apply fwd_customer_entry|]. apply forwarding_pipeline_parts.
Qed.

Lemma fwd_connectors_fed c :
  c ∈ keys_of (at_key "connectors" (forwarding_doc pr ps)) →
  ∃ id pl, (id, pl) ∈ fields (service_pipelines (forwarding_doc pr ps)) ∧
           strings (at_key "exporters" pl) = [c].
Proof using.
  unfold keys_of. rewrite fwd_connectors. intros ([c' conn] & -> & Hc)%list_elem_of_fmap.
  apply connector_entries_elem in Hc as (sig & Hs & Hne & -> & ->).
  exists (sig +:+ "/in"), (entry_pipeline (sink_of ps sig)). split.
  - rewrite fwd_service. cbn [fields]. apply elem_of_app. left. apply list_elem_of_fmap. eauto.
  - unfold sink_of. by destruct (signalsWith ps sig).
Qed.

Lemma wf_forwarding : wf_config (forwarding_doc pr ps).
Proof using All.
  constructor.
  - unfold forwarding_doc. destruct (connector_entries pr ps);
      apply (bool_decide_unpack _); by vm_compute.
  - intros k Hk. rewrite !elem_of_cons in Hk.
    destruct Hk as [->|[->|[->|[->|[->|H]]]]]; [..|by apply elem_of_nil in H].
    + apply NoDup_singleton.
    + apply processors_NoDup.
    + unfold keys_of. rewrite fwd_connectors. apply connector_entries_NoDup.
    + rewrite fwd_exporters. apply exporters_NoDup.
    + rewrite (proj1 (fwd_extensions pr ps)). apply NoDup_singleton.
  - unfold keys_of. rewrite fwd_service. apply service_pipelines_NoDup; [done|done|..].
    + apply entries_NoDup.
    + intros k. apply entries_keys.
  - unfold keys_of. rewrite fwd_service. done.
  - intros id pl [(sig & Hs & -> & ->)|(p & sig & Hp & Hs & Hg & -> & ->)]%fwd_service_elem.
    + split; [done|]. intros r Hr. apply elem_of_app. left. exact Hr.
    + rewrite (proj1 (forwarding_pipeline_parts p sig)). split; [done|].
      intros r ->%list_elem_of_singleton. apply elem_of_app. right. unfold keys_of.
      rewrite fwd_connectors. apply connector_key_in; [done|].
      intros E. assert (H : p ∈ signalsWith ps sig) by by apply signalsWith_elem.
      rewrite E in H. by apply elem_of_nil in H.
  - intros id pl r [(sig & Hs & -> & ->)|(p & sig & Hp & Hs & Hg & -> & ->)]%fwd_service_elem Hr.
    + by apply default_processors_in.
    + rewrite (proj1 (proj2 (forwarding_pipeline_parts p sig))) in Hr. by eapply processor_in.
  - intros id pl [(sig & Hs & -> & ->)|(p & sig & Hp & Hs & Hg & -> & ->)]%fwd_service_elem.
    + split; [done|]. intros r ->%list_elem_of_singleton. unfold keys_of at 2.
      rewrite fwd_exporters, fwd_connectors. by apply sink_defined.
    + rewrite (proj2 (proj2 (forwarding_pipeline_parts p sig))).
      split; [by apply exporter_ids_nonempty|]. intros r Hr. apply elem_of_app. left.
      rewrite fwd_exporters. by eapply exporter_in.
  - apply fwd_routes.
  - apply fwd_connectors_fed.
  - intros e. rewrite (proj1 (fwd_extensions pr ps)), (proj2 (fwd_extensions pr ps)). done.
Qed.

(** The edge tier has no connectors; without pipelines it drains to debug. *)
Definition edge_frame : list (string * ynode) :=
  if bool_decide (ps = []) then map (λ sig, (sig +:+ "/in", entry_pipeline "debug")) Signals
  else [].

Lemma edge_service_elem id pl :
  (id, pl) ∈ fields (service_pipelines (edge_doc ps)) →
  (ps = [] ∧ pl = entry_pipeline "debug") ∨
  (∃ p sig, p ∈ ps ∧ pl = edge_pipeline p sig).
Proof using.
  change (fields (service_pipelines (edge_doc ps)))
    with (edge_frame ++ ps ≫= service_entries edge_pipeline).
  unfold edge_frame. intros [H|H]%elem_of_app.
  - left. case_bool_decide; [|by apply elem_of_nil in H].
    apply list_elem_of_fmap in H as (sig & E & Hs). by injection E as _ ->.
  - right. apply list_elem_of_bind in H as (p & H & Hp).
    apply service_entries_elem in H as (sig & _ & _ & _ & ->). eauto.
Qed.

Lemma edge_pipelines_some : keys_of (service_pipelines (edge_doc ps)) ≠ [].
Proof using Hps Hkeys.
  change (keys_of (service_pipelines (edge_doc ps)))
    with ((edge_frame ++ ps ≫= service_entries edge_pipeline).*1).
  unfold edge_frame. case_bool_decide as E; [done|]. destruct ps as [|p l] eqn:El; [done|].
  apply Forall_cons in Hps as [[_ _ Hg] _].
  destruct (g_Signals (rp_Graph p)) as [|sig l'] eqn:Es; [by destruct (ok_signals_nonempty _ Hg)|].
  intros H. assert (Hin : (collector_id p sig, edge_pipeline p sig)
    ∈ [] ++ (p :: l) ≫= service_entries edge_pipeline).
  { apply elem_of_app. right. apply list_elem_of_bind. exists p. split; [|left].
    apply service_entries_elem. exists sig. split_and!; try done.
    - apply validSignal_elem. pose proof (ok_signals _ Hg) as Hv. rewrite Es in Hv.
      by apply Forall_cons in Hv as [? _].
    - rewrite Es. left. }
  apply (list_elem_of_fmap_2 fst) in Hin. rewrite H in Hin. by apply elem_of_nil in Hin.
Qed.

Lemma wf_edge : wf_config (edge_doc ps).
Proof using Hps Hkeys.
  constructor.
  - apply (bool_decide_unpack _). by vm_compute.
  - intros k Hk. rewrite !elem_of_cons in Hk.
    destruct Hk as [->|[->|[->|[->|[->|H]]]]]; [..|by apply elem_of_nil in H].
    + apply NoDup_singleton.
    + apply processors_NoDup.
    + apply NoDup_nil_2.
    + apply exporters_NoDup.
    + apply NoDup_singleton.
  - apply (service_pipelines_NoDup edge_pipeline ps edge_frame); [done|done|..];
      unfold edge_frame; case_bool_decide; [apply entries_NoDup|apply NoDup_nil_2| |].
    + intros k. apply entries_keys.
    + by intros k ?%elem_of_nil.
  - apply edge_pipelines_some.
  - intros id pl [[_ ->]|(p & sig & Hp & ->)]%edge_service_elem;
      (split; [done|]; intros r Hr; apply elem_of_app; left; exact Hr).
  - intros id pl r [[_ ->]|(p & sig & Hp & ->)]%edge_service_elem Hr.
    + by apply default_processors_in.
    + unfold edge_pipeline in Hr. change (at_key "processors" _) with
        (strs_node (edgeProcessorIDs p)) in Hr. rewrite strings_strs_node in Hr.
      apply elem_of_app in Hr as [Hr|Hr]; [by apply default_processors_in|].
      by eapply processor_in.
  - intros id pl [[E ->]|(p & sig & Hp & ->)]%edge_service_elem.
    + split; [done|]. intros r ->%list_elem_of_singleton. rewrite E. by left.
    + unfold edge_pipeline. change (at_key "exporters" (YMap _)) with
        (strs_node (exporter_ids p)). rewrite strings_strs_node.
      split; [by apply exporter_ids_nonempty|]. intros r Hr. apply elem_of_app. left.
      by eapply exporter_in.
  - intros c conn entry Hc. by apply elem_of_nil in Hc.
  - intros c Hc. by apply elem_of_nil in Hc.
  - done.
Qed.

End WellFormed.

(** ** What reaches the exporters

    The path of telemetry of tenant [t] and signal [sig] through a
    configuration: the entry pipeline's sink, the routing table's entry for
    the tenant, the collector pipelines it names, and the configurations of
    the exporters those list. *)

Section Isolation.
Context (pr : N → bool).

(** The entry of a routing table whose condition is the tenant's. *)
Definition has_condition (t : string) (e : ynode) : bool :=
  match at_key "condition" e with
  | YScalar (SStr s) => bool_decide (s = condition pr t)
  | _ => false
  end.

Definition route (table : list ynode) (t : string) : list string :=
  match find (has_condition t) table with
  | Some e => strings (at_key "pipelines" e)
  | None => []
  end.

Definition routed_to (doc : ynode) (sig t : string) : list string :=
  strings (at_key "exporters" (at_key (sig +:+ "/in") (service_pipelines doc)))
    ≫= λ c, match member c (fields (at_key "connectors" doc)) with
            | Some conn => route (elements (at_key "table" conn)) t
            | None => []
            end.

Definition reached (doc : ynode) (sig t : string) : list ynode :=
  routed_to doc sig t
    ≫= λ id, strings (at_key "exporters" (at_key id (service_pipelines doc)))
    ≫= λ e, match member e (fields (at_key "exporters" doc)) with
            | Some n => [n] | None => [] end.

(** The pipelines of tenant [t] that carry [sig]. *)
Definition owned (sig t : string) (ps : list RenderPipeline) : list RenderPipeline :=
  filter (λ p, rp_ClientID p = t ∧ sig ∈ g_Signals (rp_Graph p)) ps.

Definition client_ok (p : RenderPipeline) : Prop := all_bytes plain_char (rp_ClientID p) = true.

Lemma condition_inj s t :
  all_bytes plain_char s = true → all_bytes plain_char t = true →
  condition pr s = condition pr t → s = t.
Proof.
  unfold condition. intros Hs Ht H. do 3 apply app_str_inj_l in H.
  by apply (Quote_plain_inj pr).
Qed.

Lemma find_map_unique {A B} (f : A → B) (g : B → bool) (l : list A) (x : A) :
  x ∈ l → g (f x) = true → (∀ y, y ∈ l → g (f y) = true → y = x) →
  find g (map f l) = Some (f x).
Proof.
  intros Hx Hg Hu. induction l as [|y l IH]; [by apply elem_of_nil in Hx|]. simpl.
  destruct (g (f y)) eqn:E.
  - by rewrite (Hu y) by (done || left).
  - apply elem_of_cons in Hx as [->|Hx]; [by rewrite Hg in E|].
    apply IH; [done|]. intros z Hz. apply Hu. by right.
Qed.

Lemma find_none {A} (g : A → bool) (l : list A) : (∀ y, y ∈ l → g y = false) → find g l = None.
Proof.
  induction l as [|y l IH]; intros H; [done|]. simpl. rewrite (H y) by left.
  apply IH. intros z Hz. apply H. by right.
Qed.

Lemma route_table sig routed t :
  Forall client_ok routed → all_bytes plain_char t = true →
  route (map (table_entry pr sig routed) (clientOrder routed)) t = byClient sig routed t.
Proof.
  intros Hc Ht. rewrite Forall_forall in Hc. unfold route.
  assert (Hg : ∀ c, c ∈ clientOrder routed →
    has_condition t (table_entry pr sig routed c) = true → c = t).
  { intros c (p & Hp & <-)%clientOrder_spec E%bool_decide_eq_true.
    apply condition_inj in E; [done|by apply Hc|done]. }
  destruct (decide (t ∈ clientOrder routed)) as [Hin|Hn].
  - rewrite (find_map_unique _ _ _ t); [|done|by apply bool_decide_eq_true|done].
    change (at_key "pipelines" _) with (strs_node (byClient sig routed t)).
    by rewrite strings_strs_node.
  - rewrite find_none.
    + unfold byClient. rewrite filter_none; [done|].
      intros p Hp E. apply Hn, clientOrder_spec. eauto.
    + intros e (c & -> & Hcl)%list_elem_of_fmap. apply not_true_iff_false. intros E.
      apply Hg in E; [|done]. by subst.
Qed.

Lemma at_key_member k v m : NoDup m.*1 → (k, v) ∈ m → at_key k (YMap m) = v.
Proof. intros Hnd Hin. unfold at_key. simpl. by rewrite (elem_member _ _ _ Hnd Hin). Qed.

Section Doc.
Context (ps : list RenderPipeline).
Context (Hps : Forall input_ok ps) (Hkeys : NoDup (map rp_key ps)) (Hcl : Forall client_ok ps).
Let doc := forwarding_doc pr ps.

Lemma doc_pipeline id pl :
  (id, pl) ∈ fields (service_pipelines doc) → at_key id (service_pipelines doc) = pl.
Proof using Hps Hkeys.
  intros H. pose proof (wf_pipelines_distinct _ (wf_forwarding pr ps Hps Hkeys)) as Hnd.
  fold doc in Hnd. unfold at_key. by rewrite (elem_member _ _ _ Hnd H).
Qed.

Lemma doc_entry sig :
  sig ∈ Signals →
  strings (at_key "exporters" (at_key (sig +:+ "/in") (service_pipelines doc)))
  = [sink_of ps sig].
Proof using Hps Hkeys.
  intros Hs. erewrite (doc_pipeline _ (entry_pipeline (sink_of ps sig))); [done|].
  unfold doc. rewrite fwd_service. cbn [fields]. apply elem_of_app. left.
  apply list_elem_of_fmap. eauto.
Qed.

Lemma doc_routed sig t :
  sig ∈ Signals → all_bytes plain_char t = true →
  routed_to doc sig t = map (λ p, collector_id p sig) (owned sig t ps).
Proof using Hps Hkeys Hcl.
  intros Hs Ht. unfold routed_to. rewrite doc_entry by done. cbn [mbind list_bind].
  rewrite app_nil_r. unfold doc. rewrite fwd_connectors. unfold sink_of.
  assert (Ho : owned sig t ps = filter (λ p, rp_ClientID p = t) (signalsWith ps sig)).
  { unfold owned. by rewrite signalsWith_filter, list_filter_filter by done. }
  destruct (signalsWith ps sig) as [|p l] eqn:E; rewrite <- E in Ho.
  - rewrite Ho, E. simpl. destruct (member _ _) eqn:Em; [|done].
    apply member_elem, connector_entries_elem in Em as (sig' & Hs' & _ & Ec & _). done.
  - rewrite (elem_member _ _ (connector_node pr sig (signalsWith ps sig)));
      [|apply connector_entries_NoDup|].
    2: { apply connector_entries_elem. exists sig. split_and!; try done. by rewrite E. }
    change (elements _) with (map (table_entry pr sig (signalsWith ps sig))
                                (clientOrder (signalsWith ps sig))).
    rewrite route_table; [by rewrite Ho| |done].
    apply Forall_forall. intros q [Hq _]%signalsWith_elem. rewrite Forall_forall in Hcl. auto.
Qed.

Lemma doc_exporters p :
  p ∈ ps →
  (exporter_ids p ≫= λ e, match member e (fields (at_key "exporters" doc)) with
                          | Some n => [n] | None => [] end)
  = map config_node (g_Exporters (rp_Graph p)).
Proof using Hps Hkeys.
  intros Hp. unfold doc. rewrite fwd_exporters. cbn [fields exporters_node].
  set (b := existsb _ _). pose proof (exporters_NoDup ps Hps Hkeys b) as Hnd.
  unfold keys_of, exporters_node in Hnd. cbn [fields] in Hnd.
  set (m := _ ++ _) in *.
  assert (Hm : ∀ i n, g_Exporters (rp_Graph p) !! i = Some n →
                 member (rp_component p i n) m = Some (config_node n)).
  { intros i n Hi. apply elem_member; [done|]. apply elem_of_app. right.
    apply list_elem_of_bind. exists p. split; [|done].
    apply elem_of_lookup_imap_2 with (f := λ i n, (rp_component p i n, config_node n)). done. }
  clearbody m. unfold exporter_ids, node_ids.
  revert Hm. generalize (g_Exporters (rp_Graph p)) (rp_component p). clear. intros nodes.
  induction nodes as [|n nodes IH]; intros f Hm; [done|]. cbn.
  rewrite (Hm 0 n eq_refl). cbn. f_equal. apply (IH (f ∘ S)). intros i x Hi. by apply Hm.
Qed.

Lemma doc_reached sig t :
  sig ∈ Signals → all_bytes plain_char t = true →
  reached doc sig t = owned sig t ps ≫= λ p, map config_node (g_Exporters (rp_Graph p)).
Proof using Hps Hkeys Hcl.
  intros Hs Ht. unfold reached. rewrite doc_routed by done.
  assert (Ho : ∀ p, p ∈ owned sig t ps → p ∈ ps ∧ sig ∈ g_Signals (rp_Graph p)).
  { intros p [[_ ?] ?]%list_elem_of_filter. done. }
  revert Ho. generalize (owned sig t ps). intros l.
  induction l as [|p l IH]; intros Ho; [done|]. cbn [map fmap list_fmap mbind list_bind].
  f_equal; [|apply IH; intros q Hq; apply Ho; by right].
  destruct (Ho p) as [Hp Hg]; [left|].
  erewrite doc_pipeline by by apply fwd_customer_entry.
  rewrite (proj2 (proj2 (forwarding_pipeline_parts p sig))). by apply doc_exporters.
Qed.

End Doc.
End Isolation.

(** ** Theorems *)

(** A renderer input whose graph structural validation accepts. *)
Definition validated (pr : N → bool) `{JSONSchema} (p : RenderPipeline) : Prop :=
  slug_ok (rp_CustomerSlug p) = true ∧ slug_ok (rp_PipelineSlug p) = true ∧
  ValidateStructural pr (rp_Graph p) = [].

#[export] Instance validated_dec pr `{JSONSchema} p : Decision (validated pr p).
Proof. unfold validated. apply _. Defined.
#[export] Instance client_ok_dec p : Decision (client_ok p).
Proof. unfold client_ok. apply _. Defined.

Lemma validated_ok pr `{JSONSchema} ps : Forall (validated pr) ps → Forall input_ok ps.
Proof.
  intros Hv. eapply Forall_impl; [exact Hv|]. intros p (Hc & Hp & Hg). constructor; [done..|].
  by eapply ValidateStructural_ok.
Qed.

Lemma sorted_input_ok (P : RenderPipeline → Prop) ps : Forall P ps → Forall P (sort_pipelines ps).
Proof. by rewrite sort_pipelines_perm. Qed.

Lemma sorted_keys ps : NoDup (map rp_key ps) → NoDup (map rp_key (sort_pipelines ps)).
Proof.
  intros H. assert (E : map rp_key (sort_pipelines ps) ≡ₚ map rp_key ps); [|by rewrite E].
  apply fmap_Permutation, sort_pipelines_perm.
Qed.

Lemma forwarding_tree_inl pr ps :
  NoDup (map rp_key ps) → forwarding_tree pr ps = inl (forwarding_doc pr (sort_pipelines ps)).
Proof.
  intros H%sorted_keys. unfold forwarding_tree. by rewrite (proj2 (first_duplicate_nil _) H).
Qed.

Lemma edge_tree_inl pr ps :
  NoDup (map rp_key ps) → edge_tree pr ps = inl (edge_doc (sort_pipelines ps)).
Proof.
  intros H%sorted_keys. unfold edge_tree. by rewrite (proj2 (first_duplicate_nil _) H).
Qed.

Lemma rendered_trees (pr : N → bool) `{JSONSchema} (ps : list RenderPipeline) :
  Forall (validated pr) ps → NoDup (map rp_key ps) →
  ∃ fwd edge,
    forwarding_tree pr ps = inl fwd ∧ wf_config fwd ∧
    edge_tree pr ps = inl edge ∧ wf_config edge.
Proof.
  intros Hps%validated_ok%sorted_input_ok Hk.
  exists (forwarding_doc pr (sort_pipelines ps)), (edge_doc (sort_pipelines ps)).
  split_and!; [by apply forwarding_tree_inl| |by apply edge_tree_inl|].
  - apply wf_forwarding; [done|by apply sorted_keys].
  - apply wf_edge; [done|by apply sorted_keys].
Qed.

(** C17: Configurations rendered from validated pipelines with distinct slugs
    are well formed on both tiers: no section defines a name twice, every
    receiver, processor, exporter and extension a collector pipeline mentions
    is defined, every connector is fed, and every route of a routing table
    leads to a collector pipeline that receives from that connector. *)
Theorem rendered_configs_wellformed (pr : N → bool) `{JSONSchema} (ps : list RenderPipeline) :
  Forall (validated pr) ps → NoDup (map rp_key ps) →
  ∃ fwd edge,
    forwarding_tree pr ps = inl fwd ∧ wf_config fwd ∧
    edge_tree pr ps = inl edge ∧ wf_config edge.
Proof. apply rendered_trees. Qed.

(** C18: The rendered configurations, errors included, do not depend on the
    order in which the pipelines are given. *)
Theorem render_order_irrelevant (pr : N → bool) `{YAML} (ps qs : list RenderPipeline) :
  ps ≡ₚ qs →
  RenderForwardingConfig pr ps = RenderForwardingConfig pr qs ∧
  RenderEdgeConfig pr ps = RenderEdgeConfig pr qs.
Proof.
  intros Hp. unfold RenderForwardingConfig, RenderEdgeConfig, forwarding_tree, edge_tree.
  rewrite (sort_pipelines_keys_eq _ _ Hp).
  destruct (first_duplicate [] (map rp_key (sort_pipelines qs))) as [key|] eqn:E; [done|].
  apply first_duplicate_nil in E. rewrite (sort_pipelines_unique ps qs Hp); [done|].
  rewrite Hp. by rewrite <- (sort_pipelines_perm qs).
Qed.

(** C19: In the rendered forwarding configuration, telemetry of tenant [t] and
    signal [sig] reaches exactly the exporters of the tenant's own pipelines
    that carry the signal, with the configurations their graphs give, in
    order; a tenant without such a pipeline reaches none. *)
Theorem tenant_reaches_own_exporters (pr : N → bool) `{JSONSchema}
    (ps : list RenderPipeline) (doc : ynode) (sig t : string) :
  Forall (validated pr) ps → Forall client_ok ps →
  forwarding_tree pr ps = inl doc →
  sig ∈ Signals → all_bytes plain_char t = true →
  reached pr doc sig t
  = owned sig t (sort_pipelines ps) ≫= λ p, map config_node (g_Exporters (rp_Graph p)).
Proof.
  intros Hps%validated_ok%sorted_input_ok Hcl%sorted_input_ok Ht Hs Hpt.
  unfold forwarding_tree in Ht.
  destruct (first_duplicate _ _) eqn:E; [done|]. injection Ht as <-.
  apply first_duplicate_nil in E. by apply doc_reached.
Qed.

(** ** A concrete fleet *)

Definition accept_schema : JSONSchema :=
  {| schema_compile _ := None; schema_Validate _ _ := None |}.

Definition otlp_to (endpoint : string) : Node :=
  {| n_Type := "otlp"; n_Name := None; n_Config := Some [("endpoint", JStr endpoint)] |}.

Definition fleet : list RenderPipeline :=
  [{| rp_CustomerSlug := "zeta"; rp_ClientID := "cust_02"; rp_PipelineSlug := "main";
      rp_Graph := {| g_Signals := ["logs"]; g_Processors := []; g_Exporters := [otlp_to "z:1"] |} |};
   {| rp_CustomerSlug := "acme"; rp_ClientID := "cust_01"; rp_PipelineSlug := "backup";
      rp_Graph := {| g_Signals := ["traces"; "logs"];
        g_Processors := [{| n_Type := "batch"; n_Name := Some "b1"; n_Config := None |}];
        g_Exporters := [otlp_to "a:1"; otlp_to "a:2"] |} |}].

Lemma fleet_validated : Forall (@validated (λ _, true) accept_schema) fleet.
Proof. apply (bool_decide_unpack _). by vm_compute. Qed.

Lemma rendered_configs_wellformed_witness :
  ∃ fwd edge, forwarding_tree (λ _, true) fleet = inl fwd ∧ wf_config fwd ∧
    edge_tree (λ _, true) fleet = inl edge ∧ wf_config edge.
Proof.
  apply (@rendered_configs_wellformed (λ _, true) accept_schema fleet).
  - apply fleet_validated.
  - apply (bool_decide_unpack _). by vm_compute.
Defined.

Lemma render_order_irrelevant_witness :
  let yml := {| yaml_Encode _ := Some "yaml" |} in
  @RenderForwardingConfig (λ _, true) yml fleet
  = @RenderForwardingConfig (λ _, true) yml (reverse fleet) ∧
  @RenderEdgeConfig (λ _, true) yml fleet
  = @RenderEdgeConfig (λ _, true) yml (reverse fleet).
Proof. apply render_order_irrelevant. symmetry. apply reverse_Permutation. Defined.

Lemma tenant_reaches_own_exporters_witness :
  ∃ doc, forwarding_tree (λ _, true) fleet = inl doc ∧
  reached (λ _, true) doc "logs" "cust_01"
  = [toNode (JObj [("endpoint", JStr "a:1")]); toNode (JObj [("endpoint", JStr "a:2")])].
Proof.
  eexists. split; [apply forwarding_tree_inl; apply (bool_decide_unpack _); by vm_compute|].
  rewrite (@tenant_reaches_own_exporters (λ _, true) accept_schema fleet).
  - by vm_compute.
  - apply fleet_validated.
  - apply (bool_decide_unpack _). by vm_compute.
  - apply forwarding_tree_inl; apply (bool_decide_unpack _); by vm_compute.
  - left.
  - reflexivity.
Defined.
