(* ===== verification/AesGcm.v ===== *)
(** * AES-256-GCM

    [crypto/aes] and [crypto/cipher]'s GCM as the program uses them: a 32-byte
    key, the standard 12-byte nonce and 16-byte tag, no additional data.  The
    block cipher is FIPS 197's, the mode NIST SP 800-38D's, both executable
    and checked on the standards' examples. *)
From Stdlib Require Import Ascii.
From S2P Require Import Prelude GoStrings.
#[local] Open Scope N_scope.

Module AES.

Definition sbox_table : list N :=
  [99; 124; 119; 123; 242; 107; 111; 197; 48; 1; 103; 43; 254; 215; 171; 118;
   202; 130; 201; 125; 250; 89; 71; 240; 173; 212; 162; 175; 156; 164; 114; 192;
   183; 253; 147; 38; 54; 63; 247; 204; 52; 165; 229; 241; 113; 216; 49; 21;
   4; 199; 35; 195; 24; 150; 5; 154; 7; 18; 128; 226; 235; 39; 178; 117;
   9; 131; 44; 26; 27; 110; 90; 160; 82; 59; 214; 179; 41; 227; 47; 132;
   83; 209; 0; 237; 32; 252; 177; 91; 106; 203; 190; 57; 74; 76; 88; 207;
   208; 239; 170; 251; 67; 77; 51; 133; 69; 249; 2; 127; 80; 60; 159; 168;
   81; 163; 64; 143; 146; 157; 56; 245; 188; 182; 218; 33; 16; 255; 243; 210;
   205; 12; 19; 236; 95; 151; 68; 23; 196; 167; 126; 61; 100; 93; 25; 115;
   96; 129; 79; 220; 34; 42; 144; 136; 70; 238; 184; 20; 222; 94; 11; 219;
   224; 50; 58; 10; 73; 6; 36; 92; 194; 211; 172; 98; 145; 149; 228; 121;
   231; 200; 55; 109; 141; 213; 78; 169; 108; 86; 244; 234; 101; 122; 174; 8;
   186; 120; 37; 46; 28; 166; 180; 198; 232; 221; 116; 31; 75; 189; 139; 138;
   112; 62; 181; 102; 72; 3; 246; 14; 97; 53; 87; 185; 134; 193; 29; 158;
   225; 248; 152; 17; 105; 217; 142; 148; 155; 30; 135; 233; 206; 85; 40; 223;
   140; 161; 137; 13; 191; 230; 66; 104; 65; 153; 45; 15; 176; 84; 187; 22].

Definition sbox (b : N) : N := nth (N.to_nat b) sbox_table 0.

(** Multiplication by x in GF(2^8). *)
Definition xtime (b : N) : N :=
  if b <? 128 then 2 * b else N.lxor (2 * b - 256) 27.

Definition xor_bytes (x y : list N) : list N := zip_with N.lxor x y.

(** ** Key expansion: sixty words of four bytes *)

Definition rotWord (w : list N) : list N := drop 1 w ++ take 1 w.

(** Word [i] from the words before it, the latest first. *)
Definition next_word (rcon : N) (i : nat) (ws : list (list N)) : list N :=
  let temp := nth 0 ws [] in
  let temp :=
    if (i mod 8 =? 0)%nat then xor_bytes (map sbox (rotWord temp)) [rcon; 0; 0; 0]
    else if (i mod 8 =? 4)%nat then map sbox temp else temp in
  xor_bytes (nth 7 ws []) temp.

Fixpoint expand (n : nat) (i : nat) (rcon : N) (ws : list (list N)) : list (list N) :=
  match n with
  | O => ws
  | S n' =>
    let rcon' := if (i mod 8 =? 0)%nat then xtime rcon else rcon in
    expand n' (S i) rcon' (next_word rcon i ws :: ws)
  end.

Fixpoint chunks (k n : nat) (l : list N) : list (list N) :=
  match n with O => [] | S n' => take k l :: chunks k n' (drop k l) end.

Definition round_keys (key : list N) : list (list N) :=
  let words := reverse (expand 52 8 1 (reverse (chunks 4 8 key))) in
  chunks 16 15 (mjoin words).

(** ** One block *)

Definition shiftRows (s : list N) : list N :=
  map (λ i, nth ((i mod 4) + 4 * ((i / 4 + i mod 4) mod 4)) s 0) (seq 0 16).

Definition mixColumn (c : list N) : list N :=
  match c with
  | [a; b; c; d] =>
    let all := N.lxor (N.lxor a b) (N.lxor c d) in
    [N.lxor (N.lxor a all) (xtime (N.lxor a b)); N.lxor (N.lxor b all) (xtime (N.lxor b c));
     N.lxor (N.lxor c all) (xtime (N.lxor c d)); N.lxor (N.lxor d all) (xtime (N.lxor d a))]
  | _ => c
  end.

Definition mixColumns (s : list N) : list N := mjoin (map mixColumn (chunks 4 4 s)).

Fixpoint rounds (s : list N) (keys : list (list N)) : list N :=
  match keys with
  | [] => s
  | [k] => xor_bytes (shiftRows (map sbox s)) k
  | k :: keys' => rounds (xor_bytes (mixColumns (shiftRows (map sbox s))) k) keys'
  end.

Definition encrypt_block (keys : list (list N)) (block : list N) : list N :=
  match keys with
  | [] => block
  | k :: keys' => rounds (xor_bytes block k) keys'
  end.

End AES.

Module GCM.
Import AES.

(** ** Bytes and 128-bit values *)

Definition bytes_of (s : string) : list N := map code (chars s).
Definition string_of (l : list N) : string := String.string_of_list_ascii (map ascii_of_N l).

Definition be_value (l : list N) : N := fold_left (λ v b, v * 256 + b) l 0.
Fixpoint be_bytes (n : nat) (v : N) : list N :=
  match n with O => [] | S n' => be_bytes n' (v / 256) ++ [v mod 256] end.

(** ** GHASH *)

Fixpoint gf_mul_loop (n : nat) (x z v : N) : N :=
  match n with
  | O => z
  | S n' =>
    let z := if N.testbit x (N.of_nat n') then N.lxor z v else z in
    let v' := N.shiftr v 1 in
    gf_mul_loop n' x z (if N.odd v then N.lxor v' (225 * 2 ^ 120) else v')
  end.
Definition gf_mul (x y : N) : N := gf_mul_loop 128 x 0 y.

Definition pad16 (l : list N) : list N :=
  l ++ replicate ((16 - length l mod 16) mod 16)%nat 0.

Definition blocks (l : list N) : list (list N) :=
  chunks 16 ((length l + 15) / 16)%nat (pad16 l).

Definition ghash (h : N) (ciphertext : list N) : N :=
  let y := fold_left (λ y b, gf_mul (N.lxor y (be_value b)) h) (blocks ciphertext) 0 in
  gf_mul (N.lxor y (N.of_nat (8 * length ciphertext))) h.

(** ** Counter mode *)

Definition counter_block (nonce : list N) (i : nat) : list N :=
  nonce ++ be_bytes 4 (N.of_nat i).

Definition keystream (keys : list (list N)) (nonce : list N) (len : nat) : list N :=
  take len (mjoin (map (λ i, encrypt_block keys (counter_block nonce (2 + i)))
                     (seq 0 ((len + 15) / 16)%nat))).

Definition tag (keys : list (list N)) (nonce ciphertext : list N) : list N :=
  let h := be_value (encrypt_block keys (replicate 16 0)) in
  xor_bytes (be_bytes 16 (ghash h ciphertext)) (encrypt_block keys (counter_block nonce 1)).

(** [Seal] and [Open] with nil additional data. *)
Definition Seal (key nonce plaintext : string) : string :=
  let keys := round_keys (bytes_of key) in
  let n := bytes_of nonce in
  let p := bytes_of plaintext in
  let c := xor_bytes p (keystream keys n (length p)) in
  string_of (c ++ tag keys n c).

Definition Open (key nonce ciphertext : string) : option string :=
  let keys := round_keys (bytes_of key) in
  let n := bytes_of nonce in
  let all := bytes_of ciphertext in
  if (length all <? 16)%nat then None
  else
    let c := take (length all - 16) all in
    let t := drop (length all - 16) all in
    if bool_decide (t = tag keys n c)
    then Some (string_of (xor_bytes c (keystream keys n (length c))))
    else None.

Definition NonceSize : nat := 12.
Definition Overhead : nat := 16.

(** FIPS 197, C.3. *)
Example aes256_vector :
  encrypt_block (round_keys (map N.of_nat (seq 0 32)))
    (map (λ i, N.of_nat (17 * i)) (seq 0 16))
  = [142; 162; 183; 202; 81; 103; 69; 191; 234; 252; 73; 144; 75; 73; 96; 137].
Proof. vm_compute. reflexivity. Qed.

Definition zeros (n : nat) : string := string_of (replicate n 0).

(** The GCM specification's test cases 13 and 14. *)
Example gcm_vector_13 :
  hex_encode (Seal (zeros 32) (zeros 12) "") = "530f8afbc74536b9a963b4f1c4cb738b".
Proof. vm_compute. reflexivity. Qed.

Example gcm_vector_14 :
  hex_encode (Seal (zeros 32) (zeros 12) (zeros 16))
  = "cea7403d4d606b6e074ec5d3baf39d18d0d1c8a799996bf0265b98b5d48ab919".
Proof. vm_compute. reflexivity. Qed.

(** ** [Open] undoes [Seal] *)

Abbreviation is_bytes l := (Forall (λ b, b < 256) l).

Lemma lxor_byte a b : a < 256 → b < 256 → N.lxor a b < 256.
Proof.
  intros Ha Hb. change 256 with (2 ^ 8) in *.
  destruct (N.lxor a b) as [|p] eqn:E; [lia|]. rewrite <- E.
  apply N.log2_lt_pow2; [lia|].
  assert (Hl : ∀ x, x < 2 ^ 8 → N.log2 x < 8).
  { intros [|x] Hx; [done|]. apply N.log2_lt_pow2; lia. }
  pose proof (N.log2_lxor a b). pose proof (Hl a Ha). pose proof (Hl b Hb). lia.
Qed.

Lemma xor_bytes_bytes x y : is_bytes x → is_bytes y → is_bytes (xor_bytes x y).
Proof.
  intros Hx. revert y. induction Hx as [|a x Ha Hx IH]; intros y Hy; [by constructor|].
  destruct Hy as [|b y Hb Hy]; [by constructor|]. constructor; [by apply lxor_byte|by apply IH].
Qed.

Lemma length_xor_bytes x y : length (xor_bytes x y) = Nat.min (length x) (length y).
Proof. apply length_zip_with. Qed.

(** The keystream cancels itself. *)
Lemma xor_bytes_twice x k : (length x ≤ length k)%nat → xor_bytes (xor_bytes x k) k = x.
Proof.
  revert k; induction x as [|a x IH]; intros [|b k] Hl; simpl in *; try done; [lia|].
  f_equal; [|apply IH; lia]. by rewrite N.lxor_assoc, N.lxor_nilpotent, N.lxor_0_r.
Qed.

Lemma sbox_byte b : sbox b < 256.
Proof.
  unfold sbox. assert (H : is_bytes sbox_table) by (apply (bool_decide_unpack _); by vm_compute).
  destruct (nth_in_or_default (N.to_nat b) sbox_table 0) as [Hin| ->]; [|done].
  rewrite Forall_forall in H. by apply H, list_elem_of_In.
Qed.

Lemma map_sbox_bytes l : is_bytes (map sbox l).
Proof. apply Forall_map, Forall_true. intros b. apply sbox_byte. Qed.

Lemma xtime_byte b : b < 256 → xtime b < 256.
Proof.
  intros Hb. pose proof (all_below_spec 256 (λ b, xtime b <? 256)) as H.
  apply N.ltb_lt, H; [by vm_compute|done].
Qed.

Lemma chunks_spec k n (l : list N) :
  is_bytes l → length l = (k * n)%nat →
  length (chunks k n l) = n ∧ Forall (λ c, is_bytes c ∧ length c = k) (chunks k n l).
Proof.
  revert l; induction n as [|n IH]; intros l Hb Hl; simpl; [done|].
  destruct (IH (drop k l)) as [Hn Hc].
  - by apply Forall_drop.
  - rewrite length_drop. lia.
  - split; [by rewrite Hn|]. constructor; [|done]. split; [by apply Forall_take|].
    rewrite length_take. lia.
Qed.

Definition word_ok (w : list N) : Prop := is_bytes w ∧ length w = 4%nat.

Lemma nth_word i ws : (i < length ws)%nat → Forall word_ok ws → word_ok (nth i ws []).
Proof.
  intros Hi Hw. rewrite Forall_forall in Hw. apply Hw, list_elem_of_In. by apply nth_In.
Qed.

Lemma next_word_ok rcon i ws :
  rcon < 256 → (8 ≤ length ws)%nat → Forall word_ok ws → word_ok (next_word rcon i ws).
Proof.
  intros Hr Hl Hw. destruct (nth_word 7 ws) as [Hb7 Hl7]; [lia|done|].
  destruct (nth_word 0 ws) as [Hb0 Hl0]; [lia|done|]. unfold next_word.
  assert (Hrot : length (rotWord (nth 0 ws [])) = 4%nat).
  { unfold rotWord. rewrite length_app, length_drop, length_take. lia. }
  repeat case_match; split; try (apply xor_bytes_bytes; [done|]);
    rewrite ?length_xor_bytes, ?length_map; try apply map_sbox_bytes; try done; try (simpl; lia).
  - apply xor_bytes_bytes; [apply map_sbox_bytes|]. by repeat constructor.
Qed.

Lemma expand_ok n i rcon ws :
  rcon < 256 → (8 ≤ length ws)%nat → Forall word_ok ws →
  Forall word_ok (expand n i rcon ws) ∧ length (expand n i rcon ws) = (n + length ws)%nat.
Proof.
  revert i rcon ws; induction n as [|n IH]; intros i rcon ws Hr Hl Hw; [done|]. cbn [expand].
  destruct (IH (S i) (if (i mod 8 =? 0)%nat then xtime rcon else rcon)
              (next_word rcon i ws :: ws)) as [H1 H2].
  - destruct (_ =? _)%nat; [by apply xtime_byte|done].
  - simpl. lia.
  - constructor; [by apply next_word_ok|done].
  - split; [exact H1|]. rewrite H2. simpl. lia.
Qed.

Lemma join_words ws :
  Forall word_ok ws → is_bytes (mjoin ws) ∧ length (mjoin ws) = (4 * length ws)%nat.
Proof.
  induction 1 as [|w ws [Hb Hl] _ [IHb IHl]]; simpl; [done|].
  rewrite length_app, Hl, IHl. split; [by apply Forall_app|lia].
Qed.

Lemma round_keys_ok key :
  is_bytes key → length key = 32%nat →
  length (round_keys key) = 15%nat ∧
  Forall (λ k, is_bytes k ∧ length k = 16%nat) (round_keys key).
Proof.
  intros Hb Hl. unfold round_keys. destruct (chunks_spec 4 8 key Hb) as [Hn Hc]; [lia|].
  destruct (expand_ok 52 8 1 (reverse (chunks 4 8 key))) as [Hw Hlw].
  - done.
  - rewrite length_reverse. lia.
  - by apply Forall_reverse.
  - rewrite length_reverse, Hn in Hlw.
    destruct (join_words (reverse (expand 52 8 1 (reverse (chunks 4 8 key))))) as [Hjb Hjl].
    + by apply Forall_reverse.
    + apply chunks_spec; [done|]. rewrite Hjl, length_reverse, Hlw. done.
Qed.

Lemma length_rounds keys s :
  keys ≠ [] → Forall (λ k, is_bytes k ∧ length k = 16%nat) keys →
  length (rounds s keys) = 16%nat ∧ is_bytes (rounds s keys).
Proof.
  assert (Hsh : ∀ s, is_bytes s → is_bytes (shiftRows s)).
  { intros x Hx. apply Forall_map, Forall_true. intros i.
    destruct (nth_in_or_default (i mod 4 + 4 * ((i / 4 + i mod 4) mod 4)) x 0) as [Hin| ->]; [|done].
    rewrite Forall_forall in Hx. by apply Hx, list_elem_of_In. }
  revert s; induction keys as [|k keys IH]; intros s Hne Hk; [done|].
  apply Forall_cons in Hk as [[Hkb Hkl] Hk]. destruct keys as [|k' keys].
  - cbn [rounds]. split.
    + rewrite length_xor_bytes, Hkl. unfold shiftRows. by rewrite length_map.
    + apply xor_bytes_bytes; [|done]. apply Hsh, map_sbox_bytes.
  - change (rounds s (k :: k' :: keys)) with
      (rounds (xor_bytes (mixColumns (shiftRows (map sbox s))) k) (k' :: keys)).
    by apply IH.
Qed.

Lemma encrypt_block_ok key block :
  is_bytes key → length key = 32%nat →
  length (encrypt_block (round_keys key) block) = 16%nat ∧
  is_bytes (encrypt_block (round_keys key) block).
Proof.
  intros Hb Hl. destruct (round_keys_ok key Hb Hl) as [Hn Hk]. unfold encrypt_block.
  destruct (round_keys key) as [|k keys] eqn:E; [done|].
  apply Forall_cons in Hk as [_ Hk]. apply length_rounds; [|done]. by destruct keys.
Qed.

Lemma keystream_ok key nonce len :
  is_bytes key → length key = 32%nat →
  length (keystream (round_keys key) nonce len) = len ∧
  is_bytes (keystream (round_keys key) nonce len).
Proof.
  intros Hb Hl. unfold keystream. set (f := λ i, encrypt_block _ _).
  assert (Hf : ∀ l, length (mjoin (map f l)) = (16 * length l)%nat ∧ is_bytes (mjoin (map f l))).
  { intros l. induction l as [|i l [IHl IHb]]; [done|].
    change (mjoin (map f (i :: l))) with (f i ++ mjoin (map f l)).
    destruct (encrypt_block_ok key (counter_block nonce (2 + i)) Hb Hl) as [H1 H2].
    change (encrypt_block (round_keys key) (counter_block nonce (2 + i))) with (f i) in *.
    rewrite length_app, H1, IHl. split; [simpl; lia|].
    apply Forall_app_2; [exact H2|exact IHb]. }
  destruct (Hf (seq 0 ((len + 15) / 16)%nat)) as [H1 H2]. split; [|by apply Forall_take].
  rewrite length_take, H1, length_seq.
  pose proof (Nat.div_mod_eq (len + 15) 16). pose proof (Nat.mod_upper_bound (len + 15) 16). lia.
Qed.

Lemma be_bytes_ok n v : length (be_bytes n v) = n ∧ is_bytes (be_bytes n v).
Proof.
  revert v; induction n as [|n IH]; intros v; [done|]. cbn [be_bytes].
  destruct (IH (v / 256)) as [H1 H2]. rewrite length_app, H1. split; [simpl; lia|].
  apply Forall_app. split; [done|]. constructor; [by apply N.mod_lt|done].
Qed.

Lemma tag_ok key nonce c :
  is_bytes key → length key = 32%nat →
  length (tag (round_keys key) nonce c) = 16%nat ∧ is_bytes (tag (round_keys key) nonce c).
Proof.
  intros Hb Hl. unfold tag.
  destruct (encrypt_block_ok key (counter_block nonce 1) Hb Hl) as [H1 H2].
  destruct (be_bytes_ok 16 (ghash (be_value (encrypt_block (round_keys key) (replicate 16 0))) c)).
  split; [|by apply xor_bytes_bytes]. rewrite length_xor_bytes. lia.
Qed.

Lemma bytes_of_bytes s : is_bytes (bytes_of s).
Proof. apply Forall_map, Forall_true. intros a. apply code_bound. Qed.

Lemma length_bytes_of s : length (bytes_of s) = String.length s.
Proof. unfold bytes_of. by rewrite length_map, length_chars. Qed.

Lemma bytes_of_string_of l : is_bytes l → bytes_of (string_of l) = l.
Proof.
  intros H. unfold bytes_of, string_of. rewrite chars_of_list, map_map.
  induction H as [|b l Hb H IH]; [done|]. cbn [map]. by rewrite IH, N_ascii_embedding.
Qed.

Lemma string_of_bytes_of s : string_of (bytes_of s) = s.
Proof.
  apply chars_inj. unfold string_of, bytes_of. rewrite chars_of_list, map_map.
  rewrite <- (map_id (chars s)) at 2. apply map_ext. intros a. apply ascii_N_embedding.
Qed.

Lemma Open_Seal key nonce plaintext :
  String.length key = 32%nat → Open key nonce (Seal key nonce plaintext) = Some plaintext.
Proof.
  intros Hk. unfold Open, Seal.
  pose proof (bytes_of_bytes key) as Hkb. pose proof (length_bytes_of key) as Hkl.
  rewrite Hk in Hkl. set (K := bytes_of key) in *. set (n := bytes_of nonce).
  pose proof (bytes_of_bytes plaintext) as Hpb. set (p := bytes_of plaintext) in *.
  destruct (keystream_ok K n (length p) Hkb Hkl) as [Hsl Hsb].
  set (c := xor_bytes p (keystream (round_keys K) n (length p))).
  assert (Hcb : is_bytes c) by by apply xor_bytes_bytes.
  assert (Hcl : length c = length p) by (unfold c; rewrite length_xor_bytes; lia).
  destruct (tag_ok K n c Hkb Hkl) as [Htl Htb].
  rewrite bytes_of_string_of by (apply Forall_app_2; [exact Hcb|exact Htb]).
  rewrite length_app, Htl.
  replace (length c + 16 <? 16)%nat with false by (symmetry; apply Nat.ltb_ge; lia).
  replace (length c + 16 - 16)%nat with (length c) by lia.
  rewrite take_app_length, drop_app_length, bool_decide_true by reflexivity.
  f_equal. rewrite Hcl. unfold c. rewrite xor_bytes_twice by lia. apply string_of_bytes_of.
Qed.

End GCM.
