(* ===== verification/Crypto.v ===== *)
(** * Secrets at rest (internal/crypto/crypto.go)

    Envelope encryption with the master key: a version byte, a random nonce
    and the AES-256-GCM ciphertext.  A nil [*Cipher] is [None]. *)
From Stdlib Require Import Ascii.
From S2P Require Import Prelude GoStrings Store World GoText AesGcm.

Definition version1 : ascii := "001"%char.
Definition KeySize : nat := 32.

(** The configured cipher is its key. *)
Record Cipher := { aead_key : string }.

Definition New (keyBase64 : string) : Cipher + error :=
  match DecodeString keyBase64 with
  | None => inr (ErrNew "master key is not valid base64")
  | Some key =>
    if negb (String.length key =? KeySize) then
      inr (ErrNew ("master key must be " +:+ Itoa 32 +:+ " bytes after base64 decoding, got "
                   +:+ Itoa (len key)))
    else inl {| aead_key := key |}
  end.

Definition Configured (c : option Cipher) : bool := is_some c.

Section Crypto.
Context {ENV : Env}.

Definition Encrypt (c : option Cipher) (plaintext : string) : Op string :=
  match c with
  | None => mthrow ErrNotConfigured
  | Some c =>
    nonce ← wrapErr "generate nonce" (rand_Read GCM.NonceSize);
    mret (String version1 nonce +:+ GCM.Seal (aead_key c) nonce plaintext)
  end.

(** The message shown when no key is configured carries a fresh one; without
    randomness it panics. *)
Definition NewRandomKeyBase64 : Op string :=
  key ← rand_Read KeySize; mret (EncodeToString key).

End Crypto.

Definition Decrypt (c : option Cipher) (ciphertext : string) : string + error :=
  match c with
  | None => inr ErrNotConfigured
  | Some c =>
    if String.length ciphertext <? 1 + GCM.NonceSize then inr ErrDecrypt
    else
      match ciphertext with
      | "" => inr ErrDecrypt
      | String v rest =>
        if negb (bool_decide (v = version1)) then inr ErrDecrypt
        else
          match GCM.Open (aead_key c) (slice_to GCM.NonceSize rest)
                  (String.substring GCM.NonceSize (String.length rest) rest) with
          | Some plaintext => inl plaintext
          | None => inr ErrDecrypt
          end
      end
  end.

(** A cipher as [New] makes it. *)
Definition cipher_ok (c : Cipher) : Prop := String.length (aead_key c) = KeySize.

Lemma New_ok k c : New k = inl c → cipher_ok c.
Proof.
  unfold New, cipher_ok. destruct (DecodeString k); [|done].
  destruct (_ =? _) eqn:E; simpl; [|done]. intros [= <-]. by apply Nat.eqb_eq.
Qed.

Lemma substring_app (s t : string) m :
  String.length t ≤ m → String.substring (String.length s) m (s +:+ t) = t.
Proof.
  intros Hm. induction s as [|a s IH]; simpl; [|destruct m; exact IH].
  revert m Hm. induction t as [|b t IH]; intros [|m] Hm; simpl in *; try done; [lia|].
  f_equal. apply IH. lia.
Qed.

Lemma slice_to_app (s t : string) : slice_to (String.length s) (s +:+ t) = s.
Proof.
  unfold slice_to. induction s as [|a s IH]; simpl; [by destruct t|]. by f_equal.
Qed.

Section CryptoProps.
Context {ENV : Env}.

Lemma rand_Read_length n w s w' :
  rand_Read n w = (inl s, w') → String.length s = n.
Proof.
  unfold rand_Read, tick, mbind, M_bind. simpl. case_match; [done|]. intros [= <- _].
  rewrite <- length_chars, chars_of_list, length_map, length_seq. done.
Qed.

(** [Decrypt] undoes every successful [Encrypt] under the same key. *)
Lemma Decrypt_Encrypt c plaintext w ct w' :
  cipher_ok c → Encrypt (Some c) plaintext w = (inl ct, w') → Decrypt (Some c) ct = inl plaintext.
Proof.
  intros Hc He. unfold Encrypt in He. run_inv.
  match goal with H : rand_Read _ _ = _ |- _ => apply rand_Read_length in H; rename H into Hn end.
  unfold Decrypt. rewrite app_str_cons. cbn [String.length]. rewrite length_app_str, Hn.
  replace (_ <? _) with false by (symmetry; apply Nat.ltb_ge; lia).
  rewrite (bool_decide_true _ eq_refl). cbn [negb].
  rewrite <- Hn. rewrite slice_to_app, substring_app by lia. by rewrite GCM.Open_Seal.
Qed.

Lemma Encrypt_configured c plaintext w e w' :
  Encrypt c plaintext w = (inr e, w') → Configured c = false → e = ErrNotConfigured ∧ w' = w.
Proof. destruct c; [done|]. by intros [= <- <-]. Qed.

End CryptoProps.
