(* ===== verification/Secrets.v ===== *)
(** * Secrets inside pipeline graphs (internal/pipelines/secrets.go)

    Fields whose catalog schema says [format: password] are encrypted before
    a graph is stored, decrypted where the real values are needed, and
    replaced by a sentinel whenever a graph leaves the backend.  The walk is
    generic in the effects of the function applied at each secret: indexing
    collects, encrypting draws randomness and reports issues, decrypting may
    fail.  Go visits the members of a map in random order; the model visits
    them in the order of the list, whatever it is. *)
From Stdlib Require Import Ascii.
From S2P Require Import Prelude GoStrings Store World GoText Json Catalog PipelineGraph Render Validate Crypto.

Definition RedactedSentinel : string := "__otelfleet_redacted__".
Definition encKey : string := "$enc".

Definition encValue (v : json) : option string :=
  match v with
  | JObj [(k, JStr s)] => if bool_decide (k = encKey) then DecodeString s else None
  | _ => None
  end.

Definition newEncValue (ciphertext : string) : json :=
  JObj [(encKey, JStr (EncodeToString ciphertext))].

(** The schema of a member and of an array element; a nil map is [None]. *)
Definition is_password (schema : members) : bool :=
  bool_decide ((member "format" schema ≫= as_string) = Some "password").
Definition sub_schema (schema : members) (k : string) : option members :=
  match (member "properties" schema ≫= as_map) ≫= λ props, member k props ≫= as_map with
  | Some s => Some s
  | None => member "additionalProperties" schema ≫= as_map
  end.
Definition item_schema (schema : members) : option members :=
  member "items" schema ≫= as_map.

Definition index_path (path : string) (i : nat) : string :=
  path +:+ "[" +:+ Itoa (Z.of_nat i) +:+ "]".
Definition key_path (path k : string) : string := path +:+ "." +:+ k.

Section Transform.
Context {S : Type} (fn : string → json → M S error json).

Fixpoint transformSecrets (value : json) (schema : option members) (path : string)
    : M S error json :=
  match schema with
  | None => mret value
  | Some schema =>
    if is_password schema then fn path value
    else
      match value with
      | JObj v =>
        out ← (fix go (v : members) : M S error members :=
                 match v with
                 | [] => mret []
                 | kv :: v' =>
                   nv ← transformSecrets kv.2 (sub_schema schema kv.1) (key_path path kv.1);
                   rest ← go v';
                   mret ((kv.1, nv) :: rest)
                 end) v;
        mret (JObj out)
      | JArr v =>
        match item_schema schema with
        | None => mret value
        | Some items =>
          out ← (fix go (v : list json) (i : nat) : M S error (list json) :=
                   match v with
                   | [] => mret []
                   | x :: v' =>
                     nv ← transformSecrets x (Some items) (index_path path i);
                     rest ← go v' (Datatypes.S i);
                     mret (nv :: rest)
                   end) v 0;
          mret (JArr out)
        end
      | _ => mret value
      end
  end.

(** One section of [transformGraphSecrets]: unknown types and nil configs are
    skipped. *)
Definition node_base (name : string) (i : nat) : string :=
  name +:+ "[" +:+ Itoa (Z.of_nat i) +:+ "].config".

Fixpoint transformNodes (name kind : string) (i : nat) (nodes : list Node)
    : M S error (list Node) :=
  match nodes with
  | [] => mret []
  | n :: nodes' =>
    n' ← match Lookup kind (n_Type n), n_Config n with
         | Some comp, Some config =>
           cfg ← transformSecrets (JObj config) (Some (Schema comp)) (node_base name i);
           mret (n <| n_Config := as_map cfg |>)
         | _, _ => mret n
         end;
    rest ← transformNodes name kind (Datatypes.S i) nodes';
    mret (n' :: rest)
  end.

Definition transformGraphSecrets (g : Graph) : M S error Graph :=
  ps ← transformNodes "processors" KindProcessor 0 (g_Processors g);
  es ← transformNodes "exporters" KindExporter 0 (g_Exporters g);
  mret (g <| g_Processors := ps |> <| g_Exporters := es |>).

End Transform.

(** ** Redaction and decryption *)

Definition redact_field (_ : string) (value : json) : M unit error json :=
  mret (match value with JNull => JNull | _ => JStr RedactedSentinel end).

Definition RedactGraphSecrets (g : Graph) : Graph :=
  match (transformGraphSecrets redact_field g tt).1 with
  | inl out => out
  | inr _ => {| g_Signals := []; g_Processors := []; g_Exporters := [] |}
  end.

Definition decrypt_field (cipher : option Cipher) (path : string) (value : json)
    : M unit error json :=
  match encValue value with
  | None => mret value
  | Some ct =>
    match Decrypt cipher ct with
    | inl pt => mret (JStr pt)
    | inr e => mthrow (Wrap ("decrypt secret at " +:+ path) e)
    end
  end.

Definition DecryptGraphSecrets (g : Graph) (cipher : option Cipher) : Graph + error :=
  (transformGraphSecrets (decrypt_field cipher) g tt).1.

(** ** Encryption *)

Definition index_field (path : string) (value : json) : M (gmap string json) error json :=
  mmodify (λ m, <[path := value]> m);; mret value.

Definition prevSecrets (prev : option Graph) : gmap string json :=
  match prev with
  | None => ∅
  | Some g => (transformGraphSecrets index_field g ∅).2
  end.

Section Encrypt.
Context {ENV : Env}.

(** The run of [EncryptGraphSecrets] threads the world and the issues. *)
Definition lift_w {A} (m : Op A) : M (world * list Issue) error A := λ s,
  let '(r, w) := m s.1 in (r, (w, s.2)).
Definition report (i : Issue) : M (world * list Issue) error unit :=
  mmodify (λ s, (s.1, s.2 ++ [i])).

Definition encrypt_string (cipher : option Cipher) (path : string) (value : json) (s : string)
    : M (world * list Issue) error json :=
  r ← mtry (lift_w (Encrypt cipher s));
  match r with
  | inl ct => mret (newEncValue ct)
  | inr e =>
    if Configured cipher then mthrow (Wrap ("encrypt secret at " +:+ path) e)
    else
      key ← lift_w NewRandomKeyBase64;
      report (issueAt path
        ("master key not configured (set OTELFLEET_MASTER_KEY)"
         +:+ "; secret fields cannot be stored without it (example key: " +:+ key +:+ ")"));;
      mret value
  end.

Definition encrypt_field (cipher : option Cipher) (prev : gmap string json) (path : string)
    (value : json) : M (world * list Issue) error json :=
  match encValue value with
  | Some _ => mret value
  | None =>
    match value with
    | JStr s =>
      if bool_decide (s = RedactedSentinel) then
        match prev !! path with
        | None =>
          report (issueAt path
            "value is redacted but no stored secret exists at this path; provide the actual value");;
          mret value
        | Some prevVal =>
          match encValue prevVal with
          | Some _ => mret prevVal
          | None => encrypt_string cipher path value (default "" (as_string prevVal))
          end
        end
      else encrypt_string cipher path value s
    | _ => mret value
    end
  end.

Definition EncryptGraphSecrets (g : Graph) (cipher : option Cipher) (prev : option Graph)
    : Op (Graph * list Issue) := λ w,
  let '(r, (w', issues)) :=
    transformGraphSecrets (encrypt_field cipher (prevSecrets prev)) g (w, []) in
  match r with
  | inr e => (inr e, w')
  | inl out =>
    match issues with
    | [] => (inl (out, []), w')
    | _ => (inl ({| g_Signals := []; g_Processors := []; g_Exporters := [] |}, issues), w')
    end
  end.

End Encrypt.
