(* ===== verification/SecretsProps.v ===== *)
(** * Properties of graph secrets

    The secret positions of a value, agreement of two values everywhere but
    there, and how the generic walk acts on values that agree.  From these:
    what leaves the backend does not depend on the secrets, decryption undoes
    encryption, and a redacted graph sent back unchanged stores the graph it
    was redacted from. *)
From Stdlib Require Import Ascii.
From S2P Require Import Prelude GoStrings Store World GoText Json Catalog PipelineGraph Render Validate AesGcm Crypto Secrets.

(** ** Secret positions *)

(** The values at password fields, with their paths, in visit order. *)
Fixpoint secrets (value : json) (schema : option members) (path : string)
    : list (string * json) :=
  match schema with
  | None => []
  | Some schema =>
    if is_password schema then [(path, value)]
    else
      match value with
      | JObj v =>
        (fix go (v : members) :=
           match v with
           | [] => []
           | kv :: v' => secrets kv.2 (sub_schema schema kv.1) (key_path path kv.1) ++ go v'
           end) v
      | JArr v =>
        match item_schema schema with
        | None => []
        | Some items =>
          (fix go (v : list json) (i : nat) :=
             match v with
             | [] => []
             | x :: v' => secrets x (Some items) (index_path path i) ++ go v' (S i)
             end) v 0
        end
      | _ => []
      end
  end.

(** [R] between the values at each secret position, equality elsewhere. *)
Fixpoint agree (R : string → json → json → Prop) (value : json) (schema : option members)
    (path : string) (value' : json) : Prop :=
  match schema with
  | None => value' = value
  | Some schema =>
    if is_password schema then R path value value'
    else
      match value with
      | JObj v => ∃ w, value' = JObj w ∧
        (fix go (v w : members) :=
           match v, w with
           | [], [] => True
           | kv :: v', kw :: w' => kw.1 = kv.1 ∧
               agree R kv.2 (sub_schema schema kv.1) (key_path path kv.1) kw.2 ∧ go v' w'
           | _, _ => False
           end) v w
      | JArr v =>
        match item_schema schema with
        | None => value' = value
        | Some items => ∃ w, value' = JArr w ∧
          (fix go (v w : list json) (i : nat) :=
             match v, w with
             | [], [] => True
             | x :: v', y :: w' => agree R x (Some items) (index_path path i) y ∧ go v' w' (S i)
             | _, _ => False
             end) v w 0
        end
      | _ => value' = value
      end
  end.

(** The walk on members and on elements, by themselves. *)
Section Unfold.
Context {S : Type} (fn : string → json → M S error json).

Definition transformMembers (schema : members) (path : string) :=
  fix go (v : members) : M S error members :=
    match v with
    | [] => mret []
    | kv :: v' =>
      nv ← transformSecrets fn kv.2 (sub_schema schema kv.1) (key_path path kv.1);
      rest ← go v';
      mret ((kv.1, nv) :: rest)
    end.

Definition transformElements (items : members) (path : string) :=
  fix go (v : list json) (i : nat) : M S error (list json) :=
    match v with
    | [] => mret []
    | x :: v' =>
      nv ← transformSecrets fn x (Some items) (index_path path i);
      rest ← go v' (Datatypes.S i);
      mret (nv :: rest)
    end.
End Unfold.

Definition secretsMembers (schema : members) (path : string) :=
  fix go (v : members) : list (string * json) :=
    match v with
    | [] => []
    | kv :: v' => secrets kv.2 (sub_schema schema kv.1) (key_path path kv.1) ++ go v'
    end.
Definition secretsElements (items : members) (path : string) :=
  fix go (v : list json) (i : nat) : list (string * json) :=
    match v with
    | [] => []
    | x :: v' => secrets x (Some items) (index_path path i) ++ go v' (S i)
    end.
Definition agreeMembers R (schema : members) (path : string) :=
  fix go (v w : members) : Prop :=
    match v, w with
    | [], [] => True
    | kv :: v', kw :: w' => kw.1 = kv.1 ∧
        agree R kv.2 (sub_schema schema kv.1) (key_path path kv.1) kw.2 ∧ go v' w'
    | _, _ => False
    end.
Definition agreeElements R (items : members) (path : string) :=
  fix go (v w : list json) (i : nat) : Prop :=
    match v, w with
    | [], [] => True
    | x :: v', y :: w' => agree R x (Some items) (index_path path i) y ∧ go v' w' (S i)
    | _, _ => False
    end.

(** Induction over the positions of a value: at a secret, through a map,
    through an array, and where the walk leaves the value alone. *)
Lemma walk_ind (P : json → option members → string → Prop) :
  (∀ v path, P v None path) →
  (∀ v sch path, is_password sch = true → P v (Some sch) path) →
  (∀ m sch path, is_password sch = false →
     Forall (λ kv, ∀ path', P kv.2 (sub_schema sch kv.1) path') m → P (JObj m) (Some sch) path) →
  (∀ l sch items path, is_password sch = false → item_schema sch = Some items →
     Forall (λ x, ∀ path', P x (Some items) path') l → P (JArr l) (Some sch) path) →
  (∀ v sch path, is_password sch = false →
     match v with JObj _ => False | JArr _ => item_schema sch = None | _ => True end →
     P v (Some sch) path) →
  ∀ v schema path, P v schema path.
Proof.
  intros Hnone Hpw Hobj Harr Hleaf v.
  induction v as [|b|l|s|l IH|m IH] using json_nest_ind; intros [sch|] path; try apply Hnone;
    destruct (is_password sch) eqn:E; try (by apply Hpw); try (by apply Hleaf).
  - destruct (item_schema sch) as [items|] eqn:Ei; [|by apply Hleaf].
    apply (Harr l sch items path E Ei). eapply Forall_impl; [exact IH|]. intros x Hx path'. apply Hx.
  - apply Hobj; [done|]. eapply Forall_impl; [exact IH|]. intros kv Hkv path'. apply Hkv.
Qed.

(** ** The walk on related values *)

Section Walk.
Context {S : Type} (fn : string → json → M S error json).
Context (R : string → json → json → Prop).

Definition leaf (v : json) (sch : members) : Prop :=
  match v with JObj _ => False | JArr _ => item_schema sch = None | _ => True end.

Lemma transform_leaf v sch path s :
  is_password sch = false → leaf v sch → transformSecrets fn v (Some sch) path s = (inl v, s).
Proof. intros E H. destruct v; simpl in *; rewrite E; try done. by rewrite H. Qed.

Lemma agree_leaf v sch path v' :
  is_password sch = false → leaf v sch → agree R v (Some sch) path v' ↔ v' = v.
Proof. intros E H. destruct v; simpl in *; rewrite E; try done. by rewrite H. Qed.

Lemma transform_None v path : transformSecrets fn v None path = mret v.
Proof. by destruct v. Qed.
Lemma agree_None v path v' : agree R v None path v' = (v' = v).
Proof. by destruct v. Qed.
Lemma transform_password v sch path :
  is_password sch = true → transformSecrets fn v (Some sch) path = fn path v.
Proof. intros E. destruct v; simpl; by rewrite E. Qed.
Lemma agree_password v sch path v' :
  is_password sch = true → agree R v (Some sch) path v' = R path v v'.
Proof. intros E. destruct v; simpl; by rewrite E. Qed.
Lemma secrets_password v sch path :
  is_password sch = true → secrets v (Some sch) path = [(path, v)].
Proof. intros E. destruct v; simpl; by rewrite E. Qed.

(** What a successful run returns agrees with its input. *)
Lemma transform_agree v schema path s v' s' :
  transformSecrets fn v schema path s = (inl v', s') →
  (∀ p x s r s', (p, x) ∈ secrets v schema path → fn p x s = (inl r, s') → R p x r) →
  agree R v schema path v'.
Proof.
  revert s v' s'. induction v, schema, path as [v path|v sch path E|m sch path E IH
    |l sch items path E Ei IH|v sch path E Hl] using walk_ind; intros s v' s' H HR.
  - rewrite transform_None in H. injection H as <- <-. by rewrite agree_None.
  - rewrite transform_password in H by done. rewrite secrets_password in HR by done.
    rewrite agree_password by done. eapply HR; [left|exact H].
  - simpl in H, HR |- *. rewrite E in *. fold (transformMembers fn sch path) in H.
    fold (secretsMembers sch path m) in HR. apply bind_inl in H as (out & s1 & H & [<- _]%ret_inl).
    exists out. split; [done|]. revert s out s1 H HR.
    induction IH as [|kv m Hkv _ IHm]; intros s out s1 H HR; simpl in H.
    + by injection H as <- _.
    + apply bind_inl in H as (nv & s2 & H1 & H). apply bind_inl in H as (rest & s3 & H2 & H3).
      injection H3 as <- _. split_and!; [done| |].
      * eapply Hkv; [exact H1|]. intros. eapply HR; [apply elem_of_app; left|]; eauto.
      * eapply IHm; [exact H2|]. intros. eapply HR; [apply elem_of_app; right|]; eauto.
  - simpl in H, HR |- *. rewrite E, Ei in *. fold (transformElements fn items path) in H.
    fold (secretsElements items path) in HR.
    apply bind_inl in H as (out & s1 & H & [<- _]%ret_inl).
    exists out. split; [done|]. revert s out s1 H HR. generalize 0.
    induction IH as [|x l Hx _ IHl]; intros i s out s1 H HR; simpl in H.
    + by injection H as <- _.
    + apply bind_inl in H as (nv & s2 & H1 & H). apply bind_inl in H as (rest & s3 & H2 & H3).
      injection H3 as <- _. split.
      * eapply Hx; [exact H1|]. intros. eapply HR; [apply elem_of_app; left|]; eauto.
      * eapply IHl; [exact H2|]. intros. eapply HR; [apply elem_of_app; right|]; eauto.
  - rewrite transform_leaf in H by done. injection H as <- _. by apply agree_leaf.
Qed.

(** A function that restores related secrets without touching the state takes
    the related value back. *)
Lemma transform_back v schema path v' s :
  agree R v schema path v' →
  (∀ p x r s, (p, x) ∈ secrets v schema path → R p x r → fn p r s = (inl x, s)) →
  transformSecrets fn v' schema path s = (inl v, s).
Proof.
  revert v'. induction v, schema, path as [v path|v sch path E|m sch path E IH
    |l sch items path E Ei IH|v sch path E Hl] using walk_ind; intros v' H HR.
  - rewrite agree_None in H. subst v'. by rewrite transform_None.
  - rewrite agree_password in H by done. rewrite secrets_password in HR by done.
    rewrite transform_password by done. apply HR; [left|done].
  - simpl in H, HR. rewrite E in H, HR. destruct H as (w & -> & H).
    fold (secretsMembers sch path m) in HR. fold (agreeMembers R sch path) in H.
    simpl. rewrite E. fold (transformMembers fn sch path).
    enough (transformMembers fn sch path w s = (inl m, s)) as Hw by (unfold mbind, M_bind; by rewrite Hw).
    revert w H HR. induction IH as [|kv m Hkv _ IHm]; intros [|kw w] H HR; simpl in H; try done.
    destruct H as (Ek & H1 & H2). simpl. rewrite Ek.
    unfold mbind, M_bind. rewrite Hkv; [|exact H1|].
    + rewrite IHm; [by destruct kv|exact H2|]. intros. apply HR; [apply elem_of_app; by right|done].
    + intros. apply HR; [apply elem_of_app; by left|done].
  - simpl in H, HR. rewrite E, Ei in H, HR. destruct H as (w & -> & H).
    fold (secretsElements items path) in HR. fold (agreeElements R items path) in H.
    simpl. rewrite E, Ei. fold (transformElements fn items path).
    enough (transformElements fn items path w 0 s = (inl l, s)) as Hw by (unfold mbind, M_bind; by rewrite Hw).
    revert w H HR. generalize 0.
    induction IH as [|x l Hx _ IHl]; intros i [|y w] H HR; simpl in H; try done.
    destruct H as (H1 & H2). simpl. unfold mbind, M_bind. rewrite Hx; [|exact H1|].
    + rewrite IHl; [done|exact H2|]. intros. apply HR; [apply elem_of_app; by right|done].
    + intros. apply HR; [apply elem_of_app; by left|done].
  - apply agree_leaf in H as ->; [|done..]. by apply transform_leaf.
Qed.

(** A function that cannot tell related secrets apart cannot tell the values. *)
Lemma transform_blind v schema path v' s :
  agree R v schema path v' →
  (∀ p x r s, R p x r → fn p r s = fn p x s) →
  transformSecrets fn v' schema path s = transformSecrets fn v schema path s.
Proof.
  intros H HR. revert v' s H. induction v, schema, path as [v path|v sch path E|m sch path E IH
    |l sch items path E Ei IH|v sch path E Hl] using walk_ind; intros v' s H.
  - rewrite agree_None in H. by subst v'.
  - rewrite agree_password in H by done. rewrite !transform_password by done. by apply HR.
  - simpl in H. rewrite E in H. destruct H as (w & -> & H).
    fold (agreeMembers R sch path) in H. simpl. rewrite E. fold (transformMembers fn sch path).
    enough (∀ s, transformMembers fn sch path w s = transformMembers fn sch path m s) as Hw
      by (unfold mbind, M_bind; by rewrite Hw).
    clear s. revert w H. induction IH as [|kv m Hkv _ IHm]; intros [|kw w] H s; simpl in H; try done.
    destruct H as (Ek & H1 & H2). simpl. rewrite Ek. unfold mbind, M_bind.
    rewrite (Hkv _ _ _ H1). case_match; case_match; [|done]. by rewrite (IHm _ H2).
  - simpl in H. rewrite E, Ei in H. destruct H as (w & -> & H).
    fold (agreeElements R items path) in H. simpl. rewrite E, Ei. fold (transformElements fn items path).
    enough (∀ i s, agreeElements R items path l w i →
      transformElements fn items path w i s = transformElements fn items path l i s) as Hw
      by (unfold mbind, M_bind; by rewrite Hw).
    clear s H. revert w. induction IH as [|x l Hx _ IHl]; intros [|y w] i s H; simpl in H; try done.
    destruct H as (H1 & H2). simpl. unfold mbind, M_bind.
    rewrite (Hx _ _ _ H1). case_match; case_match; [|done]. by rewrite (IHl _ _ _ H2).
  - apply agree_leaf in H as ->; [|done..]. done.
Qed.

End Walk.

(** ** Graphs *)

Definition node_secrets (name kind : string) (i : nat) (n : Node) : list (string * json) :=
  match Lookup kind (n_Type n), n_Config n with
  | Some comp, Some config => secrets (JObj config) (Some (Schema comp)) (node_base name i)
  | _, _ => []
  end.

Fixpoint nodes_secrets (name kind : string) (i : nat) (nodes : list Node) : list (string * json) :=
  match nodes with
  | [] => []
  | n :: nodes' => node_secrets name kind i n ++ nodes_secrets name kind (S i) nodes'
  end.

Definition graph_secrets (g : Graph) : list (string * json) :=
  nodes_secrets "processors" KindProcessor 0 (g_Processors g)
  ++ nodes_secrets "exporters" KindExporter 0 (g_Exporters g).

Definition agree_node R (name kind : string) (i : nat) (n n' : Node) : Prop :=
  n_Type n' = n_Type n ∧ n_Name n' = n_Name n ∧
  match Lookup kind (n_Type n), n_Config n with
  | Some comp, Some config => ∃ config', n_Config n' = Some config' ∧
      agree R (JObj config) (Some (Schema comp)) (node_base name i) (JObj config')
  | _, _ => n_Config n' = n_Config n
  end.

Fixpoint agree_nodes R (name kind : string) (i : nat) (nodes nodes' : list Node) : Prop :=
  match nodes, nodes' with
  | [], [] => True
  | n :: l, n' :: l' => agree_node R name kind i n n' ∧ agree_nodes R name kind (S i) l l'
  | _, _ => False
  end.

(** Two graphs that are the same but for the values at password fields, which
    are related by [R]. *)
Definition agree_graph R (g g' : Graph) : Prop :=
  g_Signals g' = g_Signals g ∧
  agree_nodes R "processors" KindProcessor 0 (g_Processors g) (g_Processors g') ∧
  agree_nodes R "exporters" KindExporter 0 (g_Exporters g) (g_Exporters g').

Lemma Schema_not_password kind typ c : Lookup kind typ = Some c → is_password (Schema c) = false.
Proof.
  intros (Hc & _)%Lookup_Some.
  assert (H : Forall (λ c, is_password (Schema c) = false) all)
    by (apply (bool_decide_unpack _); by vm_compute).
  rewrite Forall_forall in H. auto.
Qed.

(** A function that always returns makes the walk return. *)
Section Total.
Context {S : Type} (fn : string → json → M S error json).
Context (Hfn : ∀ p x s, ∃ r s', fn p x s = (inl r, s')).

Lemma transform_total v schema path s :
  ∃ r s', transformSecrets fn v schema path s = (inl r, s').
Proof using Hfn.
  revert s. induction v, schema, path as [v path|v sch path E|m sch path E IH
    |l sch items path E Ei IH|v sch path E Hl] using walk_ind; intros s.
  - rewrite transform_None. by repeat eexists.
  - by rewrite transform_password.
  - simpl. rewrite E. fold (transformMembers fn sch path).
    enough (∃ r s', transformMembers fn sch path m s = (inl r, s')) as (r & s' & H)
      by (unfold mbind, M_bind; rewrite H; by repeat eexists).
    revert s. induction IH as [|kv m Hkv _ IHm]; intros s; [by repeat eexists|].
    simpl. unfold mbind, M_bind. destruct (Hkv (key_path path kv.1) s) as (r & s1 & ->).
    destruct (IHm s1) as (r' & s2 & ->). by repeat eexists.
  - simpl. rewrite E, Ei. fold (transformElements fn items path).
    enough (∀ i s, ∃ r s', transformElements fn items path l i s = (inl r, s')) as H.
    { unfold mbind, M_bind. destruct (H 0 s) as (r & s' & ->). by repeat eexists. }
    clear s. induction IH as [|x l Hx _ IHl]; intros i s; [by repeat eexists|].
    simpl. unfold mbind, M_bind. destruct (Hx (index_path path i) s) as (r & s1 & ->).
    destruct (IHl (Datatypes.S i) s1) as (r' & s2 & ->). by repeat eexists.
  - rewrite transform_leaf by done. by repeat eexists.
Qed.

Lemma transformNodes_total name kind i nodes s :
  ∃ r s', transformNodes fn name kind i nodes s = (inl r, s').
Proof using Hfn.
  revert i s. induction nodes as [|n nodes IH]; intros i s; [by repeat eexists|].
  cbn [transformNodes]. unfold mbind, M_bind.
  destruct (Lookup kind (n_Type n)) as [c|]; [destruct (n_Config n) as [cfg|]|].
  - destruct (transform_total (JObj cfg) (Some (Schema c)) (node_base name i) s) as (r & s1 & ->).
    unfold mret, M_ret. destruct (IH (Datatypes.S i) s1) as (r' & s2 & ->). by repeat eexists.
  - unfold mret, M_ret. destruct (IH (Datatypes.S i) s) as (r' & s2 & ->). by repeat eexists.
  - unfold mret, M_ret. destruct (IH (Datatypes.S i) s) as (r' & s2 & ->). by repeat eexists.
Qed.

Lemma transformGraph_total g s : ∃ r s', transformGraphSecrets fn g s = (inl r, s').
Proof using Hfn.
  unfold transformGraphSecrets, mbind, M_bind.
  destruct (transformNodes_total "processors" KindProcessor 0 (g_Processors g) s) as (r & s1 & ->).
  destruct (transformNodes_total "exporters" KindExporter 0 (g_Exporters g) s1) as (r' & s2 & ->).
  by repeat eexists.
Qed.
End Total.

Section GraphWalk.
Context {S : Type} (fn : string → json → M S error json).
Context (R : string → json → json → Prop).

Lemma agree_obj m sch path v' :
  is_password sch = false → agree R (JObj m) (Some sch) path v' → ∃ m', v' = JObj m'.
Proof. intros E H. simpl in H. rewrite E in H. destruct H as (w & -> & _). eauto. Qed.

Lemma eta_node (n : Node) c : n_Config n = c → n <| n_Config := c |> = n.
Proof. by destruct n; simpl; intros ->. Qed.

Lemma transformNodes_agree name kind i nodes s out s' :
  transformNodes fn name kind i nodes s = (inl out, s') →
  (∀ p x s r s', (p, x) ∈ nodes_secrets name kind i nodes → fn p x s = (inl r, s') → R p x r) →
  agree_nodes R name kind i nodes out.
Proof.
  revert i s out s'. induction nodes as [|n nodes IH]; intros i s out s' H HR;
    cbn [transformNodes] in H.
  { by injection H as <- _. }
  apply bind_inl in H as (n' & s1 & H1 & H). apply bind_inl in H as (rest & s2 & H2 & [<- _]%ret_inl).
  cbn [nodes_secrets] in HR. split.
  - unfold agree_node. unfold node_secrets in HR.
    destruct (Lookup kind (n_Type n)) as [c|] eqn:El; [|by injection H1 as <- _].
    destruct (n_Config n) as [cfg|] eqn:Ec; [|injection H1 as <- _; by rewrite Ec].
    apply bind_inl in H1 as (v & s3 & H1 & [<- _]%ret_inl).
    eapply transform_agree in H1; [|intros; eapply HR; [apply elem_of_app; left|]; eauto].
    destruct (agree_obj _ _ _ _ (Schema_not_password _ _ _ El) H1) as [m' ->].
    split_and!; [done..|]. by exists m'.
  - eapply IH; [exact H2|]. intros. eapply HR; [apply elem_of_app; right|]; eauto.
Qed.

Lemma transformNodes_back name kind i nodes nodes' s :
  agree_nodes R name kind i nodes nodes' →
  (∀ p x r s, (p, x) ∈ nodes_secrets name kind i nodes → R p x r → fn p r s = (inl x, s)) →
  transformNodes fn name kind i nodes' s = (inl nodes, s).
Proof.
  revert i nodes'. induction nodes as [|n nodes IH]; intros i [|n' nodes'] H HR; simpl in H; try done.
  destruct H as [(Et & En & Hc) H]. cbn [transformNodes nodes_secrets] in *. rewrite Et.
  unfold mbind at 1, M_bind at 1.
  assert (E : (match Lookup kind (n_Type n), n_Config n' with
         | Some comp, Some config =>
           cfg ← transformSecrets fn (JObj config) (Some (Schema comp)) (node_base name i);
           mret (n' <| n_Config := as_map cfg |>)
         | _, _ => mret n'
         end) s = (inl n, s)).
  { unfold node_secrets in HR. destruct (Lookup kind (n_Type n)) as [c|].
    - destruct (n_Config n) as [cfg|] eqn:Ec.
      + destruct Hc as (cfg' & -> & Hc). unfold mbind, M_bind.
        erewrite transform_back; [|exact Hc|intros; apply HR; [apply elem_of_app; by left|done]].
        unfold mret, M_ret. simpl. do 2 f_equal. destruct n, n'. simpl in *. by subst.
      + rewrite Hc. unfold mret, M_ret. do 2 f_equal. destruct n, n'. simpl in *. by subst.
    - unfold mret, M_ret. do 2 f_equal. destruct n, n'. simpl in *. by subst. }
  rewrite E. unfold mbind, M_bind. rewrite (IH (Datatypes.S i) nodes'); [done|done|].
  intros. apply HR; [apply elem_of_app; by right|done].
Qed.

Lemma transformNodes_blind name kind i nodes nodes' s :
  agree_nodes R name kind i nodes nodes' →
  (∀ p x r s, R p x r → fn p r s = fn p x s) →
  transformNodes fn name kind i nodes' s = transformNodes fn name kind i nodes s.
Proof.
  intros H HR.
  revert i nodes' s H. induction nodes as [|n nodes IH]; intros i [|n' nodes'] s H; simpl in H; try done.
  destruct H as [(Et & En & Hc) H]. cbn [transformNodes]. rewrite Et. unfold mbind, M_bind.
  destruct (Lookup kind (n_Type n)) as [c|].
  - destruct (n_Config n) as [cfg|] eqn:Ec.
    + destruct Hc as (cfg' & -> & Hc).
      rewrite (transform_blind fn R _ _ _ _ s Hc) by done.
      destruct (transformSecrets _ _ _ _ _) as [[j|e] s1]; [|done]. unfold mret, M_ret.
      assert (n' <| n_Config := as_map j |> = n <| n_Config := as_map j |>) as ->
        by (destruct n, n'; simpl in *; by subst).
      by rewrite (IH _ _ _ H).
    + rewrite Hc. assert (n' = n) as -> by (destruct n, n'; simpl in *; by subst).
      unfold mret, M_ret. by rewrite (IH _ _ _ H).
  - assert (n' = n) as -> by (destruct n, n'; simpl in *; by subst).
    unfold mret, M_ret. by rewrite (IH _ _ _ H).
Qed.

Lemma transformGraph_agree g s out s' :
  transformGraphSecrets fn g s = (inl out, s') →
  (∀ p x s r s', (p, x) ∈ graph_secrets g → fn p x s = (inl r, s') → R p x r) →
  agree_graph R g out.
Proof.
  unfold transformGraphSecrets. intros H HR.
  apply bind_inl in H as (ps & s1 & H1 & H). apply bind_inl in H as (es & s2 & H2 & [<- _]%ret_inl).
  split_and!; [done| |].
  - eapply transformNodes_agree; [exact H1|]. intros. eapply HR; [apply elem_of_app; left|]; eauto.
  - eapply transformNodes_agree; [exact H2|]. intros. eapply HR; [apply elem_of_app; right|]; eauto.
Qed.

Lemma transformGraph_back g g' s :
  agree_graph R g g' →
  (∀ p x r s, (p, x) ∈ graph_secrets g → R p x r → fn p r s = (inl x, s)) →
  transformGraphSecrets fn g' s = (inl g, s).
Proof.
  unfold transformGraphSecrets. intros (Es & Hp & He) HR. unfold mbind, M_bind.
  erewrite transformNodes_back; [|exact Hp|intros; apply HR; [apply elem_of_app; by left|done]].
  erewrite transformNodes_back; [|exact He|intros; apply HR; [apply elem_of_app; by right|done]].
  unfold mret, M_ret. do 2 f_equal. destruct g, g'. simpl in *. by subst.
Qed.

Lemma transformGraph_blind g g' s :
  agree_graph R g g' →
  (∀ p x r s, R p x r → fn p r s = fn p x s) →
  transformGraphSecrets fn g' s = transformGraphSecrets fn g s.
Proof.
  unfold transformGraphSecrets. intros (Es & Hp & He) HR. unfold mbind, M_bind.
  rewrite (transformNodes_blind _ _ _ _ _ s Hp HR).
  destruct (transformNodes _ _ _ _ _ s) as [[ps|e] s1]; [|done].
  rewrite (transformNodes_blind _ _ _ _ _ _ He HR).
  destruct (transformNodes _ _ _ _ _ s1) as [[es|e] s2]; [|done].
  unfold mret, M_ret. do 2 f_equal. destruct g, g'. simpl in *. by subst.
Qed.

End GraphWalk.

(** Effects of the walk are those of the function. *)
Section Steps.
Context {S : Type} (fn : string → json → M S error json) (Q : relation S) `{!PreOrder Q}.
Context (Hfn : ∀ p x, steps Q (fn p x)).

Lemma transform_steps v schema path : steps Q (transformSecrets fn v schema path).
Proof using All.
  induction v, schema, path as [v path|v sch path E|m sch path E IH
    |l sch items path E Ei IH|v sch path E Hl] using walk_ind.
  - rewrite transform_None. by apply steps_ret.
  - by rewrite transform_password.
  - simpl. rewrite E. fold (transformMembers fn sch path).
    apply steps_bind; [done| |intros out; by apply steps_ret].
    induction IH as [|kv m Hkv _ IHm]; [by apply steps_ret|]. simpl.
    apply steps_bind; [done|apply Hkv|intros nv]. apply steps_bind; [done|done|].
    intros rest. by apply steps_ret.
  - simpl. rewrite E, Ei. fold (transformElements fn items path).
    apply steps_bind; [done| |intros out; by apply steps_ret]. generalize 0.
    induction IH as [|x l Hx _ IHl]; intros i; [by apply steps_ret|]. simpl.
    apply steps_bind; [done|apply Hx|intros nv]. apply steps_bind; [done|apply IHl|].
    intros rest. by apply steps_ret.
  - intros s. by rewrite transform_leaf.
Qed.

Lemma transformNodes_steps name kind i nodes : steps Q (transformNodes fn name kind i nodes).
Proof using All.
  revert i. induction nodes as [|n nodes IH]; intros i; [by apply steps_ret|]. cbn [transformNodes].
  apply steps_bind; [done| |intros n'; apply steps_bind; [done|apply IH|]; intros; by apply steps_ret].
  destruct (Lookup kind (n_Type n)); [destruct (n_Config n)|]; try by apply steps_ret.
  apply steps_bind; [done|apply transform_steps|]. intros cfg. by apply steps_ret.
Qed.

Lemma transformGraph_steps g : steps Q (transformGraphSecrets fn g).
Proof using All.
  unfold transformGraphSecrets. apply steps_bind; [done|apply transformNodes_steps|intros ps].
  apply steps_bind; [done|apply transformNodes_steps|intros es]. by apply steps_ret.
Qed.
End Steps.

(** Encrypting a graph does not touch the tables. *)
Section EncryptReads.
Context {ENV : Env}.

Definition same_db : relation (world * list Issue) := λ s s', w_db s'.1 = w_db s.1.
#[local] Instance same_db_preorder : PreOrder same_db.
Proof. split; [done|]. intros s1 s2 s3 H1 H2. unfold same_db in *. congruence. Qed.

Lemma lift_w_same {A} (m : Op A) : readonly m → steps same_db (lift_w m).
Proof.
  intros Hm s. unfold same_db, lift_w. specialize (Hm s.1). by destruct (m s.1).
Qed.

Lemma encrypt_string_same cipher path v s : steps same_db (encrypt_string cipher path v s).
Proof.
  unfold encrypt_string. apply steps_bind; [apply _| |].
  - apply steps_try, lift_w_same. unfold Encrypt. atomic_tac.
  - intros [ct|e]; [apply steps_ret, _|]. destruct (Configured cipher); [apply steps_throw, _|].
    apply steps_bind; [apply _| |intros key].
    + apply lift_w_same. unfold NewRandomKeyBase64. atomic_tac.
    + apply steps_bind; [apply _| |intros ?; apply steps_ret, _]. by intros s0.
Qed.

Lemma encrypt_field_same cipher prev path v : steps same_db (encrypt_field cipher prev path v).
Proof.
  unfold encrypt_field. destruct (encValue v); [apply steps_ret, _|].
  destruct v; try apply steps_ret, _. case_bool_decide; [|apply encrypt_string_same].
  destruct (prev !! path) as [pv|].
  - destruct (encValue pv); [apply steps_ret, _|apply encrypt_string_same].
  - apply steps_bind; [apply _|by intros s0|intros ?; apply steps_ret, _].
Qed.

Lemma readonly_EncryptGraphSecrets g cipher prev : readonly (EncryptGraphSecrets g cipher prev).
Proof.
  intros w. unfold EncryptGraphSecrets.
  pose proof (transformGraph_steps _ same_db (encrypt_field_same cipher (prevSecrets prev)) g (w, [])) as H.
  unfold same_db in H. destruct (transformGraphSecrets _ g (w, [])) as [[o|e] [w1 [|i l]]]; done.
Qed.
End EncryptReads.

(** ** Secret paths are distinct

    A path identifies one secret of a graph: the catalog's password fields sit
    at most two levels deep, below property names without a dot. *)

(** No password field at any depth of a schema. *)
Fixpoint no_password (v : json) : bool :=
  match v with
  | JObj m => negb (is_password m) && forallb (λ kv, no_password kv.2) m
  | JArr l => forallb no_password l
  | _ => true
  end.

Lemma no_password_member k m v :
  no_password (JObj m) = true → member k m = Some v → no_password v = true.
Proof.
  simpl. intros [_ H]%andb_true_iff Hm%member_elem. rewrite forallb_forall in H.
  by apply (H (k, v)), list_elem_of_In.
Qed.

Lemma no_password_sub m k s :
  no_password (JObj m) = true → sub_schema m k = Some s → no_password (JObj s) = true.
Proof.
  assert (Hmap : ∀ k m s, no_password (JObj m) = true → member k m ≫= as_map = Some s →
    no_password (JObj s) = true).
  { intros k' m' s' Hm H. destruct (member k' m') as [v|] eqn:E; [|done].
    apply (no_password_member k' m') in E; [|done]. destruct v; try done. by injection H as ->. }
  intros Hm. unfold sub_schema.
  destruct (member "properties" m ≫= as_map) as [props|] eqn:Ep; simpl; [|by apply Hmap].
  destruct (member k props ≫= as_map) as [s'|] eqn:Es; [|by apply Hmap].
  intros [= <-]. eapply Hmap; [|exact Es]. by eapply Hmap.
Qed.

Lemma no_password_items m s :
  no_password (JObj m) = true → item_schema m = Some s → no_password (JObj s) = true.
Proof.
  unfold item_schema. intros Hm H. destruct (member "items" m) as [v|] eqn:E; [|done].
  eapply no_password_member in E; [|done]. destruct v; try done. by injection H as ->.
Qed.

Lemma no_password_secrets v schema path :
  (∀ sch, schema = Some sch → no_password (JObj sch) = true) → secrets v schema path = [].
Proof.
  induction v, schema, path as [v path|v sch path E|m sch path E IH
    |l sch items path E Ei IH|v sch path E Hl] using walk_ind; intros Hs.
  - by destruct v.
  - specialize (Hs sch eq_refl). simpl in Hs. by rewrite E in Hs.
  - simpl. rewrite E. specialize (Hs sch eq_refl). fold (secretsMembers sch path m).
    induction IH as [|kv m Hkv _ IHm]; [done|]. simpl. rewrite IHm, Hkv; [done|].
    intros s. by apply no_password_sub.
  - simpl. rewrite E, Ei. specialize (Hs sch eq_refl). fold (secretsElements items path l 0).
    generalize 0. induction IH as [|x l Hx _ IHl]; intros i; [done|]. simpl. rewrite IHl, Hx; [done|].
    intros s [= <-]. by eapply no_password_items.
  - destruct v; simpl in *; rewrite E; try done. by rewrite Hl.
Qed.

(** Every value of the map is a secret. *)
Definition headers_like (s : members) : bool :=
  negb (is_password s) && is_none (item_schema s)
  && is_none (member "properties" s)
  && match member "additionalProperties" s ≫= as_map with
     | Some a => is_password a
     | None => false
     end.

Definition flat (sch : members) : bool :=
  negb (is_password sch) && is_none (member "additionalProperties" sch ≫= as_map)
  && match member "properties" sch ≫= as_map with
     | Some props => forallb (λ kv, free_of "." kv.1
         && match kv.2 with
            | JObj s => is_password s || no_password (JObj s) || headers_like s
            | _ => true
            end) props
     | None => true
     end.

Lemma Schema_flat kind typ c : Lookup kind typ = Some c → flat (Schema c) = true.
Proof.
  intros (Hc & _)%Lookup_Some.
  assert (H : Forall (λ c, flat (Schema c) = true) all)
    by (apply (bool_decide_unpack _); by vm_compute).
  rewrite Forall_forall in H. auto.
Qed.

(** What follows the node's base path: one key, or two. *)
Definition flat_path (k : string) (rest : option string) : string :=
  match rest with None => "." +:+ k | Some k' => "." +:+ k +:+ "." +:+ k' end.

Lemma flat_path_inj k r k' r' :
  free_of "." k = true → free_of "." k' = true →
  flat_path k r = flat_path k' r' → k = k' ∧ r = r'.
Proof.
  assert (Hno : ∀ k k' r, free_of "." k = true → free_of "." k' = true → k ≠ k' +:+ String "." r).
  { intros l l' q Hl _ ->. rewrite free_of_app, andb_true_iff in Hl.
    destruct Hl as [_ [Hn _]%free_of_cons]. done. }
  intros Hk Hk' H. destruct r as [r|], r' as [r'|]; cbn [flat_path] in H; apply app_str_inj_l in H.
  - by apply (join_inj "." k r k' r') in H as [-> ->].
  - symmetry in H. by apply Hno in H.
  - by apply Hno in H.
  - by subst.
Qed.

(** The secrets below one property. *)
Lemma flat_member sch k v path :
  flat sch = true →
  (∃ rs, (secrets v (sub_schema sch k) (key_path path k)).*1
         = map (λ r, path +:+ flat_path k r) rs ∧
         (distinct_keys v → NoDup rs) ∧ (rs ≠ [] → free_of "." k = true)).
Proof.
  unfold flat. intros [[Hpw Ha]%andb_true_iff Hp]%andb_true_iff. unfold sub_schema.
  destruct (member "additionalProperties" sch ≫= as_map); [done|].
  assert (Hnil : ∀ schema, (∀ s, schema = Some s → no_password (JObj s) = true) →
    ∃ rs, (secrets v schema (key_path path k)).*1 = map (λ r, path +:+ flat_path k r) rs ∧
      (distinct_keys v → NoDup rs) ∧ (rs ≠ [] → free_of "." k = true)).
  { intros schema Hs. exists []. rewrite (no_password_secrets v schema) by exact Hs.
    split_and!; [done|intros; constructor|done]. }
  destruct (member "properties" sch ≫= as_map) as [props|]; simpl; [|by apply Hnil].
  destruct (member k props) as [pv|] eqn:Ek; simpl; [|by apply Hnil].
  destruct pv as [| | | | |s]; simpl; try by apply Hnil.
  rewrite forallb_forall in Hp. apply member_elem, list_elem_of_In in Ek. apply Hp in Ek.
  simpl in Ek. apply andb_true_iff in Ek as [Hk Hs].
  apply orb_true_iff in Hs as [[Hs|Hs]%orb_true_iff|Hs].
  - exists [None]. rewrite secrets_password by done. split_and!; [done|intros; apply NoDup_singleton|done].
  - apply Hnil. by intros ? [= <-].
  - unfold headers_like in Hs. rewrite !andb_true_iff in Hs. destruct Hs as [[[H1 H2] H3] H4].
    apply negb_true_iff in H1.
    assert (Hsub : ∀ k', sub_schema s k' = member "additionalProperties" s ≫= as_map).
    { intros k'. unfold sub_schema. by destruct (member "properties" s). }
    destruct (member "additionalProperties" s ≫= as_map) as [a|]; [|done].
    destruct v as [| | | |l|m]; simpl; rewrite H1.
    1-4: exists []; split_and!; try done; by constructor.
    + destruct (item_schema s); [done|]. exists []; split_and!; try done; by constructor.
    + exists (map Some m.*1). fold (secretsMembers s (key_path path k) m). split_and!; [| |done].
      * clear Hnil. induction m as [|kv m IH]; [done|]. simpl. rewrite Hsub, secrets_password by done.
        simpl. f_equal; [|exact IH]. unfold key_path. by rewrite !app_str_assoc.
      * intros [Hnd _]. by apply NoDup_fmap_2; [apply _|].
Qed.

(** The secrets of a whole config. *)
Lemma flat_members sch path (m : members) :
  flat sch = true → NoDup m.*1 → Forall (λ kv, distinct_keys kv.2) m →
  NoDup (secretsMembers sch path m).*1 ∧
  ∀ p, p ∈ (secretsMembers sch path m).*1 →
    ∃ k r, k ∈ m.*1 ∧ free_of "." k = true ∧ p = path +:+ flat_path k r.
Proof.
  intros Hf. induction m as [|[k v] m IH]; intros Hnd Hd.
  { split; [apply NoDup_nil_2|by intros p ?%elem_of_nil]. }
  apply NoDup_cons in Hnd as [Hk Hnd]. apply Forall_cons in Hd as [Hv Hd].
  destruct (IH Hnd Hd) as [IH1 IH2]. destruct (flat_member sch k v path Hf) as (rs & E & Hrs & Hfree).
  simpl in *. rewrite fmap_app, E.
  assert (Hhead : ∀ p, p ∈ map (λ r, path +:+ flat_path k r) rs →
    ∃ r, free_of "." k = true ∧ p = path +:+ flat_path k r).
  { intros p (r & -> & Hr)%list_elem_of_fmap. exists r. split; [|done]. apply Hfree.
    intros En. rewrite En in Hr. by apply elem_of_nil in Hr. }
  split.
  - apply NoDup_app. split_and!; [| |done].
    + destruct rs as [|r0 l]; [apply NoDup_nil_2|]. apply NoDup_fmap_2_strong; [|auto].
      intros r r' _ _ Er%app_str_inj_l. apply flat_path_inj in Er as [_ ->]; auto.
    + intros p (r & Hkf & ->)%Hhead (k' & r' & Hin & Hkf' & Ep)%IH2.
      apply app_str_inj_l, flat_path_inj in Ep as [-> _]; auto.
  - intros p [(r & Hkf & ->)%Hhead|(k' & r' & Hin & Hkf' & ->)%IH2]%elem_of_app.
    + exists k, r. split_and!; [left|done|done].
    + exists k', r'. split_and!; [by right|done|done].
Qed.

(** Paths of one node: distinct, each below the node's base. *)
Lemma node_secrets_NoDup name kind i n :
  (∀ c, n_Config n = Some c → distinct_keys (JObj c)) →
  NoDup (node_secrets name kind i n).*1 ∧
  ∀ p, p ∈ (node_secrets name kind i n).*1 → ∃ t, p = node_base name i +:+ t.
Proof.
  intros Hd. unfold node_secrets.
  destruct (Lookup kind (n_Type n)) as [comp|] eqn:El; [|split; [apply NoDup_nil_2|by intros p ?%elem_of_nil]].
  destruct (n_Config n) as [cfg|]; [|split; [apply NoDup_nil_2|by intros p ?%elem_of_nil]].
  specialize (Hd cfg eq_refl). apply distinct_keys_obj in Hd as [Hnd Hd].
  simpl. rewrite (Schema_not_password _ _ _ El).
  fold (secretsMembers (Schema comp) (node_base name i) cfg).
  destruct (flat_members (Schema comp) (node_base name i) cfg (Schema_flat _ _ _ El) Hnd Hd) as [H1 H2].
  split; [done|]. intros p (k & r & _ & _ & ->)%H2. eauto.
Qed.

(** A graph whose configs are maps, at every depth. *)
Definition configs_distinct (nodes : list Node) : Prop :=
  Forall (λ n, ∀ c, n_Config n = Some c → distinct_keys (JObj c)) nodes.

Lemma node_base_inj name i j t t' :
  node_base name i +:+ t = node_base name j +:+ t' → i = j.
Proof.
  unfold node_base. rewrite !app_str_assoc. intros H%app_str_inj_l%app_str_inj_l.
  assert (Hd : ∀ n, free_of "]" (Itoa (Z.of_nat n)) = true).
  { intros n. eapply all_bytes_mono; [|apply Itoa_nat_digits]. intros c.
    unfold is_digit, in_range. rewrite andb_true_iff, !N.leb_le, negb_true_iff, N.eqb_neq.
    change (code "]") with 93%N. lia. }
  apply (join_inj "]") in H as [H _]; [|done..]. apply Itoa_inj in H. lia.
Qed.

Lemma nodes_secrets_NoDup name kind i nodes :
  configs_distinct nodes →
  NoDup (nodes_secrets name kind i nodes).*1 ∧
  ∀ p, p ∈ (nodes_secrets name kind i nodes).*1 →
    ∃ j t, i ≤ j ∧ p = node_base name j +:+ t.
Proof.
  intros Hd. revert i. induction Hd as [|n nodes Hn Hd IH]; intros i.
  { split; [apply NoDup_nil_2|by intros p ?%elem_of_nil]. }
  simpl. rewrite fmap_app. destruct (IH (S i)) as [IH1 IH2].
  destruct (node_secrets_NoDup name kind i n Hn) as [H1 H2]. split.
  - apply NoDup_app. split_and!; [done| |done].
    intros p [t ->]%H2 (j & t' & Hj & E)%IH2. apply node_base_inj in E. lia.
  - intros p [[t ->]%H2|(j & t' & Hj & ->)%IH2]%elem_of_app; [by exists i, t|].
    exists j, t'. split; [lia|done].
Qed.

Definition graph_distinct (g : Graph) : Prop :=
  configs_distinct (g_Processors g) ∧ configs_distinct (g_Exporters g).

Lemma graph_secrets_NoDup g : graph_distinct g → NoDup (graph_secrets g).*1.
Proof.
  intros [Hp He]. unfold graph_secrets. rewrite fmap_app. apply NoDup_app. split_and!.
  - by apply nodes_secrets_NoDup.
  - intros p (i & t & _ & ->)%nodes_secrets_NoDup (j & t' & _ & E)%nodes_secrets_NoDup; done.
  - by apply nodes_secrets_NoDup.
Qed.

(** ** Indexing *)

Definition index_all (l : list (string * json)) (m : gmap string json) : gmap string json :=
  foldl (λ m px, <[px.1 := px.2]> m) m l.

Lemma index_transform v schema path m :
  transformSecrets index_field v schema path m
  = (inl v, index_all (secrets v schema path) m).
Proof.
  revert m. induction v, schema, path as [v path|v sch path E|o sch path E IH
    |l sch items path E Ei IH|v sch path E Hl] using walk_ind; intros m.
  - by destruct v.
  - by rewrite transform_password, secrets_password.
  - simpl. rewrite E. fold (transformMembers index_field sch path). fold (secretsMembers sch path o).
    enough (transformMembers index_field sch path o m
      = (inl o, index_all (secretsMembers sch path o) m)) as H by (unfold mbind, M_bind; by rewrite H).
    revert m. induction IH as [|kv o Hkv _ IHo]; intros m; [done|]. simpl. unfold mbind, M_bind.
    rewrite Hkv, IHo. unfold index_all. rewrite foldl_app. by destruct kv.
  - simpl. rewrite E, Ei. fold (transformElements index_field items path).
    fold (secretsElements items path l 0).
    enough (∀ i m, transformElements index_field items path l i m
      = (inl l, index_all (secretsElements items path l i) m)) as H
      by (unfold mbind, M_bind; by rewrite H).
    clear m. induction IH as [|x l Hx _ IHl]; intros i m; [done|]. simpl. unfold mbind, M_bind.
    rewrite Hx, IHl. unfold index_all. by rewrite foldl_app.
  - rewrite transform_leaf by done. by destruct v; simpl in *; rewrite E, ?Hl.
Qed.

Lemma index_nodes name kind i nodes m :
  transformNodes index_field name kind i nodes m
  = (inl nodes, index_all (nodes_secrets name kind i nodes) m).
Proof.
  revert i m. induction nodes as [|n nodes IH]; intros i m; [done|].
  cbn [transformNodes nodes_secrets]. unfold node_secrets, mbind, M_bind.
  unfold index_all. rewrite foldl_app. fold (index_all).
  destruct (Lookup kind (n_Type n)) as [c|].
  - destruct (n_Config n) as [cfg|] eqn:Ec.
    + rewrite index_transform. unfold mret, M_ret. cbn [as_map].
      rewrite IH. do 2 f_equal. f_equal. by apply eta_node.
    + unfold mret, M_ret. by rewrite IH.
  - unfold mret, M_ret. by rewrite IH.
Qed.

Lemma prevSecrets_Some g : prevSecrets (Some g) = index_all (graph_secrets g) ∅.
Proof.
  unfold prevSecrets, transformGraphSecrets, graph_secrets, mbind, M_bind.
  rewrite !index_nodes. unfold index_all. by rewrite foldl_app.
Qed.

Lemma index_all_lookup l m p x :
  NoDup l.*1 → (p, x) ∈ l → index_all l m !! p = Some x.
Proof.
  assert (Hother : ∀ l m p, p ∉ l.*1 → index_all l m !! p = m !! p).
  { induction l0 as [|[p' x'] l0 IH]; intros m0 p0 Hp; [done|]. unfold index_all. simpl in *.
    fold (index_all l0 (<[p' := x']> m0)). rewrite IH by set_solver.
    apply lookup_insert_ne. set_solver. }
  revert m. induction l as [|[p' x'] l IH]; intros m Hnd Hin; [by apply elem_of_nil in Hin|].
  apply NoDup_cons in Hnd as [Hp Hnd]. unfold index_all. simpl.
  fold (index_all l (<[p' := x']> m)). apply elem_of_cons in Hin as [[= -> ->]|Hin].
  - rewrite Hother by done. apply lookup_insert_eq.
  - by apply IH.
Qed.

(** ** Theorems *)

Lemma encValue_newEncValue ct : encValue (newEncValue ct) = Some ct.
Proof.
  unfold encValue, newEncValue. rewrite bool_decide_true by done.
  apply DecodeString_EncodeToString.
Qed.

(** C20: What leaves the backend does not depend on the secrets: graphs that
    differ only in the (non-null) values of their password fields redact to
    the same graph. *)
Theorem redaction_hides_secrets (g g' : Graph) :
  agree_graph (λ _ x r, x = JNull ↔ r = JNull) g g' →
  RedactGraphSecrets g' = RedactGraphSecrets g.
Proof.
  intros H. unfold RedactGraphSecrets. rewrite (transformGraph_blind _ _ _ _ tt H); [done|].
  intros p x r s Hn. unfold redact_field. destruct x, r; try done; naive_solver.
Qed.

Section Roundtrips.
Context {ENV : Env}.

Lemma EncryptGraphSecrets_inl g cipher prev w out w' :
  EncryptGraphSecrets g cipher prev w = (inl (out, []), w') →
  transformGraphSecrets (encrypt_field cipher (prevSecrets prev)) g (w, []) = (inl out, (w', [])).
Proof.
  unfold EncryptGraphSecrets.
  destruct (transformGraphSecrets _ g (w, [])) as [[o|e] [w1 [|i is0]]]; intros H; by simplify_eq.
Qed.

Lemma encrypt_string_inl cipher path v s st r st' :
  encrypt_string (Some cipher) path v s st = (inl r, st') →
  ∃ ct w w', r = newEncValue ct ∧ Encrypt (Some cipher) s w = (inl ct, w').
Proof.
  unfold encrypt_string. intros H. apply bind_inl in H as (res & s1 & H1 & H2).
  apply mtry_inl in H1. unfold lift_w in H1.
  destruct (Encrypt (Some cipher) s st.1) as [res' w1] eqn:E. injection H1 as <- <-.
  destruct res' as [ct|e]; [|done]. injection H2 as <- _. eauto.
Qed.

(** C21: Encrypting a graph of new values for storage and decrypting it again
    gives the graph back, for every configured key and all randomness. *)
Theorem decrypt_encrypt_graph (g : Graph) (c : Cipher) (prev : option Graph) (w : world)
    (stored : Graph) (w' : world) :
  cipher_ok c →
  (∀ p x, (p, x) ∈ graph_secrets g → encValue x = None ∧ x ≠ JStr RedactedSentinel) →
  EncryptGraphSecrets g (Some c) prev w = (inl (stored, []), w') →
  DecryptGraphSecrets stored (Some c) = inl g.
Proof.
  intros Hc Hnew H%EncryptGraphSecrets_inl. unfold DecryptGraphSecrets.
  set (R := λ p x r, decrypt_field (Some c) p r tt = (inl x, tt)).
  erewrite (transformGraph_back _ R); [done| |].
  - eapply transformGraph_agree; [exact H|]. intros p x s r s' Hin Hrun.
    destruct (Hnew p x Hin) as [He Hs]. unfold R, decrypt_field, encrypt_field in *.
    rewrite He in Hrun. destruct x as [| | |str| |]; try (injection Hrun as <- _; by rewrite He).
    rewrite bool_decide_false in Hrun by congruence.
    apply encrypt_string_inl in Hrun as (ct & w1 & w2 & -> & Henc).
    rewrite encValue_newEncValue. by rewrite (Decrypt_Encrypt _ _ _ _ _ Hc Henc).
  - intros p x r [] _ HR. exact HR.
Qed.

(** C22: Sending a redacted graph back unchanged stores the graph it was
    redacted from, secrets included, without touching the key or drawing
    randomness. *)
Theorem redacted_resubmit_keeps_secrets (stored : Graph) (cipher : option Cipher) (w : world) :
  graph_distinct stored →
  (∀ p x, (p, x) ∈ graph_secrets stored → is_some (encValue x) = true) →
  EncryptGraphSecrets (RedactGraphSecrets stored) cipher (Some stored) w = (inl (stored, []), w).
Proof.
  intros Hd Hm. set (R := λ (_ : string) (x r : json), is_some (encValue x) = true → r = JStr RedactedSentinel).
  destruct (transformGraph_total redact_field (λ p x s, ex_intro _ _ (ex_intro _ _ eq_refl)) stored tt)
    as (g & [] & E).
  unfold RedactGraphSecrets. rewrite E. cbn [fst].
  assert (Ha : agree_graph R stored g).
  { eapply transformGraph_agree; [exact E|]. intros p x s r s' _ Hrun Hx.
    injection Hrun as <- _. by destruct x. }
  unfold EncryptGraphSecrets. erewrite (transformGraph_back _ R); [done|exact Ha|].
  intros p x r s Hin HR. specialize (Hm p x Hin). rewrite (HR Hm).
  unfold encrypt_field. cbn [encValue]. rewrite bool_decide_true by done.
  rewrite prevSecrets_Some, (index_all_lookup _ _ _ _ (graph_secrets_NoDup _ Hd) Hin).
  by destruct (encValue x).
Qed.

End Roundtrips.

(** ** A graph with secrets *)

Definition secret_graph (k1 k2 : json) : Graph :=
  {| g_Signals := ["logs"]; g_Processors := [];
     g_Exporters :=
       [{| n_Type := "otlp"; n_Name := None;
           n_Config := Some [("endpoint", JStr "a:1"); ("headers", JObj [("authorization", k1)])] |};
        {| n_Type := "clickhouse"; n_Name := Some "ch";
           n_Config := Some [("endpoint", JStr "tcp://b"); ("password", k2)] |}] |}.

Definition demo_cipher : Cipher := {| aead_key := GCM.zeros 32 |}.

Lemma redaction_hides_secrets_witness :
  RedactGraphSecrets (secret_graph (JStr "other") (newEncValue "x"))
  = RedactGraphSecrets (secret_graph (JStr "s3cret") (JStr "pw")).
Proof. apply redaction_hides_secrets. repeat (split || eexists); done. Defined.

Definition demo_stored : Graph :=
  match (@EncryptGraphSecrets quiet_env (secret_graph (JStr "s3cret") (JStr "pw"))
           (Some demo_cipher) None world_init).1 with
  | inl (g, _) => g
  | inr _ => secret_graph JNull JNull
  end.

Lemma decrypt_encrypt_graph_witness :
  DecryptGraphSecrets demo_stored (Some demo_cipher)
  = inl (secret_graph (JStr "s3cret") (JStr "pw")).
Proof.
  eapply (@decrypt_encrypt_graph quiet_env _ demo_cipher None world_init demo_stored).
  - reflexivity.
  - intros p x H. vm_compute in H. repeat (apply elem_of_cons in H as [[= _ ->]|H]; [done|]).
    by apply elem_of_nil in H.
  - vm_compute. reflexivity.
Defined.

Lemma redacted_resubmit_keeps_secrets_witness :
  (@EncryptGraphSecrets quiet_env (RedactGraphSecrets demo_stored) None (Some demo_stored)
     world_init).1 = inl (demo_stored, []).
Proof.
  rewrite (@redacted_resubmit_keeps_secrets quiet_env demo_stored None world_init); [done| |].
  - vm_compute. split; [by constructor|]. repeat (apply Forall_cons_2 || apply Forall_nil_2);
      intros c [= <-]; repeat split; apply (bool_decide_unpack _); by vm_compute.
  - intros p x H. assert (Hall : Forall (λ px, is_some (encValue px.2) = true) (graph_secrets demo_stored))
      by (apply (bool_decide_unpack _); by vm_compute).
    rewrite Forall_forall in Hall. exact (Hall _ H).
Defined.

(** The sentinel resolves by position: with the first exporter removed, the
    second one, sent back redacted, is stored with the first one's secret. *)
Definition two_exporters (k1 k2 : json) : Graph :=
  {| g_Signals := ["logs"]; g_Processors := [];
     g_Exporters :=
       [{| n_Type := "otlp"; n_Name := None;
           n_Config := Some [("endpoint", JStr "vendor-a:1"); ("headers", JObj [("authorization", k1)])] |};
        {| n_Type := "otlp"; n_Name := None;
           n_Config := Some [("endpoint", JStr "vendor-b:1"); ("headers", JObj [("authorization", k2)])] |}] |}.

Example removed_exporter_shifts_secrets :
  let stored := two_exporters (newEncValue "key of vendor a") (newEncValue "key of vendor b") in
  let edited := RedactGraphSecrets stored <| g_Exporters ::= drop 1 |> in
  (@EncryptGraphSecrets quiet_env edited (Some demo_cipher) (Some stored) world_init).1
  = inl ({| g_Signals := ["logs"]; g_Processors := [];
            g_Exporters :=
              [{| n_Type := "otlp"; n_Name := None;
                  n_Config := Some [("endpoint", JStr "vendor-b:1");
                    ("headers", JObj [("authorization", newEncValue "key of vendor a")])] |}] |}, []).
Proof. vm_compute. reflexivity. Qed.
