(* ===== verification/PipelineService.v ===== *)
(** * Pipeline management (internal/pipelines/service.go, distributor.go)

    The service that validates, versions, activates and distributes pipelines.
    Its operations on the store are [Op]s; activation, deletion and re-sync
    also publish, so they run in a state that adds the distributor and the
    notifications sent to the OpAMP tier (internal/pgnotify, main.go). *)
From Stdlib Require Import Ascii.
From S2P Require Import Prelude GoStrings Sha256 Store World PgCore PgFleet PgPipelines GoText Json Catalog PipelineGraph Render Validate Crypto Secrets Tenants OpampHandler.

Definition StateApplied : string := "applied".
Definition StatePendingRestart : string := "pending_restart".

(** [Distributor]: what publishing a configuration does to its own state. *)
Class Distributor (D : Type) := { Distribute : string → M D error (string * string) }.

(** [PublishDistributor]: the last configuration published, "" before that. *)
Definition Publish (renderedFullConfig : string) : M string error (string * string) :=
  mput renderedFullConfig;;
  mret (StatePendingRestart,
        "restart the forwarding collector to apply (docker compose restart forwarding)").
#[export] Instance PublishDistributor : Distributor string := { Distribute := Publish }.
Definition Current (d : string) : string := d.

Definition EdgeConfigChannel : string := "otelfleet_edge_config".

Record Created := {
  cre_Pipeline : Pipeline;
  cre_Version : PipelineVersion;
}.

Record NewPV := {
  nv_Base : NewPipelineVersion;
  nv_Result : Result;
}.

(** The service's fields that do not change: the validator's binary, the
    cipher, whether an edge notifier is attached. *)
Record SvcCfg := {
  sv_BinPath : string;
  sv_cipher : option Cipher;
  sv_edge : bool;
}.

Section Service.
Context {ENV : Env} {SCHEMA : JSONSchema} {YML : YAML} {COL : OtelCol}.
Context (unicode_print : N → bool) (cfg : SvcCfg).
Let cipher := sv_cipher cfg.

Definition lift_sum {A} (r : A + error) : Op A :=
  match r with inl a => mret a | inr e => mthrow e end.

(** ** Rendering from database state *)

Definition toRender (ap : ActivePipeline) : RenderPipeline + error :=
  match ParseGraph (act_Graph ap) with
  | inr e => inr (Wrap ("pipeline " +:+ uuid_String (act_PipelineID ap)) e)
  | inl g =>
    match DecryptGraphSecrets g cipher with
    | inr e => inr (Wrap ("pipeline " +:+ uuid_String (act_PipelineID ap)) e)
    | inl g =>
      inl {| rp_CustomerSlug := act_CustomerSlug ap; rp_ClientID := act_ClientID ap;
             rp_PipelineSlug := PipelineSlug unicode_lower (act_PipelineName ap);
             rp_Graph := g |}
    end
  end.

Fixpoint render_inputs (exclude : option uuid) (aps : list ActivePipeline)
    : list RenderPipeline + error :=
  match aps with
  | [] => inl []
  | ap :: aps' =>
    if bool_decide (exclude = Some (act_PipelineID ap)) then render_inputs exclude aps'
    else
      match toRender ap with
      | inr e => inr e
      | inl rp =>
        match render_inputs exclude aps' with
        | inr e => inr e
        | inl out => inl (rp :: out)
        end
      end
  end.

Definition activeRenderPipelines (targetClass : string) (customerID exclude : option uuid)
    : Op (list RenderPipeline) :=
  aps ← ListActivePipelines targetClass customerID;
  lift_sum (render_inputs exclude aps).

Definition RenderCurrent : Op string :=
  inputs ← activeRenderPipelines ClassForwarding None None;
  lift_sum (RenderForwardingConfig unicode_print inputs).

Definition svc_RenderEdgeCurrent (customerID : uuid) : Op string :=
  inputs ← activeRenderPipelines ClassEdge (Some customerID) None;
  lift_sum (RenderEdgeConfig unicode_print inputs).

(** ** Validation *)

(** A run of the validator: the collector binary is consulted twice. *)
Definition validate (targetClass : string) (candidate : RenderPipeline)
    (others : list RenderPipeline) : Op Result :=
  k ← tick; tick;;
  mret (Validate unicode_print (sv_BinPath cfg) k targetClass candidate others).

Definition ValidateDraft (targetClass : string) (g : Graph) : Op Result :=
  let candidate := {| rp_CustomerSlug := "draft-validation";
                      rp_ClientID := "cust_draft_validation";
                      rp_PipelineSlug := "draft"; rp_Graph := g |} in
  others ←
    (if bool_decide (targetClass = ClassEdge) then mret []
     else
       r ← mtry (activeRenderPipelines ClassForwarding None None);
       mret (match r with inl others => others | inr _ => [] end));
  validate targetClass candidate others.

(** [prepare]: the version to insert, or the result that refuses the graph. *)
Definition prepare (cust : Customer) (name targetClass : string) (excludePipeline : option uuid)
    (g : Graph) (prev : option Graph) (actor : option uuid)
    : Op (NewPV + Result) :=
  '(stored, secretIssues) ← EncryptGraphSecrets g cipher prev;
  match secretIssues with
  | _ :: _ => mret (inr {| res_Valid := false; res_Issues := secretIssues;
                           res_RenderedYAML := None |})
  | [] =>
    plain ← lift_sum (DecryptGraphSecrets stored cipher);
    let candidate := {| rp_CustomerSlug := c_Slug cust; rp_ClientID := c_ClientID cust;
                        rp_PipelineSlug := PipelineSlug unicode_lower name;
                        rp_Graph := plain |} in
    let edge := bool_decide (targetClass = ClassEdge) in
    let customerScope := if edge then Some (c_ID cust) else None in
    others ← activeRenderPipelines targetClass customerScope excludePipeline;
    res ← validate targetClass candidate others;
    if negb (res_Valid res) then mret (inr res)
    else
      let redactedCandidate := candidate <| rp_Graph := RedactGraphSecrets stored |> in
      fragment ← lift_sum ((if edge then RenderEdgeFragment else RenderFragment)
                             redactedCandidate);
      let res := res <| res_RenderedYAML := Some fragment |> in
      let output := match res_Issues res with
                    | [] => None
                    | issues => Some (String.concat (String "010" "") (map iss_Message issues))
                    end in
      id ← uuid_New;
      mret (inl {| nv_Base := {| nv_ID := id; nv_PipelineID := 0; nv_Graph := MarshalGraph stored;
                                 nv_RenderedYAML := fragment; nv_ConfigHash := Sha256.Sum256 fragment;
                                 nv_ValidationStatus := ValidationValid;
                                 nv_ValidationOutput := output; nv_CreatedBy := actor |};
                   nv_Result := res |})
  end.

Definition with_pipeline (nv : NewPipelineVersion) (pipelineID : uuid) : NewPipelineVersion := {|
  nv_ID := nv_ID nv; nv_PipelineID := pipelineID; nv_Graph := nv_Graph nv;
  nv_RenderedYAML := nv_RenderedYAML nv; nv_ConfigHash := nv_ConfigHash nv;
  nv_ValidationStatus := nv_ValidationStatus nv;
  nv_ValidationOutput := nv_ValidationOutput nv; nv_CreatedBy := nv_CreatedBy nv |}.

(** ** Creating pipelines and versions *)

(** The loop over the customer's pipelines: the first whose name derives the
    same slug decides. *)
Definition slug_conflict (name : string) (existing : list Pipeline) : option error :=
  match find (λ p, bool_decide (PipelineSlug unicode_lower (p_Name p)
                                = PipelineSlug unicode_lower name)) existing with
  | Some p => Some (if bool_decide (p_Name p = name) then ErrNameExists else ErrSlugTaken)
  | None => None
  end.

Definition Create (actor : option uuid) (customerID : uuid) (name targetClass : string)
    (g : Graph) : Op (Created * Result + Result) :=
  let name := TrimSpace name in
  if bool_decide (name = "") || negb (String.length name <=? 200)
     || bool_decide (PipelineSlug unicode_lower name = "")
  then mthrow ErrInvalidName
  else
    let targetClass := if bool_decide (targetClass = "") then ClassForwarding else targetClass in
    cust ← GetCustomer customerID;
    if bool_decide (c_Status cust = CustomerDeleted) then mthrow ErrNotFound
    else
      existing ← ListPipelines (Some customerID);
      match slug_conflict name existing with
      | Some e => mthrow e
      | None =>
        r ← prepare cust name targetClass None g None actor;
        match r with
        | inr res => mret (inr res)
        | inl nv =>
          pipelineID ← uuid_New;
          let entries :=
            [entry actor "pipeline.create" "pipeline" pipelineID (Some customerID)
               (Some (JObj [("name", JStr name);
                            ("slug", JStr (PipelineSlug unicode_lower name));
                            ("target_class", JStr targetClass)]));
             entry actor "pipeline_version.create" "pipeline_version" (nv_ID (nv_Base nv))
               (Some customerID)
               (Some (JObj [("pipeline", JStr (uuid_String pipelineID)); ("version", JNum "1")]))] in
          '(pipe, ver) ← CreatePipeline
            {| np_ID := pipelineID; np_CustomerID := customerID; np_Name := name;
               np_TargetClass := targetClass |}
            (with_pipeline (nv_Base nv) pipelineID) entries;
          mret (inl ({| cre_Pipeline := pipe; cre_Version := ver |}, nv_Result nv))
        end
      end.

Definition CreateVersion (actor : option uuid) (pipelineID : uuid) (g : Graph)
    : Op (PipelineVersion * Result + Result) :=
  pipe ← GetPipeline pipelineID;
  prev ← match p_LatestVersion pipe with
         | Some latest =>
           prevVer ← GetPipelineVersion pipelineID latest;
           prevGraph ← lift_sum (ParseGraph (pv_Graph prevVer));
           mret (Some prevGraph)
         | None => mret None
         end;
  let cust := {| c_ID := p_CustomerID pipe; c_Slug := p_CustomerSlug pipe; c_Name := "";
                 c_ClientID := p_ClientID pipe; c_Status := CustomerActive;
                 c_RateLimitItemsPerSec := None; c_RetentionDays := None;
                 c_CreatedAt := zero_time; c_UpdatedAt := zero_time |} in
  r ← prepare cust (p_Name pipe) (p_TargetClass pipe) (Some pipelineID) g prev actor;
  match r with
  | inr res => mret (inr res)
  | inl nv =>
    ver ← CreatePipelineVersion (with_pipeline (nv_Base nv) pipelineID)
      [entry actor "pipeline_version.create" "pipeline_version" (nv_ID (nv_Base nv))
         (Some (p_CustomerID pipe)) (Some (JObj [("pipeline", JStr (uuid_String pipelineID))]))];
    mret (inl (ver, nv_Result nv))
  end.

(** ** Rolling out *)

(** The database, the distributor, and the notifications sent. *)
Record svcstate (D : Type) := {
  ss_w : world;
  ss_dist : D;
  ss_notes : list (string * string);
}.
#[global] Arguments ss_w {D} _.
#[global] Arguments ss_dist {D} _.
#[global] Arguments ss_notes {D} _.
#[global] Arguments Build_svcstate {D} _ _ _.

Context {D : Type} `{!Distributor D}.
Abbreviation Svc := (M (svcstate D) error).

Definition on_store {A} (m : Op A) : Svc A := λ s,
  let '(r, w) := m (ss_w s) in (r, Build_svcstate w (ss_dist s) (ss_notes s)).
Definition on_dist {A} (m : M D error A) : Svc A := λ s,
  let '(r, d) := m (ss_dist s) in (r, Build_svcstate (ss_w s) d (ss_notes s)).

(** [pgnotify.Notifier.Notify]: one statement that leaves the tables alone. *)
Definition Notify (channel payload : string) : Svc unit :=
  on_store (stmt (λ _ d, inl (d, tt)));;
  mmodify (λ s, Build_svcstate (ss_w s) (ss_dist s) (ss_notes s ++ [(channel, payload)])).

Definition EdgeConfigChanged (customerID : uuid) : Svc unit :=
  Notify EdgeConfigChannel (uuid_String customerID).

Definition distribute : Svc (string * string) :=
  full ← on_store RenderCurrent;
  on_dist (Distribute full).

Definition countEdgeAgents (customerID : uuid) : Op (nat * nat) :=
  r ← mtry (ListAgents {| agf_Class := Some AgentClassEdge; agf_CustomerID := Some customerID;
                          agf_Connected := None |});
  match r with
  | inr _ => mret (0, 0)
  | inl agents =>
    mret (length (filter (λ a, a_Connected a = true) agents),
          length (filter (λ a, a_Connected a ≠ true) agents))
  end.

Definition notifyEdge (customerID : uuid) : Svc (string * string) :=
  mwhen (sv_edge cfg) (EdgeConfigChanged customerID);;
  '(connected, offline) ← on_store (countEdgeAgents customerID);
  mret (StateApplied,
        "rollout queued: " +:+ Itoa (Z.of_nat connected) +:+ " connected agent(s) update now, "
        +:+ Itoa (Z.of_nat offline) +:+ " offline update on reconnect").

Definition ResyncEdge (customerID : uuid) : Svc (string * string) := notifyEdge customerID.

Definition roll_out (pipe : Pipeline) : Svc (string * string) :=
  if bool_decide (p_TargetClass pipe = ClassEdge) then notifyEdge (p_CustomerID pipe)
  else distribute.

Definition Activate (actor : option uuid) (pipelineID : uuid) (version : Z)
    : Svc (Pipeline * string * string) :=
  '(pipe, _) ← on_store (ActivatePipelineVersion pipelineID version
    [entry actor "pipeline_version.activate" "pipeline" pipelineID None
       (Some (JObj [("version", JNum (Itoa version))]))]);
  r ← mtry (roll_out pipe);
  match r with
  | inl (state, detail) => mret (pipe, state, detail)
  | inr err => mthrow (Wrap ("version " +:+ Itoa version
                 +:+ " activated, but distributing the config failed") err)
  end.

Definition Delete (actor : option uuid) (pipelineID : uuid) : Svc unit :=
  pipe ← on_store (GetPipeline pipelineID);
  on_store (DeletePipeline pipelineID
    [entry actor "pipeline.delete" "pipeline" pipelineID (Some (p_CustomerID pipe))
       (Some (JObj [("name", JStr (p_Name pipe))]))]);;
  mwhen (is_some (p_ActiveVersionID pipe)) (mtry (roll_out pipe);; mret tt).

End Service.
