(* ===== verification/PipelineServiceProps.v ===== *)
(** * What the pipeline service maintains

    Histories of the control plane in which customers are created by the
    tenants service and pipelines and versions by the pipeline service, every
    other store call being arbitrary.  In every state such a history reaches,
    whatever statements failed on the way, the active pipelines render. *)
From Stdlib Require Import Ascii.
From S2P Require Import Prelude GoStrings Sha256 Store World PgCore PgUsers PgFleet PgPipelines PgMisc StoreCalls StoreInv PipelineInv Tokens Slug Tenants TenantsProps GoText Json Catalog PipelineGraph Render Validate RenderProps Crypto Secrets SecretsProps OpampHandler PipelineService.

(** A continuation only sees the values the first computation returns. *)
Lemma steps_bind_val {S E A B} (R : relation S) `{!PreOrder R} (m : M S E A) (f : A → M S E B) :
  steps R m → (∀ a, (∃ s s', m s = (inl a, s')) → steps R (f a)) → steps R (m ≫= f).
Proof.
  intros Hm Hf s. specialize (Hm s). unfold mbind, M_bind.
  destruct (m s) as [[a|e] s'] eqn:Em; simpl in *; [|done].
  etrans; [exact Hm|]. apply Hf. eauto.
Qed.

(** ** What the invariant sees of the tables *)

Definition customer_shape (d : db) : gmap uuid (string * string) :=
  (λ c, (c_Slug c, c_ClientID c)) <$> customers d.
Definition pipeline_shape (d : db) : gmap uuid (uuid * string) :=
  (λ p, (pr_CustomerID p, pr_Name p)) <$> pipelines d.
Definition version_shape (d : db) : gmap uuid json := vr_Graph <$> pipeline_versions d.

Section Invariant.
Context {SCHEMA : JSONSchema} (pr : N → bool) (lower : N → N) (cipher : option Cipher).

(** A stored graph: decrypted, it passes structural validation. *)
Definition graph_valid (j : json) : Prop :=
  ∃ g plain, ParseGraph j = inl g ∧ DecryptGraphSecrets g cipher = inl plain ∧
             ValidateStructural pr plain = [].

Record shapes_ok (cs : gmap uuid (string * string)) (ps : gmap uuid (uuid * string))
    (vs : gmap uuid json) : Prop := {
  so_slug : ∀ k s cl, cs !! k = Some (s, cl) → slug_ok s = true ∧ all_bytes plain_char cl = true;
  so_slug_unique : ∀ k k' s cl cl', cs !! k = Some (s, cl) → cs !! k' = Some (s, cl') → k = k';
  so_pipes : ∀ k k' c n n', ps !! k = Some (c, n) → ps !! k' = Some (c, n') →
    PipelineSlug lower n = PipelineSlug lower n' → k = k';
  so_graphs : ∀ k j, vs !! k = Some j → graph_valid j;
}.

Definition svc_inv (d : db) : Prop :=
  shapes_ok (customer_shape d) (pipeline_shape d) (version_shape d).

(** Dropping rows keeps it. *)
Lemma shapes_ok_mono cs ps vs cs' ps' vs' :
  shapes_ok cs ps vs → cs' ⊆ cs → ps' ⊆ ps → vs' ⊆ vs → shapes_ok cs' ps' vs'.
Proof.
  intros [H1 H2 H3 H4] Hc Hp Hv.
  constructor; intros; repeat match goal with
    | H : cs' !! _ = Some _ |- _ => apply (lookup_weaken _ _ _ _ H) in Hc as ?; clear H
    | H : ps' !! _ = Some _ |- _ => apply (lookup_weaken _ _ _ _ H) in Hp as ?; clear H
    | H : vs' !! _ = Some _ |- _ => apply (lookup_weaken _ _ _ _ H) in Hv as ?; clear H
    end; eauto.
Qed.

Lemma shapes_ok_customer cs ps vs k s cl :
  shapes_ok cs ps vs → slug_ok s = true → all_bytes plain_char cl = true →
  (∀ k' cl', cs !! k' ≠ Some (s, cl')) → shapes_ok (<[k := (s, cl)]> cs) ps vs.
Proof.
  intros [H1 H2 H3 H4] Hs Hcl Hnew. constructor; [| |done|done].
  - intros k' s' cl' [[<- [= <- <-]]|[_ ?]]%lookup_insert_Some; eauto.
  - intros k1 k2 s' cl1 cl2 [[<- [= <- <-]]|[_ ?]]%lookup_insert_Some
      [[<- E]|[_ ?]]%lookup_insert_Some; try done; try congruence; try (by exfalso; eapply Hnew; eauto).
    + injection E as <- <-. by exfalso; eapply Hnew.
    + eauto.
Qed.

Lemma shapes_ok_pipeline cs ps vs k c n :
  shapes_ok cs ps vs →
  (∀ k' n', ps !! k' = Some (c, n') → PipelineSlug lower n' ≠ PipelineSlug lower n) →
  shapes_ok cs (<[k := (c, n)]> ps) vs.
Proof.
  intros [H1 H2 H3 H4] Hnew. constructor; [done|done| |done].
  intros k1 k2 c' n1 n2 [[<- [= <- <-]]|[_ ?]]%lookup_insert_Some
    [[<- E]|[_ ?]]%lookup_insert_Some Hs; try done; eauto.
  - by exfalso; eapply Hnew.
  - injection E as <- <-. by exfalso; eapply Hnew.
Qed.

Lemma shapes_ok_version cs ps vs k j :
  shapes_ok cs ps vs → graph_valid j → shapes_ok cs ps (<[k := j]> vs).
Proof.
  intros [H1 H2 H3 H4] Hj. constructor; [done..|].
  intros k' j' [[<- <-]|[_ ?]]%lookup_insert_Some; eauto.
Qed.

(** ** Store calls *)

(** The calls the services wrap: a history makes them through the services. *)
Definition wrapped (c : call) : bool :=
  match c with
  | CallCreateCustomer _ _ _ | CallCreatePipeline _ _ _ | CallCreatePipelineVersion _ _ => true
  | _ => false
  end.

Lemma fmap_insert_same {V A} (f : V → A) (t : gmap uuid V) k v v' :
  t !! k = Some v → f v' = f v → f <$> <[k := v']> t = f <$> t.
Proof.
  intros Hk Hf. rewrite fmap_insert, Hf, <- fmap_insert, insert_id by done. done.
Qed.

Lemma fmap_update_same {V A} (f : V → A) (g : V → V) (t : gmap uuid V) :
  (∀ v, f (g v) = f v) → f <$> (g <$> t) = f <$> t.
Proof. intros H. rewrite <- map_fmap_compose. apply map_fmap_ext. intros ? x _. apply H. Qed.

Lemma fmap_subseteq {V A} (f : V → A) (t t' : gmap uuid V) : t ⊆ t' → f <$> t ⊆ f <$> t'.
Proof. apply map_fmap_mono. Qed.

Lemma call_svc_inv (ENV : Env) c w u w' :
  wrapped c = false → run_call c w = (inl u, w') → svc_inv (w_db w) → svc_inv (w_db w').
Proof.
  intros Hw H Hok. destruct c; try discriminate Hw; call_inv H; try done;
    unfold svc_inv, customer_shape, pipeline_shape, version_shape in *; cbn in *.
  - by erewrite fmap_insert_same.
  - by erewrite fmap_insert_same.
  - rewrite fmap_update_same; [done|]. intros v. by destruct (bool_decide (vr_CreatedBy v = Some id)).
  - eapply shapes_ok_mono; [exact Hok|done| |]; apply fmap_subseteq;
      [apply delete_subseteq|apply map_filter_subseteq].
  - by erewrite fmap_insert_same.
Qed.

Lemma keeps_call (ENV : Env) c : wrapped c = false → keeps (λ w, svc_inv (w_db w)) (run_call c).
Proof.
  intros Hw. apply atomic_keeps; [apply atomic_run_call|]. intros w u w' H. by eapply call_svc_inv.
Qed.

(** ** Creating customers *)

Lemma CreateCustomer_effect (ENV : Env) c k es w r w' :
  PgCore.CreateCustomer c k es w = (inl r, w') →
  (∀ k' x, customers (w_db w) !! k' = Some x → c_Slug x ≠ nc_Slug c) ∧
  customer_shape (w_db w') = <[nc_ID c := (nc_Slug c, nc_ClientID c)]> (customer_shape (w_db w)) ∧
  pipeline_shape (w_db w') = pipeline_shape (w_db w) ∧
  version_shape (w_db w') = version_shape (w_db w).
Proof.
  intros H. unfold PgCore.CreateCustomer in H. call_inv H.
  match goal with Hc : checks (_ :: (_, PgUnique "customers_slug_key") :: _) = None |- _ =>
    apply checks_None in Hc; rewrite !Forall_cons in Hc; destruct Hc as (_ & Hs & _) end.
  simpl in Hs. apply negb_true_iff in Hs. split_and!; try done.
  - intros k' x Hk E. assert (Ht : existsb (λ y, bool_decide (c_Slug y = nc_Slug c))
      (rows (customers w_db4)) = true); [|unfold exists_row in Hs; congruence].
    apply existsb_exists. exists x. split; [|by apply bool_decide_eq_true].
    apply list_elem_of_In, elem_of_rows. eauto.
  - unfold customer_shape. cbn. by rewrite fmap_insert.
Qed.

Lemma keeps_store_CreateCustomer (ENV : Env) c k es :
  slug_ok (nc_Slug c) = true → all_bytes plain_char (nc_ClientID c) = true →
  keeps (λ w, svc_inv (w_db w)) (PgCore.CreateCustomer c k es).
Proof.
  intros Hs Hc. apply atomic_keeps; [apply atomic_inTx|].
  intros w r w' (Hnew & E1 & E2 & E3)%CreateCustomer_effect Hok. unfold svc_inv.
  rewrite E1, E2, E3. apply shapes_ok_customer; [done..|].
  intros k' cl E. unfold customer_shape in E. rewrite lookup_fmap in E.
  destruct (customers (w_db w) !! k') as [x|] eqn:Ex; [|done]. injection E as E _.
  by eapply Hnew.
Qed.

Lemma NewClientID_plain (ENV : Env) w cl w' :
  Tenants.NewClientID w = (inl cl, w') → all_bytes plain_char cl = true.
Proof.
  intros H. unfold Tenants.NewClientID in H. run_inv. rewrite all_bytes_app, andb_true_iff.
  split; [done|]. eapply all_bytes_mono; [|apply hex_encode_lower]. intros c.
  unfold is_lower_hex, is_digit, plain_char, in_range.
  rewrite orb_true_iff, !andb_true_iff, !negb_true_iff, !N.leb_le, !N.eqb_neq. lia.
Qed.

Lemma slug_ok_suffix s k : slug_ok s = true → (0 ≤ k)%Z → slug_ok (s +:+ "-" +:+ Itoa k) = true.
Proof.
  intros Hs Hk. unfold slug_ok in *. rewrite !free_of_app, Hs. simpl.
  rewrite <- (Z2Nat.id k) by done. apply digits_free, Itoa_nat_digits.
Qed.

(** A name that derives a slug, or a slug that is valid, has no separator. *)
Lemma keeps_create_loop (ENV : Env) actor name base derived fuel attempt try_ :
  slug_ok base = true → slug_ok try_ = true → (0 ≤ attempt)%Z →
  keeps (λ w, svc_inv (w_db w)) (Tenants.create_loop actor name base derived fuel attempt try_).
Proof.
  intros Hb. revert attempt try_. induction fuel as [|fuel IH]; intros attempt try_ Ht Ha;
    cbn [Tenants.create_loop]; [apply steps_throw, _|].
  apply steps_bind_val; [typeclasses eauto|
    apply readonly_keeps; unfold Tenants.NewClientID; atomic_tac|].
  intros cl (w0 & w0' & Hcl%NewClientID_plain).
  apply steps_bind; [typeclasses eauto|apply readonly_keeps; unfold GenerateAPIKey; atomic_tac|intros key].
  apply steps_bind; [typeclasses eauto|apply readonly_keeps; atomic_tac|intros customerID].
  apply steps_bind; [typeclasses eauto|apply readonly_keeps; atomic_tac|intros keyID]. cbv zeta.
  apply steps_bind; [typeclasses eauto| |].
  - apply steps_try. by apply keeps_store_CreateCustomer.
  - intros [[cust ak]|err]; [apply steps_ret, _|].
    destruct (Is err ErrSlugExists && derived).
    + apply IH; [|lia]. apply slug_ok_suffix; [done|lia].
    + destruct (Is err ErrConflict); [apply IH; [done|lia]|apply steps_throw, _].
Qed.

Lemma keeps_CreateCustomer (ENV : Env) actor name slug :
  keeps (λ w, svc_inv (w_db w)) (Tenants.CreateCustomer actor name slug).
Proof.
  unfold Tenants.CreateCustomer. destruct (negb (name_ok _)); [apply steps_throw, _|].
  assert (H10 : (0 ≤ 1)%Z) by lia. destruct slug as [s|].
  - destruct (ValidSlug s) eqn:E; simpl; [|apply steps_throw, _].
    apply ValidSlug_ok in E.
    exact (keeps_create_loop ENV actor _ s false Tenants.maxAttempts 1 s E E H10).
  - pose proof (derived_slug_valid unicode_lower (TrimSpace name)) as E%ValidSlug_ok.
    exact (keeps_create_loop ENV actor _ _ true Tenants.maxAttempts 1 _ E E H10).
Qed.

(** ** Preparing a version *)

Lemma lift_sum_inl {A} (r : A + error) (w : world) a w' :
  lift_sum r w = (inl a, w') → r = inl a ∧ w' = w.
Proof. destruct r; [by intros [= -> ->]|done]. Qed.

Lemma readonly_lift_sum {A} (r : A + error) : readonly (lift_sum r).
Proof. by destruct r. Qed.

Lemma readonly_activeRenderPipelines (ENV : Env) cfg tc cid excl :
  readonly (activeRenderPipelines cfg tc cid excl).
Proof.
  unfold activeRenderPipelines. apply readonly_bind; [apply readonly_query|].
  intros aps. apply readonly_lift_sum.
Qed.

Lemma readonly_validate {YML : YAML} {COL : OtelCol} cfg tc cand others :
  readonly (validate pr cfg tc cand others).
Proof. unfold validate. atomic_tac. Qed.

Lemma readonly_prepare (ENV : Env) {YML : YAML} {COL : OtelCol} cfg cust name tc excl g prev actor :
  readonly (prepare pr cfg cust name tc excl g prev actor).
Proof.
  unfold prepare. apply readonly_bind; [apply readonly_EncryptGraphSecrets|].
  intros [stored issues]. destruct issues; [|apply readonly_ret].
  apply readonly_bind; [apply readonly_lift_sum|]. intros plain. cbv zeta.
  apply readonly_bind; [apply readonly_activeRenderPipelines|]. intros others.
  apply readonly_bind; [apply readonly_validate|]. intros res.
  destruct (negb _); [apply readonly_ret|].
  apply readonly_bind; [apply readonly_lift_sum|]. intros fragment. cbv zeta.
  apply readonly_bind; [apply readonly_uuid_New|]. intros id. apply readonly_ret.
Qed.

Lemma Validate_valid (YML : YAML) (COL : OtelCol) bin k tc cand others :
  res_Valid (Validate pr bin k tc cand others) = true → ValidateStructural pr (rp_Graph cand) = [].
Proof. unfold Validate. by destruct (ValidateStructural pr (rp_Graph cand)). Qed.

(** A prepared version holds a valid graph. *)
Lemma prepare_valid (ENV : Env) {YML : YAML} {COL : OtelCol} cfg cust name tc excl g prev actor w nv w' :
  sv_cipher cfg = cipher →
  prepare pr cfg cust name tc excl g prev actor w = (inl (inl nv), w') →
  graph_valid (nv_Graph (nv_Base nv)).
Proof.
  intros Hc H. unfold prepare in H. run_inv; try discriminate.
  repeat match goal with H : lift_sum _ _ = (inl _, _) |- _ => apply lift_sum_inl in H as [? ->] end.
  match goal with H : EncryptGraphSecrets _ _ _ _ = (inl (?g, _), _) |- _ => rename g into stored end.
  match goal with H : DecryptGraphSecrets stored _ = inl ?x |- _ => rename x into plain end.
  simplify_eq. exists stored, plain. rewrite <- Hc. split_and!; [apply ParseGraph_MarshalGraph|done|].
  match goal with H : validate _ _ _ _ _ _ = _ |- _ => unfold validate in H; run_inv end.
  match goal with H : negb (res_Valid _) = false |- _ => by apply negb_false_iff, Validate_valid in H end.
Qed.

(** ** Creating pipelines and versions *)

Lemma CreatePipeline_effect (ENV : Env) p v es w r w' :
  CreatePipeline p v es w = (inl r, w') →
  customer_shape (w_db w') = customer_shape (w_db w) ∧
  pipeline_shape (w_db w') = <[np_ID p := (np_CustomerID p, np_Name p)]> (pipeline_shape (w_db w)) ∧
  version_shape (w_db w') = <[nv_ID v := nv_Graph v]> (version_shape (w_db w)).
Proof.
  intros H. unfold CreatePipeline, insertPipelineVersion in H. call_inv H.
  unfold pipeline_shape, version_shape; cbn. by rewrite !fmap_insert.
Qed.

Lemma CreatePipelineVersion_effect (ENV : Env) v es w r w' :
  CreatePipelineVersion v es w = (inl r, w') →
  customer_shape (w_db w') = customer_shape (w_db w) ∧
  pipeline_shape (w_db w') = pipeline_shape (w_db w) ∧
  version_shape (w_db w') = <[nv_ID v := nv_Graph v]> (version_shape (w_db w)).
Proof.
  intros H. unfold CreatePipelineVersion, insertPipelineVersion in H. call_inv H.
  unfold version_shape; cbn. by rewrite !fmap_insert.
Qed.

(** Reads first: what follows starts from the same tables. *)
Lemma ends_bind_readonly {A B} (P : db → Prop) (m : Op A) (f : A → Op B) w :
  readonly m → P (w_db w) →
  (∀ a w1, m w = (inl a, w1) → w_db w1 = w_db w → P (w_db (f a w1).2)) →
  P (w_db ((m ≫= f) w).2).
Proof.
  intros Hm HP Hf. specialize (Hm w). unfold mbind, M_bind.
  destruct (m w) as [[a|e] w1]; simpl in *; [by apply Hf|by rewrite Hm].
Qed.

(** No conflict: no row of the customer derives the same slug. *)
Lemma slug_conflict_None (ENV : Env) name cid c w existing w' :
  customers (w_db w) !! cid = Some c → not_deleted c = true →
  ListPipelines (Some cid) w = (inl existing, w') →
  slug_conflict name existing = None →
  ∀ k n, pipeline_shape (w_db w) !! k = Some (cid, n) →
    PipelineSlug unicode_lower n ≠ PipelineSlug unicode_lower name.
Proof.
  intros Hc Hd [-> _]%query_inl Hs k n Hk E. unfold slug_conflict in Hs.
  destruct (find _ _) eqn:Ef; [done|]. unfold pipeline_shape in Hk.
  rewrite lookup_fmap in Hk. apply fmap_Some in Hk as (row & Hrow & [= -> ->]).
  assert (∃ p, scanPipeline (w_db w) row = Some p ∧ p_Name p = pr_Name row) as (p & Hp & Hn).
  { unfold scanPipeline. rewrite Hc. by eexists. }
  assert (Hin : p ∈ order_by (by_slug_name p_CustomerSlug p_Name p_ID)
    (omap (λ p, c ← customers (w_db w) !! pr_CustomerID p;
                if not_deleted c && matches (Some (pr_CustomerID row)) (pr_CustomerID p)
                then scanPipeline (w_db w) p else None) (rows (pipelines (w_db w))))).
  2: { apply list_elem_of_In, (List.find_none _ _ Ef) in Hin.
       rewrite Hn, E in Hin. by rewrite bool_decide_true in Hin. }
  unfold order_by. rewrite merge_sort_Permutation.
  apply list_elem_of_omap. exists row. split; [apply elem_of_rows; eauto|].
  rewrite Hc. simpl. rewrite Hd. unfold matches. by rewrite bool_decide_true.
Qed.

Lemma GetCustomer_inl (ENV : Env) cid w c w' :
  GetCustomer cid w = (inl c, w') → customers (w_db w) !! cid = Some c ∧ not_deleted c = true.
Proof.
  intros H. unfold GetCustomer in H. run_inv.
  match goal with H : _ ≫= _ = Some _ |- _ => apply bind_Some in H as (x & ? & ?) end.
  destruct (not_deleted x) eqn:E; [|done]. by simplify_eq.
Qed.

Lemma keeps_Create (ENV : Env) {YML : YAML} {COL : OtelCol} cfg actor cid name tc g :
  unicode_lower = lower → sv_cipher cfg = cipher →
  keeps (λ w, svc_inv (w_db w)) (Create pr cfg actor cid name tc g).
Proof.
  intros Hlow Hcf w Hok. unfold Create. cbv zeta.
  destruct (_ || _); [done|].
  apply (ends_bind_readonly svc_inv); [unfold GetCustomer; atomic_tac|done|].
  intros cust w1 Hcust D1. rewrite <- D1 in Hok.
  destruct (bool_decide (c_Status cust = CustomerDeleted)) eqn:Hd; [exact Hok|].
  apply (ends_bind_readonly svc_inv); [apply readonly_query|done|].
  intros existing w2 Hex D2. destruct (slug_conflict _ existing) eqn:Hconf; [simpl; by rewrite D2|].
  rewrite <- D2 in Hok.
  apply (ends_bind_readonly svc_inv); [apply readonly_prepare|done|].
  intros [nv|res] w3 Hprep D3; [|simpl; by rewrite D3]. rewrite <- D3 in Hok.
  apply (ends_bind_readonly svc_inv); [apply readonly_uuid_New|done|].
  intros pid w4 _ D4. rewrite <- D4 in Hok.
  match goal with |- context [(CreatePipeline ?p ?v ?es ≫= _) w4] =>
    set (pp := p); set (vv := v); set (ee := es) end.
  destruct (CreatePipeline pp vv ee w4) as [[[pipe ver]|e] w5] eqn:Ec;
    unfold mbind at 1, M_bind; rewrite Ec; simpl.
  - apply CreatePipeline_effect in Ec as (E1 & E2 & E3). unfold svc_inv.
    rewrite E1, E2, E3. apply shapes_ok_version; [apply shapes_ok_pipeline; [done|]|].
    + rewrite D4, D3, D2. apply GetCustomer_inl in Hcust as [Hc Hnd]. rewrite <- D1 in Hc.
      rewrite <- Hlow. exact (slug_conflict_None ENV _ cid cust w1 existing w2 Hc Hnd Hex Hconf).
    + by eapply prepare_valid.
  - apply (atomic_inTx _ _ _ _) in Ec. by rewrite Ec.
Qed.

Lemma keeps_CreateVersion (ENV : Env) {YML : YAML} {COL : OtelCol} cfg actor pid g :
  sv_cipher cfg = cipher →
  keeps (λ w, svc_inv (w_db w)) (CreateVersion pr cfg actor pid g).
Proof.
  intros Hcf w Hok. unfold CreateVersion.
  apply (ends_bind_readonly svc_inv); [unfold GetPipeline, select_pipeline; atomic_tac|done|].
  intros pipe w1 _ D1. rewrite <- D1 in Hok.
  apply (ends_bind_readonly svc_inv); [|done|].
  { destruct (p_LatestVersion pipe); [|apply readonly_ret].
    apply readonly_bind; [unfold GetPipelineVersion, select_version; atomic_tac|].
    intros ?. apply readonly_bind; [apply readonly_lift_sum|]. intros ?. apply readonly_ret. }
  intros prev w2 _ D2. rewrite <- D2 in Hok. cbv zeta.
  apply (ends_bind_readonly svc_inv); [apply readonly_prepare|done|].
  intros [nv|res] w3 Hprep D3; [|simpl; by rewrite D3]. rewrite <- D3 in Hok.
  match goal with |- context [(CreatePipelineVersion ?v ?es ≫= _) w3] =>
    set (vv := v); set (ee := es) end.
  destruct (CreatePipelineVersion vv ee w3) as [[ver|e] w5] eqn:Ec;
    unfold mbind at 1, M_bind; rewrite Ec; simpl.
  - apply CreatePipelineVersion_effect in Ec as (E1 & E2 & E3). unfold svc_inv.
    rewrite E1, E2, E3. apply shapes_ok_version; [done|]. by eapply prepare_valid.
  - apply (atomic_inTx _ _ _ _) in Ec. by rewrite Ec.
Qed.

(** ** Histories through the services *)

Inductive pstep (w : world) : world → Prop :=
  | step_call (ENV : Env) c : wrapped c = false → pstep w (run_call c w).2
  | step_create_customer (ENV : Env) actor name slug :
      pstep w (Tenants.CreateCustomer actor name slug w).2
  | step_create (ENV : Env) (YML : YAML) (COL : OtelCol) cfg actor cid name tc g :
      unicode_lower = lower → sv_cipher cfg = cipher →
      pstep w (Create pr cfg actor cid name tc g w).2
  | step_create_version (ENV : Env) (YML : YAML) (COL : OtelCol) cfg actor pid g :
      sv_cipher cfg = cipher → pstep w (CreateVersion pr cfg actor pid g w).2.

Lemma svc_inv_init : svc_inv db_init.
Proof. constructor; intros *; unfold customer_shape, pipeline_shape, version_shape; simpl;
  rewrite fmap_empty, lookup_empty; done. Qed.

Lemma reachable_svc_inv w : rtc pstep world_init w → svc_inv (w_db w).
Proof.
  assert (∀ w0, rtc pstep w0 w → svc_inv (w_db w0) → svc_inv (w_db w)) as H.
  { intros w0 Hs. induction Hs as [w|w w1 w2 Hs _ IH]; [done|]. intros Hok. apply IH.
    destruct Hs; [by apply keeps_call|by apply keeps_CreateCustomer|by apply keeps_Create|
      by apply keeps_CreateVersion]. }
  intros Hs. exact (H _ Hs svc_inv_init).
Qed.

(** ** The active pipelines of a reachable state *)

Lemma omap_rows_NoDup {V B K} (t : gmap uuid V) (f : V → option B) (key : B → K) :
  (∀ k v b k' v' b', t !! k = Some v → t !! k' = Some v' → f v = Some b → f v' = Some b' →
     key b = key b' → k = k') → NoDup (map key (omap f (rows t))).
Proof.
  intros Hinj. unfold rows.
  assert (Hin : ∀ k v, (k, v) ∈ map_to_list t → t !! k = Some v) by (by intros ?? ?%elem_of_map_to_list).
  pose proof (NoDup_fst_map_to_list t) as Hnd.
  induction (map_to_list t) as [|[k v] l IH]; [apply NoDup_nil_2|].
  apply NoDup_cons in Hnd as [Hk Hnd]. simpl.
  assert (IH' : NoDup (map key (omap f l.*2))) by (apply IH; [intros; apply Hin; by right|done]).
  destruct (f v) as [b|] eqn:Ef; [|done]. simpl. apply NoDup_cons. split; [|done].
  intros (b' & Eb & (v' & Hv' & Ef')%list_elem_of_omap)%list_elem_of_fmap.
  apply list_elem_of_fmap in Hv' as ([k' v''] & -> & Hkv). apply Hk.
  assert (k = k') as ->; [|by apply (list_elem_of_fmap_2 fst) in Hkv].
  eapply Hinj; [apply Hin; left|apply Hin; by right|exact Ef|exact Ef'|exact Eb].
Qed.

Lemma Forall_sum_map {A B} (f : A → B + error) (l : list A) (P : A → B → Prop) :
  (∀ x, x ∈ l → ∃ y, f x = inl y ∧ P x y) →
  ∃ ys, Forall2 (λ x y, f x = inl y ∧ P x y) l ys.
Proof.
  induction l as [|x l IH]; intros H; [by exists []|].
  destruct (H x) as (y & ?); [left|]. destruct IH as (ys & ?); [intros; apply H; by right|].
  exists (y :: ys). by constructor.
Qed.

Lemma render_inputs_all (ENV : Env) cfg aps ys P :
  Forall2 (λ ap rp, toRender cfg ap = inl rp ∧ P ap rp) aps ys →
  render_inputs cfg None aps = inl ys.
Proof.
  induction 1 as [|ap rp aps ys [E _] _ IH]; [done|]. cbn [render_inputs].
  rewrite bool_decide_false by done. by rewrite E, IH.
Qed.

(** The renderer's key of an active pipeline. *)
Definition act_key (ap : ActivePipeline) : string :=
  pipelineKey (act_CustomerSlug ap) (PipelineSlug lower (act_PipelineName ap)).

Lemma active_row_Some d tc cid row ap :
  active_row d tc cid row = Some ap →
  ∃ c vid v, customers d !! pr_CustomerID row = Some c ∧ pipeline_versions d !! vid = Some v ∧
    matches cid (pr_CustomerID row) = true ∧
    act_CustomerSlug ap = c_Slug c ∧ act_ClientID ap = c_ClientID c ∧
    act_PipelineName ap = pr_Name row ∧ act_Graph ap = vr_Graph v.
Proof.
  unfold active_row. intros H. destruct (_ && _) eqn:E; [|done].
  apply andb_true_iff in E as [_ E].
  apply bind_Some in H as (c & Hc & H). destruct (bool_decide _); [|done].
  apply bind_Some in H as (v & (vid & _ & Hv)%bind_Some & [= <-]). by exists c, vid, v.
Qed.

Section Active.
Context (ENV : Env) (cfg : SvcCfg) (d : db).
Hypothesis Hlow : unicode_lower = lower.
Hypothesis Hcipher : sv_cipher cfg = cipher.
Hypothesis Hinv : svc_inv d.

Lemma customer_facts k c :
  customers d !! k = Some c → slug_ok (c_Slug c) = true ∧ all_bytes plain_char (c_ClientID c) = true.
Proof.
  intros Hc. eapply (so_slug _ _ _ Hinv k). unfold customer_shape. by rewrite lookup_fmap, Hc.
Qed.

Lemma toRender_ok k row tc cid ap :
  pipelines d !! k = Some row → active_row d tc cid row = Some ap →
  ∃ rp, toRender cfg ap = inl rp ∧ validated pr rp ∧ client_ok rp ∧ rp_key rp = act_key ap ∧
        ∀ c, cid = Some c → ∃ cust, customers d !! c = Some cust ∧ rp_CustomerSlug rp = c_Slug cust.
Proof.
  intros _ (c & vid & v & Hc & Hv & Hm & E1 & E2 & E3 & E4)%active_row_Some.
  destruct (so_graphs _ _ _ Hinv vid (vr_Graph v)) as (g & plain & Hg & Hdec & Hval).
  { unfold version_shape. by rewrite lookup_fmap, Hv. }
  destruct (customer_facts _ _ Hc) as [Hs Hcl].
  unfold toRender. rewrite E4, Hg, Hcipher, Hdec. eexists. split; [done|]. split_and!.
  - unfold validated; simpl. rewrite E1. split_and!; [done| |done].
    apply ValidSlug_ok, derived_slug_valid.
  - unfold client_ok; simpl. by rewrite E2.
  - unfold rp_key, act_key; simpl. by rewrite Hlow.
  - intros c0 ->. simpl. apply bool_decide_eq_true_1 in Hm as <-. exists c. by rewrite E1.
Qed.

Lemma active_keys_NoDup tc cid :
  NoDup (map act_key (omap (active_row d tc cid) (rows (pipelines d)))).
Proof.
  apply omap_rows_NoDup. intros k r b k' r' b' Hk Hk'
    (c & _ & _ & Hc & _ & _ & E1 & _ & E3 & _)%active_row_Some
    (c' & _ & _ & Hc' & _ & _ & E1' & _ & E3' & _)%active_row_Some E.
  destruct (customer_facts _ _ Hc) as [Hs _], (customer_facts _ _ Hc') as [Hs' _].
  unfold act_key in E. rewrite E1, E1', E3, E3' in E. apply pipelineKey_inj in E as [Es En]; [|done..].
  assert (pr_CustomerID r = pr_CustomerID r') as Ec.
  { eapply (so_slug_unique _ _ _ Hinv _ _ (c_Slug c)); unfold customer_shape; rewrite lookup_fmap;
      [by rewrite Hc|by rewrite Hc', Es]. }
  eapply (so_pipes _ _ _ Hinv k k' (pr_CustomerID r) (pr_Name r) (pr_Name r'));
    unfold pipeline_shape; [by rewrite lookup_fmap, Hk|by rewrite lookup_fmap, Hk', Ec|done].
Qed.

(** Rendering inputs of a state that satisfies the invariant. *)
Lemma activeRenderPipelines_ok w tc cid :
  w_db w = d → fault (w_tick w) || w_aborted w = false →
  ∃ ps w', activeRenderPipelines cfg tc cid None w = (inl ps, w') ∧
    Forall (validated pr) ps ∧ Forall client_ok ps ∧ NoDup (map rp_key ps) ∧
    ∀ c p, cid = Some c → p ∈ ps → ∃ cust, customers d !! c = Some cust ∧
                                            rp_CustomerSlug p = c_Slug cust.
Proof.
  intros Ed Hf. set (l := omap (active_row d tc cid) (rows (pipelines d))).
  set (aps := order_by (by_slug_name act_CustomerSlug act_PipelineName act_PipelineID) l).
  assert (Hp : aps ≡ₚ l) by apply merge_sort_Permutation.
  destruct (Forall_sum_map (toRender cfg) aps (λ ap rp, validated pr rp ∧ client_ok rp ∧
    rp_key rp = act_key ap ∧ ∀ c, cid = Some c → ∃ cust, customers d !! c = Some cust ∧
    rp_CustomerSlug rp = c_Slug cust)) as (ps & Hps).
  { intros ap Hap. rewrite Hp in Hap. apply list_elem_of_omap in Hap as (row & [k Hk]%elem_of_rows & Ha).
    by eapply toRender_ok. }
  eexists ps, _. split_and!.
  - unfold activeRenderPipelines, ListActivePipelines, query, stmt, mbind, M_bind. rewrite Hf, Ed.
    fold l aps. cbn [lift_sum]. by rewrite (render_inputs_all _ _ _ _ _ Hps).
  - clear -Hps. induction Hps as [|???? (?&?&?) _ IH]; by constructor.
  - clear -Hps. induction Hps as [|???? (?&?&?&?) _ IH]; by constructor.
  - assert (map rp_key ps = map act_key aps) as ->.
    { clear -Hps. induction Hps as [|???? (?&?&?&E&?) _ IH]; [done|]. simpl. by rewrite E, IH. }
    rewrite (fmap_Permutation act_key _ _ Hp). apply active_keys_NoDup.
  - intros c p Hc Hin. apply list_elem_of_lookup in Hin as [i Hi].
    destruct (Forall2_lookup_r _ _ _ _ _ Hps Hi) as (ap & _ & _ & _ & _ & _ & H). by apply H.
Qed.

End Active.
End Invariant.

(** C23: However the control plane got to its state (customers created by the
    tenants service, pipelines and versions by the pipeline service, any other
    store call in between, any statement failing), once the active pipelines
    can be read both tiers' configurations are the encodings of well-formed
    trees, rendered from validated pipelines with proper client IDs, and an
    edge configuration holds only pipelines of its customer. *)
Theorem active_pipelines_render (pr : N → bool) (lower : N → N) {SCHEMA : JSONSchema}
    {YML : YAML} (ENV : Env) (cfg : SvcCfg) (w : world) (customer : uuid) :
  rtc (pstep pr lower (sv_cipher cfg)) world_init w →
  unicode_lower = lower → fault (w_tick w) || w_aborted w = false →
  (∃ ps doc w', activeRenderPipelines cfg ClassForwarding None None w = (inl ps, w') ∧
     Forall (validated pr) ps ∧ Forall client_ok ps ∧
     forwarding_tree pr ps = inl doc ∧ wf_config doc ∧
     (RenderCurrent pr cfg w).1 = marshalYAML doc) ∧
  (∃ ps doc w', activeRenderPipelines cfg ClassEdge (Some customer) None w = (inl ps, w') ∧
     (∀ p, p ∈ ps → ∃ cust, customers (w_db w) !! customer = Some cust ∧
                            rp_CustomerSlug p = c_Slug cust) ∧
     edge_tree pr ps = inl doc ∧ wf_config doc ∧
     (svc_RenderEdgeCurrent pr cfg customer w).1 = marshalYAML doc).
Proof.
  intros Hr%reachable_svc_inv Hlow Hf. split.
  - destruct (activeRenderPipelines_ok pr lower _ ENV cfg _ Hlow eq_refl Hr w ClassForwarding None eq_refl Hf)
      as (ps & w' & E & Hv & Hc & Hk & _).
    destruct (rendered_trees pr ps Hv Hk) as (fwd & _ & Ef & Hw & _).
    exists ps, fwd, w'. split_and!; try done.
    unfold RenderCurrent, mbind, M_bind. rewrite E. unfold RenderForwardingConfig. rewrite Ef.
    by destruct (marshalYAML fwd).
  - destruct (activeRenderPipelines_ok pr lower _ ENV cfg _ Hlow eq_refl Hr w ClassEdge (Some customer)
      eq_refl Hf) as (ps & w' & E & Hv & _ & Hk & Ho).
    destruct (rendered_trees pr ps Hv Hk) as (_ & edge & _ & _ & Ee & Hw).
    exists ps, edge, w'. split_and!; try done; [by eauto|].
    unfold svc_RenderEdgeCurrent, mbind, M_bind. rewrite E. unfold RenderEdgeConfig. rewrite Ee.
    by destruct (marshalYAML edge).
Qed.

(** ** A concrete history *)

Definition demo_yaml : YAML := {| yaml_Encode _ := Some "yaml" |}.
Definition demo_col : OtelCol :=
  {| bin_present _ := false; temp_error _ := None; otelcol_validate _ _ := None |}.
Definition demo_cfg : SvcCfg := {| sv_BinPath := "otelcol"; sv_cipher := None; sv_edge := true |}.
Definition all_print : N → bool := λ _, true.
Definition demo_graph : Graph :=
  {| g_Signals := ["logs"]; g_Processors := []; g_Exporters := [otlp_to "a:1"] |}.

Definition demo_tenant : world :=
  (@Tenants.CreateCustomer quiet_env None "Acme" None world_init).2.
Definition demo_customer : uuid := default 0%N (head (map c_ID (rows (customers (w_db demo_tenant))))).
Definition demo_draft : world :=
  (@Create quiet_env accept_schema demo_yaml demo_col all_print demo_cfg None demo_customer
     "Main logs" "" demo_graph demo_tenant).2.
Definition demo_pipeline : uuid := default 0%N (head (map pr_ID (rows (pipelines (w_db demo_draft))))).
Definition demo_active : world :=
  (@run_call quiet_env (CallActivatePipelineVersion demo_pipeline 1 []) demo_draft).2.

Lemma demo_reachable :
  rtc (@pstep accept_schema all_print (λ r, r) None) world_init demo_active.
Proof.
  eapply rtc_l; [exact (step_create_customer _ _ _ world_init quiet_env None "Acme" None)|].
  eapply rtc_l; [exact (step_create _ _ _ _ quiet_env demo_yaml demo_col demo_cfg None demo_customer
    "Main logs" "" demo_graph eq_refl eq_refl)|].
  apply rtc_once, (step_call _ _ _ demo_draft quiet_env). reflexivity.
Qed.

Lemma active_pipelines_render_witness :
  (∃ ps doc w', @activeRenderPipelines quiet_env demo_cfg ClassForwarding None None demo_active
       = (inl ps, w') ∧
     map rp_key ps = ["acme__main-logs"] ∧
     forwarding_tree all_print ps = inl doc ∧ wf_config doc) ∧
  (@svc_RenderEdgeCurrent quiet_env demo_yaml all_print demo_cfg demo_customer demo_active).1
  = inl "yaml".
Proof.
  destruct (@active_pipelines_render all_print (λ r, r) accept_schema demo_yaml quiet_env demo_cfg
    demo_active demo_customer) as [(ps & doc & w' & E & _ & _ & Hd & Hw & _) (_ & doc' & _ & _ & _ & _ & _ & E')].
  - exact demo_reachable.
  - reflexivity.
  - vm_compute. reflexivity.
  - split; [|exact E']. exists ps, doc, w'. split; [exact E|]. split; [|by split].
    assert (E2 : sum_rect (λ _, list string) (map rp_key) (λ _, [])
      (@activeRenderPipelines quiet_env demo_cfg ClassForwarding None None demo_active).1
      = ["acme__main-logs"]) by (vm_compute; reflexivity).
    rewrite E in E2. exact E2.
Defined.

(** ** Two requests at once

    The check of [Create] and its insert are separate transactions, and the
    schema only makes names unique.  Two requests that both read the list
    before either inserts store two pipelines with the same slug; once both
    are active, no tenant's configuration can be rendered any more. *)
Definition race_version (id pid : uuid) : NewPipelineVersion :=
  {| nv_ID := id; nv_PipelineID := pid; nv_Graph := MarshalGraph demo_graph; nv_RenderedYAML := "";
     nv_ConfigHash := ""; nv_ValidationStatus := ValidationValid; nv_ValidationOutput := None;
     nv_CreatedBy := None |}.

Definition race_pipeline (pid : uuid) (name : string) : Op (Pipeline * PipelineVersion) :=
  @CreatePipeline quiet_env
    {| np_ID := pid; np_CustomerID := demo_customer; np_Name := name; np_TargetClass := ClassForwarding |}
    (race_version (pid + 100) pid) [].

Example interleaved_creates_collide :
  let env := quiet_env in
  let existing := @ListPipelines env (Some demo_customer) in
  let '(r1, w1) := existing demo_tenant in
  let '(r2, w2) := existing w1 in
  (slug_conflict "Main logs" <$> match r1 with inl l => Some l | inr _ => None end,
   slug_conflict "main-logs" <$> match r2 with inl l => Some l | inr _ => None end)
  = (Some None, Some None) ∧
  let w3 := (race_pipeline 1 "Main logs" w2).2 in
  let w4 := (race_pipeline 2 "main-logs" w3).2 in
  let w5 := (@run_call env (CallActivatePipelineVersion 1 1 []) w4).2 in
  let w6 := (@run_call env (CallActivatePipelineVersion 2 1 []) w5).2 in
  (@RenderCurrent env demo_yaml all_print demo_cfg w6).1
  = inr (duplicate_error all_print "acme__main-logs" "config").
Proof. vm_compute. split; reflexivity. Qed.
