(* ===== verification/K8s.v ===== *)
(** * The Kubernetes distributor (internal/pipelines/k8s.go)

    Rolling out by merge-patching [spec.config] of an OpenTelemetryCollector.
    The cluster is the class [KubeAPI]; [KubeLaws] is what Kubernetes documents
    of a merge patch (RFC 7386), for a resource no admission plugin changes.
    A rollout adds what was rendered and never takes anything away:
    [Distribute_merges], and [deleted_pipeline_keeps_running] on a concrete
    resource. *)
From Stdlib Require Import Ascii.
From S2P Require Import Prelude GoStrings Store World Json PipelineService.

Module K8s.

(** ** Merge patches (RFC 7386) *)

Fixpoint set_member (k : string) (v : json) (m : members) : members :=
  match m with
  | [] => [(k, v)]
  | (k', v') :: m' => if bool_decide (k' = k) then (k, v) :: m' else (k', v') :: set_member k v m'
  end.
Fixpoint remove_member (k : string) (m : members) : members :=
  match m with
  | [] => []
  | kv :: m' => if bool_decide (kv.1 = k) then remove_member k m' else kv :: remove_member k m'
  end.

Fixpoint MergePatch (target patch : json) {struct patch} : json :=
  match patch with
  | JObj pm =>
    JObj ((fix merge (m : members) (pm : members) : members :=
             match pm with
             | [] => m
             | (k, v) :: pm' =>
               merge (match v with
                      | JNull => remove_member k m
                      | _ => set_member k (MergePatch (default JNull (member k m)) v) m
                      end) pm'
             end) (default [] (as_map target)) pm)
  | _ => patch
  end.

(** One member of the patch. *)
Definition merge_member (m : members) (kv : string * json) : members :=
  match kv.2 with
  | JNull => remove_member kv.1 m
  | v => set_member kv.1 (MergePatch (default JNull (member kv.1 m)) v) m
  end.

Lemma MergePatch_obj target pm :
  MergePatch target (JObj pm) = JObj (fold_left merge_member pm (default [] (as_map target))).
Proof.
  simpl. f_equal. generalize (default [] (as_map target)) as m.
  induction pm as [|[k v] pm IH]; intros m; [done|]. simpl. rewrite IH. by destruct v.
Qed.

(** ** The cluster and the distributor *)

Class KubeAPI (D : Type) := {
  kube_Patch : string → string → json → M D error unit;
  kube_object : D → string → string → option json;
}.

Class KubeLaws (D : Type) {K : KubeAPI D} : Prop := {
  kube_Patch_merges ns name patch d d' :
    kube_Patch ns name patch d = (inl tt, d') →
    ∃ o o', kube_object d ns name = Some o ∧ kube_object d' ns name = Some o' ∧
      (m ← as_map o'; member "spec" m) = (m ← as_map (MergePatch o patch); member "spec" m);
}.

(** yaml.v3 into a map[string]any, and encoding/json of such a map: null for a
    nil one, and an error where YAML has what JSON has not, such as .nan. *)
Class YAMLMap := {
  yaml_map : Type;
  yaml_Unmarshal_map : string → yaml_map + error;
  json_Marshal_map : yaml_map → option members + error;
}.

Record K8sDistributor := { kd_Name : string; kd_Namespace : string }.

Section Distributor.
Context {D : Type} {K : KubeAPI D} {Y : YAMLMap} (kd : K8sDistributor).

Definition cr : string := kd_Namespace kd +:+ "/" +:+ kd_Name kd.

Definition config_patch (config : option members) : json :=
  JObj [("spec", JObj [("config", match config with Some m => JObj m | None => JNull end)])].

Definition Distribute_k8s (renderedFullConfig : string) : M D error (string * string) :=
  match yaml_Unmarshal_map renderedFullConfig with
  | inr e => mthrow (Wrap "k8s distributor: decode rendered config" e)
  | inl cfg =>
    match json_Marshal_map cfg with
    | inr e => mthrow (Wrap "k8s distributor: marshal patch" e)
    | inl config =>
      r ← mtry (kube_Patch (kd_Namespace kd) (kd_Name kd) (config_patch config));
      match r with
      | inr e => mthrow (Wrap ("k8s distributor: patch " +:+ cr) e)
      | inl _ => mret (StateApplied, "patched OpenTelemetryCollector " +:+ cr)
      end
    end
  end.

Definition k8s_Distributor : Distributor D := {| Distribute := Distribute_k8s |}.

(** [spec.config] of the resource. *)
Definition spec_config_of (o : json) : option json :=
  spec ← (m ← as_map o; member "spec" m); m ← as_map spec; member "config" m.
Definition spec_config (d : D) : option json := o ← kube_object d (kd_Namespace kd) (kd_Name kd); spec_config_of o.

End Distributor.

(** ** What a merge keeps and what it sets *)

(** The value at a path of keys. *)
Fixpoint at_path (path : list string) (v : json) : option json :=
  match path with
  | [] => Some v
  | k :: path' => m ← as_map v; v' ← member k m; at_path path' v'
  end.

(** A patch that says nothing of a path: no member on the way to it. *)
Fixpoint silent (path : list string) (v : json) : Prop :=
  match path, v with
  | k :: path', JObj m => Forall (λ kv, kv.1 = k → silent path' kv.2) m
  | _, _ => False
  end.

Lemma member_set k k' v m :
  member k (set_member k' v m) = if bool_decide (k' = k) then Some v else member k m.
Proof.
  induction m as [|[k0 v0] m IH]; simpl.
  - by repeat case_bool_decide.
  - destruct (decide (k0 = k')) as [->|H0].
    + rewrite (bool_decide_true (k' = k')) by done. simpl. by repeat case_bool_decide.
    + rewrite (bool_decide_false (k0 = k')) by done. simpl. rewrite IH. repeat case_bool_decide; congruence.
Qed.

Lemma member_remove k k' m :
  member k (remove_member k' m) = if bool_decide (k' = k) then None else member k m.
Proof.
  induction m as [|[k0 v0] m IH]; simpl; [by case_bool_decide|].
  destruct (decide (k0 = k')) as [->|H0].
  - rewrite (bool_decide_true (k' = k')), IH by done. by repeat case_bool_decide.
  - rewrite (bool_decide_false (k0 = k')) by done. simpl. rewrite IH. repeat case_bool_decide; congruence.
Qed.

Lemma member_merge k m kv :
  member k (merge_member m kv) =
    if bool_decide (kv.1 = k)
    then match kv.2 with JNull => None | v => Some (MergePatch (default JNull (member k m)) v) end
    else member k m.
Proof.
  unfold merge_member. destruct kv as [k' v]. simpl.
  destruct v; rewrite ?member_set, ?member_remove; by case_bool_decide; subst.
Qed.

(** What the patch does not mention stays. *)
Lemma MergePatch_silent path target patch v :
  silent path patch → at_path path target = Some v → at_path path (MergePatch target patch) = Some v.
Proof.
  revert target patch. induction path as [|k path IH]; intros target patch; [by destruct patch|].
  destruct patch as [| | | | |pm]; try done. intros Hs Ht. rewrite MergePatch_obj.
  destruct target as [| | | | |m]; try done. simpl in *.
  revert m Ht. induction pm as [|[k' v'] pm IHpm]; intros m Ht; [done|].
  apply Forall_cons in Hs as [Hk Hs]. simpl. apply IHpm; [done|].
  rewrite member_merge. simpl in *. case_bool_decide as He; [|done].
  destruct (member k m) as [t|] eqn:Hm; [|done]. simpl in Ht |- *.
  specialize (Hk He). destruct v'; try (by destruct path); exact (IH t _ Hk Ht).
Qed.

(** A member the rest of the patch does not name is settled. *)
Lemma merge_others k pm m :
  k ∉ pm.*1 → member k (fold_left merge_member pm m) = member k m.
Proof.
  revert m. induction pm as [|[k' v'] pm IH]; intros m Hk; [done|]. simpl in *.
  apply not_elem_of_cons in Hk as [Hne Hk]. rewrite IH by done. rewrite member_merge.
  rewrite bool_decide_false; [done|]. simpl. congruence.
Qed.

(** A member of the patch merges with the one of its name, or removes it. *)
Lemma merge_named k v pm m :
  NoDup pm.*1 → member k pm = Some v →
  member k (fold_left merge_member pm m) =
    match v with JNull => None | _ => Some (MergePatch (default JNull (member k m)) v) end.
Proof.
  revert m. induction pm as [|[k' v'] pm IH]; intros m Hnd Hm; [done|]. simpl in *.
  apply NoDup_cons in Hnd as [Hk Hnd]. case_bool_decide as He.
  - injection Hm as ->. subst. rewrite merge_others by done. rewrite member_merge.
    rewrite bool_decide_true by done. by destruct v.
  - rewrite (IH _ Hnd Hm). rewrite member_merge. simpl. by rewrite bool_decide_false.
Qed.

(** A leaf of the patch is what is read afterwards. *)
Lemma MergePatch_leaf path target patch v :
  distinct_keys patch → at_path path patch = Some v → v ≠ JNull → as_map v = None →
  at_path path (MergePatch target patch) = Some v.
Proof.
  revert target patch. induction path as [|k path IH]; intros target patch Hd Hp Hn Hl.
  - injection Hp as ->. by destruct v.
  - destruct patch as [| | | | |pm]; try done. apply distinct_keys_obj in Hd as [Hnd Hd].
    rewrite MergePatch_obj. simpl in *. destruct (member k pm) as [pv|] eqn:Hm; [|done]. simpl in Hp.
    rewrite (merge_named k pv) by done.
    assert (Hdv : distinct_keys pv) by (rewrite Forall_forall in Hd; exact (Hd (k, pv) (member_elem _ _ _ Hm))).
    destruct pv as [| | | | |]; [idtac|exact (IH _ _ Hdv Hp Hn Hl)..].
    exfalso. destruct path; simpl in Hp; congruence.
Qed.

(** ** A rollout *)

Section Rollout.
Context {D : Type} {K : KubeAPI D} {KL : KubeLaws D} {Y : YAMLMap} (kd : K8sDistributor).

(** [spec.config] after a patch is the merge of what was there. *)
Lemma spec_config_patched o config :
  spec_config_of (MergePatch o (config_patch (Some config))) =
    Some (MergePatch (default JNull (spec_config_of o)) (JObj config)).
Proof.
  unfold config_patch, spec_config_of. rewrite MergePatch_obj. cbn [as_map fold_left mbind option_bind].
  rewrite member_merge. cbn [fst snd]. rewrite bool_decide_true by done.
  rewrite MergePatch_obj. cbn [as_map fold_left mbind option_bind].
  rewrite member_merge. cbn [fst snd]. rewrite bool_decide_true by done.
  do 2 f_equal. destruct o as [| | | | |m]; try done. cbn. by destruct (member "spec" m) as [[]|].
Qed.

(** C24: A rollout merges.  When [Distribute] reports that the configuration was
    applied, every scalar and list of the rendered configuration is at its
    place in the resource; and whatever the resource had that the rendered
    configuration does not mention is still there. *)
Theorem Distribute_merges rendered cfg config d d' state detail old :
  yaml_Unmarshal_map rendered = inl cfg → json_Marshal_map cfg = inl (Some config) → distinct_keys (JObj config) →
  Distribute_k8s kd rendered d = (inl (state, detail), d') →
  spec_config kd d = Some old →
  ∃ new, spec_config kd d' = Some new ∧
    (∀ path v, at_path path (JObj config) = Some v → v ≠ JNull → as_map v = None → at_path path new = Some v) ∧
    (∀ path v, at_path path old = Some v → silent path (JObj config) → at_path path new = Some v).
Proof.
  intros Hy Hj Hd Hrun Hold. unfold Distribute_k8s in Hrun. rewrite Hy, Hj in Hrun.
  unfold mbind, M_bind, mtry in Hrun.
  destruct (kube_Patch _ _ _ d) as [[[]|e] d1] eqn:Hp; [|done]. injection Hrun as _ _ <-.
  destruct (kube_Patch_merges _ _ _ _ _ Hp) as (o & o' & Ho & Ho' & Hspec).
  assert (Hnew : spec_config_of o' = Some (MergePatch old (JObj config))).
  { unfold spec_config in Hold. rewrite Ho in Hold. cbn in Hold.
    unfold spec_config_of at 1. rewrite Hspec. change (spec_config_of (MergePatch o (config_patch (Some config)))
      = Some (MergePatch old (JObj config))). by rewrite spec_config_patched, Hold. }
  exists (MergePatch old (JObj config)). split_and!.
  - unfold spec_config. rewrite Ho'. exact Hnew.
  - intros path v. by apply MergePatch_leaf.
  - intros path v Hv Hs. by apply MergePatch_silent.
Qed.

End Rollout.

(** ** A cluster of one resource *)

#[local] Instance one_resource : KubeAPI json := {|
  kube_Patch ns name patch := mmodify (λ o, MergePatch o patch);
  kube_object o ns name := Some o |}.
#[local] Instance one_resource_laws : KubeLaws json.
Proof. constructor. intros ns name patch d d' [= <-]. by exists d, (MergePatch d patch). Qed.

(** A configuration with an exporter and a pipeline per name. *)
Definition demo_config (names : list string) : members :=
  [("exporters", JObj ((λ n, ("otlphttp/" +:+ n, JObj [("endpoint", JStr "https://in.example")])) <$> names));
   ("service", JObj [("pipelines", JObj ((λ n, ("logs/" +:+ n, JObj [("exporters", JArr [JStr ("otlphttp/" +:+ n)])])) <$> names))])].
#[local] Instance demo_yaml : YAMLMap := {|
  yaml_map := option members;
  yaml_Unmarshal_map s := inl (Some (demo_config (if bool_decide (s = "both") then ["acme"; "globex"] else ["globex"])));
  json_Marshal_map := inl |}.
Definition demo_kd : K8sDistributor := {| kd_Name := "otelfleet-forwarding"; kd_Namespace := "otelfleet" |}.
Definition demo_resource : json := JObj [("kind", JStr "OpenTelemetryCollector"); ("spec", JObj [("config", JObj [])])].

(** Both tenants are rolled out, then the pipeline of one is deleted: its
    exporter and its pipeline keep running. *)
Example deleted_pipeline_keeps_running :
  let d1 := (Distribute_k8s demo_kd "both" demo_resource).2 in
  let d2 := (Distribute_k8s demo_kd "one" d1).2 in
  (c ← spec_config demo_kd d2; at_path ["service"; "pipelines"; "logs/acme"; "exporters"] c)
    = Some (JArr [JStr "otlphttp/acme"]) ∧
  at_path ["service"; "pipelines"; "logs/acme"] (JObj (demo_config ["globex"])) = None.
Proof. split; vm_compute; reflexivity. Qed.

Lemma Distribute_merges_witness :
  let d := (Distribute_k8s demo_kd "both" demo_resource).2 in
  ∃ new, spec_config demo_kd (Distribute_k8s demo_kd "one" d).2 = Some new ∧
    at_path ["service"; "pipelines"; "logs/globex"; "exporters"] new = Some (JArr [JStr "otlphttp/globex"]) ∧
    at_path ["service"; "pipelines"; "logs/acme"; "exporters"] new = Some (JArr [JStr "otlphttp/acme"]).
Proof.
  intros d. destruct (Distribute_merges demo_kd "one" (Some (demo_config ["globex"]) : @yaml_map demo_yaml) (demo_config ["globex"]) d (Distribute_k8s demo_kd "one" d).2
    StateApplied "patched OpenTelemetryCollector otelfleet/otelfleet-forwarding"
    (JObj (demo_config ["acme"; "globex"]))) as (new & Hnew & Hset & Hkept).
  - reflexivity.
  - reflexivity.
  - simpl. repeat (split || constructor || set_solver).
  - reflexivity.
  - vm_compute. reflexivity.
  - exists new. split_and!; [exact Hnew|by apply Hset|].
    apply Hkept; [vm_compute; reflexivity|]. simpl. repeat constructor; done.
Defined.

End K8s.
