(* ===== verification/Auth.v ===== *)
(** * Sessions and principals (internal/auth/session.go, login.go)

    Who a request acts as: the session helpers over the session manager, the
    principal a request carries and the tail every browser login shares.  The
    session manager itself (alexedwards/scs) is the class [SessionManager]:
    the data of the current session as the helpers read and write it. *)
From Stdlib Require Import Ascii.
From S2P Require Import Prelude GoStrings Store World PgCore Tokens.

(** ** The session manager *)

Class SessionManager := {
  sess : Type;
  GetString : sess → string → string;
  Put : sess → string → string → sess;
  Remove : sess → string → sess;
  RenewToken : sess → sess + error;
  Destroy : sess → sess + error;
}.

(** What the helpers rely on: [Put] sets and [Remove] clears one key, a renewed token carries the
    session's data over, a destroyed session has none. *)
Class SessionLaws (SM : SessionManager) : Prop := {
  GetString_Put s k v k' : GetString (Put s k v) k' = if bool_decide (k' = k) then v else GetString s k';
  GetString_Remove s k k' : GetString (Remove s k) k' = if bool_decide (k' = k) then "" else GetString s k';
  GetString_RenewToken s s' k : RenewToken s = inl s' → GetString s' k = GetString s k;
  GetString_Destroy s s' k : Destroy s = inl s' → GetString s' k = "";
}.

Definition sessUserID : string := "user_id".
Definition sessCSRF : string := "csrf_token".

(** ** Principals *)

Record Principal := {
  pc_User : User;
  pc_CSRFToken : string;
  pc_AllCustomers : bool;
  pc_AllowedCustomers : gset uuid;
}.

Definition CanAccessCustomer (p : Principal) (id : option uuid) : bool :=
  if pc_AllCustomers p then true
  else match id with Some c => bool_decide (c ∈ pc_AllowedCustomers p) | None => false end.

(** ** Session helpers

    [uuid.Parse] (google/uuid) is a parameter; the helpers only feed it what
    [Login] stored. *)
Class UuidParse := { uuid_Parse : string → option uuid }.
Class UuidLaws (UP : UuidParse) : Prop := {
  Parse_String u : uuid_Parse (uuid_String u) = Some u;
  String_nonempty u : uuid_String u ≠ "";
}.

Section Sessions.
Context {ENV : Env} {SM : SessionManager} {UP : UuidParse}.

(** A request works on the tables and on its session. *)
Abbreviation SessM := (M (world * sess) error).

Definition with_world {A} (m : Op A) : SessM A := λ s, let '(r, w) := m s.1 in (r, (w, s.2)).
Definition sess_put (k v : string) : SessM unit := mmodify (λ s, (s.1, Put s.2 k v)).
Definition sess_step (f : sess → sess + error) : SessM unit := λ s,
  match f s.2 with inl s' => (inl tt, (s.1, s')) | inr e => (inr e, s) end.

(** Failing randomness is a panic: the request ends there. *)
Definition newToken : Op string := buf ← rand_Read 32; mret (hex_encode buf).

Definition UserID (s : sess) : option uuid :=
  let raw := GetString s sessUserID in
  if bool_decide (raw = "") then None else uuid_Parse raw.

Definition CSRFToken : SessM string :=
  tok ← mgets (λ s, GetString s.2 sessCSRF);
  if bool_decide (tok = "") then
    tok ← with_world newToken;
    sess_put sessCSRF tok;;
    mret tok
  else mret tok.

Definition ValidCSRF (s : sess) (presented : string) : bool :=
  let tok := GetString s sessCSRF in
  if bool_decide (tok = "") || bool_decide (presented = "") then false
  else bool_decide (tok = presented).

Definition renew_session : SessM unit :=
  r ← mtry (sess_step RenewToken);
  match r with inr e => mthrow (Wrap "renew session token" e) | inl _ => mret tt end.
Definition bind_session (userID : uuid) : SessM unit :=
  sess_put sessUserID (uuid_String userID);;
  tok ← with_world newToken;
  sess_put sessCSRF tok.
Definition Login (userID : uuid) : SessM unit := renew_session;; bind_session userID.

Definition sess_Logout : SessM unit := sess_step Destroy.

(** ** The tail of a browser login *)

(** What the browser gets: an error page, a redirect, or the metadata of a
    SAML service provider with its two URLs. *)
Inductive login_page :=
  | LoginError (status : Z) (text : string)
  | RedirectTo (location : string)
  | SPMetadata (entityID acs : string).

Definition finish (isAdmin : string → bool) (identityKey subject email : string)
    (displayName : option string) : SessM login_page :=
  let role := if isAdmin email then RoleAdmin else RoleViewer in
  r ← mtry (with_world (UpsertUserByIdentity identityKey subject email displayName role));
  match r with
  | inr _ => mret (LoginError 500 "login failed")
  | inl user =>
    if is_some (u_DisabledAt user) then mret (LoginError 403 "account disabled")
    else
      r ← mtry renew_session;
      match r with
      | inr _ => mret (LoginError 500 "login failed")
      | inl _ => bind_session (u_ID user);; mret (RedirectTo "/")
      end
  end.

End Sessions.

(** [Config.IsAdminEmail] (internal/config/config.go). *)
Definition IsAdminEmail {ENV : Env} (adminEmails : list string) (email : string) : bool :=
  let email := ToLower unicode_lower (TrimSpace email) in
  existsb (λ a, bool_decide (a = email)) adminEmails.
