(* ===== verification/ApiTypes.v ===== *)
(** * Responses of the management API (internal/api, internal/api/apigen)

    The response bodies the handlers build (the types generated from
    api/openapi.yaml) and the mapping from store rows to them. *)
From Stdlib Require Import Ascii SpecFloat.
From S2P Require Import Prelude GoStrings Store World PgCore PgPipelines Tenants GoText Json Catalog PipelineGraph Validate Secrets PipelineService AuditLog Auth.

(** ** Customers and keys *)

Record ApiCustomer := {
  cust_Id : uuid; cust_Slug : string; cust_Name : string; cust_ClientId : string;
  cust_Status : string; cust_RateLimitItemsPerSec : option Z; cust_RetentionDays : option Z;
  cust_CreatedAt : time;
}.

Definition toCustomer (c : Customer) : ApiCustomer := {|
  cust_Id := c_ID c; cust_Slug := c_Slug c; cust_Name := c_Name c;
  cust_ClientId := c_ClientID c; cust_Status := c_Status c;
  cust_RateLimitItemsPerSec := c_RateLimitItemsPerSec c;
  cust_RetentionDays := c_RetentionDays c; cust_CreatedAt := c_CreatedAt c |}.

Record ApiApiKey := {
  key_Id : uuid; key_CustomerId : uuid; key_Name : string; key_KeyPrefix : string;
  key_CreatedAt : time; key_ExpiresAt : option time; key_RevokedAt : option time;
  key_LastUsedAt : option time;
}.

Definition toAPIKey (k : APIKey) : ApiApiKey := {|
  key_Id := k_ID k; key_CustomerId := k_CustomerID k; key_Name := k_Name k;
  key_KeyPrefix := k_KeyPrefix k; key_CreatedAt := k_CreatedAt k;
  key_ExpiresAt := k_ExpiresAt k; key_RevokedAt := k_RevokedAt k;
  key_LastUsedAt := k_LastUsedAt k |}.

(** [toAPIKeyCreated]: the key with the secret, shown once. *)
Definition toAPIKeyCreated (k : APIKey) (secret : string) : ApiApiKey * string :=
  (toAPIKey k, secret).

(** ** Pipelines *)

Record ApiPipeline := {
  pipe_Id : uuid; pipe_CustomerId : uuid; pipe_CustomerName : string; pipe_Name : string;
  pipe_TargetClass : string; pipe_ActiveVersion : option Z; pipe_LatestVersion : option Z;
  pipe_CreatedAt : time;
}.

Definition toPipeline (p : Pipeline) : ApiPipeline := {|
  pipe_Id := p_ID p; pipe_CustomerId := p_CustomerID p; pipe_CustomerName := p_CustomerName p;
  pipe_Name := p_Name p; pipe_TargetClass := p_TargetClass p;
  pipe_ActiveVersion := p_ActiveVersion p; pipe_LatestVersion := p_LatestVersion p;
  pipe_CreatedAt := p_CreatedAt p |}.

Record VersionSummary := {
  vs_Version : Z; vs_ValidationStatus : string; vs_Active : bool; vs_CreatedBy : option string;
  vs_CreatedAt : time;
}.

Definition toVersionSummary (v : PipelineVersion) : VersionSummary := {|
  vs_Version := pv_Version v; vs_ValidationStatus := pv_ValidationStatus v;
  vs_Active := pv_Active v; vs_CreatedBy := pv_CreatedByEmail v; vs_CreatedAt := pv_CreatedAt v |}.

Record ApiVersion := {
  ver_Summary : VersionSummary; ver_Graph : Graph; ver_RenderedYaml : string;
  ver_ConfigHash : string;
}.

(** Graphs leave the backend redacted; [toAPIGraph] and [fromAPIGraph] copy
    the fields between two structurally equal types. *)
Definition toAPIGraph (g : Graph) : Graph := {|
  g_Signals := g_Signals g; g_Processors := g_Processors g; g_Exporters := g_Exporters g |}.
Definition fromAPIGraph (g : Graph) : Graph := {|
  g_Signals := g_Signals g; g_Processors := g_Processors g; g_Exporters := g_Exporters g |}.

Definition toVersion (v : PipelineVersion) : ApiVersion + error :=
  match ParseGraph (pv_Graph v) with
  | inr e => inr e
  | inl g =>
    inl {| ver_Summary := toVersionSummary v;
           ver_Graph := toAPIGraph (RedactGraphSecrets g);
           ver_RenderedYaml := pv_RenderedYAML v;
           ver_ConfigHash := hex_encode (pv_ConfigHash v) |}
  end.

Definition toValidationResult (r : Result) : bool * list Issue * option string :=
  (res_Valid r, res_Issues r, res_RenderedYAML r).

Definition firstIssueMessage (r : Result) : string :=
  match res_Issues r with
  | i :: _ => match iss_Path i with
              | Some p => p +:+ ": " +:+ iss_Message i
              | None => iss_Message i
              end
  | [] => "pipeline graph is invalid"
  end.

(** ** The catalog *)

Record CatalogComponent := {
  ci_Type : string; ci_Kind : string; ci_DisplayName : string; ci_Description : string;
  ci_DocsUrl : option string; ci_Schema : members; ci_Defaults : members;
}.

Definition catalog_item (c : Component) : CatalogComponent := {|
  ci_Type := cat_Type c; ci_Kind := cat_Kind c; ci_DisplayName := cat_DisplayName c;
  ci_Description := cat_Description c;
  ci_DocsUrl := if bool_decide (cat_DocsURL c = "") then None else Some (cat_DocsURL c);
  ci_Schema := Schema c; ci_Defaults := Defaults c |}.

(** ** Agents *)

Definition hexPtr (b : option string) : option string :=
  match b with Some s => if bool_decide (s = "") then None else Some (hex_encode s) | None => None end.

(** nil until the agent has acknowledged a configuration. *)
Definition configInSync (assigned acked : option string) : option bool :=
  let x := default "" assigned in
  let y := default "" acked in
  if bool_decide (x = "") || bool_decide (y = "") then None else Some (bool_decide (x = y)).

(** [json.Unmarshal] into a [map[string]string]: a value of another type is
    decoded as the zero string, a value that is no object leaves the map
    empty; the error is dropped. *)
Definition agentLabels (raw : json) : gmap string string :=
  match raw with
  | JObj m => foldl (λ acc '(k, v), <[k := match v with JStr s => s | _ => "" end]> acc) ∅ m
  | _ => ∅
  end.

Record ApiAgent := {
  ag_Id : uuid; ag_InstanceUid : string; ag_Class : string; ag_CustomerId : option uuid;
  ag_CustomerName : option string; ag_Name : option string; ag_DisplayName : option string;
  ag_Labels : gmap string string; ag_AgentVersion : option string; ag_Connected : bool;
  ag_Healthy : option bool; ag_LastSeenAt : option time; ag_RemoteConfigStatus : string;
  ag_RemoteConfigError : option string; ag_AssignedConfigHash : option string;
  ag_ReportedConfigHash : option string; ag_ConfigInSync : option bool; ag_CreatedAt : time;
}.

Definition toAgent (a : Agent) : ApiAgent := {|
  ag_Id := a_ID a; ag_InstanceUid := hex_encode (a_InstanceUID a); ag_Class := a_Class a;
  ag_CustomerId := a_CustomerID a; ag_CustomerName := a_CustomerName a; ag_Name := a_Name a;
  ag_DisplayName := a_DisplayName a; ag_Labels := agentLabels (a_Labels a);
  ag_AgentVersion := a_AgentVersion a; ag_Connected := a_Connected a; ag_Healthy := a_Healthy a;
  ag_LastSeenAt := a_LastSeenAt a; ag_RemoteConfigStatus := a_RemoteConfigStatus a;
  ag_RemoteConfigError := a_RemoteConfigError a;
  ag_AssignedConfigHash := hexPtr (a_AssignedConfigHash a);
  ag_ReportedConfigHash := hexPtr (a_ReportedConfigHash a);
  ag_ConfigInSync := configInSync (a_AssignedConfigHash a) (a_AckedConfigHash a);
  ag_CreatedAt := a_CreatedAt a |}.

(** [json.Unmarshal] of a stored value into a [map[string]any]. *)
Definition object_of (v : option json) : option json + error :=
  match v with
  | None => inl None
  | Some (JObj m) => inl (Some (JObj m))
  | Some JNull => inl (Some JNull)
  | Some _ => inr (ErrNew "json: cannot unmarshal value into Go value of type map[string]interface {}")
  end.

Definition toAgentDetail (a : Agent) : (ApiAgent * option json * option json) + error :=
  match object_of (a_Description a) with
  | inr e => inr e
  | inl desc =>
    match object_of (a_Health a) with
    | inr e => inr e
    | inl health => inl (toAgent a, desc, health)
    end
  end.

Record ApiAgentEvent := {
  aev_Id : Z; aev_EventType : string; aev_Detail : option json; aev_CreatedAt : time;
}.

Definition toAgentEvent (e : AgentEvent) : ApiAgentEvent + error :=
  match object_of (ev_Detail e) with
  | inr err => inr err
  | inl detail => inl {| aev_Id := ev_ID e; aev_EventType := ev_EventType e;
                         aev_Detail := detail; aev_CreatedAt := ev_CreatedAt e |}
  end.

Record ApiBootstrapToken := {
  tok_Id : uuid; tok_CustomerId : uuid; tok_Name : string; tok_TokenPrefix : string;
  tok_MaxUses : Z; tok_UsedCount : Z; tok_CreatedAt : time; tok_ExpiresAt : time;
  tok_RevokedAt : option time;
}.

Definition toBootstrapToken (t : BootstrapToken) : ApiBootstrapToken := {|
  tok_Id := bt_ID t; tok_CustomerId := bt_CustomerID t; tok_Name := bt_Name t;
  tok_TokenPrefix := bt_TokenPrefix t; tok_MaxUses := bt_MaxUses t;
  tok_UsedCount := bt_UsedCount t; tok_CreatedAt := bt_CreatedAt t;
  tok_ExpiresAt := bt_ExpiresAt t; tok_RevokedAt := bt_RevokedAt t |}.

(** ** Administration *)

Record UserAccount := {
  ua_Id : uuid; ua_Email : string; ua_DisplayName : option string; ua_Role : string;
  ua_Disabled : bool; ua_Invited : bool; ua_Identities : list string;
  ua_CustomerIds : list uuid; ua_LastLoginAt : option time; ua_CreatedAt : time;
}.

Definition toUserAccount (x : UserWithIdentities) : UserAccount :=
  let u := ui_User x in {|
  ua_Id := u_ID u; ua_Email := u_Email u; ua_DisplayName := u_DisplayName u;
  ua_Role := u_Role u; ua_Disabled := is_some (u_DisabledAt u);
  ua_Invited := bool_decide (length (ui_Identities x) = 0);
  ua_Identities := ui_Identities x; ua_CustomerIds := ui_CustomerIDs x;
  ua_LastLoginAt := u_LastLoginAt u; ua_CreatedAt := u_CreatedAt u |}.

Record ApiToken := {
  at_Id : uuid; at_Name : string; at_TokenPrefix : string; at_Role : string;
  at_CreatedBy : option string; at_CreatedAt : time; at_ExpiresAt : option time;
  at_LastUsedAt : option time; at_RevokedAt : option time;
}.

Definition toAPIToken (t : APIToken) : ApiToken := {|
  at_Id := t_ID t; at_Name := t_Name t; at_TokenPrefix := t_TokenPrefix t; at_Role := t_Role t;
  at_CreatedBy := t_CreatedByEmail t; at_CreatedAt := t_CreatedAt t;
  at_ExpiresAt := t_ExpiresAt t; at_LastUsedAt := t_LastUsedAt t; at_RevokedAt := t_RevokedAt t |}.

Record ApiWebhook := {
  hook_Id : uuid; hook_Type : string; hook_Name : string; hook_Url : string;
  hook_Events : list string; hook_Enabled : bool; hook_HasSecret : bool; hook_CreatedAt : time;
}.

Definition toWebhook (w : Webhook) : ApiWebhook := {|
  hook_Id := w_ID w; hook_Type := w_Type w; hook_Name := w_Name w; hook_Url := w_URL w;
  hook_Events := w_Events w; hook_Enabled := w_Enabled w;
  hook_HasSecret := negb (bool_decide (default "" (w_SecretEnc w) = ""));
  hook_CreatedAt := w_CreatedAt w |}.

Record ApiBillingSettings := {
  bill_PricePerGibMicro : Z; bill_PricePerMillionItemsMicro : Z; bill_Currency : string;
  bill_UpdatedAt : time;
}.

Definition toBillingSettings (b : BillingSettings) : ApiBillingSettings := {|
  bill_PricePerGibMicro := b_PricePerGiBMicro b;
  bill_PricePerMillionItemsMicro := b_PricePerMillionItemsMicro b;
  bill_Currency := b_Currency b; bill_UpdatedAt := b_UpdatedAt b |}.

Record AuthProviderConfig := {
  apc_Id : uuid; apc_Type : string; apc_Name : string; apc_DisplayName : string;
  apc_ClientId : string; apc_Issuer : option string; apc_Enabled : bool; apc_Source : string;
  apc_RedirectUri : string; apc_CreatedAt : time;
  apc_SAML : option (string * string * string * string * string);
}.

(** ** Telemetry and usage *)

Record ApiLogRecord := {
  rec_Timestamp : time; rec_SeverityText : string; rec_SeverityNumber : Z; rec_ServiceName : string;
  rec_Body : string; rec_TraceId : option string; rec_SpanId : option string;
  rec_Attributes : option (gmap string string);
}.

(** Durations, rates and queue sizes are float32. *)
Record ApiTraceSummary := {
  sum_TraceId : string; sum_RootName : string; sum_RootService : string; sum_StartTime : time;
  sum_DurationMs : spec_float; sum_SpanCount : Z; sum_ErrorCount : Z;
}.

Record ApiSpan := {
  asp_SpanId : string; asp_ParentSpanId : option string; asp_Name : string; asp_Service : string;
  asp_Kind : string; asp_StartTime : time; asp_DurationMs : spec_float; asp_StatusCode : string;
  asp_StatusMessage : option string; asp_Attributes : option (gmap string string);
}.

Record StatsOverview := {
  so_ActiveCustomers : Z; so_RefusedRequests : option Z;
  so_Logs : Z; so_Traces : Z; so_Metrics : Z;
  so_TopCustomers : list (uuid * string * Z);
}.

Record ApiCustomerCost := {
  acc_CustomerId : uuid; acc_Name : string; acc_Items : Z; acc_Bytes : Z;
  acc_Days : list (Z * time * Z);
}.

Record ThroughputSeries := { thr_Signal : string; thr_Points : list (time * spec_float) }.

Record ApiExporterStage := {
  aes_Name : string; aes_Type : string; aes_Sent : Z; aes_SendFailed : Z;
  aes_EnqueueFailed : option Z; aes_QueueSize : spec_float; aes_QueueCapacity : spec_float;
}.

Record PipelineStageStats := {
  pss_Received : list (Z * string);
  pss_Exporters : list ApiExporterStage;
}.

Record BillingLine := {
  bl_CustomerId : uuid; bl_Name : string; bl_Items : Z; bl_Bytes : Z; bl_BytesCostMicro : Z;
  bl_ItemsCostMicro : Z; bl_TotalMicro : Z;
}.

Record BillingStatement := {
  bst_Month : string; bst_Currency : string; bst_PricePerGibMicro : Z;
  bst_PricePerMillionItemsMicro : Z; bst_Lines : list BillingLine; bst_TotalMicro : Z;
}.

(** ** Responses *)

Inductive body :=
  | BNone
  | BMe (user : User) (csrf : string) (allCustomers : bool) (scoped : option (gset uuid))
  | BCustomers (l : list ApiCustomer)
  | BCustomer (c : ApiCustomer)
  | BCustomerCreated (c : ApiCustomer) (key : ApiApiKey * string)
  | BApiKeys (l : list ApiApiKey)
  | BApiKeyCreated (k : ApiApiKey * string)
  | BCatalog (processors exporters : list CatalogComponent)
  | BPipelines (l : list ApiPipeline)
  | BPipeline (p : ApiPipeline)
  | BPipelineDetail (p : ApiPipeline) (versions : list VersionSummary)
  | BVersion (v : ApiVersion)
  | BValidation (r : bool * list Issue * option string)
  | BRollout (version : Z) (state detail : string)
  | BAgents (l : list ApiAgent)
  | BAgent (a : ApiAgent)
  | BAgentDetail (a : ApiAgent * option json * option json)
  | BSync (detail : string)
  | BAgentConfig (assigned reported : string)
  | BAgentEvents (l : list ApiAgentEvent)
  | BBootstrapTokens (l : list ApiBootstrapToken)
  | BBootstrapTokenCreated (t : ApiBootstrapToken) (secret : string)
  | BUsers (l : list UserAccount)
  | BUser (u : UserAccount)
  | BAuthProviders (l : list (string * string * string)) (devLoginEnabled : bool)
  | BAuthProviderConfig (p : AuthProviderConfig)
  | BAuthProviderConfigs (l : list AuthProviderConfig)
  | BProviderTest (ok : bool) (message : string)
  | BApiTokens (l : list ApiToken)
  | BApiTokenCreated (t : ApiToken) (secret : string)
  | BWebhooks (l : list ApiWebhook)
  | BWebhook (w : ApiWebhook)
  | BWebhookTest (ok : bool) (message : string)
  | BBillingSettings (b : ApiBillingSettings)
  | BAudit (p : AuditPage)
  | BLogs (l : list ApiLogRecord) (nextBefore : option time)
  | BTraces (l : list ApiTraceSummary) (nextBefore : option time)
  | BTrace (l : list ApiSpan)
  | BStatsOverview (o : StatsOverview)
  | BCostStats (l : list ApiCustomerCost)
  | BThroughput (l : list ThroughputSeries)
  | BStageStats (s : PipelineStageStats)
  | BBillingStatement (s : BillingStatement).

(** A response: an [apigen.Error] with its status, or a body. *)
Inductive response :=
  | Failure (status : Z) (code message : string)
  | Success (status : Z) (b : body).

Definition codeUnauthorized : string := "unauthorized".
Definition codeForbidden : string := "forbidden".
Definition codeNotFound : string := "not_found".
Definition codeBadRequest : string := "bad_request".
Definition codeConflict : string := "conflict".
Definition codeInternal : string := "internal".
Definition codeUpstream : string := "upstream_unavailable".
