(* ===== verification/ApiGuard.v ===== *)
(** * Access control of the management API (internal/api)

    The Guard middleware, management-token authentication and the tenant scope
    checks (middleware.go, tokenauth.go, scope.go), and what the strict server
    makes of a handler's result (httpjson.go, router.go). *)
From Stdlib Require Import Ascii.
From S2P Require Import Prelude GoStrings Store World PgCore PgUsers PgPipelines PgMisc Tokens Validate PipelineService Auth ApiTypes.

(** ** Handlers

    A handler works on the service state (tables, distributor, notifications)
    and on the session of the request.  The errors the strict server treats
    specially are wrapped in [badRequestError] or [forbiddenError]. *)

Inductive herror :=
  | badRequestError (e : error)
  | forbiddenError (e : error)
  | otherError (e : error).

Record apistate (D sess : Type) := {
  as_svc : svcstate D;
  as_sess : sess;
}.
#[global] Arguments as_svc {D sess} _.
#[global] Arguments as_sess {D sess} _.
#[global] Arguments Build_apistate {D sess} _ _.

Section Handlers.
Context {ENV : Env} {SM : SessionManager} {D : Type}.

Abbreviation H := (M (apistate D sess) herror).

(** Calls into the services: the handler looks at the error itself. *)
Definition call_svc {A} (m : M (svcstate D) error A) : H (A + error) := λ s,
  let '(r, sv) := m (as_svc s) in (inl r, Build_apistate sv (as_sess s)).

Definition call_store {A} (m : Op A) : H (A + error) := call_svc (on_store m).

Definition call_sess {A} (m : M (world * sess) error A) : H (A + error) := λ s,
  let '(r, (w, se)) := m (ss_w (as_svc s), as_sess s) in
  (inl r, Build_apistate (Build_svcstate w (ss_dist (as_svc s)) (ss_notes (as_svc s))) se).

(** [return nil, err]. *)
Definition fail {A} (e : error) : H A := mthrow (otherError e).
Definition bad_request {A} (e : error) : H A := mthrow (badRequestError e).

(** A call whose errors are passed up unseen. *)
Definition must {A} (m : H (A + error)) : H A :=
  r ← m; match r with inl a => mret a | inr e => fail e end.

Definition errResp (status : Z) (code message : string) : response := Failure status code message.

(** [err.Error()] of the errors that reach a response. *)
Fixpoint err_message (e : error) : string :=
  match e with
  | ErrInvalidName => "name must be 1-200 characters"
  | ErrInvalidSlug => "slug must match ^[a-z0-9][a-z0-9-]{1,62}[a-z0-9]$"
  | ErrSlugTaken => "a pipeline with an equivalent name already exists"
  | ErrNameExists => "name already exists"
  | ErrNotConfigured => "master key not configured (set OTELFLEET_MASTER_KEY)"
  | ErrNew msg => msg
  | Wrap msg e' => msg +:+ ": " +:+ err_message e'
  | _ => ""
  end.

(** The response error handler of the router. *)
Definition ResponseErrorHandler {S} (m : M S herror response) : M S herror response := λ s,
  match m s with
  | (inl r, s') => (inl r, s')
  | (inr (badRequestError e), s') => (inl (errResp 400 codeBadRequest (err_message e)), s')
  | (inr (forbiddenError e), s') => (inl (errResp 403 codeForbidden (err_message e)), s')
  | (inr (otherError _), s') => (inl (errResp 500 codeInternal "internal server error"), s')
  end.

(** ** Management-API tokens *)

Definition CutPrefix (p s : string) : option string :=
  if HasPrefix p s then Some (TrimPrefix s p) else None.

(** The loop over the candidates: the first whose hash matches decides. *)
Definition token_verdict (hash : string) (now : time) (toks : list APITokenAuth)
    : option (string * option uuid) :=
  match find (λ t, bool_decide (hash = ta_TokenHash t)) toks with
  | None => None
  | Some t =>
    match ta_ExpiresAt t with
    | Some exp => if negb (now <? exp)%Z then None else Some (ta_Role t, ta_CreatedBy t)
    | None => Some (ta_Role t, ta_CreatedBy t)
    end
  end.

Definition authenticateAPIToken (authorization : string) : Op (option (string * option uuid)) :=
  match CutPrefix "Bearer " authorization with
  | None => mret None
  | Some raw =>
    if bool_decide (raw = "") then mret None
    else
      match ParseAPITokenPrefix raw with
      | None => mret None
      | Some prefix =>
        r ← mtry (ActiveAPITokensByPrefix prefix);
        match r with
        | inr _ => mret None
        | inl toks =>
          now ← time_Now;
          mret (token_verdict (HashAPIKey raw) now toks)
        end
      end
  end.

Definition looksLikeAPIToken (authorization : string) : bool :=
  match CutPrefix "Bearer " authorization with
  | None => false
  | Some raw => is_some (ParseAPITokenPrefix raw)
  end.

(** ** The Guard *)

Record Request := {
  rq_Method : string;
  rq_Path : string;
  rq_Authorization : string;
  rq_CSRF : string;
}.

Definition publicPaths : list string := ["/api/v1/auth/providers"; "/api/v1/auth/dev-login"].
Definition logoutPath : string := "/api/v1/auth/logout".
Definition adminPathPrefixes : list string :=
  ["/api/v1/users"; "/api/v1/settings/auth-providers"; "/api/v1/settings/api-tokens";
   "/api/v1/settings/billing"; "/api/v1/billing"; "/api/v1/audit"].

Definition isAdminOnlyPath (path : string) : bool :=
  existsb (λ p, bool_decide (path = p) || HasPrefix (p +:+ "/") path) adminPathPrefixes.

Definition isMutating (method : string) : bool :=
  existsb (λ m, bool_decide (method = m)) ["POST"; "PUT"; "PATCH"; "DELETE"].

Definition requires_admin (rq : Request) (role : string) : bool :=
  isAdminOnlyPath (rq_Path rq) && negb (AtLeast role RoleAdmin).
Definition requires_operator (rq : Request) (role : string) : bool :=
  isMutating (rq_Method rq) && negb (bool_decide (rq_Path rq = logoutPath))
  && negb (CanMutate role).

Definition deny {A} (status : Z) (code message : string) : H (response + A) :=
  mret (inl (errResp status code message)).

(** The principal of a token: its creator, for the audit trail, with its own
    role. *)
Definition token_principal (role : string) (createdBy : option uuid) : Principal := {|
  pc_User := {| u_ID := default 0%N createdBy; u_Email := "api-token"; u_DisplayName := None;
                u_Role := role; u_ExternalID := None; u_DisabledAt := None;
                u_LastLoginAt := None; u_CreatedAt := zero_time |};
  pc_CSRFToken := ""; pc_AllCustomers := true; pc_AllowedCustomers := ∅ |}.

Definition guard_token (rq : Request) : H (response + option Principal) :=
  r ← must (call_store (authenticateAPIToken (rq_Authorization rq)));
  match r with
  | None => deny 401 codeUnauthorized "invalid API token"
  | Some (role, createdBy) =>
    if requires_admin rq role then deny 403 codeForbidden "requires admin role"
    else if requires_operator rq role
    then deny 403 codeForbidden "requires operator or admin role"
    else mret (inr (Some (token_principal role createdBy)))
  end.

(** The tenant scope of a session user: admins and users without grants are
    unscoped. *)
Definition with_scope (user : User) (csrf : string) : H (response + option Principal) :=
  if AtLeast (u_Role user) RoleAdmin
  then mret (inr (Some {| pc_User := user; pc_CSRFToken := csrf; pc_AllCustomers := true;
                          pc_AllowedCustomers := ∅ |}))
  else
    r ← call_store (ListUserCustomerIDs (u_ID user));
    match r with
    | inr _ => deny 500 codeInternal "internal server error"
    | inl grants =>
      mret (inr (Some {| pc_User := user; pc_CSRFToken := csrf;
                         pc_AllCustomers := bool_decide (grants = []);
                         pc_AllowedCustomers := list_to_set grants |}))
    end.

Context {UP : UuidParse}.

Definition guard_session (rq : Request) : H (response + option Principal) :=
  se ← mgets as_sess;
  match UserID se with
  | None => deny 401 codeUnauthorized "authentication required"
  | Some userID =>
    r ← call_store (GetUser userID);
    match r with
    | inr e => if Is e ErrNotFound then deny 401 codeUnauthorized "unknown user"
               else deny 500 codeInternal "internal server error"
    | inl user =>
      if is_some (u_DisabledAt user) then deny 401 codeUnauthorized "account disabled"
      else if requires_admin rq (u_Role user)
      then deny 403 codeForbidden "requires admin role"
      else if isMutating (rq_Method rq) && negb (ValidCSRF se (rq_CSRF rq))
      then deny 403 codeForbidden "missing or invalid CSRF token"
      else if requires_operator rq (u_Role user)
      then deny 403 codeForbidden "requires operator or admin role"
      else
        csrf ← must (call_sess CSRFToken);
        with_scope user csrf
    end
  end.

(** A public path reaches its handler without a principal. *)
Definition guard (rq : Request) : H (response + option Principal) :=
  if bool_decide (rq_Path rq ∈ publicPaths) then mret (inr None)
  else if looksLikeAPIToken (rq_Authorization rq) then guard_token rq
  else guard_session rq.

Definition Guard (next : option Principal → H response) (rq : Request) : H response :=
  r ← guard rq;
  match r with
  | inl denied => mret denied
  | inr principal => ResponseErrorHandler (next principal)
  end.

(** ** Tenant scope *)

Definition errNoCustomerAccess : error := ErrNew "you do not have access to this customer".

(** [customerScope]: [None] is unscoped. *)
Definition customerScope (p : option Principal) : option (gset uuid) :=
  match p with
  | None => None
  | Some p => if pc_AllCustomers p then None else Some (pc_AllowedCustomers p)
  end.

Definition requireCustomerAccess (p : option Principal) (customerID : option uuid) : H unit :=
  match p with
  | None => mret tt
  | Some p => if pc_AllCustomers p then mret tt
              else if negb (CanAccessCustomer p customerID)
              then mthrow (forbiddenError errNoCustomerAccess)
              else mret tt
  end.

Definition requireUnscoped (p : option Principal) : H unit :=
  match customerScope p with
  | None => mret tt
  | Some _ => mthrow (forbiddenError (ErrNew "this action requires access to all customers"))
  end.

(** A failed lookup, whatever the reason, leaves the decision to the handler. *)
Definition requirePipelineAccess (p : option Principal) (pipelineID : uuid) : H unit :=
  match customerScope p with
  | None => mret tt
  | Some _ =>
    r ← call_store (GetPipeline pipelineID);
    match r with
    | inr _ => mret tt
    | inl pipe => requireCustomerAccess p (Some (p_CustomerID pipe))
    end
  end.

(** List endpoints keep what the scope allows. *)
Definition in_scope (p : option Principal) (customerID : option uuid) : bool :=
  match customerScope p with
  | None => true
  | Some allowed => match customerID with Some c => bool_decide (c ∈ allowed) | None => false end
  end.

Definition actorID (p : option Principal) : option uuid :=
  match p with
  | Some p => if bool_decide (u_ID (pc_User p) = 0%N) then None else Some (u_ID (pc_User p))
  | None => None
  end.

End Handlers.
