(* ===== verification/ApiHandlers.v ===== *)
(** * Handlers: session, customers, pipelines, fleet (internal/api/handlers*.go)

    Each handler of the server that works on the store or the services,
    written as the Go method: scope check, call, mapping of the errors it
    distinguishes.  [p] is the principal the Guard attached. *)
From Stdlib Require Import Ascii.
From S2P Require Import Prelude GoStrings Store World PgCore PgUsers PgFleet PgPipelines PgMisc Tokens Tenants GoText Json Catalog PipelineGraph Render Validate Crypto Secrets PipelineService Auth ApiTypes ApiGuard.

Module Api.

(** The server's configuration that handlers read. *)
Record ApiCfg := {
  api_DevLogin : bool;
  api_AdminEmails : list string;
  api_BaseURL : string;
  api_Svc : SvcCfg;
}.

Section ApiHandlers.
Context {ENV : Env} {SM : SessionManager} {D : Type} `{!Distributor D}.
Context {SCHEMA : JSONSchema} {YML : YAML} {COL : OtelCol}.
Context (unicode_print : N → bool) (cfg : ApiCfg).

Abbreviation H := (M (apistate D sess) herror).
Abbreviation svc := (api_Svc cfg).

Definition reply (status : Z) (b : body) : H response := mret (Success status b).
Definition refuse (status : Z) (code message : string) : H response :=
  mret (errResp status code message).
Definition not_found (what : string) : H response :=
  refuse 404 codeNotFound (what +:+ " not found").

(** The common ending: [ErrNotFound] is a 404, other errors go up. *)
Definition or_not_found {A} (what : string) (m : H (A + error)) (k : A → H response) : H response :=
  r ← m;
  match r with
  | inl a => k a
  | inr e => if Is e ErrNotFound then not_found what else fail e
  end.

(** ** Session *)

Definition GetMe (p : option Principal) : H response :=
  match p with
  | None => refuse 401 codeUnauthorized "authentication required"
  | Some p => reply 200 (BMe (pc_User p) (pc_CSRFToken p) (pc_AllCustomers p)
                           (if pc_AllCustomers p then None else Some (pc_AllowedCustomers p)))
  end.

Definition DevLogin (email : string) : H response :=
  if negb (api_DevLogin cfg) then refuse 403 codeForbidden "dev login is disabled"
  else
    let email := ToLower unicode_lower (TrimSpace email) in
    if bool_decide (email = "") || negb (Contains "@" email)
    then refuse 400 codeBadRequest "invalid email"
    else
      let role := if IsAdminEmail (api_AdminEmails cfg) email then RoleAdmin else RoleViewer in
      user ← must (call_store (UpsertUserByIdentity "dev" email email None role));
      if is_some (u_DisabledAt user) then refuse 403 codeForbidden "account disabled"
      else
        must (call_sess (Login (u_ID user)));;
        reply 204 BNone.

Definition Logout : H response := must (call_sess sess_Logout);; reply 204 BNone.

(** ** Customers *)

Definition ListCustomers (p : option Principal) (status : option string) : H response :=
  customers ← must (call_store (PgCore.ListCustomers status));
  reply 200 (BCustomers (map toCustomer
    (filter (λ c, in_scope p (Some (c_ID c)) = true) customers))).

Definition CreateCustomer (p : option Principal) (name : string) (slug : option string)
    : H response :=
  requireUnscoped p;;
  r ← call_store (Tenants.CreateCustomer (actorID p) name slug);
  match r with
  | inl created => reply 201 (BCustomerCreated (toCustomer (cc_Customer created))
                                (toAPIKeyCreated (cc_Key created) (cc_Secret created)))
  | inr e =>
    if Is e ErrInvalidName || Is e ErrInvalidSlug
    then refuse 400 codeBadRequest (err_message e)
    else if Is e ErrSlugExists then refuse 409 codeConflict "slug already exists"
    else fail e
  end.

Definition GetCustomer (p : option Principal) (id : uuid) : H response :=
  requireCustomerAccess p (Some id);;
  or_not_found "customer" (call_store (PgCore.GetCustomer id)) (λ c,
    reply 200 (BCustomer (toCustomer c))).

(** The decoded PATCH body; [quota_present] and [retention_present] are the
    keys of the raw body, which tells null from absent. *)
Record CustomerPatch := {
  cp_Name : option string;
  cp_Status : option string;
  cp_RateLimitItemsPerSec : option Z;
  cp_RetentionDays : option Z;
  quota_present : bool;
  retention_present : bool;
}.

Definition quotaRetentionUpdate (b : CustomerPatch) : OptionalInt * OptionalInt :=
  let field (present : bool) v := if present then {| oi_Set := true; oi_Value := v |}
                                  else {| oi_Set := false; oi_Value := None |} in
  (field (quota_present b) (cp_RateLimitItemsPerSec b),
   field (retention_present b) (cp_RetentionDays b)).

Definition out_of_range (o : OptionalInt) (bad : Z → bool) : bool :=
  match oi_Value o with Some v => oi_Set o && bad v | None => false end.

Definition UpdateCustomer (p : option Principal) (id : uuid) (b : CustomerPatch) : H response :=
  requireCustomerAccess p (Some id);;
  let '(rate, retention) := quotaRetentionUpdate b in
  let upd := {| cu_Name := cp_Name b; cu_Status := cp_Status b;
                cu_RateLimitItemsPerSec := rate; cu_RetentionDays := retention |} in
  if out_of_range rate (λ v, v <? 1)%Z
  then bad_request (ErrNew "rateLimitItemsPerSec must be >= 1 (or null for unlimited)")
  else if out_of_range retention (λ v, (v <? 1) || (30 <? v))%Z
  then bad_request (ErrNew "retentionDays must be between 1 and 30 (or null for the global TTL)")
  else
    r ← call_store (Tenants.UpdateCustomer (actorID p) id upd);
    match r with
    | inl c => reply 200 (BCustomer (toCustomer c))
    | inr e => if Is e ErrInvalidName then bad_request e
               else if Is e ErrNotFound then not_found "customer" else fail e
    end.

Definition DeleteCustomer (p : option Principal) (id : uuid) : H response :=
  requireCustomerAccess p (Some id);;
  or_not_found "customer" (call_store (Tenants.DeleteCustomer (actorID p) id)) (λ _,
    reply 204 BNone).

(** ** API keys *)

Definition ListApiKeys (p : option Principal) (customerId : uuid) : H response :=
  requireCustomerAccess p (Some customerId);;
  or_not_found "customer" (call_store (ListAPIKeys customerId)) (λ keys,
    reply 200 (BApiKeys (map toAPIKey keys))).

Definition CreateApiKey (p : option Principal) (customerId : uuid) (name : string)
    (expiresAt : option time) : H response :=
  requireCustomerAccess p (Some customerId);;
  r ← call_store (Tenants.CreateAPIKey (actorID p) customerId name expiresAt);
  match r with
  | inl created => reply 201 (BApiKeyCreated (toAPIKeyCreated (ck_Key created) (ck_Secret created)))
  | inr e => if Is e ErrInvalidName then refuse 400 codeBadRequest (err_message e)
             else if Is e ErrNotFound then not_found "customer" else fail e
  end.

Definition RevokeApiKey (p : option Principal) (customerId keyId : uuid) : H response :=
  requireCustomerAccess p (Some customerId);;
  or_not_found "api key" (call_store (Tenants.RevokeAPIKey (actorID p) customerId keyId)) (λ _,
    reply 204 BNone).

(** ** Pipelines *)

Definition GetComponentCatalog : H response :=
  reply 200 (BCatalog (map catalog_item Processors) (map catalog_item Exporters)).

Definition ListPipelines (p : option Principal) : H response :=
  ps ← must (call_store (PgPipelines.ListPipelines None));
  reply 200 (BPipelines (map toPipeline
    (filter (λ x, in_scope p (Some (p_CustomerID x)) = true) ps))).

Definition ListCustomerPipelines (p : option Principal) (customerId : uuid) : H response :=
  requireCustomerAccess p (Some customerId);;
  or_not_found "customer" (call_store (PgCore.GetCustomer customerId)) (λ _,
    ps ← must (call_store (PgPipelines.ListPipelines (Some customerId)));
    reply 200 (BPipelines (map toPipeline ps))).

Definition CreatePipeline (p : option Principal) (customerId : uuid) (name : string)
    (targetClass : option string) (g : Graph) : H response :=
  requireCustomerAccess p (Some customerId);;
  r ← call_store (Create unicode_print svc (actorID p) customerId name
                    (default ClassForwarding targetClass) (fromAPIGraph g));
  match r with
  | inl (inl (created, _)) => reply 201 (BPipeline (toPipeline (cre_Pipeline created)))
  | inl (inr res) => refuse 400 codeBadRequest (firstIssueMessage res)
  | inr e =>
    if Is e ErrInvalidName then refuse 400 codeBadRequest "invalid pipeline name"
    else if Is e ErrSlugTaken || Is e ErrNameExists then refuse 409 codeConflict (err_message e)
    else if Is e ErrNotFound then not_found "customer" else fail e
  end.

Definition GetPipeline (p : option Principal) (pipelineId : uuid) : H response :=
  or_not_found "pipeline" (call_store (PgPipelines.GetPipeline pipelineId)) (λ pipe,
    requireCustomerAccess p (Some (p_CustomerID pipe));;
    versions ← must (call_store (ListPipelineVersions pipelineId));
    reply 200 (BPipelineDetail (toPipeline pipe) (map toVersionSummary versions))).

Definition DeletePipeline (p : option Principal) (pipelineId : uuid) : H response :=
  requirePipelineAccess p pipelineId;;
  or_not_found "pipeline" (call_svc (PipelineService.Delete unicode_print svc (actorID p) pipelineId))
    (λ _, reply 204 BNone).

Definition ValidatePipeline (targetClass : option string) (g : Graph) : H response :=
  res ← must (call_store (ValidateDraft unicode_print svc (default ClassForwarding targetClass)
                            (fromAPIGraph g)));
  reply 200 (BValidation (toValidationResult res)).

Definition version_reply (status : Z) (v : PipelineVersion) : H response :=
  match toVersion v with inl out => reply status (BVersion out) | inr e => fail e end.

Definition CreatePipelineVersion (p : option Principal) (pipelineId : uuid) (g : Graph)
    : H response :=
  requirePipelineAccess p pipelineId;;
  or_not_found "pipeline"
    (call_store (CreateVersion unicode_print svc (actorID p) pipelineId (fromAPIGraph g)))
    (λ r, match r with
          | inl (ver, _) => version_reply 201 ver
          | inr res => reply 400 (BValidation (toValidationResult res))
          end).

Definition GetPipelineVersion (p : option Principal) (pipelineId : uuid) (version : Z)
    : H response :=
  requirePipelineAccess p pipelineId;;
  or_not_found "version" (call_store (PgPipelines.GetPipelineVersion pipelineId version))
    (version_reply 200).

Definition ActivatePipelineVersion (p : option Principal) (pipelineId : uuid) (version : Z)
    : H response :=
  requirePipelineAccess p pipelineId;;
  r ← call_svc (Activate unicode_print svc (actorID p) pipelineId version);
  match r with
  | inl (_, state, detail) => reply 200 (BRollout version state detail)
  | inr e => if Is e ErrNotFound then not_found "version"
             else if Is e ErrConflict
             then refuse 400 codeBadRequest "version is not valid and cannot be activated"
             else fail e
  end.

(** ** Agents *)

Definition ListAgents (p : option Principal) (f : AgentFilter) : H response :=
  agents ← must (call_store (PgFleet.ListAgents f));
  reply 200 (BAgents (map toAgent (filter (λ a, in_scope p (a_CustomerID a) = true) agents))).

(** The opening of every handler on one agent: load it, check its customer. *)
Definition with_agent (p : option Principal) (agentId : uuid) (k : Agent → H response) : H response :=
  or_not_found "agent" (call_store (PgFleet.GetAgent agentId)) (λ a,
    requireCustomerAccess p (a_CustomerID a);; k a).

Definition agent_entry (p : option Principal) (action : string) (a : Agent) (agentId : uuid) : Entry :=
  entry (actorID p) action "agent" agentId (a_CustomerID a)
    (Some (JObj [("instance_uid", JStr (hex_encode (a_InstanceUID a)))])).

Definition GetAgent (p : option Principal) (agentId : uuid) : H response :=
  with_agent p agentId (λ a,
    match toAgentDetail a with inl d => reply 200 (BAgentDetail d) | inr e => fail e end).

Definition DeleteAgent (p : option Principal) (agentId : uuid) : H response :=
  with_agent p agentId (λ a,
    if a_Connected a then refuse 409 codeConflict "agent is currently connected"
    else
      or_not_found "agent"
        (call_store (PgFleet.DeleteAgent agentId [agent_entry p "agent.delete" a agentId]))
        (λ _, reply 204 BNone)).

(** A blank display name clears the override; labels change only if present. *)
Definition UpdateAgent (p : option Principal) (agentId : uuid) (displayName : option string)
    (labels : option (gmap string string)) : H response :=
  with_agent p agentId (λ a,
    let displayName := match displayName with
                       | Some s => let t := TrimSpace s in
                                   if bool_decide (t = "") then None else Some t
                       | None => None
                       end in
    let labels := (λ m, JObj (map (λ '(k, v), (k, JStr v))
                          (merge_sort (λ x y, Is_true (String.leb x.1 y.1)) (map_to_list m)))) <$> labels in
    or_not_found "agent"
      (call_store (UpdateAgentMeta agentId displayName labels [agent_entry p "agent.update" a agentId]))
      (λ updated, reply 200 (BAgent (toAgent updated)))).

Definition SyncAgent (p : option Principal) (agentId : uuid) : H response :=
  with_agent p agentId (λ a,
    match a_CustomerID a with
    | Some customer =>
      if bool_decide (a_Class a = AgentClassEdge) then
        '(_, detail) ← must (call_svc (ResyncEdge svc customer));
        call_store (WriteAuditEntries [agent_entry p "agent.sync" a agentId]);;
        reply 202 (BSync detail)
      else refuse 400 codeBadRequest
        "re-sync applies to edge agents only; gateway configs are managed outside OpAMP"
    | None => refuse 400 codeBadRequest
        "re-sync applies to edge agents only; gateway configs are managed outside OpAMP"
    end).

Definition GetAgentConfig (p : option Principal) (agentId : uuid) : H response :=
  with_agent p agentId (λ a,
    assigned ← match a_CustomerID a with
               | Some customer =>
                 if bool_decide (a_Class a = AgentClassEdge)
                 then must (call_store (svc_RenderEdgeCurrent unicode_print svc customer))
                 else mret ""
               | None => mret ""
               end;
    reply 200 (BAgentConfig assigned (default "" (a_ReportedConfigYAML a)))).

Definition event_limit (limit : option Z) : Z :=
  let limit := default 50%Z limit in
  let limit := if (limit <? 1)%Z then 1%Z else limit in
  if (500 <? limit)%Z then 500%Z else limit.

Fixpoint map_events (l : list AgentEvent) : list ApiAgentEvent + error :=
  match l with
  | [] => inl []
  | e :: l' =>
    match toAgentEvent e with
    | inr err => inr err
    | inl x => match map_events l' with inr err => inr err | inl xs => inl (x :: xs) end
    end
  end.

Definition ListAgentEvents (p : option Principal) (agentId : uuid) (limit : option Z)
    : H response :=
  with_agent p agentId (λ _,
    or_not_found "agent"
      (call_store (PgFleet.ListAgentEvents agentId (Z.to_nat (event_limit limit))))
      (λ events, match map_events events with
                 | inl out => reply 200 (BAgentEvents out)
                 | inr e => fail e
                 end)).

(** ** Bootstrap tokens *)

Definition ListBootstrapTokens (p : option Principal) (customerId : uuid) : H response :=
  requireCustomerAccess p (Some customerId);;
  or_not_found "customer" (call_store (PgFleet.ListBootstrapTokens customerId)) (λ toks,
    reply 200 (BBootstrapTokens (map toBootstrapToken toks))).

Definition CreateBootstrapToken (p : option Principal) (customerId : uuid) (name : string)
    (expiresAt : option time) (maxUses : option Z) : H response :=
  requireCustomerAccess p (Some customerId);;
  r ← call_store (Tenants.CreateBootstrapToken (actorID p) customerId name expiresAt (default 0%Z maxUses));
  match r with
  | inl created => reply 201 (BBootstrapTokenCreated (toBootstrapToken (cbt_Token created)) (cbt_Secret created))
  | inr e => if Is e ErrInvalidName then bad_request e
             else if Is e ErrNotFound then not_found "customer" else fail e
  end.

Definition RevokeBootstrapToken (p : option Principal) (customerId tokenId : uuid) : H response :=
  requireCustomerAccess p (Some customerId);;
  or_not_found "bootstrap token"
    (call_store (Tenants.RevokeBootstrapToken (actorID p) customerId tokenId))
    (λ _, reply 204 BNone).

End ApiHandlers.
End Api.
