(* ===== verification/ApiAdmin.v ===== *)
(** * Handlers: users, sign-in providers, tokens, webhooks, billing (internal/api)

    handlers_admin.go, handlers_apitokens.go, handlers_webhooks.go and the
    price list of handlers_billing.go, with the provider checks of
    internal/auth and the webhook target check of internal/webhooks. *)
From Stdlib Require Import Ascii.
From S2P Require Import Prelude GoStrings Store World PgCore PgUsers PgMisc Tokens Tenants GoText Json PipelineGraph Crypto PipelineService AuditLog Auth ApiTypes ApiGuard ApiHandlers.

(** [net/url] and [net.ParseIP], as far as the target check reads them. *)
Record target := { tgt_Scheme : string; tgt_Hostname : string }.
Record ip_kind := { ip_LinkLocal : bool; ip_Unspecified : bool; ip_Loopback : bool }.
Class NetURL := {
  url_Parse : string → target + string;
  net_ParseIP : string → option ip_kind;
}.

(** [encoding/pem] and [crypto/x509]: the first block, and why a certificate
    does not parse. *)
Class X509 := {
  pem_Decode : string → option string;
  ParseCertificate : string → option error;
}.

(** ** Webhook targets (internal/webhooks/validate.go) *)

Section ValidateURL.
Context {NET : NetURL}.

Definition isLoopbackHost (host : string) (ip : option ip_kind) : bool :=
  bool_decide (fold_name host = fold_name "localhost")
  || match ip with Some k => ip_Loopback k | None => false end.

Definition ValidateURL (raw : string) : option error :=
  match url_Parse (TrimSpace raw) with
  | inr e => Some (ErrNew ("invalid URL: " +:+ e))
  | inl u =>
    let host := tgt_Hostname u in
    if bool_decide (host = "") then Some (ErrNew "URL must include a host")
    else
      let ip := net_ParseIP host in
      if match ip with Some k => ip_LinkLocal k || ip_Unspecified k | None => false end
      then Some (ErrNew "link-local and metadata addresses are not allowed")
      else if bool_decide (tgt_Scheme u = "https") then None
      else if bool_decide (tgt_Scheme u = "http") then
        if isLoopbackHost host ip then None
        else Some (ErrNew "http:// is only allowed for localhost targets; use https://")
      else Some (ErrNew "URL must use https:// (http:// only for localhost)")
  end.

End ValidateURL.

(** What the test endpoint needs of the dispatcher; it answers in any case. *)
Record WebhookTester := { wt_SendTest : Webhook → Op (bool * string) }.

(** ** Sign-in provider settings (internal/auth) *)

Definition TypeGoogle : string := "google".
Definition TypeMicrosoft : string := "microsoft".
Definition TypeGitHub : string := "github".
Definition TypeOIDC : string := "oidc".
Definition TypeSAML : string := "saml".

Definition KnownProviderType (t : string) : bool :=
  existsb (λ x, bool_decide (t = x)) [TypeGoogle; TypeMicrosoft; TypeGitHub; TypeOIDC; TypeSAML].

Record SAMLConfig := {
  IDPEntityID : string;
  IDPSSOURL : string;
  IDPCertificate : string;
}.

Section SAML.
Context {CERT : X509}.

Definition is_blank (c : ascii) : bool :=
  existsb (Ascii.eqb c) [" "; "010"; "013"; "009"]%char.

Definition parseCertificate (cert : string) : option error :=
  let cert := TrimSpace cert in
  if bool_decide (cert = "") then Some (ErrNew "empty certificate")
  else
    match pem_Decode cert with
    | Some block => ParseCertificate block
    | None =>
      let clean := String.string_of_list_ascii
        (filter (λ c, is_blank c = false) (String.list_ascii_of_string cert)) in
      match DecodeString clean with
      | None => Some (ErrNew "certificate is neither PEM nor base64 DER")
      | Some der => ParseCertificate der
      end
    end.

Definition ValidateSAMLConfig (c : SAMLConfig) : option error :=
  if bool_decide (TrimSpace (IDPEntityID c) = "") then Some (ErrNew "idpEntityId is required")
  else if negb (HasPrefix "https://" (IDPSSOURL c))
  then Some (ErrNew "idpSsoUrl must be an https:// URL")
  else Wrap "idpCertificate" <$> parseCertificate (IDPCertificate c).

Definition saml_json (c : SAMLConfig) : json :=
  JObj [("idpEntityId", JStr (IDPEntityID c)); ("idpSsoUrl", JStr (IDPSSOURL c));
        ("idpCertificate", JStr (IDPCertificate c))].

(** [json.Unmarshal] into the struct; a wrong type leaves the field empty. *)
Definition saml_of_json (j : option json) : SAMLConfig :=
  let get k := match j with
               | Some (JObj m) => match field k m with Some (JStr s) => s | _ => "" end
               | _ => ""
               end in
  {| IDPEntityID := get "idpEntityId"; IDPSSOURL := get "idpSsoUrl";
     IDPCertificate := get "idpCertificate" |}.

Definition buildSAMLConfig (entityID ssoURL cert : option string) : json + string :=
  let get := λ o : option string, match o with Some s => TrimSpace s | None => "" end in
  let c := {| IDPEntityID := get entityID; IDPSSOURL := get ssoURL; IDPCertificate := get cert |} in
  match ValidateSAMLConfig c with
  | Some e => inr ("type saml: " +:+ err_message e)
  | None => inl (saml_json c)
  end.

End SAML.

Definition RedirectURI (baseURL name : string) : string := baseURL +:+ "/auth/" +:+ name +:+ "/callback".
Definition acsURL (baseURL name : string) : string := baseURL +:+ "/auth/" +:+ name +:+ "/acs".
Definition spEntityID (baseURL name : string) : string := baseURL +:+ "/auth/" +:+ name +:+ "/metadata".

Definition provider_name_ok (s : string) : bool :=
  match String.list_ascii_of_string s with
  | [] => false
  | c :: l =>
    let alnum c := is_lower (N_of_ascii c) || is_digit (N_of_ascii c) in
    alnum c && (1 <=? length l) && (length l <=? 30)
    && forallb (λ c, alnum c || Ascii.eqb c "-"%char) l
  end.

Module Admin.
Import Api.

Section ApiAdmin.
Context {ENV : Env} {SM : SessionManager} {D : Type}.
Context {NET : NetURL} {CERT : X509}.
Context (unicode_print : N → bool) (cfg : ApiCfg).

Abbreviation H := (M (apistate D sess) herror).
Abbreviation cipher := (sv_cipher (api_Svc cfg)).

Definition audit_entry (p : option Principal) (action entityType : string) (id : uuid)
    (payload : option json) : Entry := entry (actorID p) action entityType id None payload.

(** ** Users *)

Definition ListUsers : H response :=
  users ← must (call_store PgUsers.ListUsers);
  reply 200 (BUsers (map toUserAccount users)).

Definition setUserGrants (p : option Principal) (userID : uuid) (customerIDs : list uuid) : H unit :=
  r ← call_store (SetUserCustomerGrants userID customerIDs
        [audit_entry p "user.grants" "user" userID
           (Some (JObj [("customerCount", JNum (Itoa (Z.of_nat (length customerIDs))))]))]);
  match r with
  | inl _ => mret tt
  | inr e => if Is e ErrNotFound
             then bad_request (ErrNew "unknown user or customer in customerIds")
             else fail e
  end.

Definition InviteUser (p : option Principal) (email role : string)
    (customerIds : option (list uuid)) : H response :=
  let email := ToLower unicode_lower (TrimSpace email) in
  if bool_decide (email = "") || negb (Contains "@" email) then bad_request (ErrNew "invalid email")
  else if negb (Known role) then bad_request (ErrNew ("unknown role " +:+ Quote unicode_print role))
  else
    id ← must (call_store uuid_New);
    r ← call_store (CreateInvitedUser id email role
          [audit_entry p "user.invite" "user" id
             (Some (JObj [("email", JStr email); ("role", JStr role)]))]);
    match r with
    | inr e => if Is e ErrEmailExists
               then refuse 409 codeConflict "a user with this email already exists"
               else fail e
    | inl user =>
      let grants := if bool_decide (role = RoleAdmin) then [] else default [] customerIds in
      mwhen (negb (bool_decide (grants = []))) (setUserGrants p id grants);;
      reply 201 (BUser (toUserAccount {| ui_User := user; ui_Identities := [];
                                         ui_CustomerIDs := grants |}))
    end.

Definition user_patch_payload (role : option string) (disabled : option bool) : json :=
  JObj (opt_member "role" JStr role ++ opt_member "disabled" JBool disabled).

Definition UpdateUser (principal : option Principal) (userId : uuid) (role : option string)
    (disabled : option bool) (customerIds : option (list uuid)) : H response :=
  match principal with
  | None => refuse 401 codeUnauthorized "authentication required"
  | Some p =>
    if match role with Some r => negb (Known r) | None => false end
    then refuse 400 codeBadRequest ("unknown role " +:+ Quote unicode_print (default "" role))
    else if is_none role && is_none disabled && is_none customerIds
    then refuse 400 codeBadRequest "nothing to update: provide role, disabled and/or customerIds"
    else
      let self := bool_decide (userId = u_ID (pc_User p)) in
      if self && match role with Some r => negb (bool_decide (r = RoleAdmin)) | None => false end
      then refuse 409 codeConflict "you cannot change your own role"
      else if self && default false disabled
      then refuse 409 codeConflict "you cannot disable yourself"
      else
        match customerIds with
        | Some ids => setUserGrants principal userId ids
        | None => mret tt
        end;;
        if is_some role || is_some disabled then
          r ← call_store (UpdateUserAdmin userId {| uu_Role := role; uu_Disabled := disabled |}
                [audit_entry principal "user.update" "user" userId
                   (Some (user_patch_payload role disabled))]);
          match r with
          | inl user => reply 200 (BUser (toUserAccount user))
          | inr e => if Is e ErrNotFound then not_found "user"
                     else if Is e ErrLastAdmin
                     then refuse 409 codeConflict "this change would leave no enabled admin"
                     else fail e
          end
        else
          or_not_found "user" (call_store (GetUserWithIdentities userId)) (λ u,
            reply 200 (BUser (toUserAccount u)))
  end.

Definition DeleteUser (principal : option Principal) (userId : uuid) : H response :=
  match principal with
  | None => refuse 401 codeUnauthorized "authentication required"
  | Some p =>
    if bool_decide (userId = u_ID (pc_User p))
    then refuse 409 codeConflict "you cannot delete yourself"
    else
      or_not_found "user" (call_store (GetUser userId)) (λ victim,
        r ← call_store (PgUsers.DeleteUser userId
              [audit_entry principal "user.delete" "user" userId
                 (Some (JObj [("email", JStr (u_Email victim))]))]);
        match r with
        | inl _ => reply 204 BNone
        | inr e => if Is e ErrNotFound then not_found "user"
                   else if Is e ErrLastAdmin
                   then refuse 409 codeConflict "cannot delete the last enabled admin"
                   else fail e
        end)
  end.

(** ** Sign-in providers *)

Definition toAuthProviderConfig (p : AuthProvider) : AuthProviderConfig :=
  let base := api_BaseURL cfg in {|
  apc_Id := ap_ID p; apc_Type := ap_Type p; apc_Name := ap_Name p;
  apc_DisplayName := ap_DisplayName p; apc_ClientId := ap_ClientID p; apc_Issuer := ap_Issuer p;
  apc_Enabled := ap_Enabled p; apc_Source := "database";
  apc_RedirectUri := RedirectURI base (ap_Name p); apc_CreatedAt := ap_CreatedAt p;
  apc_SAML :=
    if bool_decide (ap_Type p = TypeSAML) then
      let sc := saml_of_json (ap_SAMLConfig p) in
      Some (IDPEntityID sc, IDPSSOURL sc, IDPCertificate sc,
            acsURL base (ap_Name p), spEntityID base (ap_Name p))
    else None |}.

Definition encryptClientSecret (secret : string) : H string :=
  r ← call_store (Encrypt cipher secret);
  match r with
  | inl enc => mret enc
  | inr e =>
    if Is e ErrNotConfigured then
      key ← must (call_store NewRandomKeyBase64);
      bad_request (ErrNew (err_message ErrNotConfigured
        +:+ " — generate one with e.g. OTELFLEET_MASTER_KEY=" +:+ key))
    else fail e
  end.

Definition display_name_ok (s : string) : bool :=
  negb (bool_decide (s = "")) && (String.length s <=? 100).

Definition TrimSlash (s : string) : string :=
  let n := String.length s - 1 in
  if bool_decide (String.substring n 1 s = "/") then String.substring 0 n s else s.

Record NewProviderBody := {
  npb_Type : string; npb_Name : string; npb_DisplayName : string; npb_Enabled : option bool;
  npb_ClientId : option string; npb_ClientSecret : option string; npb_Issuer : option string;
  npb_IdpEntityId : option string; npb_IdpSsoUrl : option string; npb_IdpCertificate : option string;
}.

Definition create_provider (p : option Principal) (np : NewAuthProvider) : H response :=
  r ← call_store (CreateAuthProvider np
        [audit_entry p "authprovider.create" "auth_provider" (nap_ID np)
           (Some (JObj [("type", JStr (nap_Type np)); ("name", JStr (nap_Name np));
                        ("enabled", JBool (nap_Enabled np))]))]);
  match r with
  | inl created => reply 201 (BAuthProviderConfig (toAuthProviderConfig created))
  | inr e => if Is e ErrNameExists
             then refuse 409 codeConflict "a provider with this name already exists"
             else fail e
  end.

Definition CreateAuthProviderConfig (p : option Principal) (b : NewProviderBody) : H response :=
  let bad := refuse 400 codeBadRequest in
  if negb (KnownProviderType (npb_Type b))
  then bad ("unknown provider type " +:+ Quote unicode_print (npb_Type b))
  else if negb (provider_name_ok (npb_Name b)) then bad "name must match ^[a-z0-9][a-z0-9-]{1,30}$"
  else
    let displayName := TrimSpace (npb_DisplayName b) in
    if negb (display_name_ok displayName) then bad "displayName must be 1-100 characters"
    else
      id ← must (call_store uuid_New);
      let np clientID enc issuer saml := {|
        nap_ID := id; nap_Type := npb_Type b; nap_Name := npb_Name b;
        nap_DisplayName := displayName; nap_ClientID := clientID; nap_ClientSecretEnc := enc;
        nap_Issuer := issuer; nap_SAMLConfig := saml;
        nap_Enabled := default true (npb_Enabled b) |} in
      if bool_decide (npb_Type b = TypeSAML) then
        match buildSAMLConfig (npb_IdpEntityId b) (npb_IdpSsoUrl b) (npb_IdpCertificate b) with
        | inr msg => bad msg
        | inl saml => create_provider p (np "" "" None (Some saml))
        end
      else
        let clientID := default "" (npb_ClientId b) in
        let clientSecret := default "" (npb_ClientSecret b) in
        if bool_decide (clientID = "") || bool_decide (clientSecret = "")
        then bad "clientId and clientSecret are required"
        else if bool_decide (npb_Type b = TypeOIDC)
                && negb match npb_Issuer b with Some i => HasPrefix "https://" i | None => false end
        then bad "type oidc requires an https:// issuer"
        else
          enc ← encryptClientSecret clientSecret;
          create_provider p (np clientID enc
            (if bool_decide (npb_Type b = TypeOIDC) then TrimSlash <$> npb_Issuer b else None) None).

Record ProviderPatch := {
  ppb_DisplayName : option string; ppb_ClientId : option string; ppb_ClientSecret : option string;
  ppb_Issuer : option string; ppb_Enabled : option bool;
  ppb_IdpEntityId : option string; ppb_IdpSsoUrl : option string; ppb_IdpCertificate : option string;
}.

(** The SAML fields provided, merged onto the stored ones and validated. *)
Definition merged_saml (b : ProviderPatch) (providerId : uuid)
    : H (response + option json) :=
  if is_none (ppb_IdpEntityId b) && is_none (ppb_IdpSsoUrl b) && is_none (ppb_IdpCertificate b)
  then mret (inr None)
  else
    r ← call_store (GetAuthProvider providerId);
    match r with
    | inr e => if Is e ErrNotFound
               then mret (inl (errResp 404 codeNotFound "provider not found")) else fail e
    | inl current =>
      let sc := saml_of_json (ap_SAMLConfig current) in
      let pick := λ (o : option string) (old : string), Some (match o with Some s => TrimSpace s | None => old end) in
      match buildSAMLConfig (pick (ppb_IdpEntityId b) (IDPEntityID sc))
              (pick (ppb_IdpSsoUrl b) (IDPSSOURL sc))
              (pick (ppb_IdpCertificate b) (IDPCertificate sc)) with
      | inr msg => mret (inl (errResp 400 codeBadRequest msg))
      | inl saml => mret (inr (Some saml))
      end
    end.

Definition provider_payload (b : ProviderPatch) (issuer : option string) (saml : option json) : json :=
  JObj (opt_member "display_name" JStr (TrimSpace <$> ppb_DisplayName b)
    ++ opt_member "client_id" JStr (ppb_ClientId b) ++ opt_member "issuer" JStr issuer
    ++ opt_member "enabled" JBool (ppb_Enabled b)
    ++ opt_member "client_secret" (λ _, JStr "(rotated)") (ppb_ClientSecret b)
    ++ opt_member "saml_config" (λ _, JStr "(updated)") saml).

Definition UpdateAuthProviderConfig (p : option Principal) (providerId : uuid) (b : ProviderPatch)
    : H response :=
  let bad := refuse 400 codeBadRequest in
  let displayName := TrimSpace <$> ppb_DisplayName b in
  if match displayName with Some dn => negb (display_name_ok dn) | None => false end
  then bad "displayName must be 1-100 characters"
  else if bool_decide (ppb_ClientId b = Some "") then bad "clientId must not be empty"
  else if match ppb_Issuer b with Some i => negb (HasPrefix "https://" i) | None => false end
  then bad "issuer must be an https:// URL"
  else if bool_decide (ppb_ClientSecret b = Some "")
  then bad "clientSecret must not be empty (omit it to keep the stored one)"
  else
    enc ← match ppb_ClientSecret b with
          | Some secret => e ← encryptClientSecret secret; mret (Some e)
          | None => mret None
          end;
    saml ← merged_saml b providerId;
    match saml with
    | inl denied => mret denied
    | inr saml =>
      let issuer := TrimSlash <$> ppb_Issuer b in
      or_not_found "provider"
        (call_store (UpdateAuthProvider providerId
           {| apu_DisplayName := displayName; apu_ClientID := ppb_ClientId b;
              apu_ClientSecretEnc := enc; apu_Issuer := issuer; apu_SAMLConfig := saml;
              apu_Enabled := ppb_Enabled b |}
           [audit_entry p "authprovider.update" "auth_provider" providerId
              (Some (provider_payload b issuer saml))]))
        (λ updated, reply 200 (BAuthProviderConfig (toAuthProviderConfig updated)))
    end.

Definition DeleteAuthProviderConfig (p : option Principal) (providerId : uuid) : H response :=
  or_not_found "provider" (call_store (GetAuthProvider providerId)) (λ provider,
    or_not_found "provider"
      (call_store (DeleteAuthProvider providerId
         [audit_entry p "authprovider.delete" "auth_provider" providerId
            (Some (JObj [("type", JStr (ap_Type provider)); ("name", JStr (ap_Name provider))]))]))
      (λ _, reply 204 BNone)).

(** ** Management-API tokens *)

Definition ListApiTokens : H response :=
  tokens ← must (call_store ListAPITokens);
  reply 200 (BApiTokens (map toAPIToken tokens)).

Definition CreateApiToken (p : option Principal) (name role : string) (expiresAt : option time)
    : H response :=
  r ← call_store (Tenants.CreateAPIToken (actorID p) name role expiresAt);
  match r with
  | inl created => reply 201 (BApiTokenCreated (toAPIToken (cat_Token created)) (cat_Secret created))
  | inr e =>
    if Is e ErrInvalidName
    then refuse 400 codeBadRequest
           (err_message ErrInvalidName
            +:+ (if bool_decide (e = ErrInvalidName) then ""
                 else ": unknown role " +:+ Quote unicode_print role))
    else fail e
  end.

Definition RevokeApiToken (p : option Principal) (tokenId : uuid) : H response :=
  or_not_found "token" (call_store (Tenants.RevokeAPIToken (actorID p) tokenId)) (λ _,
    reply 204 BNone).

(** ** Webhooks *)

Definition webhookType (t : option string) : H string :=
  match t with
  | None => mret WebhookTypeGeneric
  | Some t => if bool_decide (t = WebhookTypeGeneric) || bool_decide (t = WebhookTypeSlack)
              then mret t else bad_request (ErrNew ("unknown channel type " +:+ t))
  end.

Definition webhook_events : list string :=
  [WebhookEventAgentOffline; WebhookEventAgentConfigFailed; WebhookEventAgentUnhealthy].

Definition validateWebhookEvents (events : list string) : H (list string) :=
  match events with
  | [] => bad_request (ErrNew "at least one event is required")
  | _ => match find (λ e, negb (bool_decide (e ∈ webhook_events))) events with
         | Some e => bad_request (ErrNew ("unknown webhook event " +:+ e))
         | None => mret events
         end
  end.

Definition ListWebhooks : H response :=
  hooks ← must (call_store PgMisc.ListWebhooks);
  reply 200 (BWebhooks (map toWebhook hooks)).

Record NewWebhookBody := {
  nwb_Type : option string; nwb_Name : string; nwb_Url : string; nwb_Events : list string;
  nwb_Enabled : option bool; nwb_Secret : option string;
}.

Definition CreateWebhook (p : option Principal) (b : NewWebhookBody) : H response :=
  if bool_decide (nwb_Name b = "") then refuse 400 codeBadRequest "name is required"
  else
    match ValidateURL (nwb_Url b) with
    | Some e => refuse 400 codeBadRequest (err_message e)
    | None =>
      events ← validateWebhookEvents (nwb_Events b);
      chType ← webhookType (nwb_Type b);
      id ← must (call_store uuid_New);
      let secret := default "" (nwb_Secret b) in
      enc ← (if bool_decide (chType = WebhookTypeSlack) || bool_decide (secret = "")
             then mret None
             else e ← encryptClientSecret secret; mret (Some e));
      created ← must (call_store (PgMisc.CreateWebhook
        {| nw_ID := id; nw_Type := chType; nw_Name := nwb_Name b; nw_URL := nwb_Url b;
           nw_Events := events; nw_SecretEnc := enc; nw_Enabled := default true (nwb_Enabled b);
           nw_CreatedBy := actorID p |}
        [audit_entry p "webhook.create" "webhook" id
           (Some (JObj [("name", JStr (nwb_Name b)); ("url", JStr (nwb_Url b));
                        ("events", JArr (map JStr events))]))]));
      reply 201 (BWebhook (toWebhook created))
    end.

Record WebhookPatch := {
  wpb_Type : option string; wpb_Name : option string; wpb_Url : option string;
  wpb_Events : option (list string); wpb_Enabled : option bool; wpb_Secret : option string;
}.

Definition UpdateWebhook (p : option Principal) (webhookId : uuid) (b : WebhookPatch) : H response :=
  type_ ← match wpb_Type b with
          | Some t => ct ← webhookType (Some t); mret (Some ct)
          | None => mret None
          end;
  match ValidateURL <$> wpb_Url b with
  | Some (Some e) => refuse 400 codeBadRequest (err_message e)
  | _ =>
    events ← match wpb_Events b with
             | Some es => es ← validateWebhookEvents es; mret (Some es)
             | None => mret None
             end;
    enc ← match wpb_Secret b with
          | Some secret => if bool_decide (secret = "") then mret None
                           else e ← encryptClientSecret secret; mret (Some e)
          | None => mret None
          end;
    or_not_found "webhook"
      (call_store (PgMisc.UpdateWebhook webhookId
         {| wu_Type := type_; wu_Name := wpb_Name b; wu_URL := wpb_Url b; wu_Events := events;
            wu_SecretSet := is_some (wpb_Secret b); wu_SecretEnc := enc;
            wu_Enabled := wpb_Enabled b |}
         [audit_entry p "webhook.update" "webhook" webhookId None]))
      (λ updated, reply 200 (BWebhook (toWebhook updated)))
  end.

Definition DeleteWebhook (p : option Principal) (webhookId : uuid) : H response :=
  or_not_found "webhook"
    (call_store (PgMisc.DeleteWebhook webhookId [audit_entry p "webhook.delete" "webhook" webhookId None]))
    (λ _, reply 204 BNone).

(** [webhooks] is nil when no dispatcher is wired. *)
Definition TestWebhook (webhooks : option WebhookTester) (webhookId : uuid) : H response :=
  or_not_found "webhook" (call_store (GetWebhook webhookId)) (λ wh,
    match webhooks with
    | None => reply 200 (BWebhookTest false "webhook dispatcher not available")
    | Some t =>
      '(ok, msg) ← must (call_store (wt_SendTest t wh));
      reply 200 (BWebhookTest ok msg)
    end).

(** ** The price list *)

Definition GetBillingSettings : H response :=
  b ← must (call_store PgMisc.GetBillingSettings);
  reply 200 (BBillingSettings (toBillingSettings b)).

Definition negative (o : option Z) : bool := match o with Some v => (v <? 0)%Z | None => false end.

Definition UpdateBillingSettings (p : option Principal) (upd : BillingSettingsUpdate) : H response :=
  let bad := refuse 400 codeBadRequest in
  if negative (bu_PricePerGiBMicro upd) then bad "pricePerGibMicro must be >= 0"
  else if negative (bu_PricePerMillionItemsMicro upd)
  then bad "pricePerMillionItemsMicro must be >= 0"
  else if match bu_Currency upd with Some c => negb (String.length c =? 3) | None => false end
  then bad "currency must be a 3-letter code"
  else
    updated ← must (call_store (PgMisc.UpdateBillingSettings upd (actorID p)
      [{| e_ActorUserID := actorID p; e_ActorType := ""; e_Action := "billing.settings.update";
          e_EntityType := "billing_settings"; e_EntityID := "singleton"; e_CustomerID := None;
          e_Payload := None |}]));
    reply 200 (BBillingSettings (toBillingSettings updated)).

(** ** The audit log *)

Definition ListAuditLog (params : ListAuditLogParams) : H response :=
  page ← must (call_store (ServeAuditLog params));
  reply 200 (BAudit page).

End ApiAdmin.
End Admin.
