(* ===== verification/ApiRoutes.v ===== *)
(** * Routing of the management API (internal/api/apigen, router.go)

    The operations of the OpenAPI contract that the model covers, with their
    decoded parameters and bodies, the method and path each is registered
    under, and the guarded server: the Guard in front of every handler.  The
    read-only telemetry endpoints (stats, logs, traces, the statement) are in
    ApiTelemetry, the provider listings and the two connectivity tests in
    ApiProviders. *)
From Stdlib Require Import Ascii.
From S2P Require Import Prelude GoStrings Store World Tenants GoText Json Catalog PipelineGraph Render Validate PipelineService AuditLog Auth ApiTypes ApiGuard ApiHandlers ApiAdmin.

Import Api.

Inductive operation :=
  | OpGetMe
  | OpDevLogin (email : string)
  | OpLogout
  | OpListCustomers (status : option string)
  | OpCreateCustomer (name : string) (slug : option string)
  | OpGetCustomer (id : uuid)
  | OpUpdateCustomer (id : uuid) (b : CustomerPatch)
  | OpDeleteCustomer (id : uuid)
  | OpListApiKeys (customerId : uuid)
  | OpCreateApiKey (customerId : uuid) (name : string) (expiresAt : option time)
  | OpRevokeApiKey (customerId keyId : uuid)
  | OpGetComponentCatalog
  | OpListPipelines
  | OpListCustomerPipelines (customerId : uuid)
  | OpCreatePipeline (customerId : uuid) (name : string) (targetClass : option string) (g : Graph)
  | OpGetPipeline (pipelineId : uuid)
  | OpDeletePipeline (pipelineId : uuid)
  | OpValidatePipeline (targetClass : option string) (g : Graph)
  | OpCreatePipelineVersion (pipelineId : uuid) (g : Graph)
  | OpGetPipelineVersion (pipelineId : uuid) (version : Z)
  | OpActivatePipelineVersion (pipelineId : uuid) (version : Z)
  | OpListAgents (f : AgentFilter)
  | OpGetAgent (agentId : uuid)
  | OpDeleteAgent (agentId : uuid)
  | OpUpdateAgent (agentId : uuid) (displayName : option string) (labels : option (gmap string string))
  | OpSyncAgent (agentId : uuid)
  | OpGetAgentConfig (agentId : uuid)
  | OpListAgentEvents (agentId : uuid) (limit : option Z)
  | OpListBootstrapTokens (customerId : uuid)
  | OpCreateBootstrapToken (customerId : uuid) (name : string) (expiresAt : option time) (maxUses : option Z)
  | OpRevokeBootstrapToken (customerId tokenId : uuid)
  | OpListUsers
  | OpInviteUser (email role : string) (customerIds : option (list uuid))
  | OpUpdateUser (userId : uuid) (role : option string) (disabled : option bool)
      (customerIds : option (list uuid))
  | OpDeleteUser (userId : uuid)
  | OpCreateAuthProviderConfig (b : Admin.NewProviderBody)
  | OpUpdateAuthProviderConfig (providerId : uuid) (b : Admin.ProviderPatch)
  | OpDeleteAuthProviderConfig (providerId : uuid)
  | OpListApiTokens
  | OpCreateApiToken (name role : string) (expiresAt : option time)
  | OpRevokeApiToken (tokenId : uuid)
  | OpListWebhooks
  | OpCreateWebhook (b : Admin.NewWebhookBody)
  | OpUpdateWebhook (webhookId : uuid) (b : Admin.WebhookPatch)
  | OpDeleteWebhook (webhookId : uuid)
  | OpGetBillingSettings
  | OpUpdateBillingSettings (upd : BillingSettingsUpdate)
  | OpListAuditLog (params : ListAuditLogParams).

(** The path of a resource below a collection. *)
Definition below (collection : string) (id : uuid) (rest : string) : string :=
  "/api/v1/" +:+ collection +:+ "/" +:+ uuid_String id +:+ rest.

(** The routes [HandlerWithOptions] registers: method and path. *)
Definition route (op : operation) : string * string :=
  match op with
  | OpGetMe => ("GET", "/api/v1/me")
  | OpDevLogin _ => ("POST", "/api/v1/auth/dev-login")
  | OpLogout => ("POST", "/api/v1/auth/logout")
  | OpListCustomers _ => ("GET", "/api/v1/customers")
  | OpCreateCustomer _ _ => ("POST", "/api/v1/customers")
  | OpGetCustomer id => ("GET", below "customers" id "")
  | OpUpdateCustomer id _ => ("PATCH", below "customers" id "")
  | OpDeleteCustomer id => ("DELETE", below "customers" id "")
  | OpListApiKeys id => ("GET", below "customers" id "/api-keys")
  | OpCreateApiKey id _ _ => ("POST", below "customers" id "/api-keys")
  | OpRevokeApiKey id key => ("DELETE", below "customers" id ("/api-keys/" +:+ uuid_String key))
  | OpGetComponentCatalog => ("GET", "/api/v1/catalog/components")
  | OpListPipelines => ("GET", "/api/v1/pipelines")
  | OpListCustomerPipelines id => ("GET", below "customers" id "/pipelines")
  | OpCreatePipeline id _ _ _ => ("POST", below "customers" id "/pipelines")
  | OpGetPipeline id => ("GET", below "pipelines" id "")
  | OpDeletePipeline id => ("DELETE", below "pipelines" id "")
  | OpValidatePipeline _ _ => ("POST", "/api/v1/pipelines/validate")
  | OpCreatePipelineVersion id _ => ("POST", below "pipelines" id "/versions")
  | OpGetPipelineVersion id v => ("GET", below "pipelines" id ("/versions/" +:+ Itoa v))
  | OpActivatePipelineVersion id v =>
    ("POST", below "pipelines" id ("/versions/" +:+ Itoa v +:+ "/activate"))
  | OpListAgents _ => ("GET", "/api/v1/agents")
  | OpGetAgent id => ("GET", below "agents" id "")
  | OpDeleteAgent id => ("DELETE", below "agents" id "")
  | OpUpdateAgent id _ _ => ("PATCH", below "agents" id "")
  | OpSyncAgent id => ("POST", below "agents" id "/sync")
  | OpGetAgentConfig id => ("GET", below "agents" id "/config")
  | OpListAgentEvents id _ => ("GET", below "agents" id "/events")
  | OpListBootstrapTokens id => ("GET", below "customers" id "/bootstrap-tokens")
  | OpCreateBootstrapToken id _ _ _ => ("POST", below "customers" id "/bootstrap-tokens")
  | OpRevokeBootstrapToken id t =>
    ("DELETE", below "customers" id ("/bootstrap-tokens/" +:+ uuid_String t))
  | OpListUsers => ("GET", "/api/v1/users")
  | OpInviteUser _ _ _ => ("POST", "/api/v1/users")
  | OpUpdateUser id _ _ _ => ("PATCH", below "users" id "")
  | OpDeleteUser id => ("DELETE", below "users" id "")
  | OpCreateAuthProviderConfig _ => ("POST", "/api/v1/settings/auth-providers")
  | OpUpdateAuthProviderConfig id _ => ("PATCH", below "settings/auth-providers" id "")
  | OpDeleteAuthProviderConfig id => ("DELETE", below "settings/auth-providers" id "")
  | OpListApiTokens => ("GET", "/api/v1/settings/api-tokens")
  | OpCreateApiToken _ _ _ => ("POST", "/api/v1/settings/api-tokens")
  | OpRevokeApiToken id => ("DELETE", below "settings/api-tokens" id "")
  | OpListWebhooks => ("GET", "/api/v1/settings/webhooks")
  | OpCreateWebhook _ => ("POST", "/api/v1/settings/webhooks")
  | OpUpdateWebhook id _ => ("PATCH", below "settings/webhooks" id "")
  | OpDeleteWebhook id => ("DELETE", below "settings/webhooks" id "")
  | OpGetBillingSettings => ("GET", "/api/v1/settings/billing")
  | OpUpdateBillingSettings _ => ("PUT", "/api/v1/settings/billing")
  | OpListAuditLog _ => ("GET", "/api/v1/audit")
  end.

Section Server.
Context {ENV : Env} {SM : SessionManager} {UP : UuidParse} {D : Type} `{!Distributor D}.
Context {SCHEMA : JSONSchema} {YML : YAML} {COL : OtelCol} {NET : NetURL} {CERT : X509}.
Context (unicode_print : N → bool) (cfg : ApiCfg).

Abbreviation H := (M (apistate D sess) herror).

(** The strict server: each operation to its handler. *)
Definition handle (op : operation) (p : option Principal) : H response :=
  match op with
  | OpGetMe => GetMe p
  | OpDevLogin email => DevLogin cfg email
  | OpLogout => Logout
  | OpListCustomers status => ListCustomers p status
  | OpCreateCustomer name slug => CreateCustomer p name slug
  | OpGetCustomer id => GetCustomer p id
  | OpUpdateCustomer id b => UpdateCustomer p id b
  | OpDeleteCustomer id => DeleteCustomer p id
  | OpListApiKeys id => ListApiKeys p id
  | OpCreateApiKey id name expiresAt => CreateApiKey p id name expiresAt
  | OpRevokeApiKey id key => RevokeApiKey p id key
  | OpGetComponentCatalog => GetComponentCatalog
  | OpListPipelines => ListPipelines p
  | OpListCustomerPipelines id => ListCustomerPipelines p id
  | OpCreatePipeline id name tc g => CreatePipeline unicode_print cfg p id name tc g
  | OpGetPipeline id => GetPipeline p id
  | OpDeletePipeline id => DeletePipeline unicode_print cfg p id
  | OpValidatePipeline tc g => ValidatePipeline unicode_print cfg tc g
  | OpCreatePipelineVersion id g => CreatePipelineVersion unicode_print cfg p id g
  | OpGetPipelineVersion id v => GetPipelineVersion p id v
  | OpActivatePipelineVersion id v => ActivatePipelineVersion unicode_print cfg p id v
  | OpListAgents f => ListAgents p f
  | OpGetAgent id => GetAgent p id
  | OpDeleteAgent id => DeleteAgent p id
  | OpUpdateAgent id name labels => UpdateAgent p id name labels
  | OpSyncAgent id => SyncAgent cfg p id
  | OpGetAgentConfig id => GetAgentConfig unicode_print cfg p id
  | OpListAgentEvents id limit => ListAgentEvents p id limit
  | OpListBootstrapTokens id => ListBootstrapTokens p id
  | OpCreateBootstrapToken id name expiresAt maxUses => CreateBootstrapToken p id name expiresAt maxUses
  | OpRevokeBootstrapToken id t => RevokeBootstrapToken p id t
  | OpListUsers => Admin.ListUsers
  | OpInviteUser email role ids => Admin.InviteUser unicode_print p email role ids
  | OpUpdateUser id role disabled ids => Admin.UpdateUser unicode_print p id role disabled ids
  | OpDeleteUser id => Admin.DeleteUser p id
  | OpCreateAuthProviderConfig b => Admin.CreateAuthProviderConfig unicode_print cfg p b
  | OpUpdateAuthProviderConfig id b => Admin.UpdateAuthProviderConfig cfg p id b
  | OpDeleteAuthProviderConfig id => Admin.DeleteAuthProviderConfig p id
  | OpListApiTokens => Admin.ListApiTokens
  | OpCreateApiToken name role expiresAt => Admin.CreateApiToken unicode_print p name role expiresAt
  | OpRevokeApiToken id => Admin.RevokeApiToken p id
  | OpListWebhooks => Admin.ListWebhooks
  | OpCreateWebhook b => Admin.CreateWebhook cfg p b
  | OpUpdateWebhook id b => Admin.UpdateWebhook cfg p id b
  | OpDeleteWebhook id => Admin.DeleteWebhook p id
  | OpGetBillingSettings => Admin.GetBillingSettings
  | OpUpdateBillingSettings upd => Admin.UpdateBillingSettings p upd
  | OpListAuditLog params => Admin.ListAuditLog params
  end.

(** A request for an operation: its route, and the two headers the Guard reads. *)
Definition request (op : operation) (authorization csrf : string) : Request := {|
  rq_Method := (route op).1; rq_Path := (route op).2;
  rq_Authorization := authorization; rq_CSRF := csrf |}.

Definition serve (op : operation) (authorization csrf : string) : H response :=
  Guard (handle op) (request op authorization csrf).

End Server.
