(* ===== verification/ApiFrame.v ===== *)
(** * What API handlers change

    Frame reasoning for the handlers: a preorder [Q] on the tables is kept by
    a handler as soon as every statement it can issue keeps it.  The lemmas
    follow the structure of handlers, of store operations and of transactions;
    [frame_tac] walks down to the statements.  At the end: the concrete
    deployment the witnesses of the API theorems run in. *)
From S2P Require Import Prelude GoStrings Store World PgCore PgUsers PgFleet PgPipelines PgMisc Tokens Tenants GoText Json Catalog PipelineGraph Render Validate Crypto Secrets SecretsProps PipelineService PipelineServiceProps AuditLog Auth ApiTypes ApiGuard ApiHandlers ApiAdmin ApiRoutes.

(** The world of a handler's state, and its tables. *)
Definition world_of {D sess} (s : apistate D sess) : world := ss_w (as_svc s).
Definition tables {D sess} (s : apistate D sess) : db := w_db (world_of s).

Definition on_world (Q : relation db) : relation world := λ w w', Q (w_db w) (w_db w').
Definition on_svc {D} (Q : relation db) : relation (svcstate D) :=
  λ s s', Q (w_db (ss_w s)) (w_db (ss_w s')).
Definition on_api {D sess} (Q : relation db) : relation (apistate D sess) :=
  λ s s', Q (tables s) (tables s').

#[export] Instance on_world_preorder Q `{!PreOrder Q} : PreOrder (on_world Q).
Proof. split; unfold on_world; repeat intro; [reflexivity|by etrans]. Qed.
#[export] Instance on_svc_preorder {D} Q `{!PreOrder Q} : PreOrder (@on_svc D Q).
Proof. split; unfold on_svc; repeat intro; [reflexivity|by etrans]. Qed.
#[export] Instance on_api_preorder {D sess} Q `{!PreOrder Q} : PreOrder (@on_api D sess Q).
Proof. split; unfold on_api; repeat intro; [reflexivity|by etrans]. Qed.

(** [Q] does not look at the audit log. *)
Class LogFree (Q : relation db) : Prop :=
  log_free d f : Q d (d <| audit_log ::= f |>).

(** ** Store operations *)

Section Store.
Context {ENV : Env} (Q : relation db) `{!PreOrder Q}.

Lemma tables_stmt {A} (f : time → db → (db * A) + error) :
  (∀ t d d' a, f t d = inl (d', a) → Q d d') → steps (on_world Q) (stmt f).
Proof.
  intros Hf w. unfold on_world, stmt, fail_stmt. destruct (fault _ || _); [simpl; reflexivity|].
  destruct (f _ _) as [[d a]|e] eqn:E; simpl; [by eapply Hf|reflexivity].
Qed.

Lemma tables_exec f : (∀ t d, Q d (f t d).1) → steps (on_world Q) (exec f).
Proof. intros Hf. apply tables_stmt. intros t d d' a [= E]. specialize (Hf t d). by rewrite E in Hf. Qed.

Lemma tables_readonly {A} (m : Op A) : readonly m → steps (on_world Q) m.
Proof. intros Hr w. unfold on_world. rewrite Hr. reflexivity. Qed.

Lemma tables_inTx {A} (m : Op A) : steps (on_world Q) m → steps (on_world Q) (inTx m).
Proof.
  intros Hm w. unfold on_world, inTx. destruct (fault (w_tick w)); [simpl; reflexivity|].
  specialize (Hm (w <| w_tick ::= S |> <| w_txtime := Some (clock (w_tick w)) |>)).
  unfold on_world in Hm. destruct (m _) as [[a|e] w2]; simpl in *; [|reflexivity].
  case_match; simpl; [reflexivity|done].
Qed.

Lemma tables_wrapErr {A} msg (m : Op A) : steps (on_world Q) m → steps (on_world Q) (wrapErr msg m).
Proof.
  intros Hm. unfold wrapErr. apply steps_bind; [typeclasses eauto|by apply steps_try|].
  intros [a|er]; [apply steps_ret|apply steps_throw]; typeclasses eauto.
Qed.

Lemma tables_onErr {A} f (m : Op A) : steps (on_world Q) m → steps (on_world Q) (onErr f m).
Proof.
  intros Hm. unfold onErr. apply steps_bind; [typeclasses eauto|by apply steps_try|].
  intros [a|er]; [apply steps_ret|apply steps_throw]; typeclasses eauto.
Qed.

Lemma tables_Write `{!LogFree Q} es : steps (on_world Q) (Write es).
Proof.
  apply steps_for; [typeclasses eauto|]. intros e. apply tables_wrapErr. intros w.
  unfold on_world, insert_audit, fail_stmt. destruct (fault _ || _); [simpl; reflexivity|].
  case_bool_decide; simpl; [apply (log_free _ (λ l, l ++ [_]))|reflexivity].
Qed.

End Store.

(** ** Handlers *)

Section Handlers.
Context {ENV : Env} {SM : SessionManager} {D : Type} (Q : relation db) `{!PreOrder Q}.

Abbreviation H := (M (apistate D sess) herror).
Abbreviation R := (@on_api D sess Q).

Lemma frame_on_store {A} (m : Op A) : steps (on_world Q) m → steps (@on_svc D Q) (on_store m).
Proof. intros Hm s. specialize (Hm (ss_w s)). unfold on_store. by destruct (m (ss_w s)). Qed.

Lemma frame_on_dist {A} (m : M D error A) : steps (@on_svc D Q) (on_dist m).
Proof. intros s. unfold on_dist, on_svc. destruct (m (ss_dist s)). simpl. reflexivity. Qed.

Lemma frame_call_svc {A} (m : M (svcstate D) error A) : steps (on_svc Q) m → steps R (call_svc m : H _).
Proof. intros Hm s. specialize (Hm (as_svc s)). unfold call_svc. by destruct (m (as_svc s)). Qed.

Lemma frame_call_store {A} (m : Op A) : steps (on_world Q) m → steps R (call_store m : H _).
Proof. intros Hm. by apply frame_call_svc, frame_on_store. Qed.

Definition sess_only {A} (m : M (world * sess) error A) : Prop := ∀ s, w_db (m s).2.1 = w_db s.1.

Lemma frame_call_sess {A} (m : M (world * sess) error A) : sess_only m → steps R (call_sess m : H _).
Proof.
  intros Hm s. specialize (Hm (ss_w (as_svc s), as_sess s)). unfold call_sess, on_api, tables, world_of.
  destruct (m _) as [r [w se]]. simpl in *. rewrite Hm. reflexivity.
Qed.

Lemma frame_must {A} (m : H (A + error)) : steps R m → steps R (must m).
Proof.
  intros Hm. apply steps_bind; [typeclasses eauto|done|].
  intros [a|e]; [apply steps_ret|apply steps_throw]; typeclasses eauto.
Qed.

Lemma frame_or_not_found {A} what (m : H (A + error)) (k : A → H response) :
  steps R m → (∀ a, steps R (k a)) → steps R (Api.or_not_found what m k).
Proof.
  intros Hm Hk. apply steps_bind; [typeclasses eauto|done|].
  intros [a|e]; [apply Hk|]. destruct (Is _ _); [apply steps_ret|apply steps_throw]; typeclasses eauto.
Qed.

Lemma frame_ResponseErrorHandler (m : H response) : steps R m → steps R (ResponseErrorHandler m).
Proof. intros Hm s. specialize (Hm s). unfold ResponseErrorHandler. by destruct (m s) as [[r|[e|e|e]] s']. Qed.

End Handlers.

(** ** Sessions touch no table *)

Section SessionFrame.
Context {ENV : Env} {SM : SessionManager} {UP : UuidParse}.

Lemma sess_only_bind {A B} (m : M (world * sess) error A) (f : A → M (world * sess) error B) :
  sess_only m → (∀ a, sess_only (f a)) → sess_only (m ≫= f).
Proof.
  intros Hm Hf s. specialize (Hm s). unfold mbind, M_bind.
  destruct (m s) as [[a|e] s1]; simpl in *; [|done]. by rewrite Hf.
Qed.

Lemma sess_only_world {A} (m : Op A) : readonly m → sess_only (with_world m).
Proof. intros Hm s. specialize (Hm s.1). unfold with_world. by destruct (m s.1). Qed.

Lemma sess_only_step f : sess_only (sess_step f).
Proof. intros s. unfold sess_step. by destruct (f s.2). Qed.

Lemma readonly_newToken : readonly newToken.
Proof. unfold newToken. atomic_tac. Qed.

Lemma sess_only_CSRFToken : sess_only CSRFToken.
Proof.
  unfold CSRFToken. apply sess_only_bind; [done|]. intros tok. case_match; [|done].
  apply sess_only_bind; [apply sess_only_world, readonly_newToken|]. intros; done.
Qed.

Lemma sess_only_Login u : sess_only (Login u).
Proof.
  unfold Login, renew_session, bind_session. apply sess_only_bind.
  - intros s. unfold mtry. pose proof (sess_only_step RenewToken s) as H.
    unfold mbind, M_bind. simpl in *. destruct (sess_step _ s) as [[a|e] s1]; done.
  - intros []. apply sess_only_bind; [done|]. intros _.
    apply sess_only_bind; [apply sess_only_world, readonly_newToken|done].
Qed.

Lemma sess_only_Logout : sess_only sess_Logout.
Proof. apply sess_only_step. Qed.

End SessionFrame.

(** ** Walking down a handler *)

Create HintDb frame discriminated.
#[export] Hint Resolve frame_on_dist tables_Write sess_only_CSRFToken sess_only_Login
  sess_only_Logout : frame.
#[export] Hint Extern 1 (PreOrder _) => typeclasses eauto : frame.
#[export] Hint Extern 1 (LogFree _) => typeclasses eauto : frame.

Ltac frame_step :=
  lazymatch goal with
  | |- steps _ (_ ≫= _) => apply steps_bind; [typeclasses eauto| |intros ?]
  | |- steps _ (mret _) => apply steps_ret; typeclasses eauto
  | |- steps _ (mthrow _) => apply steps_throw; typeclasses eauto
  | |- steps _ (mgets _) => apply steps_gets; typeclasses eauto
  | |- steps _ (fail _) => apply steps_throw; typeclasses eauto
  | |- steps _ (bad_request _) => apply steps_throw; typeclasses eauto
  | |- steps _ (Api.reply _ _) => apply steps_ret; typeclasses eauto
  | |- steps _ (Api.refuse _ _ _) => apply steps_ret; typeclasses eauto
  | |- steps _ (Api.not_found _) => apply steps_ret; typeclasses eauto
  | |- steps _ (deny _ _ _) => apply steps_ret; typeclasses eauto
  | |- steps _ (mfor _ _) => apply steps_for; [typeclasses eauto|intros ?]
  | |- steps _ (mtry _) => apply steps_try
  | |- steps _ (mwhen _ _) => apply steps_when; [typeclasses eauto|]
  | |- steps _ (must _) => apply frame_must; [typeclasses eauto|]
  | |- steps _ (Api.or_not_found _ _ _) => apply frame_or_not_found; [typeclasses eauto| |intros ?]
  | |- steps _ (call_store _) => apply frame_call_store
  | |- steps _ (call_svc _) => apply frame_call_svc
  | |- steps _ (call_sess _) => apply frame_call_sess; [typeclasses eauto|]
  | |- steps _ (on_store _) => apply frame_on_store
  | |- steps _ (inTx _) => apply tables_inTx; [typeclasses eauto|]
  | |- steps _ (wrapErr _ _) => apply tables_wrapErr; [typeclasses eauto|]
  | |- steps _ (onErr _ _) => apply tables_onErr; [typeclasses eauto|]
  | |- steps _ (match ?x with _ => _ end) => destruct x
  | |- steps _ (let _ := _ in _) => cbv zeta
  end.

(** What is left are the store operations and statements that the databases
    do not know. *)
Ltac frame_tac :=
  repeat first
    [ solve [eauto 2 with frame]
    | solve [apply tables_readonly; [typeclasses eauto|]; eauto 3 with atomic]
    | frame_step ].

(** ** Reads *)

Section Reads.
Context {ENV : Env}.

Lemma readonly_GetCustomer id : readonly (GetCustomer id).
Proof. unfold GetCustomer. atomic_tac. Qed.

Lemma readonly_GetUser id : readonly (GetUser id).
Proof. unfold GetUser. atomic_tac. Qed.

Lemma readonly_ListAPIKeys id : readonly (ListAPIKeys id).
Proof. unfold ListAPIKeys. apply readonly_bind; [apply readonly_GetCustomer|intros; atomic_tac]. Qed.

Lemma readonly_ListBootstrapTokens id : readonly (PgFleet.ListBootstrapTokens id).
Proof. unfold PgFleet.ListBootstrapTokens. apply readonly_bind; [apply readonly_GetCustomer|intros; atomic_tac]. Qed.

Lemma readonly_GetPipeline id : readonly (PgPipelines.GetPipeline id).
Proof. unfold PgPipelines.GetPipeline, select_pipeline. atomic_tac. Qed.

Lemma readonly_GetPipelineVersion id n : readonly (PgPipelines.GetPipelineVersion id n).
Proof. unfold PgPipelines.GetPipelineVersion, select_version. atomic_tac. Qed.

Lemma readonly_GetAgent id : readonly (PgFleet.GetAgent id).
Proof. unfold PgFleet.GetAgent. atomic_tac. Qed.

Lemma readonly_ListAgentEvents id n : readonly (PgFleet.ListAgentEvents id n).
Proof. unfold PgFleet.ListAgentEvents. apply readonly_bind; [apply readonly_GetAgent|intros; atomic_tac]. Qed.

Lemma readonly_GetBillingSettings : readonly PgMisc.GetBillingSettings.
Proof. unfold PgMisc.GetBillingSettings. atomic_tac. Qed.

Lemma readonly_GetAuthProvider id : readonly (GetAuthProvider id).
Proof. unfold GetAuthProvider. atomic_tac. Qed.

Lemma readonly_GetUserWithIdentities id : readonly (GetUserWithIdentities id).
Proof. unfold GetUserWithIdentities, select_user. atomic_tac. Qed.

Lemma readonly_generators :
  readonly GenerateAPIKey ∧ readonly GenerateBootstrapToken ∧ readonly GenerateAPIToken
  ∧ readonly Tenants.NewClientID.
Proof.
  unfold GenerateAPIKey, GenerateBootstrapToken, GenerateAPIToken, Tenants.NewClientID.
  split_and!; atomic_tac.
Qed.

Lemma readonly_GenerateAPIKey : readonly GenerateAPIKey.
Proof. apply readonly_generators. Qed.
Lemma readonly_GenerateBootstrapToken : readonly GenerateBootstrapToken.
Proof. apply readonly_generators. Qed.
Lemma readonly_GenerateAPIToken : readonly GenerateAPIToken.
Proof. apply readonly_generators. Qed.
Lemma readonly_NewClientID : readonly Tenants.NewClientID.
Proof. apply readonly_generators. Qed.

Lemma readonly_authenticateAPIToken auth : readonly (authenticateAPIToken auth).
Proof.
  unfold authenticateAPIToken. repeat case_match; try apply readonly_ret.
  apply readonly_bind; [apply readonly_try, readonly_query|]. intros [toks|e]; atomic_tac.
Qed.

Lemma readonly_ServeAuditLog params : readonly (ServeAuditLog params).
Proof. unfold ServeAuditLog, PgMisc.ListAuditLog. atomic_tac. Qed.

Lemma readonly_NewRandomKeyBase64 : readonly NewRandomKeyBase64.
Proof. unfold NewRandomKeyBase64. atomic_tac. Qed.

Lemma readonly_Encrypt c plaintext : readonly (Encrypt c plaintext).
Proof. unfold Encrypt. atomic_tac. Qed.

Lemma readonly_countEdgeAgents c : readonly (countEdgeAgents c).
Proof. unfold countEdgeAgents. apply readonly_bind; [apply readonly_try, readonly_query|]. intros [l|e]; apply readonly_ret. Qed.

Context (pr : N → bool) {SCHEMA : JSONSchema} {YML : YAML} {COL : OtelCol}.

Lemma readonly_RenderCurrent cfg : readonly (RenderCurrent pr cfg).
Proof. unfold RenderCurrent. apply readonly_bind; [apply readonly_activeRenderPipelines|intros; apply readonly_lift_sum]. Qed.

Lemma readonly_svc_RenderEdgeCurrent cfg c : readonly (svc_RenderEdgeCurrent pr cfg c).
Proof. unfold svc_RenderEdgeCurrent. apply readonly_bind; [apply readonly_activeRenderPipelines|intros; apply readonly_lift_sum]. Qed.

Lemma readonly_ValidateDraft cfg tc g : readonly (ValidateDraft pr cfg tc g).
Proof.
  unfold ValidateDraft. apply readonly_bind; [|intros; apply readonly_validate].
  case_match; [apply readonly_ret|]. apply readonly_bind; [|intros; apply readonly_ret].
  apply readonly_try, readonly_activeRenderPipelines.
Qed.

End Reads.

#[export] Hint Resolve readonly_GetCustomer readonly_GetUser readonly_ListAPIKeys
  readonly_ListBootstrapTokens readonly_GetPipeline readonly_GetPipelineVersion readonly_GetAgent
  readonly_ListAgentEvents readonly_GetBillingSettings readonly_GetAuthProvider
  readonly_GetUserWithIdentities readonly_GenerateAPIKey readonly_GenerateBootstrapToken
  readonly_GenerateAPIToken readonly_NewClientID readonly_authenticateAPIToken
  readonly_ServeAuditLog readonly_NewRandomKeyBase64 readonly_Encrypt readonly_countEdgeAgents
  readonly_RenderCurrent readonly_svc_RenderEdgeCurrent readonly_ValidateDraft
  readonly_prepare readonly_lift_sum : atomic.

(** ** A concrete deployment of the management API

    The worlds the witnesses of the API theorems run in: concrete instances of
    the classes, two customers, a pipeline of the first, and an operator whose
    grants name the second. *)
From S2P Require Import RenderProps.

Import Api.

Definition demo_SM : SessionManager := {|
  sess := gmap string string;
  GetString s k := default "" (s !! k);
  Put s k v := <[k := v]> s;
  Remove s k := delete k s;
  RenewToken s := inl s;
  Destroy _ := inl ∅ |}.

Definition demo_UP : UuidParse :=
  {| uuid_Parse s := find (λ u, bool_decide (uuid_String u = s)) [7%N; 8%N] |}.
Definition demo_NET : NetURL :=
  {| url_Parse s := inl {| tgt_Scheme := "https"; tgt_Hostname := s |}; net_ParseIP _ := None |}.
Definition demo_CERT : X509 := {| pem_Decode _ := None; ParseCertificate _ := None |}.
Definition demo_api : ApiCfg := {|
  api_DevLogin := false; api_AdminEmails := []; api_BaseURL := "https://otel.example";
  api_Svc := demo_cfg |}.

Definition demo_tenants : world :=
  let w := (@Tenants.CreateCustomer quiet_env None "Globex" None demo_draft).2 in
  let w := (@CreateInvitedUser quiet_env 8 "root@otel.example" RoleAdmin [] w).2 in
  (@CreateInvitedUser quiet_env 7 "op@globex.example" RoleOperator [] w).2.
Definition demo_other : uuid :=
  default 0%N (head (map c_ID (filter (λ c, c_ID c ≠ demo_customer) (rows (customers (w_db demo_tenants)))))).
Definition demo_granted : world :=
  (@SetUserCustomerGrants quiet_env 7 [demo_other] [] demo_tenants).2.

(** A request of a user who is signed in. *)
Definition signed_in (u : uuid) : apistate string (gmap string string) := {|
  as_svc := Build_svcstate demo_granted "" [];
  as_sess := {[sessUserID := uuid_String u; sessCSRF := "token"]} |}.
Definition demo_state := signed_in 7.

Section Demo.
Context (faulty : nat → bool).

(** The quiet environment with the statements of the given ticks failing. *)
Definition faulty_env : Env := {|
  fault := faulty; newuuid := @newuuid quiet_env; randfail := @randfail quiet_env;
  randbyte := @randbyte quiet_env; clock := @clock quiet_env; text_leb := @text_leb quiet_env;
  unicode_lower := @unicode_lower quiet_env; pg_lower := @pg_lower quiet_env |}.

Definition serve_as (u : uuid) (op : operation) :=
  @serve faulty_env demo_SM demo_UP string PublishDistributor accept_schema demo_yaml demo_col
    demo_NET demo_CERT all_print demo_api op "" "token" (signed_in u).
Definition demo_serve := serve_as 7.

Definition demo_guard (op : operation) :=
  @guard faulty_env demo_SM string demo_UP (request op "" "token") demo_state.
End Demo.

Definition no_fault : nat → bool := λ _, false.

Definition demo_principal : Principal :=
  match (demo_guard no_fault (OpDeletePipeline demo_pipeline)).1 with
  | inl (inr (Some p)) => p
  | _ => token_principal "" None
  end.

(** The tick of the statement after the Guard. *)
Definition lookup_tick : nat :=
  w_tick (world_of (demo_guard no_fault (OpDeletePipeline demo_pipeline)).2).
