(* ===== verification/ApiRoles.v ===== *)
(** * Roles in the management API

    Which requests change which tables: without a role that may mutate
    nothing changes, and the tables of users, grants, sign-in providers,
    management tokens and prices only change for administrators. *)
From S2P Require Import Prelude GoStrings Store World PgCore PgUsers PgFleet PgPipelines PgMisc Tokens Tenants GoText Json Catalog PipelineGraph Render Validate Crypto Secrets SecretsProps PipelineService PipelineServiceProps AuditLog Auth ApiTypes ApiGuard ApiHandlers ApiAdmin ApiRoutes StoreCalls StoreInv PipelineInv ApiFrame.

Definition admin_data (d : db) :=
  (users d, user_identities d, user_customer_grants d, auth_providers d, api_tokens d,
   billing_settings d).

Definition same_admin : relation db := λ d d', admin_data d = admin_data d'.

#[export] Instance same_admin_preorder : PreOrder same_admin.
Proof. split; unfold same_admin; repeat intro; [reflexivity|by etrans]. Qed.
#[export] Instance same_admin_log : LogFree same_admin.
Proof. done. Qed.

(** Statements on the other tables. *)
Ltac frame_stmt_tac :=
  first
    [ apply tables_exec; [typeclasses eauto|]; intros; simpl; repeat case_match; simpl; done
    | apply tables_stmt; [typeclasses eauto|]; intros; simpl in *; unfold constrained in *;
      repeat case_match; simplify_eq; done ].

Ltac op_tac := frame_tac; try frame_stmt_tac.

Section Same.
Context {ENV : Env}.

Abbreviation same m := (steps (on_world same_admin) m).

Lemma same_CreateCustomer actor name slug : same (Tenants.CreateCustomer actor name slug).
Proof.
  assert (Hloop : ∀ fuel n base derived k s,
    same (Tenants.create_loop actor n base derived fuel k s)).
  { induction fuel as [|fuel IH]; intros; simpl; [frame_tac|].
    unfold PgCore.CreateCustomer, insertAPIKey. op_tac. all: try apply IH. }
  unfold Tenants.CreateCustomer. frame_tac. all: apply Hloop.
Qed.

Lemma same_UpdateCustomer actor id upd : same (Tenants.UpdateCustomer actor id upd).
Proof. unfold Tenants.UpdateCustomer, PgCore.UpdateCustomer. op_tac. Qed.

Lemma same_DeleteCustomer actor id : same (Tenants.DeleteCustomer actor id).
Proof. unfold Tenants.DeleteCustomer, SoftDeleteCustomer. op_tac. Qed.

Lemma same_CreateAPIKey actor id name t : same (Tenants.CreateAPIKey actor id name t).
Proof. unfold Tenants.CreateAPIKey, PgCore.CreateAPIKey, insertAPIKey. op_tac. Qed.

Lemma same_RevokeAPIKey actor id key : same (Tenants.RevokeAPIKey actor id key).
Proof. unfold Tenants.RevokeAPIKey, PgCore.RevokeAPIKey. op_tac. Qed.

Lemma same_CreateBootstrapToken actor id name t n : same (Tenants.CreateBootstrapToken actor id name t n).
Proof. unfold Tenants.CreateBootstrapToken, PgFleet.CreateBootstrapToken. op_tac. Qed.

Lemma same_RevokeBootstrapToken actor id tok : same (Tenants.RevokeBootstrapToken actor id tok).
Proof. unfold Tenants.RevokeBootstrapToken, PgFleet.RevokeBootstrapToken. op_tac. Qed.

Lemma same_CreatePipeline p v es : same (PgPipelines.CreatePipeline p v es).
Proof. unfold PgPipelines.CreatePipeline, insertPipelineVersion, select_pipeline, select_version_id. op_tac. Qed.

Lemma same_CreatePipelineVersion v es : same (PgPipelines.CreatePipelineVersion v es).
Proof. unfold PgPipelines.CreatePipelineVersion, insertPipelineVersion, select_version_id. op_tac. Qed.

Lemma same_ActivatePipelineVersion pid n es : same (PgPipelines.ActivatePipelineVersion pid n es).
Proof. unfold PgPipelines.ActivatePipelineVersion, select_version, select_pipeline. op_tac. Qed.

Lemma same_DeletePipeline pid es : same (PgPipelines.DeletePipeline pid es).
Proof. unfold PgPipelines.DeletePipeline. op_tac. Qed.

Lemma same_DeleteAgent id es : same (PgFleet.DeleteAgent id es).
Proof. unfold PgFleet.DeleteAgent. op_tac. Qed.

Lemma same_UpdateAgentMeta id n l es : same (UpdateAgentMeta id n l es).
Proof. unfold UpdateAgentMeta, update_agent. op_tac. Qed.

Lemma same_CreateWebhook w es : same (PgMisc.CreateWebhook w es).
Proof. unfold PgMisc.CreateWebhook. op_tac. Qed.

Lemma same_UpdateWebhook id u es : same (PgMisc.UpdateWebhook id u es).
Proof. unfold PgMisc.UpdateWebhook. op_tac. Qed.

Lemma same_DeleteWebhook id es : same (PgMisc.DeleteWebhook id es).
Proof. unfold PgMisc.DeleteWebhook. op_tac. Qed.

Lemma same_WriteAuditEntries es : same (WriteAuditEntries es).
Proof. unfold WriteAuditEntries. op_tac. Qed.

End Same.

#[export] Hint Resolve same_CreateCustomer same_UpdateCustomer same_DeleteCustomer same_CreateAPIKey
  same_RevokeAPIKey same_CreateBootstrapToken same_RevokeBootstrapToken same_CreatePipeline
  same_CreatePipelineVersion same_ActivatePipelineVersion same_DeletePipeline same_DeleteAgent
  same_UpdateAgentMeta same_CreateWebhook same_UpdateWebhook same_DeleteWebhook
  same_WriteAuditEntries : frame.

(** ** Handlers *)

Import Api.

Section Handlers.
Context {ENV : Env} {SM : SessionManager} {UP : UuidParse} {D : Type} `{!Distributor D}.
Context {SCHEMA : JSONSchema} {YML : YAML} {COL : OtelCol} {NET : NetURL} {CERT : X509}.
Context (unicode_print : N → bool) (cfg : ApiCfg).

Abbreviation run op p := (handle (D := D) unicode_print cfg op p).

Section Q.
Context (Q : relation db) `{!PreOrder Q}.

Lemma frame_requireCustomerAccess p c :
  steps (@on_api D sess Q) (requireCustomerAccess p c).
Proof. unfold requireCustomerAccess. frame_tac. Qed.

Lemma frame_requireUnscoped p : steps (@on_api D sess Q) (requireUnscoped p).
Proof. unfold requireUnscoped. frame_tac. Qed.

Lemma frame_requirePipelineAccess p id :
  steps (@on_api D sess Q) (requirePipelineAccess p id).
Proof. unfold requirePipelineAccess. frame_tac. all: apply frame_requireCustomerAccess. Qed.

Lemma frame_Notify ch pl : steps (@on_svc D Q) (Notify ch pl).
Proof.
  unfold Notify. frame_tac; [|apply steps_modify; intros s; unfold on_svc; simpl; reflexivity].
  apply tables_stmt; [done|]. intros t d d' a [= <- _]. reflexivity.
Qed.

End Q.
#[local] Hint Resolve frame_requireCustomerAccess frame_requireUnscoped
  frame_requirePipelineAccess frame_Notify : frame.

Section Q.
Context (Q : relation db) `{!PreOrder Q}.

Lemma frame_ResyncEdge c : steps (@on_svc D Q) (ResyncEdge (api_Svc cfg) c).
Proof. unfold ResyncEdge, notifyEdge, EdgeConfigChanged. frame_tac. Qed.

Lemma frame_roll_out p : steps (@on_svc D Q) (roll_out unicode_print (api_Svc cfg) p).
Proof. unfold roll_out, distribute. frame_tac. all: apply frame_ResyncEdge. Qed.

Lemma frame_with_agent p id k :
  (∀ a, steps (@on_api D sess Q) (k a)) → steps (@on_api D sess Q) (Api.with_agent p id k).
Proof. intros Hk. unfold Api.with_agent. frame_tac. Qed.

End Q.
#[local] Hint Resolve frame_ResyncEdge frame_roll_out : frame.

(** A request that is no POST, PUT, PATCH or DELETE changes no table, and
    neither do signing out and validating a draft. *)
Lemma reads_change_nothing op p :
  isMutating (route op).1 = false ∨ op = OpLogout →
  steps (on_api eq) (run op p).
Proof.
  intros Hop. destruct op; try (destruct Hop; discriminate); clear Hop; cbn [handle].
  all: unfold GetMe, Logout, ListCustomers, GetCustomer, ListApiKeys, GetComponentCatalog, ListPipelines,
    ListCustomerPipelines, GetPipeline, ValidatePipeline, GetPipelineVersion, ListAgents, GetAgent,
    GetAgentConfig, ListAgentEvents, ListBootstrapTokens, Admin.ListUsers, Admin.ListApiTokens,
    Admin.ListWebhooks, Admin.GetBillingSettings, Admin.ListAuditLog, version_reply.
  all: try (apply frame_with_agent; [typeclasses eauto|intros ?]).
  all: frame_tac.
Qed.

Lemma same_encryptClientSecret secret : steps (@on_api D sess same_admin) (Admin.encryptClientSecret cfg secret).
Proof. unfold Admin.encryptClientSecret. frame_tac. Qed.

Lemma same_Create actor c name tc g :
  steps (on_world same_admin) (Create unicode_print (api_Svc cfg) actor c name tc g).
Proof. unfold Create. frame_tac. Qed.

Lemma same_CreateVersion actor pid g :
  steps (on_world same_admin) (CreateVersion unicode_print (api_Svc cfg) actor pid g).
Proof. unfold CreateVersion. frame_tac. Qed.

Lemma same_Activate actor pid n :
  steps (@on_svc D same_admin) (Activate unicode_print (api_Svc cfg) actor pid n).
Proof. unfold Activate. frame_tac. Qed.

Lemma same_Delete actor pid :
  steps (@on_svc D same_admin) (PipelineService.Delete unicode_print (api_Svc cfg) actor pid).
Proof. unfold PipelineService.Delete. frame_tac. Qed.

#[local] Hint Resolve same_encryptClientSecret same_Create same_CreateVersion same_Activate
  same_Delete : frame.

(** Outside the admin paths and the development login, the administrators'
    tables stay as they are. *)
Lemma writes_spare_admin_data op p :
  isAdminOnlyPath (route op).2 = false → (∀ email, op ≠ OpDevLogin email) →
  steps (on_api same_admin) (run op p).
Proof.
  intros Hop Hdev. destruct op; try discriminate Hop; try (by edestruct Hdev); clear Hop Hdev; cbn [handle].
  all: unfold GetMe, Logout, ListCustomers, GetCustomer, ListApiKeys, GetComponentCatalog, ListPipelines,
    ListCustomerPipelines, GetPipeline, ValidatePipeline, GetPipelineVersion, ListAgents, GetAgent,
    GetAgentConfig, ListAgentEvents, ListBootstrapTokens, Admin.ListWebhooks, version_reply,
    CreateCustomer, UpdateCustomer, DeleteCustomer, CreateApiKey, RevokeApiKey, CreatePipeline,
    DeletePipeline, CreatePipelineVersion, ActivatePipelineVersion, DeleteAgent, UpdateAgent,
    SyncAgent, CreateBootstrapToken, RevokeBootstrapToken, Admin.CreateWebhook, Admin.UpdateWebhook,
    Admin.DeleteWebhook, Admin.validateWebhookEvents, Admin.webhookType, version_reply.
  all: try (apply frame_with_agent; [typeclasses eauto|intros ?]).
  all: frame_tac.
Qed.

(** ** The Guard *)

(** What lets a request act in a role: a management token that is neither
    revoked nor expired, or the session of an enabled user, with the CSRF
    token of the session if the request mutates. *)
Inductive authenticated (s : apistate D sess) (rq : Request) (role : string) : Prop :=
  | by_token raw id row :
    CutPrefix "Bearer " (rq_Authorization rq) = Some raw →
    api_tokens (tables s) !! id = Some row →
    tr_TokenHash row = HashAPIKey raw →
    tr_RevokedAt row = None →
    (∀ exp, tr_ExpiresAt row = Some exp → (clock (S (w_tick (world_of s))) < exp)%Z) →
    tr_Role row = role →
    authenticated s rq role
  | by_session userID user :
    UserID (as_sess s) = Some userID →
    users (tables s) !! userID = Some user →
    u_DisabledAt user = None →
    (isMutating (rq_Method rq) = true → ValidCSRF (as_sess s) (rq_CSRF rq) = true) →
    u_Role user = role →
    authenticated s rq role.

Lemma token_verdict_Some hash now toks role cb :
  token_verdict hash now toks = Some (role, cb) →
  ∃ t, t ∈ toks ∧ ta_TokenHash t = hash ∧ ta_Role t = role
       ∧ ∀ exp, ta_ExpiresAt t = Some exp → (now < exp)%Z.
Proof.
  unfold token_verdict. destruct (find _ toks) as [t|] eqn:E; [|done].
  apply find_some in E as [Hin Hh%bool_decide_eq_true_1]. intros Hv. exists t.
  split; [by apply list_elem_of_In|]. destruct (ta_ExpiresAt t); simplify_eq/=.
  - destruct (now <? _)%Z eqn:Hlt; simplify_eq/=. split_and!; try done.
    intros exp [= <-]. by apply Z.ltb_lt.
  - done.
Qed.

Lemma authenticateAPIToken_inl auth w role cb w' :
  authenticateAPIToken auth w = (inl (Some (role, cb)), w') →
  ∃ raw id row, CutPrefix "Bearer " auth = Some raw ∧ api_tokens (w_db w) !! id = Some row
    ∧ tr_TokenHash row = HashAPIKey raw ∧ tr_RevokedAt row = None ∧ tr_Role row = role
    ∧ ∀ exp, tr_ExpiresAt row = Some exp → (clock (S (w_tick w)) < exp)%Z.
Proof.
  unfold authenticateAPIToken. destruct (CutPrefix _ _) as [raw|]; [|done].
  case_bool_decide; [done|]. destruct (ParseAPITokenPrefix raw) as [prefix|]; [|done].
  intros (r & w1 & Hq%mtry_inl & Hn)%bind_inl. destruct r as [toks|]; [|done].
  apply query_inl in Hq as [-> ->]. apply bind_inl in Hn as (now & w2 & Hn & Hv).
  unfold time_Now, tick in Hn. apply bind_inl in Hn as (n & w3 & [= <- <-] & [= <- <-]).
  apply ret_inl in Hv as [Hv <-]. apply token_verdict_Some in Hv as (t & Hin & Hh & Hr & Hexp).
  apply list_elem_of_omap in Hin as (row & [k Hk]%elem_of_rows & Ht).
  destruct (bool_decide _ && _) eqn:Hb; [|done]. simplify_eq/=.
  apply andb_true_iff in Hb as [_ Hb%is_none_true].
  exists raw, k, row. split_and!; auto.
Qed.

Lemma guard_changes_nothing rq : steps (@on_api D sess eq) (guard rq).
Proof. unfold guard, guard_token, guard_session, with_scope. frame_tac. Qed.

Lemma handler_store_inl {A} (m : Op A) (s : apistate D sess) r s' :
  call_store m s = (inl r, s') →
  ∃ w, m (world_of s) = (r, w) ∧ as_sess s' = as_sess s ∧ world_of s' = w.
Proof.
  unfold call_store, call_svc, on_store, world_of. intros Hc.
  destruct (m _) as [r' w] eqn:E. simplify_eq/=. eauto.
Qed.

Lemma must_inl {A} (m : M (apistate D sess) herror (A + error)) s a s' :
  must m s = (inl a, s') → m s = (inl (inl a), s').
Proof.
  unfold must. intros (r & s1 & Hm & Hr)%bind_inl. destruct r; [|done].
  apply ret_inl in Hr as [-> ->]. done.
Qed.

(** What the Guard lets through: a public path, or a request authenticated in
    a role that the path and the method ask for. *)
Lemma guard_lets_through rq (s : apistate D sess) po s' :
  guard rq s = (inl (inr po), s') →
  tables s' = tables s ∧
  match po with
  | None => rq_Path rq ∈ publicPaths
  | Some p => let role := u_Role (pc_User p) in
              authenticated s rq role ∧ requires_admin rq role = false
              ∧ requires_operator rq role = false
              ∧ (pc_AllCustomers p = false → role ≠ RoleAdmin)
  end.
Proof.
  intros Hg. split; [pose proof (guard_changes_nothing rq s) as Hs; by rewrite Hg in Hs|].
  unfold guard in Hg. case_bool_decide; [by apply ret_inl in Hg as [[= <-] _]|].
  destruct (looksLikeAPIToken _).
  - unfold guard_token in Hg. apply bind_inl in Hg as (r & s1 & Hm & Hg).
    apply must_inl, handler_store_inl in Hm as (w & Hm & _ & _).
    destruct r as [[role cb]|]; [|done].
    destruct (requires_admin rq role) eqn:Ea; [done|].
    destruct (requires_operator rq role) eqn:Eo; [done|].
    apply ret_inl in Hg as [[= <-] _]. simpl. split_and!; try done.
    apply authenticateAPIToken_inl in Hm as (raw & id & row & ? & ? & ? & ? & ? & ?).
    by eapply by_token.
  - unfold guard_session in Hg. apply bind_inl in Hg as (se & s1 & [= <- <-] & Hg).
    destruct (UserID (as_sess s)) as [userID|] eqn:Eu; [|done].
    apply bind_inl in Hg as (r & s2 & Hm & Hg).
    apply handler_store_inl in Hm as (w & Hm & _ & _).
    destruct r as [user|e]; [|by destruct (Is _ _)].
    apply onErr_inl, queryRow_inl in Hm as [Hu _].
    destruct (u_DisabledAt user) eqn:Ed; [done|]. simpl in Hg.
    destruct (requires_admin rq (u_Role user)) eqn:Ea; [done|].
    destruct (isMutating _ && _) eqn:Ec; [done|].
    destruct (requires_operator rq (u_Role user)) eqn:Eo; [done|].
    apply bind_inl in Hg as (tok & s3 & _ & Hg).
    assert (Hauth : authenticated s rq (u_Role user)).
    { eapply by_session; eauto. intros Hmut. rewrite Hmut in Ec. by destruct (ValidCSRF _ _). }
    unfold with_scope in Hg. destruct (AtLeast (u_Role user) RoleAdmin) eqn:El.
    + apply ret_inl in Hg as [[= <-] _]. simpl. done.
    + apply bind_inl in Hg as (g & s4 & _ & Hg). destruct g as [g|]; [|done].
      apply ret_inl in Hg as [[= <-] _]. simpl. split_and!; try done.
      intros _ Hrole. rewrite Hrole in El. discriminate.
Qed.

(** Every operation but the development login is behind a role. *)
Lemma route_not_public op authorization csrf :
  rq_Path (request op authorization csrf) ∈ publicPaths → ∃ email, op = OpDevLogin email.
Proof. unfold request, publicPaths; simpl. rewrite !elem_of_cons, elem_of_nil. destruct op; simpl; intros [Hp|[Hp|[]]]; try discriminate Hp; eauto. Qed.

Lemma route_not_logout op : (route op).2 = logoutPath → op = OpLogout.
Proof. destruct op; simpl; intros Hp; try discriminate Hp; done. Qed.

#[global] Instance dev_login_dec op : Decision (∃ email, op = OpDevLogin email).
Proof. destruct op; solve [left; eauto | right; intros [? ?]; discriminate]. Defined.

#[global] Instance logout_dec op : Decision (op = OpLogout).
Proof. destruct op; solve [by left | by right]. Defined.

(** C25: Access control of the management API: a request changes no table
    unless it is the development login and that is switched on, or it carries
    an unrevoked, unexpired token or the session of an enabled user with the
    session's CSRF token, in the operator or the admin role; and the users,
    identities, grants, sign-in providers, management tokens and prices only
    change in the admin role. *)
Theorem api_roles op authorization csrf (s : apistate D sess) :
  let d := tables s in
  let d' := tables (serve (D := D) unicode_print cfg op authorization csrf s).2 in
  d' = d
  ∨ (∃ email, op = OpDevLogin email ∧ api_DevLogin cfg = true)
  ∨ ∃ role, authenticated s (request op authorization csrf) role
            ∧ isMutating (route op).1 = true ∧ CanMutate role = true
            ∧ (role = RoleAdmin ∨ admin_data d' = admin_data d).
Proof.
  intros d d'. unfold d', serve, Guard, mbind, M_bind.
  pose proof (guard_changes_nothing (request op authorization csrf) s) as Hsame.
  destruct (guard _ s) as [[[denied|po]|e] s1] eqn:Hg; simpl; [by left| |by left].
  unfold on_api in Hsame. simpl in Hsame.
  apply guard_lets_through in Hg as [_ Hpo].
  destruct (decide (∃ email, op = OpDevLogin email)) as [[email ->]|Hdev].
  { destruct (api_DevLogin cfg) eqn:E; [right; left; eauto|left].
    unfold ResponseErrorHandler. simpl. unfold DevLogin. rewrite E. simpl. done. }
  destruct po as [p|]; [|by apply route_not_public in Hpo]. destruct Hpo as (Hauth & Ha & Ho & _).
  unfold d. rewrite Hsame.
  destruct (decide (isMutating (route op).1 = false ∨ op = OpLogout)) as [Hr|Hr].
  { left. symmetry. apply (frame_ResponseErrorHandler eq). by apply reads_change_nothing. }
  right; right. exists (u_Role (pc_User p)).
  apply Decidable.not_or in Hr as [Hm%not_false_iff_true Hl].
  unfold requires_operator in Ho. cbn [request rq_Method rq_Path] in Ho. rewrite Hm in Ho.
  rewrite bool_decide_false in Ho by (by intros ?%route_not_logout).
  assert (HC : CanMutate (u_Role (pc_User p)) = true) by (by destruct (CanMutate _)).
  split_and!; try done.
  destruct (isAdminOnlyPath (route op).2) eqn:Ep.
  - left. apply AtLeast_admin. unfold requires_admin in Ha. cbn [request rq_Path] in Ha.
    rewrite Ep in Ha. by destruct (AtLeast _ _).
  - right. symmetry. apply (frame_ResponseErrorHandler same_admin).
    apply writes_spare_admin_data; [done|]. intros email ->. eauto.
Qed.

End Handlers.
