(* ===== verification/ApiScope.v ===== *)
(** * Tenant isolation in the management API

    A session user with customer grants works on those customers only: what
    the tables hold of other customers is the same after any request of
    theirs.  The one hypothesis on the environment is that the statement after
    the Guard does not fail, and the last section shows that the code needs it. *)
From S2P Require Import Prelude GoStrings Store World PgCore PgUsers PgFleet PgPipelines PgMisc Tokens Tenants GoText Json Catalog PipelineGraph Render RenderProps Validate Crypto Secrets SecretsProps PipelineService PipelineServiceProps AuditLog Auth ApiTypes ApiGuard ApiHandlers ApiAdmin ApiRoutes StoreCalls StoreInv PipelineInv ApiFrame ApiRoles.

(** ** What belongs to other customers *)

Section Foreign.
Context (A : gset uuid).

Definition outside (owner : option uuid) : Prop :=
  match owner with Some c => c ∉ A | None => True end.

#[global] Instance outside_dec owner : Decision (outside owner).
Proof. destruct owner; simpl; apply _. Defined.

Definition foreign_rows {V} (owner : V → option uuid) (t : gmap uuid V) : gmap uuid V :=
  filter (λ kv, outside (owner kv.2)) t.

Definition foreign_customers (d : db) : gmap uuid Customer :=
  filter (λ kv, outside (Some kv.1)) (customers d).
Definition foreign_keys (d : db) := foreign_rows (λ k, Some (k_CustomerID k)) (api_keys d).
Definition foreign_pipelines (d : db) := foreign_rows (λ p, Some (pr_CustomerID p)) (pipelines d).
Definition foreign_versions (d : db) : gmap uuid VersionRow :=
  filter (λ kv, is_Some (foreign_pipelines d !! vr_PipelineID kv.2)) (pipeline_versions d).
Definition foreign_tokens (d : db) := foreign_rows (λ t, Some (bt_CustomerID t)) (bootstrap_tokens d).
Definition foreign_agents (d : db) := foreign_rows gr_CustomerID (agents d).
Definition foreign_events (d : db) : list AgentEvent :=
  filter (λ e, is_Some (foreign_agents d !! ev_AgentID e)) (agent_events d).

Record foreign_same (d d' : db) : Prop := {
  same_customers : foreign_customers d = foreign_customers d';
  same_keys : foreign_keys d = foreign_keys d';
  same_pipelines : foreign_pipelines d = foreign_pipelines d';
  same_versions : foreign_versions d = foreign_versions d';
  same_tokens : foreign_tokens d = foreign_tokens d';
  same_agents : foreign_agents d = foreign_agents d';
  same_events : foreign_events d = foreign_events d';
}.

#[global] Instance foreign_same_equiv : Equivalence foreign_same.
Proof.
  split.
  - intros d. by constructor.
  - intros d d' []. by constructor.
  - intros d d' d'' [] []. constructor; congruence.
Qed.

(** An operation may touch pipeline [pid] and agent [aid] only if they are not
    someone else's. *)
Definition spares (pid aid : option uuid) : relation db := λ d d',
  (∀ k, pid = Some k → foreign_pipelines d !! k = None) →
  (∀ k, aid = Some k → foreign_agents d !! k = None) → foreign_same d d'.

#[global] Instance spares_preorder pid aid : PreOrder (spares pid aid).
Proof.
  split; unfold spares.
  - intros d _ _. reflexivity.
  - intros d1 d2 d3 H1 H2 Hp Ha. specialize (H1 Hp Ha). etrans; [done|].
    apply H2; [rewrite <- (same_pipelines _ _ H1)|rewrite <- (same_agents _ _ H1)]; done.
Qed.

#[global] Instance spares_log pid aid : LogFree (spares pid aid).
Proof. intros d f _ _. by constructor. Qed.

Section Rows.
Context {V : Type} (owner : V → option uuid).

Lemma foreign_insert (t : gmap uuid V) k v :
  ¬ outside (owner v) → (∀ y, t !! k = Some y → ¬ outside (owner y)) →
  foreign_rows owner t = foreign_rows owner (<[k := v]> t).
Proof. intros Hv Ht. symmetry. by apply map_filter_insert_not'. Qed.

Lemma foreign_update (t : gmap uuid V) p f :
  (∀ v, p v = true → ¬ outside (owner v)) → (∀ v, owner (f v) = owner v) →
  foreign_rows owner t = foreign_rows owner (update_where p f t).1.
Proof.
  intros Hp Hf. apply map_filter_strong_ext. intros i x. cbn. rewrite lookup_fmap. split.
  - intros [Ho ->]. split; [done|]. cbn. destruct (p x) eqn:E; [|done]. by apply Hp in E.
  - intros [Ho (y & Hy & ->)%fmap_Some]. destruct (p y) eqn:E; [|done].
    rewrite Hf in Ho. by apply Hp in E.
Qed.

Lemma foreign_None (t : gmap uuid V) k v :
  foreign_rows owner t !! k = None → t !! k = Some v → ¬ outside (owner v).
Proof.
  unfold foreign_rows. intros Hn Hk Ho.
  assert (filter (λ kv, outside (owner kv.2)) t !! k = Some v) by (by apply map_lookup_filter_Some).
  congruence.
Qed.

Lemma foreign_delete (t : gmap uuid V) k :
  foreign_rows owner t !! k = None → foreign_rows owner t = foreign_rows owner (delete k t).
Proof.
  intros Hn. symmetry. apply map_filter_delete_not. intros y Hy. by eapply foreign_None.
Qed.

End Rows.

End Foreign.

(** ** Store operations within a scope *)

(** Splits a statement into its outcomes and a [foreign_same] goal into the
    tables that changed. *)
Ltac spare_out :=
  try reflexivity; intros Hpid Haid; constructor; try reflexivity.

Ltac spare_stmt :=
  apply tables_stmt; [typeclasses eauto|]; intros ? d d' ? Hs; cbv zeta in Hs;
  repeat lazymatch type of Hs with
  | constrained _ _ = _ => let Hc := fresh "Hc" in apply constrained_inl in Hs as [Hc Hs]
  | match ?x with _ => _ end = _ => destruct x eqn:?; try discriminate Hs
  end;
  simplify_eq Hs; intros; subst; spare_out.

Ltac spare_exec :=
  apply tables_exec; [typeclasses eauto|]; intros ? d; cbn;
  repeat case_match; simplify_eq/=; spare_out.

Section Store.
Context {ENV : Env} (A : gset uuid) (pid aid : option uuid).

Abbreviation kept m := (steps (on_world (spares A pid aid)) m).

Lemma inside c : c ∈ A → ¬ outside A (Some c).
Proof. intros Hc Ho. by apply Ho. Qed.

Lemma spare_customer d id f :
  id ∈ A → foreign_customers A d = filter (λ kv, outside A (Some kv.1)) (<[id := f]> (customers d)).
Proof. intros Hid. symmetry. apply map_filter_insert_not'; cbn; intros; by apply inside. Qed.

Lemma spare_UpdateCustomer actor id upd : id ∈ A → kept (Tenants.UpdateCustomer actor id upd).
Proof.
  intros Hid. unfold Tenants.UpdateCustomer, PgCore.UpdateCustomer. frame_tac. spare_stmt.
  by apply spare_customer.
Qed.

Lemma spare_DeleteCustomer actor id : id ∈ A → kept (Tenants.DeleteCustomer actor id).
Proof.
  intros Hid. unfold Tenants.DeleteCustomer, SoftDeleteCustomer. frame_tac; spare_exec.
  - by apply spare_customer.
  - apply foreign_update; [|done].
    intros v [->%bool_decide_eq_true_1 _]%andb_true_iff. by apply inside.
Qed.

Lemma fresh_insert {V} (owner : V → option uuid) (t : gmap uuid V) k v c l e :
  checks ((is_none (t !! k), e) :: l) = None → owner v = Some c → c ∈ A →
  foreign_rows A owner t = foreign_rows A owner (<[k := v]> t).
Proof.
  cbn. destruct (t !! k) eqn:E; [done|]. intros _ Hv Hc.
  apply foreign_insert; [rewrite Hv; by apply inside|by rewrite E].
Qed.

Lemma spare_CreateAPIKey actor id name t : id ∈ A → kept (Tenants.CreateAPIKey actor id name t).
Proof.
  intros Hid. unfold Tenants.CreateAPIKey, PgCore.CreateAPIKey, insertAPIKey. frame_tac. spare_stmt.
  by eapply fresh_insert.
Qed.

Lemma spare_RevokeAPIKey actor id key : id ∈ A → kept (Tenants.RevokeAPIKey actor id key).
Proof.
  intros Hid. unfold Tenants.RevokeAPIKey, PgCore.RevokeAPIKey. frame_tac. spare_exec.
  apply foreign_update; [|done]. intros v Hv.
  apply andb_true_iff in Hv as [[_ ->%bool_decide_eq_true_1]%andb_true_iff _]. by apply inside.
Qed.

Lemma spare_CreateBootstrapToken actor id name t n :
  id ∈ A → kept (Tenants.CreateBootstrapToken actor id name t n).
Proof.
  intros Hid. unfold Tenants.CreateBootstrapToken, PgFleet.CreateBootstrapToken. frame_tac. spare_stmt.
  by eapply fresh_insert.
Qed.

Lemma spare_RevokeBootstrapToken actor id tok :
  id ∈ A → kept (Tenants.RevokeBootstrapToken actor id tok).
Proof.
  intros Hid. unfold Tenants.RevokeBootstrapToken, PgFleet.RevokeBootstrapToken. frame_tac. spare_exec.
  apply foreign_update; [|done]. intros v Hv.
  apply andb_true_iff in Hv as [[_ ->%bool_decide_eq_true_1]%andb_true_iff _]. by apply inside.
Qed.

(** ** Pipelines *)

(** A version of a pipeline that is not someone else's. *)
Lemma foreign_version_insert d k row :
  foreign_pipelines A d !! vr_PipelineID row = None →
  pipeline_versions d !! k = None →
  foreign_versions A d
  = filter (λ kv, is_Some (foreign_pipelines A d !! vr_PipelineID kv.2)) (<[k := row]> (pipeline_versions d)).
Proof.
  intros Hp Hk. symmetry. apply map_filter_insert_not'; cbn; [|by rewrite Hk].
  rewrite Hp. by intros [].
Qed.

Lemma spare_insertPipelineVersion v n :
  pid = Some (nv_PipelineID v) → kept (insertPipelineVersion v n).
Proof.
  intros Hv. unfold insertPipelineVersion. frame_tac. spare_stmt.
  apply (foreign_version_insert d); [by apply Hpid|].
  cbn in Hc. repeat case_match; try done. by apply is_none_true.
Qed.

Lemma spare_CreatePipelineVersion v es :
  pid = Some (nv_PipelineID v) → kept (PgPipelines.CreatePipelineVersion v es).
Proof.
  intros Hv. unfold PgPipelines.CreatePipelineVersion, select_version_id. frame_tac.
  by apply spare_insertPipelineVersion.
Qed.

(** Pipelines that are not someone else's may change, keeping their customer,
    and go: neither shows in what others see. *)
Lemma foreign_pipeline_update d k p p' :
  foreign_pipelines A d !! k = None → pipelines d !! k = Some p →
  pr_CustomerID p' = pr_CustomerID p →
  foreign_pipelines A d = foreign_rows A (λ p, Some (pr_CustomerID p)) (<[k := p']> (pipelines d)).
Proof.
  intros Hn Hk Hc. pose proof (foreign_None _ _ _ _ _ Hn Hk) as Ho.
  apply foreign_insert; [by rewrite Hc|]. intros y Hy. by rewrite Hk in Hy; simplify_eq.
Qed.

Lemma same_owner_versions d (t : gmap uuid PipelineRow) :
  foreign_pipelines A d = foreign_rows A (λ p, Some (pr_CustomerID p)) t →
  foreign_versions A d
  = filter (λ kv, is_Some (foreign_rows A (λ p, Some (pr_CustomerID p)) t !! vr_PipelineID kv.2))
      (pipeline_versions d).
Proof. intros E. unfold foreign_versions. by rewrite E. Qed.

Lemma spare_ActivatePipelineVersion k n es :
  pid = Some k → kept (PgPipelines.ActivatePipelineVersion k n es).
Proof.
  intros Hv. unfold PgPipelines.ActivatePipelineVersion, select_version, select_pipeline. frame_tac.
  spare_exec; [|apply (same_owner_versions d (<[k := _]> (pipelines d)))].
  all: eapply foreign_pipeline_update; eauto.
Qed.

Lemma spare_DeletePipeline k es : pid = Some k → kept (PgPipelines.DeletePipeline k es).
Proof.
  intros Hv. unfold PgPipelines.DeletePipeline. frame_tac. spare_exec.
  - by apply foreign_delete, Hpid.
  - etrans; [apply (same_owner_versions d (delete k (pipelines d)));
      by apply foreign_delete, Hpid|]. cbn.
    apply map_filter_strong_ext. intros i x. cbn. split.
    + intros [Hi Hx]. split; [done|]. apply map_lookup_filter_Some. split; [done|].
      intros Hk. rewrite Hk in Hi. unfold foreign_rows in Hi.
      destruct Hi as [y Hy]. apply map_lookup_filter_Some in Hy as [Hy _].
      by rewrite lookup_delete_eq in Hy.
    + intros [Hi [Hx _]%map_lookup_filter_Some]. done.
Qed.

Lemma CreatePipeline_rows p v es w r w' :
  PgPipelines.CreatePipeline p v es w = (inl r, w') →
  ∃ prow vrow l,
    pipelines (w_db w) !! np_ID p = None ∧ pipeline_versions (w_db w) !! nv_ID v = None ∧
    pr_CustomerID prow = np_CustomerID p ∧ vr_PipelineID vrow = nv_PipelineID v ∧
    w_db w' = (w_db w) <| pipelines ::= <[np_ID p := prow]> |>
                     <| pipeline_versions ::= <[nv_ID v := vrow]> |>
                     <| audit_log ::= λ old, old ++ l |>.
Proof.
  intros E. unfold PgPipelines.CreatePipeline, insertPipelineVersion in E. call_inv E.
  all: repeat match goal with Hc : checks _ = None |- _ =>
    apply checks_None in Hc; rewrite !Forall_cons in Hc; cbn in Hc; destruct_and! Hc end.
  all: eexists _, _, _; split_and!; [by apply is_none_true|by apply is_none_true|..|reflexivity]; reflexivity.
Qed.

(** A new pipeline of an own customer, with its first version: the statements
    only succeed under a fresh identifier. *)
Lemma spare_CreatePipeline p v es :
  np_CustomerID p ∈ A → nv_PipelineID v = np_ID p → kept (PgPipelines.CreatePipeline p v es).
Proof.
  intros Hc Hv w. unfold on_world.
  destruct (PgPipelines.CreatePipeline p v es w) as [[r|e] w'] eqn:E; simpl.
  - apply CreatePipeline_rows in E as (prow & vrow & l & Hp & Hn & Hpc & Hvp & ->).
    intros Hpid Haid.
    assert (Hfp : foreign_pipelines A (w_db w)
      = foreign_rows A (λ p, Some (pr_CustomerID p)) (<[np_ID p := prow]> (pipelines (w_db w)))).
    { apply foreign_insert; [rewrite Hpc; by apply inside|by rewrite Hp]. }
    constructor; try reflexivity; [done|].
    assert (Hnone : foreign_pipelines A (w_db w) !! np_ID p = None).
    { apply map_lookup_filter_None. left. done. }
    etrans; [apply (foreign_version_insert (w_db w) (nv_ID v) vrow); [by rewrite Hvp, Hv|done]|].
    rewrite Hfp. reflexivity.
  - unfold PgPipelines.CreatePipeline in E. apply atomic_inTx in E. rewrite E. reflexivity.
Qed.

(** ** Agents *)

Lemma foreign_agent_update d k r r' :
  foreign_agents A d !! k = None → agents d !! k = Some r → gr_CustomerID r' = gr_CustomerID r →
  foreign_agents A d = foreign_rows A gr_CustomerID (<[k := r']> (agents d)).
Proof.
  intros Hn Hk Hc. pose proof (foreign_None _ _ _ _ _ Hn Hk) as Ho.
  apply foreign_insert; [by rewrite Hc|]. intros y Hy. by rewrite Hk in Hy; simplify_eq.
Qed.

Lemma same_owner_events d (t : gmap uuid AgentRow) :
  foreign_agents A d = foreign_rows A gr_CustomerID t →
  foreign_events A d = filter (λ e, is_Some (foreign_rows A gr_CustomerID t !! ev_AgentID e)) (agent_events d).
Proof. intros E. unfold foreign_events. by rewrite E. Qed.

Lemma spare_UpdateAgentMeta k n l es : aid = Some k → kept (UpdateAgentMeta k n l es).
Proof.
  intros Hk. unfold UpdateAgentMeta, update_agent. frame_tac.
  spare_exec; [|apply (same_owner_events d (<[k := _]> (agents d)))].
  all: eapply foreign_agent_update; eauto.
Qed.

Lemma spare_DeleteAgent k es : aid = Some k → kept (PgFleet.DeleteAgent k es).
Proof.
  intros Hk. unfold PgFleet.DeleteAgent. frame_tac. spare_exec.
  - by apply foreign_delete, Haid.
  - etrans; [apply (same_owner_events d (delete k (agents d))); by apply foreign_delete, Haid|].
    symmetry. apply (list_filter_filter_l (λ e, is_Some (foreign_rows A gr_CustomerID
      (delete k (agents d)) !! ev_AgentID e))).
    intros e [y [Hy _]%map_lookup_filter_Some] He. by rewrite He, lookup_delete_eq in Hy.
Qed.

Lemma spare_CreateWebhook w es : kept (PgMisc.CreateWebhook w es).
Proof. unfold PgMisc.CreateWebhook. frame_tac. spare_stmt. Qed.

Lemma spare_UpdateWebhook id u es : kept (PgMisc.UpdateWebhook id u es).
Proof. unfold PgMisc.UpdateWebhook. frame_tac. spare_stmt. Qed.

Lemma spare_DeleteWebhook id es : kept (PgMisc.DeleteWebhook id es).
Proof. unfold PgMisc.DeleteWebhook. frame_tac. spare_exec. Qed.

Lemma spare_WriteAuditEntries es : kept (WriteAuditEntries es).
Proof. unfold WriteAuditEntries. frame_tac. Qed.

End Store.

(** ** Handlers of a scoped principal *)

Import Api.

Section Handlers.
Context {ENV : Env} {SM : SessionManager} {UP : UuidParse} {D : Type} `{!Distributor D}.
Context {SCHEMA : JSONSchema} {YML : YAML} {COL : OtelCol} {NET : NetURL} {CERT : X509}.
Context (unicode_print : N → bool) (cfg : ApiCfg) (p : Principal).
Hypothesis scoped : pc_AllCustomers p = false.
Abbreviation A := (pc_AllowedCustomers p).
Abbreviation R pid aid := (@on_api D sess (spares A pid aid)).
Abbreviation run op := (handle (D := D) unicode_print cfg op (Some p)).

(** What follows the scope check of a customer runs within the scope. *)
Lemma spare_scoped pid aid c (k : M (apistate D sess) herror response) :
  (c ∈ A → steps (R pid aid) k) →
  steps (R pid aid) (requireCustomerAccess (Some p) (Some c);; k).
Proof.
  intros Hk. unfold requireCustomerAccess, CanAccessCustomer. rewrite scoped.
  case_bool_decide; simpl; [by apply Hk|intros s; unfold on_api; simpl; reflexivity].
Qed.

(** The owner of a pipeline can be looked up. *)
Definition pipelines_owned (d : db) : Prop :=
  map_Forall (λ _ p, is_Some (customers d !! pr_CustomerID p)) (pipelines d).

Lemma GetPipeline_ok k w :
  fault (w_tick w) || w_aborted w = false →
  ∃ w', w_db w' = w_db w ∧
    PgPipelines.GetPipeline k w =
      (match pipelines (w_db w) !! k ≫= scanPipeline (w_db w) with
       | Some x => inl x | None => inr ErrNotFound end, w').
Proof.
  intros Hok. unfold PgPipelines.GetPipeline, select_pipeline, onErr, mtry, queryRow, stmt.
  unfold mbind at 1, M_bind. rewrite Hok.
  destruct (pipelines (w_db w) !! k) as [row|]; cbn; [destruct (scanPipeline _ row); cbn|];
    (eexists; split; [|reflexivity]); reflexivity.
Qed.

(** After the scope check of a pipeline, that pipeline is nobody else's: it
    is the scope's own, or there is none. *)
Lemma spare_pipeline k (m : M (apistate D sess) herror response) s :
  pipelines_owned (tables s) →
  fault (w_tick (world_of s)) || w_aborted (world_of s) = false →
  steps (R (Some k) None) m →
  foreign_same A (tables s) (tables ((requirePipelineAccess (Some p) k;; m) s).2).
Proof.
  intros Howned Hok Hm. apply (GetPipeline_ok k) in Hok as (w' & Ew & E).
  set (s' := Build_apistate (Build_svcstate w' (ss_dist (as_svc s)) (ss_notes (as_svc s))) (as_sess s)).
  assert (Hs : tables s' = tables s) by done.
  assert (Hstay : foreign_pipelines A (tables s) !! k = None →
    foreign_same A (tables s) (tables (m s').2)).
  { intros Hn. specialize (Hm s'). unfold on_api in Hm. rewrite Hs in Hm.
    apply Hm; [by intros ? [= <-]|done]. }
  unfold requirePipelineAccess, customerScope. rewrite scoped.
  unfold mbind, M_bind, call_store, call_svc, on_store. fold (world_of s). rewrite E.
  fold (world_of s) s'. fold (tables s) in *.
  change (w_db (world_of s)) with (tables s).
  destruct (pipelines (tables s) !! k) as [row|] eqn:Hrow; simpl.
  - destruct (Howned _ _ Hrow) as [c Hc]. unfold scanPipeline. rewrite Hc. simpl.
    unfold requireCustomerAccess, CanAccessCustomer. rewrite scoped. case_bool_decide; simpl.
    + apply Hstay. apply map_lookup_filter_None. right. intros y Hy. simplify_eq. simpl. tauto.
    + rewrite Hs. reflexivity.
  - apply Hstay. apply map_lookup_filter_None. by left.
Qed.

(** Likewise for an agent; here a failed lookup ends the request. *)
Lemma spare_with_agent id k :
  (∀ a, steps (R None (Some id)) (k a)) →
  steps (R None None) (with_agent (Some p) id k).
Proof.
  intros Hk s. unfold with_agent, or_not_found, on_api, mbind at 1, M_bind.
  assert (Hs : tables (call_store (PgFleet.GetAgent id) s).2 = tables s).
  { symmetry. apply (frame_call_store eq), tables_readonly; [typeclasses eauto|apply readonly_GetAgent]. }
  destruct (call_store (PgFleet.GetAgent id) s) as [[[a|e]|e] s'] eqn:E; simpl in Hs.
  - rewrite <- Hs. apply handler_store_inl in E as (w & E & _ & Hw).
    apply onErr_inl, queryRow_inl in E as [(row & Hrow & Ha)%fmap_Some _].
    specialize (Hk a). unfold requireCustomerAccess, CanAccessCustomer. rewrite scoped.
    assert (Hin : ∀ c, gr_CustomerID row = Some c → c ∈ A → spares A None None (tables s') (tables (k a s').2)).
    { intros c Hc Hin _ _. apply (Hk s'); [done|]. intros ? [= <-]. rewrite Hs.
      apply map_lookup_filter_None. right. intros y Hy. change (w_db (world_of s)) with (tables s) in Hrow.
      simplify_eq. cbn. rewrite Hc. simpl. tauto. }
    subst a. simpl. destruct (gr_CustomerID row) as [c|]; [|simpl; reflexivity].
    case_bool_decide; simpl; [by eapply Hin|reflexivity].
  - destruct (Is _ _); simpl; rewrite Hs; reflexivity.
  - simpl. rewrite Hs. reflexivity.
Qed.

(** The service operations behind the handlers. *)
Lemma spare_Create actor c name tc g :
  c ∈ A → steps (on_world (spares A None None)) (Create unicode_print (api_Svc cfg) actor c name tc g).
Proof. intros Hc. unfold Create. frame_tac. all: by apply spare_CreatePipeline. Qed.

Lemma spare_CreateVersion actor k g :
  steps (on_world (spares A (Some k) None)) (CreateVersion unicode_print (api_Svc cfg) actor k g).
Proof. unfold CreateVersion. frame_tac. all: by apply spare_CreatePipelineVersion. Qed.

Lemma spare_Activate actor k n :
  steps (@on_svc D (spares A (Some k) None)) (Activate unicode_print (api_Svc cfg) actor k n).
Proof.
  unfold Activate. frame_tac; [by apply spare_ActivatePipelineVersion|].
  apply frame_roll_out, _.
Qed.

Lemma spare_Delete actor k :
  steps (@on_svc D (spares A (Some k) None)) (PipelineService.Delete unicode_print (api_Svc cfg) actor k).
Proof.
  unfold PipelineService.Delete. frame_tac; [by apply spare_DeletePipeline|].
  apply frame_roll_out, _.
Qed.

Lemma spare_encryptClientSecret secret :
  steps (R None None) (Admin.encryptClientSecret cfg secret).
Proof. unfold Admin.encryptClientSecret. frame_tac. Qed.

(** Everything but the three operations on a pipeline given by its identifier. *)
Lemma spare_handle op :
  isAdminOnlyPath (route op).2 = false → (∀ email, op ≠ OpDevLogin email) →
  (∀ k, op ≠ OpDeletePipeline k) → (∀ k g, op ≠ OpCreatePipelineVersion k g) →
  (∀ k n, op ≠ OpActivatePipelineVersion k n) →
  steps (R None None) (run op).
Proof.
  intros Hadm Hdev H1 H2 H3.
  destruct (decide (isMutating (route op).1 = false ∨ op = OpLogout)) as [Hr|Hr].
  { eapply steps_mono; [|by apply reads_change_nothing]. unfold on_api. intros s s' <-. reflexivity. }
  destruct op; try discriminate Hadm; try (by exfalso; apply Hr; auto);
    try (by edestruct Hdev); try (by edestruct H1); try (by edestruct H2); try (by edestruct H3);
    clear -scoped Distributor0; cbn [handle].
  - unfold CreateCustomer, requireUnscoped, customerScope. rewrite scoped.
    intros s. unfold on_api. simpl. reflexivity.
  - apply spare_scoped. intros Hc. frame_tac. by apply spare_UpdateCustomer.
  - apply spare_scoped. intros Hc. frame_tac. by apply spare_DeleteCustomer.
  - apply spare_scoped. intros Hc. frame_tac. by apply spare_CreateAPIKey.
  - apply spare_scoped. intros Hc. frame_tac. by apply spare_RevokeAPIKey.
  - apply spare_scoped. intros Hc. frame_tac. by apply spare_Create.
  - unfold ValidatePipeline. frame_tac.
  - apply spare_with_agent. intros a. frame_tac. by apply spare_DeleteAgent.
  - apply spare_with_agent. intros a. frame_tac. by apply spare_UpdateAgentMeta.
  - apply spare_with_agent. intros a. frame_tac.
    + apply frame_ResyncEdge, _.
    + apply spare_WriteAuditEntries.
  - apply spare_scoped. intros Hc. frame_tac. by apply spare_CreateBootstrapToken.
  - apply spare_scoped. intros Hc. frame_tac. by apply spare_RevokeBootstrapToken.
  - unfold Admin.CreateWebhook, Admin.validateWebhookEvents, Admin.webhookType. frame_tac.
    all: try apply spare_encryptClientSecret. all: apply spare_CreateWebhook.
  - unfold Admin.UpdateWebhook, Admin.validateWebhookEvents, Admin.webhookType. frame_tac.
    all: try apply spare_encryptClientSecret. all: apply spare_UpdateWebhook.
  - unfold Admin.DeleteWebhook. frame_tac. apply spare_DeleteWebhook.
Qed.

(** The whole server, for a principal the Guard attached. *)
Lemma spare_serve op s :
  pipelines_owned (tables s) →
  fault (w_tick (world_of s)) || w_aborted (world_of s) = false →
  isAdminOnlyPath (route op).2 = false → (∀ email, op ≠ OpDevLogin email) →
  foreign_same A (tables s) (tables (run op s).2).
Proof.
  intros Howned Hok Hadm Hdev.
  assert (Hgen : steps (R None None) (run op) → foreign_same A (tables s) (tables (run op s).2)).
  { intros Hs. by apply Hs. }
  destruct op; try (by apply Hgen, spare_handle); clear Hgen; cbn [handle].
  - apply spare_pipeline; [done..|]. frame_tac. apply spare_Delete.
  - apply spare_pipeline; [done..|]. unfold version_reply. frame_tac. apply spare_CreateVersion.
  - apply spare_pipeline; [done..|]. frame_tac. apply spare_Activate.
Qed.

End Handlers.

(** Every pipeline keeps its customer's row: customers are never removed. *)
Lemma call_pipelines_owned (ENV : Env) c w u w' :
  run_call c w = (inl u, w') → pipelines_owned (w_db w) → pipelines_owned (w_db w').
Proof.
  intros Hr Hok. destruct c; call_inv Hr; try done; unfold pipelines_owned in *; simpl in *.
  all: try (intros k r Hk; specialize (Hok k r Hk); simpl in Hok;
            rewrite lookup_insert_is_Some'; by right).
  - intros i r Hr. rewrite lookup_insert_is_Some'. right. by apply (Hok i r).
  - apply map_Forall_insert_2; [|done]. simpl. repeat case_match; try done.
    all: by apply is_some_true.
  - by apply map_Forall_delete.
  - apply map_Forall_insert_2; [|done]. simpl.
    match goal with Hp : pipelines _ !! _ = Some _ |- _ => by apply (Hok _ _ Hp) end.
Qed.

Lemma pipelines_always_owned w : rtc step world_init w → pipelines_owned (w_db w).
Proof.
  intros Hw. eapply (history_inv pipelines_owned); [|exact Hw|apply map_Forall_empty].
  intros. by eapply call_pipelines_owned.
Qed.

(** ** Isolation *)

(** C27: Tenant isolation: when a request is let through for a user with
    customer grants, then whatever the operation is and however its handler
    ends, the customers, API keys, pipelines, pipeline versions, enrollment
    tokens, agents and agent events of customers outside the grants are the
    same after it, provided that the statement after the Guard does not fail
    (it is the lookup [requirePipelineAccess] ignores the failure of). *)
Theorem tenant_isolation {ENV : Env} {SM : SessionManager} {UP : UuidParse} {D : Type}
    `{!Distributor D} {SCHEMA : JSONSchema} {YML : YAML} {COL : OtelCol} {NET : NetURL}
    {CERT : X509} (unicode_print : N → bool) (cfg : ApiCfg) op authorization csrf
    (s s1 : apistate D sess) (p : Principal) :
  guard (request op authorization csrf) s = (inl (inr (Some p)), s1) →
  pc_AllCustomers p = false →
  pipelines_owned (tables s) →
  fault (w_tick (world_of s1)) || w_aborted (world_of s1) = false →
  foreign_same (pc_AllowedCustomers p) (tables s)
    (tables (serve unicode_print cfg op authorization csrf s).2).
Proof.
  intros Hg Hsc Howned Hok. pose proof (guard_lets_through _ _ _ _ Hg) as [Hs1 (_ & Ha & _ & Hr)].
  specialize (Hr Hsc). unfold serve, Guard, mbind, M_bind. rewrite Hg. rewrite <- Hs1 in *.
  assert (Hadm : isAdminOnlyPath (route op).2 = false).
  { unfold requires_admin in Ha. cbn [request rq_Path] in Ha.
    destruct (isAdminOnlyPath _); [|done]. destruct (AtLeast _ _) eqn:El; [|done].
    by apply AtLeast_admin in El. }
  assert (Hdev : ∀ email, op ≠ OpDevLogin email).
  { intros email ->. unfold guard in Hg. by rewrite bool_decide_true in Hg by (cbn; set_solver). }
  pose proof (spare_serve unicode_print cfg p Hsc op s1 Howned Hok Hadm Hdev) as H.
  unfold ResponseErrorHandler. by destruct (handle _ _ _ _ _) as [[r|[e|e|e]] s2].
Qed.

Lemma tenant_isolation_witness :
  let after := demo_serve no_fault (OpDeletePipeline demo_pipeline) in
  after.1 = inl (Failure 403 "forbidden" "you do not have access to this customer") ∧
  foreign_same {[demo_other]} (tables demo_state) (tables after.2).
Proof.
  split; [vm_compute; reflexivity|].
  pose (env := faulty_env no_fault).
  replace ({[demo_other]} : gset uuid) with (pc_AllowedCustomers demo_principal)
    by (vm_compute; reflexivity).
  apply (@tenant_isolation env demo_SM demo_UP string PublishDistributor accept_schema demo_yaml
    demo_col demo_NET demo_CERT all_print demo_api (OpDeletePipeline demo_pipeline) "" "token"
    demo_state (demo_guard no_fault (OpDeletePipeline demo_pipeline)).2 demo_principal).
  - vm_compute. reflexivity.
  - vm_compute. reflexivity.
  - apply (bool_decide_unpack _). vm_compute. exact I.
  - vm_compute. reflexivity.
Defined.

(** The scope check of a pipeline fails open: whenever its lookup
    statement fails the check passes, and the request goes on; so one failed
    statement lets an operator of one customer delete the pipeline of another. *)
Theorem scope_check_fails_open :
  (∀ (ENV : Env) (SM : SessionManager) (D : Type) (p : Principal) (k : uuid) (s : apistate D sess),
     fault (w_tick (world_of s)) = true →
     (requirePipelineAccess (Some p) k s).1 = inl tt) ∧
  let op := OpDeletePipeline demo_pipeline in
  let after := demo_serve (Nat.eqb lookup_tick) op in
  (∃ s1, demo_guard (Nat.eqb lookup_tick) op = (inl (inr (Some demo_principal)), s1)) ∧
  pc_AllCustomers demo_principal = false ∧
  (pr_CustomerID <$> pipelines (tables demo_state) !! demo_pipeline) = Some demo_customer ∧
  demo_customer ∉ pc_AllowedCustomers demo_principal ∧
  after.1 = inl (Success 204 BNone) ∧
  pipelines (tables after.2) !! demo_pipeline = None.
Proof.
  split.
  - intros ENV SM D p k s Hf. unfold requirePipelineAccess. destruct (customerScope (Some p)); [|done].
    unfold mbind, M_bind, call_store, call_svc, on_store, PgPipelines.GetPipeline, onErr, mtry,
      select_pipeline, queryRow, stmt.
    change (ss_w (as_svc s)) with (world_of s). unfold mbind, M_bind. rewrite Hf. reflexivity.
  - split_and!; try (vm_compute; reflexivity); [eexists|]; vm_compute.
    + reflexivity.
    + apply (bool_decide_unpack _). vm_compute. exact I.
Qed.

(** An invitation is two transactions, the user and the grants: with a
    customer that does not exist the request is refused, but the user is
    there, without grants, and so with access to every customer. *)
Example invite_without_grants :
  let invited := serve_as no_fault 8 (OpInviteUser "new@globex.example" RoleOperator (Some [99%N])) in
  invited.1 = inl (Failure 400 "bad_request" "unknown user or customer in customerIds") ∧
  match filter (λ u, u_Email u = "new@globex.example") (rows (users (tables invited.2))) with
  | [u] => match (@with_scope quiet_env demo_SM string u "" invited.2).1 with
           | inl (inr (Some p)) => u_Role (pc_User p) = RoleOperator ∧ pc_AllCustomers p = true
           | _ => False
           end
  | _ => False
  end.
Proof. vm_compute. auto. Qed.
