(* ===== verification/JsonText.v ===== *)
(** * JSON and time as text

    [encoding/json]'s encoder on the values the program sends out, with its
    HTML escaping, and [time.Time]'s RFC 3339 formats in UTC. *)
From Stdlib Require Import Ascii.
From S2P Require Import Prelude GoStrings GoText Store Json.

(** ** Strings *)

(** [appendString] with [escapeHTML]. *)
Definition json_rune (x : N * string) : string :=
  let '(r, bytes) := x in
  if (r =? RuneError)%N && (String.length bytes =? 1) then esc "u" +:+ "fffd"
  else if (r =? code dquote)%N then esc dquote
  else if (r =? code backslash)%N then esc backslash
  else if (r =? 8)%N then esc "b" else if (r =? 12)%N then esc "f"
  else if (r =? 10)%N then esc "n" else if (r =? 13)%N then esc "r"
  else if (r =? 9)%N then esc "t"
  else if (r <? 32)%N || (r =? 60)%N || (r =? 62)%N || (r =? 38)%N
  then esc "u" +:+ "00" +:+ hexn 2 r
  else if (r =? 8232)%N || (r =? 8233)%N then esc "u" +:+ hexn 4 r
  else bytes.

Definition json_string (s : string) : string :=
  String dquote (concat_str (map json_rune (decode s)) +:+ String dquote "").

(** ** Values *)

Definition json_array (l : list string) : string := "[" +:+ String.concat "," l +:+ "]".
Definition json_object (m : list (string * string)) : string :=
  "{" +:+ String.concat "," (map (λ '(k, v), json_string k +:+ ":" +:+ v) m) +:+ "}".

Definition by_key {A} (x y : string * A) : bool := String.leb x.1 y.1.

(** [json.Marshal]; the keys of a map are sorted. *)
Fixpoint Marshal (v : json) : string :=
  match v with
  | JNull => "null"
  | JBool b => if b then "true" else "false"
  | JNum lit => lit
  | JStr s => json_string s
  | JArr l => json_array ((fix go l := match l with [] => [] | x :: l' => Marshal x :: go l' end) l)
  | JObj m =>
    json_object (merge_sort (λ x y, Is_true (by_key x y))
      ((fix go m := match m with [] => [] | (k, x) :: m' => (k, Marshal x) :: go m' end) m))
  end.

(** A nil pointer to a string is null. *)
Definition json_opt_string (o : option string) : string :=
  match o with Some s => json_string s | None => "null" end.

(** [fmt]'s %v of a decoded value: maps are printed with sorted keys. *)
Fixpoint fmt_v (v : json) : string :=
  match v with
  | JNull => "<nil>"
  | JBool b => if b then "true" else "false"
  | JNum lit => lit
  | JStr s => s
  | JArr l =>
    "[" +:+ String.concat " "
      ((fix go l := match l with [] => [] | x :: l' => fmt_v x :: go l' end) l) +:+ "]"
  | JObj m =>
    "map[" +:+ String.concat " " (map (λ '(k, x), k +:+ ":" +:+ x)
      (merge_sort (λ x y, Is_true (by_key x y))
        ((fix go m := match m with [] => [] | (k, x) :: m' => (k, fmt_v x) :: go m' end) m)))
    +:+ "]"
  end.

Example Marshal_sorted :
  Marshal (JObj [("b", JStr "<x>"); ("a", JArr [JNum "1"; JNull; JBool true])]) =
  concat_str ["{"; json_string "a"; ":[1,null,true],"; json_string "b"; ":"; String dquote "";
              esc "u"; "003cx"; esc "u"; "003e"; String dquote "}"].
Proof. vm_compute. reflexivity. Qed.

(** ** Times *)

(** [n] decimal digits, most significant first. *)
Fixpoint decn (n : nat) (z : Z) : string :=
  match n with
  | O => ""
  | S n' => decn n' (z / 10) +:+ String (ascii_of_N (48 + Z.to_N (z mod 10))) ""
  end.

(** Year, month and day of a day counted from 1970-01-01, in the proleptic
    Gregorian calendar: years start in March, eras have 400 of them. *)
Definition civil (days : Z) : Z * Z * Z :=
  (let z := days + 719468 in
   let era := z / 146097 in
   let doe := z mod 146097 in
   let yoe := (doe - doe / 1460 + doe / 36524 - doe / 146096) / 365 in
   let doy := doe - (365 * yoe + yoe / 4 - yoe / 100) in
   let mp := (5 * doy + 2) / 153 in
   let d := doy - (153 * mp + 2) / 5 + 1 in
   let m := if (mp <? 10)%Z then mp + 3 else mp - 9 in
   (yoe + era * 400 + (if (m <=? 2)%Z then 1 else 0), m, d))%Z.

Definition second : Z := 1000000000.

(** The format up to the seconds: 2006-01-02T15:04:05. *)
Definition date_time (t : time) : string :=
  let s := (t / second)%Z in
  let '(y, m, d) := civil (s / 86400) in
  let sod := (s mod 86400)%Z in
  decn 4 y +:+ "-" +:+ decn 2 m +:+ "-" +:+ decn 2 d +:+ "T" +:+ decn 2 (sod / 3600)
  +:+ ":" +:+ decn 2 (sod / 60 mod 60) +:+ ":" +:+ decn 2 (sod mod 60).

Definition FormatRFC3339 (t : time) : string := date_time t +:+ "Z".

Fixpoint trim_zeros (l : list ascii) : list ascii :=
  match l with
  | "0"%char :: l' => trim_zeros l'
  | _ => l
  end.

(** RFC3339Nano, which [time.Time] marshals to: the fraction of the second
    without trailing zeros, and without the point if nothing is left. *)
Definition FormatRFC3339Nano (t : time) : string :=
  let frac := reverse (trim_zeros (reverse (chars (decn 9 (t mod second))))) in
  date_time t +:+ (match frac with [] => "" | _ => "." +:+ String.string_of_list_ascii frac end)
  +:+ "Z".

Example format_times :
  FormatRFC3339 0 = "1970-01-01T00:00:00Z" ∧
  FormatRFC3339 951782400000000000 = "2000-02-29T00:00:00Z" ∧
  FormatRFC3339Nano 1767225599120000000 = "2025-12-31T23:59:59.12Z" ∧
  FormatRFC3339Nano 1767225600000000000 = "2026-01-01T00:00:00Z".
Proof. vm_compute. auto. Qed.
