(* ===== verification/Webhooks.v ===== *)
(** * The webhook dispatcher (internal/webhooks/dispatcher.go)

    Fleet events wait in a bounded queue; the worker takes them one by one,
    finds the subscribed webhooks and starts a delivery for each, which runs
    on its own: attempts with growing pauses until the receiver accepts or
    refuses, four of them at most.  The worker and the deliveries interleave
    freely, so the dispatcher is a step relation on [dworld].  The HTTP client
    is the class [HTTPClient]: what each attempt meets is an oracle. *)
From Stdlib Require Import Ascii.
From S2P Require Import Prelude GoStrings GoText Sha256 Store World PgCore PgFleet PgMisc Json JsonText Crypto OpAMP ApiAdmin.

(** ** HMAC-SHA256 (crypto/hmac) *)

Definition xor_pad (c : N) (key : list ascii) : string :=
  String.string_of_list_ascii (map (λ a, ascii_of_N (N.lxor (code a) c)) key).

Definition hmac_sha256 (key msg : string) : string :=
  let key := if 64 <? String.length key then Sha256.Sum256 key else key in
  let padded := chars key ++ replicate (64 - String.length key) "000"%char in
  Sha256.Sum256 (xor_pad 92 padded +:+ Sha256.Sum256 (xor_pad 54 padded +:+ msg)).

(** RFC 4231, test cases 2 and 6. *)
Example hmac_rfc4231 :
  hex_encode (hmac_sha256 "Jefe" "what do ya want for nothing?") =
  "5bdcc146bf60754e6a042426089575c75a003f089d2739839dec58b964ec3843" ∧
  hex_encode (hmac_sha256 (String.string_of_list_ascii (replicate 131 "170"%char))
    "Test Using Larger Than Block-Size Key - Hash Key First") =
  "60e431591ee0b67f0d8a26aacbf5b77f8e0bc6213728c5140546040f0ee37f54".
Proof. vm_compute. auto. Qed.

Module Webhooks.

(** ** Events and payloads *)

Definition queueSize : nat := 256.

Record Event := {
  evt_Type : string;
  evt_OccurredAt : time;
  evt_AgentID : uuid;
  evt_CustomerID : uuid;
  evt_Detail : option json;
}.

Record AgentInfo := {
  ai_ID : uuid;
  ai_Name : option string;
  ai_Class : string;
  ai_CustomerID : option uuid;
  ai_CustomerName : option string;
}.

Record Payload := {
  pl_Event : string;
  pl_OccurredAt : time;
  pl_Agent : option AgentInfo;
  pl_Detail : option json;
}.

Definition detail_members (p : Payload) : members :=
  match pl_Detail p with Some (JObj m) => m | _ => [] end.

(** [json.Marshal] of the two structs: fields in their order, [omitempty] ones
    only when set. *)
Definition marshal_agent (a : AgentInfo) : string :=
  json_object [("id", json_string (uuid_String (ai_ID a))); ("name", json_opt_string (ai_Name a));
               ("class", json_string (ai_Class a));
               ("customerId", json_opt_string (uuid_String <$> ai_CustomerID a));
               ("customerName", json_opt_string (ai_CustomerName a))].

Definition marshal_payload (p : Payload) : string :=
  json_object
    ([("event", json_string (pl_Event p));
      ("occurredAt", json_string (FormatRFC3339Nano (pl_OccurredAt p)))]
     ++ match pl_Agent p with Some a => [("agent", marshal_agent a)] | None => [] end
     ++ match detail_members p with [] => [] | m => [("detail", Marshal (JObj m))] end).

Definition slackTitle (event : string) : string * string :=
  if bool_decide (event = WebhookEventAgentOffline) then (":red_circle:", "Agent offline")
  else if bool_decide (event = WebhookEventAgentUnhealthy) then (":warning:", "Agent unhealthy")
  else if bool_decide (event = WebhookEventAgentConfigFailed) then (":x:", "Config apply failed")
  else if bool_decide (event = "test") then (":bell:", "Test notification")
  else (":information_source:", event).

Definition non_empty (o : option string) : option string :=
  match o with Some s => if bool_decide (s = "") then None else Some s | None => None end.

Definition slack_agent_lines (a : AgentInfo) : list string :=
  ("*Agent:* " +:+ default "unknown" (non_empty (ai_Name a)) +:+ " (" +:+ ai_Class a +:+ ")")
  :: match non_empty (ai_CustomerName a) with Some c => ["*Customer:* " +:+ c] | None => [] end.

Definition slackMessage (p : Payload) : json :=
  let '(emoji, title) := slackTitle (pl_Event p) in
  let lines :=
    [emoji +:+ " *otelfleet* — " +:+ title]
    ++ match pl_Agent p with Some a => slack_agent_lines a | None => [] end
    ++ map (λ '(k, v), "*" +:+ k +:+ ":* " +:+ fmt_v v)
         (merge_sort (λ x y, Is_true (by_key x y)) (detail_members p))
    ++ ["_" +:+ FormatRFC3339 (pl_OccurredAt p) +:+ "_"] in
  JObj [("text", JStr (String.concat (String "010" "") lines))].

Definition encodeBody (whType : string) (p : Payload) : string :=
  if bool_decide (whType = WebhookTypeSlack) then Marshal (slackMessage p) else marshal_payload p.

(** ** Signatures *)

Definition Signature (secret body : string) : string :=
  "sha256=" +:+ hex_encode (hmac_sha256 secret body).

(** ** The dispatcher *)

Record HTTPRequest := {
  hr_URL : string;
  hr_Headers : list (string * string);
  hr_Body : string;
}.

(** [http.NewRequest] refuses a URL; [Client.Do] answers with a status or an
    error, which may differ from attempt to attempt; [errorText] is the
    [Error] method of an error. *)
Class HTTPClient := {
  NewRequest : string → option error;
  Do : nat → HTTPRequest → Z + error;
  errorText : error → string;
}.

(** One delivery goroutine: its webhook, event type and body, and the
    attempts it has made. *)
Record Delivery := {
  dl_Webhook : Webhook;
  dl_EventType : string;
  dl_Body : string;
  dl_Attempt : nat;
}.

(** [dw_started] numbers the deliveries in the order they were started;
    [dw_inflight] holds those that have not returned; [dw_log] the requests
    sent and [dw_attempts] the outcome of each attempt under its delivery's
    number.  [dw_running]: Run has not returned; [dw_cancelled]: its context
    is done. *)
Record dworld := {
  dw_w : world;
  dw_queue : list Event;
  dw_started : list (Event * uuid);
  dw_inflight : gmap nat Delivery;
  dw_attempts : list (nat * (Z + error));
  dw_log : list HTTPRequest;
  dw_running : bool;
  dw_cancelled : bool;
}.

#[export] Instance eta_dworld : Eta dworld :=
  λ r, Build_dworld (dw_w r) (dw_queue r) (dw_started r) (dw_inflight r) (dw_attempts r)
    (dw_log r) (dw_running r) (dw_cancelled r).

Definition backoff : list Z := [1 * second; 5 * second; 25 * second]%Z.

Section Dispatcher.
Context {ENV : Env} {HTTP : HTTPClient} (cipher : option Cipher).

Abbreviation Dp := (M dworld error).

Definition on_w {A} (m : Op A) : Dp A := λ s,
  let '(r, w) := m (dw_w s) in (r, s <| dw_w := w |>).

(** The loop of [Publish]: with the queue full the oldest event makes room. *)
Fixpoint publish_loop (fuel : nat) (evt : Event) (q : list Event) : option (list Event) :=
  match fuel with
  | O => None
  | S fuel' => if length q <? queueSize then Some (q ++ [evt]) else publish_loop fuel' evt (tail q)
  end.

Definition Publish (evt : Event) : Dp unit :=
  mmodify (λ s, s <| dw_queue ::= λ q, default q (publish_loop 2 evt q) |>).

Definition AgentEvent (eventType : string) (agentID customerID : uuid) (detail : option json) : Dp unit :=
  now ← on_w time_Now;
  Publish {| evt_Type := eventType; evt_OccurredAt := now; evt_AgentID := agentID;
             evt_CustomerID := customerID; evt_Detail := detail |}.

Definition buildPayload (evt : Event) : Dp Payload :=
  r ← mtry (on_w (GetAgent (evt_AgentID evt)));
  let info :=
    match r with
    | inl a => {| ai_ID := evt_AgentID evt; ai_Name := a_Name a; ai_Class := a_Class a;
                  ai_CustomerID := a_CustomerID a; ai_CustomerName := a_CustomerName a |}
    | inr _ => {| ai_ID := evt_AgentID evt; ai_Name := None; ai_Class := AgentClassEdge;
                  ai_CustomerID := if bool_decide (evt_CustomerID evt = 0%N) then None
                                   else Some (evt_CustomerID evt);
                  ai_CustomerName := None |}
    end in
  mret {| pl_Event := evt_Type evt; pl_OccurredAt := evt_OccurredAt evt;
          pl_Agent := Some info; pl_Detail := evt_Detail evt |}.

Definition subscribed (evt : Event) (wh : Webhook) : bool :=
  w_Enabled wh && bool_decide (evt_Type evt ∈ w_Events wh).

(** The loop of [dispatch] over the webhooks. *)
Definition matched_hooks (evt : Event) (hooks : list Webhook) : list Webhook :=
  filter (λ wh, subscribed evt wh = true) hooks.

(** [go func() { d.deliverWithRetry(...) }()]. *)
Definition start (evt : Event) (wh : Webhook) (body : string) : Dp unit :=
  mmodify (λ s, s
    <| dw_inflight ::= <[length (dw_started s) := {| dl_Webhook := wh; dl_EventType := evt_Type evt;
                                                     dl_Body := body; dl_Attempt := 0 |}]> |>
    <| dw_started ::= λ l, l ++ [(evt, w_ID wh)] |>).

Definition dispatch (evt : Event) : Dp unit :=
  r ← mtry (on_w ListWebhooks);
  match r with
  | inr _ => mret tt
  | inl hooks =>
    match matched_hooks evt hooks with
    | [] => mret tt
    | matched =>
      payload ← buildPayload evt;
      mfor matched (λ wh, start evt wh (encodeBody (w_Type wh) payload))
    end
  end.

(** [Deliver]: only generic channels with a secret are signed. *)
Definition Deliver (wh : Webhook) (eventType body : string) : Dp Z :=
  match NewRequest (w_URL wh) with
  | Some e => mthrow (Wrap "build request" e)
  | None =>
    id ← on_w uuid_New;
    let headers := [("Content-Type", "application/json"); ("X-Otelfleet-Event", eventType);
                    ("X-Otelfleet-Delivery", uuid_String id)] in
    let enc := default "" (w_SecretEnc wh) in
    headers ← (if negb (bool_decide (w_Type wh = WebhookTypeSlack)) && negb (bool_decide (enc = ""))
               then match Decrypt cipher enc with
                    | inr e => mthrow (Wrap "decrypt webhook secret" e)
                    | inl secret => mret (headers ++ [("X-Otelfleet-Signature", Signature secret body)])
                    end
               else mret headers);
    n ← on_w tick;
    let req := {| hr_URL := w_URL wh; hr_Headers := headers; hr_Body := body |} in
    mmodify (λ s, s <| dw_log ::= λ l, l ++ [req] |>);;
    match Do n req with inl status => mret status | inr e => mthrow e end
  end.

(** What a delivery does after an attempt. *)
Definition accepted (r : Z + error) : bool :=
  match r with inl status => (200 <=? status)%Z && (status <? 300)%Z | inr _ => false end.
Definition rejected (r : Z + error) : bool :=
  match r with inl status => negb (accepted r) && (status <? 500)%Z | inr _ => false end.
Definition retriable (r : Z + error) : bool := negb (accepted r) && negb (rejected r).

(** One round of the loop of [deliverWithRetry]; the delivery that goes on
    sleeps [backoff[attempt]] first. *)
Definition attempt (n : nat) (d : Delivery) : Dp unit :=
  r ← mtry (Deliver (dl_Webhook d) (dl_EventType d) (dl_Body d));
  mmodify (λ s, s
    <| dw_attempts ::= λ l, l ++ [(n, r)] |>
    <| dw_inflight ::=
         if negb (retriable r) || (length backoff <=? dl_Attempt d) then delete n
         else <[n := {| dl_Webhook := dl_Webhook d; dl_EventType := dl_EventType d;
                        dl_Body := dl_Body d; dl_Attempt := S (dl_Attempt d) |}]> |>).

(** [SendTest]: one attempt and how it is reported. *)
Definition SendTest (wh : Webhook) : Dp (bool * string) :=
  now ← on_w time_Now;
  let body := encodeBody (w_Type wh)
    {| pl_Event := "test"; pl_OccurredAt := now; pl_Agent := None;
       pl_Detail := Some (JObj [("message", JStr "otelfleet test delivery"); ("channel", JStr (w_Name wh))]) |} in
  r ← mtry (Deliver wh "test" body);
  mret match r with
       | inr e => (false, "delivery failed: " +:+ errorText e)
       | inl status => (accepted (inl status), "receiver returned HTTP " +:+ Itoa status)
       end.

(** The dispatcher as the API's tester; a request for a test meets neither the
    queue nor the deliveries. *)
Definition tester : WebhookTester := {|
  wt_SendTest wh := λ w,
    let '(r, s) := SendTest wh {| dw_w := w; dw_queue := []; dw_started := []; dw_inflight := ∅;
                                  dw_attempts := []; dw_log := []; dw_running := true;
                                  dw_cancelled := false |} in
    (r, dw_w s) |}.

(** ** Steps *)

(** The worker takes the oldest event; a delivery makes its next attempt.
    The worker's two reads and the starts of one event are one step: attempts
    in between would see the same tables and touch other deliveries. *)
Inductive work (s : dworld) : dworld → Prop :=
  | work_consume evt q :
    dw_running s = true → dw_queue s = evt :: q →
    work s (dispatch evt (s <| dw_queue := q |>)).2
  | work_attempt n d :
    dw_inflight s !! n = Some d → work s (attempt n d s).2.

(** Besides: events are published, the context is cancelled, [Run] returns,
    and a sleeping delivery notices the cancellation. *)
Inductive dstep (s : dworld) : dworld → Prop :=
  | dstep_work s' : work s s' → dstep s s'
  | dstep_publish eventType agentID customerID detail :
    dstep s (AgentEvent eventType agentID customerID detail s).2
  | dstep_cancel : dstep s (s <| dw_cancelled := true |>)
  | dstep_return : dw_cancelled s = true → dstep s (s <| dw_running := false |>)
  | dstep_give_up n d :
    dw_cancelled s = true → dw_inflight s !! n = Some d → 0 < dl_Attempt d →
    dstep s (s <| dw_inflight ::= delete n |>).

End Dispatcher.

(** [New] on the tables as they are. *)
Definition dworld_init (w : world) : dworld := {|
  dw_w := w; dw_queue := []; dw_started := []; dw_inflight := ∅; dw_attempts := []; dw_log := [];
  dw_running := true; dw_cancelled := false |}.

End Webhooks.
