(* ===== verification/WebhooksProps.v ===== *)
(** * Properties of the webhook dispatcher

    The queue is bounded and keeps the newest events; every event taken from
    it is tried at every subscribed webhook until the receiver decides or four
    attempts have failed, whatever the interleaving; and deliveries carry the
    signature their receiver checks. *)
From Stdlib Require Import Ascii.
From S2P Require Import Prelude GoStrings GoText Sha256 Store World PgCore PgFleet PgMisc StoreCalls Json JsonText Crypto OpAMP Webhooks.

Import Webhooks.

(** ** The queue *)

(** The last [n] elements. *)
Definition lastn {A} (n : nat) (l : list A) : list A := drop (length l - n) l.

Lemma publish_keeps_newest evt q :
  length q ≤ queueSize → publish_loop 2 evt q = Some (lastn queueSize (q ++ [evt])).
Proof.
  intros Hq. cbn [publish_loop]. unfold lastn. rewrite length_app. cbn [length].
  destruct (length q <? queueSize) eqn:E.
  - apply Nat.ltb_lt in E. by replace (_ - _) with 0 by lia.
  - apply Nat.ltb_ge in E. destruct q as [|x q]; [done|]. cbn [tail length] in *.
    replace (length q <? queueSize) with true by (symmetry; apply Nat.ltb_lt; lia).
    by replace (S (length q) + 1 - queueSize) with 1 by lia.
Qed.

#[global] Arguments publish_loop : simpl never.

(** ** Outcomes of a delivery *)

Definition outcomes (n : nat) (l : list (nat * (Z + error))) : list (Z + error) :=
  omap (λ '(m, r), if bool_decide (m = n) then Some r else None) l.

#[global] Arguments outcomes : simpl never.
#[global] Arguments backoff : simpl never.

(** The attempts of a delivery that has returned: failures that may pass, then
    a verdict of the receiver or the fourth failure. *)
Definition finished (l : list (Z + error)) : Prop :=
  ∃ l' r, l = l' ++ [r] ∧ Forall (λ x, retriable x = true) l' ∧ length l' ≤ length backoff ∧
          (retriable r = true → length l' = length backoff).

Record dinv (s : dworld) : Prop := {
  di_queue : length (dw_queue s) ≤ queueSize;
  di_inflight : ∀ n d, dw_inflight s !! n = Some d →
    n < length (dw_started s) ∧ dl_Attempt d = length (outcomes n (dw_attempts s)) ∧
    dl_Attempt d ≤ length backoff ∧ Forall (λ x, retriable x = true) (outcomes n (dw_attempts s));
  di_attempts : ∀ n r, (n, r) ∈ dw_attempts s → n < length (dw_started s);
  di_finished : ∀ n, n < length (dw_started s) → dw_inflight s !! n = None →
    finished (outcomes n (dw_attempts s)) ∨ dw_cancelled s = true;
}.

Lemma outcomes_app n l l' : outcomes n (l ++ l') = outcomes n l ++ outcomes n l'.
Proof. apply omap_app. Qed.

Lemma outcomes_fresh n l : (∀ r, (n, r) ∉ l) → outcomes n l = [].
Proof.
  induction l as [|[m r] l IH]; intros Hn; [done|]. unfold outcomes; cbn. rewrite bool_decide_false.
  - apply IH. intros r' Hr. apply (Hn r'). by right.
  - intros ->. apply (Hn r). left.
Qed.

Lemma dinv_init w : dinv (dworld_init w).
Proof. split; cbn; try done; intros; [lia|set_solver..|lia]. Qed.

Section Props.
Context {ENV : Env} {HTTP : HTTPClient} (cipher : option Cipher).

Lemma dinv_start evt wh body s : dinv s → dinv (start evt wh body s).2.
Proof.
  intros [Hq Hi Ha Hf]. split; cbn.
  - done.
  - intros n d. rewrite length_app. cbn. destruct (decide (n = length (dw_started s))) as [->|Hne].
    + rewrite lookup_insert_eq. intros [= <-]. cbn. rewrite outcomes_fresh; [split_and!; [lia|done|lia|done]|].
      intros r Hr%Ha. lia.
    + rewrite lookup_insert_ne by done. intros Hd%Hi. destruct_and! Hd. split_and!; try done. lia.
  - intros n r Hr%Ha. rewrite length_app. cbn. lia.
  - intros n. rewrite length_app. cbn. intros Hn. destruct (decide (n = length (dw_started s))) as [->|Hne].
    + by rewrite lookup_insert_eq.
    + rewrite lookup_insert_ne by done. apply Hf. lia.
Qed.

Lemma dinv_same s s' :
  dw_queue s' = dw_queue s ∨ (∃ q, dw_queue s = q ++ dw_queue s') →
  dw_started s' = dw_started s → dw_inflight s' = dw_inflight s →
  dw_attempts s' = dw_attempts s → (dw_cancelled s = true → dw_cancelled s' = true) →
  dinv s → dinv s'.
Proof.
  intros Hqs Hst Hin Hat Hca [Hq Hi Ha Hf]. split; rewrite ?Hst, ?Hin, ?Hat; try done.
  - destruct Hqs as [->|[q E]]; [done|]. rewrite E, length_app in Hq. lia.
  - intros n Hn Hnone. destruct (Hf n Hn Hnone); auto.
Qed.

(** ** What the operations change *)

(** Outside a transaction, as every statement of the dispatcher is. *)
Definition calm (w : world) : Prop := w_aborted w = false ∧ w_txtime w = None.

Definition still : relation world := λ w w', w_db w' = w_db w ∧ (calm w → calm w').

#[local] Instance still_preorder : PreOrder still.
Proof. split; [by intros w|]. intros w1 w2 w3 [? ?] [? ?]. split; [congruence|auto]. Qed.

Lemma still_query {A} (f : db → list A) : steps still (query f).
Proof.
  intros w. unfold still, query, stmt, fail_stmt, calm. destruct (fault _ || _); simpl; [|done].
  split; [done|]. intros [-> Ht]. rewrite Ht. done.
Qed.

Lemma still_queryRow {A} (f : db → option A) : steps still (queryRow f).
Proof.
  intros w. unfold still, queryRow, stmt, fail_stmt, calm. destruct (fault _ || _); simpl.
  - split; [done|]. intros [-> Ht]. rewrite Ht. done.
  - destruct (f (w_db w)); simpl; [done|]. split; [done|]. intros [-> Ht]. rewrite Ht. done.
Qed.

Lemma still_GetAgent id : steps still (GetAgent id).
Proof.
  unfold GetAgent, onErr. apply steps_bind; [apply _|apply steps_try, still_queryRow|].
  intros [a|e]; [apply steps_ret|apply steps_throw]; apply _.
Qed.

(** Only the world moves, and its tables do not. *)
Definition reads (s s' : dworld) : Prop := s' = s <| dw_w := dw_w s' |> ∧ still (dw_w s) (dw_w s').

Lemma reads_on_w {A} (m : Op A) s : steps still m → reads s (on_w m s).2.
Proof. intros Hm. specialize (Hm (dw_w s)). unfold on_w, reads. by destruct (m (dw_w s)). Qed.

Lemma reads_trans s1 s2 s3 : reads s1 s2 → reads s2 s3 → reads s1 s3.
Proof.
  intros [E1 H1] [E2 H2]. split; [|by etrans]. rewrite E2, E1. by destruct s1, s2, s3.
Qed.

Definition hooks_of (w : world) : list Webhook :=
  order_by (by_created w_CreatedAt w_ID) (rows (webhooks (w_db w))).

(** [dispatch] reads, then starts the deliveries of the subscribed webhooks:
    all of them unless its first statement fails. *)
Lemma dispatch_effect evt s :
  ∃ s1 payload matched, reads s s1 ∧
    (dispatch evt s).2 = (mfor matched (λ wh, start evt wh (encodeBody (w_Type wh) payload)) s1).2 ∧
    (matched = [] ∨ matched = matched_hooks evt (hooks_of (dw_w s))) ∧
    ((∀ n, fault n = false) → calm (dw_w s) →
     matched = matched_hooks evt (hooks_of (dw_w s))).
Proof.
  pose (p0 := {| pl_Event := ""; pl_OccurredAt := 0%Z; pl_Agent := None; pl_Detail := None |}).
  unfold dispatch. unfold mtry, mbind at 1, M_bind.
  pose proof (reads_on_w ListWebhooks s (still_query _)) as Hr.
  destruct (on_w ListWebhooks s) as [r s1] eqn:E. simpl in Hr.
  destruct r as [hooks|e].
  - unfold on_w in E. destruct (ListWebhooks (dw_w s)) as [r w] eqn:El. simplify_eq.
    apply query_inl in El as [-> _].
    destruct (matched_hooks _ _) as [|wh matched] eqn:Em.
    + exists (s <| dw_w := w |>), p0, []. unfold hooks_of. split_and!; auto.
    + unfold buildPayload, mtry, mbind, M_bind.
      pose proof (reads_on_w (GetAgent (evt_AgentID evt)) (s <| dw_w := w |>) (still_GetAgent _)) as Hr2.
      destruct (on_w _ _) as [r s2]. simpl in Hr2.
      eexists s2, _, (wh :: matched). unfold hooks_of.
      split_and!; [by eapply reads_trans|reflexivity|by right|done].
  - exists s1, p0, []. split_and!; try done; [by left|]. intros Hnf [Ha _].
    unfold on_w, ListWebhooks, query, stmt in E. rewrite Hnf, Ha in E. done.
Qed.

Lemma dinv_starts evt l payload s :
  dinv s → dinv (mfor l (λ wh, start evt wh (encodeBody (w_Type wh) payload)) s).2.
Proof.
  revert s. induction l as [|wh l IH]; intros s Hs; [done|].
  cbn [mfor]. unfold mbind, M_bind.
  apply (IH (start evt wh (encodeBody (w_Type wh) payload) s).2). by apply dinv_start.
Qed.

Lemma dinv_dispatch evt s : dinv s → dinv (dispatch evt s).2.
Proof.
  intros Hs. destruct (dispatch_effect evt s) as (s1 & p & l & [E _] & -> & _).
  apply dinv_starts. rewrite E. apply (dinv_same s); try done. by left.
Qed.

Lemma Deliver_effect wh ty body s :
  ∃ l, still (dw_w s) (dw_w (Deliver cipher wh ty body s).2) ∧
    (Deliver cipher wh ty body s).2
    = s <| dw_w := dw_w (Deliver cipher wh ty body s).2 |> <| dw_log := l |>.
Proof.
  unfold Deliver. destruct (NewRequest _); [exists (dw_log s); by destruct s|].
  unfold on_w, uuid_New, tick, mbind, M_bind. cbn.
  assert (Hst : ∀ w n, still w (w <| w_tick ::= n |>)) by done.
  destruct (negb _ && negb _); [destruct (Decrypt _ _)|]; cbn.
  2: { exists (dw_log s). split; [done|]. by destruct s. }
  all: destruct (Do _ _); cbn; eexists; (split; [|reflexivity]); done.
Qed.

(** A generic channel's deliveries carry the signature its receiver computes
    with the secret it was created with; a Slack channel's carry none. *)
Lemma delivery_signed (c : Cipher) secret w ct w' wh ty body s :
  cipher = Some c → cipher_ok c → Encrypt (Some c) secret w = (inl ct, w') →
  w_SecretEnc wh = Some ct → w_Type wh ≠ WebhookTypeSlack → NewRequest (w_URL wh) = None →
  ∃ req, dw_log (Deliver cipher wh ty body s).2 = dw_log s ++ [req] ∧ hr_Body req = body ∧
    ("X-Otelfleet-Signature", Signature secret body) ∈ hr_Headers req.
Proof.
  intros -> Hc He Hs Ht Hn. pose proof (Decrypt_Encrypt _ _ _ _ _ Hc He) as Hd.
  assert (Hne : ct ≠ "") by (by intros ->).
  unfold Deliver. rewrite Hn, Hs. unfold on_w, uuid_New, tick, mbind, M_bind.
  cbn -[Decrypt]. rewrite !bool_decide_false by done. cbn -[Decrypt]. rewrite Hd. cbn.
  destruct (Do _ _); cbn; eexists; (split_and!; [reflexivity|reflexivity|cbn; set_solver]).
Qed.

Lemma slack_unsigned wh ty body s :
  w_Type wh = WebhookTypeSlack → NewRequest (w_URL wh) = None →
  ∃ req, dw_log (Deliver cipher wh ty body s).2 = dw_log s ++ [req] ∧
    "X-Otelfleet-Signature" ∉ (hr_Headers req).*1.
Proof.
  intros Ht Hn. unfold Deliver. rewrite Hn. unfold on_w, uuid_New, tick, mbind, M_bind. cbn.
  rewrite bool_decide_true by done. cbn.
  destruct (Do _ _); cbn; eexists; (split; [reflexivity|cbn; set_solver]).
Qed.

Lemma attempt_effect n d s :
  ∃ r w l, still (dw_w s) w ∧ (attempt cipher n d s).2 =
    s <| dw_w := w |> <| dw_log := l |> <| dw_attempts ::= λ l, l ++ [(n, r)] |>
      <| dw_inflight ::=
           if negb (retriable r) || (length backoff <=? dl_Attempt d) then delete n
           else <[n := {| dl_Webhook := dl_Webhook d; dl_EventType := dl_EventType d;
                          dl_Body := dl_Body d; dl_Attempt := S (dl_Attempt d) |}]> |>.
Proof.
  unfold attempt, mtry, mbind, M_bind.
  destruct (Deliver_effect (dl_Webhook d) (dl_EventType d) (dl_Body d) s) as (l & Hst & E).
  destruct (Deliver _ _ _ _ s) as [r s1]. simpl in *. exists r, (dw_w s1), l. split; [done|].
  rewrite E. by destruct s.
Qed.


Lemma dinv_attempt n d s : dinv s → dw_inflight s !! n = Some d → dinv (attempt cipher n d s).2.
Proof.
  intros [Hq Hi Ha Hf] Hd. destruct (attempt_effect n d s) as (r & w & l & _ & ->).
  pose proof (Hi n d Hd) as (Hlt & Hatt & Hle & Hall).
  assert (Hout : ∀ m, outcomes m (dw_attempts s ++ [(n, r)])
                      = outcomes m (dw_attempts s) ++ (if bool_decide (n = m) then [r] else [])).
  { intros m. rewrite outcomes_app. f_equal. unfold outcomes; cbn. by destruct (bool_decide _). }
  assert (Hother : ∀ m, m ≠ n → outcomes m (dw_attempts s ++ [(n, r)]) = outcomes m (dw_attempts s)).
  { intros m Hm. rewrite Hout, bool_decide_false, app_nil_r by done. done. }
  split; cbn; [done| | |].
  - intros m d'. destruct (decide (m = n)) as [->|Hm].
    + rewrite Hout, bool_decide_true by done.
      destruct (_ || _) eqn:E; [by rewrite lookup_delete_eq|]. rewrite lookup_insert_eq.
      intros [= <-]. cbn. apply orb_false_iff in E as [Hr%negb_false_iff Hb%Nat.leb_gt].
      rewrite length_app. cbn [length]. rewrite <- Hatt. split_and!; [done|lia|lia|].
      apply Forall_app. by split; [|constructor].
    + rewrite Hother by done. destruct (_ || _); rewrite ?lookup_delete_ne, ?lookup_insert_ne by done; apply Hi.
  - intros m r'. rewrite elem_of_app, list_elem_of_singleton. intros [H|[= -> ->]]; [by eapply Ha|done].
  - intros m Hm. destruct (decide (m = n)) as [->|Hne].
    + rewrite Hout, bool_decide_true by done. destruct (_ || _) eqn:E.
      * intros _. left. eexists _, r. split_and!; [done|done|by rewrite <- Hatt|].
        intros Hr. rewrite Hr in E. cbn [negb orb] in E. apply Nat.leb_le in E. lia.
      * by rewrite lookup_insert_eq.
    + rewrite Hother by done. destruct (_ || _); rewrite ?lookup_delete_ne, ?lookup_insert_ne by done; by apply Hf.
Qed.

Lemma dinv_work s s' : work cipher s s' → dinv s → dinv s'.
Proof.
  intros [evt q _ Hq|n d Hd] Hs; [|by apply dinv_attempt].
  apply dinv_dispatch. apply (dinv_same s); try done. right. exists [evt]. done.
Qed.

(** Every step keeps the invariant. *)
Lemma dinv_step s s' : dstep cipher s s' → dinv s → dinv s'.
Proof.
  intros [s1 Hw|ty aid cid detail| |Hc|n d Hc Hd Hpos] Hs.
  - by eapply dinv_work.
  - destruct Hs as [Hq Hi Ha Hf]. unfold AgentEvent, Publish. unfold on_w, time_Now, tick, mbind, M_bind. cbn.
    split; cbn; try done. rewrite publish_keeps_newest by done. unfold lastn, from_option, id.
    rewrite length_drop. lia.
  - apply (dinv_same s); try done. by left.
  - apply (dinv_same s); try done. by left.
  - destruct Hs as [Hq Hi Ha Hf]. split; cbn; try done.
    + intros m d' [_ Hm]%lookup_delete_Some. by apply Hi.
    + intros m Hm _. by right.
Qed.

Lemma dinv_reachable w s : rtc (dstep cipher) (dworld_init w) s → dinv s.
Proof.
  generalize (dinv_init w). generalize (dworld_init w). intros x Hx Hr.
  induction Hr as [|x y z Hxy _ IH]; [done|]. by eapply IH, dinv_step.
Qed.

(** ** Draining *)

Lemma starts_effect evt l payload s :
  ∃ inflight, (mfor l (λ wh, start evt wh (encodeBody (w_Type wh) payload)) s).2
  = s <| dw_started ::= λ x, x ++ map (λ wh, (evt, w_ID wh)) l |> <| dw_inflight := inflight |>.
Proof.
  revert s. induction l as [|wh l IH]; intros s; cbn [mfor map].
  - exists (dw_inflight s). destruct s; cbn. by rewrite app_nil_r.
  - unfold mbind, M_bind. destruct (IH (start evt wh (encodeBody (w_Type wh) payload) s).2) as [i E].
    exists i. cbn in E |- *. rewrite E. cbn. by rewrite <- app_assoc.
Qed.

(** The deliveries the events of a queue ask for, in order. *)
Definition due (hooks : list Webhook) (q : list Event) : list (Event * uuid) :=
  q ≫= λ evt, (λ wh, (evt, w_ID wh)) <$> matched_hooks evt hooks.

(** What draining keeps: the tables, the flags, and the deliveries that were
    started or are still due. *)
Record draining (hooks : list Webhook) (todo : list (Event * uuid)) (s : dworld) : Prop := {
  dr_inv : dinv s;
  dr_running : dw_running s = true;
  dr_cancelled : dw_cancelled s = false;
  dr_calm : calm (dw_w s);
  dr_hooks : hooks_of (dw_w s) = hooks;
  dr_todo : dw_started s ++ due hooks (dw_queue s) = todo;
}.

Lemma draining_work hooks todo s s' :
  (∀ n, fault n = false) → work cipher s s' → draining hooks todo s → draining hooks todo s'.
Proof.
  intros Hnf Hw [Hi Hr Hc Hcalm Hh Ht].
  assert (Hi' : dinv s') by (by eapply dinv_work).
  destruct Hw as [evt q _ Hq|n d Hd].
  - destruct (dispatch_effect evt (s <| dw_queue := q |>)) as (s1 & p & l & [E [Hdb Hcl]] & E2 & _ & Hl).
    destruct (starts_effect evt l p s1) as [infl E3]. rewrite E3 in E2. rewrite E2 in *.
    specialize (Hl Hnf Hcalm). cbn in Hl, Hdb, Hcl. rewrite Hh in Hl. subst l.
    remember (dw_w s1) as w1 eqn:Hw1. clear Hw1. subst s1.
    split; cbn; try done; [by apply Hcl|by unfold hooks_of; rewrite Hdb|].
    rewrite <- Ht, Hq, <- app_assoc. do 2 f_equal.
  - destruct (attempt_effect n d s) as (r & w & l & [Hdb Hcl] & E). rewrite E in *.
    split; cbn; try done; [by apply Hcl|by unfold hooks_of; rewrite Hdb].
Qed.

(** ** Termination *)

Definition weight (d : Delivery) : nat := S (length backoff) - dl_Attempt d.
Definition total (m : gmap nat Delivery) : nat := map_fold (λ _ d acc, weight d + acc) 0 m.

Lemma total_delete m n d : m !! n = Some d → total m = weight d + total (delete n m).
Proof.
  intros Hm. unfold total. rewrite (map_fold_delete_L (λ _ d acc, weight d + acc) 0 n d m); [done| |done].
  intros; lia.
Qed.

Lemma total_insert m n d : total (<[n := d]> m) ≤ weight d + total m.
Proof.
  rewrite (total_delete _ n d) by apply lookup_insert_eq. rewrite delete_insert_eq.
  destruct (m !! n) as [d'|] eqn:E.
  - rewrite (total_delete m n d' E). lia.
  - by rewrite delete_id.
Qed.

Definition measure (nhooks : nat) (s : dworld) : nat :=
  length (dw_queue s) * S (nhooks * S (length backoff)) + total (dw_inflight s).

Lemma measure_starts n evt l payload s :
  measure n (mfor l (λ wh, start evt wh (encodeBody (w_Type wh) payload)) s).2
  ≤ measure n s + length l * S (length backoff).
Proof.
  revert s. induction l as [|wh l IH]; intros s; cbn [mfor]; [cbn; lia|].
  unfold mbind, M_bind.
  etrans; [apply (IH (start evt wh (encodeBody (w_Type wh) payload) s).2)|].
  unfold measure, start, mmodify. cbn [snd dw_queue dw_inflight dw_started length].
  pose proof (total_insert (dw_inflight s) (length (dw_started s))
    {| dl_Webhook := wh; dl_EventType := evt_Type evt;
       dl_Body := encodeBody (w_Type wh) payload; dl_Attempt := 0 |}) as Ht.
  unfold weight in Ht. cbn [dl_Attempt] in Ht. cbn in Ht |- *. lia.
Qed.

(** Draining ends, whatever the order. *)
Lemma work_decreases hooks todo s s' :
  draining hooks todo s → work cipher s s' → measure (length hooks) s' < measure (length hooks) s.
Proof.
  intros [Hi _ _ _ Hh _] [evt q _ Hq|n d Hd].
  - destruct (dispatch_effect evt (s <| dw_queue := q |>)) as (s1 & p & l & [E _] & -> & Hl & _).
    pose proof (measure_starts (length hooks) evt l p s1) as Hm.
    assert (Hlen : length l ≤ length hooks).
    { destruct Hl as [->| ->]; [cbn; lia|]. cbn. rewrite Hh. apply length_filter. }
    assert (Hs1 : measure (length hooks) s1 + S (length hooks * S (length backoff)) = measure (length hooks) s).
    { rewrite E. unfold measure; cbn. rewrite Hq. cbn. lia. }
    nia.
  - destruct (attempt_effect n d s) as (r & w & l & _ & ->).
    destruct (di_inflight _ Hi n d Hd) as (_ & _ & Hle & _).
    unfold measure; cbn. rewrite (total_delete (dw_inflight s) n d Hd).
    destruct (_ || _) eqn:Ec; [unfold weight; lia|].
    apply orb_false_iff in Ec as [_ Hb%Nat.leb_gt].
    rewrite <- insert_delete_eq.
    pose proof (total_insert (delete n (dw_inflight s)) n
      {| dl_Webhook := dl_Webhook d; dl_EventType := dl_EventType d; dl_Body := dl_Body d;
         dl_Attempt := S (dl_Attempt d) |}) as Ht.
    unfold weight in *. cbn [dl_Attempt] in *. lia.
Qed.

Lemma draining_sn hooks todo s :
  (∀ n, fault n = false) → draining hooks todo s → sn (work cipher) s.
Proof.
  intros Hnf. remember (measure (length hooks) s) as k eqn:Hk. revert s Hk.
  induction (lt_wf k) as [k _ IH]. intros s -> Hs. constructor. intros s' Hw.
  eapply IH; [|reflexivity|by eapply draining_work]. by eapply work_decreases.
Qed.

(** What may still happen when nothing can: nothing is waiting. *)
Lemma draining_done hooks todo s :
  draining hooks todo s → nf (work cipher) s →
  dw_queue s = [] ∧ dw_inflight s = ∅ ∧ dw_started s = todo ∧
  ∀ n, n < length (dw_started s) → finished (outcomes n (dw_attempts s)).
Proof.
  intros [Hi Hr Hc _ _ Ht] Hnf.
  assert (Hq : dw_queue s = []).
  { destruct (dw_queue s) as [|evt q] eqn:E; [done|]. exfalso. apply Hnf. eexists. by eapply work_consume. }
  assert (Hin : dw_inflight s = ∅).
  { apply map_eq. intros n. rewrite lookup_empty. destruct (dw_inflight s !! n) as [d|] eqn:E; [|done].
    exfalso. apply Hnf. eexists. by eapply work_attempt. }
  rewrite Hq in Ht. cbn in Ht. rewrite app_nil_r in Ht. split_and!; try done.
  intros n Hn. destruct (di_finished _ Hi n Hn) as [Hf|Hf]; [by rewrite Hin|done|congruence].
Qed.

Lemma draining_rtc hooks todo s s' :
  (∀ n, fault n = false) → rtc (work cipher) s s' → draining hooks todo s → draining hooks todo s'.
Proof. intros Hnf Hw. induction Hw as [|x y z Hxy _ IH]; [done|]. intros Hx. by eapply IH, draining_work. Qed.

End Props.

(** C31: No queued event is lost: in every state the dispatcher reaches in
    operation, however the worker and the deliveries interleave from there,
    they come to rest; then each event that was queued has been delivered to
    exactly the enabled webhooks subscribed to it, in the order of the queue,
    and every delivery has ended with a verdict of its receiver or with its
    fourth failed attempt - provided the database answers. *)
Theorem queued_events_delivered {ENV : Env} {HTTP : HTTPClient} (cipher : option Cipher)
    (w0 : world) (s : dworld) :
  (∀ n, fault n = false) → calm (dw_w s) →
  rtc (dstep cipher) (dworld_init w0) s → dw_running s = true → dw_cancelled s = false →
  sn (work cipher) s ∧
  ∀ s', rtc (work cipher) s s' → nf (work cipher) s' →
    dw_queue s' = [] ∧ dw_inflight s' = ∅ ∧
    dw_started s' = dw_started s ++ due (hooks_of (dw_w s)) (dw_queue s) ∧
    ∀ n, n < length (dw_started s') → finished (outcomes n (dw_attempts s')).
Proof.
  intros Hnf Hcalm Hreach Hr Hc.
  assert (Hs : draining (hooks_of (dw_w s)) (dw_started s ++ due (hooks_of (dw_w s)) (dw_queue s)) s).
  { split; try done. by eapply dinv_reachable. }
  split; [by eapply draining_sn|]. intros s' Hw Hn.
  eapply draining_done; [|done]. by eapply draining_rtc.
Qed.

(** ** A concrete run *)

Section Drain.
Context {ENV : Env} {HTTP : HTTPClient} (cipher : option Cipher).

(** One schedule: the queue first, then the deliveries in turn. *)
Fixpoint drain (fuel : nat) (s : dworld) : dworld :=
  match fuel with
  | O => s
  | S fuel' =>
    match dw_queue s with
    | evt :: q => drain fuel' (dispatch evt (s <| dw_queue := q |>)).2
    | [] => match head (map_to_list (dw_inflight s)) with
            | Some (n, d) => drain fuel' (attempt cipher n d s).2
            | None => s
            end
    end
  end.

Lemma drain_rtc fuel s : dinv s → dw_running s = true → rtc (work cipher) s (drain fuel s).
Proof.
  revert s. induction fuel as [|fuel IH]; intros s Hi Hr; [done|]. cbn [drain].
  destruct (dw_queue s) as [|evt q] eqn:Eq.
  - destruct (head _) as [[n d]|] eqn:Eh; [|done].
    apply head_Some_elem_of, elem_of_map_to_list in Eh.
    pose proof (work_attempt cipher s n d Eh) as Hw.
    eapply rtc_l; [exact Hw|]. apply IH; [by eapply dinv_work|].
    destruct (attempt_effect cipher n d s) as (? & ? & ? & _ & ->). done.
  - pose proof (work_consume cipher s evt q Hr Eq) as Hw.
    eapply rtc_l; [exact Hw|]. apply IH; [by eapply dinv_work|].
    destruct (dispatch_effect evt (s <| dw_queue := q |>)) as (s1 & p & l & [E _] & -> & _).
    destruct (starts_effect evt l p s1) as [i ->]. rewrite E. done.
Qed.

Lemma resting s : dw_queue s = [] → dw_inflight s = ∅ → nf (work cipher) s.
Proof. intros Hq Hi [s' [evt q _ Hq'|n d Hd]]; [congruence|]. by rewrite Hi in Hd. Qed.

End Drain.

(** A receiver that is down at first. *)
Definition flaky_http : HTTPClient := {|
  NewRequest _ := None;
  Do n _ := if n <? 10 then inl 503%Z else inl 204%Z;
  errorText _ := "" |}.

Definition hook_world : world :=
  (@CreateWebhook quiet_env {| nw_ID := 5; nw_Type := WebhookTypeGeneric; nw_Name := "ops";
     nw_URL := "https://ops.example/hook"; nw_Events := [WebhookEventAgentOffline];
     nw_SecretEnc := None; nw_Enabled := true; nw_CreatedBy := None |} [] world_init).2.

Definition event_queued : dworld :=
  (@AgentEvent quiet_env WebhookEventAgentOffline 1 2 None (dworld_init hook_world)).2.

Definition drained : dworld := @drain quiet_env flaky_http None 10 event_queued.

Lemma event_queued_reachable :
  rtc (@dstep quiet_env flaky_http None) (dworld_init hook_world) event_queued.
Proof. apply rtc_once, (@dstep_publish quiet_env flaky_http None). Qed.

(** Two failures, then the receiver is back. *)
Lemma queued_events_delivered_witness :
  sn (@work quiet_env flaky_http None) event_queued ∧
  dw_started drained = due (hooks_of hook_world) (dw_queue event_queued) ∧
  length (dw_started drained) = 1 ∧
  finished (outcomes 0 (dw_attempts drained)) ∧
  dw_attempts drained = [(0, inl 503%Z); (0, inl 503%Z); (0, inl 204%Z)].
Proof.
  destruct (@queued_events_delivered quiet_env flaky_http None hook_world event_queued
              (λ _, eq_refl) (conj eq_refl eq_refl) event_queued_reachable eq_refl eq_refl) as [Hsn Hd].
  split; [exact Hsn|].
  destruct (Hd drained) as (_ & _ & Hst & Hfin).
  - apply drain_rtc; [exact (dinv_reachable _ _ _ event_queued_reachable)|reflexivity].
  - apply resting; vm_compute; reflexivity.
  - split; [exact Hst|]. split; [vm_compute; reflexivity|].
    split; [apply Hfin; vm_compute; lia|vm_compute; reflexivity].
Defined.
