(* ===== verification/Scim.v ===== *)
(** * SCIM 2.0 provisioning (internal/scim/scim.go)

    Identity providers create, update and deprovision console users: the
    resources, how requests are decoded, the handlers over the store and the
    check of the admin token in front of them.  A handler answers every error
    itself, so its result is an [outcome]; [Panicked] is a Go panic, which the
    router's Recoverer turns into a bare 500. *)
From Stdlib Require Import Ascii.
From S2P Require Import Prelude GoStrings GoText Store World PgCore PgUsers Tokens Json JsonText PipelineGraph Auth ApiTypes ApiGuard.

Module Scim.

Definition schemaUser : string := "urn:ietf:params:scim:schemas:core:2.0:User".
Definition schemaListResponse : string := "urn:ietf:params:scim:api:messages:2.0:ListResponse".
Definition schemaError : string := "urn:ietf:params:scim:api:messages:2.0:Error".

(** ** Resources *)

Record email := { em_Value : string; em_Primary : bool }.
Record name := { nm_Formatted : string }.
Record meta := {
  mt_ResourceType : string;
  mt_Created : string;
  mt_LastModified : string;
  mt_Location : string;
}.

Record userResource := {
  sr_Schemas : list string;
  sr_ID : string;
  sr_ExternalID : string;
  sr_UserName : string;
  sr_Name : option name;
  sr_DisplayName : string;
  sr_Emails : list email;
  sr_Active : bool;
  sr_Meta : meta;
}.

Definition toResource (u : UserWithIdentities) : userResource :=
  let x := ui_User u in
  let display := default "" (u_DisplayName x) in
  {| sr_Schemas := [schemaUser];
     sr_ID := uuid_String (u_ID x);
     sr_ExternalID := default "" (u_ExternalID x);
     sr_UserName := u_Email x;
     sr_Name := if bool_decide (display = "") then None else Some {| nm_Formatted := display |};
     sr_DisplayName := display;
     sr_Emails := [{| em_Value := u_Email x; em_Primary := true |}];
     sr_Active := is_none (u_DisabledAt x);
     sr_Meta := {| mt_ResourceType := "User";
                   mt_Created := FormatRFC3339 (u_CreatedAt x);
                   mt_LastModified := "";
                   mt_Location := "/scim/v2/Users/" +:+ uuid_String (u_ID x) |} |}.

(** The struct tags: [omitempty] drops empty strings, false and nil. *)
Definition omitempty (k v : string) : list (string * string) :=
  if bool_decide (v = "") then [] else [(k, json_string v)].

Definition encode_email (e : email) : string :=
  json_object (("value", json_string (em_Value e))
               :: if em_Primary e then [("primary", "true")] else []).
Definition encode_meta (m : meta) : string :=
  json_object ([("resourceType", json_string (mt_ResourceType m))]
               ++ omitempty "created" (mt_Created m) ++ omitempty "lastModified" (mt_LastModified m)
               ++ [("location", json_string (mt_Location m))]).

Definition encode_resource (r : userResource) : string :=
  json_object
    ([("schemas", json_array (map json_string (sr_Schemas r))); ("id", json_string (sr_ID r))]
     ++ omitempty "externalId" (sr_ExternalID r)
     ++ [("userName", json_string (sr_UserName r))]
     ++ match sr_Name r with
        | Some n => [("name", json_object (omitempty "formatted" (nm_Formatted n)))]
        | None => []
        end
     ++ omitempty "displayName" (sr_DisplayName r)
     ++ match sr_Emails r with [] => [] | es => [("emails", json_array (map encode_email es))] end
     ++ [("active", if sr_Active r then "true" else "false"); ("meta", encode_meta (sr_Meta r))]).

(** ** The User payload *)

Record userPayload := {
  p_UserName : string;
  p_ExternalID : string;
  p_DisplayName : string;
  p_Name : option name;
  p_Emails : slice email;
  p_Active : option bool;
}.

#[export] Instance eta_email : Eta email := λ r, Build_email (em_Value r) (em_Primary r).
#[export] Instance eta_name : Eta name := λ r, Build_name (nm_Formatted r).
#[export] Instance eta_userPayload : Eta userPayload :=
  λ r, Build_userPayload (p_UserName r) (p_ExternalID r) (p_DisplayName r) (p_Name r)
    (p_Emails r) (p_Active r).

Definition email_fields : setters email :=
  [("value", λ e v, s ← decode_text (em_Value e) v; Some (e <| em_Value := s |>));
   ("primary", λ e v, b ← decode_bool (em_Primary e) v; Some (e <| em_Primary := b |>))].
Definition name_fields : setters name :=
  [("formatted", λ n v, s ← decode_text (nm_Formatted n) v; Some (n <| nm_Formatted := s |>))].

Definition no_email : email := {| em_Value := ""; em_Primary := false |}.
Definition no_name : name := {| nm_Formatted := "" |}.
Definition no_payload : userPayload := {|
  p_UserName := ""; p_ExternalID := ""; p_DisplayName := ""; p_Name := None;
  p_Emails := Build_slice [] []; p_Active := None |}.

Definition payload_fields : setters userPayload :=
  [("userName", λ p v, s ← decode_text (p_UserName p) v; Some (p <| p_UserName := s |>));
   ("externalId", λ p v, s ← decode_text (p_ExternalID p) v; Some (p <| p_ExternalID := s |>));
   ("displayName", λ p v, s ← decode_text (p_DisplayName p) v; Some (p <| p_DisplayName := s |>));
   ("name", λ p v,
      match v with
      | JNull => Some (p <| p_Name := None |>)
      | _ => n ← decode_struct name_fields (default no_name (p_Name p)) v;
             Some (p <| p_Name := Some n |>)
      end);
   ("emails", λ p v, es ← decode_slice (decode_struct email_fields) no_email (p_Emails p) v;
                     Some (p <| p_Emails := es |>));
   ("active", λ p v, b ← decode_bool_ptr v; Some (p <| p_Active := b |>))].

(** The body of a request: its first JSON value, [None] if it is not JSON. *)
Definition decode_payload (body : option json) : option userPayload :=
  v ← body; decode_struct payload_fields no_payload v.

Definition primaryEmail (p : userPayload) : string :=
  let e := TrimSpace (p_UserName p) in
  if negb (bool_decide (e = "")) then e
  else
    match find (λ em, em_Primary em && negb (bool_decide (em_Value em = ""))) (sl_elems (p_Emails p)) with
    | Some em => em_Value em
    | None => match sl_elems (p_Emails p) with em :: _ => em_Value em | [] => "" end
    end.

Definition display (p : userPayload) : string :=
  if negb (bool_decide (p_DisplayName p = "")) then p_DisplayName p
  else match p_Name p with Some n => nm_Formatted n | None => "" end.

(** ** PatchOp *)

(** A missing [value] is [None], a null one [Some JNull]. *)
Record patchOp := { po_Op : string; po_Path : string; po_Value : option json }.
#[export] Instance eta_patchOp : Eta patchOp := λ r, Build_patchOp (po_Op r) (po_Path r) (po_Value r).

Definition patchOp_fields : setters patchOp :=
  [("op", λ o v, s ← decode_text (po_Op o) v; Some (o <| po_Op := s |>));
   ("path", λ o v, s ← decode_text (po_Path o) v; Some (o <| po_Path := s |>));
   ("value", λ o v, Some (o <| po_Value := Some v |>))].
Definition no_op : patchOp := {| po_Op := ""; po_Path := ""; po_Value := None |}.

Definition decode_operations (body : option json) : option (list patchOp) :=
  v ← body;
  sl_elems <$> decode_struct
    [("Operations", decode_slice (decode_struct patchOp_fields) no_op)] (Build_slice [] []) v.

(** [strconv.ParseBool]. *)
Definition ParseBool (s : string) : option bool :=
  if bool_decide (s ∈ ["1"; "t"; "T"; "TRUE"; "true"; "True"]) then Some true
  else if bool_decide (s ∈ ["0"; "f"; "F"; "FALSE"; "false"; "False"]) then Some false
  else None.

Definition parseBool (raw : option json) : option bool :=
  match raw with
  | Some (JBool b) => Some b
  | Some JNull => Some false
  | Some (JStr s) => ParseBool s
  | _ => None
  end.

(** What the operations ask for. *)
Record patch := { pt_Active : option bool; pt_Display : string; pt_DisplayDirty : bool }.
#[export] Instance eta_patch : Eta patch :=
  λ r, Build_patch (pt_Active r) (pt_Display r) (pt_DisplayDirty r).

Definition pathless_fields : setters (option bool * option string) :=
  [("active", λ o v, b ← decode_bool_ptr v; Some (b, o.2));
   ("displayName", λ o v, s ← decode_text_ptr v; Some (o.1, s))].

Definition EqualFold (s t : string) : bool := bool_decide (fold_name s = fold_name t).

Section Patch.
Context {ENV : Env}.

Definition apply_op (st : patch) (op : patchOp) : patch :=
  if negb (EqualFold (po_Op op) "replace") && negb (EqualFold (po_Op op) "add") then st
  else
    let path := ToLower unicode_lower (TrimPrefix (po_Path op) (schemaUser +:+ ":")) in
    let with_display s := st <| pt_Display := s |> <| pt_DisplayDirty := true |> in
    if bool_decide (path = "active") then
      match parseBool (po_Value op) with Some b => st <| pt_Active := Some b |> | None => st end
    else if bool_decide (path = "displayname") then
      match v ← po_Value op; decode_text "" v with Some s => with_display s | None => st end
    else if bool_decide (path = "") then
      match v ← po_Value op; decode_struct pathless_fields (None, None) v with
      | Some (active, displayName) =>
        let st := match displayName with Some s => with_display s | None => st end in
        match active with Some b => st <| pt_Active := Some b |> | None => st end
      | None => st
      end
    else st.

Definition apply_ops (ops : list patchOp) : patch :=
  foldl apply_op {| pt_Active := None; pt_Display := ""; pt_DisplayDirty := false |} ops.

End Patch.

(** ** Responses *)

Inductive scim_body :=
  | BodyUser (r : userResource)
  | BodyList (total startIndex : Z) (resources : list userResource)
  | BodyError (status : Z) (detail : string)
  | BodyDoc (v : json)
  | BodyNone.

Definition encode_body (b : scim_body) : string :=
  match b with
  | BodyUser r => encode_resource r
  | BodyList total start rs =>
    json_object [("Resources", json_array (map encode_resource rs));
                 ("itemsPerPage", Itoa (Z.of_nat (length rs)));
                 ("schemas", json_array [json_string schemaListResponse]);
                 ("startIndex", Itoa start); ("totalResults", Itoa total)]
  | BodyError status detail =>
    Marshal (JObj [("schemas", JArr [JStr schemaError]); ("detail", JStr detail);
                   ("status", JStr (Itoa status))])
  | BodyDoc v => Marshal v
  | BodyNone => ""
  end.

Inductive outcome :=
  | Reply (status : Z) (b : scim_body)
  | Panicked.

Definition writeResource (status : Z) (u : UserWithIdentities) : outcome :=
  Reply status (BodyUser (toResource u)).
Definition writeError (status : Z) (detail : string) : outcome := Reply status (BodyError status detail).
Definition internalError : outcome := writeError 500 "internal error".

(** [New]. *)
Definition default_role (defaultRole : string) : string :=
  if Known defaultRole then defaultRole else RoleViewer.

(** ** Handlers *)

Definition scim_entry (action entityID : string) (payload : option json) : Entry := {|
  e_ActorUserID := None; e_ActorType := ""; e_Action := action; e_EntityType := "user";
  e_EntityID := entityID; e_CustomerID := None; e_Payload := payload |}.

Definition ptr (s : string) : option string := if bool_decide (s = "") then None else Some s.

Section Handlers.
Context {ENV : Env} {UP : UuidParse} (defaultRole : string).

Definition load (id : string) : Op (outcome + UserWithIdentities) :=
  match uuid_Parse id with
  | None => mret (inl (writeError 404 "user not found"))
  | Some id =>
    r ← mtry (GetUserWithIdentities id);
    mret match r with
         | inl u => inr u
         | inr e => inl (if Is e ErrNotFound then writeError 404 "user not found" else internalError)
         end
  end.

Definition setActive (id : uuid) (active : bool) : Op (outcome + UserWithIdentities) :=
  r ← mtry (UpdateUserAdmin id {| uu_Role := None; uu_Disabled := Some (negb active) |}
              [scim_entry (if active then "scim.user.activate" else "scim.user.deactivate")
                 (uuid_String id) None]);
  mret match r with
       | inl u => inr u
       | inr e =>
         inl (if Is e ErrNotFound then writeError 404 "user not found"
              else if Is e ErrLastAdmin
              then writeError 409 "cannot deactivate the last enabled admin"
              else internalError)
       end.

(** The common end of [putUser] and [patchUser]: [updated], unless the state
    is to change as well. *)
Definition finish_update (id : uuid) (updated : UserWithIdentities) (active : option bool)
    : Op outcome :=
  match active with
  | None => mret (writeResource 200 updated)
  | Some b =>
    r ← setActive id b;
    mret match r with inl out => out | inr updated => writeResource 200 updated end
  end.

Definition createUser (body : option json) : Op outcome :=
  match decode_payload body with
  | None => mret (writeError 400 "invalid SCIM payload")
  | Some p =>
    let e := ToLower unicode_lower (TrimSpace (primaryEmail p)) in
    if bool_decide (e = "") || negb (Contains "@" e)
    then mret (writeError 400 "userName (email) is required")
    else
      id ← uuid_New;
      r ← mtry (CreateSCIMUser id e defaultRole (ptr (display p)) (ptr (p_ExternalID p))
                  [scim_entry "scim.user.create" ""
                     (Some (JObj [("email", JStr e); ("role", JStr defaultRole);
                                  ("via", JStr "scim")]))]);
      mret match r with
           | inl u => writeResource 201 u
           | inr err =>
             if Is err ErrEmailExists || Is err ErrConflict
             then writeError 409 "a user with this userName or externalId already exists"
             else internalError
           end
  end.

Definition dquoted_trim (s : string) : string := Trim s dquote.

Definition parseUserNameFilter (filter : string) : string :=
  let f := TrimSpace filter in
  if negb (HasPrefix "username eq " (ToLower unicode_lower f)) then ""
  else
    let n := String.length "userName eq " in
    dquoted_trim (TrimSpace (String.substring n (String.length f - n) f)).

Definition atoiDefault (s : string) (def : Z) : Z :=
  if bool_decide (s = "") then def else default def (Atoi s).

(** [users[lo:hi]], a panic when the bounds are out of order. *)
Definition go_slice {A} (l : list A) (lo hi : Z) : option (list A) :=
  if (0 <=? lo)%Z && (lo <=? hi)%Z && (hi <=? Z.of_nat (length l))%Z
  then Some (take (Z.to_nat (hi - lo)) (drop (Z.to_nat lo) l)) else None.

(** The bounds of a page, and its start index as reported; [int] is 64 bits
    wide. *)
Definition page_bounds (total : Z) (startIndex count : string) : Z * Z * Z :=
  (let start := Z.max 1 (atoiDefault startIndex 1) in
   let count := Z.max 0 (atoiDefault count total) in
   let lo := Z.min total (start - 1) in
   let hi := Z.min total (wrap64 (lo + count)) in
   (start, lo, hi))%Z.

Definition listUsers (filter startIndex count : string) : Op outcome :=
  let f := parseUserNameFilter filter in
  if negb (bool_decide (f = "")) then
    r ← mtry (GetUserByEmail f);
    mret match r with
         | inl u => Reply 200 (BodyList 1 1 [toResource u])
         | inr e => if Is e ErrNotFound then Reply 200 (BodyList 0 1 []) else internalError
         end
  else
    r ← mtry ListUsers;
    mret match r with
         | inr _ => internalError
         | inl users =>
           let total := Z.of_nat (length users) in
           let '(start, lo, hi) := page_bounds total startIndex count in
           match go_slice users lo hi with
           | None => Panicked
           | Some page => Reply 200 (BodyList total start (map toResource page))
           end
         end.

Definition getUser (id : string) : Op outcome :=
  r ← load id;
  mret match r with inl out => out | inr u => writeResource 200 u end.

Definition update_entry (u : UserWithIdentities) : Entry :=
  scim_entry "scim.user.update" (uuid_String (u_ID (ui_User u))) None.

Definition putUser (id : string) (body : option json) : Op outcome :=
  r ← load id;
  match r with
  | inl out => mret out
  | inr u =>
    match decode_payload body with
    | None => mret (writeError 400 "invalid SCIM payload")
    | Some p =>
      r ← mtry (UpdateSCIMUser (u_ID (ui_User u)) (ptr (display p)) (ptr (p_ExternalID p))
                  [update_entry u]);
      match r with
      | inr _ => mret internalError
      | inl updated => finish_update (u_ID (ui_User u)) updated (p_Active p)
      end
    end
  end.

Definition patchUser (id : string) (body : option json) : Op outcome :=
  r ← load id;
  match r with
  | inl out => mret out
  | inr u =>
    match decode_operations body with
    | None => mret (writeError 400 "invalid SCIM PatchOp")
    | Some ops =>
      let pt := apply_ops ops in
      r ← (if pt_DisplayDirty pt
           then mtry (UpdateSCIMUser (u_ID (ui_User u)) (Some (pt_Display pt))
                        (u_ExternalID (ui_User u)) [update_entry u])
           else mret (inl u));
      match r with
      | inr _ => mret internalError
      | inl updated => finish_update (u_ID (ui_User u)) updated (pt_Active pt)
      end
    end
  end.

Definition deleteUser (id : string) : Op outcome :=
  r ← load id;
  match r with
  | inl out => mret out
  | inr u =>
    r ← setActive (u_ID (ui_User u)) false;
    mret match r with inl out => out | inr _ => Reply 204 BodyNone end
  end.

End Handlers.

(** ** Discovery *)

Definition serviceProviderConfig : json :=
  let supported b := JObj [("supported", JBool b)] in
  JObj
    [("schemas", JArr [JStr "urn:ietf:params:scim:schemas:core:2.0:ServiceProviderConfig"]);
     ("patch", supported true);
     ("bulk", JObj [("supported", JBool false); ("maxOperations", JNum "0"); ("maxPayloadSize", JNum "0")]);
     ("filter", JObj [("supported", JBool true); ("maxResults", JNum "200")]);
     ("changePassword", supported false); ("sort", supported false); ("etag", supported false);
     ("authenticationSchemes",
        JArr [JObj [("type", JStr "oauthbearertoken"); ("name", JStr "Bearer Token");
                    ("description", JStr "Admin management-API token (otm_pat_)")]])].

Definition resourceTypes : json :=
  JArr [JObj
    [("schemas", JArr [JStr "urn:ietf:params:scim:schemas:core:2.0:ResourceType"]);
     ("id", JStr "User"); ("name", JStr "User"); ("endpoint", JStr "/Users");
     ("schema", JStr schemaUser);
     ("meta", JObj [("resourceType", JStr "ResourceType");
                    ("location", JStr "/scim/v2/ResourceTypes/User")])]].

Definition schemas : json :=
  JArr [JObj
    [("id", JStr schemaUser); ("name", JStr "User");
     ("attributes", JArr
        [JObj [("name", JStr "userName"); ("type", JStr "string"); ("required", JBool true);
               ("uniqueness", JStr "server")];
         JObj [("name", JStr "displayName"); ("type", JStr "string")];
         JObj [("name", JStr "active"); ("type", JStr "boolean")];
         JObj [("name", JStr "emails"); ("type", JStr "complex"); ("multiValued", JBool true)]]);
     ("meta", JObj [("resourceType", JStr "Schema");
                    ("location", JStr ("/scim/v2/Schemas/" +:+ schemaUser))])]].

(** ** The server *)

Inductive scim_request :=
  | GetServiceProviderConfig
  | GetResourceTypes
  | GetSchemas
  | GetUsers (filter startIndex count : string)
  | PostUsers (body : option json)
  | GetOneUser (id : string)
  | PutOneUser (id : string) (body : option json)
  | PatchOneUser (id : string) (body : option json)
  | DeleteOneUser (id : string).

Section Server.
Context {ENV : Env} {UP : UuidParse} (defaultRole : string).

Definition Router (rq : scim_request) : Op outcome :=
  match rq with
  | GetServiceProviderConfig => mret (Reply 200 (BodyDoc serviceProviderConfig))
  | GetResourceTypes => mret (Reply 200 (BodyDoc resourceTypes))
  | GetSchemas => mret (Reply 200 (BodyDoc schemas))
  | GetUsers filter startIndex count => listUsers filter startIndex count
  | PostUsers body => createUser (default_role defaultRole) body
  | GetOneUser id => getUser id
  | PutOneUser id body => putUser id body
  | PatchOneUser id body => patchUser id body
  | DeleteOneUser id => deleteUser id
  end.

(** The role of the caller comes from the management tokens (router.go). *)
Definition authMiddleware (authorization : string) (next : Op outcome) : Op outcome :=
  r ← authenticateAPIToken authorization;
  match r with
  | None => mret (writeError 401 "invalid or missing token")
  | Some (role, _) =>
    if negb (AtLeast role RoleAdmin) then mret (writeError 403 "SCIM requires an admin token")
    else next
  end.

Definition scim_serve (authorization : string) (rq : scim_request) : Op outcome :=
  authMiddleware authorization (Router rq).

End Server.
End Scim.
