(* ===== verification/ScimProps.v ===== *)
(** * Properties of SCIM provisioning

    What an identity provider can change: profile fields and the disabled flag
    of users, and new users with the default role, all behind an admin token;
    the pages of the user list; and that a deprovisioned user is out. *)
From Stdlib Require Import Ascii.
From S2P Require Import Prelude GoStrings GoText Store World PgCore PgUsers Tokens Json JsonText PipelineGraph Auth ApiTypes ApiGuard StoreCalls StoreInv PipelineService ApiRoutes ApiFrame ApiRoles Tenants Scim.

Import Scim.

(** ** What SCIM may change *)

(** The account itself: everything but display name, external id and the
    disabled flag. *)
Definition same_account (u u' : User) : Prop :=
  u_ID u' = u_ID u ∧ u_Email u' = u_Email u ∧ u_Role u' = u_Role u ∧
  u_LastLoginAt u' = u_LastLoginAt u ∧ u_CreatedAt u' = u_CreatedAt u.

Record scim_change (role : string) (d d' : db) : Prop := {
  sc_rest : d' = d <| users := users d' |> <| sessions := sessions d' |> <| audit_log := audit_log d' |>;
  sc_kept : ∀ id u, users d !! id = Some u → ∃ u', users d' !! id = Some u' ∧ same_account u u';
  sc_new : ∀ id u, users d !! id = None → users d' !! id = Some u → u_Role u = role;
  sc_sessions : sessions d' ⊆ sessions d;
  sc_admin : ids_ok d ∧ has_admin d → ids_ok d' ∧ has_admin d';
}.

#[export] Instance same_account_preorder : PreOrder same_account.
Proof. split; unfold same_account; [by intros u|]. intros u1 u2 u3 H1 H2. intuition congruence. Qed.

#[export] Instance scim_change_preorder role : PreOrder (scim_change role).
Proof.
  split.
  - intros d. split; [by destruct d|..]; try done.
    + intros id u Hu. exists u. split; [done|reflexivity].
    + intros id u H1 H2. congruence.
  - intros d1 d2 d3 [R1 K1 N1 S1 A1] [R2 K2 N2 S2 A2]. split.
    + rewrite R2, R1. by destruct d1, d2, d3.
    + intros id u (u2 & Hu2 & H12)%K1. destruct (K2 _ _ Hu2) as (u3 & Hu3 & H23).
      exists u3. split; [done|by etrans].
    + intros id u Hnone Hu. destruct (users d2 !! id) as [u2|] eqn:E; [|by eapply N2].
      destruct (K2 _ _ E) as (u3 & Hu3 & H23). simplify_eq.
      destruct H23 as (_ & _ & -> & _). by eapply N1.
    + by etrans.
    + auto.
Qed.

(** ** The store calls *)

Section Calls.
Context {ENV : Env} (role : string).

(** A call of the store keeps a preorder if its successes do: a failing call
    has changed nothing. *)
Lemma call_steps (R : relation db) `{!Reflexive R} c :
  (∀ w u w', run_call c w = (inl u, w') → R (w_db w) (w_db w')) →
  steps (on_world R) (run_call c).
Proof.
  intros Hc w. unfold on_world. destruct (run_call c w) as [[u|e] w'] eqn:E; simpl; [by eapply Hc|].
  by rewrite (atomic_run_call _ _ _ _ E).
Qed.

Lemma steps_void {A} (R : relation world) (m : Op A) : steps R (void m) → steps R m.
Proof. intros Hm w. specialize (Hm w). unfold void, mbind, M_bind in Hm. by destruct (m w) as [[a|e] w']. Qed.

Lemma admin_call c w u w' :
  run_call c w = (inl u, w') →
  ids_ok (w_db w) ∧ has_admin (w_db w) → ids_ok (w_db w') ∧ has_admin (w_db w').
Proof. intros Hc [Hi Ha]. split; [by eapply call_ids_ok|by eapply call_has_admin]. Qed.

(** Writing one row: a change of the same account, or a new one. *)
Lemma scim_change_row d id u' ss log d' :
  d' = d <| users := <[id := u']> (users d) |> <| sessions := ss |> <| audit_log := log |> →
  match users d !! id with Some u => same_account u u' | None => u_Role u' = role end →
  ss ⊆ sessions d → (ids_ok d ∧ has_admin d → ids_ok d' ∧ has_admin d') →
  scim_change role d d'.
Proof.
  intros E Hu Hss Ha. split; rewrite E; try done.
  - intros id' v Hv. cbn. destruct (decide (id' = id)) as [->|Hne].
    + rewrite lookup_insert_eq. rewrite Hv in Hu. eauto.
    + rewrite lookup_insert_ne by done. exists v. split; [done|reflexivity].
  - intros id' v Hnone. cbn. destruct (decide (id' = id)) as [->|Hne].
    + rewrite lookup_insert_eq. rewrite Hnone in Hu. congruence.
    + rewrite lookup_insert_ne by done. congruence.
  - rewrite <- E. done.
Qed.

Lemma scim_CreateSCIMUser id email display ext es :
  steps (on_world (scim_change role)) (CreateSCIMUser id email role display ext es).
Proof.
  apply steps_void, (call_steps _ (CallCreateSCIMUser id email role display ext es)).
  intros w u w' H. pose proof (admin_call _ _ _ _ H) as Ha. call_inv H.
  pose proof (user_insert_fresh _ _ _ _ _ ltac:(eassumption)) as Hf.
  eapply scim_change_row; [reflexivity| |reflexivity|exact Ha]. by rewrite Hf.
Qed.

Lemma scim_UpdateSCIMUser id display ext es :
  steps (on_world (scim_change role)) (UpdateSCIMUser id display ext es).
Proof.
  apply steps_void, (call_steps _ (CallUpdateSCIMUser id display ext es)).
  intros w u w' H. pose proof (admin_call _ _ _ _ H) as Ha. call_inv H.
  eapply scim_change_row; [reflexivity| |reflexivity|exact Ha].
  match goal with H : users _ !! id = Some _ |- _ => rewrite H end. done.
Qed.

(** Switching an account off: the row stays, its sessions go. *)
Lemma disable_user id es w x w' :
  UpdateUserAdmin id {| uu_Role := None; uu_Disabled := Some true |} es w = (inl x, w') →
  ∃ u t log, users (w_db w) !! id = Some u ∧
    w_db w' = (w_db w) <| users := <[id := u <| u_DisabledAt := Some t |>]> (users (w_db w)) |>
      <| sessions := filter (λ '(_, s), Contains (uuid_String id) (s_Data s) = false) (sessions (w_db w)) |>
      <| audit_log := log |>.
Proof.
  intros Hu. assert (H : run_call (CallUpdateUserAdmin id {| uu_Role := None; uu_Disabled := Some true |} es) w
                        = (inl tt, w')) by (cbn; unfold void, mbind, M_bind; by rewrite Hu).
  clear Hu. call_inv H. eexists _, _, _. split; [eassumption|]. reflexivity.
Qed.

Lemma scim_UpdateUserAdmin id b es :
  steps (on_world (scim_change role)) (UpdateUserAdmin id {| uu_Role := None; uu_Disabled := Some b |} es).
Proof.
  apply steps_void, (call_steps _ (CallUpdateUserAdmin id {| uu_Role := None; uu_Disabled := Some b |} es)).
  intros w u w' H. pose proof (admin_call _ _ _ _ H) as Ha.
  destruct b; call_inv H;
    (eapply scim_change_row;
     [reflexivity
     |match goal with H : users ?d !! id = Some _ |- _ => by rewrite H end
     |first [reflexivity|apply map_filter_subseteq]
     |exact Ha]).
Qed.

End Calls.

#[local] Hint Resolve scim_CreateSCIMUser scim_UpdateSCIMUser scim_UpdateUserAdmin : frame.

(** ** Requests *)

Section Requests.
Context {ENV : Env} {UP : UuidParse} (defaultRole : string).

Lemma readonly_load id : readonly (load id).
Proof.
  unfold load. destruct (uuid_Parse id); [|apply readonly_ret].
  apply readonly_bind; [apply readonly_try, readonly_GetUserWithIdentities|intros; apply readonly_ret].
Qed.

Lemma readonly_listUsers filter startIndex count : readonly (listUsers filter startIndex count).
Proof. unfold listUsers, GetUserByEmail, ListUsers. atomic_tac. Qed.

#[local] Hint Resolve readonly_load readonly_listUsers : atomic.

Lemma scim_Router rq : steps (on_world (scim_change (default_role defaultRole))) (Router defaultRole rq).
Proof.
  destruct rq; cbn [Router]; unfold createUser, getUser, putUser, patchUser, deleteUser, finish_update, setActive.
  all: frame_tac.
Qed.

(** ** Every request is answered *)

Definition answers {A} (m : Op A) : Prop := ∀ w, ∃ a w', m w = (inl a, w').

Lemma answers_ret {A} (a : A) : answers (mret a).
Proof. intros w. by exists a, w. Qed.
Lemma answers_bind {A B} (m : Op A) (f : A → Op B) : answers m → (∀ a, answers (f a)) → answers (m ≫= f).
Proof. intros Hm Hf w. unfold mbind, M_bind. destruct (Hm w) as (a & w1 & ->). apply Hf. Qed.
Lemma answers_try {A} (m : Op A) : answers (mtry m).
Proof. intros w. unfold mtry. destruct (m w) as [[a|e] w']; eauto. Qed.
Lemma answers_tick {A} (f : nat → A) : answers (n ← tick; mret (f n)).
Proof. intros w. unfold tick, mbind, M_bind. cbn. eauto. Qed.

#[local] Ltac answers_tac :=
  repeat first
    [ apply answers_ret | apply answers_try | apply answers_tick
    | apply answers_bind; [|intros ?]
    | match goal with |- answers (match ?x with _ => _ end) => destruct x end ].

Lemma scim_answers authorization rq : answers (scim_serve defaultRole authorization rq).
Proof.
  unfold scim_serve, authMiddleware, authenticateAPIToken, time_Now, Router, createUser, uuid_New,
    listUsers, getUser, putUser, patchUser, deleteUser, finish_update, setActive, load.
  answers_tac.
Qed.

(** A management token that is neither revoked nor expired, in the admin role. *)
Definition admin_token (w : world) (authorization : string) : Prop :=
  ∃ raw id row, CutPrefix "Bearer " authorization = Some raw ∧
    api_tokens (w_db w) !! id = Some row ∧ tr_TokenHash row = HashAPIKey raw ∧
    tr_RevokedAt row = None ∧ tr_Role row = RoleAdmin ∧
    ∀ exp, tr_ExpiresAt row = Some exp → (clock (S (w_tick w)) < exp)%Z.

(** Past the middleware. *)
Lemma authMiddleware_passes authorization next w :
  (authMiddleware authorization next w).2 = (authenticateAPIToken authorization w).2 ∨
  admin_token w authorization ∧
    authMiddleware authorization next w = next (authenticateAPIToken authorization w).2.
Proof.
  unfold authMiddleware, mbind, M_bind.
  destruct (authenticateAPIToken _ w) as [[[[role cb]|]|e] w1] eqn:Ea; [|by left..].
  destruct (AtLeast role RoleAdmin) eqn:Er; [|by left]. right. split; [|done].
  apply AtLeast_admin in Er as ->.
  apply authenticateAPIToken_inl in Ea as (raw & id & row & ? & ? & ? & ? & ? & ?).
  by exists raw, id, row.
Qed.

Lemma authenticateAPIToken_db authorization w :
  w_db (authenticateAPIToken authorization w).2 = w_db w.
Proof. apply readonly_authenticateAPIToken. Qed.

End Requests.

(** C32: What an identity provider can do: every SCIM request is answered, and
    unless it carries a valid management token of the admin role it changes no
    table.  With one, it adds users of the configured default role and changes
    display name, external id and the disabled flag of existing ones; accounts
    keep their email and role, none is deleted, no grant, identity, customer
    or pipeline is touched, no session is created, and an enabled admin
    remains. *)
Theorem scim_confined {ENV : Env} {UP : UuidParse} (defaultRole authorization : string)
    (rq : scim_request) (w : world) :
  ∃ out w', scim_serve defaultRole authorization rq w = (inl out, w') ∧
    (w_db w' = w_db w ∨ admin_token w authorization) ∧
    scim_change (default_role defaultRole) (w_db w) (w_db w').
Proof.
  destruct (scim_answers defaultRole authorization rq w) as (out & w' & E).
  exists out, w'. split; [done|].
  destruct (authMiddleware_passes authorization (Router defaultRole rq) w) as [Hd|[Ht Hd]];
    unfold scim_serve in E; rewrite E in Hd; cbn in Hd.
  - subst w'. rewrite authenticateAPIToken_db. split; [by left|reflexivity].
  - split; [by right|].
    pose proof (scim_Router defaultRole rq (authenticateAPIToken authorization w).2) as Hr.
    unfold on_world in Hr. by rewrite <- Hd, authenticateAPIToken_db in Hr.
Qed.

(** ** Pages of the user list *)

Lemma parse_bounded s z : Atoi s = Some z → (MinInt64 ≤ z ≤ MaxInt64)%Z.
Proof.
  unfold Atoi, ParseInt. destruct (sign_of s) as [neg u]. destruct (span_digits u) as [[|d ds] [|]]; try done.
  destruct (_ && _) eqn:E; [|done]. intros [= <-].
  by apply andb_true_iff in E as [?%Z.leb_le ?%Z.leb_le].
Qed.

Lemma atoiDefault_bounded s def : (def ≤ MaxInt64)%Z → (atoiDefault s def ≤ MaxInt64)%Z.
Proof.
  intros Hd. unfold atoiDefault. case_bool_decide; [done|].
  destruct (Atoi s) as [z|] eqn:E; [|done]. apply parse_bounded in E. cbn. lia.
Qed.

Lemma wrap64_over z : (MaxInt64 < z ≤ 2 * MaxInt64)%Z → (wrap64 z < 0)%Z.
Proof.
  unfold wrap64, MaxInt64. intros Hz.
  replace (z + 2 ^ 63)%Z with ((z - 2 ^ 63) + 1 * 2 ^ 64)%Z by lia.
  rewrite Z.mod_add by lia. rewrite Z.mod_small; lia.
Qed.

Lemma go_slice_page {A} (l : list A) (lo n : Z) :
  (0 ≤ lo ≤ Z.of_nat (length l))%Z → (0 ≤ n)%Z →
  go_slice l lo (Z.min (Z.of_nat (length l)) (lo + n)) =
  Some (take (Z.to_nat n) (drop (Z.to_nat lo) l)).
Proof.
  intros Hlo Hn. unfold go_slice.
  replace (0 <=? lo)%Z with true by (symmetry; apply Z.leb_le; lia).
  replace (lo <=? _)%Z with true by (symmetry; apply Z.leb_le; lia).
  replace (_ <=? Z.of_nat _)%Z with true by (symmetry; apply Z.leb_le; lia). cbn. f_equal.
  destruct (decide (lo + n ≤ Z.of_nat (length l))%Z).
  - do 2 f_equal. lia.
  - rewrite !take_ge; [done|rewrite length_drop; lia..].
Qed.

(** The page that starts at [startIndex] with at most [count] users, each as
    RFC 7644 has it - unless the end of the page leaves the 64 bits, which is
    a panic. *)
Theorem scim_list_page {ENV : Env} (filter startIndex count : string) (w : world) (users : list UserWithIdentities)
    (w' : world) :
  parseUserNameFilter filter = "" → ListUsers w = (inl users, w') →
  (Z.of_nat (length users) ≤ MaxInt64)%Z →
  let total := Z.of_nat (length users) in
  let start := Z.max 1 (atoiDefault startIndex 1) in
  let n := Z.max 0 (atoiDefault count total) in
  listUsers filter startIndex count w =
  (inl (if (Z.min total (start - 1) + n <=? MaxInt64)%Z
        then Reply 200 (BodyList total start
               (map toResource (take (Z.to_nat n) (drop (Z.to_nat (start - 1)) users))))
        else Panicked), w').
Proof.
  intros Hf Hu Hlen total start n. unfold listUsers. rewrite Hf, bool_decide_true by done.
  cbn [negb]. unfold mtry, mbind, M_bind. rewrite Hu. cbn -[page_bounds Z.to_nat].
  unfold page_bounds. fold total start n. cbv zeta.
  pose proof (atoiDefault_bounded startIndex 1 ltac:(unfold MaxInt64; lia)) as Hs.
  pose proof (atoiDefault_bounded count total Hlen) as Hn.
  assert (Htot : (0 ≤ total)%Z) by lia. assert (Hstart : (1 ≤ start)%Z) by lia.
  assert (Hn0 : (0 ≤ n ≤ MaxInt64)%Z) by (unfold MaxInt64 in *; lia).
  set (lo := Z.min total (start - 1)). assert (Hlo : (0 ≤ lo ≤ total)%Z) by lia.
  destruct (lo + n <=? MaxInt64)%Z eqn:E.
  - apply Z.leb_le in E. rewrite wrap64_id by (unfold int64_ok, MinInt64 in *; lia).
    unfold total at 1. rewrite go_slice_page by lia. cbn. do 6 f_equal.
    unfold lo. destruct (decide (start - 1 ≤ total)%Z); [by rewrite Z.min_r by lia|].
    rewrite (drop_ge users (Z.to_nat (start - 1))) by lia. by rewrite drop_ge by lia.
  - apply Z.leb_gt in E. unfold go_slice.
    pose proof (wrap64_over (lo + n) ltac:(lia)) as Hw.
    replace (lo <=? Z.min total (wrap64 (lo + n)))%Z with false by (symmetry; apply Z.leb_gt; lia).
    by rewrite andb_false_r.
Qed.

(** ** Deprovisioning *)

(** The requests that switch an account off, and the id they name. *)
Definition deprovisions {ENV : Env} (rq : scim_request) : option string :=
  match rq with
  | DeleteOneUser id => Some id
  | PutOneUser id body =>
    p ← decode_payload body; if bool_decide (p_Active p = Some false) then Some id else None
  | PatchOneUser id body =>
    ops ← decode_operations body;
    if bool_decide (pt_Active (apply_ops ops) = Some false) then Some id else None
  | _ => None
  end.

(** The account is off and no stored session names it. *)
Definition locked_out (id : uuid) (d : db) : Prop :=
  (∃ u t, users d !! id = Some u ∧ u_DisabledAt u = Some t) ∧
  ∀ k row, sessions d !! k = Some row → Contains (uuid_String id) (s_Data row) = false.

Section Deprovision.
Context {ENV : Env} {UP : UuidParse} (defaultRole : string).

Lemma load_inr ids w u w' :
  load ids w = (inl (inr u), w') →
  ∃ id, uuid_Parse ids = Some id ∧ users (w_db w) !! id = Some (ui_User u) ∧ w_db w' = w_db w.
Proof.
  intros Hl. assert (Hdb : w_db w' = w_db w) by (pose proof (readonly_load ids w) as Hr; by rewrite Hl in Hr).
  unfold load in Hl. destruct (uuid_Parse ids) as [id|]; [|by apply ret_inl in Hl as [? _]].
  apply bind_inl in Hl as (r & w1 & Hr%mtry_inl & Hl). apply ret_inl in Hl as [Hl _].
  destruct r as [x|e]; [|done]. injection Hl as ->.
  apply onErr_inl in Hr. unfold select_user in Hr. apply queryRow_inl in Hr as [Hr _].
  apply fmap_Some in Hr as (v & Hv & ->). exists id. done.
Qed.

Lemma setActive_off id w u w' :
  setActive id false w = (inl (inr u), w') → locked_out id (w_db w').
Proof.
  unfold setActive. intros (r & w1 & Hr%mtry_inl & Hl)%bind_inl. apply ret_inl in Hl as [Hl ->].
  destruct r as [x|e]; [|done]. apply disable_user in Hr as (v & t & log & _ & ->).
  split; cbn.
  - eexists _, t. by rewrite lookup_insert_eq.
  - intros k row Hk. by apply map_lookup_filter_Some in Hk as [_ Hk].
Qed.

(** What the helpers answer in place of their result is an error. *)
Definition refusal (out : outcome) : Prop := ∃ st detail, out = writeError st detail ∧ (400 ≤ st)%Z.

Lemma setActive_refusal id b w out w' : setActive id b w = (inl (inl out), w') → refusal out.
Proof.
  unfold setActive. intros (r & w1 & _ & Hl)%bind_inl. apply ret_inl in Hl as [Hl _].
  destruct r as [x|e]; [done|]. injection Hl as <-. unfold internalError.
  destruct (Is e ErrNotFound); [|destruct (Is e ErrLastAdmin)]; by eexists _, _.
Qed.

Lemma load_refusal ids w out w' : load ids w = (inl (inl out), w') → refusal out.
Proof.
  unfold load. destruct (uuid_Parse ids); [|intros Hl; apply ret_inl in Hl as [[= <-] _]; by eexists _, _].
  intros (r & w1 & _ & Hl)%bind_inl. apply ret_inl in Hl as [Hl _].
  destruct r as [x|e]; [done|]. injection Hl as <-. unfold internalError.
  destruct (Is e ErrNotFound); by eexists _, _.
Qed.

Lemma refusal_status st b : refusal (Reply st b) → (400 ≤ st)%Z.
Proof. by intros (? & ? & [= -> ->] & ?). Qed.

Lemma finish_off id updated w st b w' :
  finish_update id updated (Some false) w = (inl (Reply st b), w') → (st < 300)%Z →
  locked_out id (w_db w').
Proof.
  unfold finish_update. intros (r & w1 & Hs & Hl)%bind_inl Hst. apply ret_inl in Hl as [Hl ->].
  destruct r as [out|u]; [|by eapply setActive_off]. subst out.
  apply setActive_refusal, refusal_status in Hs. lia.
Qed.

(** The three handlers begin with [load]. *)
Lemma after_load ids (k : UserWithIdentities → Op outcome) w st b w' :
  (r ← load ids; match r with inl out => mret out | inr u => k u end) w = (inl (Reply st b), w') →
  (st < 300)%Z → keyed u_ID (users (w_db w)) →
  ∃ id u w1, uuid_Parse ids = Some id ∧ u_ID (ui_User u) = id ∧ k u w1 = (inl (Reply st b), w').
Proof.
  intros (r & w1 & Hl & Hk)%bind_inl Hst Hids. destruct r as [out|u].
  - apply ret_inl in Hk as [Ho _]. subst out. apply load_refusal, refusal_status in Hl. lia.
  - apply load_inr in Hl as (id & Hp & Hu & _). exists id, u, w1. split_and!; [done| |done].
    by apply Hids in Hu.
Qed.

(** The end [putUser] and [patchUser] share. *)
Lemma update_off id (m : Op (UserWithIdentities + error)) w st b w' :
  (r ← m; match r with
          | inr _ => mret internalError
          | inl updated => finish_update id updated (Some false)
          end) w = (inl (Reply st b), w') → (st < 300)%Z → locked_out id (w_db w').
Proof.
  intros (r & w1 & _ & Hk)%bind_inl Hst. destruct r as [x|e]; [by eapply finish_off|].
  apply ret_inl in Hk as [Ho _]. unfold internalError, writeError in Ho. simplify_eq. lia.
Qed.

Lemma deprovisioned rq ids w st b w' :
  Router defaultRole rq w = (inl (Reply st b), w') → (st < 300)%Z →
  keyed u_ID (users (w_db w)) → deprovisions rq = Some ids →
  ∃ id, uuid_Parse ids = Some id ∧ locked_out id (w_db w').
Proof.
  intros Hr Hst Hids Hd. destruct rq as [| | | | | |x body|x body|x]; cbn in Hd; try done; cbn [Router] in Hr.
  - destruct (decode_payload body) as [p|] eqn:Ep; [|done]. cbn in Hd.
    case_bool_decide as Ha; simplify_eq.
    apply (after_load ids) in Hr as (id & u & w1 & Hp & Hu & Hk); [|done..].
    exists id. split; [done|]. rewrite Ep, Ha, Hu in Hk. by eapply update_off.
  - destruct (decode_operations body) as [ops|] eqn:Ep; [|done]. cbn in Hd.
    case_bool_decide as Ha; simplify_eq.
    apply (after_load ids) in Hr as (id & u & w1 & Hp & Hu & Hk); [|done..].
    exists id. split; [done|]. rewrite Ep in Hk. cbv zeta in Hk. rewrite Ha, Hu in Hk.
    by eapply update_off.
  - simplify_eq. apply (after_load ids) in Hr as (id & u & w1 & Hp & Hu & Hk); [|done..].
    exists id. split; [done|]. rewrite Hu in Hk.
    apply bind_inl in Hk as (r & w2 & Hs & Hk). apply ret_inl in Hk as [Hk ->].
    destruct r as [out|x]; [|by eapply setActive_off]. subst out.
    apply setActive_refusal, refusal_status in Hs. lia.
Qed.

End Deprovision.

(** The Guard turns a locked out user away whatever the request: only an error
    of the database hides the reason. *)
Lemma guard_refuses {ENV : Env} {SM : SessionManager} {UP : UuidParse} {D}
    (next : option Principal → M (apistate D sess) herror response) rq (s : apistate D sess) id :
  rq_Path rq ∉ publicPaths → looksLikeAPIToken (rq_Authorization rq) = false →
  UserID (as_sess s) = Some id → locked_out id (tables s) →
  ∃ status code message s', Guard next rq s = (inl (Failure status code message), s') ∧
    (status = 401 ∨ status = 500)%Z ∧ tables s' = tables s.
Proof.
  intros Hpub Htok Huid [(u & t & Hu & Ht) _].
  assert (Hg : ∃ status code message s', guard rq s = (inl (inl (Failure status code message)), s')
               ∧ (status = 401 ∨ status = 500)%Z).
  { unfold guard. rewrite bool_decide_false, Htok by done. unfold guard_session, mgets, mbind, M_bind.
    rewrite Huid. unfold call_store, call_svc, on_store.
    destruct (GetUser id (ss_w (as_svc s))) as [[x|e] w'] eqn:E.
    - apply onErr_inl, queryRow_inl in E as [E _]. unfold tables, world_of in Hu. rewrite Hu in E.
      injection E as <-. rewrite Ht. cbn. eexists _, _, _, _. split; [reflexivity|by left].
    - destruct (Is e ErrNotFound); eexists _, _, _, _; (split; [reflexivity|auto]). }
  destruct Hg as (status & code & message & s' & Hg & Hs). exists status, code, message, s'.
  pose proof (guard_changes_nothing rq s) as Hn. rewrite Hg in Hn. unfold on_api in Hn. cbn in Hn.
  split_and!; [|done|done]. unfold Guard, mbind, M_bind. by rewrite Hg.
Qed.

(** C33: Deprovisioning locks out: once the identity provider has switched an
    account off, by DELETE or by [active: false] in a PUT or a PATCH, and was
    answered with success, the stored sessions that name the user are gone, and
    a request that still comes with a session of the user is refused by the
    Guard of the management API whatever it asks for. *)
Theorem deprovisioned_locked_out {ENV : Env} {SM : SessionManager} {UP : UuidParse} {D}
    (defaultRole authorization : string) (rq : scim_request) (ids : string) (w w' : world)
    (st : Z) (b : scim_body) :
  keyed u_ID (users (w_db w)) →
  scim_serve defaultRole authorization rq w = (inl (Reply st b), w') → (st < 300)%Z →
  deprovisions rq = Some ids →
  ∃ id, uuid_Parse ids = Some id ∧ locked_out id (w_db w') ∧
    ∀ (next : option Principal → M (apistate D sess) herror response) rq' (s : apistate D sess),
      tables s = w_db w' → UserID (as_sess s) = Some id →
      rq_Path rq' ∉ publicPaths → looksLikeAPIToken (rq_Authorization rq') = false →
      ∃ status code message s', Guard next rq' s = (inl (Failure status code message), s') ∧
        (status = 401 ∨ status = 500)%Z ∧ tables s' = tables s.
Proof.
  intros Hids Hs Hst Hd.
  assert (Hr : ∃ w1, w_db w1 = w_db w ∧ Router defaultRole rq w1 = (inl (Reply st b), w')).
  { unfold scim_serve, authMiddleware in Hs. apply bind_inl in Hs as (r & w1 & Ha & Hs).
    exists w1. split; [pose proof (authenticateAPIToken_db authorization w) as Hn; by rewrite Ha in Hn|].
    destruct r as [[role cb]|].
    - destruct (negb _); [|done]. apply ret_inl in Hs as [Ho _]. unfold writeError in Ho. simplify_eq. lia.
    - apply ret_inl in Hs as [Ho _]. unfold writeError in Ho. simplify_eq. lia. }
  destruct Hr as (w1 & Hw1 & Hr). rewrite <- Hw1 in Hids.
  destruct (deprovisioned _ _ _ _ _ _ _ Hr Hst Hids Hd) as (id & Hp & Hl).
  exists id. split_and!; [done..|]. intros next rq' s Ht Hu Hpub Htok.
  apply (guard_refuses next rq' s id); try done. by rewrite Ht.
Qed.

(** ** Concrete runs *)

(** The users of the demo world and a management token of the admin role. *)
Definition token_created := @Tenants.CreateAPIToken quiet_env None "scim" RoleAdmin None demo_tenants.
Definition scim_world : world := token_created.2.
Definition scim_auth : string :=
  match token_created.1 with inl c => "Bearer " +:+ cat_Secret c | inr _ => "" end.
Definition scim_demo (rq : scim_request) := @scim_serve quiet_env demo_UP "viewer" scim_auth rq scim_world.

Definition switched_off : world := (scim_demo (DeleteOneUser (uuid_String 7))).2.

(** A request with a session of user 7 that the server still holds. *)
Definition stale_session : apistate string (gmap string string) := {|
  as_svc := Build_svcstate switched_off "" [];
  as_sess := {[sessUserID := uuid_String 7; sessCSRF := "token"]} |}.
Definition stale_request : Request := {|
  rq_Method := "GET"; rq_Path := "/api/v1/me"; rq_Authorization := ""; rq_CSRF := "token" |}.

Lemma deprovisioned_locked_out_witness :
  locked_out 7 (w_db switched_off) ∧
  ∃ status code message s',
    Guard (ENV := quiet_env) (SM := demo_SM) (D := string) (UP := demo_UP) (λ _, mret (Success 200 BNone)) stale_request stale_session
    = (inl (Failure status code message), s').
Proof.
  destruct (@deprovisioned_locked_out quiet_env demo_SM demo_UP string "viewer" scim_auth
    (DeleteOneUser (uuid_String 7)) (uuid_String 7) scim_world switched_off 204 BodyNone)
    as (id & Hp & Hl & Hg).
  - apply (bool_decide_unpack _). vm_compute. exact I.
  - vm_compute. reflexivity.
  - lia.
  - reflexivity.
  - assert (id = 7%N) as -> by (vm_compute in Hp; congruence). split; [exact Hl|].
    destruct (Hg (λ _, mret (Success 200 BNone)) stale_request stale_session)
      as (status & code & message & s' & E & _).
    + reflexivity.
    + vm_compute. reflexivity.
    + apply (bool_decide_unpack _). vm_compute. exact I.
    + reflexivity.
    + by exists status, code, message, s'.
Defined.

(** A user provisioned as inactive is active. *)
Example create_ignores_active :
  ∃ r, (scim_demo (PostUsers (Some (JObj [("userName", JStr "new@x.example"); ("active", JBool false)])))).1
       = inl (Reply 201 (BodyUser r)) ∧ sr_Active r = true.
Proof. eexists. split; [vm_compute; reflexivity|reflexivity]. Qed.

(** A null [active] in a PATCH switches the account off; in a PUT it does not. *)
Example null_switches_off :
  let patch := JObj [("Operations", JArr [JObj [("op", JStr "replace"); ("path", JStr "active"); ("value", JNull)]])] in
  (∃ r, (scim_demo (PatchOneUser (uuid_String 7) (Some patch))).1 = inl (Reply 200 (BodyUser r))
        ∧ sr_Active r = false) ∧
  (∃ r, (scim_demo (PutOneUser (uuid_String 7) (Some (JObj [("active", JNull)])))).1
        = inl (Reply 200 (BodyUser r)) ∧ sr_Active r = true).
Proof. split; eexists; (split; [vm_compute; reflexivity|reflexivity]). Qed.

(** A refused deactivation has renamed the last admin already. *)
Example partial_put :
  let body := JObj [("displayName", JStr "renamed"); ("active", JBool false)] in
  let r := scim_demo (PutOneUser (uuid_String 8) (Some body)) in
  r.1 = inl (writeError 409 "cannot deactivate the last enabled admin") ∧
  (users (w_db r.2) !! 8%N) ≫= u_DisplayName = Some "renamed".
Proof. split; vm_compute; reflexivity. Qed.

(** The last users, asked for with the largest count there is. *)
Example page_panics : (scim_demo (GetUsers "" "2" "9223372036854775807")).1 = inl Panicked.
Proof. vm_compute. reflexivity. Qed.
