(* ===== verification/GoTime.v ===== *)
(** * Durations and months (Go's time package)

    [time.ParseDuration], [Duration.Seconds], [Time.Sub], the month layout
    2006-01 and [AddDate] on it. *)
From Stdlib Require Import Ascii SpecFloat.
From S2P Require Import Prelude GoStrings GoText Binary64 TenantQuota.

#[local] Open Scope Z_scope.

(** ** Parsing a duration *)

Definition unit_ns (u : string) : option Z :=
  if bool_decide (u = "ns") then Some 1
  else if bool_decide (u ∈ ["us"; encode_rune 181 +:+ "s"; encode_rune 956 +:+ "s"]) then Some 1000
  else if bool_decide (u = "ms") then Some 1000000
  else if bool_decide (u = "s") then Some 1000000000
  else if bool_decide (u = "m") then Some (60 * 1000000000)
  else if bool_decide (u = "h") then Some (3600 * 1000000000)
  else None.

(** [leadingInt]: the value may reach 2^63 and no further. *)
Definition leadingInt (d : list N) : option Z :=
  let v := digits_value d in if v <=? 2 ^ 63 then Some v else None.

(** [leadingFraction]: digits that no longer fit are dropped. *)
Fixpoint leadingFraction (x scale : Z) (d : list N) : Z * Z :=
  match d with
  | [] => (x, scale)
  | c :: d' =>
    if (2 ^ 63 - 1) / 10 <? x then (x, scale)
    else
      let y := x * 10 + Z.of_N c in
      if 2 ^ 63 <? y then (x, scale) else leadingFraction y (scale * 10) d'
  end.

Definition is_unit_char (a : ascii) : bool :=
  negb (is_digit (code a)) && negb (bool_decide (a = "."%char)).

Fixpoint span_unit (s : string) : string * string :=
  match s with
  | String a s' => if is_unit_char a then let '(u, r) := span_unit s' in (String a u, r) else ("", s)
  | "" => ("", "")
  end.

(** One number with its unit; fractions are computed in binary64. *)
Definition duration_part (s : string) : option (Z * string) :=
  let '(ds, r) := span_digits s in
  v ← leadingInt ds;
  let '(fs, r, dot) := match r with
                       | String "." r' => let '(fs, r'') := span_digits r' in (fs, r'', true)
                       | _ => ([], r, false)
                       end in
  if (match ds, fs with [], [] => true | _, _ => false end) then None
  else
    let '(u, rest) := span_unit r in
    unit ← (if bool_decide (u = "") then None else unit_ns u);
    if 2 ^ 63 / unit <? v then None
    else
      let '(f, scale) := leadingFraction 0 1 fs in
      let v := v * unit
               + (if 0 <? f
                  then trunc (nmul (of_Z f : spec_float) (ndiv (of_Z unit) (of_Z scale))) else 0) in
      if 2 ^ 63 <? v then None else Some (v, rest).

Fixpoint duration_parts (fuel : nat) (d : Z) (s : string) : option Z :=
  match s, fuel with
  | "", _ => Some d
  | _, O => None
  | _, S fuel' =>
    '(v, rest) ← duration_part s;
    if 2 ^ 63 <? d + v then None else duration_parts fuel' (d + v) rest
  end.

Definition ParseDuration (s : string) : option Z :=
  let '(neg, u) := sign_of s in
  if bool_decide (u = "0") then Some 0
  else if bool_decide (u = "") then None
  else
    d ← duration_parts (String.length u) 0 u;
    if neg then Some (- d) else if 2 ^ 63 - 1 <? d then None else Some d.

Example ParseDuration_examples :
  ParseDuration "60s" = Some (60 * second) ∧ ParseDuration "1h15m30.5s" = Some (4530500 * 1000000)
  ∧ ParseDuration "-1.5h" = Some (- 5400 * second) ∧ ParseDuration "5" = None
  ∧ ParseDuration "" = None ∧ ParseDuration "0" = Some 0 ∧ ParseDuration ".s" = None
  ∧ ParseDuration "2562047h47m16.854775807s" = Some MaxInt64
  ∧ ParseDuration "2562047h47m16.854775808s" = None.
Proof. vm_compute. repeat split. Qed.

(** ** Differences *)

(** [t.Sub(u)] saturates. *)
Definition Sub (t u : Z) : Z := Z.max MinInt64 (Z.min MaxInt64 (t - u)).

(** [int64(d.Seconds())]: the seconds are a binary64. *)
Definition whole_seconds (d : Z) : Z :=
  trunc (nadd (of_Z (Z.quot d second) : spec_float)
              (ndiv (of_Z (Z.rem d second)) (of_Z second))).

(** ** Months *)

(** Days from 1970-01-01 to the first of a month, with years from March. *)
Definition first_of_month (y m : Z) : Z :=
  let y' := if m <=? 2 then y - 1 else y in
  let era := y' / 400 in
  let yoe := y' - era * 400 in
  let mp := if m <=? 2 then m + 9 else m - 3 in
  era * 146097 + yoe * 365 + yoe / 4 - yoe / 100 + (153 * mp + 2) / 5 - 719468.

Definition month_start (y m : Z) : Z := first_of_month y m * (86400 * second).

Definition two_digits (s : string) : option Z :=
  match span_digits s with ([a; b], "") => Some (digits_value [a; b]) | _ => None end.

(** [time.Parse("2006-01", s)]: the year and month. *)
Definition ParseMonth (s : string) : option (Z * Z) :=
  match span_digits s with
  | ([a; b; c; d], String "-" r) =>
    m ← two_digits r;
    if (1 <=? m) && (m <=? 12) then Some (digits_value [a; b; c; d], m) else None
  | _ => None
  end.

(** The instants of [start] and [start.AddDate(0, 1, 0)]. *)
Definition month_range (ym : Z * Z) : Z * Z :=
  let '(y, m) := ym in
  (month_start y m, if m =? 12 then month_start (y + 1) 1 else month_start y (m + 1)).

Example month_examples :
  ParseMonth "2024-02" = Some (2024, 2) ∧ ParseMonth "2024-13" = None ∧ ParseMonth "24-02" = None
  ∧ ParseMonth "2024-2" = None
  ∧ month_range (1970, 1) = (0, 31 * 86400 * second)
  ∧ month_range (2023, 12) = (1701388800 * second, 1704067200 * second).
Proof. vm_compute. repeat split. Qed.
