(* ===== verification/Telemetry.v ===== *)
(** * Stored telemetry and the explore queries (internal/query/query.go)

    The ClickHouse tables as the deployed schema has them
    (deploy/clickhouse/schema), what one SELECT does, and the log and trace
    queries over them.  The server and its driver are the class [ClickHouse]:
    whether and how a query fails, the order of rows a statement leaves open,
    and what an instant is when it is bound to a [?] (clickhouse-go documents
    whole seconds). *)
From Stdlib Require Import Ascii SpecFloat.
From S2P Require Import Prelude GoStrings Store World PgCore Binary64 TenantQuota.

(** ** Tables *)

Record LogRow := {
  lg_Timestamp : time;
  lg_TraceId : string;
  lg_SpanId : string;
  lg_SeverityText : string;
  lg_SeverityNumber : Z;
  lg_ServiceName : string;
  lg_Body : string;
  lg_ResourceAttributes : gmap string string;
  lg_LogAttributes : gmap string string;
}.

Record SpanRow := {
  sp_Timestamp : time;
  sp_TraceId : string;
  sp_SpanId : string;
  sp_ParentSpanId : string;
  sp_SpanName : string;
  sp_SpanKind : string;
  sp_ServiceName : string;
  sp_ResourceAttributes : gmap string string;
  sp_SpanAttributes : gmap string string;
  sp_Duration : Z;
  sp_StatusCode : string;
  sp_StatusMessage : string;
}.

(** A row of one of the otel_metrics tables, as far as the program reads it. *)
Record MetricRow := {
  mr_TimeUnix : time;
  mr_ResourceAttributes : gmap string string;
}.

(** ingest_counts_1m *)
Record CountRow := {
  ic_TenantId : string;
  ic_Signal : string;
  ic_Minute : time;
  ic_Items : Z;
  ic_Bytes : Z;
}.

Record ch := {
  otel_logs : list LogRow;
  otel_traces : list SpanRow;
  otel_metrics_gauge : list MetricRow;
  otel_metrics_sum : list MetricRow;
  otel_metrics_histogram : list MetricRow;
  otel_metrics_exponential_histogram : list MetricRow;
  otel_metrics_summary : list MetricRow;
  ingest_counts_1m : list CountRow;
}.

#[export] Instance eta_ch : Eta ch :=
  λ r, Build_ch (otel_logs r) (otel_traces r) (otel_metrics_gauge r) (otel_metrics_sum r)
    (otel_metrics_histogram r) (otel_metrics_exponential_histogram r) (otel_metrics_summary r)
    (ingest_counts_1m r).

(** The materialized column TenantId. *)
Definition tenant_of (attrs : gmap string string) : string := default "" (attrs !! "tenant.id").
Definition lg_TenantId (r : LogRow) : string := tenant_of (lg_ResourceAttributes r).
Definition sp_TenantId (r : SpanRow) : string := tenant_of (sp_ResourceAttributes r).
Definition mr_TenantId (r : MetricRow) : string := tenant_of (mr_ResourceAttributes r).

(** ** The server *)

(** A query is refused, or breaks off while its rows are read. *)
Inductive chfail := FailQuery | FailRows.

Class ClickHouse := {
  ch_fail : nat → option chfail;
  bind_time : time → time;
  shuffle : ∀ {A}, nat → list A → list A;
}.

(** The server is free in the order only; a bound instant is rounded down. *)
Class ClickHouseLaws (CH : ClickHouse) : Prop := {
  shuffle_perm A n (l : list A) : shuffle n l ≡ₚ l;
  bind_time_le t : (bind_time t <= t)%Z;
  bind_time_mono t u : (t <= u)%Z → (bind_time t <= bind_time u)%Z;
}.

(** The state of a telemetry request: PostgreSQL and ClickHouse. *)
Record tworld := { tw_w : world; tw_ch : ch }.
#[export] Instance eta_tworld : Eta tworld := λ r, Build_tworld (tw_w r) (tw_ch r).

Definition wrap32 (z : Z) : Z := ((z + 2 ^ 31) `mod` 2 ^ 32 - 2 ^ 31)%Z.
Definition wrapU64 (z : Z) : Z := (z `mod` 2 ^ 64)%Z.

Section Telemetry.
Context {ENV : Env} {CH : ClickHouse}.

Abbreviation T := (M tworld error).

Definition on_pg {A} (m : Op A) : T A := λ s,
  let '(r, w) := m (tw_w s) in (r, s <| tw_w := w |>).

(** One SELECT: its rows in some order. *)
Definition select {A} (rows : ch → list A) : T (list A + chfail) :=
  n ← on_pg tick;
  l ← mgets (λ s, rows (tw_ch s));
  mret (match ch_fail n with Some f => inr f | None => inl (shuffle n l) end).

(** ORDER BY an instant, descending or ascending. *)
Definition newest_first {A} (ts : A → time) (x y : A) : Prop := (ts y <= ts x)%Z.
Definition oldest_first {A} (ts : A → time) (x y : A) : Prop := (ts x <= ts y)%Z.
#[global] Instance newest_first_dec {A} (ts : A → time) : RelDecision (newest_first ts).
Proof. intros x y. unfold newest_first, oldest_first. apply _. Defined.
#[global] Instance oldest_first_dec {A} (ts : A → time) : RelDecision (oldest_first ts).
Proof. intros x y. unfold newest_first, oldest_first. apply _. Defined.

(** positionCaseInsensitive(haystack, needle) > 0: ASCII letters fold. *)
Definition fold_ascii (s : string) : string :=
  String.string_of_list_ascii (map (λ a, ascii_of_N (lower_ascii (code a))) (chars s)).
Definition containsFold (needle haystack : string) : bool :=
  Contains (fold_ascii needle) (fold_ascii haystack).

(** ** The query service *)

Definition query_ErrUpstreamUnavailable : error := ErrNew "telemetry store unavailable".

Definition query_tenant (customerID : uuid) : T string :=
  c ← on_pg (GetCustomer customerID); mret (c_ClientID c).

Record LogRecord := {
  lo_Timestamp : time;
  lo_SeverityText : string;
  lo_SeverityNumber : Z;
  lo_ServiceName : string;
  lo_Body : string;
  lo_TraceID : string;
  lo_SpanID : string;
  lo_Attributes : gmap string string;
}.

Record LogQuery := {
  lq_From : time;
  lq_To : time;
  lq_Text : string;
  lq_Service : string;
  lq_MinSeverity : Z;
  lq_Limit : Z;
  lq_Before : option time;
}.

Definition clampLimit (n : Z) : Z :=
  if (n <=? 0)%Z then 100 else if (1000 <? n)%Z then 1000 else n.

(** The last row's instant when the page is full. *)
Definition nextCursor {A} (ts : A → time) (rows : list A) (limit : Z) : option time :=
  if (Z.of_nat (length rows) <? limit)%Z then None else ts <$> last rows.

(** An optional condition is only in the statement when its field is set. *)
Definition if_text (s : string) (p : bool) : bool := bool_decide (s = "") || p.
Definition before (t : option time) (ts : time) : bool :=
  match t with Some b => (ts <? bind_time b)%Z | None => true end.

Definition where_log (tenant : string) (q : LogQuery) (r : LogRow) : bool :=
  bool_decide (lg_TenantId r = tenant)
  && (bind_time (lq_From q) <=? lg_Timestamp r)%Z && (lg_Timestamp r <? bind_time (lq_To q))%Z
  && if_text (lq_Text q) (containsFold (lq_Text q) (lg_Body r))
  && if_text (lq_Service q) (bool_decide (lg_ServiceName r = lq_Service q))
  && ((lq_MinSeverity q <=? 0)%Z || (lq_MinSeverity q <=? lg_SeverityNumber r)%Z)
  && before (lq_Before q) (lg_Timestamp r).

(** [mapUpdate]: the second map's values win. *)
Definition log_record (r : LogRow) : LogRecord := {|
  lo_Timestamp := lg_Timestamp r; lo_SeverityText := lg_SeverityText r;
  lo_SeverityNumber := lg_SeverityNumber r; lo_ServiceName := lg_ServiceName r;
  lo_Body := lg_Body r; lo_TraceID := lg_TraceId r; lo_SpanID := lg_SpanId r;
  lo_Attributes := lg_LogAttributes r ∪ lg_ResourceAttributes r |}.

Definition upstream {A} (r : A + chfail) : T A :=
  match r with inl a => mret a | inr _ => mthrow (Wrap "clickhouse" query_ErrUpstreamUnavailable) end.

Definition QueryLogs (customerID : uuid) (q : LogQuery) : T (list LogRecord * option time) :=
  tenant ← query_tenant customerID;
  let limit := clampLimit (lq_Limit q) in
  r ← select (λ c, filter (λ r, where_log tenant q r = true) (otel_logs c));
  rows ← upstream r;
  let out := log_record <$> list.take (Z.to_nat limit) (merge_sort (newest_first lg_Timestamp) rows) in
  mret (out, nextCursor lo_Timestamp out limit).

(** *** Traces *)

Record TraceSummary := {
  ts_TraceID : string;
  ts_RootName : string;
  ts_RootService : string;
  ts_StartTime : time;
  ts_DurationMs : spec_float;
  ts_SpanCount : Z;
  ts_ErrorCount : Z;
}.
#[global] Instance eta_TraceSummary : Eta TraceSummary :=
  λ r, Build_TraceSummary (ts_TraceID r) (ts_RootName r) (ts_RootService r) (ts_StartTime r)
    (ts_DurationMs r) (ts_SpanCount r) (ts_ErrorCount r).

Record TraceQuery := {
  tq_From : time;
  tq_To : time;
  tq_Service : string;
  tq_Name : string;
  tq_MinDurationMs : spec_float;
  tq_ErrorsOnly : bool;
  tq_Limit : Z;
  tq_Before : option time;
}.

Definition durationMs (ns : Z) : spec_float := ndiv (of_Z ns) (of_Z 1000000).
Definition min_duration_ns (ms : spec_float) : Z := trunc (nmul ms (of_Z 1000000)).

Definition where_root (tenant : string) (q : TraceQuery) (r : SpanRow) : bool :=
  bool_decide (sp_TenantId r = tenant) && bool_decide (sp_ParentSpanId r = "")
  && (bind_time (tq_From q) <=? sp_Timestamp r)%Z && (sp_Timestamp r <? bind_time (tq_To q))%Z
  && if_text (tq_Service q) (bool_decide (sp_ServiceName r = tq_Service q))
  && if_text (tq_Name q) (containsFold (tq_Name q) (sp_SpanName r))
  && (negb (nltb (of_Z 0) (tq_MinDurationMs q))
      || (min_duration_ns (tq_MinDurationMs q) <=? sp_Duration r)%Z)
  && before (tq_Before q) (sp_Timestamp r).

Definition trace_summary (r : SpanRow) : TraceSummary := {|
  ts_TraceID := sp_TraceId r; ts_RootName := sp_SpanName r; ts_RootService := sp_ServiceName r;
  ts_StartTime := sp_Timestamp r; ts_DurationMs := durationMs (sp_Duration r);
  ts_SpanCount := 0; ts_ErrorCount := 0 |}.

Definition is_error (r : SpanRow) : bool :=
  bool_decide (sp_StatusCode r = "STATUS_CODE_ERROR") || bool_decide (sp_StatusCode r = "Error").

(** GROUP BY TraceId over a tenant's spans of the given traces. *)
Definition count_groups (tenant : string) (ids : list string) (c : ch) : list (string * (Z * Z)) :=
  let rows := filter (λ r, sp_TenantId r = tenant ∧ sp_TraceId r ∈ ids) (otel_traces c) in
  (λ id, let of_id := filter (λ r, sp_TraceId r = id) rows in
         (id, (wrap32 (Z.of_nat (length of_id)),
               wrap32 (Z.of_nat (length (filter (λ r, is_error r = true) of_id))))))
  <$> remove_dups (sp_TraceId <$> rows).

(** A failure while the rows are read is returned as it is, only a refused
    query as [ErrUpstreamUnavailable]; likewise in [GetTrace]. *)
Definition rows_err {A} (r : A + chfail) : T A :=
  match r with
  | inl a => mret a
  | inr FailQuery => mthrow (Wrap "clickhouse" query_ErrUpstreamUnavailable)
  | inr FailRows => mthrow Fault
  end.

Definition traceCounts (tenant : string) (ids : list string) : T (gmap string (Z * Z)) :=
  r ← select (count_groups tenant ids);
  groups ← rows_err r;
  mret (list_to_map groups).

Definition with_counts (counts : gmap string (Z * Z)) (t : TraceSummary) : TraceSummary :=
  match counts !! ts_TraceID t with
  | Some (spans, errors) => t <| ts_SpanCount := spans |> <| ts_ErrorCount := errors |>
  | None => t
  end.

Definition QueryTraces (customerID : uuid) (q : TraceQuery) : T (list TraceSummary * option time) :=
  tenant ← query_tenant customerID;
  let limit := clampLimit (tq_Limit q) in
  r ← select (λ c, filter (λ r, where_root tenant q r = true) (otel_traces c));
  rows ← upstream r;
  let summaries :=
    trace_summary <$> list.take (Z.to_nat limit) (merge_sort (newest_first sp_Timestamp) rows) in
  match summaries with
  | [] => mret ([], nextCursor ts_StartTime [] limit)
  | _ =>
    counts ← traceCounts tenant (ts_TraceID <$> summaries);
    let summaries :=
      filter (λ t, (tq_ErrorsOnly q && (ts_ErrorCount t =? 0)%Z) = false)
        (with_counts counts <$> summaries) in
    mret (summaries, nextCursor ts_StartTime summaries limit)
  end.

Record Span := {
  span_SpanID : string;
  span_ParentSpanID : string;
  span_Name : string;
  span_Service : string;
  span_Kind : string;
  span_StartTime : time;
  span_DurationMs : spec_float;
  span_StatusCode : string;
  span_StatusMessage : string;
  span_Attributes : gmap string string;
}.

Definition to_span (r : SpanRow) : Span := {|
  span_SpanID := sp_SpanId r; span_ParentSpanID := sp_ParentSpanId r; span_Name := sp_SpanName r;
  span_Service := sp_ServiceName r; span_Kind := sp_SpanKind r; span_StartTime := sp_Timestamp r;
  span_DurationMs := durationMs (sp_Duration r); span_StatusCode := sp_StatusCode r;
  span_StatusMessage := sp_StatusMessage r; span_Attributes := sp_SpanAttributes r |}.

Definition GetTrace (customerID : uuid) (traceID : string) : T (list Span) :=
  tenant ← query_tenant customerID;
  r ← select (λ c, filter (λ r, sp_TenantId r = tenant ∧ sp_TraceId r = traceID) (otel_traces c));
  rows ← rows_err r;
  mret (to_span <$> merge_sort (oldest_first sp_Timestamp) rows).

End Telemetry.

(** A server that always answers, and whose driver rounds to seconds. *)
Definition quiet_ch : ClickHouse := {|
  ch_fail _ := None; bind_time t := (t / second * second)%Z; shuffle _ _ l := l |}.

Lemma quiet_ch_laws : ClickHouseLaws quiet_ch.
Proof.
  split; cbn; [done|..]; intros t.
  - pose proof (Z.mul_div_le t second ltac:(done)). lia.
  - intros u Htu. apply Z.mul_le_mono_nonneg_r; [done|]. by apply Z.div_le_mono.
Qed.

Definition ch_empty : ch := {|
  otel_logs := []; otel_traces := []; otel_metrics_gauge := []; otel_metrics_sum := [];
  otel_metrics_histogram := []; otel_metrics_exponential_histogram := [];
  otel_metrics_summary := []; ingest_counts_1m := [] |}.
