(* ===== verification/Stats.v ===== *)
(** * Usage statistics (internal/stats)

    The dashboard's numbers: ingest counts from ClickHouse, refused requests
    and exporter counters from VictoriaMetrics, and the cost report.  A query
    to VictoriaMetrics, from the URL to the decoded answer, is the class
    [VictoriaMetrics]: its failures only ever cost numbers. *)
From Stdlib Require Import Ascii SpecFloat.
From S2P Require Import Prelude GoStrings GoText Store World PgCore PgMisc Binary64 TenantQuota GoTime Telemetry.

(** The labels and the value, when it is a string, of each result. *)
Class VictoriaMetrics := {
  vm_query : nat → string → Z → option (list (gmap string string * option string));
}.

Definition stats_ErrUpstreamUnavailable : error := ErrNew "upstream unavailable".

Definition Signals : list string := ["logs"; "traces"; "metrics"].

Record TopCustomer := { tc_CustomerID : uuid; tc_Name : string; tc_Items : Z }.
Record Overview := {
  ov_ActiveCustomers : Z;
  ov_Totals : gmap string Z;
  ov_RefusedRequests : Z;
  ov_TopCustomers : list TopCustomer;
}.

Definition topCustomersLimit : nat := 5.

(** ** Numbers of VictoriaMetrics *)

(** [strconv.ParseFloat]: also the names it accepts (hexadecimal literals
    are left out). *)
Definition parse_float (s : string) : option spec_float :=
  let '(neg, u) := sign_of s in
  let u := fold_ascii u in
  if bool_decide (u = "nan") then (if bool_decide (fold_ascii s = "nan") then Some S754_nan else None)
  else if bool_decide (u ∈ ["inf"; "infinity"]) then Some (S754_infinity neg)
  else ParseFloat s.

(** [math.Round]: halves away from zero. *)
Definition sf_round (x : spec_float) : spec_float :=
  match x with
  | S754_finite s m e =>
    if (0 <=? e)%Z then x
    else
      let q := ((Zpos m + 2 ^ (- e - 1)) / 2 ^ (- e))%Z in
      if (q =? 0)%Z then S754_zero s else of_Z (if s then - q else q)%Z
  | _ => x
  end.

Definition round_int (x : spec_float) : Z := trunc (sf_round x).

Example round_examples :
  round_int <$> parse_float "2.5" = Some 3%Z ∧ round_int <$> parse_float "-0.5" = Some (-1)%Z
  ∧ round_int <$> parse_float "0.4999999999999999" = Some 0%Z
  ∧ round_int <$> parse_float "+Inf" = Some MinInt64 ∧ parse_float "-nan" = None.
Proof. vm_compute. repeat split. Qed.

Section Stats.
Context {ENV : Env} {CH : ClickHouse} {VM : VictoriaMetrics}.

Abbreviation T := (M tworld error).

Definition stats_upstream {A} (r : A + chfail) : T A :=
  match r with inl a => mret a | inr _ => mthrow (Wrap "clickhouse" stats_ErrUpstreamUnavailable) end.

(** The order a Go map is walked in is open as well. *)
Definition walk {A} (l : list A) : T (list A) := mgets (λ s, shuffle (w_tick (tw_w s)) l).

Definition in_minutes (from to : time) (r : CountRow) : bool :=
  (bind_time from <=? ic_Minute r)%Z && (ic_Minute r <? bind_time to)%Z.

(** GROUP BY a key with the UInt64 sum of a column. *)
Definition sum_by {K} `{EqDecision K} (key : CountRow → K) (val : CountRow → Z) (rows : list CountRow)
    : list (K * Z) :=
  (λ k, (k, wrapU64 (foldr Z.add 0%Z (val <$> filter (λ r, key r = k) rows))))
  <$> remove_dups (key <$> rows).

Definition int64 (z : Z) : Z := wrap64 z.

(** ** Overview *)

Definition overview_groups (from to : time) (c : ch) : list (string * string * Z) :=
  sum_by (λ r, (ic_TenantId r, ic_Signal r)) ic_Items
    (filter (λ r, in_minutes from to r = true) (ingest_counts_1m c)).

(** [m[t][s] += n]. *)
Definition add_signal (m : gmap string (gmap string Z)) (g : string * string * Z)
    : gmap string (gmap string Z) :=
  let '(t, s, n) := g in
  let old := default ∅ (m !! t) in
  <[t := <[s := wrap64 (default 0%Z (old !! s) + int64 n)]> old]> m.

Definition refs_by_client (refs : list CustomerRef) : gmap string CustomerRef :=
  foldl (λ m r, <[cr_ClientID r := r]> m) ∅ refs.

Definition in_allowed (allowed : option (gset uuid)) (id : uuid) : bool :=
  match allowed with Some a => bool_decide (id ∈ a) | None => true end.

Definition add_total (totals : gmap string Z) (x : string * Z) : gmap string Z :=
  <[x.1 := wrap64 (default 0%Z (totals !! x.1) + x.2)]> totals.
Definition add_items (items : Z) (x : string * Z) : Z := wrap64 (items + x.2).

(** The loop over the tenants; [order] is the order the inner maps are
    walked in. *)
Definition overview_step (order : list (string * Z) → list (string * Z))
    (byClientID : gmap string CustomerRef) (allowed : option (gset uuid))
    (acc : gmap string Z * list TopCustomer) (x : string * gmap string Z)
    : gmap string Z * list TopCustomer :=
  match byClientID !! x.1 with
  | None => acc
  | Some ref =>
    if negb (in_allowed allowed (cr_ID ref)) then acc
    else
      let l := order (map_to_list x.2) in
      (foldl add_total acc.1 l,
       acc.2 ++ [{| tc_CustomerID := cr_ID ref; tc_Name := cr_Name ref; tc_Items := foldl add_items 0%Z l |}])
  end.

(** More items first, then by name. *)
Definition by_amount {A} (amount : A → Z) (name : A → string) (x y : A) : Prop :=
  if bool_decide (amount x = amount y) then Is_true (String.leb (name x) (name y))
  else (amount y < amount x)%Z.
#[global] Instance by_amount_dec {A} amount name : RelDecision (@by_amount A amount name).
Proof. intros x y. unfold by_amount. destruct (bool_decide _); apply _. Defined.

(** [sort.Slice] is free among equals. *)
Definition go_sort {A} (R : relation A) `{!RelDecision R} (l : list A) : T (list A) :=
  l ← walk l; mret (merge_sort R l).

Definition refused_query (rangeSecs : Z) : string :=
  "sum(increase(otelfleet_auth_requests_total{outcome!=" +:+ String dquote ("ok" +:+ String dquote
  ("}[" +:+ Itoa rangeSecs +:+ "s]))")).

Definition vm_floats (rows : list (gmap string string * option string)) : list spec_float :=
  omap (λ r, v ← r.2; parse_float v) rows.

Definition refusedRequests (from to : time) : T Z :=
  let rangeSecs := whole_seconds (Sub to from) in
  if (rangeSecs <=? 0)%Z then mret 0%Z
  else
    n ← on_pg tick;
    mret match vm_query n (refused_query rangeSecs) (to / second)%Z with
         | None => 0%Z
         | Some rows => round_int (foldl nadd (of_Z 0) (vm_floats rows))
         end.

Definition GetOverview (from to : time) (allowed : option (gset uuid)) : T Overview :=
  r ← select (overview_groups from to);
  groups ← stats_upstream r;
  refs ← on_pg (wrapErr "list customer refs" ListCustomerRefs);
  tenants ← walk (map_to_list (foldl add_signal ∅ groups));
  tick_ ← mgets (λ s, w_tick (tw_w s));
  let '(totals, top) :=
    foldl (overview_step (shuffle tick_) (refs_by_client refs) allowed)
      (list_to_map ((λ s, (s, 0%Z)) <$> Signals), []) tenants in
  top ← go_sort (by_amount tc_Items tc_Name) top;
  '(active, refused) ← match allowed with
    | Some a => mret (Z.of_nat (size a), 0%Z)
    | None =>
      active ← on_pg (wrapErr "count active customers" CountActiveCustomers);
      refused ← refusedRequests from to;
      mret (active, refused)
    end;
  mret {| ov_ActiveCustomers := active; ov_Totals := totals; ov_RefusedRequests := refused;
          ov_TopCustomers := list.take topCustomersLimit top |}.

(** ** Throughput *)

Record Point := { pt_Ts : time; pt_Value : spec_float }.
Record Series := { sr_Signal : string; sr_Points : list Point }.

(** [toStartOfInterval(Minute, INTERVAL n SECOND)]. *)
Definition bucket_start (secs : Z) (t : time) : time := ((t / second / secs) * secs * second)%Z.

Definition throughput_groups (tenant : string) (signal : option string) (from to : time) (secs : Z)
    (c : ch) : list (string * time * Z) :=
  sum_by (λ r, (ic_Signal r, bucket_start secs (ic_Minute r))) ic_Items
    (filter (λ r, bool_decide (ic_TenantId r = tenant) && in_minutes from to r
                  && match signal with Some s => bool_decide (ic_Signal r = s) | None => true end = true)
       (ingest_counts_1m c)).

Definition by_signal_bucket (x y : string * time * Z) : Prop :=
  if bool_decide (x.1.1 = y.1.1) then (x.1.2 <= y.1.2)%Z else Is_true (String.leb x.1.1 y.1.1).
#[global] Instance by_signal_bucket_dec : RelDecision by_signal_bucket.
Proof. intros x y. unfold by_signal_bucket. destruct (bool_decide _); apply _. Defined.

Definition GetThroughput (customerID : uuid) (signal : option string) (from to step : time)
    : T (list Series) :=
  cust ← on_pg (GetCustomer customerID);
  let stepSecs := whole_seconds step in
  let stepSecs := if (stepSecs <? 1)%Z then 60%Z else stepSecs in
  let signals := match signal with Some s => [s] | None => Signals end in
  r ← select (throughput_groups (c_ClientID cust) signal from to stepSecs);
  groups ← stats_upstream r;
  let rows := merge_sort by_signal_bucket groups in
  let points sig :=
    omap (λ '(s, b, items), if bool_decide (s = sig)
                            then Some {| pt_Ts := b; pt_Value := ndiv (of_Z items) (of_Z stepSecs) |}
                            else None) rows in
  mret ((λ sig, {| sr_Signal := sig; sr_Points := points sig |}) <$> signals).

Definition ParseStep (unicode_print : N → bool) (raw : option string) : Z + error :=
  let invalid s := ErrNew ("invalid step " +:+ Quote unicode_print s) in
  match raw with
  | None => inl (60 * second)%Z
  | Some s =>
    if bool_decide (s = "") then inl (60 * second)%Z
    else match ParseDuration s with
         | Some d => if (d <? second)%Z || (24 * 3600 * second <? d)%Z
                     then inr (invalid s) else inl d
         | None => inr (invalid s)
         end
  end.

(** ** Cost *)

Record CostDay := { cd_Date : time; cd_Items : Z; cd_Bytes : Z }.
Record CustomerCost := {
  cc_CustomerID : uuid;
  cc_Name : string;
  cc_Items : Z;
  cc_Bytes : Z;
  cc_Days : list CostDay;
}.
#[global] Instance eta_CustomerCost : Eta CustomerCost :=
  λ r, Build_CustomerCost (cc_CustomerID r) (cc_Name r) (cc_Items r) (cc_Bytes r) (cc_Days r).

Definition day_of (t : time) : time := (t / (86400 * second) * (86400 * second))%Z.

(** Tenant, day, items, bytes; ordered by tenant and day. *)
Definition cost_rows (from to : time) (c : ch) : list (string * time * (Z * Z)) :=
  let rows := filter (λ r, in_minutes from to r = true) (ingest_counts_1m c) in
  let key r := (ic_TenantId r, day_of (ic_Minute r)) in
  (λ k, (k, (wrapU64 (foldr Z.add 0%Z (ic_Items <$> filter (λ r, key r = k) rows)),
             wrapU64 (foldr Z.add 0%Z (ic_Bytes <$> filter (λ r, key r = k) rows)))))
  <$> remove_dups (key <$> rows).

Definition by_tenant_day {A} (x y : string * time * A) : Prop :=
  if bool_decide (x.1.1 = y.1.1) then (x.1.2 <= y.1.2)%Z else Is_true (String.leb x.1.1 y.1.1).
#[global] Instance by_tenant_day_dec {A} : RelDecision (@by_tenant_day A).
Proof. intros x y. unfold by_tenant_day. destruct (bool_decide _); apply _. Defined.

(** [perTenant], with [tenantOrder] its keys in the order they appeared. *)
Fixpoint add_cost (acc : list (string * CustomerCost)) (row : string * time * (Z * Z))
    : list (string * CustomerCost) :=
  let '(t, day, (items, bytes)) := row in
  let put cc := cc <| cc_Items ::= λ n, wrap64 (n + int64 items) |>
                   <| cc_Bytes ::= λ n, wrap64 (n + int64 bytes) |>
                   <| cc_Days ::= λ l, l ++ [{| cd_Date := day; cd_Items := int64 items;
                                               cd_Bytes := int64 bytes |}] |> in
  match acc with
  | [] => [(t, put {| cc_CustomerID := 0%N; cc_Name := ""; cc_Items := 0; cc_Bytes := 0; cc_Days := [] |})]
  | (t', cc) :: acc' => if bool_decide (t' = t) then (t', put cc) :: acc' else (t', cc) :: add_cost acc' row
  end.

(** Costs of the tenants that are customers. *)
Definition name_costs (byClientID : gmap string CustomerRef) (per : list (string * CustomerCost))
    : list CustomerCost :=
  omap (λ '(t, cc), ref ← byClientID !! t;
                    Some (cc <| cc_CustomerID := cr_ID ref |> <| cc_Name := cr_Name ref |>)) per.

Definition GetCost (from to : time) : T (list CustomerCost) :=
  r ← select (cost_rows from to);
  rows ← stats_upstream r;
  let per := foldl add_cost [] (merge_sort by_tenant_day rows) in
  refs ← on_pg (wrapErr "list customer refs" ListCustomerRefs);
  go_sort (by_amount cc_Bytes cc_Name) (name_costs (refs_by_client refs) per).

(** ** Pipeline stages *)

Record PipelineStageQuery := {
  psq_ClientID : string;
  psq_Signals : list string;
  psq_ExporterRegex : string;
  psq_From : time;
  psq_To : time;
}.

Record ExporterStage := {
  es_Sent : Z;
  es_SendFailed : Z;
  es_EnqueueFailed : Z;
  es_QueueSize : spec_float;
  es_QueueCapacity : spec_float;
}.
#[global] Instance eta_ExporterStage : Eta ExporterStage :=
  λ r, Build_ExporterStage (es_Sent r) (es_SendFailed r) (es_EnqueueFailed r) (es_QueueSize r)
    (es_QueueCapacity r).
Definition no_stage : ExporterStage := {|
  es_Sent := 0; es_SendFailed := 0; es_EnqueueFailed := 0; es_QueueSize := of_Z 0;
  es_QueueCapacity := of_Z 0 |}.

Record PipelineFlow := {
  pf_Received : gmap string Z;
  pf_Exporters : gmap string ExporterStage;
  pf_ExporterNames : list string;
}.

Definition received_groups (q : PipelineStageQuery) (c : ch) : list (string * Z) :=
  sum_by ic_Signal ic_Items
    (filter (λ r, bool_decide (ic_TenantId r = psq_ClientID q)
                  && in_minutes (psq_From q) (psq_To q) r
                  && bool_decide (ic_Signal r ∈ psq_Signals q) = true) (ingest_counts_1m c)).

Definition vmSumBy (query label : string) (at_ : time) : T (option (gmap string spec_float)) :=
  n ← on_pg tick;
  mret (rows ← vm_query n query (at_ / second)%Z;
        Some (foldl (λ out r,
          let name := default "" (r.1 !! label) in
          if bool_decide (name = "") then out
          else match v ← r.2; parse_float v with Some v => <[name := v]> out | None => out end) ∅ rows)).

Section Stages.
Context (unicode_print : N → bool).

Definition increase_query (metric regex : string) (secs : Z) : string :=
  "sum by (exporter) (increase({__name__=~" +:+
  String dquote ("otelcol_exporter_" +:+ metric +:+ "_(spans|metric_points|log_records)" +:+
  String dquote (",exporter=~" +:+ Quote unicode_print regex +:+ "}[" +:+ Itoa secs +:+ "s]))")).
Definition gauge_query (metric regex : string) : string :=
  "max by (exporter) (otelcol_exporter_" +:+ metric +:+ "{exporter=~" +:+ Quote unicode_print regex +:+ "})".

Definition counters (regex : string) (secs : Z) : list (string * (spec_float → ExporterStage → ExporterStage)) :=
  [(increase_query "sent" regex secs, λ v st, st <| es_Sent := round_int v |>);
   (increase_query "send_failed" regex secs, λ v st, st <| es_SendFailed := round_int v |>);
   (increase_query "enqueue_failed" regex secs, λ v st, st <| es_EnqueueFailed := round_int v |>);
   (gauge_query "queue_size" regex, λ v st, st <| es_QueueSize := v |>);
   (gauge_query "queue_capacity" regex, λ v st, st <| es_QueueCapacity := v |>)].

Fixpoint run_counters (cs : list (string * (spec_float → ExporterStage → ExporterStage))) (at_ : time)
    (exporters : gmap string ExporterStage) : T (gmap string ExporterStage) :=
  match cs with
  | [] => mret exporters
  | (query, set) :: cs' =>
    values ← vmSumBy query "exporter" at_;
    run_counters cs' at_
      match values with
      | None => exporters
      | Some vs => map_fold (λ name v m, <[name := set v (default no_stage (m !! name))]> m) exporters vs
      end
  end.

Definition GetPipelineStages (q : PipelineStageQuery) : T PipelineFlow :=
  received ← (if bool_decide (psq_Signals q = []) then mret ∅
              else r ← select (received_groups q);
                   groups ← stats_upstream r;
                   mret (foldl (λ m '(s, n), <[s := int64 n]> m) ∅ groups));
  let rangeSecs := whole_seconds (Sub (psq_To q) (psq_From q)) in
  if (rangeSecs <=? 0)%Z
  then mret {| pf_Received := received; pf_Exporters := ∅; pf_ExporterNames := [] |}
  else
    exporters ← run_counters (counters (psq_ExporterRegex q) rangeSecs) (psq_To q) ∅;
    mret {| pf_Received := received; pf_Exporters := exporters;
            pf_ExporterNames := merge_sort (λ x y, Is_true (String.leb x y)) (map_to_list exporters).*1 |}.

End Stages.
End Stats.
