(* ===== verification/UsageFacts.v ===== *)
(** * The dashboard's numbers tenant by tenant

    What the overview and the cost report say about a set of tenants is
    determined by the counts of those tenants: neither the other rows nor the
    order in which ClickHouse and Go's maps deliver them matters. *)
From Stdlib Require Import Ascii.
From S2P Require Import Prelude GoStrings Store World PgCore Binary64 TenantQuota GoTime Telemetry Stats.

(** ** Lists *)

Section Lists.
Context {X : Type}.

Lemma filter_refine (P Q : X → Prop) `{!∀ x, Decision (P x), !∀ x, Decision (Q x)} (l1 l2 : list X) :
  (∀ x, P x → Q x) → filter Q l1 = filter Q l2 → filter P l1 = filter P l2.
Proof.
  intros HPQ E. rewrite <- (list_filter_filter_l P Q l1), <- (list_filter_filter_l P Q l2) by done.
  by rewrite E.
Qed.

Lemma filter_refine_perm (P Q : X → Prop) `{!∀ x, Decision (P x), !∀ x, Decision (Q x)} (l1 l2 : list X) :
  (∀ x, P x → Q x) → filter Q l1 ≡ₚ filter Q l2 → filter P l1 ≡ₚ filter P l2.
Proof.
  intros HPQ E. rewrite <- (list_filter_filter_l P Q l1), <- (list_filter_filter_l P Q l2) by done.
  by rewrite E.
Qed.

Lemma NoDup_fst_unique {K V} (l : list (K * V)) k v v' :
  NoDup l.*1 → (k, v) ∈ l → (k, v') ∈ l → v = v'.
Proof.
  induction l as [|[k0 v0] l IH]; cbn; [by rewrite elem_of_nil|].
  intros [Hk Hl]%NoDup_cons [[= -> ->]|H1]%elem_of_cons [[= ->]|H2]%elem_of_cons.
  - done.
  - destruct Hk. apply list_elem_of_fmap. by exists (k0, v').
  - simplify_eq. destruct Hk. apply list_elem_of_fmap. by exists (k0, v).
  - by apply IH.
Qed.

Lemma filter_fmap {Y} (f : Y → X) (P : X → Prop) `{!∀ x, Decision (P x)} (l : list Y) :
  filter P (f <$> l) = f <$> filter (λ y, P (f y)) l.
Proof.
  induction l as [|y l IH]; [done|]. cbn [fmap list_fmap]. rewrite !filter_cons.
  destruct (decide (P (f y))); cbn [fmap list_fmap]; by rewrite <- IH.
Qed.

Lemma filter_remove_dups `{EqDecision X} (P : X → Prop) `{!∀ x, Decision (P x)} (l : list X) :
  filter P (remove_dups l) = remove_dups (filter P l).
Proof.
  induction l as [|x l IH]; [done|]. cbn [remove_dups]. rewrite filter_cons.
  destruct (decide (P x)) as [Hx|Hx]; cbn [remove_dups].
  - destruct (decide_rel _ x l) as [Hin|Hin].
    + rewrite IH. destruct (decide_rel _ x (filter P l)) as [|Hn]; [done|].
      destruct Hn. by apply list_elem_of_filter.
    + rewrite filter_cons_True, IH by done.
      destruct (decide_rel _ x (filter P l)) as [[_ ?]%list_elem_of_filter|]; done.
  - destruct (decide_rel _ x l); [done|]. by rewrite filter_cons_False.
Qed.

Lemma StronglySorted_filter (R : relation X) (P : X → Prop) `{!∀ x, Decision (P x)} (l : list X) :
  StronglySorted R l → StronglySorted R (filter P l).
Proof.
  induction 1 as [|x l Hl IH Hx]; [by constructor|]. rewrite filter_cons.
  destruct (decide (P x)); [|done]. constructor; [done|].
  rewrite Forall_forall in *. intros y [_ Hy]%list_elem_of_filter. by apply Hx.
Qed.

(** A fold whose steps commute does not depend on the order. *)
Lemma foldl_perm_R {B} (R : relation B) `{!Equivalence R} (f : B → X → B) :
  (∀ x, Proper (R ==> R) (λ b, f b x)) → (∀ b x y, R (f (f b x) y) (f (f b y) x)) →
  ∀ l l', l ≡ₚ l' → ∀ b b', R b b' → R (foldl f b l) (foldl f b' l').
Proof.
  intros Hp Hc.
  assert (Hrefl : ∀ l b b', R b b' → R (foldl f b l) (foldl f b' l)).
  { induction l as [|x l IH]; intros b b' H; [done|]. cbn. apply IH. by apply Hp. }
  induction 1 as [|x l l' _ IH|x y l|l l' l'' _ IH1 _ IH2]; intros b b' H; cbn.
  - done.
  - apply IH. by apply Hp.
  - etrans; [apply Hrefl, Hc|]. apply Hrefl. by apply Hp, Hp.
  - etrans; [by apply IH1|by apply IH2].
Qed.

Lemma foldl_perm {B} (f : B → X → B) (l l' : list X) b :
  (∀ b x y, f (f b x) y = f (f b y) x) → l ≡ₚ l' → foldl f b l = foldl f b l'.
Proof. intros Hc Hl. apply (foldl_perm_R (=) f); try done. intros x b1 b2. congruence. Qed.

Lemma foldl_filter {B} (f : B → X → B) (P : X → Prop) `{!∀ x, Decision (P x)} (l : list X) b :
  (∀ b x, ¬ P x → f b x = b) → foldl f b l = foldl f b (filter P l).
Proof.
  intros Hf. revert b. induction l as [|x l IH]; intros b; [done|]. rewrite filter_cons. cbn.
  destruct (decide (P x)); cbn; [apply IH|]. by rewrite Hf.
Qed.

End Lists.

Lemma wrap64_swap a x y : wrap64 (wrap64 (a + x) + y) = wrap64 (wrap64 (a + y) + x).
Proof. rewrite !wrap64_add_l. f_equal. lia. Qed.

(** [m[k] += n] commutes with itself. *)
Lemma counter_swap `{Countable K} (m : gmap K Z) k k' x y :
  let bump m k n := <[k := wrap64 (default 0%Z (m !! k) + n)]> m in
  bump (bump m k x) k' y = bump (bump m k' y) k x.
Proof.
  intros bump. unfold bump. destruct (decide (k = k')) as [->|Hne].
  - rewrite !lookup_insert_eq, !insert_insert_eq. cbn. by rewrite wrap64_swap.
  - rewrite !lookup_insert_ne by done. by rewrite insert_insert_ne.
Qed.

(** ** The order of the lists *)

Lemma leb_antisym s t : String.leb s t → String.leb t s → s = t.
Proof.
  unfold String.leb. rewrite (String.compare_antisym t s).
  destruct (String.compare s t) eqn:E; [by apply String.compare_eq_iff in E|done..].
Qed.

Lemma leb_trans s t u : String.leb s t → String.leb t u → String.leb s u.
Proof.
  revert t u. induction s as [|a s IH]; intros [|b t] [|c u]; try done. unfold String.leb. cbn.
  unfold Ascii.compare.
  destruct (N.compare_spec (N_of_ascii a) (N_of_ascii b)) as [E1|E1|E1],
    (N.compare_spec (N_of_ascii b) (N_of_ascii c)) as [E2|E2|E2],
    (N.compare_spec (N_of_ascii a) (N_of_ascii c)) as [E3|E3|E3]; try done; try lia.
  apply IH.
Qed.

Lemma leb_total s t : String.leb s t ∨ String.leb t s.
Proof.
  unfold String.leb. rewrite (String.compare_antisym s).
  destruct (String.compare t s); by (left; done) || (right; done).
Qed.

Section ByAmount.
Context {X : Type} (amount : X → Z) (name : X → string).
Abbreviation R := (by_amount amount name).

Lemma by_amount_spec x y :
  R x y ↔ (amount y < amount x)%Z ∨ amount x = amount y ∧ String.leb (name x) (name y).
Proof. unfold by_amount. case_bool_decide; [|lia]. split; [auto|intros [?|[_ ?]]; [lia|done]]. Qed.

#[global] Instance by_amount_trans : Transitive R.
Proof.
  intros x y z. rewrite !by_amount_spec. intros [H1|[E1 L1]] [H2|[E2 L2]]; try (left; lia).
  right. split; [lia|]. by eapply leb_trans.
Qed.

#[global] Instance by_amount_total : Total R.
Proof.
  intros x y. rewrite !by_amount_spec.
  destruct (Z.lt_trichotomy (amount x) (amount y)) as [H|[E|H]]; [by right; left| |by left; left].
  destruct (leb_total (name x) (name y)); [left|right]; auto.
Qed.

Lemma by_amount_same_name x y : R x y → R y x → name x = name y.
Proof.
  rewrite !by_amount_spec. intros [H1|[E1 L1]] [H2|[E2 L2]]; try lia. by apply leb_antisym.
Qed.

(** Sorting lists with distinct names leaves nothing open. *)
Lemma by_amount_unique l l' :
  l ≡ₚ l' → (∀ x y, x ∈ l → y ∈ l → name x = name y → x = y) →
  merge_sort R l = merge_sort R l'.
Proof.
  intros Hp Hn. apply (StronglySorted_unique_strong R).
  - intros x y Hx Hy H1 H2. rewrite merge_sort_Permutation in Hx, Hy. rewrite <- Hp in Hy.
    apply Hn; [done..|]. by apply by_amount_same_name.
  - by apply StronglySorted_merge_sort; typeclasses eauto.
  - by apply StronglySorted_merge_sort; typeclasses eauto.
  - by rewrite !merge_sort_Permutation.
Qed.

(** The same for what a condition leaves of them. *)
Lemma by_amount_filter_unique (P : X → Prop) `{!∀ x, Decision (P x)} (l l' : list X) :
  filter P l ≡ₚ filter P l' →
  (∀ x y, x ∈ filter P l → y ∈ filter P l → name x = name y → x = y) →
  filter P (merge_sort R l) = filter P (merge_sort R l').
Proof.
  intros Hp Hn. apply (StronglySorted_unique_strong R).
  - intros x y Hx Hy H1 H2. rewrite merge_sort_Permutation in Hx, Hy. rewrite <- Hp in Hy.
    apply Hn; [done..|]. by apply by_amount_same_name.
  - by apply StronglySorted_filter, StronglySorted_merge_sort; typeclasses eauto.
  - by apply StronglySorted_filter, StronglySorted_merge_sort; typeclasses eauto.
  - by rewrite !merge_sort_Permutation.
Qed.

End ByAmount.

(** ** Tenants in sight *)

Section Tenants.
Context (T : gset string).

Definition counts_of (c : ch) : list CountRow := filter (λ r, ic_TenantId r ∈ T) (ingest_counts_1m c).

(** Grouping rows keeps the groups of the tenants apart. *)
Lemma groups_seen {K V} `{EqDecision K} (tenant : K → string) (key : CountRow → K)
    (out : K → list CountRow → V) (P : CountRow → Prop) `{!∀ r, Decision (P r)} (l l' : list CountRow) :
  (∀ r, tenant (key r) = ic_TenantId r) →
  filter (λ r, ic_TenantId r ∈ T) l = filter (λ r, ic_TenantId r ∈ T) l' →
  let groups l := (λ k, (k, out k (filter (λ r, key r = k) (filter P l)))) <$> remove_dups (key <$> filter P l) in
  filter (λ g, tenant g.1 ∈ T) (groups l) = filter (λ g, tenant g.1 ∈ T) (groups l').
Proof.
  intros Hk Hl groups. unfold groups. rewrite !filter_fmap. cbn [fst].
  assert (Hsub : ∀ k (l : list CountRow), tenant k ∈ T →
    filter (λ r, key r = k) (filter P l)
    = filter (λ r, key r = k ∧ P r) (filter (λ r, ic_TenantId r ∈ T) l)).
  { intros k l0 Hkt. rewrite !list_filter_filter. apply list_filter_iff. intros r.
    split; [|tauto]. intros [<- Hp]. rewrite <- (Hk r). tauto. }
  assert (Hkeys : ∀ l : list CountRow, filter (λ k, tenant k ∈ T) (remove_dups (key <$> filter P l))
    = remove_dups (key <$> filter P (filter (λ r, ic_TenantId r ∈ T) l))).
  { intros l0. rewrite filter_remove_dups, filter_fmap, !list_filter_filter. do 2 f_equal.
    apply list_filter_iff. intros r. rewrite Hk. tauto. }
  rewrite !Hkeys, Hl. apply list_fmap_ext. intros i k Hi%list_elem_of_lookup_2. f_equal.
  f_equal. rewrite <- Hl, <- Hkeys in Hi. apply list_elem_of_filter in Hi as [Hi _].
  by rewrite !Hsub, Hl by done.
Qed.

(** *** The overview *)

(** What the counts of one tenant add up to. *)
Definition add_one (o : option (gmap string Z)) (g : string * string * Z) : option (gmap string Z) :=
  let '(_, s, n) := g in
  let old := default ∅ o in Some (<[s := wrap64 (default 0%Z (old !! s) + int64 n)]> old).

Lemma add_signal_lookup t l : ∀ m,
  foldl add_signal m l !! t = foldl add_one (m !! t) (filter (λ g, g.1.1 = t) l).
Proof.
  induction l as [|[[t' s] n] l IH]; intros m; [done|]. cbn [foldl]. rewrite IH, filter_cons. cbn [fst].
  destruct (decide (t' = t)) as [->|Hne]; cbn [foldl add_signal].
  - by rewrite lookup_insert_eq.
  - by rewrite lookup_insert_ne.
Qed.

Lemma add_one_swap o x y : add_one (add_one o x) y = add_one (add_one o y) x.
Proof. destruct x as [[? s] n], y as [[? s'] n']. cbn. f_equal. apply counter_swap. Qed.

Lemma signals_seen l l' t :
  t ∈ T → filter (λ g, g.1.1 ∈ T) l ≡ₚ filter (λ g, g.1.1 ∈ T) l' →
  foldl add_signal ∅ l !! t = foldl add_signal ∅ l' !! t.
Proof.
  intros Ht Hl. rewrite !add_signal_lookup. apply foldl_perm; [apply add_one_swap|].
  eapply filter_refine_perm; [|exact Hl]. intros g. cbn. by intros ->.
Qed.

Lemma map_seen {V} (m m' : gmap string V) l l' :
  (∀ t, t ∈ T → m !! t = m' !! t) → l ≡ₚ map_to_list m → l' ≡ₚ map_to_list m' →
  filter (λ x, x.1 ∈ T) l ≡ₚ filter (λ x, x.1 ∈ T) l'.
Proof.
  intros Hm -> ->. apply NoDup_Permutation; [apply NoDup_filter, NoDup_map_to_list..|].
  intros [t v]. rewrite !list_elem_of_filter, !elem_of_map_to_list. cbn.
  split; intros [Ht E]; (split; [done|]); [rewrite <- Hm|rewrite Hm]; done.
Qed.

Section Scope.
Context (A : gset uuid) (refs : list CustomerRef).

(** The customers of the scope: their tenants are in sight and their names
    tell them apart. *)
Record scope_ok : Prop := {
  scope_seen : ∀ r, r ∈ refs → cr_ID r ∈ A → cr_ClientID r ∈ T;
  scope_names : ∀ r r', r ∈ refs → r' ∈ refs → cr_ID r ∈ A → cr_ID r' ∈ A →
                cr_Name r = cr_Name r' → r = r';
}.
Hypothesis Hscope : scope_ok.

Lemma refs_by_client_Some t r :
  refs_by_client refs !! t = Some r → r ∈ refs ∧ cr_ClientID r = t.
Proof.
  unfold refs_by_client. clear Hscope.
  assert (H : ∀ m : gmap string CustomerRef, (∀ r, m !! t = Some r → r ∈ refs ∧ cr_ClientID r = t) ∨ m !! t = None →
    ∀ l, l ⊆ refs → foldl (λ m r, <[cr_ClientID r:=r]> m) m l !! t = Some r → r ∈ refs ∧ cr_ClientID r = t).
  { intros m Hm l. revert m Hm. induction l as [|x l IH]; intros m Hm Hl; cbn [foldl].
    - destruct Hm as [Hm| ->]; [by apply Hm|done].
    - apply IH; [|set_solver]. destruct (decide (cr_ClientID x = t)) as [E|E].
      + rewrite E, lookup_insert_eq. left. intros ? [= <-]. set_solver.
      + by rewrite lookup_insert_ne. }
  apply H; [by right|done].
Qed.

(** The tenant is that of a customer in scope. *)
Definition in_sight (t : string) : bool :=
  match refs_by_client refs !! t with
  | Some r => bool_decide (cr_ID r ∈ A)
  | None => false
  end.

Lemma in_sight_seen t : in_sight t = true → t ∈ T.
Proof.
  unfold in_sight. destruct (refs_by_client _ !! t) as [r|] eqn:E; [|done].
  intros Hr%bool_decide_eq_true. apply refs_by_client_Some in E as [Hin <-]. by apply Hscope.
Qed.

Context (order : list (string * Z) → list (string * Z)).
Abbreviation step := (overview_step order (refs_by_client refs) (Some A)).

Lemma step_skips acc x : ¬ (in_sight x.1 = true) → step acc x = acc.
Proof.
  unfold in_sight, overview_step, in_allowed. destruct (refs_by_client _ !! _); [|done].
  by case_bool_decide.
Qed.

Definition same_acc (a b : gmap string Z * list TopCustomer) : Prop := a.1 = b.1 ∧ a.2 ≡ₚ b.2.
#[local] Instance same_acc_equiv : Equivalence same_acc.
Proof.
  split.
  - by split.
  - intros a b [? ?]. by split.
  - intros a b c [? ?] [? ?]. split; congruence || by etrans.
Qed.

Lemma totals_swap t l1 l2 : foldl add_total (foldl add_total t l1) l2 = foldl add_total (foldl add_total t l2) l1.
Proof.
  rewrite <- !foldl_app. apply foldl_perm; [|by rewrite (comm (++))].
  intros b x y. unfold add_total. apply counter_swap.
Qed.

Lemma overview_fold_perm l l' acc :
  l ≡ₚ l' → same_acc (foldl step acc l) (foldl step acc l').
Proof.
  intros Hl. apply foldl_perm_R; [apply _|..|done|done].
  - intros x a b [E1 E2]. unfold overview_step. destruct (refs_by_client _ !! _); [|by split].
    destruct (negb _); [by split|]. cbn. split; cbn; [by rewrite E1|by rewrite E2].
  - intros b x y. unfold overview_step.
    destruct (refs_by_client _ !! x.1), (refs_by_client _ !! y.1); try done; cbn.
    all: repeat (case_bool_decide; cbn); try done.
    split; cbn; [apply totals_swap|]. rewrite <- !(assoc (++)). by rewrite (comm (++) [_] [_]).
Qed.

(** An entry of the list comes from a tenant in sight. *)
Lemma overview_entries l acc tc :
  tc ∈ (foldl step acc l).2 →
  tc ∈ acc.2 ∨ ∃ x ref, x ∈ l ∧ ref ∈ refs ∧ cr_ID ref ∈ A ∧ cr_ClientID ref = x.1
    ∧ tc = {| tc_CustomerID := cr_ID ref; tc_Name := cr_Name ref;
              tc_Items := foldl add_items 0%Z (order (map_to_list x.2)) |}.
Proof.
  revert acc. induction l as [|x l IH]; intros acc; cbn [foldl]; [auto|].
  intros [Hin|(y & ref & ? & ?)]%IH.
  - unfold overview_step in Hin. destruct (refs_by_client _ !! x.1) as [ref|] eqn:E; [|auto].
    unfold in_allowed in Hin. case_bool_decide; [|auto]. cbn in Hin.
    apply elem_of_app in Hin as [?|Hin%list_elem_of_singleton]; [auto|].
    apply refs_by_client_Some in E as [??]. right. exists x, ref. split_and!; try done. by left.
  - right. exists y, ref. split; [by right|done].
Qed.

(** The overview of two deliveries that agree on the tenants in sight. *)
Lemma overview_seen m m' l l' totals :
  (∀ t, t ∈ T → m !! t = m' !! t) → l ≡ₚ map_to_list m → l' ≡ₚ map_to_list m' →
  let o := foldl step (totals, []) l in
  let o' := foldl step (totals, []) l' in
  o.1 = o'.1 ∧ o.2 ≡ₚ o'.2 ∧ ∀ x y, x ∈ o.2 → y ∈ o.2 → tc_Name x = tc_Name y → x = y.
Proof.
  intros Hm Hl Hl' o o'.
  assert (Hsame : same_acc o o').
  { unfold o, o'. rewrite (foldl_filter step (λ x, in_sight x.1 = true) l), (foldl_filter step (λ x, in_sight x.1 = true) l')
      by (intros; by apply step_skips).
    apply overview_fold_perm. eapply filter_refine_perm; [|by eapply map_seen].
    intros x. by apply in_sight_seen. }
  destruct Hsame as [? ?]. split_and!; [done..|]. clear Hm Hl'.
  intros x y Hx Hy Hn.
  apply overview_entries in Hx as [?%elem_of_nil|([t1 i1] & r1 & Hx1 & ? & ? & Ht1 & ->)]; [done|].
  apply overview_entries in Hy as [?%elem_of_nil|([t2 i2] & r2 & Hx2 & ? & ? & Ht2 & ->)]; [done|].
  cbn in Hn. assert (r1 = r2) as <- by by eapply scope_names. cbn in Ht1, Ht2. subst t1 t2.
  rewrite Hl in Hx1, Hx2. apply elem_of_map_to_list in Hx1, Hx2. by simplify_eq.
Qed.

(** *** The cost report *)

Lemma by_tenant_day_spec {V} (x y : string * time * V) :
  by_tenant_day x y ↔ x.1.1 = y.1.1 ∧ (x.1.2 <= y.1.2)%Z ∨ x.1.1 ≠ y.1.1 ∧ String.leb x.1.1 y.1.1.
Proof. unfold by_tenant_day. case_bool_decide; naive_solver. Qed.

#[global] Instance by_tenant_day_trans {V} : Transitive (@by_tenant_day V).
Proof.
  intros x y z. rewrite !by_tenant_day_spec. intros [[E1 L1]|[N1 L1]] [[E2 L2]|[N2 L2]].
  - left. split; [congruence|lia].
  - right. by rewrite E1.
  - right. by rewrite <- E2.
  - destruct (decide (x.1.1 = z.1.1)) as [E|E]; [|right; split; [done|by eapply leb_trans]].
    rewrite E in L1. by destruct N2; apply leb_antisym.
Qed.

#[global] Instance by_tenant_day_total {V} : Total (@by_tenant_day V).
Proof.
  intros x y. rewrite !by_tenant_day_spec. destruct (decide (x.1.1 = y.1.1)) as [E|E].
  - destruct (Z.le_ge_cases x.1.2 y.1.2); [by left; left|]. right; left. done.
  - destruct (leb_total x.1.1 y.1.1); [by left; right|right; right]. split; [|done]. congruence.
Qed.

Lemma add_cost_skips acc row :
  row.1.1 ∉ T → filter (λ x, x.1 ∈ T) (add_cost acc row) = filter (λ x, x.1 ∈ T) acc.
Proof.
  destruct row as [[t day] [items bytes]]. cbn. intros Ht. induction acc as [|[t' cc] acc IH]; cbn [add_cost].
  - by rewrite filter_cons_False.
  - case_bool_decide as E.
    + subst. by rewrite !filter_cons_False.
    + rewrite !filter_cons. cbn [fst]. by rewrite IH.
Qed.

Lemma add_cost_filter acc row :
  row.1.1 ∈ T → filter (λ x, x.1 ∈ T) (add_cost acc row) = add_cost (filter (λ x, x.1 ∈ T) acc) row.
Proof.
  destruct row as [[t day] [items bytes]]. cbn. intros Ht. induction acc as [|[t' cc] acc IH]; cbn [add_cost].
  - by rewrite filter_cons_True.
  - case_bool_decide as E.
    + subst. rewrite !filter_cons_True by done. cbn. by rewrite bool_decide_true.
    + rewrite !filter_cons. cbn [fst]. destruct (decide (t' ∈ T)); [|done].
      cbn. rewrite bool_decide_false by done. by rewrite IH.
Qed.

Lemma costs_filter rows acc :
  filter (λ x, x.1 ∈ T) (foldl add_cost acc rows)
  = foldl add_cost (filter (λ x, x.1 ∈ T) acc) (filter (λ r, r.1.1 ∈ T) rows).
Proof.
  revert acc. induction rows as [|r rows IH]; intros acc; [done|]. cbn [foldl]. rewrite IH, filter_cons.
  destruct (decide (r.1.1 ∈ T)); cbn [foldl]; [by rewrite add_cost_filter|by rewrite add_cost_skips].
Qed.

Lemma add_cost_keys acc row :
  (add_cost acc row).*1 = if bool_decide (row.1.1 ∈ acc.*1) then acc.*1 else acc.*1 ++ [row.1.1].
Proof.
  destruct row as [[t day] [items bytes]]. cbn [fst]. induction acc as [|[t' cc] acc IH]; [done|].
  cbn [add_cost]. destruct (decide (t' = t)) as [->|Hne].
  - rewrite bool_decide_true by done. rewrite (bool_decide_true (t ∈ _)); [done|by left].
  - rewrite bool_decide_false by done. cbn [fmap list_fmap fst] in IH |- *. rewrite IH.
    destruct (decide (t ∈ acc.*1)) as [Hin|Hin].
    + by rewrite !bool_decide_true by (done || by right).
    + rewrite !bool_decide_false; [done| |done]. by intros [?|?]%elem_of_cons.
Qed.

Lemma costs_NoDup rows acc : NoDup acc.*1 → NoDup (foldl add_cost acc rows).*1.
Proof.
  revert acc. induction rows as [|r rows IH]; intros acc Hacc; [done|]. cbn [foldl]. apply IH.
  rewrite add_cost_keys. case_bool_decide; [done|]. apply NoDup_app. split_and!; [done| |apply NoDup_singleton].
  by intros k Hk ->%list_elem_of_singleton.
Qed.

Abbreviation allowed := (λ c, in_allowed (Some A) (cc_CustomerID c) = true).

Lemma name_costs_cons byClientID t cc per :
  name_costs byClientID ((t, cc) :: per)
  = match byClientID !! t with
    | Some r => [cc <| cc_CustomerID := cr_ID r |> <| cc_Name := cr_Name r |>]
    | None => []
    end ++ name_costs byClientID per.
Proof. unfold name_costs. cbn [omap list_omap]. by destruct (byClientID !! t). Qed.

Lemma name_costs_seen per :
  filter allowed (name_costs (refs_by_client refs) per)
  = filter allowed (name_costs (refs_by_client refs) (filter (λ x, x.1 ∈ T) per)).
Proof.
  induction per as [|[t cc] per IH]; [done|]. rewrite filter_cons, name_costs_cons, filter_app, IH.
  cbn [fst]. destruct (decide (t ∈ T)) as [Ht|Ht]; [by rewrite name_costs_cons, filter_app|].
  destruct (refs_by_client refs !! t) as [r|] eqn:E; [|done].
  rewrite filter_cons_False; [done|]. cbn. intros Hr%bool_decide_eq_true.
  apply refs_by_client_Some in E as [? <-]. by apply Ht, Hscope.
Qed.

Lemma name_costs_names per x y :
  NoDup per.*1 →
  x ∈ filter allowed (name_costs (refs_by_client refs) per) →
  y ∈ filter allowed (name_costs (refs_by_client refs) per) → cc_Name x = cc_Name y → x = y.
Proof.
  intros Hnd [Hx Hrx]%list_elem_of_filter [Hy Hry]%list_elem_of_filter Hn.
  apply list_elem_of_omap in Hrx as ([t cc] & Hin & Hrx), Hry as ([t' cc'] & Hin' & Hry).
  destruct (refs_by_client refs !! t) as [r|] eqn:E; [|done].
  destruct (refs_by_client refs !! t') as [r'|] eqn:E'; [|done]. cbn in Hrx, Hry.
  simplify_eq. cbn in *. apply bool_decide_eq_true in Hx, Hy.
  apply refs_by_client_Some in E as [? <-], E' as [? <-].
  assert (r = r') as <- by by eapply scope_names.
  assert (cc = cc') as <- by by eapply NoDup_fst_unique. done.
Qed.

End Scope.
End Tenants.
