(* ===== verification/Billing.v ===== *)
(** * Billing statements (internal/billing/billing.go)

    Prices of the month's usage in integer micro-units: one line per customer
    and the total.  [big.Int] is [Z]; what the code stores is int64, so sums
    wrap where it does not check. *)
From Stdlib Require Import Ascii.
From S2P Require Import Prelude GoStrings Store Telemetry Stats UsageFacts.

#[local] Open Scope Z_scope.

Definition bytesPerGiB : Z := 2 ^ 30.

Record Line := {
  ln_CustomerID : uuid;
  ln_Name : string;
  ln_Items : Z;
  ln_Bytes : Z;
  ln_BytesCostMicro : Z;
  ln_ItemsCostMicro : Z;
  ln_TotalMicro : Z;
}.

Record Statement := {
  bs_Month : string;
  bs_Currency : string;
  bs_PricePerGiBMicro : Z;
  bs_PricePerMillionItemsMicro : Z;
  bs_Lines : list Line;
  bs_TotalMicro : Z;
}.

(** [Int64] of a value that does not fit keeps its low 64 bits. *)
Definition mulDiv (price qty divisor : Z) : Z :=
  if (price <=? 0) || (qty <=? 0) || (divisor <=? 0) then 0
  else wrap64 (Z.quot (price * qty) divisor).

Definition bill_line (settings : BillingSettings) (c : CustomerCost) : Line :=
  let bytesCost := mulDiv (b_PricePerGiBMicro settings) (cc_Bytes c) bytesPerGiB in
  let itemsCost := mulDiv (b_PricePerMillionItemsMicro settings) (cc_Items c) 1000000 in
  {| ln_CustomerID := cc_CustomerID c; ln_Name := cc_Name c; ln_Items := cc_Items c;
     ln_Bytes := cc_Bytes c; ln_BytesCostMicro := bytesCost; ln_ItemsCostMicro := itemsCost;
     ln_TotalMicro := wrap64 (bytesCost + itemsCost) |}.

Definition Compute (month : string) (costs : list CustomerCost) (settings : BillingSettings) : Statement :=
  let lines := bill_line settings <$> costs in
  {| bs_Month := month; bs_Currency := b_Currency settings;
     bs_PricePerGiBMicro := b_PricePerGiBMicro settings;
     bs_PricePerMillionItemsMicro := b_PricePerMillionItemsMicro settings;
     bs_Lines := merge_sort (by_amount ln_TotalMicro ln_Name) lines;
     bs_TotalMicro := foldl (λ total l, wrap64 (total + ln_TotalMicro l)) 0 lines |}.

(** ** Exactness *)

(** The price of a quantity, rounded down. *)
Definition exact_price (price qty divisor : Z) : Z := Z.max 0 price * Z.max 0 qty / divisor.

Lemma exact_price_nonneg price qty divisor : 0 < divisor → 0 <= exact_price price qty divisor.
Proof. intros. apply Z.div_pos; nia. Qed.

Lemma mulDiv_exact price qty divisor :
  0 < divisor → exact_price price qty divisor <= MaxInt64 →
  mulDiv price qty divisor = exact_price price qty divisor.
Proof.
  intros Hd Hfit. pose proof (exact_price_nonneg price qty divisor Hd) as Hpos.
  unfold mulDiv. destruct (price <=? 0) eqn:E1.
  { apply Z.leb_le in E1. unfold exact_price. rewrite Z.max_l by lia. by rewrite Z.div_0_l by lia. }
  destruct (qty <=? 0) eqn:E2; simpl.
  { apply Z.leb_le in E2. unfold exact_price. rewrite (Z.max_l 0 qty) by lia.
    by rewrite Z.mul_0_r, Z.div_0_l by lia. }
  apply Z.leb_gt in E1, E2. replace (divisor <=? 0) with false by (symmetry; apply Z.leb_gt; lia).
  unfold exact_price in *. rewrite Z.max_r, (Z.max_r 0 qty) in * by lia.
  rewrite Z.quot_div_nonneg by nia. apply wrap64_id. unfold int64_ok, MinInt64. lia.
Qed.

(** What a customer owes. *)
Definition owed (settings : BillingSettings) (c : CustomerCost) : Z :=
  exact_price (b_PricePerGiBMicro settings) (cc_Bytes c) bytesPerGiB
  + exact_price (b_PricePerMillionItemsMicro settings) (cc_Items c) 1000000.

Definition sum_owed (settings : BillingSettings) (costs : list CustomerCost) : Z :=
  foldr Z.add 0 (owed settings <$> costs).

Lemma owed_nonneg settings c : 0 <= owed settings c.
Proof.
  unfold owed. pose proof (exact_price_nonneg (b_PricePerGiBMicro settings) (cc_Bytes c) bytesPerGiB ltac:(done)).
  pose proof (exact_price_nonneg (b_PricePerMillionItemsMicro settings) (cc_Items c) 1000000 ltac:(done)). lia.
Qed.

Lemma sum_owed_nonneg settings costs : 0 <= sum_owed settings costs.
Proof.
  induction costs as [|c costs IH]; [done|]. unfold sum_owed in *; cbn [fmap list_fmap foldr].
  pose proof (owed_nonneg settings c). lia.
Qed.

Lemma bill_line_exact settings c :
  owed settings c <= MaxInt64 →
  ln_BytesCostMicro (bill_line settings c)
    = exact_price (b_PricePerGiBMicro settings) (cc_Bytes c) bytesPerGiB ∧
  ln_ItemsCostMicro (bill_line settings c)
    = exact_price (b_PricePerMillionItemsMicro settings) (cc_Items c) 1000000 ∧
  ln_TotalMicro (bill_line settings c) = owed settings c.
Proof.
  intros Hfit. unfold owed in *.
  pose proof (exact_price_nonneg (b_PricePerGiBMicro settings) (cc_Bytes c) bytesPerGiB ltac:(done)).
  pose proof (exact_price_nonneg (b_PricePerMillionItemsMicro settings) (cc_Items c) 1000000 ltac:(done)).
  unfold bill_line; cbn [ln_BytesCostMicro ln_ItemsCostMicro ln_TotalMicro].
  rewrite !mulDiv_exact by (done || lia). split_and!; try done.
  apply wrap64_id. unfold int64_ok, MinInt64. lia.
Qed.

Lemma total_exact settings costs acc :
  0 <= acc → acc + sum_owed settings costs <= MaxInt64 →
  foldl (λ total l, wrap64 (total + ln_TotalMicro l)) acc (bill_line settings <$> costs)
  = acc + sum_owed settings costs.
Proof.
  revert acc. induction costs as [|c costs IH]; intros acc Hacc Hfit; [cbn; lia|].
  change (sum_owed settings (c :: costs)) with (owed settings c + sum_owed settings costs) in *.
  pose proof (owed_nonneg settings c). pose proof (sum_owed_nonneg settings costs).
  cbn [fmap list_fmap foldl]. destruct (bill_line_exact settings c) as (_ & _ & ->); [lia|].
  rewrite wrap64_id by (unfold int64_ok, MinInt64; lia).
  rewrite IH by lia. lia.
Qed.

(** C37: A statement is exact as long as its total fits into 64 bits: one line
    per customer, in the order of the amounts; bytes and items are priced
    without rounding in between, each rounded down to a micro-unit, so a line
    is less than two micro-units below the true amount; and the total is the
    sum of the lines. *)
Theorem statement_exact (month : string) (costs : list CustomerCost) (settings : BillingSettings) :
  sum_owed settings costs <= MaxInt64 →
  let st := Compute month costs settings in
  bs_Lines st ≡ₚ (bill_line settings <$> costs) ∧
  Sorted (by_amount ln_TotalMicro ln_Name) (bs_Lines st) ∧
  bs_TotalMicro st = foldr Z.add 0 (ln_TotalMicro <$> bs_Lines st) ∧
  ∀ l, l ∈ bs_Lines st → ∃ c, c ∈ costs ∧ ln_CustomerID l = cc_CustomerID c ∧
    ln_TotalMicro l = ln_BytesCostMicro l + ln_ItemsCostMicro l ∧
    let owes := Z.max 0 (b_PricePerGiBMicro settings) * Z.max 0 (cc_Bytes c) * 1000000
                + Z.max 0 (b_PricePerMillionItemsMicro settings) * Z.max 0 (cc_Items c) * bytesPerGiB in
    0 <= owes - ln_TotalMicro l * (bytesPerGiB * 1000000) < 2 * (bytesPerGiB * 1000000).
Proof.
  intros Hfit st.
  assert (Hperm : bs_Lines st ≡ₚ bill_line settings <$> costs) by apply merge_sort_Permutation.
  assert (Hle : ∀ c, c ∈ costs → owed settings c <= MaxInt64).
  { clear st Hperm. induction costs as [|c0 costs IH]; intros c Hc; [by apply elem_of_nil in Hc|].
    change (sum_owed settings (c0 :: costs)) with (owed settings c0 + sum_owed settings costs) in Hfit.
    pose proof (owed_nonneg settings c0). pose proof (sum_owed_nonneg settings costs).
    apply elem_of_cons in Hc as [->|Hc]; [lia|]. apply IH; [lia|done]. }
  split_and!; [exact Hperm|apply Sorted_merge_sort; apply _|..].
  - unfold st at 1. cbn [Compute bs_TotalMicro]. rewrite total_exact by lia.
    assert (Hs : sum_owed settings costs = foldr Z.add 0 (ln_TotalMicro <$> (bill_line settings <$> costs))).
    { unfold sum_owed. f_equal. rewrite <- list_fmap_compose. apply list_fmap_ext.
      intros i c Hc%list_elem_of_lookup_2. symmetry. by apply bill_line_exact, Hle. }
    rewrite Z.add_0_l, Hs. apply (foldr_permutation (=) Z.add 0); [..|by rewrite Hperm].
    intros; lia.
  - intros l Hl. rewrite Hperm in Hl. apply list_elem_of_fmap in Hl as (c & -> & Hc). exists c.
    destruct (bill_line_exact settings c (Hle c Hc)) as (Hb & Hi & Ht). rewrite Ht, Hb, Hi.
    split_and!; try done. unfold owed, exact_price.
    pose proof (Z.mod_pos_bound (Z.max 0 (b_PricePerGiBMicro settings) * Z.max 0 (cc_Bytes c)) bytesPerGiB ltac:(done)).
    pose proof (Z.mod_pos_bound (Z.max 0 (b_PricePerMillionItemsMicro settings) * Z.max 0 (cc_Items c)) 1000000 ltac:(done)).
    pose proof (Z.div_mod (Z.max 0 (b_PricePerGiBMicro settings) * Z.max 0 (cc_Bytes c)) bytesPerGiB ltac:(done)).
    pose proof (Z.div_mod (Z.max 0 (b_PricePerMillionItemsMicro settings) * Z.max 0 (cc_Items c)) 1000000 ltac:(done)).
    unfold bytesPerGiB in *. nia.
Qed.

Definition sample_settings (perGiB perMillion : Z) : BillingSettings :=
  {| b_PricePerGiBMicro := perGiB; b_PricePerMillionItemsMicro := perMillion; b_Currency := "EUR";
     b_UpdatedAt := 0; b_UpdatedBy := None |}.

Definition sample_cost (id : uuid) (name : string) (items bytes : Z) : CustomerCost :=
  {| cc_CustomerID := id; cc_Name := name; cc_Items := items; cc_Bytes := bytes; cc_Days := [] |}.

Definition sample_costs : list CustomerCost :=
  [sample_cost 1 "acme" 1500000 (2 ^ 29); sample_cost 2 "beta" 7 (3 * 2 ^ 30)].

(** Half a gibibyte and 1.5 million items for [acme], 3 GiB for [beta]: the
    larger bill comes first, the seven items are rounded away. *)
Lemma statement_exact_witness :
  bs_Lines (Compute "2024-05" sample_costs (sample_settings 3000001 100000))
  = [bill_line (sample_settings 3000001 100000) (sample_cost 2 "beta" 7 (3 * 2 ^ 30));
     bill_line (sample_settings 3000001 100000) (sample_cost 1 "acme" 1500000 (2 ^ 29))] ∧
  bs_TotalMicro (Compute "2024-05" sample_costs (sample_settings 3000001 100000)) = 10650003 ∧
  Sorted (by_amount ln_TotalMicro ln_Name)
    (bs_Lines (Compute "2024-05" sample_costs (sample_settings 3000001 100000))).
Proof.
  split; [by vm_compute|]. split; [by vm_compute|].
  assert (Hfit : sum_owed (sample_settings 3000001 100000) sample_costs <= MaxInt64) by by vm_compute.
  exact (proj1 (proj2 (statement_exact "2024-05" sample_costs (sample_settings 3000001 100000) Hfit))).
Defined.

(** The bound is needed: two gibibytes at a price of 2^62 a gibibyte, which
    the settings accept, are billed as a negative amount. *)
Example amount_wraps :
  bs_TotalMicro (Compute "2024-05" [sample_cost 1 "acme" 0 (2 * 2 ^ 30)] (sample_settings (2 ^ 62) 0))
  = - 2 ^ 63.
Proof. by vm_compute. Qed.
