(* ===== verification/Retention.v ===== *)
(** * Retention (internal/retention/retention.go)

    The nightly sweep: for every active customer with an override, a DELETE
    mutation per telemetry table.  ClickHouse accepts a mutation at once and
    executes it later, so the state holds the mutations submitted. *)
From Stdlib Require Import Ascii.
From S2P Require Import Prelude GoStrings Store World PgCore PgMisc StoreInv TenantQuota Telemetry.

(** ** Tables and statements *)

Record table := { tbl_name : string; tbl_timeCol : string }.

Definition retention_tables : list table := [
  {| tbl_name := "otel_logs"; tbl_timeCol := "TimestampTime" |};
  {| tbl_name := "otel_traces"; tbl_timeCol := "Timestamp" |};
  {| tbl_name := "otel_metrics_gauge"; tbl_timeCol := "TimeUnix" |};
  {| tbl_name := "otel_metrics_sum"; tbl_timeCol := "TimeUnix" |};
  {| tbl_name := "otel_metrics_histogram"; tbl_timeCol := "TimeUnix" |};
  {| tbl_name := "otel_metrics_exponential_histogram"; tbl_timeCol := "TimeUnix" |};
  {| tbl_name := "otel_metrics_summary"; tbl_timeCol := "TimeUnix" |}].

Definition statement (days : Z) (t : table) : string :=
  "ALTER TABLE otel." +:+ tbl_name t +:+ " DELETE WHERE TenantId = ? AND " +:+ tbl_timeCol t
  +:+ " < now() - INTERVAL " +:+ Itoa days +:+ " DAY SETTINGS mutations_sync = 0".

Definition Statements (days : Z) : list string := statement days <$> retention_tables.

(** ** What a mutation does *)

(** A submitted DELETE with the TenantId bound to its parameter. *)
Record mutation := { mu_table : table; mu_days : Z; mu_tenant : string }.

(** [now()] is a DateTime, in whole seconds. *)
Definition whole_second (t : time) : time := (t / second * second)%Z.
Definition cutoff (now : time) (days : Z) : time := (whole_second now - days * 86400 * second)%Z.

Definition doomed (m : mutation) (now : time) (tenant : string) (timeCol : time) : bool :=
  bool_decide (tenant = mu_tenant m) && (timeCol <? cutoff now (mu_days m))%Z.

(** The time column of a log row is the DateTime of its instant. *)
Definition delete_logs (m : mutation) (now : time) (l : list LogRow) : list LogRow :=
  filter (λ r, doomed m now (lg_TenantId r) (whole_second (lg_Timestamp r)) = false) l.
Definition delete_spans (m : mutation) (now : time) (l : list SpanRow) : list SpanRow :=
  filter (λ r, doomed m now (sp_TenantId r) (sp_Timestamp r) = false) l.
Definition delete_metrics (m : mutation) (now : time) (l : list MetricRow) : list MetricRow :=
  filter (λ r, doomed m now (mr_TenantId r) (mr_TimeUnix r) = false) l.

Definition mutate (now : time) (m : mutation) (c : ch) : ch :=
  let name := tbl_name (mu_table m) in
  if bool_decide (name = "otel_logs") then c <| otel_logs ::= delete_logs m now |>
  else if bool_decide (name = "otel_traces") then c <| otel_traces ::= delete_spans m now |>
  else if bool_decide (name = "otel_metrics_gauge") then c <| otel_metrics_gauge ::= delete_metrics m now |>
  else if bool_decide (name = "otel_metrics_sum") then c <| otel_metrics_sum ::= delete_metrics m now |>
  else if bool_decide (name = "otel_metrics_histogram") then c <| otel_metrics_histogram ::= delete_metrics m now |>
  else if bool_decide (name = "otel_metrics_exponential_histogram")
  then c <| otel_metrics_exponential_histogram ::= delete_metrics m now |>
  else if bool_decide (name = "otel_metrics_summary") then c <| otel_metrics_summary ::= delete_metrics m now |>
  else c.

(** ** The sweep *)

Record rworld := { rw_w : world; rw_mutations : list mutation }.
#[export] Instance eta_rworld : Eta rworld := λ r, Build_rworld (rw_w r) (rw_mutations r).

Section Sweep.
Context {ENV : Env} {CH : ClickHouse}.

Abbreviation R := (M rworld error).

Definition on_store_ {A} (m : Op A) : R A := λ s,
  let '(r, w) := m (rw_w s) in (r, s <| rw_w := w |>).

(** [ch.Exec]: whether the mutation is accepted. *)
Definition Exec (m : mutation) : R bool :=
  n ← on_store_ tick;
  match ch_fail n with
  | Some _ => mret false
  | None => mmodify (λ s, s <| rw_mutations ::= λ l, l ++ [m] |>);; mret true
  end.

Fixpoint submit_all (ts : list table) (clientID : string) (days submitted errs : Z) : R (Z * Z) :=
  match ts with
  | [] => mret (submitted, errs)
  | t :: ts' =>
    ok ← Exec {| mu_table := t; mu_days := days; mu_tenant := clientID |};
    match ok with
    | true => submit_all ts' clientID days (submitted + 1)%Z errs
    | false => submit_all ts' clientID days submitted (errs + 1)%Z
    end
  end.

Definition applyCustomer (clientID : string) (days : Z) : R (Z * Z) :=
  submit_all retention_tables clientID days 0 0.

Definition retention_entry (c : Customer) (days submitted errs : Z) : Entry := {|
  e_ActorUserID := None; e_ActorType := ActorSystem; e_Action := "retention.apply";
  e_EntityType := "customer"; e_EntityID := uuid_String (c_ID c); e_CustomerID := Some (c_ID c);
  e_Payload := Some (JObj [("retention_days", JNum (Itoa days));
                           ("mutations_submitted", JNum (Itoa submitted)); ("errors", JNum (Itoa errs))]) |}.

(** Failures are logged and the sweep goes on. *)
Definition sweep_customer (c : Customer) : R unit :=
  match c_RetentionDays c with
  | None => mret tt
  | Some days =>
    '(submitted, errs) ← applyCustomer (c_ClientID c) days;
    if (submitted =? 0)%Z then mret tt
    else mtry (on_store_ (WriteAuditEntries [retention_entry c days submitted errs]));; mret tt
  end.

Definition RunOnce : R unit :=
  r ← mtry (on_store_ (ListCustomers (Some CustomerActive)));
  match r with
  | inr _ => mret tt
  | inl customers => mfor customers sweep_customer
  end.

End Sweep.

(** ** What a sweep deletes *)

(** Every stored row as its table, tenant and time column. *)
Definition rows_of (c : ch) : list (string * string * time) :=
  let metrics name l := (λ r, (name, mr_TenantId r, mr_TimeUnix r)) <$> l in
  ((λ r, ("otel_logs", lg_TenantId r, whole_second (lg_Timestamp r))) <$> otel_logs c)
  ++ ((λ r, ("otel_traces", sp_TenantId r, sp_Timestamp r)) <$> otel_traces c)
  ++ metrics "otel_metrics_gauge" (otel_metrics_gauge c)
  ++ metrics "otel_metrics_sum" (otel_metrics_sum c)
  ++ metrics "otel_metrics_histogram" (otel_metrics_histogram c)
  ++ metrics "otel_metrics_exponential_histogram" (otel_metrics_exponential_histogram c)
  ++ metrics "otel_metrics_summary" (otel_metrics_summary c).

Definition hit (m : mutation) (now : time) (row : string * string * time) : bool :=
  bool_decide (row.1.1 = tbl_name (mu_table m)) && doomed m now row.1.2 row.2.

Lemma filter_image {A B} (f : A → B) (P : B → bool) (l : list A) :
  filter (λ y, P y = false) (f <$> l) = f <$> filter (λ x, P (f x) = false) l.
Proof.
  induction l as [|x l IH]; [done|]. cbn [fmap list_fmap]. rewrite !filter_cons.
  destruct (decide (P (f x) = false)); cbn; by rewrite IH.
Qed.

(** A table under another name is not hit. *)
Lemma filter_other {A} (f : A → string * string * time) m now (l : list A) :
  (∀ r, (f r).1.1 ≠ tbl_name (mu_table m)) →
  filter (λ x, hit m now x = false) (f <$> l) = f <$> l.
Proof.
  intros Hne. apply filter_all. intros x (r & -> & _)%list_elem_of_fmap. unfold hit.
  by rewrite bool_decide_false.
Qed.

(** The table of the mutation loses its doomed rows. *)
Lemma filter_own {A} (f : A → string * string * time) (P : A → bool) m now (l : list A) :
  (∀ r, (f r).1.1 = tbl_name (mu_table m)) → (∀ r, doomed m now (f r).1.2 (f r).2 = P r) →
  filter (λ x, hit m now x = false) (f <$> l) = f <$> filter (λ r, P r = false) l.
Proof.
  intros Hn HP. rewrite filter_image. f_equal. apply list_filter_iff. intros r.
  unfold hit. rewrite Hn, bool_decide_true, HP by done. done.
Qed.

Lemma rows_of_mutate now m c :
  mu_table m ∈ retention_tables →
  rows_of (mutate now m c) = filter (λ x, hit m now x = false) (rows_of c).
Proof.
  intros Ht. unfold rows_of. rewrite !filter_app.
  assert (Hn : tbl_name (mu_table m) ∈ tbl_name <$> retention_tables) by (by apply list_elem_of_fmap_2).
  unfold mutate. remember (tbl_name (mu_table m)) as n eqn:E.
  unfold retention_tables in Hn. cbn in Hn.
  repeat (apply elem_of_cons in Hn as [->|Hn]); [..|by apply elem_of_nil in Hn].
  all: cbn; repeat f_equal; symmetry;
    first [apply filter_other; intros r; cbn; by rewrite <- E
          |apply filter_own; intros r; cbn; [by rewrite <- E|reflexivity]].
Qed.

Lemma mutate_counts now m c : ingest_counts_1m (mutate now m c) = ingest_counts_1m c.
Proof. unfold mutate. repeat case_bool_decide; done. Qed.

Lemma rows_of_table row c : row ∈ rows_of c → row.1.1 ∈ tbl_name <$> retention_tables.
Proof.
  intros Hr. unfold rows_of in Hr. rewrite !elem_of_app, !list_elem_of_fmap in Hr.
  destruct Hr as [H|[H|[H|[H|[H|[H|H]]]]]]; destruct H as (? & -> & _);
    apply (bool_decide_unpack _); vm_compute; exact I.
Qed.

(** The mutations as ClickHouse executes them, each at its time. *)
Definition execute (execs : list (time * mutation)) (c : ch) : ch :=
  foldl (λ c x, mutate x.1 x.2 c) c execs.

Lemma execute_rows execs c :
  (∀ x, x ∈ execs → mu_table x.2 ∈ retention_tables) →
  ∀ row, row ∈ rows_of (execute execs c) ↔
         row ∈ rows_of c ∧ ∀ x, x ∈ execs → hit x.2 x.1 row = false.
Proof.
  revert c. induction execs as [|x execs IH]; intros c Hx row.
  - cbn [execute foldl]. split; [|tauto]. intros Hr. split; [done|].
    intros x Hin. by apply elem_of_nil in Hin.
  - change (execute (x :: execs) c) with (execute execs (mutate x.1 x.2 c)). rewrite IH by (intros; apply Hx; by right).
    rewrite rows_of_mutate by (apply Hx; left). rewrite list_elem_of_filter. split.
    + intros [[Hh Hr] Hall]. split; [done|]. intros y [->|Hy]%elem_of_cons; auto.
    + intros [Hr Hall]. split; [split; [apply Hall; left|done]|]. intros y Hy. apply Hall. by right.
Qed.

Lemma execute_counts execs c : ingest_counts_1m (execute execs c) = ingest_counts_1m c.
Proof. revert c. induction execs as [|x execs IH]; intros c; [done|].
  change (execute (x :: execs) c) with (execute execs (mutate x.1 x.2 c)). by rewrite IH, mutate_counts. Qed.

Section Sound.
Context {ENV : Env} {CH : ClickHouse}.

(** A customer whose override the sweep enforces. *)
Definition enforced (d : db) (c : Customer) (days : Z) : Prop :=
  c ∈ rows (customers d) ∧ c_Status c = CustomerActive ∧ c_RetentionDays c = Some days.

Definition wanted (d : db) (m : mutation) : Prop :=
  mu_table m ∈ retention_tables ∧ ∃ c, enforced d c (mu_days m) ∧ c_ClientID c = mu_tenant m.

(** The mutations of [l'] beyond those of [l] satisfy [P], and all of [Q] are
    among them if nothing fails. *)
Definition adds (P Q : mutation → Prop) (l l' : list mutation) : Prop :=
  ∃ new, l' = l ++ new ∧ (∀ m, m ∈ new → P m) ∧
         ((∀ n, ch_fail n = None) → ∀ m, Q m → m ∈ new).

Lemma Exec_eq m s :
  let s1 := s <| rw_w := (rw_w s) <| w_tick ::= S |> |> in
  Exec m s = match ch_fail (w_tick (rw_w s)) with
             | Some _ => (inl false, s1)
             | None => (inl true, s1 <| rw_mutations ::= λ l, l ++ [m] |>)
             end.
Proof. unfold Exec, on_store_, tick, mbind, M_bind. cbn. by destruct (ch_fail _). Qed.

Lemma submit_all_adds ts client days a b s :
  ∃ r s', submit_all ts client days a b s = (inl r, s') ∧
    adds (λ m, mu_table m ∈ ts ∧ mu_days m = days ∧ mu_tenant m = client)
         (λ m, mu_table m ∈ ts ∧ mu_days m = days ∧ mu_tenant m = client)
         (rw_mutations s) (rw_mutations s').
Proof.
  revert a b s. induction ts as [|t ts IH]; intros a b s; cbn [submit_all].
  - exists (a, b), s. split; [done|]. exists []. rewrite app_nil_r. split_and!; [done|set_solver..].
  - unfold mbind, M_bind. rewrite Exec_eq. cbv zeta.
    destruct (ch_fail (w_tick (rw_w s))) eqn:Ef.
    + destruct (IH a (b + 1)%Z (s <| rw_w := (rw_w s) <| w_tick ::= S |> |>))
        as (r & s' & E & new & Hl & HP & HQ).
      exists r, s'. split; [exact E|]. exists new. split_and!; [exact Hl| |].
      * intros m Hm. destruct (HP m Hm) as (? & ? & ?). split_and!; [by right|done..].
      * intros Hnf. by rewrite Hnf in Ef.
    + set (m0 := {| mu_table := t; mu_days := days; mu_tenant := client |}).
      destruct (IH (a + 1)%Z b (s <| rw_w := (rw_w s) <| w_tick ::= S |> |>
                     <| rw_mutations ::= λ l, l ++ [m0] |>)) as (r & s' & E & new & Hl & HP & HQ).
      exists r, s'. split; [exact E|]. exists (m0 :: new). cbn in Hl. split_and!.
      * by rewrite Hl, <- app_assoc.
      * intros m [->|Hm]%elem_of_cons; [split_and!; [left|done..]|].
        destruct (HP m Hm) as (? & ? & ?). split_and!; [by right|done..].
      * intros Hnf m ([Ht|Ht]%elem_of_cons & Hd & Hc).
        -- replace m with m0 by (unfold m0; destruct m; cbn in *; congruence). left.
        -- right. by apply HQ.
Qed.

Lemma adds_trans P1 Q1 P2 Q2 l1 l2 l3 :
  adds P1 Q1 l1 l2 → adds P2 Q2 l2 l3 → adds (λ m, P1 m ∨ P2 m) (λ m, Q1 m ∨ Q2 m) l1 l3.
Proof.
  intros (n1 & -> & HP1 & HQ1) (n2 & -> & HP2 & HQ2). exists (n1 ++ n2).
  split_and!; [by rewrite app_assoc|intros m [?|?]%elem_of_app; auto|].
  intros Hnf m [?|?]; apply elem_of_app; auto.
Qed.

Lemma adds_mono P Q P' Q' l l' :
  (∀ m, P m → P' m) → (∀ m, Q' m → Q m) → adds P Q l l' → adds P' Q' l l'.
Proof. intros HP HQ (n & -> & H1 & H2). exists n. split_and!; auto. Qed.

Definition of_customer (c : Customer) (m : mutation) : Prop :=
  mu_table m ∈ retention_tables ∧ c_RetentionDays c = Some (mu_days m) ∧ c_ClientID c = mu_tenant m.

Lemma sweep_customer_adds c s :
  ∃ s', sweep_customer c s = (inl tt, s') ∧
    adds (of_customer c) (of_customer c) (rw_mutations s) (rw_mutations s').
Proof.
  unfold sweep_customer. destruct (c_RetentionDays c) as [days|] eqn:E.
  - unfold applyCustomer, mbind at 1, M_bind.
    destruct (submit_all_adds retention_tables (c_ClientID c) days 0 0 s) as ([n e] & s1 & -> & Ha).
    assert (Hc : adds (of_customer c) (of_customer c) (rw_mutations s) (rw_mutations s1)).
    { eapply adds_mono; [..|exact Ha]; unfold of_customer; rewrite E; intros m; naive_solver. }
    destruct (n =? 0)%Z; [by exists s1|]. unfold mtry, on_store_, mbind, M_bind.
    destruct (WriteAuditEntries _ _) as [r w]. cbn. by eexists.
  - exists s. split; [done|]. exists []. rewrite app_nil_r. unfold of_customer.
    split_and!; [done|set_solver|]. intros _ m (_ & H & _). congruence.
Qed.

Lemma sweep_all_adds cs s :
  ∃ s', mfor cs sweep_customer s = (inl tt, s') ∧
    adds (λ m, ∃ c, c ∈ cs ∧ of_customer c m) (λ m, ∃ c, c ∈ cs ∧ of_customer c m)
         (rw_mutations s) (rw_mutations s').
Proof.
  revert s. induction cs as [|c cs IH]; intros s; cbn [mfor].
  - exists s. split; [done|]. exists []. rewrite app_nil_r. split_and!; set_solver.
  - unfold mbind, M_bind. destruct (sweep_customer_adds c s) as (s1 & -> & H1).
    destruct (IH s1) as (s2 & -> & H2). exists s2. split; [done|].
    eapply adds_mono; [..|exact (adds_trans _ _ _ _ _ _ _ H1 H2)]; cbn; intros m; set_solver.
Qed.

Lemma RunOnce_adds s :
  w_aborted (rw_w s) = false →
  ∃ s', RunOnce s = (inl tt, s') ∧
    adds (wanted (w_db (rw_w s))) (λ m, (∀ n, fault n = false) ∧ wanted (w_db (rw_w s)) m)
         (rw_mutations s) (rw_mutations s').
Proof.
  intros Hab. unfold RunOnce, mtry, on_store_, mbind at 1, M_bind.
  destruct (ListCustomers (Some CustomerActive) (rw_w s)) as [[cs|e] w] eqn:E.
  - apply query_inl in E as [-> _].
    destruct (sweep_all_adds (order_by (by_created c_CreatedAt c_ID)
        (where_ (λ c, not_deleted c && matches (Some CustomerActive) (c_Status c))
           (rows (customers (w_db (rw_w s)))))) (s <| rw_w := w |>)) as (s' & Hs & Ha).
    exists s'. split; [exact Hs|].
    assert (Hin : ∀ c, c ∈ order_by (by_created c_CreatedAt c_ID)
        (where_ (λ c, not_deleted c && matches (Some CustomerActive) (c_Status c))
           (rows (customers (w_db (rw_w s))))) ↔
        c ∈ rows (customers (w_db (rw_w s))) ∧ c_Status c = CustomerActive).
    { intros c. unfold order_by. rewrite merge_sort_Permutation. unfold where_.
      rewrite list_elem_of_filter, andb_true_iff. unfold not_deleted, matches.
      rewrite bool_decide_eq_true. split; [naive_solver|].
      intros [Hc Hst]. rewrite Hst. done. }
    eapply adds_mono; [..|exact Ha]; unfold wanted, enforced, of_customer; intros m.
    + intros (c & [Hc Hst]%Hin & Ht & Hd & Hcl). eauto 8.
    + intros (_ & Ht & c & (Hc & Hst & Hd) & Hcl). exists c. rewrite Hin. done.
  - exists (s <| rw_w := w |>). split; [done|]. exists []. rewrite app_nil_r.
    split_and!; [done|set_solver|]. intros _ m [Hnf _].
    unfold ListCustomers, query, stmt in E. rewrite Hnf, Hab in E. done.
Qed.

End Sound.

(** C36: A sweep deletes what has outlived its retention and nothing else:
    every sweep runs to its end; whenever and in whatever order ClickHouse
    executes mutations it accepted, a row only disappears from a telemetry
    table if it belongs to an active customer with a retention override that
    had run out at that moment, and ingest counts are never touched; and when
    nothing fails, executing all of them leaves no such row. *)
Theorem retention_sweep {ENV : Env} {CH : ClickHouse} (w : world) (c : ch) :
  w_aborted w = false →
  ∃ s', RunOnce {| rw_w := w; rw_mutations := [] |} = (inl tt, s') ∧
  ∀ execs, (∀ x, x ∈ execs → x.2 ∈ rw_mutations s') →
    ingest_counts_1m (execute execs c) = ingest_counts_1m c ∧
    (∀ row, row ∈ rows_of c → row ∉ rows_of (execute execs c) →
       ∃ cu days now, enforced (w_db w) cu days ∧ c_ClientID cu = row.1.2 ∧
         now ∈ execs.*1 ∧ (row.2 < cutoff now days)%Z) ∧
    ((∀ n, ch_fail n = None) → (∀ n, fault n = false) →
     (∀ m, m ∈ rw_mutations s' → m ∈ execs.*2) →
     ∀ cu days row, enforced (w_db w) cu days → row ∈ rows_of (execute execs c) →
       row.1.2 = c_ClientID cu → ∃ now, now ∈ execs.*1 ∧ (cutoff now days <= row.2)%Z).
Proof.
  intros Hab. destruct (RunOnce_adds {| rw_w := w; rw_mutations := [] |} Hab)
    as (s' & Hrun & new & Hm & Hwanted & Hall). cbn in Hm, Hwanted, Hall.
  exists s'. split; [exact Hrun|]. rewrite Hm. clear Hrun Hm s'. intros execs Hex.
  assert (Htab : ∀ x, x ∈ execs → mu_table x.2 ∈ retention_tables) by (intros x Hx; apply Hwanted, Hex, Hx).
  split; [apply execute_counts|]. split.
  - intros row Hin Hout.
    assert (Hh : ∃ x, x ∈ execs ∧ hit x.2 x.1 row = true).
    { destruct (decide (Exists (λ x, hit x.2 x.1 row = true) execs)) as [He|He];
        [by apply Exists_exists in He|]. destruct Hout. apply execute_rows; [done|]. split; [done|].
      intros x Hx. rewrite <- Forall_Exists_neg in He. rewrite Forall_forall in He.
      by apply not_true_is_false, He. }
    destruct Hh as (x & Hx & Hh). destruct (Hwanted x.2 (Hex x Hx)) as (_ & cu & Hcu & Hcl).
    unfold hit, doomed in Hh. rewrite !andb_true_iff, !bool_decide_eq_true in Hh.
    destruct Hh as (_ & Ht & Hlt%Z.ltb_lt). exists cu, (mu_days x.2), x.1.
    split_and!; [done|congruence|by apply list_elem_of_fmap_2|done].
  - intros Hch Hnf Hexec cu days row Hcu Hrow Htenant.
    apply execute_rows in Hrow as [Hrow Hno]; [|done].
    apply rows_of_table, list_elem_of_fmap in Hrow as (t & Hname & Ht).
    set (m := {| mu_table := t; mu_days := days; mu_tenant := c_ClientID cu |}).
    assert (Hnew : m ∈ new) by (apply Hall; [done|]; split; [done|]; split; [done|]; eauto).
    apply Hexec, list_elem_of_fmap in Hnew as (x & Hxm & Hx). exists x.1.
    split; [by apply list_elem_of_fmap_2|]. specialize (Hno x Hx). rewrite <- Hxm in Hno.
    unfold hit, doomed in Hno. cbn in Hno. rewrite !bool_decide_true in Hno by done.
    by apply Z.ltb_ge in Hno.
Qed.

(** Two customers, the first keeps a week; each has an old and a new log. *)
Definition demo_customer_ (id : uuid) (client : string) (days : option Z) : Customer := {|
  c_ID := id; c_Slug := client; c_Name := client; c_ClientID := client; c_Status := CustomerActive;
  c_RateLimitItemsPerSec := None; c_RetentionDays := days; c_CreatedAt := 0; c_UpdatedAt := 0 |}.
Definition retention_world : world :=
  world_init <| w_db ::= λ d, d <| customers :=
    {[1%N := demo_customer_ 1 "acme" (Some 7%Z); 2%N := demo_customer_ 2 "globex" None]} |> |>.
Definition log_at (tenant : string) (day : Z) : LogRow := {|
  lg_Timestamp := day * 86400 * second; lg_TraceId := ""; lg_SpanId := ""; lg_SeverityText := "";
  lg_SeverityNumber := 9; lg_ServiceName := "shop"; lg_Body := ""; 
  lg_ResourceAttributes := {["tenant.id" := tenant]}; lg_LogAttributes := ∅ |}.
Definition retention_ch : ch :=
  ch_empty <| otel_logs := [log_at "acme" 80; log_at "acme" 95; log_at "globex" 80; log_at "globex" 95] |>.
Definition swept := @RunOnce quiet_env quiet_ch {| rw_w := retention_world; rw_mutations := [] |}.
Definition on_day_100 : list (time * mutation) :=
  (λ m, ((100 * 86400 * second)%Z, m)) <$> rw_mutations swept.2.

Lemma retention_sweep_witness :
  length (rw_mutations swept.2) = 7 ∧
  otel_logs (execute on_day_100 retention_ch) = [log_at "acme" 95; log_at "globex" 80; log_at "globex" 95] ∧
  ∀ row, row ∈ rows_of (execute on_day_100 retention_ch) → row.1.2 = "acme" →
    ∃ now, now ∈ on_day_100.*1 ∧ (cutoff now 7 <= row.2)%Z.
Proof.
  destruct (@retention_sweep quiet_env quiet_ch retention_world retention_ch eq_refl) as (s' & Hs & Hx).
  assert (s' = swept.2) as -> by (unfold swept; by rewrite Hs).
  split; [vm_compute; reflexivity|]. split; [vm_compute; reflexivity|].
  destruct (Hx on_day_100) as (_ & _ & Hall).
  - intros x (m & -> & Hm)%list_elem_of_fmap. exact Hm.
  - intros row Hrow Ht. apply (Hall (λ _, eq_refl) (λ _, eq_refl)) with (cu := demo_customer_ 1 "acme" (Some 7%Z)).
    + intros m Hm. unfold on_day_100. rewrite <- list_fmap_compose. cbn. by rewrite list_fmap_id.
    + split; [|done]. apply elem_of_rows. exists 1%N. reflexivity.
    + exact Hrow.
    + exact Ht.
Defined.
