(* ===== verification/ApiTelemetry.v ===== *)
(** * Handlers and routes of the telemetry endpoints

    Explore (handlers_explore.go), statistics (handlers.go,
    handlers_pipelines.go) and the billing statement (handlers_billing.go),
    behind the same Guard as the other operations.  They read ClickHouse and
    VictoriaMetrics besides the store, so their state is a handler's state and
    the ClickHouse tables. *)
From Stdlib Require Import Ascii SpecFloat.
From S2P Require Import Prelude GoStrings Store World PgCore PgPipelines PgMisc Tokens Tenants GoText Json Catalog PipelineGraph Validate PipelineService Auth ApiTypes ApiGuard ApiHandlers ApiRoutes Binary64 TenantQuota GoTime Telemetry Stats Billing.

(** ** Bodies *)

(** [float32(x)] and [float64(x)]. *)
Definition convert (prec emax : Z) (x : spec_float) : spec_float :=
  match x with
  | S754_finite s m e => binary_normalize prec emax (if s then Zneg m else Zpos m) e s
  | _ => x
  end.
Definition float32 : spec_float → spec_float := convert 24 128.
Definition float64 : spec_float → spec_float := convert 53 1024.

(** nil when empty, so that the field is left out. *)
Definition ptrMap (m : gmap string string) : option (gmap string string) :=
  if bool_decide (m = ∅) then None else Some m.
Definition ptr_text (s : string) : option string := if bool_decide (s = "") then None else Some s.

Definition toLogRecord (l : LogRecord) : ApiLogRecord := {|
  rec_Timestamp := lo_Timestamp l; rec_SeverityText := lo_SeverityText l;
  rec_SeverityNumber := lo_SeverityNumber l; rec_ServiceName := lo_ServiceName l;
  rec_Body := lo_Body l; rec_TraceId := ptr_text (lo_TraceID l); rec_SpanId := ptr_text (lo_SpanID l);
  rec_Attributes := ptrMap (lo_Attributes l) |}.

Definition toTraceSummary (t : TraceSummary) : ApiTraceSummary := {|
  sum_TraceId := ts_TraceID t; sum_RootName := ts_RootName t; sum_RootService := ts_RootService t;
  sum_StartTime := ts_StartTime t; sum_DurationMs := float32 (ts_DurationMs t);
  sum_SpanCount := ts_SpanCount t; sum_ErrorCount := ts_ErrorCount t |}.

Definition toSpan (s : Span) : ApiSpan := {|
  asp_SpanId := span_SpanID s; asp_ParentSpanId := ptr_text (span_ParentSpanID s);
  asp_Name := span_Name s; asp_Service := span_Service s; asp_Kind := span_Kind s;
  asp_StartTime := span_StartTime s; asp_DurationMs := float32 (span_DurationMs s);
  asp_StatusCode := span_StatusCode s; asp_StatusMessage := ptr_text (span_StatusMessage s);
  asp_Attributes := ptrMap (span_Attributes s) |}.

Definition toOverview (ov : Overview) : StatsOverview :=
  let total sig := default 0%Z (ov_Totals ov !! sig) in {|
  so_ActiveCustomers := ov_ActiveCustomers ov; so_RefusedRequests := Some (ov_RefusedRequests ov);
  so_Logs := total "logs"; so_Traces := total "traces"; so_Metrics := total "metrics";
  so_TopCustomers := (λ tc, (tc_CustomerID tc, tc_Name tc, tc_Items tc)) <$> ov_TopCustomers ov |}.

Definition toCost (c : CustomerCost) : ApiCustomerCost := {|
  acc_CustomerId := cc_CustomerID c; acc_Name := cc_Name c; acc_Items := cc_Items c;
  acc_Bytes := cc_Bytes c;
  acc_Days := (λ d, (cd_Bytes d, cd_Date d, cd_Items d)) <$> cc_Days c |}.

Definition toSeries (s : Series) : ThroughputSeries := {|
  thr_Signal := sr_Signal s;
  thr_Points := (λ p, (pt_Ts p, float32 (pt_Value p))) <$> sr_Points s |}.

Definition appendExporter (name : string) (e : ExporterStage) : ApiExporterStage := {|
  aes_Name := name; aes_Type := ComponentType name; aes_Sent := es_Sent e;
  aes_SendFailed := es_SendFailed e; aes_EnqueueFailed := Some (es_EnqueueFailed e);
  aes_QueueSize := float32 (es_QueueSize e); aes_QueueCapacity := float32 (es_QueueCapacity e) |}.

Definition toStatement (st : Statement) : BillingStatement := {|
  bst_Month := bs_Month st; bst_Currency := bs_Currency st;
  bst_PricePerGibMicro := bs_PricePerGiBMicro st;
  bst_PricePerMillionItemsMicro := bs_PricePerMillionItemsMicro st;
  bst_Lines := (λ l, {| bl_CustomerId := ln_CustomerID l; bl_Name := ln_Name l; bl_Items := ln_Items l;
                        bl_Bytes := ln_Bytes l; bl_BytesCostMicro := ln_BytesCostMicro l;
                        bl_ItemsCostMicro := ln_ItemsCostMicro l; bl_TotalMicro := ln_TotalMicro l |})
               <$> bs_Lines st;
  bst_TotalMicro := bs_TotalMicro st |}.

(** ** Requests *)

Record QueryLogsParams := {
  ql_From : time; ql_To : time; ql_Q : option string; ql_Service : option string;
  ql_MinSeverity : option Z; ql_Limit : option Z; ql_Before : option time;
}.

Record QueryTracesParams := {
  qt_From : time; qt_To : time; qt_Service : option string; qt_Name : option string;
  qt_MinDurationMs : option spec_float; qt_ErrorsOnly : option bool; qt_Limit : option Z;
  qt_Before : option time;
}.

Record ThroughputParams := {
  tp_Signal : option string; tp_From : time; tp_To : time; tp_Step : option string;
}.

Inductive telemetry_op :=
  | OpQueryLogs (customerId : uuid) (p : QueryLogsParams)
  | OpQueryTraces (customerId : uuid) (p : QueryTracesParams)
  | OpGetTrace (customerId : uuid) (traceId : string)
  | OpGetStatsOverview (from to : time)
  | OpGetCostStats (from to : time)
  | OpGetCustomerThroughput (customerId : uuid) (p : ThroughputParams)
  | OpGetPipelineStageStats (pipelineId : uuid) (from to : time)
  | OpGetBillingStatement (month : string).

Definition telemetry_path (op : telemetry_op) : string :=
  match op with
  | OpQueryLogs id _ => below "customers" id "/logs"
  | OpQueryTraces id _ => below "customers" id "/traces"
  | OpGetTrace id trace => below "customers" id ("/traces/" +:+ trace)
  | OpGetStatsOverview _ _ => "/api/v1/stats/overview"
  | OpGetCostStats _ _ => "/api/v1/stats/cost"
  | OpGetCustomerThroughput id _ => below "customers" id "/stats/throughput"
  | OpGetPipelineStageStats id _ _ => below "pipelines" id "/stats/stages"
  | OpGetBillingStatement _ => "/api/v1/billing/statement"
  end.

(** All are GET. *)
Definition telemetry_request (op : telemetry_op) (authorization csrf : string) : Request := {|
  rq_Method := "GET"; rq_Path := telemetry_path op;
  rq_Authorization := authorization; rq_CSRF := csrf |}.

(** ** Handlers *)

Record tstate (D sess : Type) := { tst_api : apistate D sess; tst_ch : ch }.
#[global] Arguments tst_api {D sess} _.
#[global] Arguments tst_ch {D sess} _.
#[global] Arguments Build_tstate {D sess} _ _.

Section Handlers.
Context {ENV : Env} {SM : SessionManager} {UP : UuidParse} {D : Type}.
Context {CH : ClickHouse} {VM : VictoriaMetrics} (unicode_print : N → bool).

Abbreviation HT := (M (tstate D sess) herror).

Definition lift_api {A} (m : M (apistate D sess) herror A) : HT A := λ s,
  let '(r, a) := m (tst_api s) in (r, Build_tstate a (tst_ch s)).

(** A call of the query or the stats service. *)
Definition call_telemetry {A} (m : M tworld error A) : HT (A + error) := λ s,
  let sv := as_svc (tst_api s) in
  let '(r, t) := m (Build_tworld (ss_w sv) (tst_ch s)) in
  (inl r, Build_tstate (Build_apistate (Build_svcstate (tw_w t) (ss_dist sv) (ss_notes sv))
                                       (as_sess (tst_api s))) (tw_ch t)).

Definition ok (b : body) : HT response := mret (Success 200 b).
Definition refused (status : Z) (code message : string) : HT response :=
  mret (errResp status code message).
Definition go_up {A} (e : error) : HT A := mthrow (otherError e).
Definition empty_range : HT response := refused 400 codeBadRequest "'to' must be after 'from'".

(** The ending of the three explore handlers. *)
Definition explored {A} (r : A + error) (k : A → body) : HT response :=
  match r with
  | inl a => ok (k a)
  | inr e => if Is e ErrNotFound then refused 404 codeNotFound "customer not found"
             else if Is e query_ErrUpstreamUnavailable
             then refused 503 codeUpstream "telemetry store unavailable"
             else go_up e
  end.

Definition QueryLogs (p : option Principal) (customerID : uuid) (q : QueryLogsParams) : HT response :=
  lift_api (requireCustomerAccess p (Some customerID));;
  if negb (ql_From q <? ql_To q)%Z then empty_range
  else
    r ← call_telemetry (Telemetry.QueryLogs customerID {|
          lq_From := ql_From q; lq_To := ql_To q; lq_Text := default "" (ql_Q q);
          lq_Service := default "" (ql_Service q);
          lq_MinSeverity := wrap32 (default 0%Z (ql_MinSeverity q));
          lq_Limit := default 0%Z (ql_Limit q); lq_Before := ql_Before q |});
    explored r (λ '(logs, next), BLogs (toLogRecord <$> logs) next).

Definition QueryTraces (p : option Principal) (customerID : uuid) (q : QueryTracesParams) : HT response :=
  lift_api (requireCustomerAccess p (Some customerID));;
  if negb (qt_From q <? qt_To q)%Z then empty_range
  else
    r ← call_telemetry (Telemetry.QueryTraces customerID {|
          tq_From := qt_From q; tq_To := qt_To q; tq_Service := default "" (qt_Service q);
          tq_Name := default "" (qt_Name q);
          tq_MinDurationMs := default (of_Z 0) (float64 <$> qt_MinDurationMs q);
          tq_ErrorsOnly := default false (qt_ErrorsOnly q);
          tq_Limit := default 0%Z (qt_Limit q); tq_Before := qt_Before q |});
    explored r (λ '(traces, next), BTraces (toTraceSummary <$> traces) next).

Definition GetTrace (p : option Principal) (customerID : uuid) (traceID : string) : HT response :=
  lift_api (requireCustomerAccess p (Some customerID));;
  r ← call_telemetry (Telemetry.GetTrace customerID traceID);
  explored r (λ spans, BTrace (toSpan <$> spans)).

(** The ending of the statistics handlers. *)
Definition stats_failed (e : error) : HT response :=
  if Is e stats_ErrUpstreamUnavailable
  then refused 503 codeUpstream "stats backend unavailable" else go_up e.
Definition or_upstream {A} (r : A + error) (k : A → HT response) : HT response :=
  match r with inl a => k a | inr e => stats_failed e end.

Definition GetStatsOverview (p : option Principal) (from to : time) : HT response :=
  if negb (from <? to)%Z then empty_range
  else
    r ← call_telemetry (GetOverview from to (customerScope p));
    or_upstream r (λ ov, ok (BStatsOverview (toOverview ov))).

Definition GetCostStats (p : option Principal) (from to : time) : HT response :=
  if negb (from <? to)%Z then empty_range
  else
    r ← call_telemetry (GetCost from to);
    or_upstream r (λ costs,
      ok (BCostStats (toCost <$> filter (λ c, in_allowed (customerScope p) (cc_CustomerID c) = true) costs))).

Definition GetCustomerThroughput (p : option Principal) (customerID : uuid) (q : ThroughputParams)
    : HT response :=
  lift_api (requireCustomerAccess p (Some customerID));;
  if negb (tp_From q <? tp_To q)%Z then empty_range
  else match ParseStep unicode_print (tp_Step q) with
  | inr e => refused 400 codeBadRequest (err_message e)
  | inl step =>
    r ← call_telemetry (GetThroughput customerID (tp_Signal q) (tp_From q) (tp_To q) step);
    match r with
    | inl series => ok (BThroughput (toSeries <$> series))
    | inr e => if Is e ErrNotFound then refused 404 codeNotFound "customer not found"
               else stats_failed e
    end
  end.

Definition no_stages : PipelineStageStats := {| pss_Received := []; pss_Exporters := [] |}.

(** Exporters of the graph first, then others the telemetry knows. *)
Definition stage_stats (g : Graph) (customerSlug pipelineSlug : string) (flow : PipelineFlow)
    : PipelineStageStats :=
  let stage name := appendExporter name (default no_stage (pf_Exporters flow !! name)) in
  let expected := imap (λ i n, ComponentID n i customerSlug pipelineSlug) (g_Exporters g) in
  {| pss_Received := (λ sig, (default 0%Z (pf_Received flow !! sig), sig)) <$> g_Signals g;
     pss_Exporters := (stage <$> expected)
       ++ (stage <$> filter (λ name, name ∉ expected) (pf_ExporterNames flow)) |}.

(** The view of one version of the pipeline. *)
Definition version_stages (pipe : Pipeline) (from to : time) (version : Z) : HT response :=
  ver ← lift_api (must (call_store (GetPipelineVersion (p_ID pipe) version)));
  match ParseGraph (pv_Graph ver) with
  | inr e => go_up e
  | inl g =>
    let slug := PipelineSlug unicode_lower (p_Name pipe) in
    r ← call_telemetry (GetPipelineStages unicode_print {|
          psq_ClientID := p_ClientID pipe; psq_Signals := g_Signals g;
          psq_ExporterRegex := ExporterLabelRegex (p_CustomerSlug pipe) slug;
          psq_From := from; psq_To := to |});
    or_upstream r (λ flow, ok (BStageStats (stage_stats g (p_CustomerSlug pipe) slug flow)))
  end.

Definition GetPipelineStageStats (p : option Principal) (pipelineID : uuid) (from to : time) : HT response :=
  if negb (from <? to)%Z then empty_range
  else
    r ← lift_api (call_store (PgPipelines.GetPipeline pipelineID));
    match r with
    | inr e => if Is e ErrNotFound then refused 404 codeNotFound "pipeline not found" else go_up e
    | inl pipe =>
      lift_api (requireCustomerAccess p (Some (p_CustomerID pipe)));;
      match p_ActiveVersion pipe, p_LatestVersion pipe with
      | None, None => ok (BStageStats no_stages)
      | Some v, _ | None, Some v => version_stages pipe from to v
      end
    end.

Definition GetBillingStatement (month : string) : HT response :=
  match ParseMonth month with
  | None => refused 400 codeBadRequest "month must be YYYY-MM"
  | Some ym =>
    let '(from, to) := month_range ym in
    settings ← lift_api (must (call_store PgMisc.GetBillingSettings));
    r ← call_telemetry (GetCost from to);
    match r with
    | inr e => if Is e stats_ErrUpstreamUnavailable
               then mthrow (badRequestError (ErrNew "usage backend unavailable")) else go_up e
    | inl costs => ok (BBillingStatement (toStatement (Compute month costs settings)))
    end
  end.

(** ** The guarded server *)

Definition handle_telemetry (op : telemetry_op) (p : option Principal) : HT response :=
  match op with
  | OpQueryLogs id q => QueryLogs p id q
  | OpQueryTraces id q => QueryTraces p id q
  | OpGetTrace id trace => GetTrace p id trace
  | OpGetStatsOverview from to => GetStatsOverview p from to
  | OpGetCostStats from to => GetCostStats p from to
  | OpGetCustomerThroughput id q => GetCustomerThroughput p id q
  | OpGetPipelineStageStats id from to => GetPipelineStageStats p id from to
  | OpGetBillingStatement month => GetBillingStatement month
  end.

Definition serve_telemetry (op : telemetry_op) (authorization csrf : string) : HT response :=
  r ← lift_api (guard (telemetry_request op authorization csrf));
  match r with
  | inl denied => mret denied
  | inr principal => ResponseErrorHandler (handle_telemetry op principal)
  end.

End Handlers.
