(* ===== verification/TelemetryProps.v ===== *)
(** * Tenant isolation of the telemetry endpoints

    Noninterference: what a user with customer grants is shown depends on the
    rows of the granted tenants only.  The proof is relational: two runs of
    the same computation on ClickHouse tables that agree on those tenants
    ([related]). *)
From Stdlib Require Import Ascii SpecFloat.
From S2P Require Import Prelude GoStrings Store World PgCore PgUsers PgFleet PgPipelines PgMisc Tokens Tenants GoText Json Catalog PipelineGraph Render RenderProps Validate Secrets PipelineService PipelineServiceProps Auth ApiTypes ApiGuard ApiHandlers ApiAdmin ApiRoutes StoreInv ApiFrame ApiRoles Binary64 TenantQuota GoTime Telemetry Stats UsageFacts Billing ApiTelemetry.

(** ** Two runs side by side *)

(** From states related by [I] both runs fail with the same error or both
    return, values related by [R]; the states after are related again. *)
Definition related {S E A B} (I : relation S) (R : A → B → Prop) (m1 : M S E A) (m2 : M S E B) : Prop :=
  ∀ s1 s2, I s1 s2 →
    I (m1 s1).2 (m2 s2).2 ∧
    match (m1 s1).1, (m2 s2).1 with
    | inl a, inl b => R a b
    | inr e, inr e' => e = e'
    | _, _ => False
    end.

Section Related.
Context {S E : Type} {I : relation S}.

Lemma related_ret {A B} (R : A → B → Prop) a b : R a b → related (E := E) I R (mret a) (mret b).
Proof. intros HR s1 s2 HI. by split. Qed.

Lemma related_throw {A B} (R : A → B → Prop) (e : E) : related I R (mthrow e) (mthrow e).
Proof. intros s1 s2 HI. by split. Qed.

Lemma related_bind {A1 A2 B1 B2} (R : A1 → A2 → Prop) (Q : B1 → B2 → Prop)
    (m1 : M S E A1) (m2 : M S E A2) (f1 : A1 → M S E B1) (f2 : A2 → M S E B2) :
  related I R m1 m2 → (∀ a b, R a b → related I Q (f1 a) (f2 b)) →
  related I Q (m1 ≫= f1) (m2 ≫= f2).
Proof.
  intros Hm Hf s1 s2 HI. destruct (Hm s1 s2 HI) as [HI' HR]. unfold mbind, M_bind.
  destruct (m1 s1) as [[a|e] s1'], (m2 s2) as [[b|e'] s2']; cbn in HI', HR; try done.
  by apply Hf.
Qed.

Lemma related_weaken {A B} (R Q : A → B → Prop) (m1 : M S E A) (m2 : M S E B) :
  related I R m1 m2 → (∀ a b, R a b → Q a b) → related I Q m1 m2.
Proof.
  intros Hm HRQ s1 s2 HI. destruct (Hm s1 s2 HI) as [HI' HR]. split; [done|].
  destruct (m1 s1).1, (m2 s2).1; auto.
Qed.

End Related.

(** Results of a call that the caller looks at. *)
Definition res_rel {A B E} (R : A → B → Prop) (r1 : A + E) (r2 : B + E) : Prop :=
  match r1, r2 with
  | inl a, inl b => R a b
  | inr e, inr e' => e = e'
  | _, _ => False
  end.

(** ** Tables that agree on some tenants *)

Definition same_tenants (T : gset string) (c1 c2 : ch) : Prop :=
  filter (λ r, lg_TenantId r ∈ T) (otel_logs c1) = filter (λ r, lg_TenantId r ∈ T) (otel_logs c2)
  ∧ filter (λ r, sp_TenantId r ∈ T) (otel_traces c1) = filter (λ r, sp_TenantId r ∈ T) (otel_traces c2)
  ∧ filter (λ r, ic_TenantId r ∈ T) (ingest_counts_1m c1)
    = filter (λ r, ic_TenantId r ∈ T) (ingest_counts_1m c2).

(** The tenants of a set of customers. *)
Definition granted_tenants (A : gset uuid) (d : db) : gset string :=
  list_to_set (c_ClientID <$> filter (λ c, c_ID c ∈ A) (rows (customers d))).

(** Their names tell the customers apart. *)
Definition names_distinct (A : gset uuid) (d : db) : Prop :=
  ∀ i j c c', customers d !! i = Some c → customers d !! j = Some c' → i ∈ A → j ∈ A →
    c_Name c = c_Name c' → i = j.

Section Services.
Context {ENV : Env} {CH : ClickHouse} {CHL : ClickHouseLaws CH} {VM : VictoriaMetrics}.
Context (A : gset uuid) (d : db).
Hypothesis Hkeyed : keyed c_ID (customers d).

Abbreviation T := (granted_tenants A d).

(** The two states of a telemetry request. *)
Definition sees (t1 t2 : tworld) : Prop :=
  tw_w t1 = tw_w t2 ∧ w_db (tw_w t1) = d ∧ same_tenants T (tw_ch t1) (tw_ch t2).
Abbreviation rel R m1 m2 := (related (E := error) sees R m1 m2).

Lemma granted_tenant id c : customers d !! id = Some c → id ∈ A → c_ClientID c ∈ T.
Proof.
  intros Hc Hid. unfold granted_tenants. apply elem_of_list_to_set, list_elem_of_fmap.
  exists c. split; [done|]. apply list_elem_of_filter. split; [by rewrite (Hkeyed _ _ Hc)|].
  unfold rows. apply list_elem_of_fmap. exists (id, c). split; [done|]. by apply elem_of_map_to_list.
Qed.

(** *** The shared part of the state *)

Lemma related_pg {X} (P : X → Prop) (m : Op X) :
  readonly m → (∀ w a w', w_db w = d → m w = (inl a, w') → P a) →
  rel (λ a b, a = b ∧ P a) (on_pg m) (on_pg m).
Proof.
  intros Hro HP [w c1] [w' c2] (E & Hd & Hc). cbn in E, Hd, Hc. subst w'. unfold on_pg. cbn.
  specialize (Hro w). destruct (m w) as [[a|e] w1] eqn:Em; cbn in Hro |- *;
    (split; [split_and!; cbn; congruence|]); [|done]. split; [done|]. by eapply HP.
Qed.

Lemma related_pg_eq {X} (m : Op X) : readonly m → rel (=) (on_pg m) (on_pg m).
Proof. intros Hro. eapply related_weaken; [by apply (related_pg (λ _, True))|naive_solver]. Qed.

Lemma related_gets {X} (f : world → X) : rel (=) (mgets (λ s, f (tw_w s))) (mgets (λ s, f (tw_w s))).
Proof. intros s1 s2 Hs. split; [done|]. cbn. by destruct Hs as [-> _]. Qed.

Lemma related_walk {X} (l1 l2 : list X) : rel (λ a b, a ≡ₚ l1 ∧ b ≡ₚ l2) (walk l1) (walk l2).
Proof. intros s1 s2 Hs. split; [done|]. cbn. split; apply shuffle_perm. Qed.

(** *** SELECTs *)

Lemma related_select {X} (R : list X → list X → Prop) (rows : ch → list X) :
  (∀ c1 c2 l1 l2, same_tenants T c1 c2 → l1 ≡ₚ rows c1 → l2 ≡ₚ rows c2 →
     (rows c1 = rows c2 → l1 = l2) → R l1 l2) →
  rel (res_rel R) (select rows) (select rows).
Proof.
  intros HR. unfold select. eapply related_bind; [apply related_pg_eq, readonly_tick|].
  intros n ? <- s1 s2 Hs. split; [done|]. cbn. destruct (ch_fail n) as [f|]; [done|]. cbn.
  destruct Hs as (_ & _ & Hc). eapply HR; [exact Hc|apply shuffle_perm..|]. by intros ->.
Qed.

(** Rows of a tenant in scope are the same on both sides. *)
Lemma related_select_eq {X} (rows : ch → list X) :
  (∀ c1 c2, same_tenants T c1 c2 → rows c1 = rows c2) →
  rel (res_rel (=)) (select rows) (select rows).
Proof. intros Hr. apply related_select. intros c1 c2 l1 l2 Hc _ _ H. auto. Qed.

Lemma related_upstream {X Y} (R : X → Y → Prop) r1 r2 :
  res_rel R r1 r2 → rel R (upstream r1) (upstream r2).
Proof. destruct r1, r2; intros H; [by apply related_ret|destruct H|destruct H|apply related_throw]. Qed.

Lemma related_stats_upstream {X Y} (R : X → Y → Prop) r1 r2 :
  res_rel R r1 r2 → rel R (stats_upstream r1) (stats_upstream r2).
Proof. destruct r1, r2; intros H; [by apply related_ret|destruct H|destruct H|apply related_throw]. Qed.

Lemma related_rows_err {X Y} (R : X → Y → Prop) r1 r2 :
  res_rel R r1 r2 → rel R (rows_err r1) (rows_err r2).
Proof.
  destruct r1 as [|f], r2 as [|f']; intros H; [by apply related_ret|destruct H|destruct H|].
  cbn in H. subst f'. destruct f; apply related_throw.
Qed.

(** *** The query service *)

Lemma related_tenant id :
  id ∈ A → rel (λ a b, a = b ∧ a ∈ T) (query_tenant id) (query_tenant id).
Proof.
  intros Hid. unfold query_tenant. eapply related_bind.
  - apply (related_pg (λ c, customers d !! id = Some c)); [apply readonly_GetCustomer|].
    intros w c w' Hd Hr. apply onErr_inl, queryRow_inl in Hr as [Hc _]. rewrite Hd in Hc.
    destruct (customers d !! id); [|done]. cbn in Hc. by destruct (not_deleted _); simplify_eq.
  - intros c ? [<- Hc]. apply related_ret. split; [done|]. by eapply granted_tenant.
Qed.

Lemma related_QueryLogs id q :
  id ∈ A → rel (=) (Telemetry.QueryLogs id q) (Telemetry.QueryLogs id q).
Proof.
  intros Hid. eapply related_bind; [by apply related_tenant|]. intros tenant ? [<- Ht].
  eapply related_bind.
  { apply related_select_eq. intros c1 c2 (Hl & _ & _). eapply filter_refine; [|exact Hl].
    intros r Hr. unfold where_log in Hr. rewrite !andb_true_iff in Hr.
    destruct Hr as ((((((->%bool_decide_eq_true & _) & _) & _) & _) & _) & _). done. }
  intros r1 r2 Hr. eapply related_bind; [by apply related_upstream|]. intros l ? <-.
  by apply related_ret.
Qed.

Lemma related_traceCounts tenant ids :
  tenant ∈ T → rel (=) (traceCounts tenant ids) (traceCounts tenant ids).
Proof.
  intros Ht. eapply related_bind.
  { apply related_select_eq. intros c1 c2 (_ & Hs & _). unfold count_groups.
    rewrite (filter_refine (λ r, sp_TenantId r = tenant ∧ sp_TraceId r ∈ ids) (λ r, sp_TenantId r ∈ T)
      (otel_traces c1) (otel_traces c2)); [done| |done]. by intros r [-> _]. }
  intros r1 r2 Hr. eapply related_bind; [by apply related_rows_err|]. intros l ? <-.
  by apply related_ret.
Qed.

Lemma related_QueryTraces id q :
  id ∈ A → rel (=) (Telemetry.QueryTraces id q) (Telemetry.QueryTraces id q).
Proof.
  intros Hid. eapply related_bind; [by apply related_tenant|]. intros tenant ? [<- Ht].
  eapply related_bind.
  { apply related_select_eq. intros c1 c2 (_ & Hs & _). eapply filter_refine; [|exact Hs].
    intros r Hr. unfold where_root in Hr. rewrite !andb_true_iff in Hr.
    destruct Hr as (((((((->%bool_decide_eq_true & _) & _) & _) & _) & _) & _) & _). done. }
  intros r1 r2 Hr. eapply related_bind; [by apply related_upstream|]. intros l ? <-. cbv zeta.
  destruct (_ <$> _); [by apply related_ret|].
  eapply related_bind; [by apply related_traceCounts|]. intros counts ? <-. by apply related_ret.
Qed.

Lemma related_GetTrace id trace :
  id ∈ A → rel (=) (Telemetry.GetTrace id trace) (Telemetry.GetTrace id trace).
Proof.
  intros Hid. eapply related_bind; [by apply related_tenant|]. intros tenant ? [<- Ht].
  eapply related_bind.
  { apply related_select_eq. intros c1 c2 (_ & Hs & _). eapply filter_refine; [|exact Hs].
    by intros r [-> _]. }
  intros r1 r2 Hr. eapply related_bind; [by apply related_rows_err|]. intros l ? <-.
  by apply related_ret.
Qed.

(** *** The statistics service *)

Lemma related_refs :
  rel (λ a b, a = b ∧ (names_distinct A d → scope_ok T A a))
    (on_pg (wrapErr "list customer refs" ListCustomerRefs))
    (on_pg (wrapErr "list customer refs" ListCustomerRefs)).
Proof.
  apply (related_pg (λ l, names_distinct A d → scope_ok T A l)).
  { apply readonly_wrapErr, readonly_query. }
  intros w l w' Hd Hr Hnames. apply wrapErr_inl, query_inl in Hr as [-> _]. rewrite Hd.
  assert (Hrow : ∀ r, r ∈ (λ c, {| cr_ID := c_ID c; cr_Name := c_Name c; cr_ClientID := c_ClientID c |})
                          <$> rows (customers d) →
    ∃ c, customers d !! cr_ID r = Some c ∧ c_Name c = cr_Name r ∧ c_ClientID c = cr_ClientID r
         ∧ r = {| cr_ID := c_ID c; cr_Name := c_Name c; cr_ClientID := c_ClientID c |}).
  { intros r (c & -> & Hc)%list_elem_of_fmap. unfold rows in Hc.
    apply list_elem_of_fmap in Hc as ([k c'] & -> & Hc%elem_of_map_to_list).
    cbn. exists c'. by rewrite (Hkeyed _ _ Hc). }
  split.
  - intros r (c & Hc & _ & <- & _)%Hrow Hin. by eapply granted_tenant.
  - intros r r' (c & Hc & Hn & _ & Hr)%Hrow (c' & Hc' & Hn' & _ & Hr')%Hrow Hin Hin' E.
    assert (cr_ID r = cr_ID r') as Eid by (eapply Hnames; eauto; congruence).
    rewrite Eid in Hc. congruence.
Qed.

Lemma related_go_sort {X} (amount : X → Z) (name : X → string) l1 l2 :
  l1 ≡ₚ l2 → (∀ x y, x ∈ l1 → y ∈ l1 → name x = name y → x = y) →
  rel (=) (go_sort (by_amount amount name) l1) (go_sort (by_amount amount name) l2).
Proof.
  intros Hp Hn. eapply related_bind; [apply related_walk|]. intros a b [Ha Hb]. apply related_ret.
  apply by_amount_unique; [by rewrite Ha, Hb|]. intros x y Hx Hy. rewrite Ha in Hx, Hy. by apply Hn.
Qed.

Lemma related_GetOverview from to :
  names_distinct A d → rel (=) (GetOverview from to (Some A)) (GetOverview from to (Some A)).
Proof.
  intros Hnames. eapply related_bind.
  { apply (related_select (λ l1 l2, filter (λ g, g.1.1 ∈ T) l1 ≡ₚ filter (λ g, g.1.1 ∈ T) l2)).
    intros c1 c2 l1 l2 (_ & _ & Hc) Hl1 Hl2 _. rewrite Hl1, Hl2. unfold overview_groups, sum_by.
    by rewrite (groups_seen T fst (λ r, (ic_TenantId r, ic_Signal r))
      (λ _ l, wrapU64 (foldr Z.add 0%Z (ic_Items <$> l))) _ _ _ (λ _, eq_refl) Hc). }
  intros r1 r2 Hr. eapply related_bind; [by apply related_stats_upstream|]. intros l1 l2 Hl.
  eapply related_bind; [apply related_refs|]. intros refs ? [<- Hscope]. specialize (Hscope Hnames).
  eapply related_bind; [apply related_walk|]. intros t1 t2 [Ht1 Ht2].
  eapply related_bind; [apply (related_gets w_tick)|]. intros n ? <-.
  pose proof (overview_seen T A refs Hscope (shuffle n) _ _ t1 t2
    (list_to_map ((λ s, (s, 0%Z)) <$> Signals)) (λ t Ht, signals_seen T l1 l2 t Ht Hl) Ht1 Ht2)
    as (Htot & Htop & Hn).
  destruct (foldl _ _ t1) as [tot1 top1], (foldl _ _ t2) as [tot2 top2]. cbn in Htot, Htop, Hn.
  eapply related_bind; [by apply related_go_sort|]. intros top ? <-.
  eapply related_bind; [by apply (related_ret (=))|]. intros [active refused] ? <-.
  subst tot2. by apply related_ret.
Qed.

Lemma related_GetThroughput id signal from to step_ :
  id ∈ A → rel (=) (GetThroughput id signal from to step_) (GetThroughput id signal from to step_).
Proof.
  intros Hid. eapply related_bind.
  { apply (related_pg (λ c, customers d !! id = Some c)); [apply readonly_GetCustomer|].
    intros w c w' Hd Hr. apply onErr_inl, queryRow_inl in Hr as [Hc _]. rewrite Hd in Hc.
    destruct (customers d !! id); [|done]. cbn in Hc. by destruct (not_deleted _); simplify_eq. }
  intros c ? [<- Hc]. cbv zeta. apply granted_tenant in Hc; [|done].
  eapply related_bind.
  { apply related_select_eq. intros c1 c2 (_ & _ & Hr). unfold throughput_groups. f_equal.
    eapply filter_refine; [|exact Hr].
    intros r H. rewrite !andb_true_iff in H. by destruct H as [[->%bool_decide_eq_true _] _]. }
  intros r1 r2 Hr. eapply related_bind; [by apply related_stats_upstream|]. intros l ? <-.
  by apply related_ret.
Qed.

(** The cost rows of the tenants in scope, in order. *)
Lemma cost_rows_sorted l1 l2 :
  filter (λ g : string * time * (Z * Z), g.1.1 ∈ T) l1 ≡ₚ filter (λ g, g.1.1 ∈ T) l2 →
  NoDup l1.*1 →
  filter (λ g, g.1.1 ∈ T) (merge_sort by_tenant_day l1)
  = filter (λ g, g.1.1 ∈ T) (merge_sort by_tenant_day l2).
Proof.
  intros Hp Hnd.
  apply (StronglySorted_unique_strong by_tenant_day).
  - intros x y Hx Hy H1 H2. rewrite merge_sort_Permutation in Hx, Hy. rewrite <- Hp in Hy.
    apply list_elem_of_filter in Hx as [_ Hx], Hy as [_ Hy].
    destruct x as [k v], y as [k' v']. assert (k = k') as <-.
    { destruct k as [t dy], k' as [t' dy']. apply by_tenant_day_spec in H1, H2. cbn in *.
      destruct H1 as [[-> ?]|[? ?]], H2 as [[? ?]|[? ?]]; try done; [f_equal; lia|].
      by destruct H; apply leb_antisym. }
    f_equal. by eapply NoDup_fst_unique.
  - apply StronglySorted_filter, StronglySorted_merge_sort; apply _.
  - apply StronglySorted_filter, StronglySorted_merge_sort; apply _.
  - by rewrite !merge_sort_Permutation.
Qed.

Lemma related_GetCost from to :
  names_distinct A d →
  rel (λ l1 l2, filter (λ c, in_allowed (Some A) (cc_CustomerID c) = true) l1
                = filter (λ c, in_allowed (Some A) (cc_CustomerID c) = true) l2)
    (GetCost from to) (GetCost from to).
Proof.
  intros Hnames. eapply related_bind.
  { apply (related_select (λ l1 l2, filter (λ g, g.1.1 ∈ T) l1 ≡ₚ filter (λ g, g.1.1 ∈ T) l2 ∧ NoDup l1.*1)).
    intros c1 c2 l1 l2 (_ & _ & Hc) Hl1 Hl2 _. rewrite Hl1, Hl2. unfold cost_rows. split.
    - by rewrite (groups_seen T fst (λ r, (ic_TenantId r, day_of (ic_Minute r)))
        (λ _ l, (wrapU64 (foldr Z.add 0%Z (ic_Items <$> l)), wrapU64 (foldr Z.add 0%Z (ic_Bytes <$> l))))
        _ _ _ (λ _, eq_refl) Hc).
    - rewrite <- list_fmap_compose. cbn. rewrite list_fmap_id. apply NoDup_remove_dups. }
  intros r1 r2 Hr. eapply related_bind; [by apply related_stats_upstream|]. intros l1 l2 [Hl Hnd].
  eapply related_bind; [apply related_refs|]. intros refs ? [<- Hscope]. specialize (Hscope Hnames).
  unfold go_sort. eapply related_bind; [apply related_walk|]. intros a b [Ha Hb]. apply related_ret.
  pose proof (cost_rows_sorted _ _ Hl Hnd) as Hrows.
  assert (Hseen : filter (λ c, in_allowed (Some A) (cc_CustomerID c) = true) a
                  ≡ₚ filter (λ c, in_allowed (Some A) (cc_CustomerID c) = true) b).
  { rewrite Ha, Hb, (name_costs_seen T A refs Hscope (foldl _ _ (merge_sort _ l1))),
      (name_costs_seen T A refs Hscope (foldl _ _ (merge_sort _ l2))).
    by rewrite !costs_filter, Hrows. }
  apply by_amount_filter_unique; [done|]. intros x y. rewrite Ha.
  apply (name_costs_names T A refs Hscope), costs_NoDup. constructor.
Qed.

Lemma related_run_counters cs t m :
  rel (=) (run_counters cs t m) (run_counters cs t m).
Proof.
  revert m. induction cs as [|[query set] cs IH]; intros m; [by apply related_ret|].
  cbn [run_counters]. eapply related_bind; [|intros a ? <-; apply IH].
  unfold vmSumBy. eapply related_bind; [apply related_pg_eq, readonly_tick|]. intros n ? <-.
  by apply (related_ret (=)).
Qed.

Lemma related_GetPipelineStages pr q :
  psq_ClientID q ∈ T → rel (=) (GetPipelineStages pr q) (GetPipelineStages pr q).
Proof.
  intros Ht. unfold GetPipelineStages. eapply (related_bind (=)).
  { case_bool_decide; [by apply related_ret|]. eapply related_bind.
    { apply related_select_eq. intros c1 c2 (_ & _ & Hr). unfold received_groups. f_equal.
      eapply filter_refine; [|exact Hr].
      intros r H'. rewrite !andb_true_iff in H'. by destruct H' as [[->%bool_decide_eq_true _] _]. }
    intros r1 r2 Hr. eapply related_bind; [by apply related_stats_upstream|]. intros l ? <-.
    by apply related_ret. }
  intros received ? <-. cbv zeta. destruct (_ <=? 0)%Z; [by apply related_ret|].
  eapply related_bind; [apply related_run_counters|]. intros ex ? <-. by apply related_ret.
Qed.

End Services.

(** ** The handlers of a scoped principal *)

Section Handlers.
Context {ENV : Env} {SM : SessionManager} {UP : UuidParse} {D : Type}.
Context {CH : ClickHouse} {CHL : ClickHouseLaws CH} {VM : VictoriaMetrics} (unicode_print : N → bool).
Context (p : Principal) (d : db).
Hypothesis scoped : pc_AllCustomers p = false.
Abbreviation A := (pc_AllowedCustomers p).
Hypothesis Hkeyed : keyed c_ID (customers d).

Definition tsees (s1 s2 : tstate D sess) : Prop :=
  tst_api s1 = tst_api s2 ∧ tables (tst_api s1) = d
  ∧ same_tenants (granted_tenants A d) (tst_ch s1) (tst_ch s2).
Abbreviation rel R m1 m2 := (related (E := herror) tsees R m1 m2).

Lemma related_call {X Y} (R : X → Y → Prop) (m1 : M tworld error X) (m2 : M tworld error Y) :
  related (sees A d) R m1 m2 → rel (res_rel R) (call_telemetry m1) (call_telemetry m2).
Proof.
  intros Hm [a1 c1] [a2 c2] (E & Hd & Hc). cbn in E, Hd, Hc. subst a2.
  destruct (Hm (Build_tworld (ss_w (as_svc a1)) c1) (Build_tworld (ss_w (as_svc a1)) c2)) as [HI HR];
    [by split_and!|].
  unfold call_telemetry. cbn. destruct (m1 _) as [r1 [w1 c1']], (m2 _) as [r2 [w2 c2']].
  destruct HI as (Ew & Hd' & Hc'). cbn in *. subst w2. split; [by split_and!|].
  by destruct r1, r2.
Qed.

Lemma related_api {X} (P : X → Prop) (m : M (apistate D sess) herror X) :
  steps (on_api eq) m → (∀ s a s', tables s = d → m s = (inl a, s') → P a) →
  rel (λ a b, a = b ∧ P a) (lift_api m) (lift_api m).
Proof.
  intros Hro HP [a c1] [a' c2] (E & Hd & Hc). cbn in E, Hd, Hc. subst a'. unfold lift_api. cbn.
  specialize (Hro a). unfold on_api in Hro. destruct (m a) as [[x|e] a1] eqn:Em; cbn in Hro |- *;
    (split; [split_and!; cbn; congruence|]); [|done]. split; [done|]. by eapply HP.
Qed.

Lemma related_access {X Y} (R : X → Y → Prop) c k1 k2 :
  (c ∈ A → rel R k1 k2) →
  rel R (lift_api (requireCustomerAccess (Some p) (Some c));; k1)
        (lift_api (requireCustomerAccess (Some p) (Some c));; k2).
Proof.
  intros Hk. eapply related_bind.
  - apply (related_api (λ _, c ∈ A)).
    + unfold requireCustomerAccess. rewrite scoped. intros s. unfold on_api. by destruct (CanAccessCustomer _ _).
    + intros s x s' _. unfold requireCustomerAccess, CanAccessCustomer. rewrite scoped.
      by case_bool_decide.
  - intros _ _ [_ Hc]. by apply Hk.
Qed.

Lemma related_explored {X} (r1 r2 : X + error) k :
  res_rel (=) r1 r2 → rel (=) (explored r1 k) (explored r2 k).
Proof.
  destruct r1 as [x|e], r2 as [y|e']; intros H; try destruct H; cbn; [by apply related_ret|].
  destruct (Is e ErrNotFound); [by apply related_ret|].
  destruct (Is e _); [by apply related_ret|apply related_throw].
Qed.

Lemma related_stats_failed (e : error) :
  rel (=) (stats_failed e) (stats_failed e).
Proof. unfold stats_failed. destruct (Is e _); [by apply related_ret|apply related_throw]. Qed.

Lemma related_or_upstream {X} (R : X → X → Prop) (r1 r2 : X + error) k1 k2 :
  res_rel R r1 r2 → (∀ a b, R a b → rel (=) (k1 a) (k2 b)) →
  rel (=) (or_upstream r1 k1) (or_upstream r2 k2).
Proof.
  destruct r1 as [x|e], r2 as [y|e']; intros H Hk; try destruct H; cbn; [by apply Hk|apply related_stats_failed].
Qed.

Lemma related_version_stages pipe from to v :
  p_ClientID pipe ∈ granted_tenants A d →
  rel (=) (version_stages unicode_print pipe from to v) (version_stages unicode_print pipe from to v).
Proof.
  intros Ht. eapply related_bind.
  { apply (related_api (λ _, True)); [frame_tac|done]. }
  intros ver ? [<- _]. destruct (ParseGraph _) as [g|e]; [|apply related_throw].
  eapply related_bind; [by apply related_call, related_GetPipelineStages|].
  intros r1 r2 Hr. eapply related_or_upstream; [exact Hr|]. intros a ? <-. by apply related_ret.
Qed.

(** What ranks several customers needs their names to differ. *)
Definition ranks (op : telemetry_op) : Prop :=
  match op with OpGetStatsOverview _ _ | OpGetCostStats _ _ => True | _ => False end.

Lemma related_handle op :
  isAdminOnlyPath (telemetry_path op) = false → (ranks op → names_distinct A d) →
  rel (=) (handle_telemetry unicode_print op (Some p)) (handle_telemetry unicode_print op (Some p)).
Proof.
  intros Hadm Hnames. destruct op as [id q|id q|id trace|from to|from to|id q|pid from to|month];
    cbn [handle_telemetry ranks telemetry_path] in *.
  - apply related_access. intros Hid. destruct (negb _); [by apply related_ret|].
    eapply related_bind; [by apply related_call, related_QueryLogs|]. intros; by apply related_explored.
  - apply related_access. intros Hid. destruct (negb _); [by apply related_ret|].
    eapply related_bind; [by apply related_call, related_QueryTraces|]. intros; by apply related_explored.
  - apply related_access. intros Hid.
    eapply related_bind; [by apply related_call, related_GetTrace|]. intros; by apply related_explored.
  - unfold GetStatsOverview, customerScope. rewrite scoped. destruct (negb _); [by apply related_ret|].
    eapply related_bind; [by apply related_call, related_GetOverview; auto|].
    intros r1 r2 Hr. eapply related_or_upstream; [exact Hr|]. intros a ? <-. by apply related_ret.
  - unfold GetCostStats, customerScope. rewrite scoped. destruct (negb _); [by apply related_ret|].
    eapply related_bind; [by apply related_call, related_GetCost; auto|].
    intros r1 r2 Hr. eapply related_or_upstream; [exact Hr|]. intros a b E. apply related_ret. by rewrite E.
  - apply related_access. intros Hid. destruct (negb _); [by apply related_ret|].
    destruct (ParseStep _ _) as [step_|e]; [|by apply related_ret].
    eapply related_bind; [by apply related_call, related_GetThroughput|].
    intros [l|e] [l'|e'] Hr; try destruct Hr; [by apply related_ret|].
    destruct (Is e ErrNotFound); [by apply related_ret|]. apply related_stats_failed.
  - unfold GetPipelineStageStats. destruct (negb _); [by apply related_ret|].
    eapply related_bind.
    { apply (related_api (λ r, match r with
        | inl pipe => ∃ c, customers d !! p_CustomerID pipe = Some c ∧ p_ClientID pipe = c_ClientID c
        | inr _ => True end)).
      { apply (frame_call_store eq), tables_readonly; [typeclasses eauto|apply readonly_GetPipeline]. }
      intros s r s' Hd (w & Hr & _ & _)%handler_store_inl. destruct r as [pipe|]; [|done].
      apply onErr_inl, queryRow_inl in Hr as [Hp _]. fold (tables s) in Hp. rewrite Hd in Hp.
      destruct (pipelines d !! pid) as [row|]; [|done]. cbn in Hp. unfold scanPipeline in Hp.
      destruct (customers d !! pr_CustomerID row) as [c|] eqn:Hc; [|done]. cbn in Hp. simplify_eq. eauto. }
    intros r ? [<- Hr]. destruct r as [pipe|e];
      [|destruct (Is e _); [by apply related_ret|apply related_throw]].
    destruct Hr as (c & Hc & Et). apply related_access. intros Hin.
    apply (granted_tenant A d Hkeyed) in Hc; [|done]. rewrite <- Et in Hc.
    destruct (p_ActiveVersion pipe), (p_LatestVersion pipe);
      [by apply related_version_stages..|by apply related_ret].
  - by vm_compute in Hadm.
Qed.

End Handlers.

(** C34: Tenant isolation of telemetry: the answer to an explore, statistics or
    billing request that is let through for a user with customer grants is
    determined by the store and by the log, span and count rows of the granted
    customers' tenants; rows of other tenants, and the order in which
    ClickHouse returns and Go's maps are walked, have no influence.  The
    overview and the cost report rank customers by name among equals and so
    need distinct names. *)
Theorem telemetry_isolated {ENV : Env} {SM : SessionManager} {UP : UuidParse} {D : Type}
    {CH : ClickHouse} {CHL : ClickHouseLaws CH} {VM : VictoriaMetrics} (unicode_print : N → bool)
    op authorization csrf (s1 s2 : tstate D sess) (p : Principal) sg :
  guard (telemetry_request op authorization csrf) (tst_api s1) = (inl (inr (Some p)), sg) →
  pc_AllCustomers p = false →
  let A := pc_AllowedCustomers p in
  let d := tables (tst_api s1) in
  keyed c_ID (customers d) →
  (ranks op → names_distinct A d) →
  tst_api s2 = tst_api s1 →
  same_tenants (granted_tenants A d) (tst_ch s1) (tst_ch s2) →
  (serve_telemetry unicode_print op authorization csrf s1).1
  = (serve_telemetry unicode_print op authorization csrf s2).1.
Proof.
  intros Hg Hsc A d Hkeyed Hnames Hapi Hsame.
  pose proof (guard_lets_through _ _ _ _ Hg) as [Hd (_ & Ha & _ & Hr)]. specialize (Hr Hsc).
  assert (Hadm : isAdminOnlyPath (telemetry_path op) = false).
  { unfold requires_admin in Ha. cbn [telemetry_request rq_Path] in Ha.
    destruct (isAdminOnlyPath _); [|done]. destruct (AtLeast _ _) eqn:El; [|done].
    by apply AtLeast_admin in El. }
  unfold serve_telemetry, mbind, M_bind, lift_api. rewrite Hapi, Hg.
  assert (Hsees : tsees p d (Build_tstate sg (tst_ch s1)) (Build_tstate sg (tst_ch s2)))
    by by split_and!.
  destruct (related_handle unicode_print p d Hsc Hkeyed op Hadm Hnames _ _ Hsees) as [_ Hres].
  unfold ResponseErrorHandler.
  destruct (handle_telemetry _ _ _ _) as [[r1|e1] t1], (handle_telemetry _ _ _ _) as [[r2|e2] t2];
    cbn in Hres; try done; subst; [done|by destruct e2].
Qed.

(** ** A demonstration *)

Definition demo_client (id : uuid) : string :=
  from_option c_ClientID "" (customers (w_db demo_granted) !! id).

Definition demo_log (id : uuid) (t : time) (body : string) : LogRow := {|
  lg_Timestamp := t; lg_TraceId := ""; lg_SpanId := ""; lg_SeverityText := "INFO";
  lg_SeverityNumber := 9; lg_ServiceName := "shop"; lg_Body := body;
  lg_ResourceAttributes := {["tenant.id" := demo_client id]}; lg_LogAttributes := ∅ |}.

Definition demo_count (id : uuid) (items : Z) : CountRow := {|
  ic_TenantId := demo_client id; ic_Signal := "logs"; ic_Minute := 60 * second; ic_Items := items;
  ic_Bytes := 100 * items |}.

(** The operator's grants name [demo_other]; the two stores differ in the rows
    of [demo_customer]. *)
Definition demo_ch (other_tenant : bool) : ch :=
  ch_empty <| otel_logs := (if other_tenant then [demo_log demo_customer (61 * second) "secret"] else [])
                           ++ [demo_log demo_other (62 * second) "mine"] |>
           <| ingest_counts_1m := (if other_tenant then [demo_count demo_customer 1000] else [])
                                  ++ [demo_count demo_other 5] |>.

Definition demo_vm : VictoriaMetrics := {| vm_query _ _ _ := None |}.

Definition telemetry_as (u : uuid) (op : telemetry_op) (other_tenant : bool) :=
  (@serve_telemetry quiet_env demo_SM demo_UP string quiet_ch demo_vm all_print op "" "token"
     (Build_tstate (signed_in u) (demo_ch other_tenant))).1.

Definition demo_overview : telemetry_op := OpGetStatsOverview 0 (3600 * second).

(** The operator sees the same overview and the same logs in both stores (the
    admin does not), and nothing of the other customer. *)
Lemma telemetry_isolated_witness :
  telemetry_as 7 demo_overview true = telemetry_as 7 demo_overview false ∧
  telemetry_as 7 demo_overview true
    = inl (Success 200 (BStatsOverview {| so_ActiveCustomers := 1; so_RefusedRequests := Some 0%Z;
        so_Logs := 5; so_Traces := 0; so_Metrics := 0;
        so_TopCustomers := [(demo_other, "Globex", 5%Z)] |})) ∧
  telemetry_as 8 demo_overview true ≠ telemetry_as 8 demo_overview false.
Proof.
  split_and!.
  - apply (@telemetry_isolated quiet_env demo_SM demo_UP string quiet_ch quiet_ch_laws demo_vm all_print
      demo_overview "" "token" (Build_tstate (signed_in 7) (demo_ch true))
      (Build_tstate (signed_in 7) (demo_ch false))
      {| pc_User := default (pc_User (token_principal "" None)) (users (w_db demo_granted) !! 7%N);
         pc_CSRFToken := "token"; pc_AllCustomers := false; pc_AllowedCustomers := {[demo_other]} |}
      (@guard quiet_env demo_SM string demo_UP (telemetry_request demo_overview "" "token") (signed_in 7)).2).
    + vm_compute. reflexivity.
    + reflexivity.
    + apply (bool_decide_unpack _). vm_compute. exact I.
    + intros _ i j c c' _ _ Hi Hj _. cbn [pc_AllowedCustomers] in Hi, Hj.
      apply elem_of_singleton in Hi, Hj. congruence.
    + reflexivity.
    + split_and!; vm_compute; reflexivity.
  - vm_compute. reflexivity.
  - vm_compute. discriminate.
Defined.
