(* ===== verification/LogPaging.v ===== *)
(** * Paging through the logs

    A client that follows [nextBefore] until it is empty. *)
From Stdlib Require Import Ascii SpecFloat.
From S2P Require Import Prelude GoStrings Store World PgCore ApiFrame Binary64 TenantQuota Telemetry UsageFacts TelemetryProps.

#[local] Open Scope Z_scope.

#[local] Instance eta_LogQuery : Eta LogQuery :=
  λ r, Build_LogQuery (lq_From r) (lq_To r) (lq_Text r) (lq_Service r) (lq_MinSeverity r) (lq_Limit r)
    (lq_Before r).

Section Paging.
Context {ENV : Env} {CH : ClickHouse} {CHL : ClickHouseLaws CH}.

Abbreviation T := (M tworld error).

(** The client's loop, with a bound on the number of requests. *)
Fixpoint read_pages (fuel : nat) (id : uuid) (q : LogQuery) : T (list LogRecord * option time) :=
  match fuel with
  | O => mret ([], lq_Before q)
  | S fuel =>
    '(page, next) ← QueryLogs id q;
    match next with
    | None => mret (page, None)
    | Some t =>
      '(rest, next) ← read_pages fuel id (q <| lq_Before := Some t |>);
      mret (page ++ rest, next)
    end
  end.

(** Neither store fails. *)
Hypothesis no_fault : ∀ n, fault n = false.
Hypothesis no_ch_fail : ∀ n, ch_fail n = None.

Context (id : uuid) (c : Customer) (d : db) (logs : list LogRow).
Hypothesis Hc : customers d !! id = Some c.
Hypothesis Hlive : not_deleted c = true.

Definition serves (s : tworld) : Prop :=
  w_db (tw_w s) = d ∧ w_aborted (tw_w s) = false ∧ otel_logs (tw_ch s) = logs.

Abbreviation matching q := (filter (λ r, where_log (c_ClientID c) q r = true) logs).

Lemma cursor_of_rows page limit :
  nextCursor lo_Timestamp (log_record <$> page) limit = nextCursor lg_Timestamp page limit.
Proof.
  unfold nextCursor. rewrite length_fmap, fmap_last. destruct (_ <? limit); [done|].
  by destruct (last page).
Qed.

(** One page. *)
Lemma QueryLogs_page q s :
  serves s →
  ∃ s' l, serves s' ∧ l ≡ₚ matching q ∧
    let page := list.take (Z.to_nat (clampLimit (lq_Limit q))) (merge_sort (newest_first lg_Timestamp) l) in
    QueryLogs id q s = (inl (log_record <$> page,
      nextCursor lg_Timestamp page (clampLimit (lq_Limit q))), s').
Proof.
  intros (Hd & Ha & Hl).
  assert (Hcust : ∃ w', w_db w' = d ∧ w_aborted w' = false ∧ GetCustomer id (tw_w s) = (inl c, w')).
  { unfold GetCustomer, onErr, mtry, queryRow, stmt, mbind at 1, M_bind. rewrite no_fault, Ha, Hd. cbn.
    rewrite Hc. cbn. rewrite Hlive. cbn. eexists. split_and!; [| |reflexivity]; cbn; congruence. }
  destruct Hcust as (w' & Hd' & Ha' & E).
  unfold QueryLogs, query_tenant. unfold select, on_pg, mbind, M_bind. rewrite E. cbn. rewrite no_ch_fail.
  cbn. eexists _, _. split; [|split; [|cbv zeta]]; cycle 2.
  - rewrite cursor_of_rows. reflexivity.
  - by split_and!.
  - cbn. rewrite <- Hl. apply shuffle_perm.
Qed.

Lemma clampLimit_pos n : 0 < clampLimit n.
Proof.
  unfold clampLimit. destruct (Z.leb_spec n 0); [done|]. destruct (1000 <? n); [done|lia].
Qed.

(** Behind a full page: what the next request matches, and what it passes
    over. *)
Definition passed_over (t : time) (r : LogRow) : Prop := bind_time t <= lg_Timestamp r <= t.

Lemma matching_after q t :
  (∀ b, lq_Before q = Some b → t < bind_time b) →
  matching (q <| lq_Before := Some t |>)
  = filter (λ r, lg_Timestamp r < bind_time t) (matching q).
Proof.
  intros Hb. rewrite list_filter_filter. apply list_filter_iff. intros r.
  unfold where_log, before. cbn. destruct (lq_Before q) as [b|] eqn:E.
  - specialize (Hb b eq_refl). pose proof (bind_time_le t).
    rewrite !andb_true_iff, !Z.ltb_lt. intuition lia.
  - rewrite !andb_true_iff, !Z.ltb_lt. intuition.
Qed.

Definition before_cursor (q : LogQuery) (t : time) : Prop :=
  ∀ b, lq_Before q = Some b → t < bind_time b.

Lemma matching_before q r : r ∈ matching q → before_cursor q (lg_Timestamp r).
Proof.
  intros [Hw _]%list_elem_of_filter b E. unfold where_log in Hw. rewrite E in Hw.
  rewrite !andb_true_iff in Hw. destruct Hw as [_ Hw%Z.ltb_lt]. done.
Qed.

Lemma newest_trans : Transitive (newest_first lg_Timestamp).
Proof. intros x y z. unfold newest_first. lia. Qed.
Lemma newest_total : Total (newest_first lg_Timestamp).
Proof. intros x y. unfold newest_first. lia. Qed.

Lemma read_pages_rows fuel q s :
  serves s → (length (matching q) < fuel)%nat →
  ∃ s' out skipped, serves s' ∧
    read_pages fuel id q s = (inl (log_record <$> out, None), s') ∧
    out ++ skipped ≡ₚ matching q ∧ StronglySorted (newest_first lg_Timestamp) out ∧
    ∀ r, r ∈ skipped → ∃ l, l ∈ out ∧ passed_over (lg_Timestamp l) r.
Proof.
  revert q s. induction fuel as [|fuel IH]; intros q s Hs Hf; [lia|].
  destruct (QueryLogs_page q s Hs) as (s1 & l & Hs1 & Hl & E). cbv zeta in E.
  set (limit := clampLimit (lq_Limit q)) in *. pose proof (clampLimit_pos (lq_Limit q)) as Hpos.
  fold limit in Hpos. set (sorted := merge_sort (newest_first lg_Timestamp) l) in *.
  assert (Hsort : sorted ≡ₚ matching q) by (unfold sorted; by rewrite merge_sort_Permutation).
  assert (Hss : StronglySorted (newest_first lg_Timestamp) sorted).
  { apply StronglySorted_merge_sort; [apply newest_trans|apply newest_total]. }
  set (page := list.take (Z.to_nat limit) sorted) in *.
  set (rest := drop (Z.to_nat limit) sorted).
  assert (Hsplit : sorted = page ++ rest) by (symmetry; apply take_drop).
  cbn [read_pages]. unfold mbind at 1, M_bind. rewrite E.
  unfold nextCursor. destruct (Z.of_nat (length page) <? limit) eqn:Elen.
  - (* the last page *)
    assert (rest = []) as Hrest.
    { apply Z.ltb_lt in Elen. unfold rest, page in *. rewrite length_take in Elen.
      apply drop_ge. lia. }
    exists s1, page, []. rewrite Hrest in Hsplit. split_and!; try apply Hs1.
    + done.
    + by rewrite <- Hsort, Hsplit.
    + rewrite app_nil_r in Hsplit. by rewrite <- Hsplit.
    + by intros r ?%elem_of_nil.
  - apply Z.ltb_ge in Elen.
    assert (Hne : page ≠ []) by (intros ->; cbn in Elen; lia).
    destruct (exists_last Hne) as (front & x & Hx). rewrite Hx, last_snoc. cbn [fmap option_fmap option_map].
    set (t := lg_Timestamp x).
    assert (Hxin : x ∈ matching q).
    { rewrite <- Hsort, Hsplit, Hx, !elem_of_app. left; right. by left. }
    set (q' := q <| lq_Before := Some t |>).
    assert (Hnext : matching q' = filter (λ r, lg_Timestamp r < bind_time t) (matching q))
      by by apply matching_after, matching_before.
    rewrite Hsplit in Hss.
    assert (Hpage : ∀ r, r ∈ page → t <= lg_Timestamp r).
    { intros r Hr. rewrite Hx in Hr, Hss. rewrite <- (assoc_L (++)) in Hss.
      apply elem_of_app in Hr as [Hr| ->%list_elem_of_singleton]; [|unfold t; lia].
      apply (StronglySorted_app_1_elem_of _ _ _ r x Hss Hr). by left. }
    assert (Hrest : ∀ r, r ∈ rest → lg_Timestamp r <= t).
    { intros r Hr. apply (StronglySorted_app_1_elem_of _ _ _ x r Hss); [|done].
      rewrite Hx, elem_of_app. right. by left. }
    pose proof (bind_time_le t) as Ht.
    assert (Hperm : matching q' ≡ₚ filter (λ r, lg_Timestamp r < bind_time t) rest).
    { rewrite Hnext, <- Hsort, Hsplit, filter_app, filter_none; [done|].
      intros r Hr. specialize (Hpage r Hr). lia. }
    assert (Hlen : (length (matching q') < fuel)%nat).
    { rewrite Hperm. pose proof (length_filter (λ r, lg_Timestamp r < bind_time t) rest).
      apply Permutation_length in Hsort. rewrite Hsplit, length_app in Hsort. lia. }
    destruct (IH q' s1 Hs1 Hlen) as (s2 & out & skipped & Hs2 & E2 & Hout & Hso & Hsk).
    exists s2, (page ++ out), (filter (λ r, ¬ lg_Timestamp r < bind_time t) rest ++ skipped).
    split_and!; try apply Hs2.
    + unfold mbind, M_bind. rewrite E2. by rewrite Hx, <- fmap_app.
    + assert (Hr : (out ++ skipped) ++ filter (λ r, ¬ lg_Timestamp r < bind_time t) rest ≡ₚ rest)
        by (rewrite Hout, Hperm; apply filter_app_complement).
      rewrite <- Hsort, Hsplit. etrans; [|by apply Permutation_app_head, Hr]. solve_Permutation.
    + apply StronglySorted_app_2; [|by eapply StronglySorted_app_1_l|done].
      intros r1 r2 Hr1 Hr2. unfold newest_first. specialize (Hpage r1 Hr1).
      assert (Hin : r2 ∈ matching q') by (rewrite <- Hout; apply elem_of_app; by left).
      rewrite Hnext in Hin. apply list_elem_of_filter in Hin as [Hlt _]. lia.
    + intros r [Hr|Hr]%elem_of_app.
      * apply list_elem_of_filter in Hr as [Hnlt Hr]. exists x. split.
        { rewrite Hx, !elem_of_app. left; right. by left. }
        specialize (Hrest r Hr). unfold passed_over. fold t. lia.
      * destruct (Hsk r Hr) as (y & Hy & Hpo). exists y. split; [apply elem_of_app; by right|done].
Qed.
End Paging.

(** C35: Following [nextBefore] ends, returns rows in the order of their time,
    newest first, each matching row at most once, and passes over a row only
    if its time lies between the time of a delivered row and that time as the
    driver binds it; rows with distinct times that are bound exactly are all
    delivered. *)
Theorem log_pages_cover {ENV : Env} {CH : ClickHouse} {CHL : ClickHouseLaws CH}
    (id : uuid) (c : Customer) (q : LogQuery) (fuel : nat) (s : tworld) :
  (∀ n, fault n = false) → (∀ n, ch_fail n = None) → w_aborted (tw_w s) = false →
  customers (w_db (tw_w s)) !! id = Some c → not_deleted c = true →
  let matching := filter (λ r, where_log (c_ClientID c) q r = true) (otel_logs (tw_ch s)) in
  (length matching < fuel)%nat →
  ∃ out skipped s',
    read_pages fuel id q s = (inl (log_record <$> out, None), s') ∧
    out ++ skipped ≡ₚ matching ∧
    StronglySorted (newest_first lg_Timestamp) out ∧
    (∀ r, r ∈ skipped → ∃ l, l ∈ out ∧ bind_time (lg_Timestamp l) <= lg_Timestamp r <= lg_Timestamp l) ∧
    ((∀ r, r ∈ matching → bind_time (lg_Timestamp r) = lg_Timestamp r) →
     NoDup (lg_Timestamp <$> matching) → skipped = []).
Proof.
  intros Hf Hch Ha Hc Hlive matching Hfuel.
  destruct (read_pages_rows Hf Hch id c (w_db (tw_w s)) (otel_logs (tw_ch s)) Hc Hlive fuel q s)
    as (s' & out & skipped & _ & E & Hp & Hso & Hsk); [by split_and!|done|].
  fold matching in Hp. exists out, skipped, s'. split_and!; try done. intros Hexact Hnd.
  destruct skipped as [|r skipped]; [done|]. destruct (Hsk r) as (l & Hl & Hle); [by left|].
  unfold passed_over in Hle. rewrite Hexact in Hle by (rewrite <- Hp; apply elem_of_app; by left).
  rewrite <- Hp, fmap_app in Hnd. apply NoDup_app in Hnd as (_ & Hnd & _).
  destruct (Hnd (lg_Timestamp l)); [by apply list_elem_of_fmap; exists l|].
  cbn. replace (lg_Timestamp r) with (lg_Timestamp l) by lia. by left.
Qed.

(** ** Examples *)

Definition page_state (times : list time) : tworld := {|
  tw_w := demo_granted;
  tw_ch := ch_empty <| otel_logs := (λ t, demo_log demo_other t "") <$> times |> |}.

Definition page_query : LogQuery := {|
  lq_From := 0; lq_To := 3600 * second; lq_Text := ""; lq_Service := ""; lq_MinSeverity := 0;
  lq_Limit := 2; lq_Before := None |}.

(** What a client that asks for two rows at a time receives. *)
Definition times_read (times : list time) : option (list time) :=
  match (@read_pages quiet_env quiet_ch 9 demo_other page_query (page_state times)).1 with
  | inl (l, _) => Some (lo_Timestamp <$> l)
  | inr _ => None
  end.

Lemma log_pages_cover_witness :
  times_read [1 * second; 5 * second; 3 * second; 2 * second; 4 * second]
    = Some [5 * second; 4 * second; 3 * second; 2 * second; 1 * second] ∧
  ∃ (out skipped : list LogRow) s',
    @read_pages quiet_env quiet_ch 9 demo_other page_query (page_state [1 * second; 5 * second; 3 * second])
    = (inl (log_record <$> out, None), s') ∧
    (length out + length skipped)%nat = 3%nat.
Proof.
  split; [by vm_compute|].
  destruct (@log_pages_cover quiet_env quiet_ch quiet_ch_laws demo_other
    (default (Build_Customer 0 "" "" "" "" None None 0 0) (customers (w_db demo_granted) !! demo_other))
    page_query 9 (page_state [1 * second; 5 * second; 3 * second]))
    as (out & skipped & s' & E & Hp & _).
  - reflexivity.
  - reflexivity.
  - by vm_compute.
  - by vm_compute.
  - by vm_compute.
  - apply Nat.ltb_lt. by vm_compute.
  - exists out, skipped, s'. split; [exact E|].
    rewrite <- length_app, (Permutation_length Hp). by vm_compute.
Defined.

(** Rows the client never sees: of four in one instant only a page, and a row
    half a second before the last row of a full page. *)
Example rows_passed_over :
  times_read [1 * second; 2 * second; 2 * second; 2 * second; 2 * second]
    = Some [2 * second; 2 * second; 1 * second] ∧
  times_read [7000000000; 6500000000; 6100000000; 1000000000]
    = Some [7000000000; 6500000000; 1000000000].
Proof. by vm_compute. Qed.

(** ** Traces with errors only

    [ErrorsOnly] drops traces from a page after the page was cut, and the
    cursor is that of what is left: a page of traces without errors comes back
    empty and ends the paging, whatever lies behind it. *)
Definition root_span (t : time) (trace status : string) : SpanRow := {|
  sp_Timestamp := t; sp_TraceId := trace; sp_SpanId := "s"; sp_ParentSpanId := ""; sp_SpanName := "GET /";
  sp_SpanKind := "Server"; sp_ServiceName := "shop";
  sp_ResourceAttributes := {["tenant.id" := demo_client demo_other]}; sp_SpanAttributes := ∅;
  sp_Duration := 1500000; sp_StatusCode := status; sp_StatusMessage := "" |}.

Definition traces_read (errorsOnly : bool) : option (list (string * Z) * option time) :=
  let q := {| tq_From := 0; tq_To := 3600 * second; tq_Service := ""; tq_Name := "";
              tq_MinDurationMs := of_Z 0; tq_ErrorsOnly := errorsOnly; tq_Limit := 2; tq_Before := None |} in
  let s := {| tw_w := demo_granted;
              tw_ch := ch_empty <| otel_traces := [root_span (3 * second) "a" "Ok";
                root_span (2 * second) "b" "Ok"; root_span (1 * second) "c" "Error"] |> |} in
  match (@QueryTraces quiet_env quiet_ch demo_other q s).1 with
  | inl (l, next) => Some ((λ t, (ts_TraceID t, ts_ErrorCount t)) <$> l, next)
  | inr _ => None
  end.

Example errors_beyond_the_page :
  traces_read false = Some ([("a", 0); ("b", 0)], Some (2 * second)) ∧
  traces_read true = Some ([], None).
Proof. by vm_compute. Qed.
