(* ===== verification/Sso.v ===== *)
(** * Browser sign-in (internal/auth: registry.go, oidc.go, github.go, saml.go)

    The provider registry and the flows behind /auth/{name}/...: the provider
    is resolved from the database or the environment on every request, its
    flow is cached under a fingerprint, and the flow ends in the tail all
    logins share ([Auth.finish]).  The OAuth2, OpenID Connect and SAML
    libraries and the identity providers behind them are the class [IdP]. *)
From Stdlib Require Import Ascii.
From S2P Require Import Prelude GoStrings GoText Store World PgCore PgMisc Tokens Json PipelineGraph Crypto Auth ApiAdmin.

(** ** What the libraries deal in *)

Record Endpoint := { ep_AuthURL : string; ep_TokenURL : string }.

Record OAuthConfig := {
  oc_ClientID : string;
  oc_ClientSecret : string;
  oc_Endpoint : Endpoint;
  oc_RedirectURL : string;
  oc_Scopes : list string;
}.

(** The answer of a token endpoint; [tk_IDToken] is Extra("id_token") when it
    is a string. *)
Record OAuthToken := { tk_Access : string; tk_IDToken : option string }.

(** A verified ID token and its payload. *)
Record IDToken := { it_Issuer : string; it_Subject : string; it_Claims : json }.

(** The service provider: the root is the certificate in this text. *)
Record SAMLServiceProvider := {
  sp_IdentityProviderSSOURL : string;
  sp_IdentityProviderIssuer : string;
  sp_ServiceProviderIssuer : string;
  sp_AssertionConsumerServiceURL : string;
  sp_AudienceURI : string;
  sp_Root : string;
}.

Record WarningInfo := { wi_InvalidTime : bool; wi_NotInAudience : bool }.
Record AssertionInfo := {
  ai_NameID : string;
  ai_Values : string → string;
  ai_WarningInfo : option WarningInfo;
}.

(** Calls that leave the process or look at the clock take a tick. *)
Class IdP := {
  oidc_provider : Type;
  provider_endpoint : oidc_provider → Endpoint;
  NewProvider : nat → bool → string → option oidc_provider;
  Verify : nat → oidc_provider → string → bool → string → option IDToken;
  GenerateVerifier : nat → string;
  AuthCodeURL : OAuthConfig → string → option string → string;
  Exchange : nat → OAuthConfig → string → option string → option OAuthToken;
  githubGet : nat → OAuthToken → string → option json;
  BuildAuthURL : nat → SAMLServiceProvider → string → option string;
  RetrieveAssertionInfo : nat → SAMLServiceProvider → string → option AssertionInfo;
}.

Module Sso.

(** ** Providers *)

Definition GoogleIssuer : string := "https://accounts.google.com".
Definition MicrosoftIssuer : string := "https://login.microsoftonline.com/common/v2.0".

Definition EffectiveIssuer (providerType issuer : string) : string :=
  if bool_decide (providerType = TypeGoogle) then GoogleIssuer
  else if bool_decide (providerType = TypeMicrosoft) then MicrosoftIssuer
  else if bool_decide (providerType = TypeGitHub) then ""
  else issuer.

Record ProviderInfo := {
  pi_Type : string;
  pi_Name : string;
  pi_DisplayName : string;
  pi_Issuer : string;
  pi_ClientID : string;
  pi_ClientSecret : string;
  pi_SAML : option SAMLConfig;
}.

Definition IdentityKey (p : ProviderInfo) : string :=
  if bool_decide (pi_Type p = TypeOIDC) then "oidc:" +:+ pi_Name p
  else if bool_decide (pi_Type p = TypeSAML) then "saml:" +:+ pi_Name p
  else pi_Type p.

Record LoginProvider := { lp_Name : string; lp_DisplayName : string }.

(** [config.OIDCProvider] *)
Record OIDCProvider := {
  env_Name : string;
  env_DisplayName : string;
  env_Issuer : string;
  env_ClientID : string;
  env_ClientSecret : string;
}.

Definition ErrUnknownProvider : error := ErrNew "unknown login provider".

(** ** Flows and the registry *)

Inductive loginFlow `{IdP} :=
  | OIDCHandler (info : ProviderInfo) (provider : option oidc_provider)
  | GitHubHandler (info : ProviderInfo)
  | SAMLHandler (info : ProviderInfo) (sp : SAMLServiceProvider + error).

Record cachedFlow `{IdP} := { cf_fingerprint : string; cf_flow : loginFlow }.

(** What a registry is wired with. *)
Record RegistryCfg := {
  reg_BaseURL : string;
  reg_Env : list OIDCProvider;
  reg_Cipher : option Cipher;
  reg_AdminEmails : list string;
}.

(** A request to /auth/...: its path, and what the query and the form have for
    a key; a form that cannot be parsed is [None]. *)
Record LoginRequest := {
  lr_Path : string;
  lr_Query : string → string;
  lr_Form : option (string → string);
}.

(** [strings.Split] at a character. *)
Fixpoint Split (sep : ascii) (s : string) : list string :=
  match s with
  | "" => [""]
  | String a s' =>
    if bool_decide (a = sep) then "" :: Split sep s'
    else match Split sep s' with
         | w :: ws => String a w :: ws
         | [] => [String a ""]
         end
  end.

Definition providerNameFromPath (path : string) : string :=
  match Split "/" (Trim path "/") with
  | [auth; name; _] => if bool_decide (auth = "auth") then name else ""
  | _ => ""
  end.

(** [json.Unmarshal] into [SAMLConfig]; there is no value in a null column. *)
Definition saml_fields : setters SAMLConfig :=
  [("idpEntityId", λ c v, s ← decode_text (IDPEntityID c) v; Some (Build_SAMLConfig s (IDPSSOURL c) (IDPCertificate c)));
   ("idpSsoUrl", λ c v, s ← decode_text (IDPSSOURL c) v; Some (Build_SAMLConfig (IDPEntityID c) s (IDPCertificate c)));
   ("idpCertificate", λ c v, s ← decode_text (IDPCertificate c) v; Some (Build_SAMLConfig (IDPEntityID c) (IDPSSOURL c) s))].
Definition parse_saml (j : option json) : option SAMLConfig :=
  v ← j; decode_struct saml_fields (Build_SAMLConfig "" "" "") v.

Section Registry.
Context {ENV : Env} {SM : SessionManager} {IDP : IdP} {CERT : X509} (cfg : RegistryCfg).

(** Tables, session and cached flows. *)
Record lstate := { ls_w : world; ls_sess : sess; ls_flows : gmap string cachedFlow }.

Abbreviation L := (M lstate error).
Abbreviation base := (reg_BaseURL cfg).

Definition on_session {A} (m : M (world * sess) error A) : L A := λ s,
  let '(r, (w, se)) := m (ls_w s, ls_sess s) in (r, Build_lstate w se (ls_flows s)).
Definition on_pg {A} (m : Op A) : L A := on_session (with_world m).
Definition put_session (k v : string) : L unit := on_session (sess_put k v).

(** [PopString]: the value is gone afterwards. *)
Definition pop_session (k : string) : L string := λ s,
  (inl (GetString (ls_sess s) k), Build_lstate (ls_w s) (Remove (ls_sess s) k) (ls_flows s)).

Definition http_Error (text : string) (status : Z) : L login_page := mret (LoginError status text).
Definition http_NotFound : L login_page := http_Error "404 page not found" 404.
Definition http_Redirect (url : string) : L login_page := mret (RedirectTo url).

(** *** Resolving a provider *)

Definition LoginProviders : L (list LoginProvider) :=
  dbProviders ← on_pg (ListAuthProviders true);
  let taken := ap_Name <$> dbProviders in
  mret (((λ p, {| lp_Name := ap_Name p; lp_DisplayName := ap_DisplayName p |}) <$> dbProviders)
        ++ ((λ e, {| lp_Name := env_Name e; lp_DisplayName := env_DisplayName e |})
            <$> filter (λ e, env_Name e ∉ taken) (reg_Env cfg))).

Definition db_info (p : AuthProvider) : ProviderInfo := {|
  pi_Type := ap_Type p; pi_Name := ap_Name p; pi_DisplayName := ap_DisplayName p;
  pi_Issuer := EffectiveIssuer (ap_Type p) (default "" (ap_Issuer p)); pi_ClientID := ap_ClientID p;
  pi_ClientSecret := ""; pi_SAML := None |}.
Definition with_saml (i : ProviderInfo) (c : SAMLConfig) : ProviderInfo := {|
  pi_Type := pi_Type i; pi_Name := pi_Name i; pi_DisplayName := pi_DisplayName i;
  pi_Issuer := pi_Issuer i; pi_ClientID := pi_ClientID i; pi_ClientSecret := pi_ClientSecret i;
  pi_SAML := Some c |}.
Definition with_secret (i : ProviderInfo) (secret : string) : ProviderInfo := {|
  pi_Type := pi_Type i; pi_Name := pi_Name i; pi_DisplayName := pi_DisplayName i;
  pi_Issuer := pi_Issuer i; pi_ClientID := pi_ClientID i; pi_ClientSecret := secret;
  pi_SAML := pi_SAML i |}.

Definition env_info (e : OIDCProvider) : ProviderInfo := {|
  pi_Type := TypeOIDC; pi_Name := env_Name e; pi_DisplayName := env_DisplayName e;
  pi_Issuer := env_Issuer e; pi_ClientID := env_ClientID e; pi_ClientSecret := env_ClientSecret e;
  pi_SAML := None |}.

(** The provider of a row with its SAML settings or its decrypted secret. *)
Definition row_info (p : AuthProvider) : ProviderInfo + error :=
  if bool_decide (ap_Type p = TypeSAML) then
    match parse_saml (ap_SAMLConfig p) with
    | Some c => inl (with_saml (db_info p) c)
    | None => inr (ErrNew "parse saml config")
    end
  else match Decrypt (reg_Cipher cfg) (ap_ClientSecretEnc p) with
       | inl secret => inl (with_secret (db_info p) secret)
       | inr e => inr (Wrap "decrypt client secret" e)
       end.

Definition db_fingerprint (p : AuthProvider) : string :=
  "db:" +:+ uuid_String (ap_ID p) +:+ ":" +:+ Itoa (ap_UpdatedAt p).

Definition Resolve (name : string) : L (ProviderInfo * string) :=
  r ← mtry (on_pg (GetAuthProviderByName name));
  match r with
  | inl p =>
    if negb (ap_Enabled p) then mthrow ErrUnknownProvider
    else match row_info p with
         | inl info => mret (info, db_fingerprint p)
         | inr e => mthrow e
         end
  | inr err =>
    if Is err ErrNotFound then
      match find (λ e, bool_decide (env_Name e = name)) (reg_Env cfg) with
      | Some e => mret (env_info e, "env:" +:+ env_Name e)
      | None => mthrow ErrUnknownProvider
      end
    else mthrow err
  end.

(** *** Flows *)

Definition buildServiceProvider (info : ProviderInfo) : SAMLServiceProvider + error :=
  match pi_SAML info with
  | None => inr (ErrNew "saml provider has no config")
  | Some c =>
    match parseCertificate (IDPCertificate c) with
    | Some e => inr (Wrap "parse IdP certificate" e)
    | None => inl {|
        sp_IdentityProviderSSOURL := IDPSSOURL c; sp_IdentityProviderIssuer := IDPEntityID c;
        sp_ServiceProviderIssuer := spEntityID base (pi_Name info);
        sp_AssertionConsumerServiceURL := acsURL base (pi_Name info);
        sp_AudienceURI := spEntityID base (pi_Name info); sp_Root := IDPCertificate c |}
    end
  end.

Definition new_flow (info : ProviderInfo) : loginFlow :=
  if bool_decide (pi_Type info = TypeGitHub) then GitHubHandler info
  else if bool_decide (pi_Type info = TypeSAML) then SAMLHandler info (buildServiceProvider info)
  else OIDCHandler info None.

Definition put_flow (name : string) (c : cachedFlow) : L unit :=
  mmodify (λ s, Build_lstate (ls_w s) (ls_sess s) (<[name := c]> (ls_flows s))).

Definition flowFor (info : ProviderInfo) (fingerprint : string) : L loginFlow :=
  flows ← mgets ls_flows;
  let fresh :=
    let flow := new_flow info in
    put_flow (pi_Name info) {| cf_fingerprint := fingerprint; cf_flow := flow |};;
    mret flow in
  match flows !! pi_Name info with
  | Some c => if bool_decide (cf_fingerprint c = fingerprint) then mret (cf_flow c) else fresh
  | None => fresh
  end.

(** *** The tail of a login *)

Definition finish_login (info : ProviderInfo) (subject email : string) (displayName : option string)
    : L login_page :=
  on_session (finish (IsAdminEmail (reg_AdminEmails cfg)) (IdentityKey info) subject email displayName).

(** *** OpenID Connect *)

Definition sessOIDCState : string := "oidc_state".
Definition sessOIDCVerifier : string := "oidc_verifier".

Definition is_hex (a : ascii) : bool :=
  let n := N_of_ascii a in
  (N.leb 48 n && N.leb n 57) || (N.leb 65 n && N.leb n 70) || (N.leb 97 n && N.leb n 102).

(** [^https://login\.microsoftonline\.com/[0-9a-fA-F-]+/v2\.0$] *)
Definition microsoft_issuer (issuer : string) : bool :=
  let is_tenant a := bool_decide (a = "-"%char) || is_hex a in
  HasPrefix "https://login.microsoftonline.com/" issuer
  && match Split "/" (TrimPrefix issuer "https://login.microsoftonline.com/") with
     | [tenant; v] => negb (bool_decide (tenant = "")) && forallb is_tenant (chars tenant)
                      && bool_decide (v = "v2.0")
     | _ => false
     end.

(** The discovered provider stays with the cached flow. *)
Definition getProvider (info : ProviderInfo) (provider : option oidc_provider) : L (option oidc_provider) :=
  match provider with
  | Some p => mret (Some p)
  | None =>
    n ← on_pg tick;
    match NewProvider n (bool_decide (pi_Type info = TypeMicrosoft)) (pi_Issuer info) with
    | None => mret None
    | Some p =>
      mmodify (λ s, Build_lstate (ls_w s) (ls_sess s)
        (alter (λ c, {| cf_fingerprint := cf_fingerprint c; cf_flow := OIDCHandler info (Some p) |})
           (pi_Name info) (ls_flows s)));;
      mret (Some p)
    end
  end.

Definition oidc_config (info : ProviderInfo) (p : oidc_provider) : OAuthConfig := {|
  oc_ClientID := pi_ClientID info; oc_ClientSecret := pi_ClientSecret info;
  oc_Endpoint := provider_endpoint p; oc_RedirectURL := RedirectURI base (pi_Name info);
  oc_Scopes := ["openid"; "profile"; "email"] |}.

Definition oidc_Start (info : ProviderInfo) (provider : option oidc_provider) : L login_page :=
  p ← getProvider info provider;
  match p with
  | None => http_Error "identity provider unavailable" 502
  | Some p =>
    state ← on_pg newToken;
    n ← on_pg tick;
    let verifier := GenerateVerifier n in
    put_session sessOIDCState state;;
    put_session sessOIDCVerifier verifier;;
    http_Redirect (AuthCodeURL (oidc_config info p) state (Some verifier))
  end.

Record oidc_claims := { cl_Email : string; cl_EmailVerified : option bool; cl_Name : string }.
Definition claim_fields : setters oidc_claims :=
  [("email", λ c v, s ← decode_text (cl_Email c) v; Some (Build_oidc_claims s (cl_EmailVerified c) (cl_Name c)));
   ("email_verified", λ c v, b ← decode_bool_ptr v; Some (Build_oidc_claims (cl_Email c) b (cl_Name c)));
   ("name", λ c v, s ← decode_text (cl_Name c) v; Some (Build_oidc_claims (cl_Email c) (cl_EmailVerified c) s))].
Definition parse_claims (v : json) : option oidc_claims :=
  decode_struct claim_fields (Build_oidc_claims "" None "") v.

Definition non_empty_text (s : string) : option string := if bool_decide (s = "") then None else Some s.

(** The login of a verified token. *)
Definition oidc_login (info : ProviderInfo) (idToken : IDToken) : L login_page :=
  if bool_decide (pi_Type info = TypeMicrosoft) && negb (microsoft_issuer (it_Issuer idToken))
  then http_Error "invalid id_token issuer" 400
  else match parse_claims (it_Claims idToken) with
  | None => http_Error "cannot parse id_token claims" 400
  | Some claims =>
    if bool_decide (cl_Email claims = "") then http_Error "id_token contains no email" 400
    else if bool_decide (cl_EmailVerified claims = Some false)
    then http_Error "email not verified at identity provider" 403
    else finish_login info (it_Subject idToken) (cl_Email claims) (non_empty_text (cl_Name claims))
  end.

Definition oidc_Callback (info : ProviderInfo) (provider : option oidc_provider) (r : LoginRequest)
    : L login_page :=
  wantState ← pop_session sessOIDCState;
  verifier ← pop_session sessOIDCVerifier;
  if bool_decide (wantState = "") || negb (bool_decide (lr_Query r "state" = wantState))
  then http_Error "invalid OIDC state" 400
  else if negb (bool_decide (lr_Query r "error" = ""))
  then http_Error ("login failed: " +:+ lr_Query r "error") 400
  else if bool_decide (lr_Query r "code" = "") then http_Error "missing authorization code" 400
  else
    p ← getProvider info provider;
    match p with
    | None => http_Error "identity provider unavailable" 502
    | Some p =>
      n ← on_pg tick;
      match Exchange n (oidc_config info p) (lr_Query r "code") (Some verifier) with
      | None => http_Error "code exchange failed" 502
      | Some token =>
        match tk_IDToken token with
        | None | Some "" => http_Error "no id_token in token response" 502
        | Some rawIDToken =>
          n ← on_pg tick;
          match Verify n p (pi_ClientID info) (bool_decide (pi_Type info = TypeMicrosoft)) rawIDToken with
          | None => http_Error "invalid id_token" 400
          | Some idToken => oidc_login info idToken
          end
        end
      end
    end.

(** *** GitHub *)

Definition github_config (info : ProviderInfo) : OAuthConfig := {|
  oc_ClientID := pi_ClientID info; oc_ClientSecret := pi_ClientSecret info;
  oc_Endpoint := {| ep_AuthURL := "https://github.com/login/oauth/authorize";
                    ep_TokenURL := "https://github.com/login/oauth/access_token" |};
  oc_RedirectURL := RedirectURI base (pi_Name info);
  oc_Scopes := ["read:user"; "user:email"] |}.

Definition github_Start (info : ProviderInfo) : L login_page :=
  state ← on_pg newToken;
  put_session sessOIDCState state;;
  http_Redirect (AuthCodeURL (github_config info) state None).

Definition decode_int64 (old : Z) (v : json) : option Z :=
  match v with JNum lit => ParseInt lit | JNull => Some old | _ => None end.

Record gh_user := { gh_ID : Z; gh_Login : string; gh_Name : string; gh_Email : string }.
Definition gh_user_fields : setters gh_user :=
  [("id", λ u v, n ← decode_int64 (gh_ID u) v; Some (Build_gh_user n (gh_Login u) (gh_Name u) (gh_Email u)));
   ("login", λ u v, s ← decode_text (gh_Login u) v; Some (Build_gh_user (gh_ID u) s (gh_Name u) (gh_Email u)));
   ("name", λ u v, s ← decode_text (gh_Name u) v; Some (Build_gh_user (gh_ID u) (gh_Login u) s (gh_Email u)));
   ("email", λ u v, s ← decode_text (gh_Email u) v; Some (Build_gh_user (gh_ID u) (gh_Login u) (gh_Name u) s))].

Record gh_email := { ghe_Email : string; ghe_Primary : bool; ghe_Verified : bool }.
Definition gh_email_fields : setters gh_email :=
  [("email", λ e v, s ← decode_text (ghe_Email e) v; Some (Build_gh_email s (ghe_Primary e) (ghe_Verified e)));
   ("primary", λ e v, b ← decode_bool (ghe_Primary e) v; Some (Build_gh_email (ghe_Email e) b (ghe_Verified e)));
   ("verified", λ e v, b ← decode_bool (ghe_Verified e) v; Some (Build_gh_email (ghe_Email e) (ghe_Primary e) b))].

(** The primary address among the verified ones, else the first of them that
    is not empty. *)
Fixpoint pick_email (fallback : string) (l : list gh_email) : string :=
  match l with
  | [] => fallback
  | e :: l' =>
    if negb (ghe_Verified e) then pick_email fallback l'
    else if ghe_Primary e then ghe_Email e
    else pick_email (if bool_decide (fallback = "") then ghe_Email e else fallback) l'
  end.

Definition github_get (token : OAuthToken) (path : string) : L (option json) :=
  n ← on_pg tick; mret (githubGet n token path).

Definition primaryVerifiedEmail (token : OAuthToken) : L (option string) :=
  r ← github_get token "/user/emails";
  mret (v ← r;
        emails ← decode_slice (decode_struct gh_email_fields) (Build_gh_email "" false false)
                   (Build_slice [] []) v;
        Some (pick_email "" (sl_elems emails))).

Definition github_Callback (info : ProviderInfo) (r : LoginRequest) : L login_page :=
  wantState ← pop_session sessOIDCState;
  if bool_decide (wantState = "") || negb (bool_decide (lr_Query r "state" = wantState))
  then http_Error "invalid OAuth state" 400
  else if negb (bool_decide (lr_Query r "error" = ""))
  then http_Error ("login failed: " +:+ lr_Query r "error") 400
  else if bool_decide (lr_Query r "code" = "") then http_Error "missing authorization code" 400
  else
    n ← on_pg tick;
    match Exchange n (github_config info) (lr_Query r "code") None with
    | None => http_Error "code exchange failed" 502
    | Some token =>
      profile ← github_get token "/user";
      match v ← profile; decode_struct gh_user_fields (Build_gh_user 0 "" "" "") v with
      | None => http_Error "cannot read GitHub profile" 502
      | Some ghUser =>
        if bool_decide (gh_ID ghUser = 0%Z) then http_Error "GitHub profile has no id" 502
        else
          email ← primaryVerifiedEmail token;
          match email with
          | None => http_Error "cannot read GitHub email addresses" 502
          | Some "" => http_Error "GitHub account has no verified primary email" 403
          | Some email =>
            let displayName := if bool_decide (gh_Name ghUser = "") then gh_Login ghUser else gh_Name ghUser in
            finish_login info (Itoa (gh_ID ghUser)) email (non_empty_text displayName)
          end
      end
    end.

(** *** SAML *)

Definition saml_Start (sp : SAMLServiceProvider + error) : L login_page :=
  match sp with
  | inr _ => http_Error "identity provider misconfigured" 500
  | inl sp =>
    n ← on_pg tick;
    match BuildAuthURL n sp "" with
    | None => http_Error "identity provider unavailable" 502
    | Some authURL => http_Redirect authURL
    end
  end.

Definition emailAttributeNames : list string :=
  ["email"; "mail"; "emailAddress"; "User.email";
   "http://schemas.xmlsoap.org/ws/2005/05/identity/claims/emailaddress";
   "urn:oid:0.9.2342.19200300.100.1.3"].
Definition nameAttributeNames : list string :=
  ["displayName"; "name"; "cn";
   "http://schemas.xmlsoap.org/ws/2005/05/identity/claims/name";
   "http://schemas.xmlsoap.org/ws/2005/05/identity/claims/displayname";
   "urn:oid:2.16.840.1.113730.3.1.241"; "urn:oid:2.5.4.3"].

(** The first attribute with a value. *)
Definition first_value (a : AssertionInfo) (names : list string) : string :=
  default "" (find (λ v, negb (bool_decide (v = ""))) (ai_Values a <$> names)).

Definition samlEmail (a : AssertionInfo) : string :=
  if Contains "@" (ai_NameID a) then ai_NameID a else first_value a emailAttributeNames.
Definition samlDisplayName (a : AssertionInfo) : string := first_value a nameAttributeNames.

(** The login of an accepted assertion. *)
Definition saml_login (info : ProviderInfo) (a : AssertionInfo) : L login_page :=
  let email := samlEmail a in
  if bool_decide (email = "") then http_Error "the SAML assertion carries no email address" 400
  else
    let subject := if bool_decide (ai_NameID a = "") then email else ai_NameID a in
    finish_login info subject (ToLower unicode_lower email) (non_empty_text (samlDisplayName a)).

Definition saml_ACS (info : ProviderInfo) (sp : SAMLServiceProvider + error) (r : LoginRequest)
    : L login_page :=
  match sp with
  | inr _ => http_Error "identity provider misconfigured" 500
  | inl sp =>
    match lr_Form r with
    | None => http_Error "invalid request" 400
    | Some form =>
      if bool_decide (form "SAMLResponse" = "") then http_Error "missing SAMLResponse" 400
      else
        n ← on_pg tick;
        match RetrieveAssertionInfo n sp (form "SAMLResponse") with
        | None => http_Error "invalid SAML assertion" 403
        | Some a =>
          match ai_WarningInfo a with
          | Some wi =>
            if wi_InvalidTime wi then http_Error "SAML assertion outside its validity window" 403
            else if wi_NotInAudience wi then http_Error "SAML assertion audience mismatch" 403
            else saml_login info a
          | None => saml_login info a
          end
        end
    end
  end.

(** *** Dispatch *)

Inductive login_route := RouteStart | RouteCallback | RouteACS | RouteMetadata.

(** Metadata is a static document of the two URLs. *)
Definition serve_flow (route : login_route) (r : LoginRequest) (f : loginFlow) : L login_page :=
  match route, f with
  | RouteStart, OIDCHandler info p => oidc_Start info p
  | RouteStart, GitHubHandler info => github_Start info
  | RouteStart, SAMLHandler _ sp => saml_Start sp
  | RouteCallback, OIDCHandler info p => oidc_Callback info p r
  | RouteCallback, GitHubHandler info => github_Callback info r
  | RouteCallback, SAMLHandler _ _ => http_NotFound
  | RouteACS, SAMLHandler info sp => saml_ACS info sp r
  | RouteMetadata, SAMLHandler info _ =>
    mret (SPMetadata (spEntityID base (pi_Name info)) (acsURL base (pi_Name info)))
  | _, _ => http_NotFound
  end.

Definition dispatch (route : login_route) (r : LoginRequest) : L login_page :=
  let name := providerNameFromPath (lr_Path r) in
  if bool_decide (name = "") then http_NotFound
  else
    res ← mtry (Resolve name);
    match res with
    | inr e => if Is e ErrUnknownProvider then http_NotFound
               else http_Error "login provider unavailable" 500
    | inl (info, fingerprint) =>
      f ← flowFor info fingerprint;
      serve_flow route r f
    end.

(** A panic ends the request before the session is saved. *)
Definition serve_login (route : login_route) (r : LoginRequest) : L login_page := λ s,
  match dispatch route r s with
  | (inl page, s') => (inl page, s')
  | (inr e, s') => (inr e, Build_lstate (ls_w s') (ls_sess s) (ls_flows s'))
  end.

End Registry.
End Sso.
