(* ===== verification/SsoProps.v ===== *)
(** * Who gets signed in

    The browser sign-in of [Sso] over a whole run of the control plane: along
    requests, administration and other logins in between, a session changes
    hands only on the word of a provider that is configured now, and the flow
    used is the one of its current settings. *)
From Stdlib Require Import Ascii.
From S2P Require Import Prelude GoStrings GoText Store World PgCore PgMisc StoreCalls StoreInv Tokens Json PipelineGraph Crypto PipelineService PipelineServiceProps Auth ApiAdmin ApiFrame Sso.
Import Sso.

(** ** Fingerprints tell versions of a provider apart *)

Lemma length_hex_digits n u : length (hex_digits n u) = n.
Proof. revert u. induction n as [|n IH]; intros u; simpl; [done|]. rewrite length_app, IH. simpl. lia. Qed.

Lemma hex_digits_inj n u v :
  (u < 16 ^ N.of_nat n)%N → (v < 16 ^ N.of_nat n)%N → hex_digits n u = hex_digits n v → u = v.
Proof.
  revert u v. induction n as [|n IH]; intros u v Hu Hv; simpl hex_digits.
  { simpl in *. lia. }
  rewrite Nat2N.inj_succ, N.pow_succ_r' in Hu, Hv. intros [Hq Hr]%app_inj_tail.
  apply IH in Hq; [|by apply N.Div0.div_lt_upper_bound..].
  assert (Hmod : ∀ x, (x mod 16 < 16)%N) by (intros x; apply N.mod_lt; lia).
  apply digit_at_inj in Hr; [|apply (bool_decide_unpack _); by vm_compute|apply Hmod..].
  rewrite (N.div_mod u 16), (N.div_mod v 16) by lia. by rewrite Hq, Hr.
Qed.

Lemma chars_uuid_String u :
  let d := hex_digits 32 u in
  chars (uuid_String u) = take 8 d ++ "-"%char :: take 4 (drop 8 d) ++ "-"%char :: take 4 (drop 12 d)
    ++ "-"%char :: take 4 (drop 16 d) ++ "-"%char :: take 12 (drop 20 d).
Proof. cbv zeta. unfold uuid_String. by rewrite !chars_app, !chars_of_list. Qed.

Lemma uuid_String_inj u v :
  (u < 2 ^ 128)%N → (v < 2 ^ 128)%N → uuid_String u = uuid_String v → u = v.
Proof.
  intros Hu Hv Heq. change (2 ^ 128)%N with (16 ^ N.of_nat 32)%N in Hu, Hv.
  apply (hex_digits_inj 32); [done..|].
  apply (f_equal chars) in Heq. rewrite !chars_uuid_String in Heq.
  pose proof (length_hex_digits 32 u) as Lu. pose proof (length_hex_digits 32 v) as Lv.
  set (x := hex_digits 32 u) in *. set (y := hex_digits 32 v) in *. clearbody x y.
  repeat (apply app_inj_1 in Heq as [? Heq]; [|rewrite !length_take, ?length_drop; lia]; simplify_eq/=).
  rewrite <- (take_drop 8 x), <- (take_drop 8 y). f_equal; [done|].
  rewrite <- (take_drop 4 (drop 8 x)), <- (take_drop 4 (drop 8 y)), !drop_drop. f_equal; [done|].
  rewrite <- (take_drop 4 (drop (8+4) x)), <- (take_drop 4 (drop (8+4) y)), !drop_drop. f_equal; [done|].
  rewrite <- (take_drop 4 (drop (8+4+4) x)), <- (take_drop 4 (drop (8+4+4) y)), !drop_drop. f_equal; [done|].
  rewrite <- (take_ge (drop _ x) 12), <- (take_ge (drop _ y) 12); [done|rewrite length_drop; lia..].
Qed.

Lemma length_uuid_String u : length (chars (uuid_String u)) = 36.
Proof.
  rewrite chars_uuid_String. cbv zeta. pose proof (length_hex_digits 32 u) as Lu.
  set (x := hex_digits 32 u) in *. clearbody x.
  repeat (rewrite ?length_app, ?length_cons, ?length_take, ?length_drop). lia.
Qed.

Lemma db_fingerprint_inj p q :
  (ap_ID p < 2 ^ 128)%N → (ap_ID q < 2 ^ 128)%N → db_fingerprint p = db_fingerprint q →
  ap_ID p = ap_ID q ∧ ap_UpdatedAt p = ap_UpdatedAt q.
Proof.
  intros Hp Hq Heq. apply (f_equal chars) in Heq. unfold db_fingerprint in Heq.
  rewrite !chars_app in Heq. do 3 apply (f_equal (drop 1)) in Heq.
  change (chars (uuid_String (ap_ID p)) ++ chars ":" ++ chars (Itoa (ap_UpdatedAt p)) =
          chars (uuid_String (ap_ID q)) ++ chars ":" ++ chars (Itoa (ap_UpdatedAt q))) in Heq.
  apply app_inj_1 in Heq as [Hid Hat]; [|by rewrite !length_uuid_String].
  split; [by apply uuid_String_inj, chars_inj|].
  injection Hat as Hat. apply chars_inj in Hat. by apply (inj pretty) in Hat.
Qed.

(** ** The tail of a login *)

Section Tail.
Context {ENV : Env}.

(** The account a login is for: the one its identity is linked to, else the
    one with its email address; none before a first login. *)
Definition account_of (d : db) (identityKey subject email : string) : option uuid :=
  match user_identities d !! (identityKey, subject) with
  | Some id => Some id
  | None => u_ID <$> find_row (λ u, bool_decide (u_Email u = email)) (users d)
  end.

Lemma UpsertUserByIdentity_account key subject email dn role w u w' :
  ids_ok (w_db w) → UpsertUserByIdentity key subject email dn role w = (inl u, w') →
  user_identities (w_db w') !! (key, subject) = Some (u_ID u) ∧
  users (w_db w') !! u_ID u = Some u ∧
  match account_of (w_db w) key subject email with
  | Some id => u_ID u = id
  | None => users (w_db w) !! u_ID u = None
  end.
Proof.
  intros [_ Hk' _ _ _ _ _ _ _ _] H. unfold account_of.
  assert (Hk : ∀ k v, users (w_db w) !! k = Some v → u_ID v = k) by exact Hk'. clear Hk'.
  call_inv H; simpl in *; simplify_option_eq; rewrite ?lookup_insert_eq in *; simplify_eq;
    repeat match goal with
    | Hu : users _ !! _ = Some _ |- _ => pose proof (Hk _ _ Hu); revert Hu
    end; intros; simpl in *; repeat (case_match; simplify_eq/=); subst;
    repeat match goal with E : u_ID ?u = _ |- context [u_ID ?u] => rewrite !E end;
    rewrite ?lookup_insert_eq; split_and!; try done.
  all: repeat match goal with
    | E : is_none ?o = true |- _ => destruct o eqn:?; [discriminate E|clear E]
    | E : negb (exists_row _ _) = true, F : u_ID <$> find_row _ _ = Some _ |- _ =>
      apply fmap_Some in F as (? & F & _); apply find_row_exists in F; by rewrite F in E
    end; done.
Qed.

Lemma UpsertUserByIdentity_frame key subject email dn role w :
  let w' := (UpsertUserByIdentity key subject email dn role w).2 in
  auth_providers (w_db w') = auth_providers (w_db w) ∧ (ids_ok (w_db w) → ids_ok (w_db w')).
Proof.
  cbv zeta. destruct (UpsertUserByIdentity _ _ _ _ _ w) as [[u|e] w'] eqn:H; simpl.
  - split.
    + call_inv H; done.
    + intros Hok. eapply (call_ids_ok _ (CallUpsertUserByIdentity key subject email dn role)); [|exact Hok].
      unfold run_call, void, mbind, M_bind. by rewrite H.
  - assert (Hdb : w_db w' = w_db w) by (eapply atomic_inTx; exact H). by rewrite Hdb.
Qed.

Context {SM : SessionManager} {SL : SessionLaws SM}.

(** What a login leaves behind: the session belongs to an enabled account that
    the identity is linked to, the one it belonged to before if there was one. *)
Definition bound_to (d d' : db) (identityKey subject email user : string) : Prop :=
  ∃ u, user = uuid_String (u_ID u) ∧ u_DisabledAt u = None ∧
    users d' !! u_ID u = Some u ∧ user_identities d' !! (identityKey, subject) = Some (u_ID u) ∧
    match account_of d identityKey subject email with
    | Some id => u_ID u = id
    | None => users d !! u_ID u = None
    end.

Lemma finish_outcome isAdmin key subject email dn (s : world * sess) :
  let s' := (finish isAdmin key subject email dn s).2 in
  ids_ok (w_db s.1) →
  GetString s'.2 sessUserID = GetString s.2 sessUserID ∨
  bound_to (w_db s.1) (w_db s'.1) key subject email (GetString s'.2 sessUserID).
Proof.
  destruct s as [w se]. intros s' Hok. subst s'. unfold finish, with_world, mtry, mbind, M_bind.
  simpl. destruct (UpsertUserByIdentity _ _ _ _ _ w) as [[u|e] w1] eqn:H; [|by left].
  apply UpsertUserByIdentity_account in H as (Hid & Hu & Hacc); [|done].
  destruct (u_DisabledAt u) eqn:Hd; [by left|].
  unfold renew_session, sess_step, mtry, mbind, M_bind. simpl.
  destruct (RenewToken se) as [se1|e] eqn:Hr; [|by left]. right.
  unfold bind_session, sess_put, with_world, mbind, M_bind. simpl.
  pose proof (readonly_newToken w1) as Hn. destruct (newToken w1) as [[tok|e] w2]; simpl in *.
  all: exists u; rewrite Hn, ?GetString_Put; simpl; eauto 8.
Qed.

Lemma finish_frame isAdmin key subject email dn (s : world * sess) :
  let s' := (finish isAdmin key subject email dn s).2 in
  auth_providers (w_db s'.1) = auth_providers (w_db s.1) ∧ (ids_ok (w_db s.1) → ids_ok (w_db s'.1)).
Proof.
  destruct s as [w se]. unfold finish, with_world, mtry, mbind, M_bind. simpl.
  pose proof (UpsertUserByIdentity_frame key subject email dn
    (if isAdmin email then RoleAdmin else RoleViewer) w) as Hf.
  destruct (UpsertUserByIdentity _ _ _ _ _ w) as [[u|e] w1]; simpl in *; [|done].
  destruct (u_DisabledAt u); [done|].
  unfold renew_session, sess_step, mtry, mbind, M_bind. simpl. destruct (RenewToken se); [|done].
  unfold bind_session, sess_put, with_world, mbind, M_bind. simpl.
  pose proof (readonly_newToken w1) as Hn. destruct (newToken w1) as [[tok|e] w2]; simpl in *; by rewrite Hn.
Qed.

Lemma finish_other_keys isAdmin key subject email dn (s : world * sess) k :
  k ≠ sessUserID → k ≠ sessCSRF →
  GetString (finish isAdmin key subject email dn s).2.2 k = GetString s.2 k.
Proof.
  intros Hu Hc. destruct s as [w se]. unfold finish, with_world, mtry, mbind, M_bind. simpl.
  destruct (UpsertUserByIdentity _ _ _ _ _ w) as [[u|e] w1]; simpl; [|done].
  destruct (u_DisabledAt u); [done|].
  unfold renew_session, sess_step, mtry, mbind, M_bind. simpl. destruct (RenewToken se) as [se1|e] eqn:Hr; [|done].
  unfold bind_session, sess_put, with_world, mbind, M_bind. simpl.
  destruct (newToken w1) as [[tok|e] w2]; simpl; rewrite !GetString_Put, ?bool_decide_eq_false_2 by done;
    by eapply GetString_RenewToken.
Qed.

End Tail.

(** Walks down a handler to its accesses, which the database covers. *)
Create HintDb sso discriminated.
Ltac flow_tac :=
  repeat first
    [ solve [eauto 3 with sso]
    | lazymatch goal with
      | |- steps _ (_ ≫= _) => apply steps_bind; [typeclasses eauto| |intros ?]
      | |- steps _ (mret _) => apply steps_ret; typeclasses eauto
      | |- steps _ (if ?b then _ else _) => destruct b
      | |- steps _ (match ?x with _ => _ end) => destruct x
      end
    | progress unfold http_Error, http_Redirect, http_NotFound
    | progress cbv zeta ].

(** ** A run of the control plane *)

Section Soundness.
Context {ENV : Env} {SM : SessionManager} {SL : SessionLaws SM} {IDP : IdP} {CERT : X509}
  (cfg : RegistryCfg).

Abbreviation L := (M lstate error).
Abbreviation tables s := (w_db (ls_w s)).
Abbreviation user_of s := (GetString (ls_sess s) sessUserID).
Abbreviation microsoft info := (bool_decide (pi_Type info = TypeMicrosoft)).

(** What a name stands for: the enabled row of that name, or the environment's
    provider where there is no row. *)
Definition configured (d : db) (name : string) : option (ProviderInfo * string) :=
  match find_row (λ p, bool_decide (ap_Name p = name)) (auth_providers d) with
  | Some p =>
    if ap_Enabled p
    then match row_info cfg p with inl info => Some (info, db_fingerprint p) | inr _ => None end
    else None
  | None => (λ e, (env_info e, "env:" +:+ env_Name e))
              <$> find (λ e, bool_decide (env_Name e = name)) (reg_Env cfg)
  end.

(** The evidence for a subject and an email address: a token verified for this
    provider, obtained with the state the session was given; or an assertion
    its identity provider signed. *)
Inductive vouched (se : sess) (r : LoginRequest) (info : ProviderInfo) : string → string → Prop :=
  | vouched_oidc n p n' token raw n'' t claims :
    pi_Type info ≠ TypeGitHub → pi_Type info ≠ TypeSAML →
    GetString se sessOIDCState ≠ "" → lr_Query r "state" = GetString se sessOIDCState →
    NewProvider n (microsoft info) (pi_Issuer info) = Some p →
    Exchange n' (oidc_config cfg info p) (lr_Query r "code") (Some (GetString se sessOIDCVerifier)) = Some token →
    tk_IDToken token = Some raw →
    Verify n'' p (pi_ClientID info) (microsoft info) raw = Some t →
    (pi_Type info = TypeMicrosoft → microsoft_issuer (it_Issuer t) = true) →
    parse_claims (it_Claims t) = Some claims → cl_Email claims ≠ "" → cl_EmailVerified claims ≠ Some false →
    vouched se r info (it_Subject t) (cl_Email claims)
  | vouched_github n token n' profile ghUser n'' addresses emails email :
    pi_Type info = TypeGitHub →
    GetString se sessOIDCState ≠ "" → lr_Query r "state" = GetString se sessOIDCState →
    Exchange n (github_config cfg info) (lr_Query r "code") None = Some token →
    githubGet n' token "/user" = Some profile →
    decode_struct gh_user_fields (Build_gh_user 0 "" "" "") profile = Some ghUser → gh_ID ghUser ≠ 0%Z →
    githubGet n'' token "/user/emails" = Some addresses →
    decode_slice (decode_struct gh_email_fields) (Build_gh_email "" false false) (Build_slice [] [])
      addresses = Some emails →
    (∃ e, e ∈ sl_elems emails ∧ ghe_Email e = email ∧ ghe_Verified e = true) → email ≠ "" →
    vouched se r info (Itoa (gh_ID ghUser)) email
  | vouched_saml sp form n a :
    pi_Type info = TypeSAML → buildServiceProvider cfg info = inl sp → lr_Form r = Some form →
    RetrieveAssertionInfo n sp (form "SAMLResponse") = Some a →
    (∀ wi, ai_WarningInfo a = Some wi → wi_InvalidTime wi = false ∧ wi_NotInAudience wi = false) →
    samlEmail a ≠ "" →
    vouched se r info (if bool_decide (ai_NameID a = "") then samlEmail a else ai_NameID a)
      (ToLower unicode_lower (samlEmail a)).

(** The tables of a run: a row of the providers is told by its id and the time
    of its last change. *)
Definition consistent (versions : uuid → time → option AuthProvider) (d : db) : Prop :=
  ids_ok d ∧
  ∀ id p, auth_providers d !! id = Some p →
    versions (ap_ID p) (ap_UpdatedAt p) = Some p ∧ (ap_ID p < 2 ^ 128)%N.

(** The states of a control plane from its start on: a request of the browser
    sign-in, or whatever the rest of the program does to tables and session. *)
Inductive run (versions : uuid → time → option AuthProvider) : lstate → Prop :=
  | run_start w se :
    consistent versions (w_db w) → run versions (Build_lstate w se ∅)
  | run_request route r s :
    run versions s → run versions (serve_login cfg route r s).2
  | run_other s w se :
    run versions s → consistent versions (w_db w) → run versions (Build_lstate w se (ls_flows s)).

(** *** The flow cache *)

Definition flow_for (info : ProviderInfo) (f : loginFlow) : Prop :=
  match f with
  | OIDCHandler i p =>
    i = info ∧ pi_Type info ≠ TypeGitHub ∧ pi_Type info ≠ TypeSAML ∧
    ∀ x, p = Some x → ∃ n, NewProvider n (microsoft info) (pi_Issuer info) = Some x
  | GitHubHandler i => i = info ∧ pi_Type info = TypeGitHub
  | SAMLHandler i sp => i = info ∧ pi_Type info = TypeSAML ∧ sp = buildServiceProvider cfg info
  end.

Lemma flow_for_new info : flow_for info (new_flow cfg info).
Proof. unfold new_flow. repeat case_bool_decide; simpl; repeat split; done. Qed.

Section Cache.
Context (versions : uuid → time → option AuthProvider).

(** The settings a fingerprint was taken of. *)
Inductive origin (name : string) (info : ProviderInfo) : string → Prop :=
  | origin_row p :
    versions (ap_ID p) (ap_UpdatedAt p) = Some p → (ap_ID p < 2 ^ 128)%N →
    row_info cfg p = inl info → origin name info (db_fingerprint p)
  | origin_env e :
    find (λ e, bool_decide (env_Name e = name)) (reg_Env cfg) = Some e → info = env_info e →
    origin name info ("env:" +:+ env_Name e).

Lemma origin_unique name info info' fp : origin name info fp → origin name info' fp → info = info'.
Proof.
  intros [p Hp Hlt Hi|e He ->] H'.
  - remember (db_fingerprint p) as fp0 eqn:Hfp. destruct H' as [q Hq Hlt' Hi'|e' He' Hi'].
    + apply db_fingerprint_inj in Hfp as [Hid Hat]; [|done..]. rewrite Hid, Hat in Hq. congruence.
    + unfold db_fingerprint in Hfp. by simplify_eq.
  - remember ("env:" +:+ env_Name e) as fp0 eqn:Hfp. destruct H' as [q Hq Hlt' Hi'|e' He' ->].
    + unfold db_fingerprint in Hfp. by simplify_eq.
    + by simplify_eq.
Qed.

Lemma configured_origin d name info fp :
  consistent versions d → configured d name = Some (info, fp) → origin name info fp ∧ pi_Name info = name.
Proof.
  intros [_ Hv]. unfold configured.
  destruct (find_row _ _) as [p|] eqn:Hf.
  - apply find_row_Some in Hf as (Hn%bool_decide_eq_true & id & Hid). apply Hv in Hid as [Hid Hlt].
    destruct (ap_Enabled p); [|done]. destruct (row_info cfg p) as [i|] eqn:Hi; [|done].
    intros [= -> <-]. split; [by econstructor|].
    unfold row_info in Hi. repeat case_match; by simplify_eq/=.
  - destruct (find _ _) as [e|] eqn:He; [|done]. intros [= <- <-]. split; [by econstructor|].
    apply find_some in He as [_ He]. by apply bool_decide_eq_true in He.
Qed.

Definition cache_ok (s : lstate) : Prop :=
  ∀ name c, ls_flows s !! name = Some c →
    ∃ info, origin name info (cf_fingerprint c) ∧ flow_for info (cf_flow c).

Lemma consistent_same d d' :
  auth_providers d' = auth_providers d → (ids_ok d → ids_ok d') → consistent versions d → consistent versions d'.
Proof. intros Hp Hi [Hok Hv]. split; [by apply Hi|]. by rewrite Hp. Qed.

(** What a flow may do to the rest of the state: its own entry of the cache
    stays one of its settings, the providers are left alone. *)
Definition guarded (info : ProviderInfo) (s : lstate) : Prop :=
  cache_ok s ∧ ∃ c, ls_flows s !! pi_Name info = Some c ∧ origin (pi_Name info) info (cf_fingerprint c).

Definition tame (s s' : lstate) : Prop :=
  auth_providers (tables s') = auth_providers (tables s) ∧ (ids_ok (tables s) → ids_ok (tables s')).

Definition orderly (info : ProviderInfo) (s s' : lstate) : Prop :=
  tame s s' ∧ (guarded info s → guarded info s').

#[local] Instance tame_preorder : PreOrder tame.
Proof. split; [by split|]. intros x y z [Hp Hi] [Hp' Hi']. split; [congruence|tauto]. Qed.

#[local] Instance orderly_preorder info : PreOrder (orderly info).
Proof.
  split; [intros s; split; [reflexivity|done]|]. intros x y z [Ht Hg] [Ht' Hg'].
  split; [by etrans|tauto].
Qed.

Lemma orderly_same_flows info s s' : tame s s' → ls_flows s' = ls_flows s → orderly info s s'.
Proof. intros Ht Hf. split; [done|]. unfold guarded, cache_ok. by rewrite Hf. Qed.

Lemma orderly_on_pg {A} info (m : Op A) : readonly m → steps (orderly info) (on_pg m).
Proof.
  intros Hm s. specialize (Hm (ls_w s)). unfold on_pg, on_session, with_world. simpl.
  destruct (m (ls_w s)) as [r w]. apply orderly_same_flows; [|done]. unfold tame. simpl in *. by rewrite Hm.
Qed.

Lemma orderly_put_session info k v : steps (orderly info) (put_session k v).
Proof. intros s. by apply orderly_same_flows. Qed.

Lemma orderly_pop_session info k : steps (orderly info) (pop_session k).
Proof. intros s. by apply orderly_same_flows. Qed.

Lemma orderly_finish info i subject email dn : steps (orderly info) (finish_login cfg i subject email dn).
Proof.
  intros s. unfold finish_login, on_session. destruct (finish _ _ _ _ _ _) as [r [w se]] eqn:H.
  apply orderly_same_flows; [|done]. unfold tame. simpl.
  pose proof (finish_frame (IsAdminEmail (reg_AdminEmails cfg)) (IdentityKey i) subject email dn
    (ls_w s, ls_sess s)) as Hf. rewrite H in Hf. exact Hf.
Qed.

#[local] Hint Resolve orderly_on_pg orderly_put_session orderly_pop_session orderly_finish
  readonly_tick readonly_newToken : sso.

Lemma orderly_getProvider info p :
  flow_for info (OIDCHandler info p) → steps (orderly info) (getProvider info p).
Proof.
  intros (_ & Hgh & Hsaml & _). destruct p as [p|]; [apply steps_ret; typeclasses eauto|].
  unfold getProvider. apply steps_bind; [typeclasses eauto|eauto 3 with sso|intros n].
  destruct (NewProvider n _ _) as [p|] eqn:Hn; [|apply steps_ret; typeclasses eauto].
  apply steps_bind; [typeclasses eauto| |intros; apply steps_ret; typeclasses eauto].
  intros s. split; [by split|]. intros [Hc (c & Hl & Ho)]. split.
  - intros name c'. simpl. destruct (decide (name = pi_Name info)) as [->|Hne].
    + rewrite lookup_alter_eq, Hl. intros [= <-]. simpl. exists info. split; [done|].
      repeat split; try done. intros x [= <-]. eauto.
    + rewrite lookup_alter_ne by done. apply Hc.
  - simpl. rewrite lookup_alter_eq, Hl. eauto.
Qed.
#[local] Hint Resolve orderly_getProvider : sso.

Lemma orderly_serve_flow info route r f : flow_for info f → steps (orderly info) (serve_flow cfg route r f).
Proof.
  intros Hf. destruct f as [i p|i|i sp]; pose proof Hf as Hf'; destruct Hf' as [-> Hf'];
    destruct route; unfold serve_flow, oidc_Start, oidc_Callback, oidc_login, github_Start, github_Callback,
      primaryVerifiedEmail, github_get, saml_Start, saml_ACS, saml_login; flow_tac.
Qed.

(** *** A request: settings, flow, page *)

Lemma GetAuthProviderByName_absent name w e w' :
  GetAuthProviderByName name w = (inr e, w') → Is e ErrNotFound = true →
  find_row (λ p, bool_decide (ap_Name p = name)) (auth_providers (w_db w)) = None.
Proof.
  unfold GetAuthProviderByName, onErr, mtry, mbind, M_bind, queryRow, stmt, fail_stmt.
  destruct (fault _ || _); [by intros [= <- _]|].
  by destruct (find_row _ _).
Qed.

Lemma Resolve_spec name s r s1 :
  Resolve cfg name s = (r, s1) →
  ls_sess s1 = ls_sess s ∧ ls_flows s1 = ls_flows s ∧ tables s1 = tables s ∧
  ∀ info fp, r = inl (info, fp) → configured (tables s) name = Some (info, fp).
Proof.
  unfold Resolve, mtry, mbind, M_bind, on_pg, on_session, with_world. simpl.
  assert (Hro : readonly (GetAuthProviderByName name)) by (unfold GetAuthProviderByName; atomic_tac).
  specialize (Hro (ls_w s)). destruct (GetAuthProviderByName name (ls_w s)) as [[p|e] w1] eqn:H; simpl in Hro.
  - apply onErr_inl, queryRow_inl in H as [Hf _]. unfold configured. rewrite Hf.
    destruct (ap_Enabled p); simpl; [destruct (row_info cfg p) as [i|e]|]; intros [= <- <-]; simpl;
      repeat split; try done. by intros ? ? [= <- <-].
  - assert (Hnone : Is e ErrNotFound = true →
      find_row (λ p, bool_decide (ap_Name p = name)) (auth_providers (tables s)) = None).
    { intros He. by eapply GetAuthProviderByName_absent. }
    unfold configured. destruct (Is e ErrNotFound).
    + rewrite Hnone by done. destruct (find _ _) as [x|]; intros [= <- <-]; simpl; repeat split; try done.
      by intros ? ? [= <- <-].
    + intros [= <- <-]. by repeat split.
Qed.

Lemma flowFor_spec info fp s :
  cache_ok s → origin (pi_Name info) info fp →
  ∃ f s1, flowFor cfg info fp s = (inl f, s1) ∧ flow_for info f ∧ guarded info s1 ∧
          ls_sess s1 = ls_sess s ∧ ls_w s1 = ls_w s.
Proof.
  intros Hc Ho. unfold flowFor, mgets, mbind, M_bind. simpl.
  assert (Hfresh : let s' := Build_lstate (ls_w s) (ls_sess s)
      (<[pi_Name info := {| cf_fingerprint := fp; cf_flow := new_flow cfg info |}]> (ls_flows s)) in guarded info s').
  { split; [|eexists; simpl; by rewrite lookup_insert_eq].
    intros name c. simpl. intros [(<- & <-)|(Hne & Hl)]%lookup_insert_Some; [|by apply Hc].
    exists info. split; [done|apply flow_for_new]. }
  destruct (ls_flows s !! pi_Name info) as [c|] eqn:Hl; [case_bool_decide as Hfp|].
  - exists (cf_flow c), s. destruct (Hc _ _ Hl) as (i & Hi & Hf). rewrite Hfp in Hi.
    assert (i = info) as -> by (by eapply origin_unique).
    repeat split; try done. exists c. by rewrite Hfp.
  - eexists _, _. split; [reflexivity|]. auto using flow_for_new.
  - eexists _, _. split; [reflexivity|]. auto using flow_for_new.
Qed.

Lemma dispatch_cases route r s :
  cache_ok s → consistent versions (tables s) →
  (∃ info fp f s1,
     configured (tables s) (providerNameFromPath (lr_Path r)) = Some (info, fp) ∧ flow_for info f ∧
     guarded info s1 ∧ ls_sess s1 = ls_sess s ∧ tables s1 = tables s ∧
     dispatch cfg route r s = serve_flow cfg route r f s1) ∨
  (ls_sess (dispatch cfg route r s).2 = ls_sess s ∧ ls_flows (dispatch cfg route r s).2 = ls_flows s ∧
   tables (dispatch cfg route r s).2 = tables s).
Proof.
  intros Hc Hv. unfold dispatch. case_bool_decide; [by right|].
  unfold mtry, mbind, M_bind.
  destruct (Resolve _ _ s) as [res s1] eqn:Hr. apply Resolve_spec in Hr as (Hs & Hf & Ht & Hres).
  destruct res as [[info fp]|e]; [|right; by destruct (Is e ErrUnknownProvider)].
  left. specialize (Hres _ _ eq_refl). destruct (configured_origin _ _ _ _ Hv Hres) as [Ho Hn].
  rewrite <- Hn in Ho. destruct (flowFor_spec info fp s1) as (f & s2 & Hff & Hflow & Hg & Hs' & Hw); [|done|].
  { unfold cache_ok. by rewrite Hf. }
  exists info, fp, f, s2. split_and!; try done; [congruence..|by rewrite Hw|by rewrite Hff].
Qed.

Lemma serve_login_invariant route r s :
  consistent versions (tables s) → cache_ok s →
  consistent versions (tables (serve_login cfg route r s).2) ∧ cache_ok (serve_login cfg route r s).2.
Proof.
  intros Hv Hc.
  assert (Hd : consistent versions (tables (dispatch cfg route r s).2) ∧ cache_ok (dispatch cfg route r s).2).
  { destruct (dispatch_cases route r s Hc Hv) as [(info & fp & f & s1 & _ & Hf & Hg & _ & Ht & ->)|(_ & Hfl & Ht)].
    - destruct (orderly_serve_flow info route r f Hf s1) as [[Hp Hi] Hg'].
      split; [|by apply Hg']. rewrite Ht in *. by eapply consistent_same.
    - rewrite Ht. unfold cache_ok. by rewrite Hfl. }
  unfold serve_login. by destruct (dispatch cfg route r s) as [[page|e] s'].
Qed.

End Cache.

(** *** Walking a flow to its outcome *)

Definition after (s0 s : lstate) : Prop := user_of s = user_of s0 ∧ tables s = tables s0.

#[local] Instance after_preorder : PreOrder after.
Proof. split; [by split|]. intros x y z [] []. split; congruence. Qed.

(** Nothing happened to the session's user, or a login [s0] had the evidence for. *)
Definition outcome (se : sess) (r : LoginRequest) (info : ProviderInfo) (s0 s' : lstate) : Prop :=
  user_of s' = user_of s0 ∨
  ∃ subject email, vouched se r info subject email ∧
    bound_to (tables s0) (tables s') (IdentityKey info) subject email (user_of s').

Section Outcome.
Context (se : sess) (r : LoginRequest) (info : ProviderInfo) (s0 : lstate).
Abbreviation outcome := (outcome se r info s0).

Lemma outcome_ret {A} (a : A) s : after s0 s → outcome ((mret a : L A) s).2.
Proof. intros [H _]. by left. Qed.

Lemma outcome_bind {A B} (m : L A) (f : A → L B) s :
  steps after m → after s0 s →
  (∀ a s1, m s = (inl a, s1) → after s0 s1 → outcome (f a s1).2) → outcome ((m ≫= f) s).2.
Proof.
  intros Hm Hs Hf. specialize (Hm s). unfold mbind, M_bind.
  destruct (m s) as [[a|e] s1]; simpl in *.
  - apply Hf; [done|by etrans].
  - left. by destruct (transitivity Hs Hm).
Qed.

Lemma outcome_finish subject email dn s :
  ids_ok (tables s0) → vouched se r info subject email → after s0 s →
  outcome (finish_login cfg info subject email dn s).2.
Proof.
  intros Hok Hvch [Hu Ht]. unfold finish_login, on_session.
  pose proof (finish_outcome (IsAdminEmail (reg_AdminEmails cfg)) (IdentityKey info) subject email dn
    (ls_w s, ls_sess s)) as Ho. simpl in Ho. rewrite Ht in Ho.
  destruct (finish _ _ _ _ _ _) as [res [w se']]. simpl in *.
  destruct (Ho Hok) as [He|Hsi]; [left|right]; simpl; [congruence|eauto].
Qed.
End Outcome.

Lemma after_on_pg {A} (m : Op A) : readonly m → steps after (on_pg m).
Proof.
  intros Hm s. specialize (Hm (ls_w s)). unfold on_pg, on_session, with_world, after. simpl.
  by destruct (m (ls_w s)).
Qed.

Lemma after_put_session k v : k ≠ sessUserID → steps after (put_session k v).
Proof. intros Hk s. split; [|done]. simpl. rewrite GetString_Put. by case_bool_decide. Qed.

Lemma after_pop_session k : k ≠ sessUserID → steps after (pop_session k).
Proof. intros Hk s. split; [|done]. simpl. rewrite GetString_Remove. by case_bool_decide. Qed.

Lemma pop_session_inl k s v s1 :
  pop_session k s = (inl v, s1) → v = GetString (ls_sess s) k ∧ ls_sess s1 = Remove (ls_sess s) k.
Proof. by intros [= <- <-]. Qed.

Lemma after_getProvider info p : steps after (getProvider info p).
Proof.
  destruct p; [apply steps_ret; typeclasses eauto|]. unfold getProvider.
  apply steps_bind; [typeclasses eauto|by apply after_on_pg|intros n].
  destruct (NewProvider _ _ _); [|apply steps_ret; typeclasses eauto].
  apply steps_bind; [typeclasses eauto|by intros s|intros; apply steps_ret; typeclasses eauto].
Qed.

Lemma getProvider_inl info p s q s1 :
  flow_for info (OIDCHandler info p) → getProvider info p s = (inl (Some q), s1) →
  ∃ n, NewProvider n (microsoft info) (pi_Issuer info) = Some q.
Proof.
  intros (_ & _ & _ & Hp). destruct p as [p|]; [intros [= -> _]; by apply Hp|].
  unfold getProvider, mbind, M_bind. simpl.
  destruct (NewProvider _ _ _) as [p|] eqn:Hn; simpl; [|done]. intros [= -> _]. eauto.
Qed.

Lemma pick_email_verified l fb :
  pick_email fb l = fb ∨ ∃ e, e ∈ l ∧ ghe_Email e = pick_email fb l ∧ ghe_Verified e = true.
Proof.
  revert fb. induction l as [|e l IH]; intros fb; simpl; [by left|].
  destruct (ghe_Verified e) eqn:Hv; simpl.
  - destruct (ghe_Primary e); [right; exists e; auto using list_elem_of_here|].
    destruct (IH (if bool_decide (fb = "") then ghe_Email e else fb)) as [->|(x & Hx & Hq & Hxv)].
    + case_bool_decide; [right; exists e; auto using list_elem_of_here|by left].
    + right. exists x. auto using list_elem_of_further.
  - destruct (IH fb) as [->|(x & Hx & Hq & Hxv)]; [by left|].
    right. exists x. auto using list_elem_of_further.
Qed.

Lemma after_github_get token path : steps after (github_get token path).
Proof.
  unfold github_get. apply steps_bind; [typeclasses eauto|by apply after_on_pg|].
  intros. apply steps_ret; typeclasses eauto.
Qed.

Lemma after_primaryVerifiedEmail token : steps after (primaryVerifiedEmail token).
Proof.
  unfold primaryVerifiedEmail. apply steps_bind; [typeclasses eauto|apply after_github_get|].
  intros. apply steps_ret; typeclasses eauto.
Qed.

Lemma github_get_inl token path s j s1 :
  github_get token path s = (inl j, s1) → ∃ n, githubGet n token path = j.
Proof. unfold github_get, mbind, M_bind. simpl. intros [= <- <-]. eauto. Qed.

#[local] Hint Resolve after_github_get after_primaryVerifiedEmail after_on_pg after_put_session after_pop_session after_getProvider readonly_tick
  readonly_newToken : after.
#[local] Hint Extern 1 (_ ≠ sessUserID) => discriminate : after.

(** One step towards the outcome: a page without a login ends it. *)
Ltac to_page :=
  lazymatch goal with
  | |- outcome _ _ _ _ (mret _ _).2 => by apply outcome_ret
  | |- outcome _ _ _ _ (http_Error _ _ _).2 => by apply outcome_ret
  | |- outcome _ _ _ _ (http_Redirect _ _).2 => by apply outcome_ret
  | |- outcome _ _ _ _ (http_NotFound _).2 => by apply outcome_ret
  | |- outcome _ _ _ _ ((_ ≫= _) _).2 => apply outcome_bind; [eauto 3 with after|done|]
  end.

Lemma oidc_Callback_outcome info p r s s0 :
  ids_ok (tables s0) → flow_for info (OIDCHandler info p) → after s0 s →
  outcome (ls_sess s) r info s0 (oidc_Callback cfg info p r s).2.
Proof.
  intros Hok Hf Hs. unfold oidc_Callback. pose proof Hf as (_ & Hgh & Hsaml & _).
  to_page. intros state s1 [-> Hs1]%pop_session_inl ?. to_page. intros verifier s2 [-> _]%pop_session_inl ?.
  rewrite Hs1, GetString_Remove. simpl (if bool_decide (sessOIDCVerifier = _) then _ else _).
  case_bool_decide as Hne; cbn [negb orb andb]; [to_page|]. case_bool_decide as Heq; cbn [negb orb andb]; [|to_page].
  case_bool_decide; cbn [negb orb andb]; [|to_page]. case_bool_decide; [to_page|].
  to_page. intros [q|] s3 Hp ?; [|to_page]. destruct (getProvider_inl _ _ _ _ _ Hf Hp) as [n Hn].
  to_page. intros n1 s4 _ ?. destruct (Exchange _ _ _ _) as [token|] eqn:Hx; [|to_page].
  destruct (tk_IDToken token) as [raw|] eqn:Hraw; [|to_page]. destruct (decide (raw = "")) as [->|Hraw']; [to_page|].
  replace (match raw with "" => _ | _ => _ end) with
    (n ← on_pg tick;
     match Verify n q (pi_ClientID info) (microsoft info) raw with
     | None => http_Error "invalid id_token" 400
     | Some idToken => oidc_login cfg info idToken
     end) by by destruct raw.
  to_page. intros n2 s5 _ ?. destruct (Verify _ _ _ _ _) as [t|] eqn:Hver; [|to_page].
  unfold oidc_login. destruct (microsoft info && _) eqn:Hms; [to_page|].
  destruct (parse_claims _) as [claims|] eqn:Hc; [|to_page]. destruct (bool_decide (cl_Email claims = "")) eqn:He; [to_page|].
  destruct (bool_decide (cl_EmailVerified claims = Some false)) eqn:Hev; [to_page|].
  apply bool_decide_eq_false in He, Hev.
  apply outcome_finish; [done| |done]. eapply (vouched_oidc _ _ _ n); eauto.
  intros Hty. rewrite bool_decide_eq_true_2 in Hms by done. by destruct (microsoft_issuer _).
Qed.

Lemma github_Callback_outcome info r s s0 :
  ids_ok (tables s0) → pi_Type info = TypeGitHub → after s0 s →
  outcome (ls_sess s) r info s0 (github_Callback cfg info r s).2.
Proof.
  intros Hok Hty Hs. unfold github_Callback.
  to_page. intros state s1 [-> _]%pop_session_inl ?.
  case_bool_decide as Hne; cbn [negb orb andb]; [to_page|]. case_bool_decide as Heq; cbn [negb orb andb]; [|to_page].
  case_bool_decide; cbn [negb orb andb]; [|to_page]. case_bool_decide; [to_page|].
  to_page. intros n1 s2 _ ?. destruct (Exchange _ _ _ _) as [token|] eqn:Hx; [|to_page].
  to_page. intros profile s3 Hp ?. apply github_get_inl in Hp as [n2 Hp].
  destruct profile as [profile|]; cbn [mbind option_bind]; [|to_page].
  destruct (decode_struct _ _ _) as [ghUser|] eqn:Hu; [|to_page]. case_bool_decide; [to_page|].
  to_page. intros email s4 He ?.
  unfold primaryVerifiedEmail in He. apply bind_inl in He as (addresses & s5 & He & [<- _]%ret_inl).
  apply github_get_inl in He as [n3 He]. destruct addresses as [addresses|]; cbn [mbind option_bind]; [|to_page].
  destruct (decode_slice _ _ _ _) as [emails|] eqn:Hd; cbn [mbind option_bind]; [|to_page].
  destruct (pick_email_verified (sl_elems emails) "") as [->|(e & Hin & Hem & Hv)]; [to_page|].
  destruct (decide (pick_email "" (sl_elems emails) = "")) as [->|Hnonempty]; [to_page|].
  assert (Hvch : vouched (ls_sess s) r info (Itoa (gh_ID ghUser)) (pick_email "" (sl_elems emails)))
    by (eapply (vouched_github _ _ _ n1); eauto).
  destruct (pick_email "" (sl_elems emails)) eqn:Hpick; [done|]. by apply outcome_finish.
Qed.

Lemma saml_ACS_outcome info r s s0 :
  ids_ok (tables s0) → pi_Type info = TypeSAML → after s0 s →
  outcome (ls_sess s) r info s0 (saml_ACS cfg info (buildServiceProvider cfg info) r s).2.
Proof.
  intros Hok Hty Hs. unfold saml_ACS. destruct (buildServiceProvider _ _) as [sp|] eqn:Hsp; [|to_page].
  destruct (lr_Form r) as [form|] eqn:Hform; [|to_page]. case_bool_decide; [to_page|].
  to_page. intros n s1 _ ?. destruct (RetrieveAssertionInfo _ _ _) as [a|] eqn:Ha; [|to_page].
  assert (Hlogin : (∀ wi, ai_WarningInfo a = Some wi → wi_InvalidTime wi = false ∧ wi_NotInAudience wi = false) →
    outcome (ls_sess s) r info s0 (saml_login cfg info a s1).2).
  { intros Hw. unfold saml_login. case_bool_decide as He; [to_page|].
    apply outcome_finish; [done| |done]. by eapply vouched_saml. }
  destruct (ai_WarningInfo a) as [wi|]; [|by apply Hlogin].
  destruct (wi_InvalidTime wi) eqn:?; [to_page|]. destruct (wi_NotInAudience wi) eqn:?; [to_page|].
  apply Hlogin. by intros ? [= <-].
Qed.

Lemma serve_flow_outcome info route r f s s0 :
  ids_ok (tables s0) → flow_for info f → after s0 s →
  outcome (ls_sess s) r info s0 (serve_flow cfg route r f s).2.
Proof.
  intros Hok Hf Hs. destruct f as [i p|i|i sp]; pose proof Hf as Hf'; destruct Hf' as [-> Hf'];
    destruct route; cbn [serve_flow]; try to_page.
  - unfold oidc_Start. to_page. intros [q|] s1 _ ?; [|to_page]. do 4 (to_page; intros ? ? _ ?). to_page.
  - by apply oidc_Callback_outcome.
  - unfold github_Start. do 2 (to_page; intros ? ? _ ?). to_page.
  - by apply github_Callback_outcome.
  - unfold saml_Start. destruct sp as [sp|]; [|to_page]. to_page. intros n s1 _ ?. destruct (BuildAuthURL _ _ _); to_page.
  - destruct Hf' as [Hty ->]. by apply saml_ACS_outcome.
Qed.

Lemma run_invariant versions s : run versions s → consistent versions (tables s) ∧ cache_ok versions s.
Proof.
  induction 1 as [w se Hv|route r s _ [Hv Hc]|s w se _ [_ Hc] Hv].
  - split; [done|]. intros name c Hl. simpl in Hl. by rewrite lookup_empty in Hl.
  - by apply serve_login_invariant.
  - done.
Qed.

(** C38: Whatever happened since the control plane started - sign-ins, changes
    of providers and accounts, other requests -, a request to /auth/... hands
    the session to another user only on the evidence of the provider as it is
    configured at that moment (an enabled row, or the environment's provider):
    a token obtained with the session's own state and verified for that
    provider's client id and issuer, a GitHub profile with a verified address,
    or an assertion signed by its identity provider.  The user is the enabled
    account the identity was linked to, else the one with the address, else a
    new one.  A cached flow is never one of older settings. *)
Theorem sign_in_sound versions route r s :
  run versions s →
  let s' := (serve_login cfg route r s).2 in
  user_of s' ≠ user_of s →
  ∃ info fingerprint subject email,
    configured (tables s) (providerNameFromPath (lr_Path r)) = Some (info, fingerprint) ∧
    vouched (ls_sess s) r info subject email ∧
    bound_to (tables s) (tables s') (IdentityKey info) subject email (user_of s').
Proof.
  intros [Hv Hc]%run_invariant s' Hne. subst s'. unfold serve_login in *.
  destruct (dispatch_cases versions route r s Hc Hv)
    as [(info & fp & f & s1 & Hconf & Hf & _ & Hs & Ht & Hd)|(Hs & _ & _)].
  - assert (Ho : outcome (ls_sess s) r info s (dispatch cfg route r s).2).
    { rewrite Hd, <- Hs. apply serve_flow_outcome; [apply Hv|done|]. split; [by rewrite Hs|done]. }
    clear Hd. destruct (dispatch cfg route r s) as [[page|e] s2]; simpl in *; [|done].
    destruct Ho as [He|(subject & email & Hvch & Hsi)]; [done|]. eauto 10.
  - by destruct (dispatch cfg route r s) as [[page|e] s2]; simpl in *; rewrite ?Hs in Hne.
Qed.

(** *** The state of a login is used once *)

Definition spent (s : lstate) : Prop := GetString (ls_sess s) sessOIDCState = "".

Lemma spent_on_pg {A} (m : Op A) : keeps spent (on_pg m).
Proof. intros s Hs. unfold on_pg, on_session, with_world. simpl. by destruct (m (ls_w s)). Qed.

Lemma spent_pop k : keeps spent (pop_session k).
Proof. intros s Hs. unfold spent. simpl. rewrite GetString_Remove. by case_bool_decide. Qed.

Lemma spent_finish i subject email dn : keeps spent (finish_login cfg i subject email dn).
Proof.
  intros s Hs. unfold finish_login, on_session, spent.
  pose proof (finish_other_keys (IsAdminEmail (reg_AdminEmails cfg)) (IdentityKey i) subject email dn
    (ls_w s, ls_sess s) sessOIDCState) as Hk.
  destruct (finish _ _ _ _ _ _) as [res [w se]]. simpl in *. rewrite Hk; [exact Hs|discriminate..].
Qed.

Lemma spent_getProvider info p : keeps spent (getProvider info p).
Proof.
  destruct p as [p|]; [apply steps_ret; typeclasses eauto|]. unfold getProvider.
  apply steps_bind; [typeclasses eauto|apply spent_on_pg|intros n]. destruct (NewProvider _ _ _).
  - apply steps_bind; [typeclasses eauto|intros s Hs; exact Hs|intros; apply steps_ret; typeclasses eauto].
  - apply steps_ret; typeclasses eauto.
Qed.
#[local] Hint Resolve spent_on_pg spent_pop spent_finish spent_getProvider : sso.





(** *** The login page *)

Definition row_named (d : db) (name : string) (p : AuthProvider) : Prop :=
  (∃ id, auth_providers d !! id = Some p) ∧ ap_Name p = name.

(** The constraint [auth_providers_name_key]. *)
Definition unique_names (d : db) : Prop :=
  ∀ name p q, row_named d name p → row_named d name q → p = q.

Lemma find_row_named d name p :
  unique_names d → row_named d name p →
  find_row (λ p, bool_decide (ap_Name p = name)) (auth_providers d) = Some p.
Proof.
  intros Hu Hp. destruct (find_row _ _) as [q|] eqn:Hq.
  - apply find_row_Some in Hq as (Hn%bool_decide_eq_true & Hid). f_equal. by apply (Hu name).
  - destruct Hp as [[id Hid] Hn]. unfold find_row in Hq. apply head_None in Hq.
    assert (Hin : p ∈ filter (λ v, bool_decide (ap_Name v = name) = true) (rows (auth_providers d))).
    { apply list_elem_of_filter. split; [by apply bool_decide_eq_true|]. apply elem_of_rows. eauto. }
    rewrite Hq in Hin. by apply elem_of_nil in Hin.
Qed.

Lemma elem_of_enabled d p :
  p ∈ order_by (by_created ap_CreatedAt ap_ID)
        (where_ (λ p, negb true || ap_Enabled p) (rows (auth_providers d))) ↔
  ap_Enabled p = true ∧ ∃ id, auth_providers d !! id = Some p.
Proof.
  unfold order_by, where_. rewrite merge_sort_Permutation, list_elem_of_filter, elem_of_rows. simpl. done.
Qed.

Lemma LoginProviders_inl s l s1 name :
  LoginProviders cfg s = (inl l, s1) →
  tables s1 = tables s ∧
  let served := ∃ p, row_named (tables s) name p ∧ ap_Enabled p = true in
  (name ∈ lp_Name <$> l ↔ served ∨ (name ∈ env_Name <$> reg_Env cfg ∧ ¬ served)).
Proof.
  unfold LoginProviders. intros (rows & s2 & Hq & [<- <-]%ret_inl)%bind_inl.
  unfold on_pg, on_session, with_world in Hq. simpl in Hq.
  destruct (ListAuthProviders true (ls_w s)) as [r w] eqn:Hl. simplify_eq/=.
  apply query_inl in Hl as [-> ->]. split; [done|].
  assert (Hs : (∃ p, row_named (tables s) name p ∧ ap_Enabled p = true) ↔
    name ∈ ap_Name <$> order_by (by_created ap_CreatedAt ap_ID)
        (where_ (λ p, negb true || ap_Enabled p) (World.rows (auth_providers (tables s))))).
  { rewrite list_elem_of_fmap. split.
    - intros (p & [Hid Hn] & He). exists p. split; [done|]. by apply elem_of_enabled.
    - intros (p & Hn & [He Hid]%elem_of_enabled). by exists p. }
  cbv zeta. rewrite Hs, fmap_app, elem_of_app, <- !list_fmap_compose. unfold compose; simpl.
  set (taken := ap_Name <$> _). assert (Henv : ∀ l : list OIDCProvider, name ∈ env_Name <$> filter (λ e, env_Name e ∉ taken) l ↔
    name ∈ env_Name <$> l ∧ name ∉ taken); [|by rewrite Henv].
  intros l. rewrite !list_elem_of_fmap. setoid_rewrite list_elem_of_filter. naive_solver.
Qed.

Lemma Resolve_unknown name s s' :
  Resolve cfg name s = (inr ErrUnknownProvider, s') →
  match find_row (λ p, bool_decide (ap_Name p = name)) (auth_providers (tables s)) with
  | Some p => ap_Enabled p = false
  | None => find (λ e, bool_decide (env_Name e = name)) (reg_Env cfg) = None
  end.
Proof.
  unfold Resolve, mtry, mbind, M_bind, on_pg, on_session, with_world, GetAuthProviderByName, onErr, mtry, mbind,
    M_bind, queryRow, stmt, fail_stmt. simpl.
  destruct (fault _ || _); [done|].
  destruct (find_row _ _) as [p|]; simpl; [|by destruct (find _ _)].
  destruct (ap_Enabled p); simpl; [|done]. unfold row_info.
  repeat case_match; intros; simplify_eq/=.
Qed.

(** The names on the login page and the names /auth/{name}/... answers to:
    every name that resolves is on the page; a name on the page that is then
    unknown is one of an environment's provider behind a disabled row of the
    same name, which the page does not see and [Resolve] stops at. *)
Theorem login_page_resolves name s l s1 :
  unique_names (tables s) → LoginProviders cfg s = (inl l, s1) →
  (∀ x s2, Resolve cfg name s1 = (inl x, s2) → name ∈ lp_Name <$> l) ∧
  (∀ s2, name ∈ lp_Name <$> l → Resolve cfg name s1 = (inr ErrUnknownProvider, s2) →
     name ∈ env_Name <$> reg_Env cfg ∧ ∃ p, row_named (tables s) name p ∧ ap_Enabled p = false).
Proof.
  intros Hu Hl. destruct (LoginProviders_inl _ _ _ name Hl) as [Ht Hin]. cbv zeta in Hin.
  assert (Hserved : (∃ p, row_named (tables s) name p ∧ ap_Enabled p = true) →
    ∃ p, find_row (λ p, bool_decide (ap_Name p = name)) (auth_providers (tables s)) = Some p ∧ ap_Enabled p = true).
  { intros (p & Hp & He). exists p. by rewrite (find_row_named _ name p). }
  setoid_rewrite Hin. split.
  - intros [info fp] s2 (_ & _ & _ & Hc)%Resolve_spec. specialize (Hc _ _ eq_refl). rewrite Ht in Hc.
    unfold configured in Hc. destruct (find_row _ _) as [p|] eqn:Hf.
    + destruct (ap_Enabled p) eqn:He; [|done]. apply find_row_Some in Hf as (Hn%bool_decide_eq_true & Hid).
      left. by exists p.
    + right. split; [|by intros (? & ? & _)%Hserved]. destruct (find _ _) as [e|] eqn:Hfe; [|done].
      apply find_some in Hfe as [Hfe Hn%bool_decide_eq_true]. apply list_elem_of_fmap.
      exists e. by rewrite list_elem_of_In.
  - intros s2 Hlisted Hr%Resolve_unknown. rewrite Ht in Hr.
    destruct (find_row _ _) as [p|] eqn:Hf.
    + destruct Hlisted as [(q & Hq & He)%Hserved|[Henv _]]; [congruence|]. split; [done|].
      apply find_row_Some in Hf as (Hn%bool_decide_eq_true & Hid). by exists p.
    + destruct Hlisted as [(q & Hq & He)%Hserved|[Henv _]]; [done|].
      apply list_elem_of_fmap in Henv as (e & -> & He). apply list_elem_of_In in He.
      eapply find_none in Hr; [|exact He]. by rewrite bool_decide_eq_true_2 in Hr.
Qed.

End Soundness.

(** ** A concrete sign-in

    The environment names an identity provider "corp"; its tokens say they are
    for an operator who was invited under the same address in lower case. *)

#[local] Existing Instance quiet_env.
#[local] Existing Instance demo_SM.
#[local] Existing Instance demo_CERT.

Definition demo_IDP : IdP := {|
  oidc_provider := string;
  provider_endpoint p := {| ep_AuthURL := p +:+ "/authorize"; ep_TokenURL := p +:+ "/token" |};
  NewProvider _ _ issuer := Some issuer;
  Verify _ _ client _ raw :=
    if bool_decide (client = "otelfleet") && bool_decide (raw = "token") then Some {|
      it_Issuer := "https://idp.example"; it_Subject := "42";
      it_Claims := JObj [("email", JStr "Op@globex.example")] |} else None;
  GenerateVerifier _ := "verifier";
  AuthCodeURL c state _ := ep_AuthURL (oc_Endpoint c) +:+ "?state=" +:+ state;
  Exchange _ _ code _ :=
    if bool_decide (code = "code") then Some {| tk_Access := "access"; tk_IDToken := Some "token" |} else None;
  githubGet _ _ _ := None;
  BuildAuthURL _ _ _ := None;
  RetrieveAssertionInfo _ _ _ := None |}.
#[local] Existing Instance demo_IDP.

Definition demo_registry : RegistryCfg := {|
  reg_BaseURL := "https://otel.example";
  reg_Env := [ {| env_Name := "corp"; env_DisplayName := "Corp"; env_Issuer := "https://idp.example";
                  env_ClientID := "otelfleet"; env_ClientSecret := "secret" |} ];
  reg_Cipher := None; reg_AdminEmails := [] |}.

Definition demo_request (query : string → string) (path : string) : LoginRequest :=
  {| lr_Path := "/auth/corp/" +:+ path; lr_Query := query; lr_Form := None |}.
Definition demo_start : lstate :=
  (serve_login demo_registry RouteStart (demo_request (λ _, "") "start")
     (Build_lstate demo_granted (∅ : gmap string string) ∅)).2.
Definition demo_callback : LoginRequest :=
  demo_request (λ k, if bool_decide (k = "state") then GetString (ls_sess demo_start) sessOIDCState
                     else if bool_decide (k = "code") then "code" else "") "callback".


#[local] Instance demo_session_laws : SessionLaws demo_SM.
Proof.
  split; simpl; intros.
  - case_bool_decide; simplify_eq; by simplify_map_eq.
  - case_bool_decide; simplify_eq; by simplify_map_eq.
  - by simplify_eq.
  - simplify_eq. done.
Qed.

Lemma demo_granted_consistent : consistent (λ _ _, None) (w_db demo_granted).
Proof.
  assert (Hempty : auth_providers (w_db demo_granted) = ∅) by (vm_compute; reflexivity).
  split; [constructor; (apply (bool_decide_unpack _); vm_compute; exact I)|].
  intros id p. rewrite Hempty. by rewrite lookup_empty.
Qed.

Lemma demo_start_run : run demo_registry (λ _ _, None) demo_start.
Proof. apply run_request, run_start, demo_granted_consistent. Qed.

Lemma sign_in_sound_witness :
  let s' := (serve_login demo_registry RouteCallback demo_callback demo_start).2 in
  GetString (ls_sess s') sessUserID ≠ GetString (ls_sess demo_start) sessUserID ∧
  ∃ info fingerprint subject email,
    configured demo_registry (w_db (ls_w demo_start)) (providerNameFromPath (lr_Path demo_callback)) =
      Some (info, fingerprint) ∧
    vouched demo_registry (ls_sess demo_start) demo_callback info subject email ∧
    bound_to (w_db (ls_w demo_start)) (w_db (ls_w s')) (IdentityKey info) subject email
      (GetString (ls_sess s') sessUserID).
Proof.
  assert (Hne : GetString (ls_sess (serve_login demo_registry RouteCallback demo_callback demo_start).2) sessUserID
    ≠ GetString (ls_sess demo_start) sessUserID) by (vm_compute; discriminate).
  split; [exact Hne|]. apply (sign_in_sound demo_registry (λ _ _, None)); [apply demo_start_run|exact Hne].
Defined.


(** A row "corp" that is switched off. *)
Definition demo_shadowed : lstate :=
  let row := {| nap_ID := 9; nap_Type := TypeOIDC; nap_Name := "corp"; nap_DisplayName := "Corp";
                nap_ClientID := "otelfleet"; nap_ClientSecretEnc := ""; nap_Issuer := Some "https://idp.example";
                nap_SAMLConfig := None; nap_Enabled := false |} in
  Build_lstate (CreateAuthProvider row [] demo_granted).2 (∅ : gmap string string) ∅.

Definition demo_listed : lstate := (LoginProviders demo_registry demo_shadowed).2.

Lemma demo_listed_page : (LoginProviders demo_registry demo_shadowed).1 = inl [{| lp_Name := "corp"; lp_DisplayName := "Corp" |}].
Proof. vm_compute. reflexivity. Qed.

Lemma demo_resolved_unknown : (Resolve demo_registry "corp" demo_listed).1 = inr ErrUnknownProvider.
Proof. vm_compute. reflexivity. Qed.

Lemma demo_shadowed_names : unique_names (w_db (ls_w demo_shadowed)).
Proof.
  intros name p q [[id Hp] _] [[id' Hq] _].
  assert (Hall : length (map_to_list (auth_providers (w_db (ls_w demo_shadowed)))) = 1) by (vm_compute; reflexivity).
  apply elem_of_map_to_list in Hp, Hq. destruct (map_to_list _) as [|x [|y l]]; [done| |done].
  apply list_elem_of_singleton in Hp, Hq. congruence.
Qed.

Lemma login_page_resolves_witness :
  "corp" ∈ lp_Name <$> [{| lp_Name := "corp"; lp_DisplayName := "Corp" |}] ∧
  (LoginProviders demo_registry demo_shadowed).1 = inl [{| lp_Name := "corp"; lp_DisplayName := "Corp" |}] ∧
  (Resolve demo_registry "corp" demo_listed).1 = inr ErrUnknownProvider ∧
  ("corp" ∈ env_Name <$> reg_Env demo_registry ∧
   ∃ p, row_named (w_db (ls_w demo_shadowed)) "corp" p ∧ ap_Enabled p = false).
Proof.
  assert (Hin : "corp" ∈ lp_Name <$> [{| lp_Name := "corp"; lp_DisplayName := "Corp" |}]) by (simpl; set_solver).
  split; [exact Hin|]. split; [exact demo_listed_page|]. split; [exact demo_resolved_unknown|].
  apply (login_page_resolves demo_registry "corp" demo_shadowed
    [{| lp_Name := "corp"; lp_DisplayName := "Corp" |}] demo_listed) with
    (s2 := (Resolve demo_registry "corp" demo_listed).2); [exact demo_shadowed_names| |exact Hin|].
  - rewrite <- demo_listed_page. apply surjective_pairing.
  - rewrite <- demo_resolved_unknown. apply surjective_pairing.
Defined.
