(* ===== verification/Workers.v ===== *)
(** * The background workers (internal/pgnotify, cmd/otelfleet/main.go)

    The OpAMP tier listens for edge-config notifications and pushes, flushes
    heartbeats and sweeps telemetry.  A worker is a function of the events it
    wakes up for; an event is what a [select] or a blocking call returned. *)
From S2P Require Import Prelude GoStrings GoTime Store World PgCore PgFleet PgMisc StoreInv OpAMP OpampHandler PipelineService Auth Telemetry Retention Config.

Module Workers.

(** Every event handled so far, or how the worker ended. *)
Inductive ended := Running | Returned | Panicked.
#[export] Instance ended_eq_dec : EqDecision ended.
Proof. solve_decision. Defined.

(** ** The notification listener (internal/pgnotify/pgnotify.go) *)

Definition first_backoff : Z := second.
Definition longer (backoff : Z) : Z := if (backoff <? 30 * second)%Z then (backoff * 2)%Z else backoff.

(** A connection was acquired and LISTENs; it, or the attempt to get it,
    failed; some session committed a NOTIFY; the context is over. *)
Inductive lev := Up | Down | Notified (payload : string) | Over.

(** Connecting with the wait that follows a failure, or listening. *)
Inductive lphase := Dialing | Listening | Stopped.
#[export] Instance lphase_eq_dec : EqDecision lphase.
Proof. solve_decision. Defined.
Record lstate := { ls_phase : lphase; ls_backoff : Z; ls_waits : list Z }.

Definition listener_start : lstate := {| ls_phase := Dialing; ls_backoff := first_backoff; ls_waits := [] |}.

(** The control of [Listen] and [listenOnce]: PostgreSQL gives a notification
    to the sessions that listen when it is sent, and [listenOnce] returns with
    an error only. *)
Definition lnext (s : lstate) (e : lev) : lstate :=
  match ls_phase s, e with
  | Stopped, _ => s
  | _, Over => {| ls_phase := Stopped; ls_backoff := ls_backoff s; ls_waits := ls_waits s |}
  | Dialing, Up => {| ls_phase := Listening; ls_backoff := ls_backoff s; ls_waits := ls_waits s |}
  | _, Down => {| ls_phase := Dialing; ls_backoff := longer (ls_backoff s);
                  ls_waits := ls_waits s ++ [ls_backoff s] |}
  | _, _ => s
  end.

Section Listen.
Context {St E : Type} (handle : string → M St E unit).

Fixpoint listen (s : lstate) (evs : list lev) : M St E lstate :=
  match evs with
  | [] => mret s
  | e :: evs' =>
    (match ls_phase s, e with Listening, Notified p => handle p | _, _ => mret tt end);;
    listen (lnext s e) evs'
  end.
Definition Listen (evs : list lev) : M St E lstate := listen listener_start evs.

End Listen.

(** The payloads that reach the handler: those sent while it listens. *)
Fixpoint delivered (s : lstate) (evs : list lev) : list string :=
  match evs with
  | [] => []
  | e :: evs' =>
    (match ls_phase s, e with Listening, Notified p => [p] | _, _ => [] end) ++ delivered (lnext s e) evs'
  end.

(** ** Pushing edge configurations (main.go) *)

Section Edge.
Context {ENV : Env} {PROTO : OpampProto} {TRANSPORT : Transport} {RENDER : ConfigRenderer} {UP : UuidParse}.

(** The handler the listener is given; a bad payload and a failed push are
    logged. *)
Definition edge_handler (payload : string) : H unit :=
  match uuid_Parse payload with
  | None => mret tt
  | Some cid => mtry (OpampHandler.EdgeConfigChanged cid);; mret tt
  end.

End Edge.

(** ** Periodic work *)

(** The timer or ticker fired, or the context is over. *)
Inductive wake := Fired | Cancelled.

Section Periodic.
Context {St : Type} (body : M St error unit).

(** The loop of a [select] on a ticker and the context. *)
Fixpoint ticks (evs : list wake) : M St error ended :=
  match evs with
  | [] => mret Running
  | Fired :: evs' => body;; ticks evs'
  | Cancelled :: _ => mret Returned
  end.

End Periodic.

Section Retention.
Context {ENV : Env} {CH : ClickHouse}.

(** [Service.Run] of internal/retention: the first sweep after the startup
    delay, then a ticker; [time.NewTicker] panics on an interval that is not
    positive. *)
Definition retention_Run (interval : Z) (evs : list wake) : M rworld error ended :=
  match evs with
  | [] => mret Running
  | Cancelled :: _ => mret Returned
  | Fired :: evs' =>
    RunOnce;;
    if (interval <=? 0)%Z then mret Panicked else ticks RunOnce evs'
  end.

End Retention.

Section Flush.
Context {ENV : Env}.

(** [Server.Run] of internal/opamp: a flush per tick and a last one when the
    context is over. *)
Fixpoint opamp_Run (evs : list wake) : H ended :=
  match evs with
  | [] => mret Running
  | Fired :: evs' => FlushSeen;; opamp_Run evs'
  | Cancelled :: _ => FlushSeen;; mret Returned
  end.

End Flush.

(** ** The listener *)

Section ListenProps.
Context {St E : Type} (handle : string → M St E unit).

(** Listening is handling what is delivered, in order. *)
Lemma listen_delivers s evs st :
  listen handle s evs st = (mfor (delivered s evs) handle;; mret (fold_left lnext evs s)) st.
Proof.
  revert s st. induction evs as [|e evs IH]; intros s st; [done|]. cbn [listen delivered fold_left].
  assert (Hskip : ∀ s, (mret tt;; listen handle s evs) st = (mfor (delivered s evs) handle;; mret (fold_left lnext evs s)) st)
    by (intros s'; unfold mbind, M_bind; apply IH).
  destruct (ls_phase s), e; try apply Hskip. cbn [app mfor]. unfold mbind, M_bind in *.
  destruct (handle payload st) as [[[]|e] st']; [|done]. apply IH.
Qed.

End ListenProps.

Definition after (evs : list lev) : lstate := fold_left lnext evs listener_start.

(** The wait before attempt [i + 1], in seconds. *)
Definition wait_secs (i : nat) : Z := Z.min (2 ^ Z.of_nat i) 32.

Lemma wait_secs_S i : longer (wait_secs i * second) = (wait_secs (S i) * second)%Z.
Proof.
  unfold longer, wait_secs. rewrite Nat2Z.inj_succ, Z.pow_succ_r by lia.
  destruct (Z.le_gt_cases (2 ^ Z.of_nat i) 16) as [Hle|Hgt].
  - rewrite !Z.min_l by lia. assert ((2 ^ Z.of_nat i * second <? 30 * second)%Z = true) as ->.
    { apply Z.ltb_lt. unfold second. lia. }
    unfold second. lia.
  - assert (H32 : (32 ≤ 2 ^ Z.of_nat i)%Z).
    { change 16%Z with (2 ^ 4)%Z in Hgt. apply Z.pow_lt_mono_r_iff in Hgt; [|lia..].
      change 32%Z with (2 ^ 5)%Z. apply Z.pow_le_mono_r; lia. }
    rewrite !Z.min_r by lia. done.
Qed.

Lemma after_backoff evs :
  ls_backoff (after evs) = (wait_secs (length (ls_waits (after evs))) * second)%Z ∧
  ls_waits (after evs) = (λ i, wait_secs i * second)%Z <$> seq 0 (length (ls_waits (after evs))).
Proof.
  induction evs as [|e evs [IHb IHw]] using rev_ind; [by vm_compute|].
  unfold after in *. rewrite fold_left_app. cbn [fold_left].
  set (s := fold_left lnext evs listener_start) in *. unfold lnext.
  assert (Hdown : let s' := {| ls_phase := Dialing; ls_backoff := longer (ls_backoff s);
                               ls_waits := ls_waits s ++ [ls_backoff s] |} in
    ls_backoff s' = (wait_secs (length (ls_waits s')) * second)%Z ∧
    ls_waits s' = (λ i, wait_secs i * second)%Z <$> seq 0 (length (ls_waits s'))).
  { cbn [ls_backoff ls_waits]. rewrite length_app, Nat.add_1_r, seq_S, fmap_app, <- IHw. split.
    - by rewrite IHb, wait_secs_S.
    - by rewrite IHb at 1. }
  destruct (ls_phase s), e; done.
Qed.

(** The wait only ever grows: however long a connection lived and whatever it
    delivered, the [i]-th reconnection waits [2 ^ i] seconds up to 32. *)
Theorem backoff_never_resets evs i w :
  ls_waits (after evs) !! i = Some w → w = (wait_secs i * second)%Z.
Proof.
  destruct (after_backoff evs) as [_ ->]. rewrite list_lookup_fmap. intros H.
  destruct (seq 0 _ !! i) as [j|] eqn:Hj; [|done]. apply lookup_seq in Hj as [-> _]. by injection H as <-.
Qed.

(** A notification sent between two connections is lost. *)
Example notification_lost :
  delivered listener_start [Up; Notified "a"; Down; Notified "b"; Up; Notified "c"] = ["a"; "c"].
Proof. reflexivity. Qed.

Section EdgeProps.
Context {ENV : Env} {PROTO : OpampProto} {TRANSPORT : Transport} {RENDER : ConfigRenderer}.
Context {UP : UuidParse} {UL : UuidLaws UP}.

(** The state after pushing the configurations of some customers. *)
Definition pushed (cids : list uuid) (s : hstate) : hstate :=
  fold_left (λ s cid, (OpampHandler.EdgeConfigChanged cid s).2) cids s.

Lemma edge_handler_pushes p s :
  edge_handler p s = (inl tt, pushed (option_list (uuid_Parse p)) s).
Proof.
  unfold edge_handler. destruct (uuid_Parse p) as [cid|]; [|done]. unfold mtry, mbind, M_bind. cbn.
  by destruct (OpampHandler.EdgeConfigChanged cid s) as [[|] ?].
Qed.

(** What the listener does to the agents is pushing to the customers whose
    notification it got, in the order they were sent. *)
Theorem listener_pushes evs s :
  (Listen edge_handler evs s).2 = pushed (omap uuid_Parse (delivered listener_start evs)) s ∧
  (Listen edge_handler evs s).1 = inl (after evs).
Proof.
  unfold Listen. rewrite listen_delivers. fold (after evs). generalize (delivered listener_start evs) as ps.
  induction ps as [|p ps IH] in s |- *; [done|]. cbn [mfor]. unfold mbind, M_bind in *.
  rewrite edge_handler_pushes. destruct (IH (pushed (option_list (uuid_Parse p)) s)) as [IH2 IH1].
  destruct (mfor ps edge_handler _) as [[[]|] s']; simpl in *; [|done]. split; [|done]. rewrite IH2.
  by destruct (uuid_Parse p).
Qed.

(** Changes announced by the API tier while the listener is connected are
    pushed.  Every customer [Notify] named in a run of notifications that no
    disconnection interrupts is pushed to exactly as the OpAMP server does it,
    once per notification and in order. *)
Theorem announced_changes_pushed cids s :
  Listen edge_handler (Up :: (Notified ∘ uuid_String <$> cids)) s =
    (inl (after [Up]), pushed cids s).
Proof.
  destruct (listener_pushes (Up :: (Notified ∘ uuid_String <$> cids)) s) as [H2 H1].
  assert (Hev : ∀ cids s, ls_phase s = Listening →
            delivered s (Notified ∘ uuid_String <$> cids) = uuid_String <$> cids ∧
            fold_left lnext (Notified ∘ uuid_String <$> cids) s = s).
  { clear. induction cids as [|c cids IH]; intros s Hs; [done|].
    assert (Hn : lnext s (Notified (uuid_String c)) = s) by (unfold lnext; by rewrite Hs).
    cbn [fmap list_fmap delivered fold_left compose]. rewrite Hn, Hs. destruct (IH s Hs) as [-> Hf]. done. }
  destruct (Hev cids (after [Up])) as [Hd Hf]; [done|].
  rewrite (surjective_pairing (Listen _ _ _)), H1, H2. f_equal.
  - f_equal. unfold after in *. exact Hf.
  - cbn [delivered]. change (lnext listener_start Up) with (after [Up]). rewrite Hd. cbn [listener_start ls_phase app].
    f_equal. clear - UL. induction cids as [|c cids IH]; [done|]. cbn. by rewrite Parse_String, IH.
Qed.

End EdgeProps.

(** ** The last flush *)

Lemma drain_clean r : (drainDirtySeen (drainDirtySeen r).2).1 = ∅.
Proof.
  unfold drainDirtySeen. cbn [fst snd]. set (d := λ st, ac_dirtySeen st && negb (bool_decide (ac_agentID st = 0%N))).
  match goal with |- foldl _ _ (rows ?t) = _ =>
    assert (Hd : ∀ st, st ∈ rows t → d st = false) end.
  { intros st (k & Hk)%elem_of_rows. cbn in Hk. apply lookup_fmap_Some in Hk as (st0 & <- & _).
    change (ac_dirtySeen st0 && _) with (d st0). destruct (d st0) eqn:Hs; [done|exact Hs]. }
  induction (rows _) as [|st l IH]; [done|]. cbn [foldl].
  change (ac_dirtySeen st && _) with (d st). rewrite Hd by left. apply IH. intros; apply Hd. by right.
Qed.

Section FlushProps.
Context {ENV : Env}.

Lemma FlushSeen_clean s : ∃ s', FlushSeen s = (inl tt, s') ∧ (drainDirtySeen (hs_reg s')).1 = ∅.
Proof.
  unfold FlushSeen, mbind at 1, M_bind. pose proof (drain_clean (hs_reg s)) as Hc.
  destruct (drainDirtySeen (hs_reg s)) as [seen r]. cbn [snd] in Hc. case_bool_decide.
  - eexists. split; [done|exact Hc].
  - unfold call_log, call_st, mbind, M_bind. destruct (TouchAgents seen _) as [x w].
    eexists. split; [done|exact Hc].
Qed.

(** A server that was told to stop has flushed every heartbeat. *)
Theorem opamp_Run_flushes evs s :
  Cancelled ∈ evs → ∃ s', opamp_Run evs s = (inl Returned, s') ∧ (drainDirtySeen (hs_reg s')).1 = ∅.
Proof.
  revert s. induction evs as [|e evs IH]; intros s Hin; [by apply elem_of_nil in Hin|].
  destruct (FlushSeen_clean s) as (s' & Hs & Hc). destruct e; cbn [opamp_Run]; unfold mbind, M_bind in *; rewrite Hs.
  - apply IH. by apply elem_of_cons in Hin as [?|].
  - eauto.
Qed.

End FlushProps.

(** ** The retention worker *)

Section RetentionProps.
Import Config.
Context {ENV : Env} {CH : ClickHouse} (unicode_print : N → bool).

Lemma RunOnce_total s : ∃ s', RunOnce s = (inl tt, s').
Proof.
  unfold RunOnce, mtry, on_store_, mbind, M_bind. destruct (ListCustomers _ _) as [[cs|e] w]; [|eauto].
  destruct (sweep_all_adds cs (s <| rw_w := w |>)) as (s' & Hs & _). eauto.
Qed.

Lemma ticks_no_panic evs s : (ticks RunOnce evs s).1 ≠ inl Panicked.
Proof.
  revert s. induction evs as [|[] evs IH]; intros s; [done| |done]. cbn [ticks].
  destruct (RunOnce_total s) as [s' Hs]. unfold mbind, M_bind. rewrite Hs. apply IH.
Qed.

(** The retention worker of a process with a loaded configuration panics,
    and the process with it, exactly if OTELFLEET_RETENTION_INTERVAL is set to
    nothing and the first sweep is due. *)
Theorem retention_panics_iff environ c evs s :
  Load unicode_print environ = inl c →
  (retention_Run (RetentionInterval c) evs s).1 = inl Panicked ↔
  environ !! "OTELFLEET_RETENTION_INTERVAL" = Some "" ∧ head evs = Some Fired.
Proof.
  intros Hload. assert (Hi : (RetentionInterval c <= 0)%Z ↔ environ !! "OTELFLEET_RETENTION_INTERVAL" = Some "").
  { unfold Load in Hload. repeat (case_bool_decide; [|done]). simpl in Hload.
    apply or_else_inl in Hload as (d & Hd & (? & _ & (? & _ & (? & _ & [= <-])%or_else_inl)%or_else_inl)%or_else_inl).
    cbn [RetentionInterval]. split.
    - destruct (load_interval_ok _ _ _ Hd) as [?|[_ ?]]; [unfold minute, second in *; lia|done].
    - intros He. unfold load_interval, env in Hd. change ("OTELFLEET_" +:+ "RETENTION_INTERVAL")
        with "OTELFLEET_RETENTION_INTERVAL" in Hd. rewrite He in Hd. simpl in Hd. by injection Hd as <-. }
  rewrite <- Hi. destruct evs as [|[] evs]; cbn [retention_Run head]; [naive_solver| |naive_solver].
  destruct (RunOnce_total s) as [s' Hs]. unfold mbind, M_bind. rewrite Hs.
  destruct (_ <=? 0)%Z eqn:Hle; [apply Z.leb_le in Hle; done|apply Z.leb_gt in Hle].
  split; [by intros ?%ticks_no_panic|lia].
Qed.

End RetentionProps.

End Workers.
