(* ===== verification/ApiProviders.v ===== *)
(** * Operations that consult the login registry or go out

    The sign-in providers on offer and their settings, the connectivity test
    of a provider (internal/auth/registry.go) and the test delivery of a
    webhook, behind the same Guard as the other operations. *)
From Stdlib Require Import Ascii.
From S2P Require Import Prelude GoStrings GoText Store World PgCore PgMisc Tokens Json PipelineGraph Crypto PipelineService Auth ApiTypes ApiGuard ApiHandlers ApiAdmin ApiRoutes ApiFrame ApiRoles Sso.

(** ** Outgoing requests

    [http.NewRequest] and a GET of the client with its 10 s limit: the status
    and the first JSON value of the body, or why there is none.
    [get_mismatch] is the decoder's error for a value of another type. *)
Class HTTPGet := {
  get_NewRequest : string → option error;
  get_Do : nat → string → (Z * (json + error)) + error;
  get_mismatch : json → error;
  get_Text : error → string;
}.

(** [uuid.NewSHA1] in the URL name space. *)
Class NameUUID := { NewSHA1_URL : string → uuid }.

Import Api.

Module Providers.

Section Connectivity.
Context {ENV : Env} {GET : HTTPGet} {CERT : X509} (unicode_print : N → bool).

Definition http_get (url : string) : Op ((Z * (json + error)) + string * error) :=
  match get_NewRequest url with
  | Some e => mret (inr ("build request: ", e))
  | None =>
    n ← tick;
    mret (match get_Do n url with inl r => inl r | inr e => inr ("", e) end)
  end.

(** The message of a request that failed; [what] is the client's part of it. *)
Definition get_failed (what : string) (e : string * error) : bool * string :=
  (false, (if bool_decide (e.1 = "") then what else e.1) +:+ get_Text e.2).

Definition doc_issuer (doc : json) : option string :=
  decode_struct [("issuer", decode_text)] "" doc.

Definition discovery_verdict (info : Sso.ProviderInfo) (wellKnown : string) (r : Z * (json + error)) : bool * string :=
  let '(status, body) := r in
  let invalid e := (false, "OIDC discovery document is not valid JSON: " +:+ get_Text e) in
  if negb (bool_decide (status = 200%Z))
  then (false, "OIDC discovery returned HTTP " +:+ Itoa status +:+ " for " +:+ wellKnown)
  else match body with
  | inr e => invalid e
  | inl doc =>
    match doc_issuer doc with
    | None => invalid (get_mismatch doc)
    | Some issuer =>
      let configured := Sso.pi_Issuer info in
      if bool_decide (issuer = TrimSuffix configured "/") || bool_decide (issuer = configured)
      then (true, "OIDC discovery OK, issuer matches")
      else if bool_decide (Sso.pi_Type info = TypeMicrosoft)
      then (true, "OIDC discovery OK; Microsoft multi-tenant endpoint advertises the tenanted issuer template "
                  +:+ Quote unicode_print issuer +:+ " (expected, validated per tenant at login)")
      else (false, "issuer mismatch: discovery document says " +:+ Quote unicode_print issuer
                   +:+ ", configured " +:+ Quote unicode_print configured)
    end
  end.

Definition TestProviderConnectivity (info : Sso.ProviderInfo) : Op (bool * string) :=
  if bool_decide (Sso.pi_Type info = TypeSAML) then
    match Sso.pi_SAML info with
    | None => mret (false, "SAML config missing")
    | Some c =>
      match ValidateSAMLConfig c with
      | Some e => mret (false, "SAML config invalid: " +:+ err_message e)
      | None =>
        r ← http_get (IDPSSOURL c);
        mret (match r with
              | inl (status, _) => (true, "config valid; IdP SSO URL reachable (HTTP " +:+ Itoa status +:+ ")")
              | inr e => get_failed "IdP SSO URL unreachable: " e
              end)
      end
    end
  else if bool_decide (Sso.pi_Type info = TypeGitHub) then
    r ← http_get "https://api.github.com/";
    mret (match r with
          | inl (status, _) =>
            if (500 <=? status)%Z then (false, "GitHub API returned HTTP " +:+ Itoa status)
            else (true, "GitHub API reachable")
          | inr e => get_failed "GitHub API unreachable: " e
          end)
  else
    let wellKnown := TrimSuffix (Sso.pi_Issuer info) "/" +:+ "/.well-known/openid-configuration" in
    r ← http_get wellKnown;
    mret (match r with
          | inl r => discovery_verdict info wellKnown r
          | inr e => get_failed "OIDC discovery failed: " e
          end).

End Connectivity.

(** ** Handlers *)

Inductive provider_op :=
  | OpListAuthProviders
  | OpListAuthProviderConfigs
  | OpTestAuthProviderConfig (providerId : uuid)
  | OpTestWebhook (webhookId : uuid).

Definition provider_route (op : provider_op) : string * string :=
  match op with
  | OpListAuthProviders => ("GET", "/api/v1/auth/providers")
  | OpListAuthProviderConfigs => ("GET", "/api/v1/settings/auth-providers")
  | OpTestAuthProviderConfig id => ("POST", below "settings/auth-providers" id "/test")
  | OpTestWebhook id => ("POST", below "settings/webhooks" id "/test")
  end.

Definition provider_request (op : provider_op) (authorization csrf : string) : Request := {|
  rq_Method := (provider_route op).1; rq_Path := (provider_route op).2;
  rq_Authorization := authorization; rq_CSRF := csrf |}.

Section Handlers.
Context {ENV : Env} {SM : SessionManager} {UP : UuidParse} {D : Type}.
Context {GET : HTTPGet} {UUID5 : NameUUID} {CERT : X509} {IDP : IdP}.
Context (unicode_print : N → bool) (cfg : ApiCfg) (reg : Sso.RegistryCfg) (webhooks : option WebhookTester).

Abbreviation H := (M (apistate D sess) herror).

(** The list of the login registry, which looks at no flow. *)
Definition registry_list : H (list Sso.LoginProvider + error) := λ s,
  call_store (λ w,
    let '(r, l) := Sso.LoginProviders reg (Sso.Build_lstate w (as_sess s) ∅) in (r, Sso.ls_w l)) s.

Definition ListAuthProviders : H response :=
  l ← must registry_list;
  Api.reply 200 (BAuthProviders
    ((λ p, (Sso.lp_Name p, Sso.lp_DisplayName p, "/auth/" +:+ Sso.lp_Name p +:+ "/start")) <$> l)
    (api_DevLogin cfg)).

Definition env_config (e : Sso.OIDCProvider) : AuthProviderConfig := {|
  apc_Id := NewSHA1_URL ("otelfleet:env-auth-provider:" +:+ Sso.env_Name e);
  apc_Type := TypeOIDC; apc_Name := Sso.env_Name e; apc_DisplayName := Sso.env_DisplayName e;
  apc_ClientId := Sso.env_ClientID e; apc_Issuer := Some (Sso.env_Issuer e); apc_Enabled := true;
  apc_Source := "environment"; apc_RedirectUri := RedirectURI (api_BaseURL cfg) (Sso.env_Name e);
  apc_CreatedAt := zero_time; apc_SAML := None |}.

Definition ListAuthProviderConfigs : H response :=
  l ← must (call_store (PgMisc.ListAuthProviders false));
  Api.reply 200 (BAuthProviderConfigs
    ((Admin.toAuthProviderConfig cfg <$> l) ++ (env_config <$> Sso.reg_Env reg))).

(** What the test looks at; the secret is not among it. *)
Definition tested_info (p : AuthProvider) : Sso.ProviderInfo := {|
  Sso.pi_Type := ap_Type p; Sso.pi_Name := ap_Name p; Sso.pi_DisplayName := "";
  Sso.pi_Issuer := Sso.EffectiveIssuer (ap_Type p) (default "" (ap_Issuer p));
  Sso.pi_ClientID := ""; Sso.pi_ClientSecret := "";
  Sso.pi_SAML := if bool_decide (ap_Type p = TypeSAML) then Some (saml_of_json (ap_SAMLConfig p)) else None |}.

Definition TestAuthProviderConfig (providerId : uuid) : H response :=
  Api.or_not_found "provider" (call_store (GetAuthProvider providerId)) (λ p,
    '(ok, message) ← must (call_store (TestProviderConnectivity unicode_print (tested_info p)));
    Api.reply 200 (BProviderTest ok message)).

Definition handle_providers (op : provider_op) : H response :=
  match op with
  | OpListAuthProviders => ListAuthProviders
  | OpListAuthProviderConfigs => ListAuthProviderConfigs
  | OpTestAuthProviderConfig id => TestAuthProviderConfig id
  | OpTestWebhook id => Admin.TestWebhook webhooks id
  end.

Definition serve_providers (op : provider_op) (authorization csrf : string) : H response :=
  Guard (λ _, handle_providers op) (provider_request op authorization csrf).

(** ** Nothing changes, and settings are the administrators' *)

Lemma readonly_TestProviderConnectivity info : readonly (TestProviderConnectivity unicode_print info).
Proof.
  unfold TestProviderConnectivity, http_get.
  repeat first [apply readonly_ret | done | apply readonly_bind; [|intros]
               | match goal with |- readonly (if ?b then _ else _) => destruct b end
               | match goal with |- readonly (match ?x with _ => _ end) => destruct x end].
Qed.

Lemma readonly_LoginProviders (se : sess) :
  readonly (λ w, let '(r, l) := Sso.LoginProviders reg (Sso.Build_lstate w se ∅) in (r, Sso.ls_w l)).
Proof.
  intros w. unfold Sso.LoginProviders, Sso.on_pg, Sso.on_session, with_world, mbind, M_bind. simpl.
  assert (Hro : readonly (PgMisc.ListAuthProviders true)) by apply readonly_query.
  specialize (Hro w). by destruct (PgMisc.ListAuthProviders true w) as [[l|e] w'].
Qed.

Abbreviation unchanged := (@on_api D sess eq).

Lemma unchanged_registry_list : steps unchanged registry_list.
Proof.
  intros s. unfold registry_list.
  apply (frame_call_store eq _ (tables_readonly eq _ (readonly_LoginProviders (as_sess s)))).
Qed.

Lemma unchanged_handle op :
  (∀ t wh, webhooks = Some t → readonly (wt_SendTest t wh)) → steps unchanged (handle_providers op).
Proof.
  intros Hw. destruct op; simpl;
    unfold ListAuthProviders, ListAuthProviderConfigs, TestAuthProviderConfig, Admin.TestWebhook.
  - apply steps_bind; [typeclasses eauto|apply frame_must, unchanged_registry_list; typeclasses eauto|intros].
    apply steps_ret; typeclasses eauto.
  - repeat frame_step. apply tables_readonly; [typeclasses eauto|apply readonly_query].
  - repeat frame_step; (apply tables_readonly; [typeclasses eauto|]);
      [apply readonly_GetAuthProvider|apply readonly_TestProviderConnectivity].
  - apply frame_or_not_found; [typeclasses eauto| |intros wh].
    + apply frame_call_store, tables_readonly; [typeclasses eauto|unfold GetWebhook; atomic_tac].
    + destruct webhooks as [t|] eqn:Ht; [|apply steps_ret; typeclasses eauto].
      apply steps_bind; [typeclasses eauto| |intros [ok msg]; apply steps_ret; typeclasses eauto].
      by apply frame_must, frame_call_store, tables_readonly, Hw; [typeclasses eauto..|].
Qed.

Lemma settings_admin_only path :
  (path = "/api/v1/settings/auth-providers" ∨ HasPrefix "/api/v1/settings/auth-providers/" path = true) →
  isAdminOnlyPath path = true.
Proof.
  intros Hp. apply existsb_exists. exists "/api/v1/settings/auth-providers". split; [simpl; auto|].
  apply orb_true_intro. destruct Hp as [->|Hp]; [left|right]; [by apply bool_decide_eq_true|done].
Qed.

Lemma guard_denies rq (s : apistate D sess) r s' status b :
  guard rq s = (inl (inl r), s') → r ≠ Success status b.
Proof.
  assert (Hret : ∀ (x : response + option Principal) s1,
    (mret x : H _) s1 = (inl (inl r), s') → (∀ q, x = inl q → q ≠ Success status b) → r ≠ Success status b).
  { intros x s1 [-> _]%ret_inl Hx. by apply Hx. }
  assert (Hdeny : ∀ st c m s1, (deny st c m : H (response + option Principal)) s1 = (inl (inl r), s') →
    r ≠ Success status b).
  { intros st c m s1 Hg. apply Hret in Hg; [done|]. by intros ? [= <-]. }
  intros Hg. unfold guard in Hg. case_bool_decide; [by apply (Hret _ _ Hg)|]. destruct (looksLikeAPIToken _).
  - unfold guard_token in Hg. apply bind_inl in Hg as (t & s1 & _ & Hg). destruct t as [[role cb]|]; [|by apply (Hdeny _ _ _ _ Hg)].
    destruct (requires_admin rq role); [by apply (Hdeny _ _ _ _ Hg)|].
    destruct (requires_operator rq role); [by apply (Hdeny _ _ _ _ Hg)|by apply (Hret _ _ Hg)].
  - unfold guard_session in Hg. apply bind_inl in Hg as (se & s1 & _ & Hg).
    destruct (UserID se) as [id|]; [|by apply (Hdeny _ _ _ _ Hg)]. apply bind_inl in Hg as (u & s2 & _ & Hg).
    destruct u as [user|e]; [|by destruct (Is _ _); apply (Hdeny _ _ _ _ Hg)].
    destruct (u_DisabledAt user); [by apply (Hdeny _ _ _ _ Hg)|]. simpl in Hg.
    destruct (requires_admin rq (u_Role user)); [by apply (Hdeny _ _ _ _ Hg)|].
    destruct (isMutating _ && _); [by apply (Hdeny _ _ _ _ Hg)|].
    destruct (requires_operator rq (u_Role user)); [by apply (Hdeny _ _ _ _ Hg)|].
    apply bind_inl in Hg as (csrf & s3 & _ & Hg). unfold with_scope in Hg.
    destruct (AtLeast _ _); [by apply (Hret _ _ Hg)|]. apply bind_inl in Hg as (g & s4 & _ & Hg).
    destruct g as [g|e]; [by apply (Hret _ _ Hg)|by apply (Hdeny _ _ _ _ Hg)].
Qed.

(** The four operations change no table.  The names on the login page are for
    everyone; the provider settings and their test answer administrators only,
    the test delivery of a webhook those who may change things. *)
Theorem provider_ops_guarded op authorization csrf (s : apistate D sess) :
  (∀ t wh, webhooks = Some t → readonly (wt_SendTest t wh)) →
  let rq := provider_request op authorization csrf in
  let res := serve_providers op authorization csrf s in
  tables res.2 = tables s ∧
  ∀ status b, res.1 = inl (Success status b) → op ≠ OpListAuthProviders →
    ∃ role, authenticated s rq role ∧
      match op with OpTestWebhook _ => CanMutate role = true | _ => role = RoleAdmin end.
Proof.
  intros Hw rq res. subst res. unfold serve_providers, Guard, mbind, M_bind. fold rq.
  pose proof (guard_changes_nothing rq s) as Hsame.
  destruct (guard rq s) as [[[denied|po]|e] s1] eqn:Hg; simpl; unfold on_api in Hsame; simpl in Hsame.
  - split; [done|]. intros status b [= ->] _.
    by eapply guard_denies in Hg.
  - split; [rewrite Hsame; symmetry; by apply (frame_ResponseErrorHandler eq), unchanged_handle|].
    intros status b _ Hop. apply guard_lets_through in Hg as [_ Hpo].
    destruct po as [p|].
    + destruct Hpo as (Hauth & Ha & Ho & _). exists (u_Role (pc_User p)). split; [done|].
      unfold requires_admin, requires_operator, rq, provider_request in *.
      cbn [rq_Path rq_Method] in *.
      destruct op; try done; cbn [provider_route fst snd] in *.
      * apply AtLeast_admin. rewrite settings_admin_only in Ha by (unfold below; by auto). by destruct (AtLeast _ _).
      * apply AtLeast_admin. rewrite settings_admin_only in Ha by (unfold below; by auto). by destruct (AtLeast _ _).
      * rewrite bool_decide_false in Ho by discriminate. by destruct (CanMutate _).
    + exfalso. unfold publicPaths in Hpo. rewrite !elem_of_cons, elem_of_nil in Hpo.
      destruct op; simpl in Hpo; try done; destruct Hpo as [Hp|[Hp|[]]]; discriminate Hp.
  - done.
Qed.

End Handlers.
End Providers.
