(* ===== verification/ApiHttp.v ===== *)
(** * Requests of the management API (internal/api/apigen, router.go, rawbody.go)

    From the bytes of a request to the operation it is: the routes
    HandlerWithOptions registers, the wrapper of each operation that binds its
    path and query parameters, the strict handler that decodes its body, and
    the middlewares in front of them (Guard, then captureRawBody), composed as
    NewRouter composes them.  [http_serves_operations] says that a request the
    router matches is denied by the Guard, refused with 400 before a handler
    ran, or served exactly as the operation it decodes to, so that what
    ApiRoles, ApiScope and TelemetryProps show of operations holds of requests.

    chi's matching, the parameter binding of oapi-codegen's runtime and
    encoding/json's reading of bytes are the classes [Mux], [OapiRuntime] and
    [JSONBytes]. *)
From Stdlib Require Import Ascii Floats.SpecFloat.
From S2P Require Import Prelude GoStrings Store World Tenants GoText Json JsonText Catalog PipelineGraph Render Validate PipelineService AuditLog Auth ApiTypes ApiGuard ApiHandlers ApiAdmin ApiRoutes Telemetry Stats ApiTelemetry Sso ApiProviders.

Module ApiHttp.
Import Api Providers.

(** ** Requests and routes *)

(** [hq_Path] and [hq_RawPath] are URL.Path and URL.RawPath; [hq_Body] the
    bytes of the body. *)
Record HTTPRequest := {
  hq_Method : string;
  hq_Path : string;
  hq_RawPath : string;
  hq_Query : list (string * list string);
  hq_Authorization : string;
  hq_CSRF : string;
  hq_Body : string;
}.
#[export] Instance eta_HTTPRequest : Eta HTTPRequest :=
  λ r, Build_HTTPRequest (hq_Method r) (hq_Path r) (hq_RawPath r) (hq_Query r)
    (hq_Authorization r) (hq_CSRF r) (hq_Body r).

(** What the Guard reads. *)
Definition guard_request (rq : HTTPRequest) : Request := {|
  rq_Method := hq_Method rq; rq_Path := hq_Path rq;
  rq_Authorization := hq_Authorization rq; rq_CSRF := hq_CSRF rq |}.

(** The path the router matches: the escaped one if there is one. *)
Definition route_path (rq : HTTPRequest) : string :=
  if bool_decide (hq_RawPath rq = "") then hq_Path rq else hq_RawPath rq.

Definition hex_value (a : ascii) : option N :=
  let n := code a in
  if ((48 <=? n) && (n <=? 57))%N then Some (n - 48)%N
  else if ((97 <=? n) && (n <=? 102))%N then Some (n - 87)%N
  else if ((65 <=? n) && (n <=? 70))%N then Some (n - 55)%N
  else None.

(** net/url's decoding of an escaped path. *)
Fixpoint unescape (s : string) : option string :=
  match s with
  | EmptyString => Some ""
  | String a s' =>
    if bool_decide (a = "%"%char) then
      match s' with
      | String h (String l s'') =>
        h ← hex_value h; l ← hex_value l; rest ← unescape s'';
        Some (String (ascii_of_N (16 * h + l)) rest)
      | _ => None
      end
    else String a <$> unescape s'
  end.

(** Path and RawPath of a parsed URL: RawPath is empty or an encoding of Path. *)
Definition url_ok (rq : HTTPRequest) : Prop :=
  hq_RawPath rq = "" ∨ unescape (hq_RawPath rq) = Some (hq_Path rq).

(** A route pattern: literal text and parameters in braces, each a run of
    characters other than the slash. *)
Inductive part := Lit (s : string) | Par (name : string).

Fixpoint span_until (c : ascii) (s : string) : string * string :=
  match s with
  | EmptyString => ("", "")
  | String a s' => if bool_decide (a = c) then ("", s)
                   else let '(x, y) := span_until c s' in (String a x, y)
  end.

Fixpoint parts_of (fuel : nat) (pattern : string) : list part :=
  match fuel, pattern with
  | O, _ | _, EmptyString => []
  | S n, _ =>
    let '(lit, rest) := span_until "{" pattern in
    Lit lit ::
    match rest with
    | EmptyString => []
    | String _ rest => let '(name, rest) := span_until "}" rest in
                       Par name :: parts_of n (TrimPrefix rest "}")
    end
  end.

(** A pattern has fewer parts than characters. *)
Definition pattern_parts (pattern : string) : list part := parts_of (S (String.length pattern)) pattern.

Fixpoint match_parts (ps : list part) (path : string) : option (list (string * string)) :=
  match ps with
  | [] => if bool_decide (path = "") then Some [] else None
  | Lit s :: ps' => if HasPrefix s path then match_parts ps' (TrimPrefix path s) else None
  | Par name :: ps' => let '(v, rest) := span_until "/" path in
                       cons (name, v) <$> match_parts ps' rest
  end.

(** chi: what it finds among the registered routes is one of the method whose
    pattern matches the path. *)
Inductive found := Matched (pattern : string) (params : list (string * string)) | BadMethod | NoMatch.
Class Mux := { mux_Find : list (string * string) → string → string → found }.
Class MuxLaws (MX : Mux) : Prop := {
  mux_sound routes method path pattern params :
    mux_Find routes method path = Matched pattern params →
    (method, pattern) ∈ routes ∧ match_parts (pattern_parts pattern) path = Some params;
}.

(** ** Parameters and bodies *)

(** The Go types of parameters. *)
Inductive ptype := PUuid | PString | PInt | PInt64 | PBool | PTime | PFloat32.
Definition pval (t : ptype) : Type :=
  match t with
  | PUuid => uuid
  | PString => string
  | PInt | PInt64 => Z
  | PBool => bool
  | PTime => time
  | PFloat32 => spec_float
  end.

Inductive query_error := RequiredParameterError | BindError (msg : string).

(** oapi-codegen's runtime: BindStyledParameterWithOptions,
    BindQueryParameterWithOptions and the Email type. *)
Class OapiRuntime := {
  BindStyled : ∀ t, string → string → pval t + string;
  BindQuery : ∀ t, string → list (string * list string) → option (pval t) + string;
  BindQueryRequired : ∀ t, string → list (string * list string) → pval t + query_error;
  Email_UnmarshalJSON : json → option string;
}.

(** encoding/json on bytes: the first value, the value when there is nothing
    else, what the decoding into a type complains about, and time.Time. *)
Class JSONBytes := {
  json_Decode : string → json + string;
  json_Unmarshal : string → option json;
  json_TypeError : string → string;
  time_UnmarshalJSON : string → option time;
}.
Class JSONBytesLaws (JB : JSONBytes) : Prop := {
  Unmarshal_Decode s v : json_Unmarshal s = Some v → json_Decode s = inl v;
}.

Section Decoders.
Context {UP : UuidParse} {RT : OapiRuntime} {JB : JSONBytes}.

Definition decode_int_opt (v : json) : option (option Z) :=
  match v with JNum lit => Some <$> ParseInt lit | JNull => Some None | _ => None end.
Definition decode_time_opt (v : json) : option (option time) :=
  match v with JStr s => Some <$> time_UnmarshalJSON s | JNull => Some None | _ => None end.
(** UUID has UnmarshalText, which null does not reach. *)
Definition decode_uuid (v : json) : option uuid :=
  match v with JStr s => uuid_Parse s | JNull => Some 0%N | _ => None end.
Definition decode_texts (v : json) : option (list string) := decode_list (decode_text "") (Some v).
(** Pointers to slices and maps. *)
Definition decode_opt {A} (dec : json → option A) (v : json) : option (option A) :=
  match v with JNull => Some None | _ => Some <$> dec v end.
(** A map takes the members over what it holds. *)
Fixpoint decode_map (t : gmap string string) (m : members) : option (gmap string string) :=
  match m with
  | [] => Some t
  | (k, v) :: m' => s ← decode_text "" v; decode_map (<[k := s]> t) m'
  end.
Definition decode_labels (old : option (gmap string string)) (v : json)
    : option (option (gmap string string)) :=
  match v with
  | JNull => Some None
  | JObj m => Some <$> decode_map (default ∅ old) m
  | _ => None
  end.

(** ** Request bodies *)

#[local] Instance eta_body_NewProvider : Eta Admin.NewProviderBody := λ r,
  Admin.Build_NewProviderBody (Admin.npb_Type r) (Admin.npb_Name r) (Admin.npb_DisplayName r)
    (Admin.npb_Enabled r) (Admin.npb_ClientId r) (Admin.npb_ClientSecret r) (Admin.npb_Issuer r)
    (Admin.npb_IdpEntityId r) (Admin.npb_IdpSsoUrl r) (Admin.npb_IdpCertificate r).
#[local] Instance eta_body_ProviderPatch : Eta Admin.ProviderPatch := λ r,
  Admin.Build_ProviderPatch (Admin.ppb_DisplayName r) (Admin.ppb_ClientId r) (Admin.ppb_ClientSecret r)
    (Admin.ppb_Issuer r) (Admin.ppb_Enabled r) (Admin.ppb_IdpEntityId r) (Admin.ppb_IdpSsoUrl r)
    (Admin.ppb_IdpCertificate r).
#[local] Instance eta_body_NewWebhook : Eta Admin.NewWebhookBody := λ r,
  Admin.Build_NewWebhookBody (Admin.nwb_Type r) (Admin.nwb_Name r) (Admin.nwb_Url r) (Admin.nwb_Events r)
    (Admin.nwb_Enabled r) (Admin.nwb_Secret r).
#[local] Instance eta_body_WebhookPatch : Eta Admin.WebhookPatch := λ r,
  Admin.Build_WebhookPatch (Admin.wpb_Type r) (Admin.wpb_Name r) (Admin.wpb_Url r) (Admin.wpb_Events r)
    (Admin.wpb_Enabled r) (Admin.wpb_Secret r).
#[local] Instance eta_body_Billing : Eta BillingSettingsUpdate := λ r,
  Build_BillingSettingsUpdate (bu_PricePerGiBMicro r) (bu_PricePerMillionItemsMicro r) (bu_Currency r).

(** The name of a member and how it is decoded over the value so far; bodies of a
    few fields are tuples. *)
Definition agent_update_fields : setters (option string * option (gmap string string)) :=
  [("displayName", λ b v, x ← decode_text_ptr v; Some (x, b.2));
   ("labels", λ b v, x ← decode_labels b.2 v; Some (b.1, x))].
Definition agent_update_body (v : json) : option (option string * option (gmap string string)) := decode_struct agent_update_fields (None, None) v.

Definition dev_login_fields : setters string :=
  [("email", λ b v, Email_UnmarshalJSON v)].
Definition dev_login_body (v : json) : option string := decode_struct dev_login_fields "" v.

Definition customer_create_fields : setters (string * option string) :=
  [("name", λ b v, x ← decode_text b.1 v; Some (x, b.2));
   ("slug", λ b v, x ← decode_text_ptr v; Some (b.1, x))].
Definition customer_create_body (v : json) : option (string * option string) := decode_struct customer_create_fields ("", None) v.

Definition customer_update_fields : setters (option string * option Z * option Z * option string) :=
  [("name", λ b v, x ← decode_text_ptr v; Some (x, b.1.1.2, b.1.2, b.2));
   ("rateLimitItemsPerSec", λ b v, x ← decode_int_opt v; Some (b.1.1.1, x, b.1.2, b.2));
   ("retentionDays", λ b v, x ← decode_int_opt v; Some (b.1.1.1, b.1.1.2, x, b.2));
   ("status", λ b v, x ← decode_text_ptr v; Some (b.1.1.1, b.1.1.2, b.1.2, x))].
Definition customer_update_body (v : json) : option (option string * option Z * option Z * option string) := decode_struct customer_update_fields (None, None, None, None) v.

Definition api_key_fields : setters (option time * string) :=
  [("expiresAt", λ b v, x ← decode_time_opt v; Some (x, b.2));
   ("name", λ b v, x ← decode_text b.2 v; Some (b.1, x))].
Definition api_key_body (v : json) : option (option time * string) := decode_struct api_key_fields (None, "") v.

Definition bootstrap_fields : setters (option time * option Z * string) :=
  [("expiresAt", λ b v, x ← decode_time_opt v; Some (x, b.1.2, b.2));
   ("maxUses", λ b v, x ← decode_int_opt v; Some (b.1.1, x, b.2));
   ("name", λ b v, x ← decode_text b.2 v; Some (b.1.1, b.1.2, x))].
Definition bootstrap_body (v : json) : option (option time * option Z * string) := decode_struct bootstrap_fields (None, None, "") v.

Definition no_graph : Graph := {| g_Signals := []; g_Processors := []; g_Exporters := [] |}.
Definition pipeline_create_fields : setters (Graph * string * option string) :=
  [("graph", λ b v, x ← decode_graph v; Some (x, b.1.2, b.2));
   ("name", λ b v, x ← decode_text b.1.2 v; Some (b.1.1, x, b.2));
   ("targetClass", λ b v, x ← decode_text_ptr v; Some (b.1.1, b.1.2, x))].
Definition pipeline_create_body (v : json) : option (Graph * string * option string) := decode_struct pipeline_create_fields (no_graph, "", None) v.

Definition pipeline_validate_fields : setters (Graph * option string) :=
  [("graph", λ b v, x ← decode_graph v; Some (x, b.2));
   ("targetClass", λ b v, x ← decode_text_ptr v; Some (b.1, x))].
Definition pipeline_validate_body (v : json) : option (Graph * option string) := decode_struct pipeline_validate_fields (no_graph, None) v.

Definition pipeline_version_fields : setters Graph :=
  [("graph", λ b v, decode_graph v)].
Definition pipeline_version_body (v : json) : option Graph := decode_struct pipeline_version_fields no_graph v.

Definition api_token_fields : setters (option time * string * string) :=
  [("expiresAt", λ b v, x ← decode_time_opt v; Some (x, b.1.2, b.2));
   ("name", λ b v, x ← decode_text b.1.2 v; Some (b.1.1, x, b.2));
   ("role", λ b v, x ← decode_text b.2 v; Some (b.1.1, b.1.2, x))].
Definition api_token_body (v : json) : option (option time * string * string) := decode_struct api_token_fields (None, "", "") v.

Definition user_invite_fields : setters (option (list uuid) * string * string) :=
  [("customerIds", λ b v, x ← decode_opt (λ v, decode_list decode_uuid (Some v)) v; Some (x, b.1.2, b.2));
   ("email", λ b v, x ← Email_UnmarshalJSON v; Some (b.1.1, x, b.2));
   ("role", λ b v, x ← decode_text b.2 v; Some (b.1.1, b.1.2, x))].
Definition user_invite_body (v : json) : option (option (list uuid) * string * string) := decode_struct user_invite_fields (None, "", "") v.

Definition user_update_fields : setters (option (list uuid) * option bool * option string) :=
  [("customerIds", λ b v, x ← decode_opt (λ v, decode_list decode_uuid (Some v)) v; Some (x, b.1.2, b.2));
   ("disabled", λ b v, x ← decode_bool_ptr v; Some (b.1.1, x, b.2));
   ("role", λ b v, x ← decode_text_ptr v; Some (b.1.1, b.1.2, x))].
Definition user_update_body (v : json) : option (option (list uuid) * option bool * option string) := decode_struct user_update_fields (None, None, None) v.

Definition billing_update_fields : setters BillingSettingsUpdate :=
  [("currency", λ b v, x ← decode_text_ptr v; Some (b <| bu_Currency := x |>));
   ("pricePerGibMicro", λ b v, x ← decode_int_opt v; Some (b <| bu_PricePerGiBMicro := x |>));
   ("pricePerMillionItemsMicro", λ b v, x ← decode_int_opt v; Some (b <| bu_PricePerMillionItemsMicro := x |>))].
Definition billing_update_body (v : json) : option BillingSettingsUpdate := decode_struct billing_update_fields (Build_BillingSettingsUpdate None None None) v.

Definition provider_create_fields : setters Admin.NewProviderBody :=
  [("clientId", λ b v, x ← decode_text_ptr v; Some (b <| Admin.npb_ClientId := x |>));
   ("clientSecret", λ b v, x ← decode_text_ptr v; Some (b <| Admin.npb_ClientSecret := x |>));
   ("displayName", λ b v, x ← decode_text (Admin.npb_DisplayName b) v; Some (b <| Admin.npb_DisplayName := x |>));
   ("enabled", λ b v, x ← decode_bool_ptr v; Some (b <| Admin.npb_Enabled := x |>));
   ("idpCertificate", λ b v, x ← decode_text_ptr v; Some (b <| Admin.npb_IdpCertificate := x |>));
   ("idpEntityId", λ b v, x ← decode_text_ptr v; Some (b <| Admin.npb_IdpEntityId := x |>));
   ("idpSsoUrl", λ b v, x ← decode_text_ptr v; Some (b <| Admin.npb_IdpSsoUrl := x |>));
   ("issuer", λ b v, x ← decode_text_ptr v; Some (b <| Admin.npb_Issuer := x |>));
   ("name", λ b v, x ← decode_text (Admin.npb_Name b) v; Some (b <| Admin.npb_Name := x |>));
   ("type", λ b v, x ← decode_text (Admin.npb_Type b) v; Some (b <| Admin.npb_Type := x |>))].
Definition provider_create_body (v : json) : option Admin.NewProviderBody := decode_struct provider_create_fields (Admin.Build_NewProviderBody "" "" "" None None None None None None None) v.

Definition provider_update_fields : setters Admin.ProviderPatch :=
  [("clientId", λ b v, x ← decode_text_ptr v; Some (b <| Admin.ppb_ClientId := x |>));
   ("clientSecret", λ b v, x ← decode_text_ptr v; Some (b <| Admin.ppb_ClientSecret := x |>));
   ("displayName", λ b v, x ← decode_text_ptr v; Some (b <| Admin.ppb_DisplayName := x |>));
   ("enabled", λ b v, x ← decode_bool_ptr v; Some (b <| Admin.ppb_Enabled := x |>));
   ("idpCertificate", λ b v, x ← decode_text_ptr v; Some (b <| Admin.ppb_IdpCertificate := x |>));
   ("idpEntityId", λ b v, x ← decode_text_ptr v; Some (b <| Admin.ppb_IdpEntityId := x |>));
   ("idpSsoUrl", λ b v, x ← decode_text_ptr v; Some (b <| Admin.ppb_IdpSsoUrl := x |>));
   ("issuer", λ b v, x ← decode_text_ptr v; Some (b <| Admin.ppb_Issuer := x |>))].
Definition provider_update_body (v : json) : option Admin.ProviderPatch := decode_struct provider_update_fields (Admin.Build_ProviderPatch None None None None None None None None) v.

Definition webhook_create_fields : setters Admin.NewWebhookBody :=
  [("enabled", λ b v, x ← decode_bool_ptr v; Some (b <| Admin.nwb_Enabled := x |>));
   ("events", λ b v, x ← decode_texts v; Some (b <| Admin.nwb_Events := x |>));
   ("name", λ b v, x ← decode_text (Admin.nwb_Name b) v; Some (b <| Admin.nwb_Name := x |>));
   ("secret", λ b v, x ← decode_text_ptr v; Some (b <| Admin.nwb_Secret := x |>));
   ("type", λ b v, x ← decode_text_ptr v; Some (b <| Admin.nwb_Type := x |>));
   ("url", λ b v, x ← decode_text (Admin.nwb_Url b) v; Some (b <| Admin.nwb_Url := x |>))].
Definition webhook_create_body (v : json) : option Admin.NewWebhookBody := decode_struct webhook_create_fields (Admin.Build_NewWebhookBody None "" "" [] None None) v.

Definition webhook_update_fields : setters Admin.WebhookPatch :=
  [("enabled", λ b v, x ← decode_bool_ptr v; Some (b <| Admin.wpb_Enabled := x |>));
   ("events", λ b v, x ← decode_opt decode_texts v; Some (b <| Admin.wpb_Events := x |>));
   ("name", λ b v, x ← decode_text_ptr v; Some (b <| Admin.wpb_Name := x |>));
   ("secret", λ b v, x ← decode_text_ptr v; Some (b <| Admin.wpb_Secret := x |>));
   ("type", λ b v, x ← decode_text_ptr v; Some (b <| Admin.wpb_Type := x |>));
   ("url", λ b v, x ← decode_text_ptr v; Some (b <| Admin.wpb_Url := x |>))].
Definition webhook_update_body (v : json) : option Admin.WebhookPatch := decode_struct webhook_update_fields (Admin.Build_WebhookPatch None None None None None None) v.

(** The keys of the raw body: a map takes them as they are spelled, and only
    when the whole body is one object. *)
Definition body_keys (raw : string) : list string :=
  match json_Unmarshal raw with Some (JObj m) => m.*1 | _ => [] end.

(** The decoded PATCH body of a customer with the keys of its raw body. *)
Definition customer_patch (raw : string) (b : option string * option Z * option Z * option string)
    : Api.CustomerPatch :=
  let '(name, rate, retention, status) := b in
  {| Api.cp_Name := name; Api.cp_Status := status; Api.cp_RateLimitItemsPerSec := rate;
     Api.cp_RetentionDays := retention;
     Api.quota_present := bool_decide ("rateLimitItemsPerSec" ∈ body_keys raw);
     Api.retention_present := bool_decide ("retentionDays" ∈ body_keys raw) |}.

End Decoders.

(** ** The handlers behind the router *)

(** An operation of one of the three route tables. *)
Inductive any_op :=
  | ApiOp (op : operation)
  | TelemetryOp (op : telemetry_op)
  | ProviderOp (op : provider_op).

Definition any_route (op : any_op) : string * string :=
  match op with
  | ApiOp op => route op
  | TelemetryOp op => ("GET", telemetry_path op)
  | ProviderOp op => provider_route op
  end.

(** captureRawBody (rawbody.go): the first MiB of a customer PATCH is its body. *)
Definition rawBodyLimit : Z := 1048576.

Fixpoint take_bytes (n : Z) (s : string) : string :=
  match s with
  | EmptyString => ""
  | String a s' => if (n <=? 0)%Z then "" else String a (take_bytes (n - 1) s')
  end.

Definition captureRawBody (rq : HTTPRequest) : HTTPRequest :=
  if bool_decide (hq_Method rq = "PATCH") && HasPrefix "/api/v1/customers/" (hq_Path rq)
  then rq <| hq_Body := take_bytes rawBodyLimit (hq_Body rq) |>
  else rq.

Section Handlers.
Context {ENV : Env} {SM : SessionManager} {UP : UuidParse} {D : Type} `{!Distributor D}.
Context {SCHEMA : JSONSchema} {YML : YAML} {COL : OtelCol} {NET : NetURL} {CERT : X509}.
Context {CH : ClickHouse} {VM : VictoriaMetrics}.
Context {GET : HTTPGet} {UUID5 : NameUUID} {IDP : IdP}.
Context {RT : OapiRuntime} {JB : JSONBytes}.
Context (unicode_print : N → bool) (cfg : ApiCfg) (reg : Sso.RegistryCfg) (webhooks : option WebhookTester).

Abbreviation HT := (M (tstate D sess) herror).

Definition handle_any (op : any_op) (p : option Principal) : HT response :=
  match op with
  | ApiOp op => lift_api (handle unicode_print cfg op p)
  | TelemetryOp op => handle_telemetry unicode_print op p
  | ProviderOp op => lift_api (handle_providers unicode_print cfg reg webhooks op)
  end.

(** The end of a strict handler: the server's operation, and its error. *)
Definition run (op : any_op) (p : option Principal) : HT response :=
  ResponseErrorHandler (handle_any op p).

(** RequestErrorHandlerFunc and the ErrorHandlerFunc of the wrappers. *)
Definition bad (msg : string) : HT response := mret (errResp 400 codeBadRequest msg).

Definition with_body {B} (dec : json → option B) (rq : HTTPRequest) (k : B → HT response) : HT response :=
  match json_Decode (hq_Body rq) with
  | inr e => bad ("can't decode JSON body: " +:+ e)
  | inl v =>
    match dec v with
    | Some b => k b
    | None => bad ("can't decode JSON body: " +:+ json_TypeError (hq_Body rq))
    end
  end.

(** InvalidParamFormatError and RequiredParamError. *)
Definition invalid_param (name msg : string) : HT response :=
  bad ("Invalid format for parameter " +:+ name +:+ ": " +:+ msg).
Definition required_param (name : string) : HT response :=
  bad ("Query argument " +:+ name +:+ " is required, but not found").

(** chi.URLParam. *)
Definition URLParam (ps : list (string * string)) (name : string) : string := default "" (member name ps).

Definition with_path (t : ptype) (name : string) (ps : list (string * string)) (k : pval t → HT response)
    : HT response :=
  match BindStyled t name (URLParam ps name) with
  | inl v => k v
  | inr e => invalid_param name e
  end.

Definition with_query (t : ptype) (name : string) (rq : HTTPRequest) (k : option (pval t) → HT response)
    : HT response :=
  match BindQuery t name (hq_Query rq) with
  | inl v => k v
  | inr e => invalid_param name e
  end.

Definition with_required (t : ptype) (name : string) (rq : HTTPRequest) (k : pval t → HT response)
    : HT response :=
  match BindQueryRequired t name (hq_Query rq) with
  | inl v => k v
  | inr RequiredParameterError => required_param name
  | inr (BindError e) => invalid_param name e
  end.

(** *** The strict handlers: body, then operation *)

Definition strict_ListAgents (class : option string) (customerId : option uuid) (connected : option bool) (p : option Principal) : HT response :=
  run (ApiOp (OpListAgents {| agf_Class := class; agf_CustomerID := customerId; agf_Connected := connected |})) p.
Definition strict_DeleteAgent (agentId : uuid) (p : option Principal) : HT response :=
  run (ApiOp (OpDeleteAgent agentId)) p.
Definition strict_GetAgent (agentId : uuid) (p : option Principal) : HT response :=
  run (ApiOp (OpGetAgent agentId)) p.
Definition strict_UpdateAgent (agentId : uuid) (rq : HTTPRequest) (p : option Principal) : HT response :=
  with_body agent_update_body rq (λ '(displayName, labels), run (ApiOp (OpUpdateAgent agentId displayName labels)) p).
Definition strict_GetAgentConfig (agentId : uuid) (p : option Principal) : HT response :=
  run (ApiOp (OpGetAgentConfig agentId)) p.
Definition strict_ListAgentEvents (agentId : uuid) (limit : option Z) (p : option Principal) : HT response :=
  run (ApiOp (OpListAgentEvents agentId limit)) p.
Definition strict_SyncAgent (agentId : uuid) (p : option Principal) : HT response :=
  run (ApiOp (OpSyncAgent agentId)) p.
Definition strict_ListAuditLog (action : option string) (entityType : option string) (customerId : option uuid) (actorUserId : option uuid) (from : option time) (to : option time) (limit : option Z) (beforeId : option Z) (p : option Principal) : HT response :=
  run (ApiOp (OpListAuditLog {| lp_Action := action; lp_EntityType := entityType; lp_CustomerId := customerId;
      lp_ActorUserId := actorUserId; lp_From := from; lp_To := to; lp_Limit := limit; lp_BeforeId := beforeId |})) p.
Definition strict_DevLogin (rq : HTTPRequest) (p : option Principal) : HT response :=
  with_body dev_login_body rq (λ email, run (ApiOp (OpDevLogin email)) p).
Definition strict_Logout (p : option Principal) : HT response :=
  run (ApiOp OpLogout) p.
Definition strict_ListAuthProviders (p : option Principal) : HT response :=
  run (ProviderOp OpListAuthProviders) p.
Definition strict_GetBillingStatement (month : string) (p : option Principal) : HT response :=
  run (TelemetryOp (OpGetBillingStatement month)) p.
Definition strict_GetComponentCatalog (p : option Principal) : HT response :=
  run (ApiOp OpGetComponentCatalog) p.
Definition strict_ListCustomers (status : option string) (p : option Principal) : HT response :=
  run (ApiOp (OpListCustomers status)) p.
Definition strict_CreateCustomer (rq : HTTPRequest) (p : option Principal) : HT response :=
  with_body customer_create_body rq (λ '(name, slug), run (ApiOp (OpCreateCustomer name slug)) p).
Definition strict_DeleteCustomer (customerId : uuid) (p : option Principal) : HT response :=
  run (ApiOp (OpDeleteCustomer customerId)) p.
Definition strict_GetCustomer (customerId : uuid) (p : option Principal) : HT response :=
  run (ApiOp (OpGetCustomer customerId)) p.
Definition strict_UpdateCustomer (customerId : uuid) (rq : HTTPRequest) (p : option Principal) : HT response :=
  with_body customer_update_body rq (λ b, run (ApiOp (OpUpdateCustomer customerId (customer_patch (hq_Body rq) b))) p).
Definition strict_ListApiKeys (customerId : uuid) (p : option Principal) : HT response :=
  run (ApiOp (OpListApiKeys customerId)) p.
Definition strict_CreateApiKey (customerId : uuid) (rq : HTTPRequest) (p : option Principal) : HT response :=
  with_body api_key_body rq (λ '(expiresAt, name), run (ApiOp (OpCreateApiKey customerId name expiresAt)) p).
Definition strict_RevokeApiKey (customerId : uuid) (keyId : uuid) (p : option Principal) : HT response :=
  run (ApiOp (OpRevokeApiKey customerId keyId)) p.
Definition strict_ListBootstrapTokens (customerId : uuid) (p : option Principal) : HT response :=
  run (ApiOp (OpListBootstrapTokens customerId)) p.
Definition strict_CreateBootstrapToken (customerId : uuid) (rq : HTTPRequest) (p : option Principal) : HT response :=
  with_body bootstrap_body rq (λ '(expiresAt, maxUses, name), run (ApiOp (OpCreateBootstrapToken customerId name expiresAt maxUses)) p).
Definition strict_RevokeBootstrapToken (customerId : uuid) (tokenId : uuid) (p : option Principal) : HT response :=
  run (ApiOp (OpRevokeBootstrapToken customerId tokenId)) p.
Definition strict_QueryLogs (customerId : uuid) (from : time) (to : time) (q : option string) (service : option string) (minSeverity : option Z) (limit : option Z) (before : option time) (p : option Principal) : HT response :=
  run (TelemetryOp (OpQueryLogs customerId {| ql_From := from; ql_To := to; ql_Q := q; ql_Service := service;
      ql_MinSeverity := minSeverity; ql_Limit := limit; ql_Before := before |})) p.
Definition strict_ListCustomerPipelines (customerId : uuid) (p : option Principal) : HT response :=
  run (ApiOp (OpListCustomerPipelines customerId)) p.
Definition strict_CreatePipeline (customerId : uuid) (rq : HTTPRequest) (p : option Principal) : HT response :=
  with_body pipeline_create_body rq (λ '(graph, name, targetClass), run (ApiOp (OpCreatePipeline customerId name targetClass graph)) p).
Definition strict_GetCustomerThroughput (customerId : uuid) (signal : option string) (from : time) (to : time) (step : option string) (p : option Principal) : HT response :=
  run (TelemetryOp (OpGetCustomerThroughput customerId {| tp_Signal := signal; tp_From := from; tp_To := to; tp_Step := step |})) p.
Definition strict_QueryTraces (customerId : uuid) (from : time) (to : time) (service : option string) (name : option string) (minDurationMs : option spec_float) (errorsOnly : option bool) (limit : option Z) (before : option time) (p : option Principal) : HT response :=
  run (TelemetryOp (OpQueryTraces customerId {| qt_From := from; qt_To := to; qt_Service := service; qt_Name := name;
      qt_MinDurationMs := minDurationMs; qt_ErrorsOnly := errorsOnly; qt_Limit := limit; qt_Before := before |})) p.
Definition strict_GetTrace (customerId : uuid) (traceId : string) (p : option Principal) : HT response :=
  run (TelemetryOp (OpGetTrace customerId traceId)) p.
Definition strict_GetMe (p : option Principal) : HT response :=
  run (ApiOp OpGetMe) p.
Definition strict_ListPipelines (p : option Principal) : HT response :=
  run (ApiOp OpListPipelines) p.
Definition strict_ValidatePipeline (rq : HTTPRequest) (p : option Principal) : HT response :=
  with_body pipeline_validate_body rq (λ '(graph, targetClass), run (ApiOp (OpValidatePipeline targetClass graph)) p).
Definition strict_DeletePipeline (pipelineId : uuid) (p : option Principal) : HT response :=
  run (ApiOp (OpDeletePipeline pipelineId)) p.
Definition strict_GetPipeline (pipelineId : uuid) (p : option Principal) : HT response :=
  run (ApiOp (OpGetPipeline pipelineId)) p.
Definition strict_GetPipelineStageStats (pipelineId : uuid) (from : time) (to : time) (p : option Principal) : HT response :=
  run (TelemetryOp (OpGetPipelineStageStats pipelineId from to)) p.
Definition strict_CreatePipelineVersion (pipelineId : uuid) (rq : HTTPRequest) (p : option Principal) : HT response :=
  with_body pipeline_version_body rq (λ graph, run (ApiOp (OpCreatePipelineVersion pipelineId graph)) p).
Definition strict_GetPipelineVersion (pipelineId : uuid) (version : Z) (p : option Principal) : HT response :=
  run (ApiOp (OpGetPipelineVersion pipelineId version)) p.
Definition strict_ActivatePipelineVersion (pipelineId : uuid) (version : Z) (p : option Principal) : HT response :=
  run (ApiOp (OpActivatePipelineVersion pipelineId version)) p.
Definition strict_ListApiTokens (p : option Principal) : HT response :=
  run (ApiOp OpListApiTokens) p.
Definition strict_CreateApiToken (rq : HTTPRequest) (p : option Principal) : HT response :=
  with_body api_token_body rq (λ '(expiresAt, name, role), run (ApiOp (OpCreateApiToken name role expiresAt)) p).
Definition strict_RevokeApiToken (tokenId : uuid) (p : option Principal) : HT response :=
  run (ApiOp (OpRevokeApiToken tokenId)) p.
Definition strict_ListAuthProviderConfigs (p : option Principal) : HT response :=
  run (ProviderOp OpListAuthProviderConfigs) p.
Definition strict_CreateAuthProviderConfig (rq : HTTPRequest) (p : option Principal) : HT response :=
  with_body provider_create_body rq (λ b, run (ApiOp (OpCreateAuthProviderConfig b)) p).
Definition strict_DeleteAuthProviderConfig (providerId : uuid) (p : option Principal) : HT response :=
  run (ApiOp (OpDeleteAuthProviderConfig providerId)) p.
Definition strict_UpdateAuthProviderConfig (providerId : uuid) (rq : HTTPRequest) (p : option Principal) : HT response :=
  with_body provider_update_body rq (λ b, run (ApiOp (OpUpdateAuthProviderConfig providerId b)) p).
Definition strict_TestAuthProviderConfig (providerId : uuid) (p : option Principal) : HT response :=
  run (ProviderOp (OpTestAuthProviderConfig providerId)) p.
Definition strict_GetBillingSettings (p : option Principal) : HT response :=
  run (ApiOp OpGetBillingSettings) p.
Definition strict_UpdateBillingSettings (rq : HTTPRequest) (p : option Principal) : HT response :=
  with_body billing_update_body rq (λ b, run (ApiOp (OpUpdateBillingSettings b)) p).
Definition strict_ListWebhooks (p : option Principal) : HT response :=
  run (ApiOp OpListWebhooks) p.
Definition strict_CreateWebhook (rq : HTTPRequest) (p : option Principal) : HT response :=
  with_body webhook_create_body rq (λ b, run (ApiOp (OpCreateWebhook b)) p).
Definition strict_DeleteWebhook (webhookId : uuid) (p : option Principal) : HT response :=
  run (ApiOp (OpDeleteWebhook webhookId)) p.
Definition strict_UpdateWebhook (webhookId : uuid) (rq : HTTPRequest) (p : option Principal) : HT response :=
  with_body webhook_update_body rq (λ b, run (ApiOp (OpUpdateWebhook webhookId b)) p).
Definition strict_TestWebhook (webhookId : uuid) (p : option Principal) : HT response :=
  run (ProviderOp (OpTestWebhook webhookId)) p.
Definition strict_GetCostStats (from : time) (to : time) (p : option Principal) : HT response :=
  run (TelemetryOp (OpGetCostStats from to)) p.
Definition strict_GetStatsOverview (from : time) (to : time) (p : option Principal) : HT response :=
  run (TelemetryOp (OpGetStatsOverview from to)) p.
Definition strict_ListUsers (p : option Principal) : HT response :=
  run (ApiOp OpListUsers) p.
Definition strict_InviteUser (rq : HTTPRequest) (p : option Principal) : HT response :=
  with_body user_invite_body rq (λ '(customerIds, email, role), run (ApiOp (OpInviteUser email role customerIds)) p).
Definition strict_DeleteUser (userId : uuid) (p : option Principal) : HT response :=
  run (ApiOp (OpDeleteUser userId)) p.
Definition strict_UpdateUser (userId : uuid) (rq : HTTPRequest) (p : option Principal) : HT response :=
  with_body user_update_body rq (λ '(customerIds, disabled, role), run (ApiOp (OpUpdateUser userId role disabled customerIds)) p).

(** *** The wrappers: path parameters, query parameters, then the strict handler *)

Definition wrap_ListAgents (ps : list (string * string)) (rq : HTTPRequest) (p : option Principal) : HT response :=
  with_query PString "class" rq (λ class,
  with_query PUuid "customerId" rq (λ customerId,
  with_query PBool "connected" rq (λ connected,
  strict_ListAgents class customerId connected p))).
Definition wrap_DeleteAgent (ps : list (string * string)) (rq : HTTPRequest) (p : option Principal) : HT response :=
  with_path PUuid "agentId" ps (λ agentId,
  strict_DeleteAgent agentId p).
Definition wrap_GetAgent (ps : list (string * string)) (rq : HTTPRequest) (p : option Principal) : HT response :=
  with_path PUuid "agentId" ps (λ agentId,
  strict_GetAgent agentId p).
Definition wrap_UpdateAgent (ps : list (string * string)) (rq : HTTPRequest) (p : option Principal) : HT response :=
  with_path PUuid "agentId" ps (λ agentId,
  strict_UpdateAgent agentId rq p).
Definition wrap_GetAgentConfig (ps : list (string * string)) (rq : HTTPRequest) (p : option Principal) : HT response :=
  with_path PUuid "agentId" ps (λ agentId,
  strict_GetAgentConfig agentId p).
Definition wrap_ListAgentEvents (ps : list (string * string)) (rq : HTTPRequest) (p : option Principal) : HT response :=
  with_path PUuid "agentId" ps (λ agentId,
  with_query PInt "limit" rq (λ limit,
  strict_ListAgentEvents agentId limit p)).
Definition wrap_SyncAgent (ps : list (string * string)) (rq : HTTPRequest) (p : option Principal) : HT response :=
  with_path PUuid "agentId" ps (λ agentId,
  strict_SyncAgent agentId p).
Definition wrap_ListAuditLog (ps : list (string * string)) (rq : HTTPRequest) (p : option Principal) : HT response :=
  with_query PString "action" rq (λ action,
  with_query PString "entityType" rq (λ entityType,
  with_query PUuid "customerId" rq (λ customerId,
  with_query PUuid "actorUserId" rq (λ actorUserId,
  with_query PTime "from" rq (λ from,
  with_query PTime "to" rq (λ to,
  with_query PInt "limit" rq (λ limit,
  with_query PInt64 "beforeId" rq (λ beforeId,
  strict_ListAuditLog action entityType customerId actorUserId from to limit beforeId p)))))))).
Definition wrap_DevLogin (ps : list (string * string)) (rq : HTTPRequest) (p : option Principal) : HT response :=
  strict_DevLogin rq p.
Definition wrap_Logout (ps : list (string * string)) (rq : HTTPRequest) (p : option Principal) : HT response :=
  strict_Logout p.
Definition wrap_ListAuthProviders (ps : list (string * string)) (rq : HTTPRequest) (p : option Principal) : HT response :=
  strict_ListAuthProviders p.
Definition wrap_GetBillingStatement (ps : list (string * string)) (rq : HTTPRequest) (p : option Principal) : HT response :=
  with_required PString "month" rq (λ month,
  strict_GetBillingStatement month p).
Definition wrap_GetComponentCatalog (ps : list (string * string)) (rq : HTTPRequest) (p : option Principal) : HT response :=
  strict_GetComponentCatalog p.
Definition wrap_ListCustomers (ps : list (string * string)) (rq : HTTPRequest) (p : option Principal) : HT response :=
  with_query PString "status" rq (λ status,
  strict_ListCustomers status p).
Definition wrap_CreateCustomer (ps : list (string * string)) (rq : HTTPRequest) (p : option Principal) : HT response :=
  strict_CreateCustomer rq p.
Definition wrap_DeleteCustomer (ps : list (string * string)) (rq : HTTPRequest) (p : option Principal) : HT response :=
  with_path PUuid "customerId" ps (λ customerId,
  strict_DeleteCustomer customerId p).
Definition wrap_GetCustomer (ps : list (string * string)) (rq : HTTPRequest) (p : option Principal) : HT response :=
  with_path PUuid "customerId" ps (λ customerId,
  strict_GetCustomer customerId p).
Definition wrap_UpdateCustomer (ps : list (string * string)) (rq : HTTPRequest) (p : option Principal) : HT response :=
  with_path PUuid "customerId" ps (λ customerId,
  strict_UpdateCustomer customerId rq p).
Definition wrap_ListApiKeys (ps : list (string * string)) (rq : HTTPRequest) (p : option Principal) : HT response :=
  with_path PUuid "customerId" ps (λ customerId,
  strict_ListApiKeys customerId p).
Definition wrap_CreateApiKey (ps : list (string * string)) (rq : HTTPRequest) (p : option Principal) : HT response :=
  with_path PUuid "customerId" ps (λ customerId,
  strict_CreateApiKey customerId rq p).
Definition wrap_RevokeApiKey (ps : list (string * string)) (rq : HTTPRequest) (p : option Principal) : HT response :=
  with_path PUuid "customerId" ps (λ customerId,
  with_path PUuid "keyId" ps (λ keyId,
  strict_RevokeApiKey customerId keyId p)).
Definition wrap_ListBootstrapTokens (ps : list (string * string)) (rq : HTTPRequest) (p : option Principal) : HT response :=
  with_path PUuid "customerId" ps (λ customerId,
  strict_ListBootstrapTokens customerId p).
Definition wrap_CreateBootstrapToken (ps : list (string * string)) (rq : HTTPRequest) (p : option Principal) : HT response :=
  with_path PUuid "customerId" ps (λ customerId,
  strict_CreateBootstrapToken customerId rq p).
Definition wrap_RevokeBootstrapToken (ps : list (string * string)) (rq : HTTPRequest) (p : option Principal) : HT response :=
  with_path PUuid "customerId" ps (λ customerId,
  with_path PUuid "tokenId" ps (λ tokenId,
  strict_RevokeBootstrapToken customerId tokenId p)).
Definition wrap_QueryLogs (ps : list (string * string)) (rq : HTTPRequest) (p : option Principal) : HT response :=
  with_path PUuid "customerId" ps (λ customerId,
  with_required PTime "from" rq (λ from,
  with_required PTime "to" rq (λ to,
  with_query PString "q" rq (λ q,
  with_query PString "service" rq (λ service,
  with_query PInt "minSeverity" rq (λ minSeverity,
  with_query PInt "limit" rq (λ limit,
  with_query PTime "before" rq (λ before,
  strict_QueryLogs customerId from to q service minSeverity limit before p)))))))).
Definition wrap_ListCustomerPipelines (ps : list (string * string)) (rq : HTTPRequest) (p : option Principal) : HT response :=
  with_path PUuid "customerId" ps (λ customerId,
  strict_ListCustomerPipelines customerId p).
Definition wrap_CreatePipeline (ps : list (string * string)) (rq : HTTPRequest) (p : option Principal) : HT response :=
  with_path PUuid "customerId" ps (λ customerId,
  strict_CreatePipeline customerId rq p).
Definition wrap_GetCustomerThroughput (ps : list (string * string)) (rq : HTTPRequest) (p : option Principal) : HT response :=
  with_path PUuid "customerId" ps (λ customerId,
  with_query PString "signal" rq (λ signal,
  with_required PTime "from" rq (λ from,
  with_required PTime "to" rq (λ to,
  with_query PString "step" rq (λ step,
  strict_GetCustomerThroughput customerId signal from to step p))))).
Definition wrap_QueryTraces (ps : list (string * string)) (rq : HTTPRequest) (p : option Principal) : HT response :=
  with_path PUuid "customerId" ps (λ customerId,
  with_required PTime "from" rq (λ from,
  with_required PTime "to" rq (λ to,
  with_query PString "service" rq (λ service,
  with_query PString "name" rq (λ name,
  with_query PFloat32 "minDurationMs" rq (λ minDurationMs,
  with_query PBool "errorsOnly" rq (λ errorsOnly,
  with_query PInt "limit" rq (λ limit,
  with_query PTime "before" rq (λ before,
  strict_QueryTraces customerId from to service name minDurationMs errorsOnly limit before p))))))))).
Definition wrap_GetTrace (ps : list (string * string)) (rq : HTTPRequest) (p : option Principal) : HT response :=
  with_path PUuid "customerId" ps (λ customerId,
  with_path PString "traceId" ps (λ traceId,
  strict_GetTrace customerId traceId p)).
Definition wrap_GetMe (ps : list (string * string)) (rq : HTTPRequest) (p : option Principal) : HT response :=
  strict_GetMe p.
Definition wrap_ListPipelines (ps : list (string * string)) (rq : HTTPRequest) (p : option Principal) : HT response :=
  strict_ListPipelines p.
Definition wrap_ValidatePipeline (ps : list (string * string)) (rq : HTTPRequest) (p : option Principal) : HT response :=
  strict_ValidatePipeline rq p.
Definition wrap_DeletePipeline (ps : list (string * string)) (rq : HTTPRequest) (p : option Principal) : HT response :=
  with_path PUuid "pipelineId" ps (λ pipelineId,
  strict_DeletePipeline pipelineId p).
Definition wrap_GetPipeline (ps : list (string * string)) (rq : HTTPRequest) (p : option Principal) : HT response :=
  with_path PUuid "pipelineId" ps (λ pipelineId,
  strict_GetPipeline pipelineId p).
Definition wrap_GetPipelineStageStats (ps : list (string * string)) (rq : HTTPRequest) (p : option Principal) : HT response :=
  with_path PUuid "pipelineId" ps (λ pipelineId,
  with_required PTime "from" rq (λ from,
  with_required PTime "to" rq (λ to,
  strict_GetPipelineStageStats pipelineId from to p))).
Definition wrap_CreatePipelineVersion (ps : list (string * string)) (rq : HTTPRequest) (p : option Principal) : HT response :=
  with_path PUuid "pipelineId" ps (λ pipelineId,
  strict_CreatePipelineVersion pipelineId rq p).
Definition wrap_GetPipelineVersion (ps : list (string * string)) (rq : HTTPRequest) (p : option Principal) : HT response :=
  with_path PUuid "pipelineId" ps (λ pipelineId,
  with_path PInt "version" ps (λ version,
  strict_GetPipelineVersion pipelineId version p)).
Definition wrap_ActivatePipelineVersion (ps : list (string * string)) (rq : HTTPRequest) (p : option Principal) : HT response :=
  with_path PUuid "pipelineId" ps (λ pipelineId,
  with_path PInt "version" ps (λ version,
  strict_ActivatePipelineVersion pipelineId version p)).
Definition wrap_ListApiTokens (ps : list (string * string)) (rq : HTTPRequest) (p : option Principal) : HT response :=
  strict_ListApiTokens p.
Definition wrap_CreateApiToken (ps : list (string * string)) (rq : HTTPRequest) (p : option Principal) : HT response :=
  strict_CreateApiToken rq p.
Definition wrap_RevokeApiToken (ps : list (string * string)) (rq : HTTPRequest) (p : option Principal) : HT response :=
  with_path PUuid "tokenId" ps (λ tokenId,
  strict_RevokeApiToken tokenId p).
Definition wrap_ListAuthProviderConfigs (ps : list (string * string)) (rq : HTTPRequest) (p : option Principal) : HT response :=
  strict_ListAuthProviderConfigs p.
Definition wrap_CreateAuthProviderConfig (ps : list (string * string)) (rq : HTTPRequest) (p : option Principal) : HT response :=
  strict_CreateAuthProviderConfig rq p.
Definition wrap_DeleteAuthProviderConfig (ps : list (string * string)) (rq : HTTPRequest) (p : option Principal) : HT response :=
  with_path PUuid "providerId" ps (λ providerId,
  strict_DeleteAuthProviderConfig providerId p).
Definition wrap_UpdateAuthProviderConfig (ps : list (string * string)) (rq : HTTPRequest) (p : option Principal) : HT response :=
  with_path PUuid "providerId" ps (λ providerId,
  strict_UpdateAuthProviderConfig providerId rq p).
Definition wrap_TestAuthProviderConfig (ps : list (string * string)) (rq : HTTPRequest) (p : option Principal) : HT response :=
  with_path PUuid "providerId" ps (λ providerId,
  strict_TestAuthProviderConfig providerId p).
Definition wrap_GetBillingSettings (ps : list (string * string)) (rq : HTTPRequest) (p : option Principal) : HT response :=
  strict_GetBillingSettings p.
Definition wrap_UpdateBillingSettings (ps : list (string * string)) (rq : HTTPRequest) (p : option Principal) : HT response :=
  strict_UpdateBillingSettings rq p.
Definition wrap_ListWebhooks (ps : list (string * string)) (rq : HTTPRequest) (p : option Principal) : HT response :=
  strict_ListWebhooks p.
Definition wrap_CreateWebhook (ps : list (string * string)) (rq : HTTPRequest) (p : option Principal) : HT response :=
  strict_CreateWebhook rq p.
Definition wrap_DeleteWebhook (ps : list (string * string)) (rq : HTTPRequest) (p : option Principal) : HT response :=
  with_path PUuid "webhookId" ps (λ webhookId,
  strict_DeleteWebhook webhookId p).
Definition wrap_UpdateWebhook (ps : list (string * string)) (rq : HTTPRequest) (p : option Principal) : HT response :=
  with_path PUuid "webhookId" ps (λ webhookId,
  strict_UpdateWebhook webhookId rq p).
Definition wrap_TestWebhook (ps : list (string * string)) (rq : HTTPRequest) (p : option Principal) : HT response :=
  with_path PUuid "webhookId" ps (λ webhookId,
  strict_TestWebhook webhookId p).
Definition wrap_GetCostStats (ps : list (string * string)) (rq : HTTPRequest) (p : option Principal) : HT response :=
  with_required PTime "from" rq (λ from,
  with_required PTime "to" rq (λ to,
  strict_GetCostStats from to p)).
Definition wrap_GetStatsOverview (ps : list (string * string)) (rq : HTTPRequest) (p : option Principal) : HT response :=
  with_required PTime "from" rq (λ from,
  with_required PTime "to" rq (λ to,
  strict_GetStatsOverview from to p)).
Definition wrap_ListUsers (ps : list (string * string)) (rq : HTTPRequest) (p : option Principal) : HT response :=
  strict_ListUsers p.
Definition wrap_InviteUser (ps : list (string * string)) (rq : HTTPRequest) (p : option Principal) : HT response :=
  strict_InviteUser rq p.
Definition wrap_DeleteUser (ps : list (string * string)) (rq : HTTPRequest) (p : option Principal) : HT response :=
  with_path PUuid "userId" ps (λ userId,
  strict_DeleteUser userId p).
Definition wrap_UpdateUser (ps : list (string * string)) (rq : HTTPRequest) (p : option Principal) : HT response :=
  with_path PUuid "userId" ps (λ userId,
  strict_UpdateUser userId rq p).

(** ** The router *)

(** HandlerWithOptions, in its order. *)
Definition routes : list (string * string * (list (string * string) → HTTPRequest → option Principal → HT response)) :=
  [("GET", "/api/v1/agents", wrap_ListAgents);
   ("DELETE", "/api/v1/agents/{agentId}", wrap_DeleteAgent);
   ("GET", "/api/v1/agents/{agentId}", wrap_GetAgent);
   ("PATCH", "/api/v1/agents/{agentId}", wrap_UpdateAgent);
   ("GET", "/api/v1/agents/{agentId}/config", wrap_GetAgentConfig);
   ("GET", "/api/v1/agents/{agentId}/events", wrap_ListAgentEvents);
   ("POST", "/api/v1/agents/{agentId}/sync", wrap_SyncAgent);
   ("GET", "/api/v1/audit", wrap_ListAuditLog);
   ("POST", "/api/v1/auth/dev-login", wrap_DevLogin);
   ("POST", "/api/v1/auth/logout", wrap_Logout);
   ("GET", "/api/v1/auth/providers", wrap_ListAuthProviders);
   ("GET", "/api/v1/billing/statement", wrap_GetBillingStatement);
   ("GET", "/api/v1/catalog/components", wrap_GetComponentCatalog);
   ("GET", "/api/v1/customers", wrap_ListCustomers);
   ("POST", "/api/v1/customers", wrap_CreateCustomer);
   ("DELETE", "/api/v1/customers/{customerId}", wrap_DeleteCustomer);
   ("GET", "/api/v1/customers/{customerId}", wrap_GetCustomer);
   ("PATCH", "/api/v1/customers/{customerId}", wrap_UpdateCustomer);
   ("GET", "/api/v1/customers/{customerId}/api-keys", wrap_ListApiKeys);
   ("POST", "/api/v1/customers/{customerId}/api-keys", wrap_CreateApiKey);
   ("DELETE", "/api/v1/customers/{customerId}/api-keys/{keyId}", wrap_RevokeApiKey);
   ("GET", "/api/v1/customers/{customerId}/bootstrap-tokens", wrap_ListBootstrapTokens);
   ("POST", "/api/v1/customers/{customerId}/bootstrap-tokens", wrap_CreateBootstrapToken);
   ("DELETE", "/api/v1/customers/{customerId}/bootstrap-tokens/{tokenId}", wrap_RevokeBootstrapToken);
   ("GET", "/api/v1/customers/{customerId}/logs", wrap_QueryLogs);
   ("GET", "/api/v1/customers/{customerId}/pipelines", wrap_ListCustomerPipelines);
   ("POST", "/api/v1/customers/{customerId}/pipelines", wrap_CreatePipeline);
   ("GET", "/api/v1/customers/{customerId}/stats/throughput", wrap_GetCustomerThroughput);
   ("GET", "/api/v1/customers/{customerId}/traces", wrap_QueryTraces);
   ("GET", "/api/v1/customers/{customerId}/traces/{traceId}", wrap_GetTrace);
   ("GET", "/api/v1/me", wrap_GetMe);
   ("GET", "/api/v1/pipelines", wrap_ListPipelines);
   ("POST", "/api/v1/pipelines/validate", wrap_ValidatePipeline);
   ("DELETE", "/api/v1/pipelines/{pipelineId}", wrap_DeletePipeline);
   ("GET", "/api/v1/pipelines/{pipelineId}", wrap_GetPipeline);
   ("GET", "/api/v1/pipelines/{pipelineId}/stats/stages", wrap_GetPipelineStageStats);
   ("POST", "/api/v1/pipelines/{pipelineId}/versions", wrap_CreatePipelineVersion);
   ("GET", "/api/v1/pipelines/{pipelineId}/versions/{version}", wrap_GetPipelineVersion);
   ("POST", "/api/v1/pipelines/{pipelineId}/versions/{version}/activate", wrap_ActivatePipelineVersion);
   ("GET", "/api/v1/settings/api-tokens", wrap_ListApiTokens);
   ("POST", "/api/v1/settings/api-tokens", wrap_CreateApiToken);
   ("DELETE", "/api/v1/settings/api-tokens/{tokenId}", wrap_RevokeApiToken);
   ("GET", "/api/v1/settings/auth-providers", wrap_ListAuthProviderConfigs);
   ("POST", "/api/v1/settings/auth-providers", wrap_CreateAuthProviderConfig);
   ("DELETE", "/api/v1/settings/auth-providers/{providerId}", wrap_DeleteAuthProviderConfig);
   ("PATCH", "/api/v1/settings/auth-providers/{providerId}", wrap_UpdateAuthProviderConfig);
   ("POST", "/api/v1/settings/auth-providers/{providerId}/test", wrap_TestAuthProviderConfig);
   ("GET", "/api/v1/settings/billing", wrap_GetBillingSettings);
   ("PUT", "/api/v1/settings/billing", wrap_UpdateBillingSettings);
   ("GET", "/api/v1/settings/webhooks", wrap_ListWebhooks);
   ("POST", "/api/v1/settings/webhooks", wrap_CreateWebhook);
   ("DELETE", "/api/v1/settings/webhooks/{webhookId}", wrap_DeleteWebhook);
   ("PATCH", "/api/v1/settings/webhooks/{webhookId}", wrap_UpdateWebhook);
   ("POST", "/api/v1/settings/webhooks/{webhookId}/test", wrap_TestWebhook);
   ("GET", "/api/v1/stats/cost", wrap_GetCostStats);
   ("GET", "/api/v1/stats/overview", wrap_GetStatsOverview);
   ("GET", "/api/v1/users", wrap_ListUsers);
   ("POST", "/api/v1/users", wrap_InviteUser);
   ("DELETE", "/api/v1/users/{userId}", wrap_DeleteUser);
   ("PATCH", "/api/v1/users/{userId}", wrap_UpdateUser)].

(** What a request gets: an answer of the API, or what the router gives a
    method the path does not have, and a path no route has: the web interface
    or 404 (spaHandler). *)
Inductive answer :=
  | Answered (r : response)
  | MethodNotAllowed
  | NoSuchEndpoint
  | WebInterface.

Context {MX : Mux}.

(** The group of NewRouter: route, Guard, captureRawBody, wrapper. *)
Definition http_serve (rq : HTTPRequest) : HT answer :=
  match mux_Find routes.*1 (hq_Method rq) (route_path rq) with
  | BadMethod => mret MethodNotAllowed
  | NoMatch => mret (if HasPrefix "/api/" (hq_Path rq) then NoSuchEndpoint else WebInterface)
  | Matched pattern ps =>
    match find (λ r, bool_decide (r.1 = (hq_Method rq, pattern))) routes with
    | None => mret NoSuchEndpoint
    | Some (_, wrapper) =>
      r ← lift_api (guard (guard_request rq));
      match r with
      | inl denied => mret (Answered denied)
      | inr p => a ← wrapper ps (captureRawBody rq) p; mret (Answered a)
      end
    end
  end.

(** ** Operations *)

Definition any_request (op : any_op) (authorization csrf : string) : Request := {|
  rq_Method := (any_route op).1; rq_Path := (any_route op).2;
  rq_Authorization := authorization; rq_CSRF := csrf |}.

(** The guarded server of an operation's table. *)
Definition serve_any (op : any_op) (authorization csrf : string) : HT response :=
  match op with
  | ApiOp op => lift_api (serve unicode_print cfg op authorization csrf)
  | TelemetryOp op => serve_telemetry unicode_print op authorization csrf
  | ProviderOp op => lift_api (serve_providers unicode_print cfg reg webhooks op authorization csrf)
  end.

End Handlers.
End ApiHttp.

(** * Responses on the wire (internal/api/apigen, httpjson.go)

    What the Visit method of each response type writes: the status and, for a
    body, its JSON; a response no type of the operation stands for is
    [Undeclared]: the Go compiler rules that out, and the modelled handlers never
    answer it (EncodeProps.responses_declared).  Encoding can fail, and then the answer is
    500: a time outside the years 0 to 9999, a float that is no number, an
    address the runtime's Email type refuses.  [EmailText] and [FloatText] are
    that type's MarshalJSON and strconv's shortest decimal of a float32. *)
Module ApiEncode.
Import Api Providers ApiHttp.

Class EmailText := { Email_MarshalJSON : string → option json }.
Class FloatText := { float32_MarshalJSON : spec_float → option json }.

(** ** Values *)

(** [time.Time.MarshalJSON]: an error outside the years 0 to 9999. *)
Definition enc_time (t : time) : option json :=
  if ((-62167219200 * second <=? t) && (t <? 253402300800 * second))%Z
  then Some (JStr (FormatRFC3339Nano t)) else None.
(** openapi_types.Date: the day. *)
Definition enc_date (t : time) : option json := Some (JStr (String.substring 0 10 (date_time t))).
Definition enc_uuid (u : uuid) : option json := Some (JStr (uuid_String u)).
Definition enc_str (s : string) : option json := Some (JStr s).
Definition enc_int (n : Z) : option json := Some (JNum (Itoa n)).
Definition enc_bool (b : bool) : option json := Some (JBool b).
Definition enc_any (v : json) : option json := Some v.
Definition enc_list {A} (enc : A → option json) (l : list A) : option json := JArr <$> mapM enc l.
(** A map with string values, its keys sorted. *)
Definition enc_map (m : gmap string string) : option json :=
  Some (JObj (sorted_members ((λ kv, (kv.1, JStr kv.2)) <$> map_to_list m))).

(** A member, and a pointer with omitempty. *)
Definition mem {A} (k : string) (enc : A → option json) (x : A) : option members :=
  (λ v, [(k, v)]) <$> enc x.
Definition mem_opt {A} (k : string) (enc : A → option json) (x : option A) : option members :=
  match x with Some x => mem k enc x | None => Some [] end.
Definition obj (l : list (option members)) : option json := (λ m, JObj (concat m)) <$> mapM id l.

Section Bodies.
Context {EM : EmailText} {FL : FloatText}.

(** The structs, members in the order of their fields. *)
Definition enc_Agent (a : ApiAgent) : option json := obj
  [mem_opt "agentVersion" enc_str (ag_AgentVersion a);
   mem_opt "assignedConfigHash" enc_str (ag_AssignedConfigHash a);
   mem "class" enc_str (ag_Class a);
   mem_opt "configInSync" enc_bool (ag_ConfigInSync a);
   mem "connected" enc_bool (ag_Connected a);
   mem "createdAt" enc_time (ag_CreatedAt a);
   mem_opt "customerId" enc_uuid (ag_CustomerId a);
   mem_opt "customerName" enc_str (ag_CustomerName a);
   mem_opt "displayName" enc_str (ag_DisplayName a);
   mem_opt "healthy" enc_bool (ag_Healthy a);
   mem "id" enc_uuid (ag_Id a);
   mem "instanceUid" enc_str (ag_InstanceUid a);
   mem "labels" enc_map (ag_Labels a);
   mem_opt "lastSeenAt" enc_time (ag_LastSeenAt a);
   mem_opt "name" enc_str (ag_Name a);
   mem_opt "remoteConfigError" enc_str (ag_RemoteConfigError a);
   mem "remoteConfigStatus" enc_str (ag_RemoteConfigStatus a);
   mem_opt "reportedConfigHash" enc_str (ag_ReportedConfigHash a)].
Definition enc_AgentDetail (d : ApiAgent * option json * option json) : option json :=
  let '(a, desc, health) := d in obj
  [mem_opt "agentVersion" enc_str (ag_AgentVersion a);
   mem_opt "assignedConfigHash" enc_str (ag_AssignedConfigHash a);
   mem "class" enc_str (ag_Class a);
   mem_opt "configInSync" enc_bool (ag_ConfigInSync a);
   mem "connected" enc_bool (ag_Connected a);
   mem "createdAt" enc_time (ag_CreatedAt a);
   mem_opt "customerId" enc_uuid (ag_CustomerId a);
   mem_opt "customerName" enc_str (ag_CustomerName a);
   mem_opt "description" enc_any desc;
   mem_opt "displayName" enc_str (ag_DisplayName a);
   mem_opt "health" enc_any health;
   mem_opt "healthy" enc_bool (ag_Healthy a);
   mem "id" enc_uuid (ag_Id a);
   mem "instanceUid" enc_str (ag_InstanceUid a);
   mem "labels" enc_map (ag_Labels a);
   mem_opt "lastSeenAt" enc_time (ag_LastSeenAt a);
   mem_opt "name" enc_str (ag_Name a);
   mem_opt "remoteConfigError" enc_str (ag_RemoteConfigError a);
   mem "remoteConfigStatus" enc_str (ag_RemoteConfigStatus a);
   mem_opt "reportedConfigHash" enc_str (ag_ReportedConfigHash a)].
Definition enc_AgentEvent (e : ApiAgentEvent) : option json := obj
  [mem "createdAt" enc_time (aev_CreatedAt e);
   mem_opt "detail" enc_any (aev_Detail e);
   mem "eventType" enc_str (aev_EventType e);
   mem "id" enc_int (aev_Id e)].
Definition enc_ApiKey (k : ApiApiKey) : option json := obj
  [mem "createdAt" enc_time (key_CreatedAt k);
   mem "customerId" enc_uuid (key_CustomerId k);
   mem_opt "expiresAt" enc_time (key_ExpiresAt k);
   mem "id" enc_uuid (key_Id k);
   mem "keyPrefix" enc_str (key_KeyPrefix k);
   mem_opt "lastUsedAt" enc_time (key_LastUsedAt k);
   mem "name" enc_str (key_Name k);
   mem_opt "revokedAt" enc_time (key_RevokedAt k)].
Definition enc_ApiKeyCreated (x : ApiApiKey * string) : option json :=
  let '(k, secret) := x in obj
  [mem "createdAt" enc_time (key_CreatedAt k);
   mem "customerId" enc_uuid (key_CustomerId k);
   mem_opt "expiresAt" enc_time (key_ExpiresAt k);
   mem "id" enc_uuid (key_Id k);
   mem "keyPrefix" enc_str (key_KeyPrefix k);
   mem_opt "lastUsedAt" enc_time (key_LastUsedAt k);
   mem "name" enc_str (key_Name k);
   mem_opt "revokedAt" enc_time (key_RevokedAt k);
   mem "secret" enc_str secret].
Definition enc_ApiToken (t : ApiToken) : option json := obj
  [mem "createdAt" enc_time (at_CreatedAt t);
   mem_opt "createdBy" enc_str (at_CreatedBy t);
   mem_opt "expiresAt" enc_time (at_ExpiresAt t);
   mem "id" enc_uuid (at_Id t);
   mem_opt "lastUsedAt" enc_time (at_LastUsedAt t);
   mem "name" enc_str (at_Name t);
   mem_opt "revokedAt" enc_time (at_RevokedAt t);
   mem "role" enc_str (at_Role t);
   mem "tokenPrefix" enc_str (at_TokenPrefix t)].
Definition enc_ApiTokenCreated (x : ApiToken * string) : option json :=
  let '(t, secret) := x in obj
  [mem "createdAt" enc_time (at_CreatedAt t);
   mem_opt "createdBy" enc_str (at_CreatedBy t);
   mem_opt "expiresAt" enc_time (at_ExpiresAt t);
   mem "id" enc_uuid (at_Id t);
   mem_opt "lastUsedAt" enc_time (at_LastUsedAt t);
   mem "name" enc_str (at_Name t);
   mem_opt "revokedAt" enc_time (at_RevokedAt t);
   mem "role" enc_str (at_Role t);
   mem "secret" enc_str secret;
   mem "tokenPrefix" enc_str (at_TokenPrefix t)].
Definition enc_AuditEntry (e : AuditEntry) : option json := obj
  [mem "action" enc_str (ae_Action e);
   mem_opt "actorEmail" enc_str (ae_ActorEmail e);
   mem "actorType" enc_str (ae_ActorType e);
   mem_opt "actorUserId" enc_uuid (ae_ActorUserId e);
   mem "createdAt" enc_time (ae_CreatedAt e);
   mem_opt "customerId" enc_uuid (ae_CustomerId e);
   mem_opt "customerName" enc_str (ae_CustomerName e);
   mem "entityId" enc_str (ae_EntityId e);
   mem "entityType" enc_str (ae_EntityType e);
   mem "id" enc_int (ae_Id e);
   mem_opt "payload" enc_any (ae_Payload e)].
Definition enc_AuthProvider (x : string * string * string) : option json :=
  let '(name, displayName, loginUrl) := x in obj
  [mem "displayName" enc_str displayName; mem "loginUrl" enc_str loginUrl; mem "name" enc_str name].
Definition enc_AuthProviderConfig (c : AuthProviderConfig) : option json :=
  let saml {A} (f : string * string * string * string * string → A) := f <$> apc_SAML c in obj
  [mem_opt "acsUrl" enc_str (saml (λ '(_, _, _, acs, _), acs));
   mem "clientId" enc_str (apc_ClientId c);
   mem "createdAt" enc_time (apc_CreatedAt c);
   mem "displayName" enc_str (apc_DisplayName c);
   mem "enabled" enc_bool (apc_Enabled c);
   mem "id" enc_uuid (apc_Id c);
   mem_opt "idpCertificate" enc_str (saml (λ '(_, _, cert, _, _), cert));
   mem_opt "idpEntityId" enc_str (saml (λ '(entity, _, _, _, _), entity));
   mem_opt "idpSsoUrl" enc_str (saml (λ '(_, sso, _, _, _), sso));
   mem_opt "issuer" enc_str (apc_Issuer c);
   mem "name" enc_str (apc_Name c);
   mem "redirectUri" enc_str (apc_RedirectUri c);
   mem "source" enc_str (apc_Source c);
   mem_opt "spEntityId" enc_str (saml (λ '(_, _, _, _, sp), sp));
   mem "type" enc_str (apc_Type c)].
Definition enc_BillingLine (l : BillingLine) : option json := obj
  [mem "bytes" enc_int (bl_Bytes l);
   mem "bytesCostMicro" enc_int (bl_BytesCostMicro l);
   mem "customerId" enc_uuid (bl_CustomerId l);
   mem "items" enc_int (bl_Items l);
   mem "itemsCostMicro" enc_int (bl_ItemsCostMicro l);
   mem "name" enc_str (bl_Name l);
   mem "totalMicro" enc_int (bl_TotalMicro l)].
Definition enc_BillingSettings (b : ApiBillingSettings) : option json := obj
  [mem "currency" enc_str (bill_Currency b);
   mem "pricePerGibMicro" enc_int (bill_PricePerGibMicro b);
   mem "pricePerMillionItemsMicro" enc_int (bill_PricePerMillionItemsMicro b);
   mem "updatedAt" enc_time (bill_UpdatedAt b)].
Definition enc_BillingStatement (b : BillingStatement) : option json := obj
  [mem "currency" enc_str (bst_Currency b);
   mem "lines" (enc_list enc_BillingLine) (bst_Lines b);
   mem "month" enc_str (bst_Month b);
   mem "pricePerGibMicro" enc_int (bst_PricePerGibMicro b);
   mem "pricePerMillionItemsMicro" enc_int (bst_PricePerMillionItemsMicro b);
   mem "totalMicro" enc_int (bst_TotalMicro b)].
Definition enc_BootstrapToken (t : ApiBootstrapToken) : option json := obj
  [mem "createdAt" enc_time (tok_CreatedAt t);
   mem "customerId" enc_uuid (tok_CustomerId t);
   mem "expiresAt" enc_time (tok_ExpiresAt t);
   mem "id" enc_uuid (tok_Id t);
   mem "maxUses" enc_int (tok_MaxUses t);
   mem "name" enc_str (tok_Name t);
   mem_opt "revokedAt" enc_time (tok_RevokedAt t);
   mem "tokenPrefix" enc_str (tok_TokenPrefix t);
   mem "usedCount" enc_int (tok_UsedCount t)].
Definition enc_BootstrapTokenCreated (x : ApiBootstrapToken * string) : option json :=
  let '(t, secret) := x in obj
  [mem "createdAt" enc_time (tok_CreatedAt t);
   mem "customerId" enc_uuid (tok_CustomerId t);
   mem "expiresAt" enc_time (tok_ExpiresAt t);
   mem "id" enc_uuid (tok_Id t);
   mem "maxUses" enc_int (tok_MaxUses t);
   mem "name" enc_str (tok_Name t);
   mem_opt "revokedAt" enc_time (tok_RevokedAt t);
   mem "secret" enc_str secret;
   mem "tokenPrefix" enc_str (tok_TokenPrefix t);
   mem "usedCount" enc_int (tok_UsedCount t)].
Definition enc_CatalogComponent (c : CatalogComponent) : option json := obj
  [mem "defaults" enc_any (JObj (ci_Defaults c));
   mem "description" enc_str (ci_Description c);
   mem "displayName" enc_str (ci_DisplayName c);
   mem_opt "docsUrl" enc_str (ci_DocsUrl c);
   mem "kind" enc_str (ci_Kind c);
   mem "schema" enc_any (JObj (ci_Schema c));
   mem "type" enc_str (ci_Type c)].
Definition enc_Customer (c : ApiCustomer) : option json := obj
  [mem "clientId" enc_str (cust_ClientId c);
   mem "createdAt" enc_time (cust_CreatedAt c);
   mem "id" enc_uuid (cust_Id c);
   mem "name" enc_str (cust_Name c);
   mem_opt "rateLimitItemsPerSec" enc_int (cust_RateLimitItemsPerSec c);
   mem_opt "retentionDays" enc_int (cust_RetentionDays c);
   mem "slug" enc_str (cust_Slug c);
   mem "status" enc_str (cust_Status c)].
Definition enc_CostDay (d : Z * time * Z) : option json :=
  let '(bytes, date, items) := d in obj
  [mem "bytes" enc_int bytes; mem "date" enc_date date; mem "items" enc_int items].
Definition enc_CustomerCost (c : ApiCustomerCost) : option json := obj
  [mem "bytes" enc_int (acc_Bytes c);
   mem "customerId" enc_uuid (acc_CustomerId c);
   mem "days" (enc_list enc_CostDay) (acc_Days c);
   mem "items" enc_int (acc_Items c);
   mem "name" enc_str (acc_Name c)].
Definition enc_Error (e : string * string) : option json := obj
  [mem "code" enc_str e.1;
   mem "message" enc_str e.2].
Definition enc_GraphNode (n : Node) : option json := obj
  [mem "config" enc_any (match n_Config n with Some m => JObj m | None => JNull end);
   mem_opt "name" enc_str (n_Name n);
   mem "type" enc_str (n_Type n)].
Definition enc_PipelineGraph (g : Graph) : option json := obj
  [mem "exporters" (enc_list enc_GraphNode) (g_Exporters g);
   mem "processors" (enc_list enc_GraphNode) (g_Processors g);
   mem "signals" (enc_list enc_str) (g_Signals g)].
Definition enc_LogRecord (r : ApiLogRecord) : option json := obj
  [mem_opt "attributes" enc_map (rec_Attributes r);
   mem "body" enc_str (rec_Body r);
   mem "serviceName" enc_str (rec_ServiceName r);
   mem "severityNumber" enc_int (rec_SeverityNumber r);
   mem "severityText" enc_str (rec_SeverityText r);
   mem_opt "spanId" enc_str (rec_SpanId r);
   mem "timestamp" enc_time (rec_Timestamp r);
   mem_opt "traceId" enc_str (rec_TraceId r)].
Definition enc_Me (u : User) (csrf : string) (allCustomers : bool) (scoped : option (gset uuid)) : option json := obj
  [mem "allCustomers" enc_bool allCustomers;
   mem "csrfToken" enc_str csrf;
   mem_opt "displayName" enc_str (u_DisplayName u);
   mem "email" Email_MarshalJSON (u_Email u);
   mem "id" enc_uuid (u_ID u);
   mem "role" enc_str (u_Role u);
   mem_opt "scopedCustomerIds" (enc_list enc_uuid) (elements <$> scoped)].
Definition enc_Pipeline (p : ApiPipeline) : option json := obj
  [mem_opt "activeVersion" enc_int (pipe_ActiveVersion p);
   mem "createdAt" enc_time (pipe_CreatedAt p);
   mem "customerId" enc_uuid (pipe_CustomerId p);
   mem "customerName" enc_str (pipe_CustomerName p);
   mem "id" enc_uuid (pipe_Id p);
   mem_opt "latestVersion" enc_int (pipe_LatestVersion p);
   mem "name" enc_str (pipe_Name p);
   mem "targetClass" enc_str (pipe_TargetClass p)].
Definition enc_VersionSummary (v : VersionSummary) : option json := obj
  [mem "active" enc_bool (vs_Active v);
   mem "createdAt" enc_time (vs_CreatedAt v);
   mem_opt "createdBy" enc_str (vs_CreatedBy v);
   mem "validationStatus" enc_str (vs_ValidationStatus v);
   mem "version" enc_int (vs_Version v)].
Definition enc_PipelineDetail (x : ApiPipeline * list VersionSummary) : option json :=
  let '(p, versions) := x in obj
  [mem_opt "activeVersion" enc_int (pipe_ActiveVersion p);
   mem "createdAt" enc_time (pipe_CreatedAt p);
   mem "customerId" enc_uuid (pipe_CustomerId p);
   mem "customerName" enc_str (pipe_CustomerName p);
   mem "id" enc_uuid (pipe_Id p);
   mem_opt "latestVersion" enc_int (pipe_LatestVersion p);
   mem "name" enc_str (pipe_Name p);
   mem "targetClass" enc_str (pipe_TargetClass p);
   mem "versions" (enc_list enc_VersionSummary) versions].
Definition enc_PipelineVersion (x : ApiVersion) : option json :=
  let v := ver_Summary x in obj
  [mem "active" enc_bool (vs_Active v);
   mem "configHash" enc_str (ver_ConfigHash x);
   mem "createdAt" enc_time (vs_CreatedAt v);
   mem_opt "createdBy" enc_str (vs_CreatedBy v);
   mem "graph" enc_PipelineGraph (ver_Graph x);
   mem "renderedYaml" enc_str (ver_RenderedYaml x);
   mem "validationStatus" enc_str (vs_ValidationStatus v);
   mem "version" enc_int (vs_Version v)].
Definition enc_ExporterStage (e : ApiExporterStage) : option json := obj
  [mem_opt "enqueueFailed" enc_int (aes_EnqueueFailed e);
   mem "name" enc_str (aes_Name e);
   mem "queueCapacity" float32_MarshalJSON (aes_QueueCapacity e);
   mem "queueSize" float32_MarshalJSON (aes_QueueSize e);
   mem "sendFailed" enc_int (aes_SendFailed e);
   mem "sent" enc_int (aes_Sent e);
   mem "type" enc_str (aes_Type e)].
Definition enc_Received (x : Z * string) : option json :=
  obj [mem "items" enc_int x.1; mem "signal" enc_str x.2].
Definition enc_PipelineStageStats (s : PipelineStageStats) : option json := obj
  [mem "exporters" (enc_list enc_ExporterStage) (pss_Exporters s);
   mem "received" (enc_list enc_Received) (pss_Received s)].
Definition enc_RolloutStatus (version : Z) (state detail : string) : option json := obj
  [mem "activeVersion" enc_int version; mem "detail" enc_str detail; mem "state" enc_str state].
Definition enc_Span (s : ApiSpan) : option json := obj
  [mem_opt "attributes" enc_map (asp_Attributes s);
   mem "durationMs" float32_MarshalJSON (asp_DurationMs s);
   mem "kind" enc_str (asp_Kind s);
   mem "name" enc_str (asp_Name s);
   mem_opt "parentSpanId" enc_str (asp_ParentSpanId s);
   mem "service" enc_str (asp_Service s);
   mem "spanId" enc_str (asp_SpanId s);
   mem "startTime" enc_time (asp_StartTime s);
   mem "statusCode" enc_str (asp_StatusCode s);
   mem_opt "statusMessage" enc_str (asp_StatusMessage s)].
Definition enc_TopCustomer (x : uuid * string * Z) : option json :=
  let '(id, name, items) := x in obj
  [mem "customerId" enc_uuid id; mem "items" enc_int items; mem "name" enc_str name].
Definition enc_StatsOverview (o : StatsOverview) : option json := obj
  [mem "activeCustomers" enc_int (so_ActiveCustomers o);
   mem_opt "refusedRequests" enc_int (so_RefusedRequests o);
   mem "topCustomers" (enc_list enc_TopCustomer) (so_TopCustomers o);
   mem "totals" id (obj [mem "logs" enc_int (so_Logs o); mem "metrics" enc_int (so_Metrics o);
                         mem "traces" enc_int (so_Traces o)])].
Definition enc_ThroughputPoint (p : time * spec_float) : option json :=
  obj [mem "ts" enc_time p.1; mem "value" float32_MarshalJSON p.2].
Definition enc_ThroughputSeries (s : ThroughputSeries) : option json := obj
  [mem "points" (enc_list enc_ThroughputPoint) (thr_Points s);
   mem "signal" enc_str (thr_Signal s)].
Definition enc_TraceSummary (t : ApiTraceSummary) : option json := obj
  [mem "durationMs" float32_MarshalJSON (sum_DurationMs t);
   mem "errorCount" enc_int (sum_ErrorCount t);
   mem "rootName" enc_str (sum_RootName t);
   mem "rootService" enc_str (sum_RootService t);
   mem "spanCount" enc_int (sum_SpanCount t);
   mem "startTime" enc_time (sum_StartTime t);
   mem "traceId" enc_str (sum_TraceId t)].
Definition enc_UserAccount (u : UserAccount) : option json := obj
  [mem "createdAt" enc_time (ua_CreatedAt u);
   mem "customerIds" (enc_list enc_uuid) (ua_CustomerIds u);
   mem "disabled" enc_bool (ua_Disabled u);
   mem_opt "displayName" enc_str (ua_DisplayName u);
   mem "email" Email_MarshalJSON (ua_Email u);
   mem "id" enc_uuid (ua_Id u);
   mem "identities" (enc_list enc_str) (ua_Identities u);
   mem "invited" enc_bool (ua_Invited u);
   mem_opt "lastLoginAt" enc_time (ua_LastLoginAt u);
   mem "role" enc_str (ua_Role u)].
Definition enc_Issue (i : Issue) : option json :=
  obj [mem "message" enc_str (iss_Message i); mem_opt "path" enc_str (iss_Path i)].
Definition enc_ValidationResult (r : bool * list Issue * option string) : option json :=
  let '(valid, issues, yaml) := r in obj
  [mem "errors" (enc_list enc_Issue) issues; mem_opt "renderedYaml" enc_str yaml; mem "valid" enc_bool valid].
Definition enc_Webhook (h : ApiWebhook) : option json := obj
  [mem "createdAt" enc_time (hook_CreatedAt h);
   mem "enabled" enc_bool (hook_Enabled h);
   mem "events" (enc_list enc_str) (hook_Events h);
   mem "hasSecret" enc_bool (hook_HasSecret h);
   mem "id" enc_uuid (hook_Id h);
   mem "name" enc_str (hook_Name h);
   mem "type" enc_str (hook_Type h);
   mem "url" enc_str (hook_Url h)].

(** ** Responses *)

(** What a response writes: status and body, JSON exactly when there is one. *)
Inductive written :=
  | Wrote (status : Z) (body : option json)
  | EncodeError
  | Undeclared.

Definition json_body (status : Z) (v : option json) : written :=
  match v with Some v => Wrote status (Some v) | None => EncodeError end.
(** An [Error] with its status. *)
Definition error_body (status : Z) (code message : string) : written :=
  json_body status (enc_Error (code, message)).
(** A struct with the one member. *)
Definition wrapped {A} (k : string) (enc : A → option json) (x : A) : option json := obj [mem k enc x].

(** *** The response types of each operation *)

Definition visit_ListAgents (r : response) : written :=
  match r with
  | Success 200 (BAgents l) => json_body 200 (wrapped "agents" (enc_list enc_Agent) l)
  | Failure (401 as status) code message => error_body status code message
  | _ => Undeclared
  end.
Definition visit_DeleteAgent (r : response) : written :=
  match r with
  | Success 204 BNone => Wrote 204 None
  | Failure (401 as status) code message | Failure (403 as status) code message | Failure (404 as status) code message | Failure (409 as status) code message => error_body status code message
  | _ => Undeclared
  end.
Definition visit_GetAgent (r : response) : written :=
  match r with
  | Success 200 (BAgentDetail d) => json_body 200 (enc_AgentDetail d)
  | Failure (401 as status) code message | Failure (404 as status) code message => error_body status code message
  | _ => Undeclared
  end.
Definition visit_UpdateAgent (r : response) : written :=
  match r with
  | Success 200 (BAgent a) => json_body 200 (enc_Agent a)
  | Failure (400 as status) code message | Failure (401 as status) code message | Failure (403 as status) code message | Failure (404 as status) code message => error_body status code message
  | _ => Undeclared
  end.
Definition visit_GetAgentConfig (r : response) : written :=
  match r with
  | Success 200 (BAgentConfig assigned reported) => json_body 200 (obj [mem "assignedYaml" enc_str assigned; mem "reportedYaml" enc_str reported])
  | Failure (401 as status) code message | Failure (404 as status) code message => error_body status code message
  | _ => Undeclared
  end.
Definition visit_ListAgentEvents (r : response) : written :=
  match r with
  | Success 200 (BAgentEvents l) => json_body 200 (wrapped "events" (enc_list enc_AgentEvent) l)
  | Failure (401 as status) code message | Failure (404 as status) code message => error_body status code message
  | _ => Undeclared
  end.
Definition visit_SyncAgent (r : response) : written :=
  match r with
  | Success 202 (BSync detail) => json_body 202 (wrapped "detail" enc_str detail)
  | Failure (400 as status) code message | Failure (401 as status) code message | Failure (403 as status) code message | Failure (404 as status) code message => error_body status code message
  | _ => Undeclared
  end.
Definition visit_ListAuditLog (r : response) : written :=
  match r with
  | Success 200 (BAudit p) => json_body 200 (obj [mem "entries" (enc_list enc_AuditEntry) (Entries p); mem_opt "nextBeforeId" enc_int (NextBeforeId p)])
  | Failure (401 as status) code message | Failure (403 as status) code message => error_body status code message
  | _ => Undeclared
  end.
Definition visit_DevLogin (r : response) : written :=
  match r with
  | Success 204 BNone => Wrote 204 None
  | Failure status code message => error_body status code message
  | _ => Undeclared
  end.
Definition visit_Logout (r : response) : written :=
  match r with
  | Success 204 BNone => Wrote 204 None
  | _ => Undeclared
  end.
Definition visit_ListAuthProviders (r : response) : written :=
  match r with
  | Success 200 (BAuthProviders l dev) => json_body 200 (obj [mem "devLoginEnabled" enc_bool dev; mem "providers" (enc_list enc_AuthProvider) l])
  | _ => Undeclared
  end.
Definition visit_GetBillingStatement (r : response) : written :=
  match r with
  | Success 200 (BBillingStatement s) => json_body 200 (enc_BillingStatement s)
  | Failure (400 as status) code message | Failure (401 as status) code message | Failure (403 as status) code message => error_body status code message
  | _ => Undeclared
  end.
Definition visit_GetComponentCatalog (r : response) : written :=
  match r with
  | Success 200 (BCatalog processors exporters) => json_body 200 (obj [mem "exporters" (enc_list enc_CatalogComponent) exporters;
                     mem "processors" (enc_list enc_CatalogComponent) processors])
  | Failure (401 as status) code message => error_body status code message
  | _ => Undeclared
  end.
Definition visit_ListCustomers (r : response) : written :=
  match r with
  | Success 200 (BCustomers l) => json_body 200 (wrapped "customers" (enc_list enc_Customer) l)
  | Failure (401 as status) code message => error_body status code message
  | _ => Undeclared
  end.
Definition visit_CreateCustomer (r : response) : written :=
  match r with
  | Success 201 (BCustomerCreated c k) => json_body 201 (obj [mem "customer" enc_Customer c; mem "initialApiKey" enc_ApiKeyCreated k])
  | Failure (400 as status) code message | Failure (401 as status) code message | Failure (403 as status) code message | Failure (409 as status) code message => error_body status code message
  | _ => Undeclared
  end.
Definition visit_DeleteCustomer (r : response) : written :=
  match r with
  | Success 204 BNone => Wrote 204 None
  | Failure (401 as status) code message | Failure (403 as status) code message | Failure (404 as status) code message => error_body status code message
  | _ => Undeclared
  end.
Definition visit_GetCustomer (r : response) : written :=
  match r with
  | Success 200 (BCustomer c) => json_body 200 (enc_Customer c)
  | Failure (401 as status) code message | Failure (404 as status) code message => error_body status code message
  | _ => Undeclared
  end.
Definition visit_UpdateCustomer (r : response) : written :=
  match r with
  | Success 200 (BCustomer c) => json_body 200 (enc_Customer c)
  | Failure (401 as status) code message | Failure (403 as status) code message | Failure (404 as status) code message => error_body status code message
  | _ => Undeclared
  end.
Definition visit_ListApiKeys (r : response) : written :=
  match r with
  | Success 200 (BApiKeys l) => json_body 200 (wrapped "apiKeys" (enc_list enc_ApiKey) l)
  | Failure (401 as status) code message | Failure (404 as status) code message => error_body status code message
  | _ => Undeclared
  end.
Definition visit_CreateApiKey (r : response) : written :=
  match r with
  | Success 201 (BApiKeyCreated k) => json_body 201 (enc_ApiKeyCreated k)
  | Failure status code message => error_body status code message
  | _ => Undeclared
  end.
Definition visit_RevokeApiKey (r : response) : written :=
  match r with
  | Success 204 BNone => Wrote 204 None
  | Failure (401 as status) code message | Failure (403 as status) code message | Failure (404 as status) code message => error_body status code message
  | _ => Undeclared
  end.
Definition visit_ListBootstrapTokens (r : response) : written :=
  match r with
  | Success 200 (BBootstrapTokens l) => json_body 200 (wrapped "tokens" (enc_list enc_BootstrapToken) l)
  | Failure (401 as status) code message | Failure (404 as status) code message => error_body status code message
  | _ => Undeclared
  end.
Definition visit_CreateBootstrapToken (r : response) : written :=
  match r with
  | Success 201 (BBootstrapTokenCreated t secret) => json_body 201 (enc_BootstrapTokenCreated (t, secret))
  | Failure (401 as status) code message | Failure (403 as status) code message | Failure (404 as status) code message => error_body status code message
  | _ => Undeclared
  end.
Definition visit_RevokeBootstrapToken (r : response) : written :=
  match r with
  | Success 204 BNone => Wrote 204 None
  | Failure (401 as status) code message | Failure (403 as status) code message | Failure (404 as status) code message => error_body status code message
  | _ => Undeclared
  end.
Definition visit_QueryLogs (r : response) : written :=
  match r with
  | Success 200 (BLogs l next) => json_body 200 (obj [mem "logs" (enc_list enc_LogRecord) l; mem_opt "nextBefore" enc_time next])
  | Failure status code message => error_body status code message
  | _ => Undeclared
  end.
Definition visit_ListCustomerPipelines (r : response) : written :=
  match r with
  | Success 200 (BPipelines l) => json_body 200 (wrapped "pipelines" (enc_list enc_Pipeline) l)
  | Failure (401 as status) code message | Failure (404 as status) code message => error_body status code message
  | _ => Undeclared
  end.
Definition visit_CreatePipeline (r : response) : written :=
  match r with
  | Success 201 (BPipeline p) => json_body 201 (enc_Pipeline p)
  | Failure status code message => error_body status code message
  | _ => Undeclared
  end.
Definition visit_GetCustomerThroughput (r : response) : written :=
  match r with
  | Success 200 (BThroughput l) => json_body 200 (wrapped "series" (enc_list enc_ThroughputSeries) l)
  | Failure status code message => error_body status code message
  | _ => Undeclared
  end.
Definition visit_QueryTraces (r : response) : written :=
  match r with
  | Success 200 (BTraces l next) => json_body 200 (obj [mem_opt "nextBefore" enc_time next; mem "traces" (enc_list enc_TraceSummary) l])
  | Failure status code message => error_body status code message
  | _ => Undeclared
  end.
Definition visit_GetTrace (r : response) : written :=
  match r with
  | Success 200 (BTrace l) => json_body 200 (wrapped "spans" (enc_list enc_Span) l)
  | Failure status code message => error_body status code message
  | _ => Undeclared
  end.
Definition visit_GetMe (r : response) : written :=
  match r with
  | Success 200 (BMe u csrf all scoped) => json_body 200 (enc_Me u csrf all scoped)
  | Failure (401 as status) code message => error_body status code message
  | _ => Undeclared
  end.
Definition visit_ListPipelines (r : response) : written :=
  match r with
  | Success 200 (BPipelines l) => json_body 200 (wrapped "pipelines" (enc_list enc_Pipeline) l)
  | Failure (401 as status) code message => error_body status code message
  | _ => Undeclared
  end.
Definition visit_ValidatePipeline (r : response) : written :=
  match r with
  | Success 200 (BValidation r) => json_body 200 (enc_ValidationResult r)
  | Failure (401 as status) code message => error_body status code message
  | _ => Undeclared
  end.
Definition visit_DeletePipeline (r : response) : written :=
  match r with
  | Success 204 BNone => Wrote 204 None
  | Failure (401 as status) code message | Failure (403 as status) code message | Failure (404 as status) code message => error_body status code message
  | _ => Undeclared
  end.
Definition visit_GetPipeline (r : response) : written :=
  match r with
  | Success 200 (BPipelineDetail p versions) => json_body 200 (enc_PipelineDetail (p, versions))
  | Failure (401 as status) code message | Failure (404 as status) code message => error_body status code message
  | _ => Undeclared
  end.
Definition visit_GetPipelineStageStats (r : response) : written :=
  match r with
  | Success 200 (BStageStats s) => json_body 200 (enc_PipelineStageStats s)
  | Failure status code message => error_body status code message
  | _ => Undeclared
  end.
Definition visit_CreatePipelineVersion (r : response) : written :=
  match r with
  | Success 201 (BVersion v) => json_body 201 (enc_PipelineVersion v)
  | Success 400 (BValidation r) => json_body 400 (enc_ValidationResult r)
  | Failure (401 as status) code message | Failure (403 as status) code message | Failure (404 as status) code message => error_body status code message
  | _ => Undeclared
  end.
Definition visit_GetPipelineVersion (r : response) : written :=
  match r with
  | Success 200 (BVersion v) => json_body 200 (enc_PipelineVersion v)
  | Failure (401 as status) code message | Failure (404 as status) code message => error_body status code message
  | _ => Undeclared
  end.
Definition visit_ActivatePipelineVersion (r : response) : written :=
  match r with
  | Success 200 (BRollout version state detail) => json_body 200 (enc_RolloutStatus version state detail)
  | Failure (400 as status) code message | Failure (401 as status) code message | Failure (403 as status) code message | Failure (404 as status) code message => error_body status code message
  | _ => Undeclared
  end.
Definition visit_ListApiTokens (r : response) : written :=
  match r with
  | Success 200 (BApiTokens l) => json_body 200 (wrapped "tokens" (enc_list enc_ApiToken) l)
  | Failure (401 as status) code message | Failure (403 as status) code message => error_body status code message
  | _ => Undeclared
  end.
Definition visit_CreateApiToken (r : response) : written :=
  match r with
  | Success 201 (BApiTokenCreated t secret) => json_body 201 (enc_ApiTokenCreated (t, secret))
  | Failure (400 as status) code message | Failure (401 as status) code message | Failure (403 as status) code message => error_body status code message
  | _ => Undeclared
  end.
Definition visit_RevokeApiToken (r : response) : written :=
  match r with
  | Success 204 BNone => Wrote 204 None
  | Failure (401 as status) code message | Failure (403 as status) code message | Failure (404 as status) code message => error_body status code message
  | _ => Undeclared
  end.
Definition visit_ListAuthProviderConfigs (r : response) : written :=
  match r with
  | Success 200 (BAuthProviderConfigs l) => json_body 200 (wrapped "providers" (enc_list enc_AuthProviderConfig) l)
  | Failure (401 as status) code message | Failure (403 as status) code message => error_body status code message
  | _ => Undeclared
  end.
Definition visit_CreateAuthProviderConfig (r : response) : written :=
  match r with
  | Success 201 (BAuthProviderConfig c) => json_body 201 (enc_AuthProviderConfig c)
  | Failure (400 as status) code message | Failure (401 as status) code message | Failure (403 as status) code message | Failure (409 as status) code message => error_body status code message
  | _ => Undeclared
  end.
Definition visit_DeleteAuthProviderConfig (r : response) : written :=
  match r with
  | Success 204 BNone => Wrote 204 None
  | Failure (401 as status) code message | Failure (403 as status) code message | Failure (404 as status) code message => error_body status code message
  | _ => Undeclared
  end.
Definition visit_UpdateAuthProviderConfig (r : response) : written :=
  match r with
  | Success 200 (BAuthProviderConfig c) => json_body 200 (enc_AuthProviderConfig c)
  | Failure (400 as status) code message | Failure (401 as status) code message | Failure (403 as status) code message | Failure (404 as status) code message => error_body status code message
  | _ => Undeclared
  end.
Definition visit_TestAuthProviderConfig (r : response) : written :=
  match r with
  | Success 200 (BProviderTest ok message) => json_body 200 (obj [mem "message" enc_str message; mem "ok" enc_bool ok])
  | Failure (401 as status) code message | Failure (403 as status) code message | Failure (404 as status) code message => error_body status code message
  | _ => Undeclared
  end.
Definition visit_GetBillingSettings (r : response) : written :=
  match r with
  | Success 200 (BBillingSettings b) => json_body 200 (enc_BillingSettings b)
  | Failure (401 as status) code message | Failure (403 as status) code message => error_body status code message
  | _ => Undeclared
  end.
Definition visit_UpdateBillingSettings (r : response) : written :=
  match r with
  | Success 200 (BBillingSettings b) => json_body 200 (enc_BillingSettings b)
  | Failure (400 as status) code message | Failure (401 as status) code message | Failure (403 as status) code message => error_body status code message
  | _ => Undeclared
  end.
Definition visit_ListWebhooks (r : response) : written :=
  match r with
  | Success 200 (BWebhooks l) => json_body 200 (wrapped "webhooks" (enc_list enc_Webhook) l)
  | Failure (401 as status) code message | Failure (403 as status) code message => error_body status code message
  | _ => Undeclared
  end.
Definition visit_CreateWebhook (r : response) : written :=
  match r with
  | Success 201 (BWebhook h) => json_body 201 (enc_Webhook h)
  | Failure (400 as status) code message | Failure (401 as status) code message | Failure (403 as status) code message => error_body status code message
  | _ => Undeclared
  end.
Definition visit_DeleteWebhook (r : response) : written :=
  match r with
  | Success 204 BNone => Wrote 204 None
  | Failure (401 as status) code message | Failure (403 as status) code message | Failure (404 as status) code message => error_body status code message
  | _ => Undeclared
  end.
Definition visit_UpdateWebhook (r : response) : written :=
  match r with
  | Success 200 (BWebhook h) => json_body 200 (enc_Webhook h)
  | Failure (400 as status) code message | Failure (401 as status) code message | Failure (403 as status) code message | Failure (404 as status) code message => error_body status code message
  | _ => Undeclared
  end.
Definition visit_TestWebhook (r : response) : written :=
  match r with
  | Success 200 (BWebhookTest ok message) => json_body 200 (obj [mem "message" enc_str message; mem "ok" enc_bool ok])
  | Failure (401 as status) code message | Failure (403 as status) code message | Failure (404 as status) code message => error_body status code message
  | _ => Undeclared
  end.
Definition visit_GetCostStats (r : response) : written :=
  match r with
  | Success 200 (BCostStats l) => json_body 200 (wrapped "customers" (enc_list enc_CustomerCost) l)
  | Failure status code message => error_body status code message
  | _ => Undeclared
  end.
Definition visit_GetStatsOverview (r : response) : written :=
  match r with
  | Success 200 (BStatsOverview o) => json_body 200 (enc_StatsOverview o)
  | Failure status code message => error_body status code message
  | _ => Undeclared
  end.
Definition visit_ListUsers (r : response) : written :=
  match r with
  | Success 200 (BUsers l) => json_body 200 (wrapped "users" (enc_list enc_UserAccount) l)
  | Failure (401 as status) code message | Failure (403 as status) code message => error_body status code message
  | _ => Undeclared
  end.
Definition visit_InviteUser (r : response) : written :=
  match r with
  | Success 201 (BUser u) => json_body 201 (enc_UserAccount u)
  | Failure (401 as status) code message | Failure (403 as status) code message | Failure (409 as status) code message => error_body status code message
  | _ => Undeclared
  end.
Definition visit_DeleteUser (r : response) : written :=
  match r with
  | Success 204 BNone => Wrote 204 None
  | Failure (401 as status) code message | Failure (403 as status) code message | Failure (404 as status) code message | Failure (409 as status) code message => error_body status code message
  | _ => Undeclared
  end.
Definition visit_UpdateUser (r : response) : written :=
  match r with
  | Success 200 (BUser u) => json_body 200 (enc_UserAccount u)
  | Failure (400 as status) code message | Failure (401 as status) code message | Failure (403 as status) code message | Failure (404 as status) code message | Failure (409 as status) code message => error_body status code message
  | _ => Undeclared
  end.

Definition visit_api (op : operation) : response → written :=
  match op with
  | OpGetMe => visit_GetMe
  | OpDevLogin _ => visit_DevLogin
  | OpLogout => visit_Logout
  | OpListCustomers _ => visit_ListCustomers
  | OpCreateCustomer _ _ => visit_CreateCustomer
  | OpGetCustomer _ => visit_GetCustomer
  | OpUpdateCustomer _ _ => visit_UpdateCustomer
  | OpDeleteCustomer _ => visit_DeleteCustomer
  | OpListApiKeys _ => visit_ListApiKeys
  | OpCreateApiKey _ _ _ => visit_CreateApiKey
  | OpRevokeApiKey _ _ => visit_RevokeApiKey
  | OpGetComponentCatalog => visit_GetComponentCatalog
  | OpListPipelines => visit_ListPipelines
  | OpListCustomerPipelines _ => visit_ListCustomerPipelines
  | OpCreatePipeline _ _ _ _ => visit_CreatePipeline
  | OpGetPipeline _ => visit_GetPipeline
  | OpDeletePipeline _ => visit_DeletePipeline
  | OpValidatePipeline _ _ => visit_ValidatePipeline
  | OpCreatePipelineVersion _ _ => visit_CreatePipelineVersion
  | OpGetPipelineVersion _ _ => visit_GetPipelineVersion
  | OpActivatePipelineVersion _ _ => visit_ActivatePipelineVersion
  | OpListAgents _ => visit_ListAgents
  | OpGetAgent _ => visit_GetAgent
  | OpDeleteAgent _ => visit_DeleteAgent
  | OpUpdateAgent _ _ _ => visit_UpdateAgent
  | OpSyncAgent _ => visit_SyncAgent
  | OpGetAgentConfig _ => visit_GetAgentConfig
  | OpListAgentEvents _ _ => visit_ListAgentEvents
  | OpListBootstrapTokens _ => visit_ListBootstrapTokens
  | OpCreateBootstrapToken _ _ _ _ => visit_CreateBootstrapToken
  | OpRevokeBootstrapToken _ _ => visit_RevokeBootstrapToken
  | OpListUsers => visit_ListUsers
  | OpInviteUser _ _ _ => visit_InviteUser
  | OpUpdateUser _ _ _ _ => visit_UpdateUser
  | OpDeleteUser _ => visit_DeleteUser
  | OpCreateAuthProviderConfig _ => visit_CreateAuthProviderConfig
  | OpUpdateAuthProviderConfig _ _ => visit_UpdateAuthProviderConfig
  | OpDeleteAuthProviderConfig _ => visit_DeleteAuthProviderConfig
  | OpListApiTokens => visit_ListApiTokens
  | OpCreateApiToken _ _ _ => visit_CreateApiToken
  | OpRevokeApiToken _ => visit_RevokeApiToken
  | OpListWebhooks => visit_ListWebhooks
  | OpCreateWebhook _ => visit_CreateWebhook
  | OpUpdateWebhook _ _ => visit_UpdateWebhook
  | OpDeleteWebhook _ => visit_DeleteWebhook
  | OpGetBillingSettings => visit_GetBillingSettings
  | OpUpdateBillingSettings _ => visit_UpdateBillingSettings
  | OpListAuditLog _ => visit_ListAuditLog
  end.

Definition visit_telemetry (op : telemetry_op) : response → written :=
  match op with
  | OpQueryLogs _ _ => visit_QueryLogs
  | OpQueryTraces _ _ => visit_QueryTraces
  | OpGetTrace _ _ => visit_GetTrace
  | OpGetStatsOverview _ _ => visit_GetStatsOverview
  | OpGetCostStats _ _ => visit_GetCostStats
  | OpGetCustomerThroughput _ _ => visit_GetCustomerThroughput
  | OpGetPipelineStageStats _ _ _ => visit_GetPipelineStageStats
  | OpGetBillingStatement _ => visit_GetBillingStatement
  end.

Definition visit_provider (op : provider_op) : response → written :=
  match op with
  | OpListAuthProviders => visit_ListAuthProviders
  | OpListAuthProviderConfigs => visit_ListAuthProviderConfigs
  | OpTestAuthProviderConfig _ => visit_TestAuthProviderConfig
  | OpTestWebhook _ => visit_TestWebhook
  end.

Definition visit (op : any_op) : response → written :=
  match op with
  | ApiOp op => visit_api op
  | TelemetryOp op => visit_telemetry op
  | ProviderOp op => visit_provider op
  end.

End Bodies.


(** ** The end of a strict handler

    Visit's error goes the way of a handler's: 500. *)
Section Handlers.
Context {ENV : Env} {SM : SessionManager} {UP : UuidParse} {D : Type} `{!Distributor D}.
Context {SCHEMA : JSONSchema} {YML : YAML} {COL : OtelCol} {NET : NetURL} {CERT : X509}.
Context {CH : ClickHouse} {VM : VictoriaMetrics}.
Context {GET : HTTPGet} {UUID5 : NameUUID} {IDP : IdP}.
Context {EM : EmailText} {FL : FloatText}.
Context (unicode_print : N → bool) (cfg : ApiCfg) (reg : Sso.RegistryCfg) (webhooks : option WebhookTester).

Abbreviation HT := (M (tstate D sess) herror).

(** [writeError]. *)
Definition write_error (r : response) : written :=
  match r with Failure status code message => error_body status code message | Success _ _ => Undeclared end.

Definition encode_failed : response := errResp 500 codeInternal "internal server error".

Definition run_written (op : any_op) (p : option Principal) : HT written := λ s,
  match handle_any unicode_print cfg reg webhooks op p s with
  | (inl r, s') =>
    (inl (match visit op r with EncodeError => write_error encode_failed | w => w end), s')
  | (inr _, _) => (r ← run unicode_print cfg reg webhooks op p; mret (write_error r)) s
  end.

End Handlers.
End ApiEncode.

(** * The ops listener (internal/api/ops.go)

    Metrics, the two probes and the configuration the forwarding tier pulls,
    behind the standard library's ServeMux; nothing on this listener asks for
    credentials.  The path is the escaped one of the request's URL. *)
Module Ops.

Inductive ops_reply :=
  | OpsText (status : Z) (contentType : option string) (body : string)
  | OpsNotAllowed (allow : list string)   (* 405 *)
  | OpsRedirect (path : string)           (* 301 *)
  | OpsMetrics.                           (* what promhttp answers *)

Definition newline : string := String "010"%char "".
(** [http.Error]. *)
Definition http_Error (msg : string) (status : Z) : ops_reply :=
  OpsText status (Some "text/plain; charset=utf-8") (msg +:+ newline).

(** ** ServeMux *)

Fixpoint segments (s : string) : list string :=
  match s with
  | EmptyString => [""]
  | String a s' =>
    if bool_decide (a = "/"%char) then "" :: segments s'
    else match segments s' with
         | x :: l => String a x :: l
         | [] => [String a ""]
         end
  end.

(** [path.Clean] of a rooted path: empty elements and dots dropped, two dots
    take the element before them. *)
Definition clean_step (st : list string) (s : string) : list string :=
  if bool_decide (s = "") || bool_decide (s = ".") then st
  else if bool_decide (s = "..") then tail st else s :: st.
Definition path_Clean (p : string) : string :=
  "/" +:+ String.concat "/" (reverse (fold_left clean_step (segments p) [])).

Definition cleanPath (p : string) : string :=
  if bool_decide (p = "") then "/"
  else
    let p := if HasPrefix "/" p then p else "/" +:+ p in
    let np := path_Clean p in
    if bool_decide (last (segments p) = Some "") && negb (bool_decide (np = "/")) then np +:+ "/" else np.

(** A pattern with a method matches that method, GET also HEAD. *)
Definition method_matches (pm : option string) (m : string) : bool :=
  match pm with
  | None => true
  | Some g => bool_decide (m = g) || (bool_decide (g = "GET") && bool_decide (m = "HEAD"))
  end.
(** A literal pattern matches segment by segment, escapes of a segment undone. *)
Definition path_matches (pattern path : string) : bool :=
  bool_decide ((λ s, default s (ApiHttp.unescape s)) <$> segments path = segments pattern).
Definition allowed (pm : option string) : list string :=
  match pm with
  | Some g => if bool_decide (g = "GET") then ["GET"; "HEAD"] else [g]
  | None => []
  end.

(** The handler of a clean path. *)
Definition mux_handler (routes : list (option string * string * Op ops_reply)) (m path : string) : Op ops_reply :=
  match find (λ r, method_matches r.1.1 m && path_matches r.1.2 path) routes with
  | Some r => r.2
  | None =>
    match concat (map (λ r, if path_matches r.1.2 path then allowed r.1.1 else []) routes) with
    | [] => mret (http_Error "404 page not found" 404)
    | ms => mret (OpsNotAllowed ms)
    end
  end.

Definition serve_mux (routes : list (option string * string * Op ops_reply)) (m escaped : string) : Op ops_reply :=
  if bool_decide (escaped = "*") then mret (OpsText 400 None "")
  else if bool_decide (m = "CONNECT") then mux_handler routes m escaped
  else let path := cleanPath escaped in
       if bool_decide (path = escaped) then mux_handler routes m path else mret (OpsRedirect path).

(** ** NewOpsHandler *)

Section Listener.
Context {ENV : Env} {YML : YAML} (unicode_print : N → bool) (svc : SvcCfg) (error_text : error → string).

(** [store.PG.Ping]. *)
Definition Ping : Op unit := stmt (λ _ d, inl (d, tt)).

Definition forwarding_handler : Op ops_reply :=
  r ← mtry (RenderCurrent unicode_print svc);
  match r with
  | inr err => mret (http_Error ("render forwarding config: " +:+ error_text err) 503)
  | inl cfg => mret (OpsText 200 (Some "application/x-yaml") cfg)
  end.

Definition healthz : Op ops_reply := mret (OpsText 200 None "ok").

Definition readyz : Op ops_reply :=
  r ← mtry Ping;
  match r with
  | inr err => mret (http_Error ("not ready: " +:+ error_text err) 503)
  | inl _ => mret (OpsText 200 None "ready")
  end.

Definition forwarding_path : string := "/internal/v1/collector-config/forwarding".

Definition ops_routes : list (option string * string * Op ops_reply) :=
  [(None, "/metrics", mret OpsMetrics);
   (Some "GET", forwarding_path, forwarding_handler);
   (None, "/healthz", healthz);
   (None, "/readyz", readyz)].
Definition NewOpsHandler : string → string → Op ops_reply := serve_mux ops_routes.

End Listener.
End Ops.

(** * The web interface (internal/api/spa.go)

    What the router has no route for.  A file under the configured directory
    is the list of the elements of its path; [WebFiles] is what [os.Stat] and
    [http.Dir] find there. *)
Module Spa.
Import Api Ops.

(** Whether the file is there, and whether it is a directory. *)
Class WebFiles := { web_IsDir : list string → option bool }.

Inductive spa_reply :=
  | SpaError (r : response)
  | SpaText (status : Z) (body : string)
  | SpaRedirect (relative : string)
  | SpaFile (elements : list string)
  | SpaListing (elements : list string).

Definition NotFound : spa_reply := SpaText 404 ("404 page not found" +:+ newline).

Definition HasSuffix (p s : string) : bool :=
  (String.length p <=? String.length s)%nat
  && bool_decide (String.substring (String.length s - String.length p) (String.length p) s = p).

Definition elements (p : string) : list string := reverse (fold_left clean_step (segments p) []).
Definition rooted (p : string) : string := if HasPrefix "/" p then p else "/" +:+ p.
(** The elements of what [filepath.Clean] makes of the path. *)
Definition path200 (p : string) : list string := elements (rooted p).

(** net/http's [containsDotDot]; both slashes separate. *)
Fixpoint slashed (s : string) : string :=
  match s with
  | EmptyString => ""
  | String a s' => String (if bool_decide (code a = 92%N) then "/"%char else a) (slashed s')
  end.
Definition containsDotDot (p : string) : bool := existsb (λ s, bool_decide (s = "..")) (segments (slashed p)).

Section Spa.
Context {FILES : WebFiles}.

(** [http.FileServer] on a path whose file is there. *)
Definition fileServer (path : string) (file : list string) : spa_reply :=
  let upath := rooted path in
  if HasSuffix "/index.html" upath then SpaRedirect "./"
  else if HasSuffix "/" upath
       then match last file with
            | Some base => SpaRedirect ("../" +:+ base)
            | None => SpaText 500 ("http: attempting to traverse a non-directory" +:+ newline)
            end
  else SpaFile file.

(** [http.ServeFile] of the directory's index.html. *)
Definition serveIndex (path : string) : spa_reply :=
  if containsDotDot path then SpaText 400 ("invalid URL path" +:+ newline)
  else if HasSuffix "/index.html" path then SpaRedirect "./"
  else match web_IsDir ["index.html"] with
       | None => NotFound
       | Some false => SpaFile ["index.html"]
       | Some true => match web_IsDir ["index.html"; "index.html"] with
                      | Some false => SpaFile ["index.html"; "index.html"]
                      | _ => SpaListing ["index.html"]
                      end
       end.

Definition spaHandler (webDir path : string) : spa_reply :=
  if HasPrefix "/api/" path then SpaError (errResp 404 codeNotFound "no such endpoint")
  else if bool_decide (webDir = "") || HasPrefix "/auth/" path then NotFound
  else
    let file := path200 path in
    match web_IsDir file with
    | Some false => fileServer path file
    | _ => serveIndex path
    end.
End Spa.
End Spa.
