(* ===== verification/Ctl.v ===== *)
(** * otelfleetctl (cmd/otelfleetctl)

    The command line: flags, export of a fleet as a declarative spec and its
    application, which creates what is missing and updates what differs.  The
    management API the client talks to is the class [FleetAPI], YAML is
    [SpecYAML], the file system [Files]. *)
From Stdlib Require Import Ascii.
From S2P Require Import Prelude GoStrings GoText Store World Json PipelineGraph.

Module Ctl.

(** ** What the API deals in (client.go)

    A nil slice or map is [None]: encoding/json tells it from an empty one.
    The value of a configuration is the JSON it is marshalled to, the members
    of an object in the order of their names. *)
Record Customer := {
  ID : string; Slug : string; Name : string; ClientID : string; Status : string;
  RateLimitItemsPerSec : option Z; RetentionDays : option Z;
}.

Record GraphNode := { Type_ : string; NodeName : option string; Config : option members }.
Record PipelineGraph := {
  Signals : option (list string);
  Processors : option (list GraphNode);
  Exporters : option (list GraphNode);
}.

Record Pipeline := {
  PID : string; PName : string; TargetClass : string;
  ActiveVersion : option Z; LatestVersion : option Z;
}.
Record PipelineVersion := { Version : Z; VGraph : PipelineGraph }.

(** The body of a PATCH: the keys that are present; null clears. *)
Record CustomerUpdate := {
  up_name : option string;
  up_rateLimitItemsPerSec : option (option Z);
  up_retentionDays : option (option Z);
}.

Class FleetAPI (S : Type) := {
  listCustomers : M S error (list Customer);
  createCustomer : string → string → M S error Customer;
  updateCustomer : string → CustomerUpdate → M S error unit;
  listPipelines : string → M S error (list Pipeline);
  getPipelineVersion : string → Z → M S error PipelineVersion;
  createPipeline : string → string → string → PipelineGraph → M S error Pipeline;
  createPipelineVersion : string → PipelineGraph → M S error PipelineVersion;
  activateVersion : string → Z → M S error unit;
}.

(** ** The spec (apply.go) *)

Record PipelineSpec := { ps_Name : string; ps_TargetClass : string; ps_Graph : PipelineGraph }.
Record CustomerSpec := {
  cs_Name : string; cs_Slug : string; cs_RateLimitItemsPerSec : option Z; cs_RetentionDays : option Z;
  cs_Pipelines : list PipelineSpec;
}.
Record Spec := { Customers : list CustomerSpec }.

(** yaml.v3 with known fields only, and its encoder with two spaces. *)
Class SpecYAML := { yamlUnmarshalStrict : string → Spec + error; marshalYAML : Spec → string + error }.

Class Files := { os_WriteError : string → option error }.

Definition nl : string := String "010"%char "".

(** ** Flags (main.go) *)

Record flags := { fl_out : string; fl_file : string; fl_dryRun : bool }.

Section Flags.
Context (unicode_print : N → bool).

Fixpoint parse_loop (f : flags) (args : list string) : flags + error :=
  match args with
  | [] => inl f
  | a :: rest =>
    if bool_decide (a ∈ ["-o"; "--out"]) then
      match rest with
      | [] => inr (ErrNew (a +:+ " requires a value"))
      | v :: rest' => parse_loop {| fl_out := v; fl_file := fl_file f; fl_dryRun := fl_dryRun f |} rest'
      end
    else if bool_decide (a ∈ ["-f"; "--file"]) then
      match rest with
      | [] => inr (ErrNew (a +:+ " requires a value"))
      | v :: rest' => parse_loop {| fl_out := fl_out f; fl_file := v; fl_dryRun := fl_dryRun f |} rest'
      end
    else if bool_decide (a = "--dry-run")
    then parse_loop {| fl_out := fl_out f; fl_file := fl_file f; fl_dryRun := true |} rest
    else inr (ErrNew ("unexpected argument " +:+ Quote unicode_print a))
  end.
Definition parseFlags (args : list string) : flags + error :=
  parse_loop {| fl_out := ""; fl_file := ""; fl_dryRun := false |} args.
End Flags.

(** ** Comparing (helpers.go) *)

Fixpoint json_eqb (v w : json) {struct v} : bool :=
  match v, w with
  | JNull, JNull => true
  | JBool b, JBool c => bool_decide (b = c)
  | JNum s, JNum t | JStr s, JStr t => bool_decide (s = t)
  | JArr l, JArr l' =>
    (fix elems l l' := match l, l' with
                       | [], [] => true
                       | x :: l, y :: l' => json_eqb x y && elems l l'
                       | _, _ => false
                       end) l l'
  | JObj m, JObj m' =>
    (fix members m m' := match m, m' with
                         | [], [] => true
                         | (k, x) :: m, (k', y) :: m' => bool_decide (k = k') && json_eqb x y && members m m'
                         | _, _ => false
                         end) m m'
  | _, _ => false
  end.

Definition intEq (a b : option Z) : bool := bool_decide (a = b).

Definition marshal_list {A} (f : A → json) (l : option (list A)) : json :=
  match l with None => JNull | Some l => JArr (f <$> l) end.
Definition marshal_node (n : GraphNode) : json :=
  JObj ([("type", JStr (Type_ n))]
        ++ (match NodeName n with Some s => [("name", JStr s)] | None => [] end)
        ++ [("config", match Config n with Some m => JObj m | None => JNull end)]).
Definition marshal_graph (g : PipelineGraph) : json :=
  JObj [("signals", marshal_list JStr (Signals g)); ("processors", marshal_list marshal_node (Processors g));
        ("exporters", marshal_list marshal_node (Exporters g))].
Definition graphEqual (a b : PipelineGraph) : bool := json_eqb (marshal_graph a) (marshal_graph b).

Definition defaultClass (c : string) : string := if bool_decide (c = "") then "forwarding" else c.

(** The keys of the update, sorted. *)
Definition keysOf (u : CustomerUpdate) : list string :=
  (if is_some (up_name u) then ["name"] else [])
  ++ (if is_some (up_rateLimitItemsPerSec u) then ["rateLimitItemsPerSec"] else [])
  ++ (if is_some (up_retentionDays u) then ["retentionDays"] else []).

(** ** The plan and the output *)

(** The state of a run: what is behind the API, the files, what was printed
    and the planned changes. *)
Record ctl (S : Type) := {
  ct_api : S; ct_files : gmap string string; ct_out : string; ct_err : string;
}.
#[global] Arguments Build_ctl {S} _ _ _ _.
#[global] Arguments ct_api {S} _.
#[global] Arguments ct_files {S} _.
#[global] Arguments ct_out {S} _.
#[global] Arguments ct_err {S} _.

Record planPrinter := { pp_dryRun : bool; pp_changes : nat }.

Section Commands.
Context {S : Type} {API : FleetAPI S} {YML : SpecYAML} {FS : Files} (unicode_print : N → bool) (token : string).

Abbreviation C := (M (ctl S) error).
Abbreviation quoted := (Quote unicode_print).

Definition call {A} (m : M S error A) : C A := λ s,
  let '(r, a) := m (ct_api s) in (r, Build_ctl a (ct_files s) (ct_out s) (ct_err s)).
Definition print (line : string) : C unit :=
  mmodify (λ s, Build_ctl (ct_api s) (ct_files s) (ct_out s +:+ line +:+ nl) (ct_err s)).
Definition wrap {A} (what : string) (m : C A) : C A :=
  r ← mtry m; match r with inl a => mret a | inr e => mthrow (Wrap what e) end.

Definition newPlan (dryRun : bool) : planPrinter := {| pp_dryRun := dryRun; pp_changes := 0 |}.
Definition plan_add (p : planPrinter) (text : string) : C planPrinter :=
  print ("  " +:+ (if pp_dryRun p then "would:" else "apply:") +:+ " " +:+ text);;
  mret {| pp_dryRun := pp_dryRun p; pp_changes := 1 + pp_changes p |}.
Definition plan_skip (text : string) : C unit := print ("  skip:  " +:+ text).
Definition plan_summary (p : planPrinter) : C unit :=
  if bool_decide (pp_changes p = 0) then print "everything up to date"
  else if pp_dryRun p
  then print (Itoa (Z.of_nat (pp_changes p)) +:+ " change(s) planned (dry-run; nothing applied)")
  else print (Itoa (Z.of_nat (pp_changes p)) +:+ " change(s) applied").

Definition requireToken : C unit :=
  if bool_decide (token = "")
  then mthrow (ErrNew "OTELFLEET_TOKEN is not set (create one under Settings → API tokens)") else mret tt.

(** *** export *)

Fixpoint export_pipelines (l : list Pipeline) : C (list PipelineSpec) :=
  match l with
  | [] => mret []
  | p :: l' =>
    match (match ActiveVersion p with Some v => Some v | None => LatestVersion p end) with
    | None => export_pipelines l'
    | Some ver =>
      pv ← call (getPipelineVersion (PID p) ver);
      rest ← export_pipelines l';
      mret ({| ps_Name := PName p; ps_TargetClass := TargetClass p; ps_Graph := VGraph pv |} :: rest)
    end
  end.

Fixpoint export_customers (l : list Customer) : C (list CustomerSpec) :=
  match l with
  | [] => mret []
  | cust :: l' =>
    if bool_decide (Status cust = "deleted") then export_customers l'
    else
      pipes ← call (listPipelines (ID cust));
      ps ← export_pipelines pipes;
      rest ← export_customers l';
      mret ({| cs_Name := Name cust; cs_Slug := Slug cust; cs_RateLimitItemsPerSec := RateLimitItemsPerSec cust;
               cs_RetentionDays := RetentionDays cust; cs_Pipelines := ps |} :: rest)
  end.

(** By slug; [sort.Slice] leaves the order of equal slugs open. *)
Definition sortCustomers (l : list Customer) : list Customer :=
  merge_sort (λ a b, Is_true (String.leb (Slug a) (Slug b))) l.

Definition export_header : string :=
  "# otelfleet declarative config — exported. Secrets are redacted" +:+ nl
  +:+ "# (__otelfleet_redacted__); fill them in before applying to a fresh target." +:+ nl.

Definition export_spec : C Spec :=
  customers ← call listCustomers;
  l ← export_customers (sortCustomers customers);
  mret {| Customers := l |}.

Definition cmdExport (args : list string) : C unit :=
  requireToken;;
  match parseFlags unicode_print args with
  | inr e => mthrow e
  | inl f =>
    spec ← export_spec;
    match marshalYAML spec with
    | inr e => mthrow e
    | inl text =>
      let data := export_header +:+ text in
      if bool_decide (fl_out f = "")
      then mmodify (λ s, Build_ctl (ct_api s) (ct_files s) (ct_out s +:+ data) (ct_err s))
      else match os_WriteError (fl_out f) with
           | Some e => mthrow e
           | None =>
             mmodify (λ s, Build_ctl (ct_api s) (<[fl_out f := data]> (ct_files s)) (ct_out s)
               (ct_err s +:+ "wrote " +:+ Itoa (Z.of_nat (length (Customers spec))) +:+ " customer(s) to " +:+ fl_out f +:+ nl))
           end
    end
  end.

(** *** apply *)

(** The pipeline of a name: later entries of the list win. *)
Definition byName (l : list Pipeline) (name : string) : option Pipeline :=
  last (filter (λ p, PName p = name) l).
Definition bySlug (l : list Customer) (slug : string) : option Customer :=
  last (filter (λ c, Slug c = slug) l).

(** One pipeline of the spec. *)
Definition apply_pipeline (plan : planPrinter) (cust : Customer) (existing : list Pipeline) (ps : PipelineSpec)
    : C planPrinter :=
  match byName existing (ps_Name ps) with
  | None =>
    plan ← plan_add plan ("create pipeline " +:+ quoted (ps_Name ps) +:+ " for " +:+ quoted (Slug cust) +:+ " + activate");
    (if pp_dryRun plan then mret tt
     else
       created ← wrap ("create pipeline " +:+ quoted (ps_Name ps))
                   (call (createPipeline (ID cust) (ps_Name ps) (defaultClass (ps_TargetClass ps)) (ps_Graph ps)));
       wrap ("activate pipeline " +:+ quoted (ps_Name ps) +:+ " v1") (call (activateVersion (PID created) 1)));;
    mret plan
  | Some p =>
    let cur := match ActiveVersion p with Some v => Some v | None => LatestVersion p end in
    changed ← match cur with
              | None => mret true
              | Some v =>
                pv ← call (getPipelineVersion (PID p) v);
                mret (negb (graphEqual (VGraph pv) (ps_Graph ps)))
              end;
    if negb changed then
      plan_skip ("pipeline " +:+ quoted (Slug cust) +:+ "/" +:+ quoted (ps_Name ps) +:+ " unchanged");;
      mret plan
    else
      plan ← plan_add plan ("new version + activate for pipeline " +:+ quoted (Slug cust) +:+ "/" +:+ quoted (ps_Name ps));
      (if pp_dryRun plan then mret tt
       else
         ver ← wrap ("new version for " +:+ quoted (ps_Name ps)) (call (createPipelineVersion (PID p) (ps_Graph ps)));
         wrap ("activate " +:+ quoted (ps_Name ps) +:+ " v" +:+ Itoa (Version ver))
           (call (activateVersion (PID p) (Version ver))));;
      mret plan
  end.

Fixpoint apply_specs (plan : planPrinter) (cust : Customer) (existing : list Pipeline) (specs : list PipelineSpec)
    : C planPrinter :=
  match specs with
  | [] => mret plan
  | ps :: l => plan ← apply_pipeline plan cust existing ps; apply_specs plan cust existing l
  end.

Definition applyPipelines (plan : planPrinter) (cust : Customer) (specs : list PipelineSpec) : C planPrinter :=
  existing ← call (listPipelines (ID cust));
  apply_specs plan cust existing specs.

(** The customer an entry is for: by slug, or by name when it gives none. *)
Definition matched (existing : list Customer) (cs : CustomerSpec) : option Customer :=
  match bySlug existing (cs_Slug cs) with
  | Some c => Some c
  | None => if bool_decide (cs_Slug cs = "")
            then find (λ c, bool_decide (Name c = cs_Name cs)) existing else None
  end.

Definition update_for (cust : Customer) (cs : CustomerSpec) : CustomerUpdate := {|
  up_name := if bool_decide (Name cust = cs_Name cs) then None else Some (cs_Name cs);
  up_rateLimitItemsPerSec :=
    if intEq (RateLimitItemsPerSec cust) (cs_RateLimitItemsPerSec cs) then None else Some (cs_RateLimitItemsPerSec cs);
  up_retentionDays :=
    if intEq (RetentionDays cust) (cs_RetentionDays cs) then None else Some (cs_RetentionDays cs) |}.

Definition list_text (l : list string) : string :=
  "[" +:+ match l with [] => "" | x :: l' => foldl (λ acc y, acc +:+ " " +:+ y) x l' end +:+ "]".

(** Name, quota and retention of a customer that is there. *)
Definition reconcile (plan : planPrinter) (cust : Customer) (cs : CustomerSpec) : C planPrinter :=
  let upd := update_for cust cs in
  if bool_decide (keysOf upd = []) then mret plan
  else
    plan ← plan_add plan ("update customer " +:+ quoted (cs_Slug cs) +:+ " " +:+ list_text (keysOf upd));
    (if pp_dryRun plan then mret tt
     else wrap ("update customer " +:+ quoted (cs_Slug cs)) (call (updateCustomer (ID cust) upd)));;
    mret plan.

Fixpoint plan_pipelines (plan : planPrinter) (cs : CustomerSpec) (l : list PipelineSpec) : C planPrinter :=
  match l with
  | [] => mret plan
  | p :: l' =>
    plan ← plan_add plan ("  would create pipeline " +:+ quoted (ps_Name p) +:+ " (targetClass=" +:+ ps_TargetClass p
                          +:+ ") for new customer " +:+ quoted (cs_Name cs));
    plan_pipelines plan cs l'
  end.

Definition apply_customer (plan : planPrinter) (existing : list Customer) (cs : CustomerSpec) : C planPrinter :=
  '(plan, cust) ← match matched existing cs with
    | Some c => mret (plan, Some c)
    | None =>
      plan ← plan_add plan ("create customer " +:+ quoted (cs_Name cs));
      if pp_dryRun plan then mret (plan, None)
      else created ← wrap ("create customer " +:+ quoted (cs_Name cs)) (call (createCustomer (cs_Name cs) (cs_Slug cs)));
           mret (plan, Some created)
    end;
  match cust with
  | None => plan_pipelines plan cs (cs_Pipelines cs)
  | Some c =>
    plan ← reconcile plan c cs;
    if pp_dryRun plan && bool_decide (ID c = "") then plan_pipelines plan cs (cs_Pipelines cs)
    else applyPipelines plan c (cs_Pipelines cs)
  end.

Fixpoint apply_customers (plan : planPrinter) (existing : list Customer) (l : list CustomerSpec) : C planPrinter :=
  match l with
  | [] => mret plan
  | cs :: l' => plan ← apply_customer plan existing cs; apply_customers plan existing l'
  end.

Definition apply_spec (dryRun : bool) (spec : Spec) : C planPrinter :=
  existing ← call listCustomers;
  plan ← apply_customers (newPlan dryRun) existing (Customers spec);
  plan_summary plan;;
  mret plan.

Definition cmdApply (args : list string) : C unit :=
  requireToken;;
  match parseFlags unicode_print args with
  | inr e => mthrow e
  | inl f =>
    if bool_decide (fl_file f = "") then mthrow (ErrNew "apply requires -f FILE")
    else
      files ← mgets ct_files;
      match files !! fl_file f with
      | None => mthrow (ErrNew ("open " +:+ fl_file f +:+ ": no such file or directory"))
      | Some raw =>
        match yamlUnmarshalStrict raw with
        | inr e => mthrow (Wrap ("parse " +:+ fl_file f) e)
        | inl spec => apply_spec (fl_dryRun f) spec;; mret tt
        end
      end
  end.

End Commands.
End Ctl.
