(* ===== verification/CtlClient.v ===== *)
(** * The client of otelfleetctl (cmd/otelfleetctl/client.go)

    One HTTP exchange per endpoint: the method, path and body sent, and the
    answer read into the client's structs, for answers that repeat no key in an
    object.  [HTTPTransport] is the HTTP client with the control plane behind
    it, [AnyJSON] what a map[string]any keeps of the JSON read into it.  The
    codec is sound: the graph the client posts reads back as the graph it was
    ([graph_read_back]). *)
From Stdlib Require Import Ascii.
From S2P Require Import Prelude GoStrings GoText Store Json PipelineGraph Ctl.
Import Ctl.

Module CtlClient.

Record HTTPCall := {
  hc_Method : string; hc_URL : string; hc_Authorization : string; hc_Body : option json;
}.

(** The answer: its text, and the JSON it is if it is any. *)
Record HTTPReply := { hr_Status : Z; hr_Text : string; hr_JSON : option json }.

Class HTTPTransport (S : Type) := { http_Do : HTTPCall → M S error HTTPReply }.

(** Decoding an object into map[string]any and marshalling it again: keys
    sorted, numbers as float64. *)
Class AnyJSON := { any_members : members → members }.

(** ** Reading the structs *)

Definition decode_int_ptr (v : json) : option (option Z) :=
  match v with JNum lit => Some <$> ParseInt lit | JNull => Some None | _ => None end.
Definition decode_int (old : Z) (v : json) : option Z :=
  match v with JNum lit => ParseInt lit | JNull => Some old | _ => None end.
(** A slice field; null makes it nil. *)
Definition decode_list {A} (dec : json → option A) (v : json) : option (option (list A)) :=
  match v with JNull => Some None | JArr l => Some <$> mapM dec l | _ => None end.

Definition zero_customer : Customer := Build_Customer "" "" "" "" "" None None.
Definition customer_fields : setters Customer :=
  [("id", λ c v, s ← decode_text (ID c) v; Some (Build_Customer s (Slug c) (Name c) (ClientID c) (Status c) (RateLimitItemsPerSec c) (RetentionDays c)));
   ("slug", λ c v, s ← decode_text (Slug c) v; Some (Build_Customer (ID c) s (Name c) (ClientID c) (Status c) (RateLimitItemsPerSec c) (RetentionDays c)));
   ("name", λ c v, s ← decode_text (Name c) v; Some (Build_Customer (ID c) (Slug c) s (ClientID c) (Status c) (RateLimitItemsPerSec c) (RetentionDays c)));
   ("clientId", λ c v, s ← decode_text (ClientID c) v; Some (Build_Customer (ID c) (Slug c) (Name c) s (Status c) (RateLimitItemsPerSec c) (RetentionDays c)));
   ("status", λ c v, s ← decode_text (Status c) v; Some (Build_Customer (ID c) (Slug c) (Name c) (ClientID c) s (RateLimitItemsPerSec c) (RetentionDays c)));
   ("rateLimitItemsPerSec", λ c v, n ← decode_int_ptr v; Some (Build_Customer (ID c) (Slug c) (Name c) (ClientID c) (Status c) n (RetentionDays c)));
   ("retentionDays", λ c v, n ← decode_int_ptr v; Some (Build_Customer (ID c) (Slug c) (Name c) (ClientID c) (Status c) (RateLimitItemsPerSec c) n))].
Definition decode_customer : json → option Customer := decode_struct customer_fields zero_customer.

Definition zero_pipeline : Pipeline := Build_Pipeline "" "" "" None None.
Definition pipeline_fields : setters Pipeline :=
  [("id", λ p v, s ← decode_text (PID p) v; Some (Build_Pipeline s (PName p) (TargetClass p) (ActiveVersion p) (LatestVersion p)));
   ("name", λ p v, s ← decode_text (PName p) v; Some (Build_Pipeline (PID p) s (TargetClass p) (ActiveVersion p) (LatestVersion p)));
   ("targetClass", λ p v, s ← decode_text (TargetClass p) v; Some (Build_Pipeline (PID p) (PName p) s (ActiveVersion p) (LatestVersion p)));
   ("activeVersion", λ p v, n ← decode_int_ptr v; Some (Build_Pipeline (PID p) (PName p) (TargetClass p) n (LatestVersion p)));
   ("latestVersion", λ p v, n ← decode_int_ptr v; Some (Build_Pipeline (PID p) (PName p) (TargetClass p) (ActiveVersion p) n))].
Definition decode_pipeline : json → option Pipeline := decode_struct pipeline_fields zero_pipeline.

Section Client.
Context {ANY : AnyJSON}.

Definition node_fields : setters GraphNode :=
  [("type", λ n v, s ← decode_text (Type_ n) v; Some (Build_GraphNode s (NodeName n) (Config n)));
   ("name", λ n v, s ← decode_text_ptr v; Some (Build_GraphNode (Type_ n) s (Config n)));
   ("config", λ n v, match v with
                     | JNull => Some (Build_GraphNode (Type_ n) (NodeName n) None)
                     | JObj m => Some (Build_GraphNode (Type_ n) (NodeName n) (Some (any_members m)))
                     | _ => None
                     end)].
Definition decode_node : json → option GraphNode := decode_struct node_fields (Build_GraphNode "" None None).

Definition zero_graph : PipelineGraph := Build_PipelineGraph None None None.
Definition graph_fields : setters PipelineGraph :=
  [("signals", λ g v, l ← decode_list (decode_text "") v; Some (Build_PipelineGraph l (Processors g) (Exporters g)));
   ("processors", λ g v, l ← decode_list decode_node v; Some (Build_PipelineGraph (Signals g) l (Exporters g)));
   ("exporters", λ g v, l ← decode_list decode_node v; Some (Build_PipelineGraph (Signals g) (Processors g) l))].

Definition version_fields : setters PipelineVersion :=
  [("version", λ p v, n ← decode_int (Version p) v; Some (Build_PipelineVersion n (VGraph p)));
   ("graph", λ p v, g ← decode_struct graph_fields (VGraph p) v; Some (Build_PipelineVersion (Version p) g))].
Definition decode_version : json → option PipelineVersion :=
  decode_struct version_fields (Build_PipelineVersion 0 zero_graph).

(** The one field of a wrapper struct. *)
Definition decode_field {A} (name : string) (dec : json → option A) (zero : A) : json → option A :=
  decode_struct [(name, λ _ v, dec v)] zero.
Definition decode_customers : json → option (list Customer) :=
  decode_field "customers" (λ v, default [] <$> decode_list decode_customer v) [].
Definition decode_pipelines : json → option (list Pipeline) :=
  decode_field "pipelines" (λ v, default [] <$> decode_list decode_pipeline v) [].

(** ** The exchange *)

Context {S : Type} {HTTP : HTTPTransport S} (base token : string).

Definition baseURL : string := TrimSuffix base "/".

(** The request, a failure of it with the method and the path in front. *)
Definition exchange (method path : string) (body : option json) : M S error HTTPReply :=
  r ← mtry (http_Do {| hc_Method := method; hc_URL := baseURL +:+ path;
                       hc_Authorization := "Bearer " +:+ token; hc_Body := body |});
  match r with inl reply => mret reply | inr e => mthrow (Wrap (method +:+ " " +:+ path) e) end.

(** A status outside 2xx is an error with the text of the answer; an empty
    answer leaves the struct as it is. *)
Definition do_ {A} (method path : string) (body : option json) (out : json → option A) (zero : A) : M S error A :=
  r ← exchange method path body;
  if (hr_Status r <? 200)%Z || (300 <=? hr_Status r)%Z
  then mthrow (ErrNew ("HTTP " +:+ Itoa (hr_Status r) +:+ ": " +:+ TrimSpace (hr_Text r)))
  else if bool_decide (hr_Text r = "") then mret zero
  else match v ← hr_JSON r; out v with
       | Some a => mret a
       | None => mthrow (ErrNew "invalid response body")
       end.

(** No struct to read into: the answer is not looked at. *)
Definition do_unit (method path : string) (body : option json) : M S error unit :=
  r ← exchange method path body;
  if (hr_Status r <? 200)%Z || (300 <=? hr_Status r)%Z
  then mthrow (ErrNew ("HTTP " +:+ Itoa (hr_Status r) +:+ ": " +:+ TrimSpace (hr_Text r)))
  else mret tt.

Definition int_json (o : option Z) : json := match o with Some n => JNum (Itoa n) | None => JNull end.

(** The body of the PATCH; a map is marshalled in the order of its keys. *)
Definition update_json (u : CustomerUpdate) : json := JObj (
  (match up_name u with Some s => [("name", JStr s)] | None => [] end)
  ++ (match up_rateLimitItemsPerSec u with Some n => [("rateLimitItemsPerSec", int_json n)] | None => [] end)
  ++ (match up_retentionDays u with Some n => [("retentionDays", int_json n)] | None => [] end)).

(** The result is read after the call has filled it, which is the order the
    compiler chooses; the language leaves it open. *)
Definition client_API : FleetAPI S := {|
  listCustomers := do_ "GET" "/api/v1/customers" None decode_customers [];
  createCustomer name slug :=
    do_ "POST" "/api/v1/customers"
      (Some (JObj ([("name", JStr name)] ++ (if bool_decide (slug = "") then [] else [("slug", JStr slug)]))))
      (decode_field "customer" decode_customer zero_customer) zero_customer;
  updateCustomer id u := do_unit "PATCH" ("/api/v1/customers/" +:+ id) (Some (update_json u));
  listPipelines cid := do_ "GET" ("/api/v1/customers/" +:+ cid +:+ "/pipelines") None decode_pipelines [];
  getPipelineVersion pid n :=
    do_ "GET" ("/api/v1/pipelines/" +:+ pid +:+ "/versions/" +:+ Itoa n) None decode_version
      (Build_PipelineVersion 0 zero_graph);
  createPipeline cid name class g :=
    do_ "POST" ("/api/v1/customers/" +:+ cid +:+ "/pipelines")
      (Some (JObj [("graph", marshal_graph g); ("name", JStr name); ("targetClass", JStr class)]))
      decode_pipeline zero_pipeline;
  createPipelineVersion pid g :=
    do_ "POST" ("/api/v1/pipelines/" +:+ pid +:+ "/versions") (Some (JObj [("graph", marshal_graph g)]))
      decode_version (Build_PipelineVersion 0 zero_graph);
  activateVersion pid n :=
    do_unit "POST" ("/api/v1/pipelines/" +:+ pid +:+ "/versions/" +:+ Itoa n +:+ "/activate") None |}.

End Client.

(** ** What is read of what was sent *)

(** A configuration survives the trip when its values do. *)
Definition settled_node {ANY : AnyJSON} (n : GraphNode) : Prop :=
  match Config n with Some m => any_members m = m | None => True end.
Definition settled {ANY : AnyJSON} (g : PipelineGraph) : Prop :=
  Forall settled_node (default [] (Processors g)) ∧ Forall settled_node (default [] (Exporters g)).

Section ReadBack.
Context {ANY : AnyJSON}.

(** Which field a name selects is a computation on the names alone. *)
Fixpoint position {A} (p : A → bool) (l : list A) : option nat :=
  match l with [] => None | x :: l' => if p x then Some 0%nat else Datatypes.S <$> position p l' end.

Lemma find_position {A} (p : A → bool) l i : position p l = Some i → find p l = l !! i.
Proof.
  revert i. induction l as [|x l IH]; [done|]. cbn [position find]. destruct (p x).
  - by intros i [= <-].
  - destruct (position p l) as [j|]; [|done]. intros i [= <-]. by rewrite (IH j).
Qed.

Lemma decode_member {A} (fields : setters A) i name set x x' k v m :
  position (λ f, bool_decide (fold_name f.1 = fold_name k)) fields = Some i →
  fields !! i = Some (name, set) → set x v = Some x' →
  decode_members fields x ((k, v) :: m) = decode_members fields x' m.
Proof. 
  intros Hp Hi Hset. cbn [decode_members]. pose proof (eq_trans (find_position _ _ _ Hp) Hi) as Hf.
  setoid_rewrite Hf. by rewrite Hset.
Qed.

Ltac read_member i :=
  erewrite (decode_member _ i); [|vm_compute; reflexivity|reflexivity|reflexivity].

Lemma list_read_back {A} (enc : A → json) (dec : json → option A) (P : A → Prop) (l : option (list A)) :
  (∀ x, P x → dec (enc x) = Some x) → Forall P (default [] l) →
  decode_list dec (marshal_list enc l) = Some l.
Proof.
  intros Hdec HP. destruct l as [l|]; [|done]. cbn in HP |- *.
  assert (mapM dec (enc <$> l) = Some l) as ->; [|done].
  induction HP as [|x l Hx _ IH]; [done|]. cbn. by rewrite (Hdec x Hx), IH.
Qed.

Lemma node_read_back n : settled_node n → decode_node (marshal_node n) = Some n.
Proof.
  destruct n as [t name cfg]. unfold settled_node. cbn [Config]. intros Hm.
  unfold decode_node, decode_struct, marshal_node. cbn [Type_ NodeName Config].
  assert (Hc : ∀ n0 : GraphNode, decode_members node_fields n0
            [("config", match cfg with Some m => JObj m | None => JNull end)]
          = Some (Build_GraphNode (Type_ n0) (NodeName n0) cfg)).
  { intros n0. erewrite (decode_member _ 2); [done|vm_compute; reflexivity|reflexivity|].
    destruct cfg; cbn; by rewrite ?Hm. }
  cbn [app]. read_member 0. destruct name; cbn [app]; [read_member 1|]; by rewrite Hc.
Qed.

Theorem graph_read_back g :
  settled g → decode_struct graph_fields zero_graph (marshal_graph g) = Some g.
Proof.
  destruct g as [sig pr ex]. intros [Hp He]. cbn [Processors Exporters] in Hp, He.
  assert (Hs : decode_list (decode_text "") (marshal_list JStr sig) = Some sig)
    by (apply (list_read_back _ _ (λ _, True)); [done|by apply Forall_true]).
  assert (Hn : ∀ l, Forall settled_node (default [] l) →
                    decode_list decode_node (marshal_list marshal_node l) = Some l)
    by (intros l; apply list_read_back; intros n; apply node_read_back).
  unfold decode_struct, marshal_graph. cbn [Signals Processors Exporters].
  erewrite (decode_member _ 0); [|vm_compute; reflexivity|reflexivity|cbv beta; by rewrite Hs].
  erewrite (decode_member _ 1); [|vm_compute; reflexivity|reflexivity|cbv beta; by rewrite Hn].
  erewrite (decode_member _ 2); [|vm_compute; reflexivity|reflexivity|cbv beta; by rewrite Hn].
  done.
Qed.

End ReadBack.

End CtlClient.
