(* ===== verification/ApiHttpProps.v ===== *)
(** * Every request is an operation

    What the router hands to a wrapper is denied by the Guard, refused with
    400, or served exactly as an operation of the modelled route tables whose
    path is the matched pattern with the bound parameters; and the Guard, which
    reads the path as it was sent, decides as on the path of that operation,
    however the request spelled it. *)
From Stdlib Require Import Ascii Floats.SpecFloat.
From S2P Require Import Prelude GoStrings Store World PgCore PgUsers StoreInv PipelineInv Tenants AuditLog GoText Json Catalog PipelineGraph Render Validate RenderProps Crypto PipelineService PipelineServiceProps Auth ApiTypes ApiGuard ApiHandlers ApiAdmin ApiRoutes ApiFrame JsonText Telemetry Stats ApiTelemetry TelemetryProps Sso SsoProps ApiProviders ApiHttp Ctl CtlClient.

Module HttpProps.
Import Api Providers ApiHttp.
(** What the Guard asks of a path. *)
Definition path_class (path : string) : bool * bool * bool :=
  (bool_decide (path ∈ publicPaths), isAdminOnlyPath path, bool_decide (path = logoutPath)).

(** Values in the places of a pattern's parameters. *)
Fixpoint fill (ps : list part) (vs : list string) : string :=
  match ps, vs with
  | [], _ => ""
  | Lit s :: ps', _ => s +:+ fill ps' vs
  | Par _ :: ps', v :: vs' => v +:+ fill ps' vs'
  | Par _ :: ps', [] => fill ps' []
  end.

Fixpoint par_names (parts : list part) : list string :=
  match parts with
  | [] => []
  | Lit _ :: parts' => par_names parts'
  | Par n :: parts' => n :: par_names parts'
  end.

Lemma match_names parts path ps : match_parts parts path = Some ps → ps.*1 = par_names parts.
Proof.
  revert path ps. induction parts as [|[l|n] parts IH]; intros path ps; simpl.
  - case_bool_decide; [|done]. by intros [= <-].
  - destruct (HasPrefix _ _); [apply IH|done].
  - destruct (span_until _ _) as [v rest]. destruct (match_parts parts rest) eqn:E; [|done].
    intros [= <-]. simpl. f_equal. by eapply IH.
Qed.


(** ** Paths and what the Guard asks of them *)

Lemma HasPrefix_inv p s : HasPrefix p s = true → ∃ x, s = p +:+ x.
Proof.
  revert s. induction p as [|a p IH]; intros s; [by exists s|].
  destruct s as [|b s]; [done|]. simpl. intros [->%bool_decide_eq_true (x & ->)%IH]%andb_true_iff. by exists x.
Qed.

Lemma HasPrefix_app p x : HasPrefix p (p +:+ x) = true.
Proof. induction p as [|a p IH]; [done|]. simpl. by rewrite bool_decide_true. Qed.

Lemma TrimPrefix_app p x : TrimPrefix (p +:+ x) p = x.
Proof.
  unfold TrimPrefix. rewrite HasPrefix_app. apply substring_app.
  induction p as [|a p IH]; [exact (le_n _)|exact (le_S _ _ IH)].
Qed.

(** Whether a literal decides the Guard's questions about every path that
    starts with it. *)
Definition settled (l : string) : bool :=
  forallb (λ c, negb (HasPrefix l c)) (logoutPath :: publicPaths ++ adminPathPrefixes) &&
  forallb (λ p, HasPrefix (p +:+ "/") l || negb (HasPrefix l (p +:+ "/"))) adminPathPrefixes.

Lemma ne_settled l c x : HasPrefix l c = false → l +:+ x ≠ c.
Proof. intros H <-. by rewrite HasPrefix_app in H. Qed.

Lemma prefix_settled p l x :
  HasPrefix p l = true ∨ HasPrefix l p = false → HasPrefix p (l +:+ x) = HasPrefix p l.
Proof.
  revert p. induction l as [|b l IH]; intros p [Hp|Hp].
  - by destruct p.
  - done.
  - destruct p as [|a p]; [done|]. simpl in *. apply andb_true_iff in Hp as [Ha Hp].
    by rewrite Ha, IH by auto.
  - destruct p as [|a p]; [done|]. simpl in *. destruct (decide (a = b)) as [->|Hne].
    + rewrite !bool_decide_true in * by done. simpl in *. by rewrite IH by auto.
    + by rewrite !bool_decide_false by done.
Qed.

Lemma existsb_In {A} (f g : A → bool) l : (∀ x, In x l → f x = g x) → existsb f l = existsb g l.
Proof. induction l as [|x l IH]; [done|]. intros H. simpl. rewrite H, IH; [done|intros; apply H|]; simpl; auto. Qed.

Lemma settled_class l x :
  settled l = true →
  path_class (l +:+ x) = (false, existsb (λ p, HasPrefix (p +:+ "/") l) adminPathPrefixes, false).
Proof.
  unfold settled. rewrite andb_true_iff, !forallb_forall. intros [Hne Hp].
  assert (Hc : ∀ c, c ∈ logoutPath :: publicPaths ++ adminPathPrefixes → l +:+ x ≠ c).
  { intros c Hc. apply ne_settled. apply list_elem_of_In, Hne in Hc. by apply negb_true_iff. }
  unfold path_class. f_equal; [f_equal|].
  - apply bool_decide_eq_false. intros Hin. eapply Hc; [|done]. right. apply elem_of_app. by left.
  - unfold isAdminOnlyPath. apply existsb_In. intros p Hin.
    rewrite bool_decide_false; simpl.
    + apply prefix_settled. apply Hp in Hin. apply orb_true_iff in Hin as [?|?%negb_true_iff]; auto.
    + apply Hc. right. apply elem_of_app. right. by apply list_elem_of_In.
  - apply bool_decide_eq_false, Hc. left.
Qed.

Fixpoint no_percent (s : string) : bool :=
  match s with EmptyString => true | String a s' => negb (bool_decide (a = "%"%char)) && no_percent s' end.

Lemma unescape_literal l x : no_percent l = true → unescape (l +:+ x) = (λ y, l +:+ y) <$> unescape x.
Proof.
  induction l as [|a l IH]; [intros _; change ("" +:+ x) with x; by destruct (unescape x)|].
  simpl. intros [Ha%negb_true_iff Hl]%andb_true_iff. rewrite Ha, IH by done. by destruct (unescape x).
Qed.

(** A pattern whose first literal decides, or which is one literal. *)
Definition pattern_ok (parts : list part) : bool :=
  match parts with
  | [Lit l] => no_percent l
  | Lit l :: _ => no_percent l && settled l
  | _ => false
  end.

Lemma request_prefix rq l x :
  url_ok rq → no_percent l = true → route_path rq = l +:+ x →
  ∃ y, hq_Path rq = l +:+ y ∧ (x = "" → y = "").
Proof.
  unfold route_path, url_ok. intros Hu Hl. case_bool_decide as E; [intros ->; eauto|].
  destruct Hu as [?|Hu]; [done|]. intros Hr. rewrite Hr, unescape_literal in Hu by done.
  destruct (unescape x) as [y|] eqn:Ex; [|done]. injection Hu as <-. exists y. split; [done|].
  intros ->. by injection Ex as <-.
Qed.

(** The Guard decides alike on the path that was sent and on any path made of
    the same pattern. *)
Lemma pattern_class rq parts ps vs :
  url_ok rq → pattern_ok parts = true → match_parts parts (route_path rq) = Some ps →
  path_class (hq_Path rq) = path_class (fill parts vs).
Proof.
  intros Hu Hok Hm. destruct parts as [|[l|n] parts]; try done.
  simpl in Hm. destruct (HasPrefix l _) eqn:Hp; [|done]. apply HasPrefix_inv in Hp as [x Hx].
  rewrite Hx, TrimPrefix_app in Hm. simpl.
  assert (Hl : no_percent l = true) by (destruct parts; [done|]; by apply andb_true_iff in Hok as [? _]).
  destruct (request_prefix rq l x Hu Hl Hx) as (y & Hy & Hxy). rewrite Hy.
  destruct parts as [|q parts].
  - simpl in Hm. case_bool_decide; [|done]. by rewrite (Hxy H).
  - apply andb_true_iff in Hok as [_ Hs]. by rewrite !settled_class.
Qed.

Section Handlers.
Context {ENV : Env} {SM : SessionManager} {UP : UuidParse} {D : Type} `{!Distributor D}.
Context {SCHEMA : JSONSchema} {YML : YAML} {COL : OtelCol} {NET : NetURL} {CERT : X509}.
Context {CH : ClickHouse} {VM : VictoriaMetrics}.
Context {GET : HTTPGet} {UUID5 : NameUUID} {IDP : IdP}.
Context {RT : OapiRuntime} {JB : JSONBytes} {MX : Mux}.
Context (unicode_print : N → bool) (cfg : ApiCfg) (reg : Sso.RegistryCfg) (webhooks : option WebhookTester).

Abbreviation HT := (M (tstate D sess) herror).

Lemma serve_any_run op authorization csrf s :
  serve_any unicode_print cfg reg webhooks op authorization csrf s =
    (r ← lift_api (guard (any_request op authorization csrf));
     match r with inl denied => mret denied | inr p => run unicode_print cfg reg webhooks op p end) s.
Proof.
  destruct op as [op|op|op]; [|reflexivity|];
    cbv [serve_any serve serve_providers Guard lift_api mbind M_bind any_request request provider_request any_route];
    destruct (guard _ (tst_api s)) as [[[denied|p]|e] a]; try reflexivity;
    cbv [run handle_any ResponseErrorHandler lift_api]; simpl;
    [destruct (handle _ _ _ _ a) as [[?|[]] ?] | destruct (handle_providers _ _ _ _ _ a) as [[?|[]] ?]];
    reflexivity.
Qed.

Lemma guard_path m a c path path' (s : apistate D sess) :
  path_class path = path_class path' →
  guard {| rq_Method := m; rq_Path := path; rq_Authorization := a; rq_CSRF := c |} s =
  guard {| rq_Method := m; rq_Path := path'; rq_Authorization := a; rq_CSRF := c |} s.
Proof.
  intros [= H1 H2 H3]. unfold guard, guard_token, guard_session, requires_admin, requires_operator.
  cbn [rq_Method rq_Path rq_Authorization rq_CSRF]. by rewrite H1, H2, H3.
Qed.

Definition render (t : ptype) : pval t → string :=
  match t with
  | PUuid => uuid_String
  | PString => id
  | PInt | PInt64 => Itoa
  | _ => λ _, ""
  end.

(** A parameter of the path and the value it was bound to. *)
Definition bound (nv : string * string) (v : string) : Prop :=
  ∃ t x, BindStyled t nv.1 nv.2 = inl x ∧ v = render t x.

(** A wrapper behind a pattern: it runs an operation whose route is the
    pattern with the bound parameters, or refuses. *)
Definition serves (m : string) (parts : list part) (ps : list (string * string))
    (f : option Principal → HT response) : Prop :=
  (∃ op vs, (any_route op).1 = m ∧ Forall2 bound ps vs ∧ (any_route op).2 = fill parts vs ∧
     ∀ p, f p = run unicode_print cfg reg webhooks op p) ∨
  (∃ msg, ∀ p, f p = bad msg).

Section Serves.
Context (m : string) (parts : list part) (ps : list (string * string)).

Lemma serves_path t name k :
  (∀ v, BindStyled t name (URLParam ps name) = inl v → serves m parts ps (λ p, k p v)) →
  serves m parts ps (λ p, with_path t name ps (k p)).
Proof. unfold with_path. destruct (BindStyled _ _ _) as [v|e]; [auto|]. right. by eexists. Qed.

Lemma serves_query t name rq k :
  (∀ v, serves m parts ps (λ p, k p v)) → serves m parts ps (λ p, with_query t name rq (k p)).
Proof. unfold with_query. destruct (BindQuery _ _ _) as [v|e]; [auto|]. right. by eexists. Qed.

Lemma serves_required t name rq k :
  (∀ v, serves m parts ps (λ p, k p v)) → serves m parts ps (λ p, with_required t name rq (k p)).
Proof.
  unfold with_required. destruct (BindQueryRequired _ _ _) as [v|[|e]]; [auto| |]; right; by eexists.
Qed.

Lemma serves_body {B} (dec : json → option B) rq k :
  (∀ b, serves m parts ps (λ p, k p b)) → serves m parts ps (λ p, with_body dec rq (k p)).
Proof.
  unfold with_body. destruct (json_Decode _) as [v|e]; [|right; by eexists].
  destruct (dec v); [auto|]. right. by eexists.
Qed.

Lemma serves_run op vs :
  (any_route op).1 = m → Forall2 bound ps vs → (any_route op).2 = fill parts vs →
  serves m parts ps (run unicode_print cfg reg webhooks op).
Proof. left. by exists op, vs. Qed.
End Serves.

Create HintDb api_routes.
#[local] Hint Unfold
  wrap_ListAgents wrap_DeleteAgent wrap_GetAgent wrap_UpdateAgent wrap_GetAgentConfig wrap_ListAgentEvents
  wrap_SyncAgent wrap_ListAuditLog wrap_DevLogin wrap_Logout wrap_ListAuthProviders wrap_GetBillingStatement
  wrap_GetComponentCatalog wrap_ListCustomers wrap_CreateCustomer wrap_DeleteCustomer wrap_GetCustomer
  wrap_UpdateCustomer wrap_ListApiKeys wrap_CreateApiKey wrap_RevokeApiKey wrap_ListBootstrapTokens
  wrap_CreateBootstrapToken wrap_RevokeBootstrapToken wrap_QueryLogs wrap_ListCustomerPipelines
  wrap_CreatePipeline wrap_GetCustomerThroughput wrap_QueryTraces wrap_GetTrace wrap_GetMe wrap_ListPipelines
  wrap_ValidatePipeline wrap_DeletePipeline wrap_GetPipeline wrap_GetPipelineStageStats
  wrap_CreatePipelineVersion wrap_GetPipelineVersion wrap_ActivatePipelineVersion wrap_ListApiTokens
  wrap_CreateApiToken wrap_RevokeApiToken wrap_ListAuthProviderConfigs wrap_CreateAuthProviderConfig
  wrap_DeleteAuthProviderConfig wrap_UpdateAuthProviderConfig wrap_TestAuthProviderConfig
  wrap_GetBillingSettings wrap_UpdateBillingSettings wrap_ListWebhooks wrap_CreateWebhook wrap_DeleteWebhook
  wrap_UpdateWebhook wrap_TestWebhook wrap_GetCostStats wrap_GetStatsOverview wrap_ListUsers wrap_InviteUser
  wrap_DeleteUser wrap_UpdateUser strict_ListAgents strict_DeleteAgent strict_GetAgent strict_UpdateAgent
  strict_GetAgentConfig strict_ListAgentEvents strict_SyncAgent strict_ListAuditLog strict_DevLogin
  strict_Logout strict_ListAuthProviders strict_GetBillingStatement strict_GetComponentCatalog
  strict_ListCustomers strict_CreateCustomer strict_DeleteCustomer strict_GetCustomer strict_UpdateCustomer
  strict_ListApiKeys strict_CreateApiKey strict_RevokeApiKey strict_ListBootstrapTokens
  strict_CreateBootstrapToken strict_RevokeBootstrapToken strict_QueryLogs strict_ListCustomerPipelines
  strict_CreatePipeline strict_GetCustomerThroughput strict_QueryTraces strict_GetTrace strict_GetMe
  strict_ListPipelines strict_ValidatePipeline strict_DeletePipeline strict_GetPipeline
  strict_GetPipelineStageStats strict_CreatePipelineVersion strict_GetPipelineVersion
  strict_ActivatePipelineVersion strict_ListApiTokens strict_CreateApiToken strict_RevokeApiToken
  strict_ListAuthProviderConfigs strict_CreateAuthProviderConfig strict_DeleteAuthProviderConfig
  strict_UpdateAuthProviderConfig strict_TestAuthProviderConfig strict_GetBillingSettings
  strict_UpdateBillingSettings strict_ListWebhooks strict_CreateWebhook strict_DeleteWebhook
  strict_UpdateWebhook strict_TestWebhook strict_GetCostStats strict_GetStatsOverview strict_ListUsers
  strict_InviteUser strict_DeleteUser strict_UpdateUser : api_routes.

Ltac serve_route :=
  autounfold with api_routes;
  repeat first
    [ apply serves_path; intros ? ? | apply serves_query; intros ?
    | apply serves_required; intros ? | apply serves_body; intros ? ];
  repeat match goal with b : (_ * _)%type |- _ => destruct b end;
  eapply serves_run;
    [ reflexivity
    | repeat (eapply Forall2_cons_2; [eexists _, _; split; [eassumption|reflexivity]|]);
      apply Forall2_nil_2
    | first [reflexivity | cbn [fill]; rewrite app_str_nil_r; reflexivity] ].

Lemma routes_serve :
  Forall (λ r, ∀ ps rq, ps.*1 = par_names (pattern_parts r.1.2) →
    serves r.1.1 (pattern_parts r.1.2) ps (r.2 ps rq)) (routes unicode_print cfg reg webhooks).
Proof.
  unfold routes. repeat (apply Forall_cons; split); [..|by apply Forall_nil].
  all: intros ps rq; cbn [fst snd].
  all: match goal with |- context [pattern_parts ?p] =>
         let v := eval vm_compute in (pattern_parts p) in change (pattern_parts p) with v end.
  all: cbn [par_names]; intros Hps.
  all: repeat match goal with H : _.*1 = _ |- _ => destruct ps as [|[? ?] ps]; simplify_eq/= end.
  all: serve_route.
Qed.

Lemma routes_ok : Forall (λ r, pattern_ok (pattern_parts r.1.2) = true) (routes unicode_print cfg reg webhooks).
Proof. unfold routes. repeat constructor. Qed.

(** A wrapper of the table, found by its method and pattern. *)
Lemma find_route method pattern r :
  find (λ r, bool_decide (r.1 = (method, pattern))) (routes unicode_print cfg reg webhooks) = Some r → r ∈ routes unicode_print cfg reg webhooks ∧ r.1 = (method, pattern).
Proof. intros [Hin Hb]%List.find_some. split; [by apply list_elem_of_In|]. by apply bool_decide_eq_true in Hb. Qed.

Lemma serve_matched rq pattern ps r op vs s :
  url_ok rq → r ∈ routes unicode_print cfg reg webhooks → r.1 = (hq_Method rq, pattern) →
  match_parts (pattern_parts pattern) (route_path rq) = Some ps →
  any_route op = (hq_Method rq, fill (pattern_parts pattern) vs) →
  (∀ p, r.2 ps (captureRawBody rq) p = run unicode_print cfg reg webhooks op p) →
  (g ← lift_api (guard (guard_request rq));
   match g with
   | inl denied => mret (Answered denied)
   | inr p => a ← r.2 ps (captureRawBody rq) p; mret (Answered a)
   end) s = (a ← serve_any unicode_print cfg reg webhooks op (hq_Authorization rq) (hq_CSRF rq); mret (Answered a)) s.
Proof.
  intros Hu Hin Hr Hm Hop Hrun. unfold mbind, M_bind. rewrite serve_any_run.
  unfold mbind, M_bind, lift_api, guard_request, any_request. rewrite Hop. simpl.
  rewrite (guard_path _ _ _ (hq_Path rq) (fill (pattern_parts pattern) vs)).
  - destruct (guard _ _) as [[[d|p]|e] a]; [done| |done]. by rewrite Hrun.
  - eapply pattern_class; [done| |done]. pose proof (proj1 (Forall_forall _ _) routes_ok r Hin) as Hok.
    simpl in Hok. by rewrite Hr in Hok.
Qed.

(** C26: every request is an operation.  Whatever bytes a request is made of and
    however its path is escaped: if the router hands it to a wrapper, then
    either the Guard's answer is given and otherwise 400, with no handler run;
    or the request is served exactly as one operation of the API, with the
    method of the request and the path of the matched pattern with the bound
    parameters, on which the Guard decides as it did on the path sent.  So what
    holds of the guarded operations holds of requests. *)
Theorem http_serves_operations `{!MuxLaws MX} (rq : HTTPRequest) :
  url_ok rq →
  (∃ pattern ps op vs,
     match_parts (pattern_parts pattern) (route_path rq) = Some ps ∧ Forall2 bound ps vs ∧
     any_route op = (hq_Method rq, fill (pattern_parts pattern) vs) ∧
     ∀ s, http_serve unicode_print cfg reg webhooks rq s =
       (r ← serve_any unicode_print cfg reg webhooks op (hq_Authorization rq) (hq_CSRF rq);
        mret (Answered r)) s) ∨
  (∃ msg, ∀ s, http_serve unicode_print cfg reg webhooks rq s =
     (r ← lift_api (guard (guard_request rq));
      mret (Answered (match r with inl denied => denied | inr _ => errResp 400 codeBadRequest msg end))) s) ∨
  (∃ a, (∀ r, a ≠ Answered r) ∧ ∀ s, http_serve unicode_print cfg reg webhooks rq s = (mret a : HT answer) s).
Proof.
  intros Hu. unfold http_serve.
  destruct (mux_Find _ _ _) as [pattern ps| |] eqn:Hf; [|right; right..].
  2: { exists MethodNotAllowed. split; [discriminate|done]. }
  2: { eexists. split; [|intros; reflexivity]. by case_match. }
  apply mux_sound in Hf as [_ Hm].
  destruct (find _ _) as [[mp w]|] eqn:Hr; [|right; right; by exists NoSuchEndpoint].
  apply find_route in Hr as [Hin Hmp]. simpl in Hmp.
  pose proof (proj1 (Forall_forall _ _) routes_serve _ Hin ps (captureRawBody rq)) as Hs.
  simpl in Hs. rewrite Hmp in Hs. simpl in Hs.
  destruct (Hs (match_names _ _ _ Hm)) as [(op & vs & H1 & H2 & H3 & H4)|[msg Hbad]].
  - left. exists pattern, ps, op, vs. split_and!; [done..| |].
    + destruct (any_route op). simpl in *. by subst.
    + intros s. apply (serve_matched rq pattern ps (mp, w) op vs); try done.
      destruct (any_route op). simpl in *. by subst.
  - right. left. exists msg. intros s. unfold mbind, M_bind, lift_api.
    destruct (guard _ _) as [[[d|p]|e] a]; [done| |done]. by rewrite Hbad.
Qed.

End Handlers.

(** ** The tri-state quota and retention of a customer PATCH *)

Section Patch.
Context {RT : OapiRuntime} {JB : JSONBytes}.

Lemma field_cons k kv m :
  field k (kv :: m) =
    match field k m with
    | Some v => Some v
    | None => if decide (fold_name kv.1 = fold_name k) then Some kv.2 else None
    end.
Proof.
  unfold field. rewrite filter_cons. case_decide as E; [|by destruct (last _)].
  rewrite last_cons. by destruct (last _).
Qed.

(** The last member for a field decides its value. *)
Lemma decoded_field {A B} (fields : setters A) k (f : A → B) dec m b b' :
  (∀ n set, (n, set) ∈ fields →
     ∀ c v c', set c v = Some c' →
       if decide (fold_name n = fold_name k) then dec v = Some (f c') else f c' = f c) →
  k ∈ fields.*1 →
  decode_members fields b m = Some b' →
  match field k m with Some v => dec v | None => Some (f b) end = Some (f b').
Proof.
  intros Hf Hk. revert b. induction m as [|[k' v] m IH]; intros b H; [by injection H as <-|].
  apply bind_Some in H as (b1 & Hb1 & H). specialize (IH b1 H). rewrite field_cons. cbn [fst snd].
  destruct (field k m) as [v'|]; [done|].
  destruct (find _ fields) as [[n set]|] eqn:Hfind.
  - apply List.find_some in Hfind as [Hin Hn%bool_decide_eq_true]. cbn [fst] in Hn.
    apply list_elem_of_In in Hin. specialize (Hf n set Hin _ _ _ Hb1). rewrite <- Hn.
    destruct (decide _); congruence.
  - injection Hb1 as <-. rewrite decide_False; [done|]. intros E.
    apply list_elem_of_fmap in Hk as ([n set] & -> & Hin%list_elem_of_In).
    eapply List.find_none in Hfind; [|exact Hin]. apply bool_decide_eq_false in Hfind. by rewrite E in Hfind.
Qed.

Ltac by_fields :=
  apply (decoded_field customer_update_fields); [|set_solver|done];
  intros n set Hin c v c' Hs; unfold customer_update_fields in Hin;
  repeat (apply elem_of_cons in Hin as [[= -> ->]|Hin]; [by apply bind_Some in Hs as (x & Hx & [= <-])|]);
  by apply elem_of_nil in Hin.

Lemma decoded_limits m b b' :
  decode_members customer_update_fields b m = Some b' →
  match field "rateLimitItemsPerSec" m with
  | Some v => decode_int_opt v | None => Some b.1.1.2 end = Some b'.1.1.2 ∧
  match field "retentionDays" m with
  | Some v => decode_int_opt v | None => Some b.1.2 end = Some b'.1.2.
Proof.
  intros H. split.
  - pose (f := λ b : option string * option Z * option Z * option string, b.1.1.2).
    change (match field "rateLimitItemsPerSec" m with Some v => decode_int_opt v | None => Some (f b) end
            = Some (f b')). by_fields.
  - pose (f := λ b : option string * option Z * option Z * option string, b.1.2).
    change (match field "retentionDays" m with Some v => decode_int_opt v | None => Some (f b) end
            = Some (f b')). by_fields.
Qed.

Lemma field_None k m : fold_name k ∉ fold_name <$> m.*1 → field k m = None.
Proof.
  induction m as [|[k' v] m IH]; [done|]. cbn [fmap list_fmap fst]. intros [Hne Hm]%not_elem_of_cons.
  rewrite field_cons, IH by done. by rewrite decide_False by (intros E; by apply Hne).
Qed.

(** With names that differ however they are folded, a member is found by its
    spelling. *)
Lemma field_member k m :
  NoDup (fold_name <$> m.*1) → k ∈ m.*1 → field k m = member k m ∧ is_Some (member k m).
Proof.
  induction m as [|[k' v] m IH]; [by intros _ ?%elem_of_nil|].
  cbn [fmap list_fmap fst]. intros [Hn Hm]%NoDup_cons Hk. rewrite field_cons. cbn [member].
  destruct (decide (k' = k)) as [->|Hne].
  - rewrite field_None by done. rewrite decide_True by done. rewrite bool_decide_true by done. eauto.
  - apply elem_of_cons in Hk as [?|Hk]; [congruence|]. destruct (IH Hm Hk) as [-> [x Hx]].
    rewrite bool_decide_false by congruence. rewrite Hx. eauto.
Qed.

(** What the members of a PATCH ask for a nullable field: nothing when absent,
    to clear it when null, else its number. *)
Definition asked_update (k : string) (m : members) : option OptionalInt :=
  match member k m with
  | None => Some {| oi_Set := false; oi_Value := None |}
  | Some v => (λ n, {| oi_Set := true; oi_Value := n |}) <$> decode_int_opt v
  end.

Lemma member_None {A} k (m : list (string * A)) : k ∉ m.*1 → member k m = None.
Proof.
  induction m as [|[k' v] m IH]; [done|]. cbn [fmap list_fmap fst member]. intros [Hne Hm]%not_elem_of_cons.
  rewrite bool_decide_false by congruence. auto.
Qed.

Lemma limit_asked k m (n : option Z) :
  NoDup (fold_name <$> m.*1) →
  match field k m with Some v => decode_int_opt v | None => Some None end = Some n →
  Some (if bool_decide (k ∈ m.*1) then {| oi_Set := true; oi_Value := n |}
        else {| oi_Set := false; oi_Value := None |}) = asked_update k m.
Proof.
  intros Hm Hn. unfold asked_update. case_bool_decide as Hk.
  - destruct (field_member k m Hm Hk) as [Hf [v Hv]]. rewrite Hf, Hv in Hn. by rewrite Hv, Hn.
  - by rewrite member_None.
Qed.

(** C28: the quota and the retention of a customer PATCH are tri-state: a
    member left out changes nothing, null clears the value, a number sets it;
    but a body with anything after its object is accepted and changes neither
    of the two. *)
Theorem customer_patch_tristate `{!JSONBytesLaws JB} raw v b :
  json_Decode raw = inl v → customer_update_body v = Some b →
  match json_Unmarshal raw with
  | Some (JObj m) =>
    NoDup (fold_name <$> m.*1) →
    Some (quotaRetentionUpdate (customer_patch raw b)).1 = asked_update "rateLimitItemsPerSec" m ∧
    Some (quotaRetentionUpdate (customer_patch raw b)).2 = asked_update "retentionDays" m
  | _ =>
    let same := {| oi_Set := false; oi_Value := None |} in
    quotaRetentionUpdate (customer_patch raw b) = (same, same)
  end.
Proof.
  intros Hv Hb. destruct b as [[[name rate] retention] status].
  unfold customer_patch, quotaRetentionUpdate, body_keys.
  destruct (json_Unmarshal raw) as [[| | | | |m]|] eqn:Hu; try done.
  apply Unmarshal_Decode in Hu. rewrite Hu in Hv. injection Hv as <-. intros Hm. simpl in Hb. destruct (decoded_limits m _ _ Hb) as [H1 H2]. simpl.
  rewrite <- (limit_asked _ m rate), <- (limit_asked _ m retention) by done. by repeat case_bool_decide.
Qed.
End Patch.

(** ** A deployment behind a router *)

(** chi as far as the routes need it: the first that matches. *)
Definition first_mux : Mux := {|
  mux_Find routes method path :=
    match find (λ r, bool_decide (r.1 = method) && is_some (match_parts (pattern_parts r.2) path)) routes with
    | Some r => Matched r.2 (default [] (match_parts (pattern_parts r.2) path))
    | None => NoMatch
    end |}.

#[export] Instance first_mux_laws : MuxLaws first_mux.
Proof.
  split. intros routes method path pattern params. unfold mux_Find, first_mux.
  destruct (find _ routes) as [[m p]|] eqn:Hf; [|done]. intros [= <- <-].
  apply List.find_some in Hf as [Hin [Hm%bool_decide_eq_true Hp]%andb_true_iff]. simpl in *. subst m.
  split; [by apply list_elem_of_In|]. by destruct (match_parts _ _).
Qed.

Definition demo_RT : OapiRuntime := {|
  BindStyled t _ raw :=
    match t return pval t + string with
    | PUuid =>
      match unescape raw with
      | Some s => if bool_decide (s = uuid_String demo_other) then inl demo_other else inr "invalid UUID"
      | None => inr "invalid URL escape"
      end
    | _ => inr "not needed"
    end;
  BindQuery _ _ _ := inl None;
  BindQueryRequired _ _ _ := inr RequiredParameterError;
  Email_UnmarshalJSON _ := None |}.

(** Two bodies: an object, and the same with something after it. *)
Definition demo_object : members := [("rateLimitItemsPerSec", JNull); ("retentionDays", JNum "7")].
Definition demo_JB : JSONBytes := {|
  json_Decode s := if bool_decide (s = "") then inr "EOF" else inl (JObj demo_object);
  json_Unmarshal s := if bool_decide (s = "object") then Some (JObj demo_object) else None;
  json_TypeError _ := "";
  time_UnmarshalJSON _ := None |}.

#[export] Instance demo_JB_laws : JSONBytesLaws demo_JB.
Proof. split. intros s v. simpl. case_bool_decide; [|done]. subst. by intros [= <-]. Qed.

Definition demo_GET : HTTPGet := {|
  get_NewRequest _ := None; get_Do _ _ := inr Fault; get_mismatch _ := Fault; get_Text _ := "" |}.
Definition demo_UUID5 : NameUUID := {| NewSHA1_URL _ := 0%N |}.

(** A PATCH of the operator's customer, with an escaped character in the path. *)
Definition demo_patch (body : string) : HTTPRequest := {|
  hq_Method := "PATCH"; hq_Path := "/api/v1/customers/" +:+ uuid_String demo_other;
  hq_RawPath := "/api/v1/customers/%3" +:+ uuid_String demo_other;
  hq_Query := []; hq_Authorization := ""; hq_CSRF := "token"; hq_Body := body |}.

Definition demo_http_state : tstate string (gmap string string) := Build_tstate (signed_in 7) ch_empty.

Definition demo_http (rq : HTTPRequest) :=
  @ApiHttp.http_serve quiet_env demo_SM demo_UP string PublishDistributor accept_schema demo_yaml demo_col
    demo_NET demo_CERT quiet_ch demo_vm demo_GET demo_UUID5 demo_IDP demo_RT demo_JB
    all_print demo_api demo_registry None first_mux rq demo_http_state.

Definition demo_limits (body : string) : option (option Z * option Z) :=
  match (demo_http (demo_patch body)).1 with
  | inl (Answered (Success 200 (BCustomer c))) => Some (cust_RateLimitItemsPerSec c, cust_RetentionDays c)
  | _ => None
  end.

(** The object sets the retention; with anything behind it the answer is 200
    as well and nothing has changed. *)
Example trailing_bytes :
  demo_limits "object" = Some (None, Some 7%Z) ∧ demo_limits "object and more" = Some (None, None).
Proof. vm_compute. auto. Qed.

Lemma http_serves_operations_witness :
  ∃ pattern op vs,
    any_route op = ("PATCH", fill (pattern_parts pattern) vs) ∧
    demo_http (demo_patch "object") =
      (@mbind _ (M_bind _ _) _ _ (λ r, mret (Answered r))
        (@ApiHttp.serve_any quiet_env demo_SM demo_UP string PublishDistributor accept_schema demo_yaml demo_col
           demo_NET demo_CERT quiet_ch demo_vm demo_GET demo_UUID5 demo_IDP
           all_print demo_api demo_registry None op "" "token")) demo_http_state.
Proof.
  destruct (@http_serves_operations quiet_env demo_SM demo_UP string PublishDistributor accept_schema demo_yaml
    demo_col demo_NET demo_CERT quiet_ch demo_vm demo_GET demo_UUID5 demo_IDP demo_RT demo_JB first_mux
    all_print demo_api demo_registry None first_mux_laws (demo_patch "object"))
    as [(pattern & ps & op & vs & Hm & Hb & Hop & H)|[[msg H]|(a & Ha & H)]].
  - right. vm_compute. reflexivity.
  - exists pattern, op, vs. split; [exact Hop|exact (H demo_http_state)].
  - specialize (H demo_http_state). apply (f_equal fst) in H. vm_compute in H. discriminate.
  - specialize (H demo_http_state). apply (f_equal fst) in H. vm_compute in H. congruence.
Defined.

Lemma customer_patch_tristate_witness :
  let b := (None, None, Some 7%Z, None) in
  Some (quotaRetentionUpdate (@customer_patch demo_JB "object" b)).1
    = Some {| oi_Set := true; oi_Value := None |} ∧
  Some (quotaRetentionUpdate (@customer_patch demo_JB "object" b)).2
    = Some {| oi_Set := true; oi_Value := Some 7%Z |} ∧
  quotaRetentionUpdate (@customer_patch demo_JB "object and more" b)
    = ({| oi_Set := false; oi_Value := None |}, {| oi_Set := false; oi_Value := None |}).
Proof.
  intros b. split_and!.
  - refine (proj1 (@customer_patch_tristate demo_JB demo_JB_laws "object" (JObj demo_object) b eq_refl eq_refl _)).
    apply (bool_decide_unpack _). vm_compute. exact I.
  - refine (proj2 (@customer_patch_tristate demo_JB demo_JB_laws "object" (JObj demo_object) b eq_refl eq_refl _)).
    apply (bool_decide_unpack _). vm_compute. exact I.
  - exact (@customer_patch_tristate demo_JB demo_JB_laws "object and more" (JObj demo_object) b eq_refl eq_refl).
Defined.
End HttpProps.

(** * What every operation answers

    The modelled handlers answer with a type of their operation
    ([responses_declared]); one address can keep the list of users from being
    written ([one_address_hides_the_users]). *)
Module EncodeProps.
Import Api Providers ApiHttp ApiEncode HttpProps.

(** ** What a computation can answer *)

Definition yields {S E A} (P : A → Prop) (m : M S E A) : Prop := ∀ s a s', m s = (inl a, s') → P a.

Lemma yields_ret {S E A} (P : A → Prop) a : P a → yields (S:=S) (E:=E) P (mret a).
Proof. by intros HP s x s' [= <- _]. Qed.

Lemma yields_throw {S E A} (P : A → Prop) (e : E) : yields P (mthrow e : M S E A).
Proof. by intros s x s' [=]. Qed.

Lemma yields_bind {S E A B} (P : B → Prop) (m : M S E A) (f : A → M S E B) :
  (∀ a, yields P (f a)) → yields P (m ≫= f).
Proof. intros Hf s b s' (a & s1 & _ & H)%bind_inl. by eapply Hf. Qed.

Lemma yields_then {S E A B} (Q : A → Prop) (P : B → Prop) (m : M S E A) (f : A → M S E B) :
  yields Q m → (∀ a, Q a → yields P (f a)) → yields P (m ≫= f).
Proof. intros Hm Hf s b s' (a & s1 & Ha & H)%bind_inl. eapply Hf; [by eapply Hm|done]. Qed.

Lemma yields_lift {D A} {SM : SessionManager} (P : A → Prop) (m : M (apistate D sess) herror A) :
  yields P m → yields P (lift_api m).
Proof. intros Hm [a c] x s'. unfold lift_api. simpl. destruct (m a) as [[y|e] a'] eqn:E; [|done]. intros [= <- _]. by eapply Hm. Qed.

Section Declared.
Context {ENV : Env} {SM : SessionManager} {UP : UuidParse} {D : Type} `{!Distributor D}.
Context {SCHEMA : JSONSchema} {YML : YAML} {COL : OtelCol} {NET : NetURL} {CERT : X509}.
Context {CH : ClickHouse} {VM : VictoriaMetrics}.
Context {GET : HTTPGet} {UUID5 : NameUUID} {IDP : IdP}.
Context {EM : EmailText} {FL : FloatText}.
Context (unicode_print : N → bool) (cfg : ApiCfg) (reg : Sso.RegistryCfg) (webhooks : option WebhookTester).

Lemma json_body_declared status v : json_body status v ≠ Undeclared.
Proof. by destruct v. Qed.

Ltac hd_of t := lazymatch t with ?f _ => hd_of f | _ => t end.

Ltac declared_with tac :=
  repeat first
    [ tac
    | apply yields_bind; intros
    | apply yields_throw
    | apply yields_ret; first
        [ apply json_body_declared | discriminate
        | match goal with x : (_ * _)%type |- _ => destruct x; apply json_body_declared end ]
    | match goal with
      | |- yields _ (if ?b then _ else _) => destruct b
      | |- yields _ (match ?x with _ => _ end) => destruct x
      | |- yields _ (let _ := _ in _) => cbv zeta
      end
    | match goal with |- yields _ ?m => let h := hd_of m in progress unfold h end ].

Ltac declared := declared_with fail.

(** The one handler that passes on an answer made elsewhere. *)
Lemma merged_declared b id op :
  (∀ status code message, status = 400%Z ∨ status = 404%Z → visit op (Failure status code message) ≠ Undeclared) →
  yields (λ x, match x with inl r => visit op r ≠ Undeclared | inr _ => True end)
    (Admin.merged_saml (D:=D) b id).
Proof.
  intros HP. unfold Admin.merged_saml. declared_with ltac:(idtac; apply yields_ret; first [exact I | apply HP; auto]).
Qed.

Lemma api_declared op p :
  yields (λ r, visit (ApiOp op) r ≠ Undeclared) (handle (D:=D) unicode_print cfg op p).
Proof.
  destruct op; unfold handle.
  all: declared_with ltac:(idtac; match goal with
    | |- yields ?P (Admin.merged_saml ?b ?id ≫= _) =>
      eapply (yields_then (λ x, match x with inl r => P r | inr _ => True end)); 
        [apply merged_declared; intros ??? [->| ->]; apply json_body_declared | intros [|] ?]
    | H : ?P |- yields _ (mret _) => apply yields_ret; exact H
    end).
Qed.

Lemma telemetry_declared op p :
  yields (λ r, visit (TelemetryOp op) r ≠ Undeclared) (handle_telemetry (D:=D) unicode_print op p).
Proof. destruct op; unfold handle_telemetry; declared. Qed.

Lemma provider_declared op :
  yields (λ r, visit (ProviderOp op) r ≠ Undeclared) (handle_providers (D:=D) unicode_print cfg reg webhooks op).
Proof. destruct op; unfold handle_providers; declared. Qed.

(** The untyped responses of the model stay within the types of the code.
    Whatever a handler was asked, in whatever state and with whatever failures:
    when it answers, the answer is one of the response types of its operation,
    as the Go compiler makes sure.  Writing it can still fail
    ([one_address_hides_the_users]). *)
Theorem responses_declared op p s r s' :
  handle_any unicode_print cfg reg webhooks op p s = (inl r, s') → visit op r ≠ Undeclared.
Proof.
  destruct op as [op|op|op]; revert s r s';
    [apply (yields_lift _ _ (api_declared op p)) | apply (telemetry_declared op p)
    | apply (yields_lift _ _ (provider_declared op))].
Qed.
End Declared.

(** ** Answers that cannot be encoded *)

Section Failures.
Context {EM : EmailText} {FL : FloatText}.

Lemma enc_list_fails {A} (enc : A → option json) l x : x ∈ l → enc x = None → enc_list enc l = None.
Proof.
  intros Hx He. unfold enc_list. replace (mapM enc l) with (@None (list json)); [done|].
  symmetry. apply mapM_None, Exists_exists. eauto.
Qed.

Lemma obj_fails l : None ∈ l → obj l = None.
Proof.
  intros Hx. unfold obj. replace (mapM id l) with (@None (list members)); [done|].
  symmetry. apply mapM_None, Exists_exists. eauto.
Qed.

(** A listing of which one element does not encode is not written at all. *)
Lemma listing_fails {A} k (enc : A → option json) l x status :
  x ∈ l → enc x = None → json_body status (wrapped k (enc_list enc) l) = EncodeError.
Proof.
  intros Hx He. unfold wrapped. rewrite (obj_fails [mem k (enc_list enc) l]); [done|].
  unfold mem. rewrite (enc_list_fails enc l x) by done. left.
Qed.

Lemma account_fails u : Email_MarshalJSON (ua_Email u) = None → enc_UserAccount u = None.
Proof. intros He. apply obj_fails. unfold mem. rewrite He. do 4 right. left. Qed.

Context {ENV : Env} {SM : SessionManager} {UP : UuidParse} {D : Type} `{!Distributor D}.
Context {SCHEMA : JSONSchema} {YML : YAML} {COL : OtelCol} {NET : NetURL} {CERT : X509}.
Context {CH : ClickHouse} {VM : VictoriaMetrics}.
Context {GET : HTTPGet} {UUID5 : NameUUID} {IDP : IdP}.
Context (unicode_print : N → bool) (cfg : ApiCfg) (reg : Sso.RegistryCfg) (webhooks : option WebhookTester).

(** What the endpoint answers, from what the query answers. *)
Lemma ListUsers_answers p (s : tstate D sess) :
  (handle_any (D:=D) unicode_print cfg reg webhooks (ApiOp OpListUsers) p s).1 =
  match (PgUsers.ListUsers (ss_w (as_svc (tst_api s)))).1 with
  | inl l => inl (Success 200 (BUsers (map toUserAccount l)))
  | inr e => inr (otherError e)
  end.
Proof.
  destruct s as [[[w d n] se] ch]. simpl. unfold Admin.ListUsers, lift_api, must, call_store, call_svc, on_store.
  unfold mbind, M_bind, mret, M_ret. simpl. by destruct (PgUsers.ListUsers w) as [[l|e] w'].
Qed.

(** Every user is in the list. *)
Lemma ListUsers_lists w l w' id u :
  PgUsers.ListUsers w = (inl l, w') → users (w_db w) !! id = Some u →
  user_with_identities (w_db w) u ∈ l.
Proof.
  intros [-> _]%query_inl Hu. apply list_elem_of_fmap_2. unfold order_by.
  rewrite merge_sort_Permutation. apply elem_of_rows. eauto.
Qed.

(** One account with an address the Email type refuses, and the list of users
    is answered with 500, whoever asks and as long as the account is there; to
    get in the address needs no more than an at sign (SCIM, sign-in). *)
Theorem one_address_hides_the_users p (s : tstate D sess) id u :
  users (w_db (ss_w (as_svc (tst_api s)))) !! id = Some u →
  Email_MarshalJSON (u_Email u) = None →
  (run_written (D:=D) unicode_print cfg reg webhooks (ApiOp OpListUsers) p s).1 = inl (write_error encode_failed).
Proof.
  intros Hu He. pose proof (ListUsers_answers p s) as Ha. unfold run_written, run, ResponseErrorHandler.
  unfold mbind, M_bind. destruct (handle_any _ _ _ _ _ p s) as [[r|e] s']; simpl in Ha.
  all: destruct (PgUsers.ListUsers _) as [[l|e'] w'] eqn:Hq; simplify_eq/=.
  2: reflexivity.
  rewrite (listing_fails "users" enc_UserAccount _ (toUserAccount (user_with_identities (w_db (ss_w (as_svc (tst_api s)))) u))); [done| |].
  - apply list_elem_of_In, in_map, list_elem_of_In. by eapply ListUsers_lists.
  - by apply account_fails.
Qed.
End Failures.

(** ** At a concrete request *)

Definition demo_EM : EmailText := {| Email_MarshalJSON e := if GoStrings.Contains "@" e then Some (JStr e) else None |}.
Definition demo_FL : FloatText := {| float32_MarshalJSON _ := Some (JNum "0") |}.
Definition demo_op : any_op := ApiOp OpListUsers.
Definition demo_run :=
  @handle_any quiet_env demo_SM string PublishDistributor accept_schema demo_yaml demo_col
    demo_NET demo_CERT quiet_ch demo_vm demo_GET demo_UUID5 demo_IDP
    all_print demo_api demo_registry None demo_op None demo_http_state.

Lemma responses_declared_witness :
  ∃ r s', demo_run = (inl r, s') ∧ @visit demo_EM demo_FL demo_op r ≠ Undeclared.
Proof.
  eexists _, _. split; [vm_compute; reflexivity|].
  eapply (@responses_declared quiet_env demo_SM string PublishDistributor accept_schema demo_yaml demo_col
    demo_NET demo_CERT quiet_ch demo_vm demo_GET demo_UUID5 demo_IDP demo_EM demo_FL
    all_print demo_api demo_registry None demo_op None demo_http_state).
  vm_compute; reflexivity.
Defined.
End EncodeProps.

(** * What the client makes of it

    otelfleetctl reads from the answers the values that were written
    ([client_reads_the_answers]). *)
Module Wire.
Import Api Providers ApiHttp ApiEncode HttpProps EncodeProps.
(** ** The client reads what the control plane writes *)

Section Wire.
Context {ANY : CtlClient.CtlClient.AnyJSON}.

(** Numbers of Go's int, on both sides. *)
Definition int64 (n : Z) : Prop := (MinInt64 ≤ n ≤ MaxInt64)%Z.
Definition int64_ptr (o : option Z) : Prop := from_option int64 True o.

(** What the client keeps of each. *)
Definition read_customer (c : ApiCustomer) : Ctl.Ctl.Customer :=
  Ctl.Ctl.Build_Customer (uuid_String (cust_Id c)) (cust_Slug c) (cust_Name c) (cust_ClientId c) (cust_Status c)
    (cust_RateLimitItemsPerSec c) (cust_RetentionDays c).
Definition read_pipeline (p : ApiPipeline) : Ctl.Ctl.Pipeline :=
  Ctl.Ctl.Build_Pipeline (uuid_String (pipe_Id p)) (pipe_Name p) (pipe_TargetClass p)
    (pipe_ActiveVersion p) (pipe_LatestVersion p).
Definition read_node (n : Node) : Ctl.Ctl.GraphNode :=
  Ctl.Ctl.Build_GraphNode (n_Type n) (n_Name n) (CtlClient.CtlClient.any_members <$> n_Config n).
Definition read_version (v : ApiVersion) : Ctl.Ctl.PipelineVersion :=
  Ctl.Ctl.Build_PipelineVersion (vs_Version (ver_Summary v))
    (Ctl.Ctl.Build_PipelineGraph (Some (g_Signals (ver_Graph v)))
       (Some (read_node <$> g_Processors (ver_Graph v))) (Some (read_node <$> g_Exporters (ver_Graph v)))).

Lemma member_skipped {A} (fields : setters A) x k v m :
  CtlClient.CtlClient.position (λ f, bool_decide (fold_name f.1 = fold_name k)) fields = None →
  decode_members fields x ((k, v) :: m) = decode_members fields x m.
Proof.
  intros Hp. cbn [decode_members]. replace (find _ fields) with (@None (string * (A → json → option A))); [done|].
  induction fields as [|f fields IH]; [done|]. cbn [CtlClient.CtlClient.position find] in *.
  case_bool_decide; [done|]. destruct (CtlClient.CtlClient.position _ fields); [done|auto].
Qed.

Lemma int_ptr_read n : int64 n → CtlClient.CtlClient.decode_int_ptr (JNum (Itoa n)) = Some (Some n).
Proof. intros Hn. unfold CtlClient.CtlClient.decode_int_ptr. by rewrite ParseInt_Itoa. Qed.

Lemma list_read {A B} (P : A → Prop) (enc : A → option json) (dec : json → option B) (f : A → B) l v :
  (∀ x w, P x → enc x = Some w → dec w = Some (f x)) → Forall P l →
  enc_list enc l = Some v → CtlClient.CtlClient.decode_list dec v = Some (Some (f <$> l)).
Proof.
  intros Hr HP. unfold enc_list. destruct (mapM enc l) as [ws|] eqn:Hm; [|done]. intros [= <-]. cbn.
  apply mapM_Some in Hm. assert (mapM dec ws = Some (f <$> l)) as ->; [|done].
  apply mapM_Some. revert HP. induction Hm as [|x w l ws Hx Hm IH]; intros HP; [by constructor|].
  apply Forall_cons in HP as [Hp HP]. constructor; [by eapply Hr|by apply IH].
Qed.

(** One member after the other: the field it names, or none. *)
Ltac member i := erewrite (CtlClient.CtlClient.decode_member _ i);
  [|vm_compute; reflexivity|reflexivity|cbn -[uuid_String CtlClient.CtlClient.decode_int_ptr]; first [reflexivity | rewrite int_ptr_read; [reflexivity|done]]].
Ltac skipped := rewrite member_skipped; [|vm_compute; reflexivity].

Lemma customer_read c v :
  int64_ptr (cust_RateLimitItemsPerSec c) → int64_ptr (cust_RetentionDays c) →
  enc_Customer c = Some v → CtlClient.CtlClient.decode_customer v = Some (read_customer c).
Proof.
  intros Hr Hd. unfold enc_Customer, obj, mem, mem_opt. destruct (enc_time _) as [t|]; [|done].
  destruct c as [id cid slug name st rate days created]. cbn in Hr, Hd |- *.
  intros Hv. destruct rate as [rate|], days as [days|]; cbn in Hv; simplify_eq.
  all: unfold CtlClient.CtlClient.decode_customer, decode_struct, CtlClient.CtlClient.zero_customer.
  all: repeat first [skipped | member 3%nat | member 0%nat | member 2%nat | member 5%nat | member 6%nat | member 1%nat | member 4%nat].
  all: reflexivity.
Qed.

Lemma pipeline_read p v :
  int64_ptr (pipe_ActiveVersion p) → int64_ptr (pipe_LatestVersion p) →
  enc_Pipeline p = Some v → CtlClient.CtlClient.decode_pipeline v = Some (read_pipeline p).
Proof.
  intros Ha Hl. unfold enc_Pipeline, obj, mem, mem_opt.
  destruct p as [id cid cname name tc active latest created]. cbn -[enc_time] in Ha, Hl |- *.
  intros Hv. destruct (enc_time _) as [t|], active as [active|], latest as [latest|]; cbn in Hv; simplify_eq.
  all: unfold CtlClient.CtlClient.decode_pipeline, decode_struct, CtlClient.CtlClient.zero_pipeline.
  all: repeat first [skipped | member 3%nat | member 0%nat | member 4%nat | member 1%nat | member 2%nat].
  all: reflexivity.
Qed.

Lemma node_read n v : enc_GraphNode n = Some v → CtlClient.CtlClient.decode_node v = Some (read_node n).
Proof.
  destruct n as [ty name cfg]. unfold enc_GraphNode, obj, mem, mem_opt.
  intros Hv. destruct name as [name|], cfg as [cfg|]; cbn in Hv; simplify_eq.
  all: unfold CtlClient.CtlClient.decode_node, decode_struct.
  all: repeat first [member 2%nat | member 1%nat | member 0%nat].
  all: reflexivity.
Qed.

Lemma texts_read l v :
  enc_list enc_str l = Some v → CtlClient.CtlClient.decode_list (decode_text "") v = Some (Some l).
Proof.
  intros Hv. rewrite (list_read (λ _, True) enc_str (decode_text "") id l v), list_fmap_id; [done| |by apply Forall_true|done].
  by intros x w _ [= <-].
Qed.

Lemma nodes_read l v :
  enc_list enc_GraphNode l = Some v →
  CtlClient.CtlClient.decode_list CtlClient.CtlClient.decode_node v = Some (Some (read_node <$> l)).
Proof. apply (list_read (λ _, True)); [intros x w _; apply node_read|by apply Forall_true]. Qed.

Lemma graph_read g v :
  enc_PipelineGraph g = Some v →
  decode_struct CtlClient.CtlClient.graph_fields CtlClient.CtlClient.zero_graph v =
  Some (Ctl.Ctl.Build_PipelineGraph (Some (g_Signals g)) (Some (read_node <$> g_Processors g))
          (Some (read_node <$> g_Exporters g))).
Proof.
  destruct g as [sig pr ex]. unfold enc_PipelineGraph, obj, mem. cbn [g_Signals g_Processors g_Exporters].
  destruct (enc_list enc_GraphNode ex) as [we|] eqn:He; [|done].
  destruct (enc_list enc_GraphNode pr) as [wp|] eqn:Hp; [|done].
  destruct (enc_list enc_str sig) as [ws|] eqn:Hs; [|done]. cbn. intros [= <-].
  apply nodes_read in He, Hp. apply texts_read in Hs.
  unfold decode_struct, CtlClient.CtlClient.zero_graph.
  erewrite (CtlClient.CtlClient.decode_member _ 2); [|vm_compute; reflexivity|reflexivity|cbv beta; by rewrite He].
  erewrite (CtlClient.CtlClient.decode_member _ 1); [|vm_compute; reflexivity|reflexivity|cbv beta; by rewrite Hp].
  erewrite (CtlClient.CtlClient.decode_member _ 0); [|vm_compute; reflexivity|reflexivity|cbv beta; by rewrite Hs].
  reflexivity.
Qed.

Lemma version_read x v :
  int64 (vs_Version (ver_Summary x)) →
  enc_PipelineVersion x = Some v → CtlClient.CtlClient.decode_version v = Some (read_version x).
Proof.
  intros Hn. destruct x as [[vn act st by_ created] g yaml hash]. cbn in Hn.
  unfold enc_PipelineVersion, obj, mem, mem_opt. cbn -[enc_PipelineGraph enc_time].
  destruct (enc_time _) as [t|]; [|done]. destruct (enc_PipelineGraph g) as [wg|] eqn:Hg; [|by destruct by_].
  apply graph_read in Hg. intros Hv. destruct by_ as [by_|]; cbn in Hv; simplify_eq.
  all: unfold CtlClient.CtlClient.decode_version, decode_struct.
  all: repeat skipped.
  all: erewrite (CtlClient.CtlClient.decode_member _ 1);
    [|vm_compute; reflexivity|reflexivity|cbv beta; cbn [Ctl.Ctl.VGraph]; by rewrite Hg].
  all: repeat skipped.
  all: erewrite (CtlClient.CtlClient.decode_member _ 0);
    [|vm_compute; reflexivity|reflexivity|cbv beta; unfold CtlClient.CtlClient.decode_int; by rewrite ParseInt_Itoa].
  all: reflexivity.
Qed.

Lemma customers_read l v :
  Forall (λ c, int64_ptr (cust_RateLimitItemsPerSec c) ∧ int64_ptr (cust_RetentionDays c)) l →
  wrapped "customers" (enc_list enc_Customer) l = Some v →
  CtlClient.CtlClient.decode_customers v = Some (read_customer <$> l).
Proof.
  intros Hl. unfold wrapped, obj, mem. destruct (enc_list enc_Customer l) as [w|] eqn:Hw; [|done].
  intros [= <-]. unfold CtlClient.CtlClient.decode_customers, CtlClient.CtlClient.decode_field, decode_struct.
  erewrite (CtlClient.CtlClient.decode_member _ 0); [reflexivity|vm_compute; reflexivity|reflexivity|].
  cbv beta. erewrite list_read; [reflexivity| |exact Hl|exact Hw]. intros c x [Hr Hd]. by apply customer_read.
Qed.

Lemma pipelines_read l v :
  Forall (λ p, int64_ptr (pipe_ActiveVersion p) ∧ int64_ptr (pipe_LatestVersion p)) l →
  wrapped "pipelines" (enc_list enc_Pipeline) l = Some v →
  CtlClient.CtlClient.decode_pipelines v = Some (read_pipeline <$> l).
Proof.
  intros Hl. unfold wrapped, obj, mem. destruct (enc_list enc_Pipeline l) as [w|] eqn:Hw; [|done].
  intros [= <-]. unfold CtlClient.CtlClient.decode_pipelines, CtlClient.CtlClient.decode_field, decode_struct.
  erewrite (CtlClient.CtlClient.decode_member _ 0); [reflexivity|vm_compute; reflexivity|reflexivity|].
  cbv beta. erewrite list_read; [reflexivity| |exact Hl|exact Hw]. intros p x [Ha Hv]. by apply pipeline_read.
Qed.

Context {S : Type} {HTTP : CtlClient.CtlClient.HTTPTransport S} (base token : string).

Definition call (method path : string) : CtlClient.CtlClient.HTTPCall :=
  CtlClient.CtlClient.Build_HTTPCall method (CtlClient.CtlClient.baseURL base +:+ path) ("Bearer " +:+ token) None.

(** The transport brings back what the Visit method wrote. *)
Definition brings (method path : string) (w : written) (s s' : S) : Prop :=
  ∃ status text v, w = Wrote status (Some v) ∧ text ≠ "" ∧
    CtlClient.CtlClient.http_Do (call method path) s =
    (inl (CtlClient.CtlClient.Build_HTTPReply status text (Some v)), s').

Lemma do_answered {A} method path (out : json → option A) zero v text status s s' a :
  (200 ≤ status < 300)%Z → text ≠ "" → out v = Some a →
  CtlClient.CtlClient.http_Do (call method path) s =
    (inl (CtlClient.CtlClient.Build_HTTPReply status text (Some v)), s') →
  CtlClient.CtlClient.do_ base token method path None out zero s = (inl a, s').
Proof.
  intros Hs Ht Hv Hd. unfold CtlClient.CtlClient.do_, CtlClient.CtlClient.exchange, mtry.
  change (CtlClient.CtlClient.Build_HTTPCall method _ _ None) with (call method path).
  unfold mbind, M_bind. rewrite Hd. cbn.
  rewrite (proj2 (Z.ltb_ge _ _)), (proj2 (Z.leb_gt _ _)) by lia. cbn. by rewrite bool_decide_false, Hv.
Qed.

#[local] Instance wire_api : Ctl.Ctl.FleetAPI S := CtlClient.CtlClient.client_API base token.

(** C30: the client reads what the control plane writes.  For the answers of
    the three reads otelfleetctl builds on, whatever their content (numbers in
    the range of Go's int): when the operation's Visit method has written the
    answer and the transport brings it, the client's call returns exactly the
    customers, the pipelines and the version that were written, as far as its
    structs keep them. *)
Theorem client_reads_the_answers s s' :
  (∀ l, Forall (λ c, int64_ptr (cust_RateLimitItemsPerSec c) ∧ int64_ptr (cust_RetentionDays c)) l →
    brings "GET" "/api/v1/customers" (visit_ListCustomers (Success 200 (BCustomers l))) s s' →
    Ctl.Ctl.listCustomers s = (inl (read_customer <$> l), s')) ∧
  (∀ cid l, Forall (λ p, int64_ptr (pipe_ActiveVersion p) ∧ int64_ptr (pipe_LatestVersion p)) l →
    brings "GET" ("/api/v1/customers/" +:+ cid +:+ "/pipelines")
      (visit_ListCustomerPipelines (Success 200 (BPipelines l))) s s' →
    Ctl.Ctl.listPipelines cid s = (inl (read_pipeline <$> l), s')) ∧
  (∀ pid n x, int64 (vs_Version (ver_Summary x)) →
    brings "GET" ("/api/v1/pipelines/" +:+ pid +:+ "/versions/" +:+ Itoa n)
      (visit_GetPipelineVersion (Success 200 (BVersion x))) s s' →
    Ctl.Ctl.getPipelineVersion pid n s = (inl (read_version x), s')).
Proof.
  split_and!.
  - intros l Hl (status & text & v & Hw & Ht & Hd). cbn -[wrapped] in Hw.
    destruct (wrapped _ (enc_list _) l) as [w|] eqn:He; simplify_eq/=.
    eapply do_answered; [|done|by apply customers_read|done]. lia.
  - intros cid l Hl (status & text & v & Hw & Ht & Hd). cbn -[wrapped] in Hw.
    destruct (wrapped _ (enc_list _) l) as [w|] eqn:He; simplify_eq/=.
    eapply do_answered; [|done|by apply pipelines_read|done]. lia.
  - intros pid n x Hx (status & text & v & Hw & Ht & Hd). cbn -[enc_PipelineVersion] in Hw.
    destruct (enc_PipelineVersion x) as [w|] eqn:He; simplify_eq/=.
    eapply do_answered; [|done|by apply version_read|done]. lia.
Qed.
End Wire.

(** A transport that brings one customer, and what the client makes of it. *)
Definition wire_customer : ApiCustomer :=
  Build_ApiCustomer demo_other "acme" "Acme" "acme" "active" (Some 500%Z) None 0.
Definition wire_answer : written :=
  visit_ListCustomers (Success 200 (BCustomers [wire_customer])).
Definition wire_transport : CtlClient.CtlClient.HTTPTransport unit := {|
  CtlClient.CtlClient.http_Do _ s :=
    (inl (CtlClient.CtlClient.Build_HTTPReply 200 "the answer"
            match wire_answer with Wrote _ v => v | _ => None end), s) |}.
Definition wire_any : CtlClient.CtlClient.AnyJSON := {| CtlClient.CtlClient.any_members m := m |}.

Lemma client_reads_the_answers_witness :
  @Ctl.Ctl.listCustomers unit (@wire_api wire_any unit wire_transport "http://localhost/" "token") tt =
  (inl [Ctl.Ctl.Build_Customer (uuid_String demo_other) "acme" "Acme" "acme" "active" (Some 500%Z) None], tt).
Proof.
  apply (proj1 (@client_reads_the_answers wire_any unit wire_transport
    "http://localhost/" "token" tt tt) [wire_customer]).
  - repeat constructor; vm_compute; discriminate.
  - eexists 200%Z, "the answer", _. split; [vm_compute; reflexivity|split; [discriminate|vm_compute; reflexivity]].
Defined.
End Wire.

(** * The ops listener

    What gateways of the forwarding tier pull ([gateways_pull]), readiness, and
    that a path is redirected at most once. *)
Module OpsProps.
Import Ops.
Example cleaned_paths : cleanPath "/a//b/./c/../d/" = "/a/b/d/" ∧ cleanPath "//healthz" = "/healthz" ∧ cleanPath "/.." = "/" ∧ cleanPath "" = "/"
  ∧ cleanPath "/a/.." = "/".
Proof. by vm_compute. Qed.

Definition proper (s : string) : Prop := s ≠ "" ∧ s ≠ "." ∧ s ≠ ".." ∧ ∀ a, a ∈ chars s → a ≠ "/"%char.

Lemma segments_app s t : (∀ a, a ∈ chars s → a ≠ "/"%char) → segments (s +:+ "/" +:+ t) = s :: segments t.
Proof.
  induction s as [|a s IH]; intros Hs; [done|].
  change (String a s +:+ "/" +:+ t) with (String a (s +:+ "/" +:+ t)). cbn [segments].
  rewrite bool_decide_false by (apply Hs; left). rewrite IH; [done|]. intros b Hb. apply Hs. by right.
Qed.

Lemma segments_one s : (∀ a, a ∈ chars s → a ≠ "/"%char) → segments s = [s].
Proof.
  induction s as [|a s IH]; intros Hs; [done|]. cbn [segments].
  rewrite bool_decide_false by (apply Hs; left). rewrite IH; [done|]. intros b Hb. apply Hs. by right.
Qed.

Lemma segments_slashless s x : x ∈ segments s → ∀ a, a ∈ chars x → a ≠ "/"%char.
Proof.
  revert x. induction s as [|a s IH]; intros x; cbn [segments].
  - intros ->%list_elem_of_singleton b Hb. by apply elem_of_nil in Hb.
  - case_bool_decide as Ha.
    + intros [->|Hx]%elem_of_cons; [|by apply IH]. intros b Hb. by apply elem_of_nil in Hb.
    + destruct (segments s) as [|y l] eqn:E.
      * intros ->%list_elem_of_singleton b [->|Hb]%elem_of_cons; [done|by apply elem_of_nil in Hb].
      * intros [->|Hx]%elem_of_cons; [|apply IH; by right].
        intros b [->|Hb]%elem_of_cons; [done|]. eapply IH; [left|done].
Qed.

Lemma cleaned_proper l st :
  (∀ x, x ∈ l → ∀ a, a ∈ chars x → a ≠ "/"%char) → Forall proper st → Forall proper (fold_left clean_step l st).
Proof.
  revert st. induction l as [|x l IH]; intros st Hl Hst; [done|]. cbn [fold_left]. apply IH; [intros y Hy; apply Hl; by right|].
  unfold clean_step. case_bool_decide; [done|]. case_bool_decide; [done|]. cbn [orb]. case_bool_decide; [by apply Forall_tail|].
  constructor; [|done]. split_and!; try done. apply Hl. left.
Qed.

Lemma fold_proper l st : Forall proper l → fold_left clean_step l st = reverse l ++ st.
Proof.
  revert st. induction l as [|x l IH]; intros st Hl; [done|]. apply Forall_cons in Hl as [(H1 & H2 & H3 & _) Hl].
  cbn [fold_left]. unfold clean_step at 2. rewrite !bool_decide_false by done. cbn [orb].
  by rewrite IH, reverse_cons, <- app_assoc.
Qed.

Lemma segments_joined l : Forall proper l → segments (String.concat "/" l) = if bool_decide (l = []) then [""] else l.
Proof.
  induction 1 as [|x l (_ & _ & _ & Hx) Hl IH]; [done|]. rewrite bool_decide_false by done.
  destruct l as [|y l]; [by apply segments_one|]. cbn [String.concat] in *. rewrite segments_app, IH by done.
  by rewrite bool_decide_false.
Qed.

Lemma segments_joined_slash l :
  Forall proper l → l ≠ [] → segments (String.concat "/" l +:+ "/") = l ++ [""].
Proof.
  induction 1 as [|x l (_ & _ & _ & Hx) Hl IH]; intros Hne; [done|].
  destruct l as [|y l]; [exact (segments_app x "" Hx)|]. cbn [String.concat] in *.
  rewrite !app_str_assoc, segments_app by done. by rewrite IH.
Qed.

Lemma joined_nonempty l : Forall proper l → l ≠ [] → String.concat "/" l ≠ "".
Proof.
  intros Hl Hne E. pose proof (segments_joined l Hl) as Hs. rewrite E, bool_decide_false in Hs by done.
  destruct Hl as [|x l [? _] _]; [done|]. by injection Hs as <-.
Qed.

(** A path of proper elements, with or without a slash at its end, is clean. *)
Lemma cleanPath_clean l (slash : bool) :
  Forall proper l → l ≠ [] →
  let p := "/" +:+ String.concat "/" l +:+ (if slash then "/" else "") in cleanPath p = p.
Proof.
  intros Hl Hne p. unfold cleanPath. rewrite bool_decide_false by done.
  assert (Hs : segments p = "" :: l ++ (if slash then [""] else [])).
  { unfold p. change (segments ("/" +:+ ?x)) with ("" :: segments x). f_equal. destruct slash.
    - by apply segments_joined_slash.
    - rewrite app_str_nil_r, app_nil_r, segments_joined, bool_decide_false by done. done. }
  assert (Hc : path_Clean p = "/" +:+ String.concat "/" l).
  { unfold path_Clean. rewrite Hs. cbn [fold_left]. change (clean_step [] "") with (@nil string).
    rewrite fold_left_app, (fold_proper l), app_nil_r by done.
    destruct slash; cbn [fold_left]; [change (clean_step ?st "") with st|]; by rewrite reverse_involutive. }
  assert (Hn : "/" +:+ String.concat "/" l ≠ "/").
  { intros E. apply (joined_nonempty l Hl Hne). by injection E. }
  change (HasPrefix "/" p) with true. cbn iota zeta. rewrite Hs, Hc, (bool_decide_false (_ = "/")) by done.
  rewrite andb_true_r. unfold p. destruct slash.
  - change ("" :: l ++ [""]) with (("" :: l) ++ [""]).
    by rewrite last_snoc, bool_decide_true, app_str_assoc by done.
  - rewrite app_nil_r, app_str_nil_r. destruct l as [|x l _] using rev_ind; [done|].
    change ("" :: l ++ [x]) with (("" :: l) ++ [x]). rewrite last_snoc.
    apply Forall_app in Hl as [_ [[Hx _] _]%Forall_cons]. rewrite bool_decide_false; [done|congruence].
Qed.

Lemma cleanPath_idem p : cleanPath (cleanPath p) = cleanPath p.
Proof.
  unfold cleanPath at 2 3. case_bool_decide; [done|]. cbv zeta. set (q := if HasPrefix "/" p then p else _).
  set (l := reverse (fold_left clean_step (segments q) [])).
  assert (Hl : Forall proper l).
  { apply Forall_reverse, cleaned_proper; [|by constructor]. intros x. apply segments_slashless. }
  change (path_Clean q) with ("/" +:+ String.concat "/" l).
  destruct (decide (l = [])) as [->|Hne]; [by rewrite andb_false_r|].
  destruct (_ && _).
  - rewrite app_str_assoc. exact (cleanPath_clean l true Hl Hne).
  - pose proof (cleanPath_clean l false Hl Hne) as H1. cbv zeta in H1. by rewrite app_str_nil_r in H1.
Qed.

Section Listener.
Context {ENV : Env} {YML : YAML} (unicode_print : N → bool) (svc : SvcCfg) (error_text : error → string).

Definition ops := NewOpsHandler unicode_print svc error_text.

(** What the listener answers to a clean path. *)
Lemma ops_clean m p w :
  m ≠ "CONNECT" → p ≠ "*" → cleanPath p = p →
  ops m p w = mux_handler (ops_routes unicode_print svc error_text) m p w.
Proof.
  intros Hm Hp Hc. unfold ops, NewOpsHandler, serve_mux. rewrite (bool_decide_false (p = "*")) by done.
  rewrite (bool_decide_false (m = "CONNECT")) by done. cbv zeta. by rewrite Hc, bool_decide_true.
Qed.

Lemma handlers_never_redirect m p w w' q :
  mux_handler (ops_routes unicode_print svc error_text) m p w ≠ (inl (OpsRedirect q), w').
Proof.
  unfold mux_handler. destruct (find _ _) as [r|] eqn:Hf.
  - apply find_some in Hf as [Hr _]. cbn [In ops_routes] in Hr.
    destruct Hr as [<-|[<-|[<-|[<-|[]]]]]; [done| |done|]; cbn.
    + unfold forwarding_handler, mtry, mbind, M_bind. by destruct (RenderCurrent _ _ w) as [[|] ?].
    + unfold readyz, mtry, mbind, M_bind. by destruct (Ping w) as [[|] ?].
  - by destruct (concat _).
Qed.

(** A cleaned path is served, never redirected again. *)
Theorem ops_redirects_once m e p w w' w2 w3 q :
  ops m e w = (inl (OpsRedirect p), w') → ops m p w2 ≠ (inl (OpsRedirect q), w3).
Proof.
  unfold ops at 1, NewOpsHandler, serve_mux. case_bool_decide; [done|].
  destruct (decide (m = "CONNECT")) as [->|Hm]; [by intros ?%handlers_never_redirect|].
  rewrite bool_decide_false by done. cbv zeta. case_bool_decide; [by intros ?%handlers_never_redirect|].
  intros [= <- _]. rewrite ops_clean; [apply handlers_never_redirect|done| |apply cleanPath_idem].
  unfold cleanPath. case_bool_decide; [done|]. cbv zeta. by destruct (_ && _).
Qed.

(** What a gateway of the forwarding tier pulls.  However the control plane got
    to its state, once its statement succeeds the answer is the encoding of a
    well-formed tree of exactly the validated active pipelines, or 503 with
    the encoder's error; asking changes no table. *)
Theorem gateways_pull lower {SCHEMA : JSONSchema} w m :
  rtc (pstep unicode_print lower (sv_cipher svc)) world_init w →
  unicode_lower = lower → fault (w_tick w) || w_aborted w = false → m = "GET" ∨ m = "HEAD" →
  ∃ ps doc, (activeRenderPipelines svc ClassForwarding None None w).1 = inl ps ∧
    Forall (validated unicode_print) ps ∧ forwarding_tree unicode_print ps = inl doc ∧ wf_config doc ∧
    (ops m forwarding_path w).1 = inl match marshalYAML doc with
      | inl yaml => OpsText 200 (Some "application/x-yaml") yaml
      | inr err => http_Error ("render forwarding config: " +:+ error_text err) 503
      end ∧
    w_db (ops m forwarding_path w).2 = w_db w.
Proof.
  intros Hr%reachable_svc_inv Hlow Hf Hm.
  destruct (activeRenderPipelines_ok unicode_print lower _ ENV svc _ Hlow eq_refl Hr w ClassForwarding None eq_refl Hf)
    as (ps & w' & E & Hv & _ & Hk & _).
  destruct (rendered_trees unicode_print ps Hv Hk) as (fwd & _ & Ef & Hw & _).
  exists ps, fwd. rewrite E. split_and!; try done.
  all: rewrite ops_clean; [|by destruct Hm as [-> | ->]|done|by vm_compute].
  all: replace (mux_handler _ m forwarding_path) with (forwarding_handler unicode_print svc error_text)
    by (by destruct Hm as [-> | ->]).
  - unfold forwarding_handler, mtry, RenderCurrent, mbind, M_bind. rewrite E. unfold RenderForwardingConfig. rewrite Ef.
    by destruct (marshalYAML fwd).
  - pose proof (readonly_RenderCurrent unicode_print svc w) as Hro.
    unfold forwarding_handler, mtry, mbind, M_bind. destruct (RenderCurrent _ _ w) as [[|] w1]; exact Hro.
Qed.

(** Ready means a statement of the database went through. *)
Theorem readyz_pings w :
  (ops "GET" "/readyz" w).1 =
  inl match (Ping w).1 with
      | inl _ => OpsText 200 None "ready"
      | inr err => http_Error ("not ready: " +:+ error_text err) 503
      end.
Proof.
  rewrite ops_clean by (done || by vm_compute). change (mux_handler _ "GET" "/readyz") with (readyz error_text).
  unfold readyz, mtry, mbind, M_bind. by destruct (Ping w) as [[|] ?].
Qed.
End Listener.

Example ops_answers :
  let ask m p := (@ops quiet_env demo_yaml all_print demo_cfg (λ _, "err") m p demo_active).1 in
  ask "GET" forwarding_path = inl (OpsText 200 (Some "application/x-yaml") "yaml") ∧
  ask "POST" forwarding_path = inl (OpsNotAllowed ["GET"; "HEAD"]) ∧
  ask "GET" "/internal//v1/./collector-config/forwarding" = inl (OpsRedirect forwarding_path) ∧
  ask "POST" "/health%7A" = inl (OpsText 200 None "ok") ∧
  ask "GET" "/readyz/" = inl (http_Error "404 page not found" 404).
Proof. vm_compute. by split_and!. Qed.
End OpsProps.

(** * The web interface

    No file outside its directory is served ([spa_confined]), and what falls
    back to its page ([spa_falls_back]). *)
Module SpaProps.
Import Api Ops Spa OpsProps.

Lemma elements_proper p : Forall proper (elements p).
Proof. apply Forall_reverse, cleaned_proper; [|by constructor]. intros x. apply segments_slashless. Qed.

Section Spa.
Context {FILES : WebFiles}.

(** What is served is a file of the directory (or what stands in for one), by
    elements that are names: none is empty, a dot, two dots or holds a slash,
    whatever the path of the request was. *)
Theorem spa_confined webDir path l :
  spaHandler webDir path = SpaFile l → Forall proper l ∧ web_IsDir l = Some false.
Proof.
  unfold spaHandler. destruct (HasPrefix _ path); [done|]. destruct (_ || _); [done|]. cbv zeta.
  assert (Hindex : serveIndex path = SpaFile l → Forall proper l ∧ web_IsDir l = Some false).
  { unfold serveIndex. destruct (containsDotDot path); [done|]. destruct (HasSuffix _ path); [done|].
    assert (Hp : proper "index.html")
      by (split_and!; try done; apply (segments_slashless "index.html"); left).
    destruct (web_IsDir ["index.html"]) as [[]|] eqn:E; [|intros [= <-]; split; [by apply Forall_singleton|done]|done].
    destruct (web_IsDir ["index.html"; "index.html"]) as [[]|] eqn:E2; [done| |done].
    intros [= <-]. split; [by constructor; [|apply Forall_singleton]|done]. }
  destruct (web_IsDir (path200 path)) as [[]|] eqn:E; [done| |done].
  unfold fileServer. destruct (HasSuffix "/index.html" _); [done|]. destruct (HasSuffix "/" _); [by destruct (last _)|].
  intros [= <-]. split; [apply elements_proper|done].
Qed.

(** Everything outside the API and the sign-in pages falls back to the one
    page, except a path with two dots as an element, which is refused, and one
    that ends in /index.html, which is redirected to its directory. *)
Theorem spa_falls_back webDir path :
  HasPrefix "/api/" path = false → HasPrefix "/auth/" path = false → webDir ≠ "" →
  web_IsDir (path200 path) ≠ Some false → web_IsDir ["index.html"] = Some false →
  spaHandler webDir path =
    if containsDotDot path then SpaText 400 ("invalid URL path" +:+ newline)
    else if HasSuffix "/index.html" path then SpaRedirect "./" else SpaFile ["index.html"].
Proof.
  intros Ha Hu Hd Hf Hi. unfold spaHandler. rewrite Ha, Hu, bool_decide_false by done. cbn [orb]. cbv zeta.
  unfold serveIndex. rewrite Hi. by destruct (web_IsDir (path200 path)) as [[]|].
Qed.
End Spa.

(** A directory with the page and one script. *)
Definition demo_files : WebFiles := {|
  web_IsDir l := if bool_decide (l ∈ [["index.html"]; ["assets"; "app.js"]]) then Some false
                 else if bool_decide (l ∈ [[]; ["assets"]]) then Some true else None |}.

Example spa_answers :
  let get := @spaHandler demo_files "/srv/web" in
  get "/" = SpaFile ["index.html"] ∧
  get "/customers/7" = SpaFile ["index.html"] ∧
  get "/assets/app.js" = SpaFile ["assets"; "app.js"] ∧
  get "/x/../../assets//app.js" = SpaFile ["assets"; "app.js"] ∧
  get "/assets/app.js/" = SpaRedirect "../app.js" ∧
  get "/../../etc/passwd" = SpaText 400 ("invalid URL path" +:+ newline) ∧
  get "/index.html" = SpaRedirect "./" ∧
  get "/auth/nobody" = NotFound ∧
  get "/api/v2" = SpaError (Failure 404 "not_found" "no such endpoint").
Proof. vm_compute. by split_and!. Qed.
End SpaProps.
