(* ===== verification/CtlMain.v ===== *)
(** * The commands of otelfleetctl (cmd/otelfleetctl/main.go)

    The two listings, with the columns text/tabwriter lays out, and the
    dispatch of a command line over the client of [CtlClient].  Nothing is
    requested without a token ([no_token_no_request]). *)
From Stdlib Require Import Ascii.
From S2P Require Import Prelude GoStrings GoText Store World Ctl CtlClient.
Import Ctl CtlClient.

Module CtlMain.

(** ** text/tabwriter

    [NewWriter(out, 0, 0, 2, ' ', 0)] on a text that ends a line: a column is
    a run of consecutive lines with a cell ended by a tab there, as wide as
    its widest cell and two blanks. *)

Definition tab : string := String "009"%char "".
Definition ends_cell (c : ascii) : bool := bool_decide (c = "009"%char ∨ c = "011"%char).

(** The lines of a text and their cells; the text after the last newline is
    the last line. *)
Fixpoint tab_lines (s : string) : list (list string) :=
  match s with
  | "" => [[""]]
  | String c s' =>
    let ls := tab_lines s' in
    if bool_decide (c = "010"%char) then [""] :: ls
    else if ends_cell c then match ls with l :: ls' => ("" :: l) :: ls' | [] => [] end
    else match ls with (x :: l) :: ls' => (String c x :: l) :: ls' | _ => [] end
  end.

(** Maximal runs of elements that satisfy [p], and of those that do not. *)
Fixpoint runs {A} (p : A → bool) (l : list A) : list (bool * list A) :=
  match l with
  | [] => []
  | x :: l' => match runs p l' with
               | (b, r) :: rs => if Bool.eqb (p x) b then (b, x :: r) :: rs else (p x, [x]) :: (b, r) :: rs
               | [] => [(p x, [x])]
               end
  end.

Definition cell_width (c : string) : nat := length (runes c).
Definition blanks (n : nat) : string := concat_str (replicate n " ").

Definition has_column (col : nat) (l : list string) : bool := (col <? length l - 1)%nat.

(** [writeLines], for one line. *)
Fixpoint write_line (widths : list nat) (l : list string) : string :=
  match l, widths with
  | c :: l', w :: widths' => c +:+ blanks (w - cell_width c) +:+ write_line widths' l'
  | c :: l', [] => c +:+ write_line [] l'
  | [], _ => ""
  end.

(** [format]: the block of a column has the next column to look at; there are
    at most [n] more. *)
Fixpoint format (n : nat) (widths : list nat) (lines : list (list string)) : list string :=
  let col := length widths in
  r ← runs (has_column col) lines;
  match r, n with
  | (true, block), S n' =>
    let w := max_list ((λ l, cell_width (default "" (l !! col)) + 2)%nat <$> block) in
    format n' (widths ++ [w]) block
  | (_, block), _ => write_line widths <$> block
  end.

(** The widest line bounds the columns. *)
Definition tabwriter_block (s : string) : string :=
  let ls := tab_lines s in String.concat nl (format (max_list (length <$> ls)) [] ls).

(** A form feed is a newline after which columns start anew. *)
Fixpoint form_feeds (s : string) : list string :=
  match s with
  | "" => [""]
  | String c s' =>
    if bool_decide (c = "012"%char) then nl :: form_feeds s'
    else match form_feeds s' with x :: l => String c x :: l | [] => [] end
  end.
Definition tabwriter (s : string) : string := concat_str (tabwriter_block <$> form_feeds s).

Example tabwriter_columns :
  tabwriter ("a" +:+ tab +:+ "b" +:+ tab +:+ "c" +:+ nl +:+ "aaaa" +:+ tab +:+ "∞∞∞" +:+ tab +:+ "c" +:+ nl
             +:+ "x" +:+ nl +:+ "y" +:+ tab +:+ "z" +:+ nl)
  = "a     b    c" +:+ nl +:+ "aaaa  ∞∞∞  c" +:+ nl +:+ "x" +:+ nl +:+ "y  z" +:+ nl.
Proof. vm_compute. reflexivity. Qed.

(** ** The commands *)

Definition row (cells : list string) : string := String.concat tab cells +:+ nl.

Definition optInt (p : option Z) (dflt : string) : string := match p with Some n => Itoa n | None => dflt end.

Definition customer_row (c : Customer) : string :=
  row [Slug c; Name c; ClientID c; Status c; optInt (RateLimitItemsPerSec c) "∞";
       optInt (RetentionDays c) "default"].
Definition pipeline_row (cust : Customer) (p : Pipeline) : string :=
  row [Slug cust; PName p; TargetClass p; optInt (ActiveVersion p) "-"; optInt (LatestVersion p) "-"].

Section Commands.
Context {S : Type} {API : FleetAPI S} (token : string).

Abbreviation C := (M (ctl S) error).

Definition write_out (text : string) : C unit :=
  mmodify (λ s, Build_ctl (ct_api s) (ct_files s) (ct_out s +:+ text) (ct_err s)).

Definition cmdCustomers : C unit :=
  requireToken token;;
  customers ← call listCustomers;
  write_out (tabwriter (row ["SLUG"; "NAME"; "CLIENT ID"; "STATUS"; "QUOTA/s"; "RETENTION"]
                        +:+ concat_str (customer_row <$> customers))).

Fixpoint pipeline_rows (l : list Customer) : C string :=
  match l with
  | [] => mret ""
  | cust :: l' =>
    pipes ← call (listPipelines (ID cust));
    rest ← pipeline_rows l';
    mret (concat_str (pipeline_row cust <$> pipes) +:+ rest)
  end.

(** An error leaves the rows so far unflushed. *)
Definition cmdPipelines : C unit :=
  requireToken token;;
  customers ← call listCustomers;
  rows ← pipeline_rows customers;
  write_out (tabwriter (row ["CUSTOMER"; "PIPELINE"; "CLASS"; "ACTIVE"; "LATEST"] +:+ rows)).

End Commands.

Definition usage_text : string := String.concat nl [
  "otelfleetctl — manage otelfleet as code"; "";
  "Usage:"; "  otelfleetctl <command> [flags]"; "";
  "Commands:";
  "  customers            list customers";
  "  pipelines            list pipelines (all customers)";
  "  export [-o FILE]     write customers + pipelines as declarative YAML (stdout if no -o)";
  "  apply -f FILE        reconcile the target from a declarative YAML";
  "                       [--dry-run] print planned changes without applying"; "";
  "Config (flags override env):";
  "  OTELFLEET_URL    control-plane base URL (default http://localhost:8080)";
  "  OTELFLEET_TOKEN  management-API token (otm_pat_...)"; ""].

Section Run.
Context {S : Type} {HTTP : HTTPTransport S} {ANY : AnyJSON} {YML : SpecYAML} {FS : Files}.
Context (unicode_print : N → bool) (environ : gmap string string).

Definition getenv (k : string) : string := default "" (environ !! k).
Definition env (k def : string) : string := if bool_decide (getenv k = "") then def else getenv k.

Definition usage : M (ctl S) error unit :=
  mmodify (λ s, Build_ctl (ct_api s) (ct_files s) (ct_out s) (ct_err s +:+ usage_text)).

Definition run (args : list string) : M (ctl S) error unit :=
  match args with
  | [] => usage;; mthrow (ErrNew "a command is required")
  | cmd :: rest =>
    let token := getenv "OTELFLEET_TOKEN" in
    let API := client_API (env "OTELFLEET_URL" "http://localhost:8080") token in
    if bool_decide (cmd = "customers") then cmdCustomers (API := API) token
    else if bool_decide (cmd = "pipelines") then cmdPipelines (API := API) token
    else if bool_decide (cmd = "export") then cmdExport (API := API) unicode_print token rest
    else if bool_decide (cmd = "apply") then cmdApply (API := API) unicode_print token rest
    else if bool_decide (cmd ∈ ["-h"; "--help"; "help"]) then usage
    else usage;; mthrow (ErrNew ("unknown command " +:+ Quote unicode_print cmd))
  end.

(** Without a token in the environment no command sends a request, reads or
    writes a file or prints a row. *)
Theorem no_token_no_request args (s : ctl S) :
  getenv "OTELFLEET_TOKEN" = "" →
  ct_api (run args s).2 = ct_api s ∧ ct_files (run args s).2 = ct_files s ∧ ct_out (run args s).2 = ct_out s.
Proof.
  intros Ht. unfold run. destruct args as [|cmd rest]; [done|]. rewrite Ht.
  repeat (case_bool_decide; [done|]). done.
Qed.

End Run.

End CtlMain.
