(* ===== verification/CtlLaws.v ===== *)
(** * What otelfleetctl relies on

    A view of the fleet behind the management API, the laws of its endpoints
    over that view, and a control plane in memory that obeys them; what a spec
    is after a trip through YAML. *)
From Stdlib Require Import Ascii.
From S2P Require Import Prelude GoStrings GoText Store World Json PipelineGraph Ctl.
Import Ctl.

(** ** Equal graphs *)

Lemma json_eqb_true v w : json_eqb v w = true ↔ v = w.
Proof.
  revert w. induction v as [|b|l|s|l IH|m IH] using json_nest_ind; intros w;
    destruct w as [|b'|l'|s'|l'|m']; simpl; try (split; done); rewrite ?bool_decide_eq_true.
  1-3: split; congruence.
  - assert (Hl : ∀ r, (fix elems l l' := match l, l' with
        | [], [] => true | x :: l, y :: l' => json_eqb x y && elems l l' | _, _ => false end) l r = true ↔ l = r).
    { induction IH as [|x l Hx _ IHl]; intros [|y r]; simpl; try (split; done).
      rewrite andb_true_iff, Hx, IHl. split; [intros [-> ->]; done|by intros [= -> ->]]. }
    rewrite Hl. split; congruence.
  - assert (Hm : ∀ r, (fix members m m' := match m, m' with
        | [], [] => true
        | (k, x) :: m, (k', y) :: m' => bool_decide (k = k') && json_eqb x y && members m m'
        | _, _ => false end) m r = true ↔ m = r).
    { induction IH as [|[k x] m Hx _ IHm]; intros [|[k' y] r]; simpl; try (split; done).
      simpl in Hx. rewrite !andb_true_iff, bool_decide_eq_true, Hx, IHm.
      split; [intros [[-> ->] ->]; done|by intros [= -> -> ->]]. }
    rewrite Hm. split; congruence.
Qed.

Lemma graphEqual_refl g : graphEqual g g = true.
Proof. by apply json_eqb_true. Qed.

(** ** The fleet behind the API *)

Record fleet := {
  fv_customers : list Customer;
  fv_pipelines : string → list Pipeline;
  fv_version : string → Z → option PipelineGraph;
}.

Definition current (p : Pipeline) : option Z :=
  match ActiveVersion p with Some v => Some v | None => LatestVersion p end.

(** Ids and slugs tell customers apart, names and ids pipelines; nothing is
    listed twice, and every customer has an id. *)
Record well_formed (v : fleet) : Prop := {
  wf_named x : x ∈ fv_customers v → ID x ≠ "";
  wf_customers : NoDup (fv_customers v);
  wf_pipelines c : NoDup (fv_pipelines v c);
  wf_ids x y : x ∈ fv_customers v → y ∈ fv_customers v → ID x = ID y → x = y;
  wf_slugs x y : x ∈ fv_customers v → y ∈ fv_customers v → Slug x = Slug y → x = y;
  wf_names c p q : p ∈ fv_pipelines v c → q ∈ fv_pipelines v c → PName p = PName q → p = q;
  wf_pids c d p q : p ∈ fv_pipelines v c → q ∈ fv_pipelines v d → PID p = PID q → c = d ∧ p = q;
}.

Definition apply_update (stored_name : string → string) (u : CustomerUpdate) (c : Customer) : Customer := {|
  ID := ID c; Slug := Slug c; Name := match up_name u with Some n => stored_name n | None => Name c end;
  ClientID := ClientID c; Status := Status c;
  RateLimitItemsPerSec := default (RateLimitItemsPerSec c) (up_rateLimitItemsPerSec u);
  RetentionDays := default (RetentionDays c) (up_retentionDays u) |}.

Definition set_latest (pid : string) (n : Z) (p : Pipeline) : Pipeline :=
  if bool_decide (PID p = pid) then {| PID := PID p; PName := PName p; TargetClass := TargetClass p;
    ActiveVersion := ActiveVersion p; LatestVersion := Some n |} else p.
Definition set_active (pid : string) (n : Z) (p : Pipeline) : Pipeline :=
  if bool_decide (PID p = pid) then {| PID := PID p; PName := PName p; TargetClass := TargetClass p;
    ActiveVersion := Some n; LatestVersion := LatestVersion p |} else p.

(** The documented behaviour of the endpoints.  What comes back for a name or
    a graph need not be what was sent: names are trimmed, secrets redacted,
    missing lists empty. *)
Class FleetLaws {S} (API : FleetAPI S) (view : S → fleet) (stored_name : string → string)
    (stored_graph : PipelineGraph → PipelineGraph) : Prop := {
  law_ok s : well_formed (view s);
  law_customers s l s' : listCustomers s = (inl l, s') → l = fv_customers (view s) ∧ view s' = view s;
  law_pipelines id s l s' : listPipelines id s = (inl l, s') → l = fv_pipelines (view s) id ∧ view s' = view s;
  law_version pid n s v s' :
    getPipelineVersion pid n s = (inl v, s') → fv_version (view s) pid n = Some (VGraph v) ∧ view s' = view s;
  law_create name slug s c s' :
    createCustomer name slug s = (inl c, s') →
    Name c = stored_name name ∧ (slug ≠ "" → Slug c = slug) ∧ RateLimitItemsPerSec c = None ∧ RetentionDays c = None ∧
    (∀ x, x ∈ fv_customers (view s') ↔ x = c ∨ x ∈ fv_customers (view s)) ∧ c ∉ fv_customers (view s) ∧
    fv_pipelines (view s') (ID c) = [] ∧ (∀ id, id ≠ ID c → fv_pipelines (view s') id = fv_pipelines (view s) id) ∧
    fv_version (view s') = fv_version (view s);
  law_update id u s x s' :
    updateCustomer id u s = (inl x, s') →
    (∀ c, c ∈ fv_customers (view s') ↔
      ∃ b, b ∈ fv_customers (view s) ∧ c = if bool_decide (ID b = id) then apply_update stored_name u b else b) ∧
    fv_pipelines (view s') = fv_pipelines (view s) ∧ fv_version (view s') = fv_version (view s);
  law_createPipeline cid name class g s p s' :
    createPipeline cid name class g s = (inl p, s') →
    PName p = stored_name name ∧ TargetClass p = class ∧ ActiveVersion p = None ∧ LatestVersion p = Some 1%Z ∧
    fv_customers (view s') = fv_customers (view s) ∧
    (∀ q, q ∈ fv_pipelines (view s') cid ↔ q = p ∨ q ∈ fv_pipelines (view s) cid) ∧ p ∉ fv_pipelines (view s) cid ∧
    (∀ id, id ≠ cid → fv_pipelines (view s') id = fv_pipelines (view s) id) ∧
    fv_version (view s') (PID p) 1 = Some (stored_graph g) ∧
    (∀ pid n, pid ≠ PID p → fv_version (view s') pid n = fv_version (view s) pid n);
  law_createVersion pid g s v s' :
    createPipelineVersion pid g s = (inl v, s') →
    fv_customers (view s') = fv_customers (view s) ∧
    (∀ id, fv_pipelines (view s') id = set_latest pid (Version v) <$> fv_pipelines (view s) id) ∧
    fv_version (view s') pid (Version v) = Some (stored_graph g) ∧
    (∀ pid' n, pid' ≠ pid → fv_version (view s') pid' n = fv_version (view s) pid' n);
  law_activate pid n s x s' :
    activateVersion pid n s = (inl x, s') →
    fv_customers (view s') = fv_customers (view s) ∧
    (∀ id, fv_pipelines (view s') id = set_active pid n <$> fv_pipelines (view s) id) ∧
    fv_version (view s') = fv_version (view s);
}.

(** ** A spec in YAML

    Names, slugs, classes and numbers survive the file an export writes.  A
    list that is nil comes back empty, and [yaml_config] is what becomes of the
    configuration of a node: yaml.v3 writes a nil map as [{}]. *)

Section Reread.
Context (yaml_config : option members → option members).

Definition reread_node (n : GraphNode) : GraphNode :=
  {| Type_ := Type_ n; NodeName := NodeName n; Config := yaml_config (Config n) |}.
Definition reread_graph (g : PipelineGraph) : PipelineGraph := {|
  Signals := Some (default [] (Signals g));
  Processors := Some (reread_node <$> default [] (Processors g));
  Exporters := Some (reread_node <$> default [] (Exporters g)) |}.
Definition reread_pipeline (ps : PipelineSpec) : PipelineSpec :=
  {| ps_Name := ps_Name ps; ps_TargetClass := ps_TargetClass ps; ps_Graph := reread_graph (ps_Graph ps) |}.
Definition reread_customer (cs : CustomerSpec) : CustomerSpec := {|
  cs_Name := cs_Name cs; cs_Slug := cs_Slug cs; cs_RateLimitItemsPerSec := cs_RateLimitItemsPerSec cs;
  cs_RetentionDays := cs_RetentionDays cs; cs_Pipelines := reread_pipeline <$> cs_Pipelines cs |}.
Definition reread (spec : Spec) : Spec := {| Customers := reread_customer <$> Customers spec |}.

(** The pipelines of a spec whose graph is another one once it was in a file. *)
Definition altered (ps : PipelineSpec) : bool := negb (graphEqual (ps_Graph ps) (ps_Graph (reread_pipeline ps))).

End Reread.

Class SpecYAMLLaws (YML : SpecYAML) (yaml_config : option members → option members) : Prop :=
  law_yaml : ∀ spec text,
    marshalYAML spec = inl text → yamlUnmarshalStrict (export_header +:+ text) = inl (reread yaml_config spec).

(** The spec of a fleet: what is not deleted, with the current version of
    every pipeline that has one. *)
Definition pipeline_specs (v : fleet) (l : list Pipeline) : list PipelineSpec :=
  omap (λ p, n ← current p; g ← fv_version v (PID p) n;
             Some {| ps_Name := PName p; ps_TargetClass := TargetClass p; ps_Graph := g |}) l.
Definition customer_spec (v : fleet) (c : Customer) : CustomerSpec := {|
  cs_Name := Name c; cs_Slug := Slug c; cs_RateLimitItemsPerSec := RateLimitItemsPerSec c;
  cs_RetentionDays := RetentionDays c; cs_Pipelines := pipeline_specs v (fv_pipelines v (ID c)) |}.
Definition fleet_spec (v : fleet) : Spec := {|
  Customers := customer_spec v <$> filter (λ c, Status c ≠ "deleted") (sortCustomers (fv_customers v)) |}.

(** ** A control plane in memory

    It trims names, completes missing lists of a graph, refuses what would
    break the uniqueness of ids, slugs and names, and a version without
    exporters is invalid and cannot be activated. *)

Record memory := {
  mm_customers : list Customer;
  mm_pipelines : list (string * Pipeline);
  mm_versions : list (string * Z * PipelineGraph);
}.

Definition memory_ok (d : memory) : bool :=
  forallb (λ c, negb (bool_decide (ID c = ""))) (mm_customers d)
  && bool_decide (NoDup (ID <$> mm_customers d)) && bool_decide (NoDup (Slug <$> mm_customers d))
  && bool_decide (NoDup ((λ x, PID x.2) <$> mm_pipelines d))
  && bool_decide (NoDup ((λ x, (x.1, PName x.2)) <$> mm_pipelines d)).

Definition mem : Type := { d : memory | memory_ok d = true }.

Definition memory_view (d : memory) : fleet := {|
  fv_customers := mm_customers d;
  fv_pipelines cid := snd <$> filter (λ x, x.1 = cid) (mm_pipelines d);
  fv_version pid n := snd <$> find (λ x, bool_decide (x.1 = (pid, n))) (mm_versions d) |}.
Definition mem_view (s : mem) : fleet := memory_view (proj1_sig s).

Definition complete (g : PipelineGraph) : PipelineGraph := {|
  Signals := Some (default [] (Signals g)); Processors := Some (default [] (Processors g));
  Exporters := Some (default [] (Exporters g)) |}.

Definition commit {A} (d : memory) (a : A) : M mem error A := λ s,
  match decide (memory_ok d = true) with
  | left H => (inl a, exist _ d H)
  | right _ => (inr ErrConflict, s)
  end.
Definition reading {A} (f : memory → option A) : M mem error A := λ s,
  match f (proj1_sig s) with Some a => (inl a, s) | None => (inr ErrNotFound, s) end.

Definition mem_number {A} (l : list A) : string := Itoa (Z.of_nat (length l)).

Definition mem_API : FleetAPI mem := {|
  listCustomers := reading (λ d, Some (mm_customers d));
  listPipelines cid := reading (λ d, Some (snd <$> filter (λ x, x.1 = cid) (mm_pipelines d)));
  getPipelineVersion pid n := reading (λ d,
    x ← find (λ x, bool_decide (x.1 = (pid, n))) (mm_versions d); Some {| Version := n; VGraph := x.2 |});
  createCustomer name slug := λ s,
    let d := proj1_sig s in
    let c := {| ID := "c" +:+ mem_number (mm_customers d); Slug := slug; Name := TrimSpace name; ClientID := "";
                Status := "active"; RateLimitItemsPerSec := None; RetentionDays := None |} in
    match filter (λ x, x.1 = ID c) (mm_pipelines d) with
    | [] => commit {| mm_customers := mm_customers d ++ [c]; mm_pipelines := mm_pipelines d;
                      mm_versions := mm_versions d |} c s
    | _ => (inr ErrConflict, s)
    end;
  updateCustomer id u := λ s,
    let d := proj1_sig s in
    commit {| mm_customers := (λ c, if bool_decide (ID c = id) then apply_update TrimSpace u c else c) <$> mm_customers d;
              mm_pipelines := mm_pipelines d; mm_versions := mm_versions d |} tt s;
  createPipeline cid name class g := λ s,
    let d := proj1_sig s in
    let p := {| PID := "p" +:+ mem_number (mm_pipelines d); PName := TrimSpace name; TargetClass := class;
                ActiveVersion := None; LatestVersion := Some 1%Z |} in
    commit {| mm_customers := mm_customers d; mm_pipelines := mm_pipelines d ++ [(cid, p)];
              mm_versions := (PID p, 1%Z, complete g) :: mm_versions d |} p s;
  createPipelineVersion pid g := λ s,
    let d := proj1_sig s in
    let n := (1 + Z.of_nat (length (filter (λ x, x.1.1 = pid) (mm_versions d))))%Z in
    commit {| mm_customers := mm_customers d;
              mm_pipelines := (λ x, (x.1, set_latest pid n x.2)) <$> mm_pipelines d;
              mm_versions := (pid, n, complete g) :: mm_versions d |} {| Version := n; VGraph := complete g |} s;
  activateVersion pid n := λ s,
    let d := proj1_sig s in
    match find (λ x, bool_decide (x.1 = (pid, n))) (mm_versions d) with
    | Some (_, g) =>
      match Exporters g with
      | Some [] => (inr ErrConflict, s)
      | _ => commit {| mm_customers := mm_customers d;
                       mm_pipelines := (λ x, (x.1, set_active pid n x.2)) <$> mm_pipelines d;
                       mm_versions := mm_versions d |} tt s
      end
    | None => (inr ErrNotFound, s)
    end |}.

Lemma NoDup_fmap_eq {A B} (f : A → B) (l : list A) x y :
  NoDup (f <$> l) → x ∈ l → y ∈ l → f x = f y → x = y.
Proof.
  intros Hnd [i Hi]%list_elem_of_lookup [j Hj]%list_elem_of_lookup Hf.
  assert (i = j) as <-; [|congruence].
  eapply (NoDup_lookup _ i j (f x) Hnd); rewrite list_lookup_fmap; [by rewrite Hi|by rewrite Hj, Hf].
Qed.

Lemma elem_of_owned (l : list (string * Pipeline)) cid p : p ∈ snd <$> filter (λ x, x.1 = cid) l ↔ (cid, p) ∈ l.
Proof.
  rewrite list_elem_of_fmap. setoid_rewrite list_elem_of_filter. split.
  - intros ([c q] & -> & <- & Hin). done.
  - intros Hin. by exists (cid, p).
Qed.

Lemma owned_fmap (f : Pipeline → Pipeline) (l : list (string * Pipeline)) cid :
  snd <$> filter (λ x : string * Pipeline, x.1 = cid) ((λ x, (x.1, f x.2)) <$> l) = f <$> (snd <$> filter (λ x : string * Pipeline, x.1 = cid) l).
Proof.
  induction l as [|[c p] l IH]; [done|]. rewrite fmap_cons. cbn [fst snd].
  destruct (decide (c = cid)) as [->|Hne].
  - rewrite !filter_cons_True by done. by rewrite !fmap_cons, IH.
  - by rewrite !filter_cons_False by done.
Qed.

Lemma memory_well_formed d : memory_ok d = true → well_formed (memory_view d).
Proof.
  unfold memory_ok. rewrite !andb_true_iff, !bool_decide_eq_true. intros [[[[Hne Hid] Hsl] Hpid] Hname].
  split; simpl.
  - intros x Hx%list_elem_of_In. rewrite forallb_forall in Hne.
    by apply Hne, negb_true_iff, bool_decide_eq_false in Hx.
  - by apply NoDup_fmap_1 in Hid.
  - intros c. apply (NoDup_fmap_1 PID). rewrite <- list_fmap_compose.
    eapply sublist_NoDup; [exact Hpid|]. apply (fmap_sublist (λ x : string * Pipeline, PID x.2)), sublist_filter.
  - intros x y. by apply NoDup_fmap_eq.
  - intros x y. by apply NoDup_fmap_eq.
  - intros c p q. rewrite !elem_of_owned. intros Hp Hq Heq.
    assert (H : (c, p) = (c, q)); [|congruence].
    eapply (NoDup_fmap_eq (λ x, (x.1, PName x.2))); [exact Hname|done..|]. simpl. congruence.
  - intros c c' p q. rewrite !elem_of_owned. intros Hp Hq Heq.
    assert (H : (c, p) = (c', q)); [|by simplify_eq].
    by eapply (NoDup_fmap_eq (λ x, PID x.2)).
Qed.

Lemma commit_inl {A} d (a : A) s b s' : commit d a s = (inl b, s') → b = a ∧ proj1_sig s' = d ∧ memory_ok d = true.
Proof. unfold commit. destruct (decide _) as [H|]; [|done]. by intros [= <- <-]. Qed.

Lemma reading_inl {A} (f : memory → option A) s a s' :
  reading f s = (inl a, s') → f (proj1_sig s) = Some a ∧ s' = s.
Proof. unfold reading. destruct (f _); [|done]. by intros [= -> <-]. Qed.

Lemma NoDup_fresh {A B} (f : A → B) (l : list A) x : NoDup (f <$> (l ++ [x])) → x ∉ l.
Proof.
  intros Hnd Hx. rewrite fmap_app in Hnd. apply NoDup_app in Hnd as (_ & Hd & _).
  apply (Hd (f x)); [by apply list_elem_of_fmap_2|]. simpl. by left.
Qed.

#[export] Instance mem_laws : FleetLaws mem_API mem_view TrimSpace complete.
Proof.
  split.
  - intros [d Hd]. by apply memory_well_formed.
  - intros s l s'. simpl. intros [[= <-] ->]%reading_inl. done.
  - intros id s l s'. simpl. intros [[= <-] ->]%reading_inl. done.
  - intros pid n s v s'. simpl. intros [Hf ->]%reading_inl. split; [|done].
    apply bind_Some in Hf as (x & Hx & [= <-]). simpl. by rewrite Hx.
  - intros name slug s c s'. simpl. destruct (filter _ _) eqn:Hpipes; [|done].
    intros (-> & -> & Hok)%commit_inl. simpl. split_and!; try done.
    + intros x. rewrite elem_of_app, list_elem_of_singleton. tauto.
    + unfold memory_ok in Hok. rewrite !andb_true_iff, !bool_decide_eq_true in Hok.
      destruct Hok as [[[[_ Hid] _] _] _]. by eapply NoDup_fresh.
    + by rewrite Hpipes.
  - intros id u s x s'. simpl. intros (_ & -> & _)%commit_inl. simpl. split; [|done].
    intros c. rewrite list_elem_of_fmap. naive_solver.
  - intros cid name class g s p s'. simpl. intros (-> & -> & Hok)%commit_inl. simpl.
    unfold memory_ok in Hok. rewrite !andb_true_iff, !bool_decide_eq_true in Hok. destruct Hok as [[[_ _] Hpid] _].
    split_and!; try done.
    + intros q. rewrite !elem_of_owned, elem_of_app, list_elem_of_singleton. naive_solver.
    + rewrite elem_of_owned. by eapply NoDup_fresh.
    + intros id Hid. rewrite filter_app, filter_cons_False, filter_nil, app_nil_r by done. done.
    + by rewrite bool_decide_true.
    + intros pid n Hne. rewrite bool_decide_false; [done|]. congruence.
  - intros pid g s v s'. simpl. intros (-> & -> & _)%commit_inl. simpl. split_and!; try done.
    + intros id. apply owned_fmap.
    + by rewrite bool_decide_true.
    + intros pid' n Hne. rewrite bool_decide_false; [done|]. congruence.
  - intros pid n s x s'. simpl. destruct (find _ _) as [[k g]|]; [|done].
    assert (Hc : ∀ d a t r, commit d a t = (inl x, r) → proj1_sig r = d) by (by intros ? ? ? ? (_ & ? & _)%commit_inl).
    destruct (Exporters g) as [[|]|]; [done|..]; intros ->%Hc; simpl; (split_and!; try done); intros id; apply owned_fmap.
Qed.
