(* ===== verification/CtlProps.v ===== *)
(** * Applying a spec converges

    What [apply] achieves over the laws of the management API: what a run that
    succeeds made of every customer and pipeline of the spec and left alone
    otherwise, that a second run has nothing to do and a dry run changes
    nothing, and what applying an exported file does. *)
From Stdlib Require Import Ascii.
From S2P Require Import Prelude GoStrings GoText Store World Json PipelineGraph Ctl CtlLaws.
Import Ctl.

(** ** A fleet a run finds nothing to do in *)

Definition pipeline_matches (v : fleet) (cid : string) (ps : PipelineSpec) : Prop :=
  ∃ p n g, p ∈ fv_pipelines v cid ∧ PName p = ps_Name ps ∧ current p = Some n ∧
    fv_version v (PID p) n = Some g ∧ graphEqual g (ps_Graph ps) = true.

Definition customer_matches (v : fleet) (cs : CustomerSpec) : Prop :=
  ∃ c, c ∈ fv_customers v ∧ Slug c = cs_Slug cs ∧ Name c = cs_Name cs ∧
    RateLimitItemsPerSec c = cs_RateLimitItemsPerSec cs ∧ RetentionDays c = cs_RetentionDays cs ∧
    Forall (pipeline_matches v (ID c)) (cs_Pipelines cs).

Definition up_to_date (v : fleet) (spec : Spec) : Prop := Forall (customer_matches v) (Customers spec).

(** ** What a run makes of a fleet *)

(** A new pipeline: of the class of the spec and active in its first version. *)
Definition pipeline_created (v : fleet) (cid : string) (ps : PipelineSpec) : Prop :=
  ∃ pid g, {| PID := pid; PName := ps_Name ps; TargetClass := defaultClass (ps_TargetClass ps);
              ActiveVersion := Some 1%Z; LatestVersion := Some 1%Z |} ∈ fv_pipelines v cid ∧
    fv_version v pid 1 = Some g ∧ graphEqual g (ps_Graph ps) = true.

(** What became of one pipeline of the spec, from the fleet [v0] to [v]: its
    current graph is the one of the spec and the pipeline is as it was, active
    or not and of whatever class; its graph was another one and a new version
    is active, the class as it was; or there was none of that name. *)
Inductive pipeline_outcome (v0 v : fleet) (cid : string) (ps : PipelineSpec) : Prop :=
  | untouched p n g :
      p ∈ fv_pipelines v0 cid → p ∈ fv_pipelines v cid → PName p = ps_Name ps → current p = Some n →
      fv_version v0 (PID p) n = Some g → fv_version v (PID p) n = Some g → graphEqual g (ps_Graph ps) = true →
      pipeline_outcome v0 v cid ps
  | replaced p n g :
      p ∈ fv_pipelines v0 cid → PName p = ps_Name ps →
      (∀ m, current p = Some m → ∃ g0, fv_version v0 (PID p) m = Some g0 ∧ graphEqual g0 (ps_Graph ps) = false) →
      {| PID := PID p; PName := PName p; TargetClass := TargetClass p;
         ActiveVersion := Some n; LatestVersion := Some n |} ∈ fv_pipelines v cid →
      fv_version v (PID p) n = Some g → graphEqual g (ps_Graph ps) = true →
      pipeline_outcome v0 v cid ps
  | created :
      (∀ q, q ∈ fv_pipelines v0 cid → PName q ≠ ps_Name ps) → pipeline_created v cid ps →
      pipeline_outcome v0 v cid ps.

(** A customer with the name, quota and retention of the spec. *)
Definition reconciled (c : Customer) (cs : CustomerSpec) : Customer := {|
  ID := ID c; Slug := Slug c; Name := cs_Name cs; ClientID := ClientID c; Status := Status c;
  RateLimitItemsPerSec := cs_RateLimitItemsPerSec cs; RetentionDays := cs_RetentionDays cs |}.

(** Nothing happened to the pipelines with other names. *)
Record others_kept (v0 v : fleet) (cid : string) (names : list string) : Prop := {
  ok_others q : PName q ∉ names → q ∈ fv_pipelines v cid ↔ q ∈ fv_pipelines v0 cid;
  ok_versions q n : q ∈ fv_pipelines v0 cid → PName q ∉ names → fv_version v (PID q) n = fv_version v0 (PID q) n;
}.

(** What became of a customer of the spec: the one with its slug has the name,
    quota and retention of the spec and otherwise is as it was, with the
    pipelines of the spec and its others; or it is new, with the pipelines of
    the spec only. *)
Inductive customer_outcome (v0 v : fleet) (cs : CustomerSpec) : Prop :=
  | customer_there c :
      c ∈ fv_customers v0 → Slug c = cs_Slug cs → reconciled c cs ∈ fv_customers v →
      Forall (pipeline_outcome v0 v (ID c)) (cs_Pipelines cs) →
      others_kept v0 v (ID c) (ps_Name <$> cs_Pipelines cs) →
      customer_outcome v0 v cs
  | customer_new c :
      (∀ x, x ∈ fv_customers v0 → Slug x ≠ cs_Slug cs) → Slug c = cs_Slug cs → reconciled c cs ∈ fv_customers v →
      Forall (pipeline_created v (ID c)) (cs_Pipelines cs) →
      (∀ q, q ∈ fv_pipelines v (ID c) → PName q ∈ ps_Name <$> cs_Pipelines cs) →
      customer_outcome v0 v cs.

(** Nothing happened to the customers with other slugs and their pipelines. *)
Record elsewhere (slugs : list string) (v0 v : fleet) : Prop := {
  el_customers c : Slug c ∉ slugs → c ∈ fv_customers v ↔ c ∈ fv_customers v0;
  el_pipelines c : c ∈ fv_customers v0 → Slug c ∉ slugs → fv_pipelines v (ID c) = fv_pipelines v0 (ID c);
  el_versions c p n : c ∈ fv_customers v0 → Slug c ∉ slugs → p ∈ fv_pipelines v0 (ID c) →
    fv_version v (PID p) n = fv_version v0 (PID p) n;
}.

(** A spec the server stores as it is written. *)
Definition clean_pipeline (stored_name : string → string) (stored_graph : PipelineGraph → PipelineGraph)
    (ps : PipelineSpec) : Prop :=
  stored_name (ps_Name ps) = ps_Name ps ∧ graphEqual (stored_graph (ps_Graph ps)) (ps_Graph ps) = true.
Definition clean_customer (stored_name : string → string) (stored_graph : PipelineGraph → PipelineGraph)
    (cs : CustomerSpec) : Prop :=
  cs_Slug cs ≠ "" ∧ stored_name (cs_Name cs) = cs_Name cs ∧ NoDup (ps_Name <$> cs_Pipelines cs) ∧
  Forall (clean_pipeline stored_name stored_graph) (cs_Pipelines cs).
Definition clean_spec (stored_name : string → string) (stored_graph : PipelineGraph → PipelineGraph) (spec : Spec) : Prop :=
  NoDup (cs_Slug <$> Customers spec) ∧ Forall (clean_customer stored_name stored_graph) (Customers spec).

(** ** Lookups *)

Lemma last_filter_unique {A} (P : A → Prop) `{!∀ x, Decision (P x)} (l : list A) x :
  x ∈ l → P x → (∀ y, y ∈ l → P y → y = x) → last (filter P l) = Some x.
Proof.
  intros Hx HP Hu. destruct (last (filter P l)) as [y|] eqn:Hl.
  - apply last_Some_elem_of, list_elem_of_filter in Hl as [HPy Hy]. f_equal. by apply Hu.
  - apply last_None in Hl. assert (Hin : x ∈ filter P l) by (by apply list_elem_of_filter).
    rewrite Hl in Hin. by apply elem_of_nil in Hin.
Qed.

Lemma last_filter_Some {A} (P : A → Prop) `{!∀ x, Decision (P x)} (l : list A) x :
  last (filter P l) = Some x → x ∈ l ∧ P x.
Proof. intros Hl. by apply last_Some_elem_of, list_elem_of_filter in Hl as [? ?]. Qed.

Lemma last_filter_None {A} (P : A → Prop) `{!∀ x, Decision (P x)} (l : list A) x :
  last (filter P l) = None → x ∈ l → ¬ P x.
Proof.
  intros Hl Hx HP. apply last_None in Hl. assert (Hin : x ∈ filter P l) by (by apply list_elem_of_filter).
  rewrite Hl in Hin. by apply elem_of_nil in Hin.
Qed.

Lemma bySlug_of v c : well_formed v → c ∈ fv_customers v → bySlug (fv_customers v) (Slug c) = Some c.
Proof. intros Hv Hc. apply last_filter_unique; [done..|]. intros y Hy. by apply (wf_slugs v Hv). Qed.

Lemma byName_of v cid p : well_formed v → p ∈ fv_pipelines v cid → byName (fv_pipelines v cid) (PName p) = Some p.
Proof. intros Hv Hp. apply last_filter_unique; [done..|]. intros y Hy. by apply (wf_names v Hv cid). Qed.

Section Apply.
Context {S : Type} {API : FleetAPI S} {YML : SpecYAML} {FS : Files} (unicode_print : N → bool) (token : string).
Context (view : S → fleet) (stored_name : string → string) (stored_graph : PipelineGraph → PipelineGraph).
Context {LAWS : FleetLaws API view stored_name stored_graph}.

Abbreviation C := (M (ctl S) error).
Abbreviation fleet_of s := (view (ct_api s)).

Lemma call_inl {A} (m : M S error A) (s : ctl S) a s' :
  call m s = (inl a, s') → ∃ x, m (ct_api s) = (inl a, x) ∧ ct_api s' = x.
Proof. unfold call. destruct (m (ct_api s)) as [r x]. intros [= -> <-]. eauto. Qed.

Lemma wrap_inl {A} what (m : C A) s a s' : wrap what m s = (inl a, s') → m s = (inl a, s').
Proof.
  unfold wrap, mtry, mbind, M_bind. destruct (m s) as [[b|e] s1]; [by intros [= -> ->]|done].
Qed.

Lemma print_inl line (s : ctl S) u s' : print line s = (inl u, s') → ct_api s' = ct_api s.
Proof. unfold print. by intros [= _ <-]. Qed.

Lemma plan_add_inl p text (s : ctl S) p' s' :
  plan_add p text s = (inl p', s') →
  pp_dryRun p' = pp_dryRun p ∧ pp_changes p' = 1 + pp_changes p ∧ ct_api s' = ct_api s.
Proof. intros (u & s1 & Hp%print_inl & [<- <-]%ret_inl)%bind_inl. done. Qed.

(** *** Nothing to do *)

Definition idle (plan plan' : planPrinter) (s s' : ctl S) : Prop := plan' = plan ∧ fleet_of s' = fleet_of s.

Lemma apply_pipeline_idle plan cust existing ps s plan' s' :
  existing = fv_pipelines (fleet_of s) (ID cust) → pipeline_matches (fleet_of s) (ID cust) ps →
  apply_pipeline unicode_print plan cust existing ps s = (inl plan', s') → idle plan plan' s s'.
Proof.
  intros -> (p & n & g & Hp & Hn & Hcur & Hg & Heq). unfold apply_pipeline.
  rewrite <- Hn, (byName_of _ _ _ (law_ok (ct_api s)) Hp). unfold current in Hcur. rewrite Hcur.
  intros (changed & s1 & Hc & Hr)%bind_inl. apply bind_inl in Hc as (pv & s2 & Hv & Hc).
  apply call_inl in Hv as (x & Hv & Hx). apply law_version in Hv as [Hv Hview].
  assert (VGraph pv = g) as <- by congruence. rewrite Heq in Hc. apply ret_inl in Hc as [<- <-].
  simpl in Hr. apply bind_inl in Hr as (u & s3 & Hs%print_inl & [<- <-]%ret_inl).
  split; [done|]. by rewrite Hs, Hx.
Qed.

Lemma apply_specs_idle plan cust existing specs s plan' s' :
  existing = fv_pipelines (fleet_of s) (ID cust) → Forall (pipeline_matches (fleet_of s) (ID cust)) specs →
  apply_specs unicode_print plan cust existing specs s = (inl plan', s') → idle plan plan' s s'.
Proof.
  revert plan s. induction specs as [|ps specs IH]; intros plan s He Hm; simpl.
  { by intros [<- <-]%ret_inl. }
  apply Forall_cons in Hm as [Hps Hm]. intros (plan1 & s1 & H1 & H2)%bind_inl.
  destruct (apply_pipeline_idle _ _ _ _ _ _ _ He Hps H1) as [-> Hv].
  destruct (IH plan s1) as [-> Hv']; rewrite ?Hv; try done. split; congruence.
Qed.

Lemma update_for_same c cs :
  Name c = cs_Name cs → RateLimitItemsPerSec c = cs_RateLimitItemsPerSec cs → RetentionDays c = cs_RetentionDays cs →
  keysOf (update_for c cs) = [].
Proof. intros Hn Hr Ht. unfold update_for, keysOf, intEq. by rewrite !bool_decide_true by done. Qed.

Lemma apply_customer_idle plan existing cs s plan' s' :
  existing = fv_customers (fleet_of s) → customer_matches (fleet_of s) cs →
  apply_customer unicode_print plan existing cs s = (inl plan', s') →
  (pp_dryRun plan = true → ∀ c, c ∈ existing → ID c ≠ "") → idle plan plan' s s'.
Proof.
  intros -> (c & Hc & Hs & Hn & Hr & Ht & Hps) Ha Hid. unfold apply_customer, matched in Ha.
  rewrite <- Hs, (bySlug_of _ _ (law_ok (ct_api s)) Hc) in Ha.
  apply bind_inl in Ha as ([p1 o] & s1 & [Heq <-]%ret_inl & Ha). simplify_eq.
  apply bind_inl in Ha as (p2 & s2 & Hrec & Ha). unfold reconcile in Hrec.
  rewrite update_for_same in Hrec by done. apply ret_inl in Hrec as [<- <-].
  destruct (pp_dryRun p1 && _) eqn:Hd.
  { apply andb_true_iff in Hd as [Hd Hempty%bool_decide_eq_true]. by destruct (Hid Hd c Hc). }
  unfold applyPipelines in Ha. apply bind_inl in Ha as (l & s3 & Hl & Ha).
  apply call_inl in Hl as (x & Hl & Hx). apply law_pipelines in Hl as [-> Hv].
  assert (Hvs : fleet_of s3 = fleet_of s) by by rewrite Hx.
  destruct (apply_specs_idle _ _ _ _ _ _ _ (f_equal (λ v, fv_pipelines v (ID c)) (eq_sym Hvs))
    ltac:(by rewrite Hvs) Ha) as [-> Hv'].
  split; [done|congruence].
Qed.

Lemma apply_customers_idle plan existing l s plan' s' :
  existing = fv_customers (fleet_of s) → Forall (customer_matches (fleet_of s)) l →
  (pp_dryRun plan = true → ∀ c, c ∈ existing → ID c ≠ "") →
  apply_customers unicode_print plan existing l s = (inl plan', s') → idle plan plan' s s'.
Proof.
  revert plan s. induction l as [|cs l IH]; intros plan s He Hm Hid; simpl.
  { by intros [<- <-]%ret_inl. }
  apply Forall_cons in Hm as [Hcs Hm]. intros (plan1 & s1 & H1 & H2)%bind_inl.
  destruct (apply_customer_idle _ _ _ _ _ _ He Hcs H1 Hid) as [-> Hv].
  destruct (IH plan s1) as [-> Hv']; rewrite ?Hv; try done. split; congruence.
Qed.

Lemma apply_spec_idle dryRun spec s plan s' :
  up_to_date (fleet_of s) spec → (dryRun = true → ∀ c, c ∈ fv_customers (fleet_of s) → ID c ≠ "") →
  apply_spec unicode_print dryRun spec s = (inl plan, s') →
  pp_changes plan = 0 ∧ fleet_of s' = fleet_of s.
Proof.
  intros Hm Hid (l & s1 & Hl & H)%bind_inl. apply call_inl in Hl as (x & Hl & Hx).
  apply law_customers in Hl as [-> Hv]. apply bind_inl in H as (plan1 & s2 & Ha & H).
  assert (Hvs : fleet_of s1 = fleet_of s) by by rewrite Hx.
  destruct (apply_customers_idle (newPlan dryRun) _ (Customers spec) s1 plan1 s2 (f_equal fv_customers (eq_sym Hvs))) as [-> Hv'];
    [by rewrite Hvs|done|done|].
  apply bind_inl in H as (u & s3 & Hp & [<- <-]%ret_inl). unfold plan_summary in Hp. simpl in Hp.
  apply print_inl in Hp. split; [done|]. by rewrite Hp, Hv'.
Qed.

(** *** Something to do *)

(** The change is confined to the pipelines [names] of one customer. *)
Record local (cid : string) (names : list string) (v v' : fleet) : Prop := {
  lo_customers : fv_customers v' = fv_customers v;
  lo_others id : id ≠ cid → fv_pipelines v' id = fv_pipelines v id;
  lo_names q : PName q ∉ names → q ∈ fv_pipelines v' cid ↔ q ∈ fv_pipelines v cid;
  lo_versions id q n : q ∈ fv_pipelines v id → id ≠ cid ∨ PName q ∉ names →
    fv_version v' (PID q) n = fv_version v (PID q) n;
}.

Lemma local_refl cid names v : local cid names v v.
Proof. by split. Qed.

Lemma local_trans cid N v1 v2 v3 : local cid N v1 v2 → local cid N v2 v3 → local cid N v1 v3.
Proof.
  intros [C1 O1 Q1 V1] [C2 O2 Q2 V2]. split.
  - congruence.
  - intros id Hid. by rewrite O2, O1.
  - intros q Hq. by rewrite Q2, Q1.
  - intros id q n Hq Hor. rewrite (V2 id), (V1 id); try done.
    destruct (decide (id = cid)) as [->|Hid]; [apply Q1; [tauto|done]|by rewrite O1].
Qed.

Lemma local_mono cid N N' v v' : N ⊆ N' → local cid N v v' → local cid N' v v'.
Proof.
  intros Hsub [C O Q V]. split; try done.
  - intros q Hq. apply Q. auto.
  - intros id q n Hq Hor. apply (V id); [done|]. destruct Hor as [?|Hn]; [by left|right; auto].
Qed.

(** Two fleets with the same pipelines of a customer under one name. *)
Definition agree (cid name : string) (v v' : fleet) : Prop :=
  (∀ q, PName q = name → q ∈ fv_pipelines v' cid ↔ q ∈ fv_pipelines v cid) ∧
  (∀ q n, q ∈ fv_pipelines v cid → PName q = name → fv_version v' (PID q) n = fv_version v (PID q) n).

Lemma agree_local cid names v v' name : local cid names v v' → name ∉ names → agree cid name v v'.
Proof.
  intros [_ _ Q V] Hn. split; [intros q <-; by apply Q|]. intros q n Hq <-. by apply (V cid); [|right].
Qed.

Lemma agree_refl cid name v : agree cid name v v.
Proof. done. Qed.

Lemma agree_same cid name v v' :
  fv_pipelines v' cid = fv_pipelines v cid →
  (∀ q n, q ∈ fv_pipelines v cid → fv_version v' (PID q) n = fv_version v (PID q) n) → agree cid name v v'.
Proof. intros Hp Hv. split; [intros q _; by rewrite Hp|]. intros q n Hq _. by apply Hv. Qed.

Lemma created_agree v v' cid ps :
  agree cid (ps_Name ps) v v' → pipeline_created v cid ps → pipeline_created v' cid ps.
Proof.
  intros [M V] (pid & g & Hp & Hg & Heq). exists pid, g. split; [by apply M|]. split; [|done].
  rewrite <- Hg. by apply (V _ 1%Z) in Hp.
Qed.

Lemma outcome_agree v0 v0' v v' cid ps :
  agree cid (ps_Name ps) v0' v0 → agree cid (ps_Name ps) v v' →
  pipeline_outcome v0 v cid ps → pipeline_outcome v0' v' cid ps.
Proof.
  intros [M0 V0] [M V] [p n g Hp0 Hp Hn Hcur Hg0 Hg Heq|p n g Hp0 Hn Hold Hp Hg Heq|Hnone Hnew].
  - apply (untouched _ _ _ _ p n g); try done; [by apply M0|by apply M| |].
    + rewrite <- Hg0. symmetry. apply V0; [by apply M0|done].
    + rewrite <- Hg. by apply V.
  - apply (replaced _ _ _ _ p n g); try done; [by apply M0| |by apply M|].
    + intros m Hm. destruct (Hold m Hm) as (g0 & Hv & Hne). exists g0. split; [|done].
      rewrite <- Hv. symmetry. apply V0; [by apply M0|done].
    + rewrite <- Hg. by apply (V _ n) in Hp.
  - apply created; [|by eapply created_agree]. intros q Hq Hname. apply (Hnone q); [by apply M0|done].
Qed.

Lemma outcome_matches v0 v cid ps : pipeline_outcome v0 v cid ps → pipeline_matches v cid ps.
Proof.
  intros [p n g _ Hp Hn Hcur _ Hg Heq|p n g _ Hn _ Hp Hg Heq|_ (pid & g & Hp & Hg & Heq)]; eauto 10.
  - by exists p, n, g.
  - eexists _, n, g. by split; [exact Hp|].
  - eexists _, 1%Z, g. by split; [exact Hp|].
Qed.

(** An update of the one pipeline with an id. *)
Lemma local_fmap v v' cid p f :
  well_formed v → p ∈ fv_pipelines v cid →
  (∀ q, PID q ≠ PID p → f q = q) → (∀ q, PName (f q) = PName q) →
  fv_customers v' = fv_customers v → (∀ id, fv_pipelines v' id = f <$> fv_pipelines v id) →
  (∀ pid n, pid ≠ PID p → fv_version v' pid n = fv_version v pid n) →
  local cid [PName p] v v' ∧ f p ∈ fv_pipelines v' cid.
Proof.
  intros Hv Hp Hf Hfn Hc Hps Hve.
  assert (Hid : ∀ id q, q ∈ fv_pipelines v id → id ≠ cid ∨ PName q ∉ [PName p] → PID q ≠ PID p).
  { intros id q Hq Hor Heq. destruct (wf_pids v Hv _ _ _ _ Hq Hp Heq) as [-> ->].
    rewrite list_elem_of_singleton in Hor. tauto. }
  split; [split; [done| | |]|rewrite Hps; by apply list_elem_of_fmap_2].
  - intros id Hne. rewrite Hps. rewrite <- (list_fmap_id (fv_pipelines v id)) at 2.
    apply list_fmap_ext. intros i q Hq%list_elem_of_lookup_2. apply Hf, (Hid id); auto.
  - intros q Hq. rewrite Hps, list_elem_of_fmap. split.
    + intros (q0 & -> & Hq0). rewrite Hfn in Hq. rewrite Hf; [done|]. apply (Hid cid); auto.
    + intros Hin. exists q. split; [|done]. symmetry. apply Hf, (Hid cid); auto.
  - intros id q n Hq Hor. apply Hve. by apply (Hid id).
Qed.

Lemma set_latest_other pid n q : PID q ≠ pid → set_latest pid n q = q.
Proof. intros Hq. unfold set_latest. by rewrite bool_decide_false. Qed.
Lemma set_active_other pid n q : PID q ≠ pid → set_active pid n q = q.
Proof. intros Hq. unfold set_active. by rewrite bool_decide_false. Qed.
Lemma set_latest_name pid n q : PName (set_latest pid n q) = PName q.
Proof. unfold set_latest. by case_bool_decide. Qed.
Lemma set_active_name pid n q : PName (set_active pid n q) = PName q.
Proof. unfold set_active. by case_bool_decide. Qed.

(** A new version of [p], activated. *)
Lemma push_version cid p name g what what' (s : ctl S) (k : PipelineVersion → string) u s' :
  p ∈ fv_pipelines (fleet_of s) cid → PName p = name →
  (ver ← wrap what (call (createPipelineVersion (PID p) g));
   wrap (what' +:+ k ver) (call (activateVersion (PID p) (Version ver)))) s = (inl u, s') →
  local cid [name] (fleet_of s) (fleet_of s') ∧
  ∃ n, {| PID := PID p; PName := PName p; TargetClass := TargetClass p;
          ActiveVersion := Some n; LatestVersion := Some n |} ∈ fv_pipelines (fleet_of s') cid ∧
    fv_version (fleet_of s') (PID p) n = Some (stored_graph g).
Proof.
  intros Hp <- (ver & s1 & (x & Hc & Hx)%wrap_inl%call_inl & (y & Ha & Hy)%wrap_inl%call_inl)%bind_inl.
  apply law_createVersion in Hc as (C1 & P1 & V1 & O1). rewrite Hx in Ha. rewrite Hy. subst x.
  apply law_activate in Ha as (C2 & P2 & V2).
  set (p1 := set_latest (PID p) (Version ver) p). set (p2 := set_active (PID p1) (Version ver) p1).
  assert (Hp1 : PID p1 = PID p ∧ PName p1 = PName p) by (unfold p1, set_latest; by case_bool_decide).
  destruct Hp1 as [Hid1 Hn1].
  assert (Hp2 : p2 = {| PID := PID p; PName := PName p; TargetClass := TargetClass p;
                        ActiveVersion := Some (Version ver); LatestVersion := Some (Version ver) |}).
  { unfold p2, set_active. rewrite bool_decide_true by done. unfold p1, set_latest. by rewrite bool_decide_true. }
  destruct (local_fmap (fleet_of s) (fleet_of s1) cid p (set_latest (PID p) (Version ver))) as [L1 Hin1];
    try done; [apply LAWS|apply set_latest_other|apply set_latest_name|].
  destruct (local_fmap (fleet_of s1) (view y) cid p1 (set_active (PID p1) (Version ver))) as [L2 Hin2]; try done;
    [apply LAWS|apply set_active_other|apply set_active_name|by rewrite Hid1|by intros; rewrite V2|].
  rewrite Hn1 in L2. split; [exact (local_trans _ _ _ _ _ L1 L2)|].
  exists (Version ver). rewrite <- Hp2. split; [done|]. rewrite V2. exact V1.
Qed.

Lemma apply_pipeline_done plan cust existing ps s plan' s' :
  pp_dryRun plan = false → clean_pipeline stored_name stored_graph ps →
  (∀ q, PName q = ps_Name ps → q ∈ existing ↔ q ∈ fv_pipelines (fleet_of s) (ID cust)) →
  apply_pipeline unicode_print plan cust existing ps s = (inl plan', s') →
  pp_dryRun plan' = false ∧ local (ID cust) [ps_Name ps] (fleet_of s) (fleet_of s') ∧
  pipeline_outcome (fleet_of s) (fleet_of s') (ID cust) ps.
Proof.
  intros Hdry [Hname Hgraph] Hex. unfold apply_pipeline.
  destruct (byName existing (ps_Name ps)) as [p|] eqn:Hby.
  - apply last_filter_Some in Hby as [Hp Hn]. apply (Hex p Hn) in Hp.
    intros (changed & s1 & Hch & H)%bind_inl.
    assert (Hs1 : fleet_of s1 = fleet_of s ∧
      (∀ v, current p = Some v → ∃ g, fv_version (fleet_of s) (PID p) v = Some g ∧ graphEqual g (ps_Graph ps) = negb changed) ∧
      (changed = false → is_Some (current p))).
    { fold (current p) in Hch. destruct (current p) as [v|] eqn:Hcur.
      - apply bind_inl in Hch as (pv & s2 & (x & Hv & Hx)%call_inl & [<- <-]%ret_inl).
        apply law_version in Hv as [Hv Hview]. split; [by rewrite Hx|]. split; [|eauto].
        intros ? [= <-]. exists (VGraph pv). by rewrite negb_involutive.
      - apply ret_inl in Hch as [<- <-]. done. }
    destruct Hs1 as (Hs1 & Hgraphs & Hsome). destruct changed; simpl in H.
    + apply bind_inl in H as (plan1 & s2 & (Hd & _ & Hs2)%plan_add_inl & H). rewrite Hd, Hdry in H.
      apply bind_inl in H as (u & s3 & Hpush & [<- <-]%ret_inl).
      destruct (push_version (ID cust) p (ps_Name ps) (ps_Graph ps) ("new version for " +:+ Quote unicode_print (ps_Name ps))
        ("activate " +:+ Quote unicode_print (ps_Name ps)) s2 (λ ver, " v" +:+ Itoa (Version ver)) u s3)
        as [Hlocal (n & Hp' & Hg)]; [by rewrite Hs2, Hs1|done| |].
      { exact Hpush. }
      rewrite Hs2, Hs1 in Hlocal. split; [congruence|]. split; [done|].
      by apply (replaced _ _ _ _ p n (stored_graph (ps_Graph ps))).
    + apply bind_inl in H as (u & s2 & Hs2%print_inl & [<- <-]%ret_inl). rewrite Hs2, Hs1.
      split; [done|]. split; [apply local_refl|]. destruct (Hsome eq_refl) as [n Hcur].
      destruct (Hgraphs n Hcur) as (g & Hg & Heq). by apply (untouched _ _ _ _ p n g).
  - intros (plan1 & s1 & (Hd & _ & Hs1)%plan_add_inl & H)%bind_inl. rewrite Hd, Hdry in H.
    apply bind_inl in H as (u & s2 & H & [<- <-]%ret_inl). split; [congruence|].
    apply bind_inl in H as (p & s3 & (x & Hc & Hx)%wrap_inl%call_inl & (y & Ha & Hy)%wrap_inl%call_inl).
    rewrite Hs1 in Hc. rewrite Hx in Ha. rewrite Hy.
    apply law_createPipeline in Hc as (Hpn & Hclass & _ & Hlatest & C1 & P1 & Hnew & O1 & V1 & W1).
    apply law_activate in Ha as (C2 & P2 & V2). rewrite Hname in Hpn.
    subst x. assert (Hp : p ∈ fv_pipelines (fleet_of s3) (ID cust)) by (apply P1; auto).
    assert (L1 : local (ID cust) [ps_Name ps] (fleet_of s) (fleet_of s3)).
    { split; [done..| |].
      - intros q Hq. rewrite P1. split; [intros [->|?]; [|done]|by right].
        rewrite list_elem_of_singleton in Hq. by rewrite Hpn in Hq.
      - intros id q n Hq Hor. apply W1. intros Heq.
        assert (Hq' : q ∈ fv_pipelines (fleet_of s3) id)
          by (destruct (decide (id = ID cust)) as [->|?]; [apply P1; by right|by rewrite O1]).
        destruct (wf_pids _ (law_ok _) _ _ _ _ Hq' Hp Heq) as [-> ->].
        rewrite list_elem_of_singleton, Hpn in Hor. tauto. }
    destruct (local_fmap (fleet_of s3) (view y) (ID cust) p (set_active (PID p) 1)) as [L2 Hin]; try done;
      [apply LAWS|apply set_active_other|apply set_active_name|by intros; rewrite V2|].
    rewrite Hpn in L2. split; [exact (local_trans _ _ _ _ _ L1 L2)|].
    apply created.
    + intros q Hq Hqn. refine (last_filter_None (λ p, PName p = ps_Name ps) existing q Hby _ Hqn); by apply Hex.
    + exists (PID p), (stored_graph (ps_Graph ps)). split; [|by rewrite V2].
      unfold set_active in Hin. rewrite bool_decide_true, Hpn, Hclass, Hlatest in Hin by done. done.
Qed.

Lemma apply_specs_done plan cust existing specs s plan' s' :
  pp_dryRun plan = false → Forall (clean_pipeline stored_name stored_graph) specs → NoDup (ps_Name <$> specs) →
  (∀ q, PName q ∈ ps_Name <$> specs → q ∈ existing ↔ q ∈ fv_pipelines (fleet_of s) (ID cust)) →
  apply_specs unicode_print plan cust existing specs s = (inl plan', s') →
  pp_dryRun plan' = false ∧ local (ID cust) (ps_Name <$> specs) (fleet_of s) (fleet_of s') ∧
  Forall (pipeline_outcome (fleet_of s) (fleet_of s') (ID cust)) specs.
Proof.
  revert plan s. induction specs as [|ps specs IH]; intros plan s Hdry Hclean Hnd Hex; simpl.
  { intros [<- <-]%ret_inl. split; [done|]. split; [apply local_refl|constructor]. }
  apply Forall_cons in Hclean as [Hps Hclean]. apply NoDup_cons in Hnd as [Hnotin Hnd].
  intros (plan1 & s1 & H1 & H2)%bind_inl.
  apply apply_pipeline_done in H1 as (Hd1 & L1 & M1); [|done..|].
  2: { intros q Hq. apply Hex. rewrite Hq. left. }
  apply IH in H2 as (Hd2 & L2 & M2); [|done..|].
  2: { intros q Hq. rewrite Hex by (by right). symmetry. apply (lo_names _ _ _ _ L1).
       rewrite list_elem_of_singleton. intros Heq. by rewrite Heq in Hq. }
  split; [done|]. split.
  - eapply local_trans; eapply local_mono; [|exact L1| |exact L2]; set_solver.
  - constructor.
    + eapply outcome_agree; [apply agree_refl|by eapply agree_local|exact M1].
    + apply Forall_forall. intros ps' Hps'. rewrite Forall_forall in M2. apply M2 in Hps' as Hout.
      eapply outcome_agree; [|apply agree_refl|exact Hout]. eapply agree_local; [exact L1|].
      rewrite list_elem_of_singleton. intros Heq. apply Hnotin. rewrite <- Heq. by apply list_elem_of_fmap_2.
Qed.

(** *** Customers *)

Lemma keysOf_nil c cs :
  keysOf (update_for c cs) = [] →
  Name c = cs_Name cs ∧ RateLimitItemsPerSec c = cs_RateLimitItemsPerSec cs ∧ RetentionDays c = cs_RetentionDays cs.
Proof.
  unfold keysOf, update_for, intEq. simpl. repeat case_bool_decide; simpl; done.
Qed.

Lemma update_applied c cs :
  stored_name (cs_Name cs) = cs_Name cs → apply_update stored_name (update_for c cs) c = reconciled c cs.
Proof.
  intros Hn. unfold apply_update, reconciled, update_for, intEq. simpl. f_equal; by case_bool_decide.
Qed.

Lemma reconcile_done plan c cs s plan' s' :
  pp_dryRun plan = false → stored_name (cs_Name cs) = cs_Name cs → c ∈ fv_customers (fleet_of s) →
  reconcile unicode_print plan c cs s = (inl plan', s') →
  pp_dryRun plan' = false ∧ reconciled c cs ∈ fv_customers (fleet_of s') ∧
  (∀ x, Slug x ≠ Slug c → x ∈ fv_customers (fleet_of s') ↔ x ∈ fv_customers (fleet_of s)) ∧
  fv_pipelines (fleet_of s') = fv_pipelines (fleet_of s) ∧ fv_version (fleet_of s') = fv_version (fleet_of s).
Proof.
  intros Hdry Hname Hc. unfold reconcile. case_bool_decide as Hk.
  { intros [<- <-]%ret_inl. apply keysOf_nil in Hk as (Hn & Hr & Ht). split; [done|]. split; [|done].
    unfold reconciled. rewrite <- Hn, <- Hr, <- Ht. by destruct c. }
  intros (plan1 & s1 & (Hd & _ & Hs1)%plan_add_inl & H)%bind_inl. rewrite Hd, Hdry in H.
  apply bind_inl in H as (u & s2 & (x & Hu & Hx)%wrap_inl%call_inl & [<- <-]%ret_inl).
  rewrite Hs1 in Hu. apply law_update in Hu as (Cu & Pu & Vu). subst x.
  split; [congruence|]. split; [|split; [|done]].
  - rewrite <- (update_applied c cs Hname). apply Cu. exists c. by rewrite bool_decide_true.
  - intros y Hy. rewrite Cu. split.
    + intros (b & Hb & ->). case_bool_decide as Heq; [|done].
      apply (wf_ids _ (law_ok _) _ _ Hb Hc) in Heq as ->. done.
    + intros Hin. exists y. split; [done|]. rewrite bool_decide_false; [done|].
      intros Heq. by apply (wf_ids _ (law_ok _) _ _ Hin Hc) in Heq as ->.
Qed.

Lemma elsewhere_trans l v1 v2 v3 : elsewhere l v1 v2 → elsewhere l v2 v3 → elsewhere l v1 v3.
Proof.
  intros [C1 P1 V1] [C2 P2 V2]. split.
  - intros c Hc. by rewrite C2, C1.
  - intros c Hc Hn. rewrite P2, P1; [done..|by apply C1|done].
  - intros c p n Hc Hn Hp. rewrite (V2 c), (V1 c); try done; [by apply C1|by rewrite P1].
Qed.

Lemma elsewhere_mono l l' v v' : l ⊆ l' → elsewhere l v v' → elsewhere l' v v'.
Proof.
  intros Hsub [C P V]. split; intros c; intros.
  - apply C; auto.
  - apply P; auto.
  - apply (V c); auto.
Qed.

Lemma elsewhere_refl l v : elsewhere l v v.
Proof. by split. Qed.

(** The pipelines of a customer, once it is there. *)
Lemma pipelines_done plan c c' cs s plan' s' :
  pp_dryRun plan = false → NoDup (ps_Name <$> cs_Pipelines cs) →
  Forall (clean_pipeline stored_name stored_graph) (cs_Pipelines cs) →
  c' ∈ fv_customers (fleet_of s) → ID c' = ID c →
  applyPipelines unicode_print plan c (cs_Pipelines cs) s = (inl plan', s') →
  pp_dryRun plan' = false ∧ local (ID c) (ps_Name <$> cs_Pipelines cs) (fleet_of s) (fleet_of s') ∧
  elsewhere [Slug c'] (fleet_of s) (fleet_of s') ∧
  Forall (pipeline_outcome (fleet_of s) (fleet_of s') (ID c)) (cs_Pipelines cs).
Proof.
  intros Hdry Hnd Hclean Hc Hcid (l & s1 & (x & Hl & Hx)%call_inl & H)%bind_inl.
  apply law_pipelines in Hl as [-> Hv]. assert (Hs1 : fleet_of s1 = fleet_of s) by by rewrite Hx.
  apply apply_specs_done in H as (Hd & L & M); [|done..|by rewrite Hs1]. rewrite Hs1 in L, M.
  assert (Hother : ∀ y, y ∈ fv_customers (fleet_of s) → Slug y ∉ [Slug c'] → ID y ≠ ID c).
  { intros y Hy Hne Hid. rewrite <- Hcid in Hid. apply (wf_ids _ (law_ok _) _ _ Hy Hc) in Hid as ->.
    apply Hne. by left. }
  split; [done|]. split; [done|]. split; [|done]. split.
  - intros y _. by rewrite (lo_customers _ _ _ _ L).
  - intros y Hy Hne. apply L. by apply Hother.
  - intros y p n Hy Hne Hp. apply (lo_versions _ _ _ _ L (ID y)); [done|]. left. by apply Hother.
Qed.

Lemma others_kept_local v0 v v' cid names :
  fv_pipelines v cid = fv_pipelines v0 cid → fv_version v = fv_version v0 →
  local cid names v v' → others_kept v0 v' cid names.
Proof.
  intros Hp Hv [_ _ Q V]. split.
  - intros q Hq. by rewrite Q, Hp.
  - intros q n Hq Hn. rewrite (V cid) by (rewrite ?Hp; auto). by rewrite Hv.
Qed.

Lemma apply_customer_done plan existing cs s plan' s' :
  pp_dryRun plan = false → clean_customer stored_name stored_graph cs →
  (∀ c, Slug c = cs_Slug cs → c ∈ existing ↔ c ∈ fv_customers (fleet_of s)) →
  apply_customer unicode_print plan existing cs s = (inl plan', s') →
  pp_dryRun plan' = false ∧ elsewhere [cs_Slug cs] (fleet_of s) (fleet_of s') ∧
  customer_outcome (fleet_of s) (fleet_of s') cs.
Proof.
  intros Hdry (Hslug & Hname & Hnd & Hclean) Hex ([plan1 o] & s1 & Hfound & H)%bind_inl.
  assert (Hthere : ∃ c, o = Some c ∧ pp_dryRun plan1 = false ∧ Slug c = cs_Slug cs ∧ c ∈ fv_customers (fleet_of s1) ∧
    elsewhere [cs_Slug cs] (fleet_of s) (fleet_of s1) ∧
    (fleet_of s1 = fleet_of s ∨
     (∀ x, x ∈ fv_customers (fleet_of s) → Slug x ≠ cs_Slug cs) ∧ fv_pipelines (fleet_of s1) (ID c) = [])).
  { unfold matched in Hfound. destruct (bySlug existing (cs_Slug cs)) as [c|] eqn:Hby.
    - apply ret_inl in Hfound as [[= <- <-] <-]. apply last_filter_Some in Hby as [Hin Hs].
      exists c. split_and!; try done; [by apply Hex|by left].
    - rewrite bool_decide_false in Hfound by done.
      apply bind_inl in Hfound as (plan2 & s2 & (Hd & _ & Hs2)%plan_add_inl & Hfound). rewrite Hd, Hdry in Hfound.
      apply bind_inl in Hfound as (c & s3 & (x & Hc & Hx)%wrap_inl%call_inl & [[= <- <-] <-]%ret_inl).
      rewrite Hs2 in Hc. subst x. apply law_create in Hc as (_ & Hsl & _ & _ & Cu & Hnew & Pn & Po & Ve).
      specialize (Hsl Hslug). exists c. split_and!; try done; [congruence|apply Cu; by left| |].
      + split.
        * intros y Hy. rewrite Cu. split; [|by right]. intros [->|?]; [|done].
          rewrite Hsl in Hy. by rewrite list_elem_of_singleton in Hy.
        * intros y Hy _. apply Po. intros Hid.
          assert (y = c) as -> by (apply (wf_ids _ (law_ok (ct_api s3))); [apply Cu; by right|apply Cu; by left|done]).
          done.
        * intros y p n _ _ _. by rewrite Ve.
      + right. split; [|done]. intros y Hy Hys.
        refine (last_filter_None (λ c, Slug c = cs_Slug cs) existing y Hby _ Hys). by apply Hex. }
  destruct Hthere as (c & -> & Hd1 & Hsc & Hc & Har & Hnew).
  apply bind_inl in H as (plan2 & s2 & Hrec & H).
  apply reconcile_done in Hrec as (Hd2 & Hc' & Hcust & Hp & Hv); [|done..].
  rewrite Hd2 in H. simpl in H.
  apply (pipelines_done plan2 c (reconciled c cs) cs) in H as (Hd3 & L & Har2 & M); [|done..].
  simpl in Har2. rewrite Hsc in Har2. split; [done|]. split.
  - eapply elsewhere_trans; [exact Har|]. eapply elsewhere_trans; [|exact Har2]. split.
    + intros y Hy. apply Hcust. rewrite Hsc. by rewrite list_elem_of_singleton in Hy.
    + intros y _ _. by rewrite Hp.
    + intros y p n _ _ _. by rewrite Hv.
  - assert (Hin : reconciled c cs ∈ fv_customers (fleet_of s')) by (by rewrite (lo_customers _ _ _ _ L)).
    destruct Hnew as [Hs1|[Hnone Hnil]].
    + apply (customer_there _ _ _ c); try done.
      * by rewrite <- Hs1.
      * eapply Forall_impl; [exact M|]. intros ps. apply outcome_agree; [|apply agree_refl].
        apply agree_same; [by rewrite Hp, Hs1|]. intros. by rewrite Hv, Hs1.
      * eapply others_kept_local; [| |exact L]; [by rewrite Hp, Hs1|by rewrite Hv, Hs1].
    + apply (customer_new _ _ _ c); try done.
      * eapply Forall_impl; [exact M|]. intros ps [p n g Hq _ _ _ _ _ _|p n g Hq _ _ _ _ _|_ Hnew]; [| |done].
        all: rewrite Hp, Hnil in Hq; by apply elem_of_nil in Hq.
      * intros q Hq. destruct (decide (PName q ∈ ps_Name <$> cs_Pipelines cs)) as [|Hni]; [done|].
        apply (lo_names _ _ _ _ L q Hni) in Hq. rewrite Hp, Hnil in Hq. by apply elem_of_nil in Hq.
Qed.

(** *** All customers *)

Lemma agree_elsewhere l v v' c name :
  elsewhere l v v' → c ∈ fv_customers v → Slug c ∉ l → agree (ID c) name v v'.
Proof.
  intros [_ P V] Hc Hn. apply agree_same; [by apply P|]. intros q n Hq. by apply (V c).
Qed.

Lemma customer_outcome_after l v0 v v' cs :
  elsewhere l v v' → cs_Slug cs ∉ l → customer_outcome v0 v cs → customer_outcome v0 v' cs.
Proof.
  intros E Hl Ho. destruct Ho as [c Hc Hs Hin Hps Hkept|c Hnone Hs Hin Hps Hall].
  - assert (Hsl : Slug (reconciled c cs) ∉ l) by (simpl; by rewrite Hs).
    assert (Hag : ∀ name, agree (ID c) name v v') by (intros name; by apply (agree_elsewhere l v v' (reconciled c cs))).
    apply (customer_there _ _ _ c); try done.
    + by apply (el_customers _ _ _ E).
    + eapply Forall_impl; [exact Hps|]. intros ps. apply outcome_agree; [apply agree_refl|apply Hag].
    + destruct Hkept as [Q V]. split.
      * intros q Hq. rewrite <- Q by done. by apply (Hag (PName q)).
      * intros q n Hq Hn. rewrite <- (V q n Hq Hn). apply (Hag (PName q)); [by apply Q|done].
  - assert (Hsl : Slug (reconciled c cs) ∉ l) by (simpl; by rewrite Hs).
    assert (Hag : ∀ name, agree (ID c) name v v') by (intros name; by apply (agree_elsewhere l v v' (reconciled c cs))).
    apply (customer_new _ _ _ c); try done.
    + by apply (el_customers _ _ _ E).
    + eapply Forall_impl; [exact Hps|]. intros ps. apply created_agree, Hag.
    + intros q Hq. apply Hall. by apply (Hag (PName q)).
Qed.

Lemma customer_outcome_before l v0 v v' cs :
  elsewhere l v0 v → cs_Slug cs ∉ l → customer_outcome v v' cs → customer_outcome v0 v' cs.
Proof.
  intros E Hl Ho. destruct Ho as [c Hc Hs Hin Hps Hkept|c Hnone Hs Hin Hps Hall].
  - assert (Hsl : Slug c ∉ l) by (by rewrite Hs). apply (el_customers _ _ _ E c Hsl) in Hc.
    assert (Hag : ∀ name, agree (ID c) name v0 v) by (intros name; by apply (agree_elsewhere l)).
    apply (customer_there _ _ _ c); try done.
    + eapply Forall_impl; [exact Hps|]. intros ps. apply outcome_agree; [apply Hag|apply agree_refl].
    + destruct Hkept as [Q V]. split.
      * intros q Hq. rewrite Q by done. by apply (Hag (PName q)).
      * intros q n Hq Hn. rewrite (V q n); [by apply (Hag (PName q))|by apply (Hag (PName q))|done].
  - apply (customer_new _ _ _ c); try done. intros x Hx Hxs. apply (Hnone x); [|done].
    apply (el_customers _ _ _ E); [by rewrite Hxs|done].
Qed.

Lemma apply_customers_done plan existing l s plan' s' :
  pp_dryRun plan = false → Forall (clean_customer stored_name stored_graph) l → NoDup (cs_Slug <$> l) →
  (∀ c, Slug c ∈ cs_Slug <$> l → c ∈ existing ↔ c ∈ fv_customers (fleet_of s)) →
  apply_customers unicode_print plan existing l s = (inl plan', s') →
  Forall (customer_outcome (fleet_of s) (fleet_of s')) l ∧
  elsewhere (cs_Slug <$> l) (fleet_of s) (fleet_of s').
Proof.
  revert plan s. induction l as [|cs l IH]; intros plan s Hdry Hclean Hnd Hex; simpl.
  { intros [<- <-]%ret_inl. split; [constructor|apply elsewhere_refl]. }
  apply Forall_cons in Hclean as [Hcs Hclean]. apply NoDup_cons in Hnd as [Hnotin Hnd].
  intros (plan1 & s1 & H1 & H2)%bind_inl.
  apply apply_customer_done in H1 as (Hd1 & E1 & M1); [|done..|].
  2: { intros c Hc. apply Hex. rewrite Hc. left. }
  apply IH in H2 as [M2 E2]; [|done..|].
  2: { intros c Hc. rewrite Hex by (by right). symmetry. apply (el_customers _ _ _ E1).
       rewrite list_elem_of_singleton. intros Heq. by rewrite Heq in Hc. }
  split; [constructor|].
  - by eapply customer_outcome_after.
  - apply Forall_forall. intros cs' Hcs'. rewrite Forall_forall in M2. apply M2 in Hcs' as Hout.
    eapply customer_outcome_before; [exact E1| |exact Hout].
    rewrite list_elem_of_singleton. intros Heq. apply Hnotin. rewrite <- Heq. by apply list_elem_of_fmap_2.
  - eapply elsewhere_trans; eapply elsewhere_mono; [|exact E1| |exact E2]; set_solver.
Qed.

Lemma apply_spec_done spec s plan s' :
  clean_spec stored_name stored_graph spec →
  apply_spec unicode_print false spec s = (inl plan, s') →
  Forall (customer_outcome (fleet_of s) (fleet_of s')) (Customers spec) ∧
  elsewhere (cs_Slug <$> Customers spec) (fleet_of s) (fleet_of s').
Proof.
  intros [Hnd Hclean] (l & s1 & (x & Hl & Hx)%call_inl & H)%bind_inl. apply law_customers in Hl as [-> Hv].
  apply bind_inl in H as (plan1 & s2 & Ha & H). assert (Hs1 : fleet_of s1 = fleet_of s) by by rewrite Hx.
  apply apply_customers_done in Ha; [|done..|by rewrite Hs1]. rewrite Hs1 in Ha.
  apply bind_inl in H as (u & s3 & Hp & [<- <-]%ret_inl).
  assert (Hs3 : ct_api s3 = ct_api s2) by (unfold plan_summary in Hp; repeat case_match; by eapply print_inl).
  by rewrite Hs3.
Qed.

(** What a run made of the spec is nothing to do for the next. *)
Lemma outcome_customer_matches v0 v cs : customer_outcome v0 v cs → customer_matches v cs.
Proof.
  intros [c _ Hs Hin Hps _|c _ Hs Hin Hps _]; exists (reconciled c cs); (split; [done|]); simpl; (split_and!; try done);
    eapply Forall_impl; try exact Hps; intros ps Hp.
  - by eapply outcome_matches.
  - destruct Hp as (pid & g & Hp & Hg & Heq). eexists _, 1%Z, g. by split; [exact Hp|].
Qed.

(** C39: [apply] does what the spec says and converges.  After a run over a
    clean spec that succeeds, every customer of the spec has its slug, name,
    quota and retention, the rest of an existing customer as it was.  Every
    pipeline of the spec either was there with the graph of the spec as its
    current version, and is as it was, also when it is inactive or of another
    class than the spec says; or was there with another graph, and has a new
    active version with the graph of the spec, its class unchanged; or is new,
    active, and of the class of the spec.  Everything the spec does not name is
    as it was.  A further run, on the fleet as it was left, plans and changes
    nothing.  Clean: every customer has a slug of its own, pipeline names are
    distinct within it, and names and graphs are stored as they are written. *)
Theorem apply_converges spec s plan s1 s2 plan2 s3 :
  clean_spec stored_name stored_graph spec →
  apply_spec unicode_print false spec s = (inl plan, s1) →
  fleet_of s2 = fleet_of s1 → apply_spec unicode_print false spec s2 = (inl plan2, s3) →
  Forall (customer_outcome (fleet_of s) (fleet_of s1)) (Customers spec) ∧
  elsewhere (cs_Slug <$> Customers spec) (fleet_of s) (fleet_of s1) ∧
  pp_changes plan2 = 0 ∧ fleet_of s3 = fleet_of s2.
Proof.
  intros Hclean H1 Hs2 H2. apply apply_spec_done in H1 as [Hout Helse]; [|done]. split; [done|]. split; [done|].
  apply (apply_spec_idle false spec s2 plan2 s3); [|done|exact H2]. rewrite Hs2.
  eapply Forall_impl; [exact Hout|]. intros cs. apply outcome_customer_matches.
Qed.

(** *** Export to a file, then apply the file *)

Lemma export_pipelines_spec l s r s' :
  export_pipelines l s = (inl r, s') → fleet_of s' = fleet_of s ∧ r = pipeline_specs (fleet_of s) l.
Proof.
  revert s r. induction l as [|p l IH]; intros s r; cbn [export_pipelines].
  { by intros [<- <-]%ret_inl. }
  fold (current p). unfold pipeline_specs. cbn [omap list_omap]. destruct (current p) as [v|] eqn:Hcur; [|apply IH].
  intros (pv & s1 & (x & Hv & Hx)%call_inl & (rest & s2 & Hr & [<- <-]%ret_inl)%bind_inl)%bind_inl.
  apply law_version in Hv as [Hv Hview]. assert (Hs1 : fleet_of s1 = fleet_of s) by by rewrite Hx.
  apply IH in Hr as [Hs2 ->]. split; [by rewrite Hs2|]. rewrite Hs1. simpl. by rewrite Hv.
Qed.

Lemma export_customers_spec l s r s' :
  export_customers l s = (inl r, s') →
  fleet_of s' = fleet_of s ∧ r = customer_spec (fleet_of s) <$> filter (λ c, Status c ≠ "deleted") l.
Proof.
  revert s r. induction l as [|c l IH]; intros s r; cbn [export_customers].
  { by intros [<- <-]%ret_inl. }
  case_bool_decide as Hdel; [rewrite filter_cons_False by (intros Hn; by apply Hn); apply IH|].
  rewrite filter_cons_True by done.
  intros (pipes & s1 & (x & Hp & Hx)%call_inl & (ps & s2 & He & (rest & s3 & Hr & [<- <-]%ret_inl)%bind_inl)%bind_inl)%bind_inl.
  apply law_pipelines in Hp as [-> Hv]. assert (Hs1 : fleet_of s1 = fleet_of s) by by rewrite Hx.
  apply export_pipelines_spec in He as [Hs2 ->]. apply IH in Hr as [Hs3 ->].
  rewrite Hs3, Hs2, Hs1. done.
Qed.

Lemma export_spec_inv s spec s' :
  export_spec s = (inl spec, s') → fleet_of s' = fleet_of s ∧ spec = fleet_spec (fleet_of s).
Proof.
  intros (l & s1 & (x & Hl & Hx)%call_inl & (r & s2 & He & [<- <-]%ret_inl)%bind_inl)%bind_inl.
  apply law_customers in Hl as [-> Hv]. assert (Hs1 : fleet_of s1 = fleet_of s) by by rewrite Hx.
  apply export_customers_spec in He as [Hs2 ->]. by rewrite Hs2, Hs1.
Qed.

(** What an export leaves in its file. *)
Lemma cmdExport_file file s s' :
  file ≠ "" → cmdExport unicode_print token ["-o"; file] s = (inl tt, s') →
  ∃ text, marshalYAML (fleet_spec (fleet_of s)) = inl text ∧ ct_files s' !! file = Some (export_header +:+ text) ∧
    fleet_of s' = fleet_of s.
Proof.
  intros Hf (u & s1 & Htok & H)%bind_inl.
  assert (s1 = s) as -> by (unfold requireToken in Htok; case_bool_decide; [done|by apply ret_inl in Htok as [_ ?]]).
  change (parseFlags unicode_print ["-o"; file]) with (inl {| fl_out := file; fl_file := ""; fl_dryRun := false |} : flags + error) in H.
  apply bind_inl in H as (spec & s2 & He & H). apply export_spec_inv in He as [Hs2 ->].
  destruct (marshalYAML _) as [text|e] eqn:Hy; [|done]. cbn [fl_out] in H. rewrite bool_decide_false in H by done.
  destruct (os_WriteError file); [done|]. injection H as <-. exists text. split; [done|]. simpl.
  split; [by rewrite lookup_insert_eq|done].
Qed.

Lemma call_out {A} (m : M S error A) (s : ctl S) r s' : call m s = (r, s') → ct_out s' = ct_out s.
Proof. unfold call. destruct (m (ct_api s)) as [r' x]. by intros [= _ <-]. Qed.

Lemma print_out line (s : ctl S) u s' : print line s = (inl u, s') → ct_out s' = ct_out s +:+ (line +:+ nl).
Proof. unfold print. by intros [= _ <-]. Qed.

Context (yaml_config : option members → option members) {YMLLAWS : SpecYAMLLaws YML yaml_config}.
Abbreviation altered := (altered yaml_config).

(** The line for a pipeline of an exported spec when its file is applied. *)
Definition file_line (dry : bool) (slug : string) (ps : PipelineSpec) : string :=
  (if altered ps
   then "  " +:+ (if dry then "would:" else "apply:") +:+ " new version + activate for pipeline "
        +:+ Quote unicode_print slug +:+ "/" +:+ Quote unicode_print (ps_Name ps)
   else "  skip:  pipeline " +:+ Quote unicode_print slug +:+ "/" +:+ Quote unicode_print (ps_Name ps) +:+ " unchanged") +:+ nl.
Definition file_lines (dry : bool) (cs : CustomerSpec) : string :=
  concat_str (file_line dry (cs_Slug cs) <$> cs_Pipelines cs).

(** How many of its pipelines are different in the file. *)
Definition count_altered (l : list PipelineSpec) : nat := length (filter (λ ps, altered ps = true) l).
Definition spec_altered (spec : Spec) : nat := sum_list (count_altered ∘ cs_Pipelines <$> Customers spec).

(** All that is printed. *)
Definition file_report (dry : bool) (spec : Spec) : string :=
  concat_str (file_lines dry <$> Customers spec)
  +:+ (if bool_decide (spec_altered spec = 0) then "everything up to date"
       else Itoa (Z.of_nat (spec_altered spec)) +:+
            (if dry then " change(s) planned (dry-run; nothing applied)" else " change(s) applied")) +:+ nl.

Lemma count_cons ps l : count_altered (ps :: l) = count_altered [ps] + count_altered l.
Proof. unfold count_altered. rewrite !filter_cons, filter_nil. by case_decide. Qed.

(** A stage of the run: it prints [text] and plans [n] changes. *)
Record stage (n : nat) (text : string) (plan plan' : planPrinter) (s s' : ctl S) : Prop := {
  st_dry : pp_dryRun plan' = pp_dryRun plan;
  st_changes : pp_changes plan' = n + pp_changes plan;
  st_out : ct_out s' = ct_out s +:+ text;
  st_same : pp_dryRun plan = true ∨ n = 0 → fleet_of s' = fleet_of s;
}.

Lemma stage_refl plan s : stage 0 "" plan plan s s.
Proof. split; try done. by rewrite app_str_nil_r. Qed.

Lemma stage_trans n m t u p1 p2 p3 s1 s2 s3 :
  stage n t p1 p2 s1 s2 → stage m u p2 p3 s2 s3 → stage (n + m) (t +:+ u) p1 p3 s1 s3.
Proof.
  intros [D1 C1 O1 S1] [D2 C2 O2 S2]. split; [congruence|lia|by rewrite O2, O1, app_str_assoc|].
  intros Hor. rewrite S2, S1; [done| |]; rewrite ?D1; destruct Hor as [?|?]; auto; right; lia.
Qed.

Lemma apply_pipeline_file plan c existing p n g s plan' s' :
  let ps := {| ps_Name := PName p; ps_TargetClass := TargetClass p; ps_Graph := g |} in
  byName existing (PName p) = Some p → current p = Some n → fv_version (fleet_of s) (PID p) n = Some g →
  p ∈ fv_pipelines (fleet_of s) (ID c) →
  apply_pipeline unicode_print plan c existing (reread_pipeline yaml_config ps) s = (inl plan', s') →
  stage (count_altered [ps]) (file_line (pp_dryRun plan) (Slug c) ps) plan plan' s s' ∧
  local (ID c) [PName p] (fleet_of s) (fleet_of s').
Proof.
  intros ps Hby Hcur Hg Hp. unfold apply_pipeline, file_line, count_altered.
  change (ps_Name (reread_pipeline yaml_config ps)) with (PName p). rewrite Hby. fold (current p). rewrite Hcur.
  intros (changed & s1 & (pv & s2 & Hv & [<- <-]%ret_inl)%bind_inl & H)%bind_inl.
  pose proof (call_out _ _ _ _ Hv) as Hout. apply call_inl in Hv as (x & Hv & Hx).
  apply law_version in Hv as [Hv Hview]. assert (VGraph pv = g) as Hpv by congruence. rewrite Hpv in H.
  assert (Hs2 : fleet_of s2 = fleet_of s) by by rewrite Hx.
  change (negb (graphEqual g _)) with (altered ps) in H. rewrite filter_cons. destruct (altered ps) eqn:Halt; cbn [negb] in H.
  - rewrite decide_True by done.
    apply bind_inl in H as (plan1 & s3 & Hadd & H).
    apply bind_inl in Hadd as (u & s4 & Hprint & [<- <-]%ret_inl).
    pose proof (print_out _ _ _ _ Hprint) as Hout2. apply print_inl in Hprint. cbn [pp_dryRun] in H.
    destruct (pp_dryRun plan) eqn:Hd.
    + apply bind_inl in H as (u2 & s5 & [_ <-]%ret_inl & [<- <-]%ret_inl). rewrite Hprint, Hs2.
      split; [|apply local_refl]. split; [done|done|by rewrite Hout2, Hout|by rewrite Hprint].
    + apply bind_inl in H as (u2 & s5 & Hpush & [<- <-]%ret_inl).
      assert (Hout5 : ct_out s5 = ct_out s4).
      { apply bind_inl in Hpush as (ver & s6 & Hv1%wrap_inl & Ha%wrap_inl).
        by rewrite (call_out _ _ _ _ Ha), (call_out _ _ _ _ Hv1). }
      destruct (push_version (ID c) p (PName p) (ps_Graph (reread_pipeline yaml_config ps))
        ("new version for " +:+ Quote unicode_print (PName p)) ("activate " +:+ Quote unicode_print (PName p)) s4
        (λ ver, " v" +:+ Itoa (Version ver)) u2 s5) as [Hlocal _]; [by rewrite Hprint, Hs2|done|exact Hpush|].
      rewrite Hprint, Hs2 in Hlocal. split; [|done].
      split; [done|done|by rewrite Hout5, Hout2, Hout|]. intros [?|?]; [congruence|done].
  - rewrite decide_False by done. apply bind_inl in H as (u & s3 & Hprint & [<- <-]%ret_inl).
    pose proof (print_out _ _ _ _ Hprint) as Hout2. apply print_inl in Hprint.
    rewrite Hprint, Hs2. split; [|apply local_refl].
    split; [done|done|by rewrite Hout2, Hout|by rewrite Hprint].
Qed.

(** The pipelines of a customer, as they were in the fleet [v] when they were
    listed. *)
Lemma apply_specs_file v plan c l s plan' s' :
  well_formed v → NoDup l → (∀ p, p ∈ l → p ∈ fv_pipelines v (ID c)) →
  (∀ p, p ∈ l → p ∈ fv_pipelines (fleet_of s) (ID c) ∧ ∀ n, fv_version (fleet_of s) (PID p) n = fv_version v (PID p) n) →
  apply_specs unicode_print plan c (fv_pipelines v (ID c)) (reread_pipeline yaml_config <$> pipeline_specs v l) s
    = (inl plan', s') →
  stage (count_altered (pipeline_specs v l)) (concat_str (file_line (pp_dryRun plan) (Slug c) <$> pipeline_specs v l))
    plan plan' s s' ∧
  local (ID c) (PName <$> l) (fleet_of s) (fleet_of s').
Proof.
  intros Hv. revert plan s. induction l as [|p l IH]; intros plan s Hnd Hl Hs.
  { intros [<- <-]%ret_inl. split; [apply stage_refl|apply local_refl]. }
  apply NoDup_cons in Hnd as [Hnotin Hnd]. unfold pipeline_specs. cbn [omap list_omap].
  change (list_omap _ _ _ l) with (pipeline_specs v l).
  assert (Hrest : ∀ q, q ∈ l → PName q ≠ PName p).
  { intros q Hq Hname. apply Hnotin. rewrite <- (wf_names v Hv (ID c) q p); [done| | |done]; apply Hl; [by right|by left]. }
  destruct (Hs p ltac:(left)) as [Hp Hpv].
  assert (Hskip : local (ID c) (PName <$> l) (fleet_of s) (fleet_of s') →
    local (ID c) (PName <$> p :: l) (fleet_of s) (fleet_of s')).
  { apply local_mono. set_solver. }
  destruct (current p) as [n|] eqn:Hcur; simpl.
  2: { intros Hrun. apply IH in Hrun as [? ?]; [by split; [|apply Hskip]|done|..]; intros; [apply Hl|apply Hs]; by right. }
  destruct (fv_version v (PID p) n) as [g|] eqn:Hg; simpl.
  2: { intros Hrun. apply IH in Hrun as [? ?]; [by split; [|apply Hskip]|done|..]; intros; [apply Hl|apply Hs]; by right. }
  intros (plan1 & s1 & H1 & H2)%bind_inl.
  destruct (apply_pipeline_file plan c (fv_pipelines v (ID c)) p n g s plan1 s1) as [St1 L1]; try done.
  { apply byName_of; [done|]. apply Hl. by left. }
  { by rewrite Hpv. }
  apply IH in H2 as [St2 L2]; [|done| |].
  - split.
    + rewrite concat_str_cons. rewrite <- (st_dry _ _ _ _ _ _ St1) at 2.
      rewrite count_cons. exact (stage_trans _ _ _ _ _ _ _ _ _ _ St1 St2).
    + eapply local_trans; eapply local_mono; [|exact L1| |exact L2]; set_solver.
  - intros q Hq. apply Hl. by right.
  - intros q Hq. destruct (Hs q ltac:(by right)) as [Hqs Hqv]. pose proof (Hrest q Hq) as Hne. split.
    + apply (lo_names _ _ _ _ L1); [|done]. by rewrite list_elem_of_singleton.
    + intros m. rewrite (lo_versions _ _ _ _ L1 (ID c)); [done..|]. right. by rewrite list_elem_of_singleton.
Qed.

Lemma apply_customer_file v plan c s plan' s' :
  well_formed v → c ∈ fv_customers v → fv_pipelines (fleet_of s) (ID c) = fv_pipelines v (ID c) →
  (∀ p n, p ∈ fv_pipelines v (ID c) → fv_version (fleet_of s) (PID p) n = fv_version v (PID p) n) →
  apply_customer unicode_print plan (fv_customers v) (reread_customer yaml_config (customer_spec v c)) s = (inl plan', s') →
  stage (count_altered (cs_Pipelines (customer_spec v c))) (file_lines (pp_dryRun plan) (customer_spec v c)) plan plan' s s' ∧
  ∃ names, local (ID c) names (fleet_of s) (fleet_of s').
Proof.
  intros Hv Hc Hp Hver. unfold apply_customer, matched. change (cs_Slug (reread_customer _ _)) with (Slug c).
  rewrite (bySlug_of v c Hv Hc). intros ([p1 o] & s1 & [[= <- <-] <-]%ret_inl & H)%bind_inl.
  apply bind_inl in H as (p2 & s2 & Hrec & H). unfold reconcile in Hrec.
  rewrite update_for_same in Hrec by done. apply ret_inl in Hrec as [<- <-].
  rewrite (bool_decide_false (ID c = "")), andb_false_r in H by (by apply (wf_named v Hv)).
  unfold applyPipelines in H. apply bind_inl in H as (l & s3 & Hl & H).
  pose proof (call_out _ _ _ _ Hl) as Hout. apply call_inl in Hl as (x & Hl & Hx).
  apply law_pipelines in Hl as [-> Hview]. assert (Hs3 : fleet_of s3 = fleet_of s) by by rewrite Hx.
  rewrite Hp in H. apply (apply_specs_file v) in H as [St L]; [|done|by apply wf_pipelines|done|].
  - rewrite Hs3 in L. split; [|eauto]. destruct St as [D C O St].
    split; [done|done|by rewrite O, Hout|]. intros Hor. by rewrite St, Hs3.
  - intros p Hin. rewrite Hs3, Hp. split; [done|]. intros n. by apply Hver.
Qed.

Lemma apply_customers_file v plan l s plan' s' :
  well_formed v → NoDup l → (∀ c, c ∈ l → c ∈ fv_customers v) →
  (∀ c, c ∈ l → fv_pipelines (fleet_of s) (ID c) = fv_pipelines v (ID c) ∧
     ∀ p n, p ∈ fv_pipelines v (ID c) → fv_version (fleet_of s) (PID p) n = fv_version v (PID p) n) →
  apply_customers unicode_print plan (fv_customers v) (reread_customer yaml_config <$> (customer_spec v <$> l)) s = (inl plan', s') →
  stage (sum_list (count_altered ∘ cs_Pipelines <$> (customer_spec v <$> l)))
    (concat_str (file_lines (pp_dryRun plan) <$> (customer_spec v <$> l))) plan plan' s s'.
Proof.
  intros Hv. revert plan s. induction l as [|c l IH]; intros plan s Hnd Hl Hs.
  { intros [<- <-]%ret_inl. apply stage_refl. }
  apply NoDup_cons in Hnd as [Hnotin Hnd]. intros (plan1 & s1 & H1 & H2)%bind_inl.
  destruct (Hs c ltac:(left)) as [Hp Hver].
  apply (apply_customer_file v) in H1 as [St1 (names & L1)]; [|done|apply Hl; by left|done..].
  apply IH in H2 as St2; [|done| |].
  - rewrite !fmap_cons, concat_str_cons. cbn [sum_list]. rewrite <- (st_dry _ _ _ _ _ _ St1) at 2.
    exact (stage_trans _ _ _ _ _ _ _ _ _ _ St1 St2).
  - intros d Hd. apply Hl. by right.
  - intros d Hd. destruct (Hs d ltac:(by right)) as [Hdp Hdv].
    assert (Hid : ID d ≠ ID c).
    { intros Hid. apply Hnotin. rewrite <- (wf_ids v Hv d c); [done| | |done]; apply Hl; [by right|by left]. }
    split; [by rewrite (lo_others _ _ _ _ L1)|]. intros p n Hin. rewrite (lo_versions _ _ _ _ L1 (ID d)); [by apply Hdv| |by left].
    by rewrite Hdp.
Qed.

Lemma parse_apply file dryRun :
  parseFlags unicode_print (["-f"; file] ++ (if dryRun : bool then ["--dry-run"] else [])) =
    inl {| fl_out := ""; fl_file := file; fl_dryRun := dryRun |}.
Proof. by destruct dryRun. Qed.

(** C40: An export applied from its file.  When a fleet is exported to a file
    and the file is applied to the fleet it was exported from, with or without
    --dry-run, the run prints and plans exactly one new version for every
    exported pipeline whose graph is not the same after the trip through YAML,
    and calls every other pipeline unchanged; no customer and no other pipeline
    is touched by the plan.  A dry run leaves the fleet as it was, and so does a
    real one when every graph survives. *)
Theorem export_then_apply file dryRun s s1 s2 s3 :
  file ≠ "" → cmdExport unicode_print token ["-o"; file] s = (inl tt, s1) →
  fleet_of s2 = fleet_of s1 → ct_files s2 !! file = ct_files s1 !! file →
  cmdApply unicode_print token (["-f"; file] ++ (if dryRun : bool then ["--dry-run"] else [])) s2 = (inl tt, s3) →
  let exported := fleet_spec (fleet_of s) in
  ct_out s3 = ct_out s2 +:+ file_report dryRun exported ∧
  (dryRun = true ∨ spec_altered exported = 0 → fleet_of s3 = fleet_of s2).
Proof.
  intros Hf (text & Hy & Hfile & Hs1)%cmdExport_file; [|done]. intros Hs2 Hsame Ha exported. rewrite Hs1 in Hs2.
  apply bind_inl in Ha as (u & s4 & Htok & H).
  assert (s4 = s2) as -> by (unfold requireToken in Htok; case_bool_decide; [done|by apply ret_inl in Htok as [_ ?]]).
  rewrite parse_apply in H. cbn [fl_file fl_dryRun] in H. rewrite bool_decide_false in H by done.
  apply bind_inl in H as (files & s5 & [= <- <-] & H). rewrite Hsame, Hfile, (law_yaml _ _ Hy) in H.
  apply bind_inl in H as (plan & s6 & H & [_ <-]%ret_inl). fold exported in H.
  apply bind_inl in H as (l & s7 & Hl & H). pose proof (call_out _ _ _ _ Hl) as Hout.
  apply call_inl in Hl as (x & Hl & Hx). apply law_customers in Hl as [-> Hv].
  assert (Hs7 : fleet_of s7 = fleet_of s2) by by rewrite Hx.
  apply bind_inl in H as (plan1 & s8 & H & Hend). rewrite Hs2 in H.
  apply (apply_customers_file (fleet_of s)) in H as St; [|apply law_ok| | |].
  - apply bind_inl in Hend as (u2 & s9 & Hp & [<- <-]%ret_inl). destruct St as [D C O St]. simpl in D, C.
    fold exported in C. change (sum_list _) with (spec_altered exported) in C. rewrite Nat.add_0_r in C.
    unfold plan_summary in Hp. rewrite C, D in Hp.
    assert (Hs9 : ct_api s9 = ct_api s8) by (repeat case_match; by eapply print_inl).
    split.
    + unfold file_report. rewrite <- Hout. rewrite <- app_str_assoc. simpl in O. change (customer_spec _ <$> _) with (Customers exported) in O.
      rewrite <- O. destruct (bool_decide _); [by rewrite (print_out _ _ _ _ Hp)|].
      destruct dryRun; rewrite (print_out _ _ _ _ Hp), !app_str_assoc; done.
    + intros Hor. rewrite Hs9, St, Hs7; [done|]. destruct Hor as [?|?]; [by left|by right].
  - apply NoDup_filter. unfold sortCustomers. rewrite merge_sort_Permutation. apply wf_customers, law_ok.
  - intros c [_ Hc]%list_elem_of_filter. unfold sortCustomers in Hc. by rewrite merge_sort_Permutation in Hc.
  - intros c _. rewrite Hs7, Hs2. done.
Qed.

End Apply.

(** ** A dry run sends no change *)

Section DryRun.
Context {S : Type} (API : FleetAPI S) (unicode_print : N → bool).

(** The same API with every changing endpoint refusing. *)
Definition read_only : FleetAPI S := {|
  listCustomers := listCustomers; listPipelines := listPipelines; getPipelineVersion := getPipelineVersion;
  createCustomer _ _ := mthrow (ErrNew "not allowed"); updateCustomer _ _ := mthrow (ErrNew "not allowed");
  createPipeline _ _ _ _ := mthrow (ErrNew "not allowed"); createPipelineVersion _ _ := mthrow (ErrNew "not allowed");
  activateVersion _ _ := mthrow (ErrNew "not allowed") |}.

Abbreviation C := (M (ctl S) error).
Abbreviation dry p := (pp_dryRun p = true).

(** Two computations that run alike, and leave a dry plan dry. *)
Definition alike (m m' : C planPrinter) : Prop :=
  ∀ s, m s = m' s ∧ ∀ p s', m s = (inl p, s') → dry p.

Lemma alike_bind {A} (m : C A) (f f' : A → C planPrinter) :
  (∀ a, (∃ s s', m s = (inl a, s')) → alike (f a) (f' a)) → alike (m ≫= f) (m ≫= f').
Proof.
  intros Hf s. unfold mbind, M_bind. destruct (m s) as [[a|e] s1] eqn:Hm; [|done]. apply Hf. eauto.
Qed.

Lemma alike_plan (m m' : C planPrinter) (f f' : planPrinter → C planPrinter) :
  alike m m' → (∀ p, dry p → alike (f p) (f' p)) → alike (m ≫= f) (m' ≫= f').
Proof.
  intros Hm Hf s. destruct (Hm s) as [Heq Hd]. unfold mbind, M_bind. rewrite <- Heq.
  destruct (m s) as [[a|e] s1]; [|done]. by apply Hf, (Hd a s1).
Qed.

Lemma alike_ret p : dry p → alike (mret p) (mret p).
Proof. intros Hd s. split; [done|]. by intros q s' [<- _]%ret_inl. Qed.

Lemma alike_add p text : dry p → alike (plan_add p text) (plan_add p text).
Proof. intros Hd s. split; [done|]. by intros q s' (Hq & _)%plan_add_inl; rewrite Hq. Qed.

Lemma alike_pipeline plan cust existing ps :
  dry plan → alike (@apply_pipeline S API unicode_print plan cust existing ps)
                   (@apply_pipeline S read_only unicode_print plan cust existing ps).
Proof.
  intros Hd. unfold apply_pipeline. destruct (byName existing (ps_Name ps)) as [p|].
  - apply alike_bind. intros [] _; simpl.
    + apply alike_plan; [by apply alike_add|]. intros q Hq. rewrite Hq.
      apply alike_bind. intros ? _. by apply alike_ret.
    + apply alike_bind. intros ? _. by apply alike_ret.
  - apply alike_plan; [by apply alike_add|]. intros q Hq. rewrite Hq.
    apply alike_bind. intros ? _. by apply alike_ret.
Qed.

Lemma alike_specs plan cust existing specs :
  dry plan → alike (@apply_specs S API unicode_print plan cust existing specs)
                   (@apply_specs S read_only unicode_print plan cust existing specs).
Proof.
  revert plan. induction specs as [|ps specs IH]; intros plan Hd; simpl; [by apply alike_ret|].
  apply alike_plan; [by apply alike_pipeline|done].
Qed.

Lemma alike_planned plan cs l :
  dry plan → alike (@plan_pipelines S unicode_print plan cs l) (@plan_pipelines S unicode_print plan cs l).
Proof.
  revert plan. induction l as [|p l IH]; intros plan Hd; simpl; [by apply alike_ret|].
  apply alike_plan; [by apply alike_add|done].
Qed.

Lemma alike_customer plan existing cs :
  dry plan → alike (@apply_customer S API unicode_print plan existing cs)
                   (@apply_customer S read_only unicode_print plan existing cs).
Proof.
  intros Hd. unfold apply_customer. destruct (matched existing cs) as [c|].
  - intros s. unfold mbind at 1 3 5, M_bind at 1 3 5. simpl. revert s.
    change (alike (@reconcile S API unicode_print plan c cs ≫= λ plan,
        if pp_dryRun plan && bool_decide (ID c = "") then plan_pipelines unicode_print plan cs (cs_Pipelines cs)
        else @applyPipelines S API unicode_print plan c (cs_Pipelines cs))
      (@reconcile S read_only unicode_print plan c cs ≫= λ plan,
        if pp_dryRun plan && bool_decide (ID c = "") then plan_pipelines unicode_print plan cs (cs_Pipelines cs)
        else @applyPipelines S read_only unicode_print plan c (cs_Pipelines cs))).
    apply alike_plan.
    + unfold reconcile. case_bool_decide; [by apply alike_ret|].
      apply alike_plan; [by apply alike_add|]. intros q Hq. rewrite Hq.
      apply alike_bind. intros ? _. by apply alike_ret.
    + intros q Hq. destruct (_ && _); [by apply alike_planned|].
      unfold applyPipelines. apply alike_bind. intros l _. by apply alike_specs.
  - intros s. unfold mbind, M_bind.
    destruct (plan_add plan ("create customer " +:+ Quote unicode_print (cs_Name cs)) s) as [[q|e] s1] eqn:Hp; [|done].
    apply plan_add_inl in Hp as (Hq & _). rewrite Hd in Hq. rewrite Hq. by apply alike_planned.
Qed.

Lemma alike_customers plan existing l :
  dry plan → alike (@apply_customers S API unicode_print plan existing l)
                   (@apply_customers S read_only unicode_print plan existing l).
Proof.
  revert plan. induction l as [|cs l IH]; intros plan Hd; simpl; [by apply alike_ret|].
  apply alike_plan; [by apply alike_customer|done].
Qed.

(** A dry run sends no change.  Whatever the spec and whatever the API
    answers, the run is the same, output and errors included, when every
    endpoint that creates, updates or activates something is refused. *)
Theorem dry_run_reads_only spec (s : ctl S) :
  @apply_spec S API unicode_print true spec s = @apply_spec S read_only unicode_print true spec s.
Proof.
  cut (alike (@apply_spec S API unicode_print true spec) (@apply_spec S read_only unicode_print true spec));
    [intros Ha; apply Ha|].
  unfold apply_spec. change (@listCustomers S read_only) with (@listCustomers S API). apply alike_bind. intros l _.
  apply alike_plan; [by apply alike_customers|]. intros q Hq. apply alike_bind. intros ? _. by apply alike_ret.
Qed.

End DryRun.


(** ** Runs against the control plane in memory *)

#[local] Existing Instance mem_API.

Definition all_printable : N → bool := λ _, true.

Definition demo_graph (processors : option (list GraphNode)) (exporters : list GraphNode) : PipelineGraph :=
  {| Signals := Some ["logs"]; Processors := processors; Exporters := Some exporters |}.
Definition demo_exporter : GraphNode :=
  {| Type_ := "otlphttp"; NodeName := None; Config := Some [("endpoint", JStr "https://backend.acme.example.com")] |}.
Definition demo_fleet_spec (g : PipelineGraph) : Spec := {| Customers := [
  {| cs_Name := "ACME Corp"; cs_Slug := "acme-corp"; cs_RateLimitItemsPerSec := Some 500%Z; cs_RetentionDays := None;
     cs_Pipelines := [ {| ps_Name := "Forward Logs"; ps_TargetClass := ""; ps_Graph := g |} ] |} ] |}.

Definition empty_memory : memory := {| mm_customers := []; mm_pipelines := []; mm_versions := [] |}.
Definition fresh : ctl mem := Build_ctl (exist (λ d, memory_ok d = true) empty_memory eq_refl) ∅ "" "".

Definition applied (g : PipelineGraph) (s : ctl mem) := apply_spec all_printable false (demo_fleet_spec g) s.

Definition clean_graph := demo_graph (Some []) [demo_exporter].
Definition demo_applied : ctl mem := (applied clean_graph fresh).2.

(** A list of processors that is left out comes back empty: every run makes a
    new version. *)
Example omitted_processors_never_settle :
  let g := demo_graph None [demo_exporter] in
  let s1 := (applied g fresh).2 in let s2 := (applied g s1).2 in
  (λ r : planPrinter + error, match r with inl p => pp_changes p | inr _ => 0 end) <$>
    [(applied g s1).1; (applied g s2).1] = [1; 1] ∧
  LatestVersion <$> fv_pipelines (mem_view (ct_api s2)) "c0" = [Some 2%Z].
Proof. split; vm_compute; reflexivity. Qed.

(** A pipeline whose activation failed is compared with its latest version:
    the next run calls it unchanged, and it stays inactive. *)
Example failed_activation_is_up_to_date :
  let g := demo_graph (Some []) [] in
  let s1 := (applied g fresh).2 in
  (match (applied g fresh).1 with inl _ => false | inr _ => true end) = true ∧
  (match (applied g s1).1 with inl p => pp_changes p | inr _ => 1 end) = 0 ∧
  ActiveVersion <$> fv_pipelines (mem_view (ct_api s1)) "c0" = [None].
Proof. split_and!; vm_compute; reflexivity. Qed.

(** The class of a pipeline that is there is not compared: the run finds
    nothing to do, and the pipeline stays at the edge. *)
Example class_is_not_reconciled :
  let of_class c := {| Customers := [
    {| cs_Name := "ACME Corp"; cs_Slug := "acme-corp"; cs_RateLimitItemsPerSec := None; cs_RetentionDays := None;
       cs_Pipelines := [ {| ps_Name := "Forward Logs"; ps_TargetClass := c;
                            ps_Graph := demo_graph (Some []) [demo_exporter] |} ] |} ] |} in
  let s1 := (apply_spec all_printable false (of_class "edge") fresh).2 in
  let '(r, s2) := apply_spec all_printable false (of_class "forwarding") s1 in
  (match r with inl p => pp_changes p | inr _ => 1 end) = 0 ∧
  TargetClass <$> fv_pipelines (mem_view (ct_api s2)) "c0" = ["edge"].
Proof. vm_compute. by split. Qed.

Lemma run_of {S A} (m : M S error A) s a : (m s).1 = inl a → m s = (inl a, (m s).2).
Proof. destruct (m s); simpl. by intros ->. Qed.

Definition plan_of (n : nat) : planPrinter := {| pp_dryRun := false; pp_changes := n |}.

Lemma demo_clean : clean_spec TrimSpace complete (demo_fleet_spec clean_graph).
Proof.
  split; [by repeat constructor; set_solver|].
  constructor; [|constructor]. split_and!; [discriminate|by vm_compute|simpl; repeat constructor; set_solver|].
  constructor; [|constructor]. split; by vm_compute.
Qed.

Lemma demo_first : applied clean_graph fresh = (inl (plan_of 3), demo_applied).
Proof. apply run_of. vm_compute. reflexivity. Qed.

Lemma demo_second : applied clean_graph demo_applied = (inl (plan_of 0), (applied clean_graph demo_applied).2).
Proof. apply run_of. vm_compute. reflexivity. Qed.

Lemma apply_converges_witness :
  applied clean_graph fresh = (inl (plan_of 3), demo_applied) ∧
  Forall (customer_outcome (mem_view (ct_api fresh)) (mem_view (ct_api demo_applied))) (Customers (demo_fleet_spec clean_graph)) ∧
  elsewhere (cs_Slug <$> Customers (demo_fleet_spec clean_graph)) (mem_view (ct_api fresh)) (mem_view (ct_api demo_applied)) ∧
  pp_changes (plan_of 0) = 0 ∧ mem_view (ct_api (applied clean_graph demo_applied).2) = mem_view (ct_api demo_applied).
Proof.
  split; [exact demo_first|].
  exact (apply_converges all_printable mem_view TrimSpace complete (demo_fleet_spec clean_graph) fresh (plan_of 3)
    demo_applied demo_applied (plan_of 0) _ demo_clean demo_first eq_refl demo_second).
Defined.

(** *** A file for a fleet *)

#[export] Instance json_eq_dec : EqDecision json.
Proof. refine (λ v w, cast_if (decide (json_eqb v w = true))); by rewrite <- json_eqb_true. Defined.
#[export] Instance GraphNode_eq_dec : EqDecision GraphNode.
Proof. solve_decision. Defined.
#[export] Instance PipelineGraph_eq_dec : EqDecision PipelineGraph.
Proof. solve_decision. Defined.
#[export] Instance PipelineSpec_eq_dec : EqDecision PipelineSpec.
Proof. solve_decision. Defined.
#[export] Instance CustomerSpec_eq_dec : EqDecision CustomerSpec.
Proof. solve_decision. Defined.
#[export] Instance Spec_eq_dec : EqDecision Spec.
Proof. solve_decision. Defined.

(** A node stored with [config: null], next to one with a configuration. *)
Definition null_exporter : GraphNode := {| Type_ := "debug"; NodeName := None; Config := None |}.
Definition null_spec : Spec := {| Customers := [
  {| cs_Name := "ACME Corp"; cs_Slug := "acme-corp"; cs_RateLimitItemsPerSec := Some 500%Z; cs_RetentionDays := None;
     cs_Pipelines := [ {| ps_Name := "Forward Logs"; ps_TargetClass := ""; ps_Graph := clean_graph |};
                       {| ps_Name := "Debug"; ps_TargetClass := ""; ps_Graph := demo_graph (Some []) [null_exporter] |} ] |} ] |}.
Definition null_fleet : ctl mem := (apply_spec all_printable false null_spec fresh).2.
Definition null_exported : Spec := fleet_spec (mem_view (ct_api null_fleet)).

(** A YAML for one spec: a nil map is written as an empty one. *)
Definition yaml_map (c : option members) : option members := Some (default [] c).
Definition yaml_of (spec0 : Spec) (text0 : string) : SpecYAML := {|
  yamlUnmarshalStrict text :=
    if bool_decide (text = export_header +:+ text0) then inl (reread yaml_map spec0) else inr (ErrNew "not a spec");
  marshalYAML spec := if bool_decide (spec = spec0) then inl text0 else inr (ErrNew "not written") |}.
Lemma yaml_of_laws spec0 text0 : SpecYAMLLaws (yaml_of spec0 text0) yaml_map.
Proof.
  intros spec text. unfold yaml_of. cbn [marshalYAML yamlUnmarshalStrict]. case_bool_decide as Hs; [|done].
  intros [= <-]. by rewrite bool_decide_true, Hs.
Qed.
#[local] Instance null_yaml : SpecYAML := yaml_of null_exported "customers: [acme-corp]".
#[local] Instance null_yaml_laws : SpecYAMLLaws null_yaml yaml_map := yaml_of_laws _ _.
#[local] Instance demo_files : Files := {| os_WriteError _ := None |}.

Definition null_written := cmdExport all_printable "token" ["-o"; "fleet.yaml"] null_fleet.
Definition null_apply (dryRun : bool) (s : ctl mem) : (unit + error) * ctl mem :=
  cmdApply all_printable "token" (["-f"; "fleet.yaml"] ++ if dryRun then ["--dry-run"] else []) s.

(** The export of the fleet is not up to date with it: the file has an empty
    object where the fleet has null, and applying it makes a new version.  After
    that it is. *)
Example null_config_is_replaced :
  let s1 := null_written.2 in let s2 := (null_apply false s1).2 in
  spec_altered yaml_map null_exported = 1 ∧
  LatestVersion <$> fv_pipelines (mem_view (ct_api s1)) "c0" = [Some 1; Some 1]%Z ∧
  LatestVersion <$> fv_pipelines (mem_view (ct_api s2)) "c0" = [Some 1; Some 2]%Z ∧
  mem_view (ct_api (null_apply false s2).2) = mem_view (ct_api s2).
Proof. split_and!; vm_compute; reflexivity. Qed.

Lemma null_exports : null_written = (inl tt, null_written.2).
Proof. apply run_of. vm_compute. reflexivity. Qed.
Lemma null_applies : null_apply true null_written.2 = (inl tt, (null_apply true null_written.2).2).
Proof. apply run_of. vm_compute. reflexivity. Qed.

Lemma export_then_apply_witness :
  spec_altered yaml_map null_exported = 1 ∧
  ct_out (null_apply true null_written.2).2
    = ct_out null_written.2 +:+ file_report all_printable yaml_map true null_exported ∧
  mem_view (ct_api (null_apply true null_written.2).2) = mem_view (ct_api null_written.2).
Proof.
  split; [vm_compute; reflexivity|].
  destruct (export_then_apply all_printable "token" mem_view TrimSpace complete yaml_map "fleet.yaml" true null_fleet
    null_written.2 null_written.2 (null_apply true null_written.2).2) as [Hout Hsame].
  - discriminate.
  - exact null_exports.
  - reflexivity.
  - reflexivity.
  - exact null_applies.
  - split; [exact Hout|]. apply Hsame. by left.
Defined.
